(* ===== verification/_CoqProject ===== *)
-Q . S2P
Prelude.v
Klist.v
KString.v
Stack.v
KHeap.v
Kmalloc.v
Segment.v
Region.v
Mmu.v
As.v
AsInv.v
AsSpec.v
Timer.v
Scheduler.v
Interrupt.v
Process.v
ProcessInv.v
ProcessLife.v
ProcessFork.v
ProcessWait.v
ProcessSpec.v
Channel.v
Device.v
Fs.v
File.v
Malloc.v
Numbers.v
Stdio.v
BlockCache.v
Ext2.v
Ext2Inv.v
Ext2Spec.v
UMem.v
Driver.v
Ring.v
Wire.v
Keyboard.v
Terminal.v
Fiu.v
FiuSpec.v
InitConf.v
InitConfSpec.v
