(* ===== verification/Prelude.v ===== *)
(** * A verification of zOS

    zOS is a small micro-kernel for i386 with its user land.  The core of the
    kernel (kernel/core) allocates memory, schedules threads, and lets processes
    exchange messages over channels and open files; most file systems and
    drivers are processes that serve requests.  This library models the core, and
    the file system of the user land with the libraries below it, as functions on
    explicit states and proves what the parts promise.

    ** The parts and the files

    - [Prelude]: machine integers, the monad the code is written in, total
      correctness, and lemmas on lists and on tilings of intervals.
    - [Klist]: include/kernel/klist.h.  The intrusive lists, as pointers in a
      memory; [klist_rep] relates them to lists.  All other files use lists.
    - [KString]: kernel/core/string.c and the string routines of the libc, on a
      memory of bytes.  Other files use strings as lists of characters, compared
      with [cmp_chars], which [strcmp] and [strncmp] are proved to compute.
    - [Stack]: i386_setup_stack of kernel/arch/i386/thread.c, which writes the
      arguments of a new thread on its stack, on that memory.
    - [KHeap]: the interface of the kernel heap, a type class with the laws the
      other parts rely on.  [Kmalloc]: kernel/core/mem/kmalloc.c, the list of
      blocks of the heap; it is an instance of the class.
    - [Segment]: kernel/core/mem/segment.c, the allocator of physical pages.
    - [Region]: kernel/core/mem/region.c, the virtual ranges of one address space.
    - [Mmu]: mapping and unmapping of kernel/arch/i386/mmu.c, on page tables in
      physical memory, which the code reaches through the directory entry that
      points to the directory; [walk] is the translation of the processor.
    - [As]: kernel/core/mem/as.c with the rest of mmu.c and the page faults of
      kernel/arch/i386/page_fault.c; [AsInv] has the invariant of an address space
      and the lemmas of the operations, [AsSpec] the theorems.
    - [Timer]: kernel/core/timer.c and time.c.
    - [Scheduler]: kernel/core/scheduler/scheduler.c and event.c, cpu_add_thread
      of cpu.c, and the blocking of threads of kernel/core/proc/thread.c.
    - [Interrupt]: kernel/core/interrupt.c, the system calls on interrupts and, for the
      PC, the interrupt controllers (kernel/arch/i386/pic.c), on top of the scheduler.
    - [Process]: processes and threads (process.c, thread.c, wait.c and kthread.c of
      kernel/core/proc, kernel/arch/i386/thread.c), on top of both.  The rest of the
      kernel is a class of operations ([ProcOps]) with laws ([ProcEnv]).  Its
      [thread_destroy] is what the scheduler calls through the class [Reaper].
      [ProcessInv] has the invariant and shows that [thread_destroy] is an instance of
      [Reaper], [ProcessLife] has the lemmas on exit and wait, [ProcessFork] those on
      fork, and [ProcessSpec] the theorems.
    - [Channel]: kernel/core/fs/channel.c with the wait queues.
    - [Device]: kernel/core/fs/vfs/device.c, the table of devices, and
      kernel/core/fs/devfs.c, the file system that lists them.
    - [Fs]: kernel/core/fs/vfs/fs.c and mount.c, and the operations on paths of
      kernel/core/fs/ops.  Drivers are a type class of callback tables.
    - [File]: the file descriptors of kernel/core/proc/process.c, the inodes of
      kernel/core/fs/vfs/inode.c and the operations on open files of
      kernel/core/fs/ops.
    - [Malloc]: userland/lib/libc/src/stdlib/malloc.c, over pages that [mmap]
      grants (class [Pages]); it is an instance of the heap of processes ([UHeap]).
    - [Numbers]: strtol and vsprintf of the libc, on strings in memory.  [Stdio]: its
      streams (userland/lib/libc/src/stdio), over the system calls on descriptors
      (class [Posix]).
    - [BlockCache]: userland/lib/libfiu/src/block_cache.c, the cache of blocks of
      file systems, with the nodes of its list linked as in the code; how a block
      is fetched is a class ([Fetch]).
    - [Ext2]: userland/driver/ext2/src on top of the cache, on a device with
      [lseek] and [read] (class [UDevice]); [Ext2Inv] relates its state to the
      contents of the disk, [Ext2Spec] has the theorems.
    - [UMem]: the memory of a process whose blocks the heap hands out (class
      [UMemory]), and strdup.  [Driver]: userland/lib/libdriver, the message loop of
      drivers and the registration of a device (class [DriverSys]), with the null
      device and the memory disk (userland/driver/null and ramd).
    - [Ring]: the contents of a ring buffer.  [Keyboard]: userland/driver/kbd.
      [Terminal]: userland/driver/tty_ctrl, which turns the events of the keyboard into
      characters, and userland/driver/tty, which hands them out by lines.  The turns of
      the threads of a driver and its callbacks are separate actions; [reach] follows
      every interleaving of them.
    - [Wire]: the bytes of a structure in a message.  [Fiu]: kernel/core/fs/fiu.c, the
      operations on files whose driver is a process: they send a request over a
      channel and wait for the answer of a [server], one of which is a process that
      runs the loop of [Driver].  [FiuSpec] has the theorems.
    - [InitConf]: userland/bin/init/src/config.c, the configuration of init, on the memory
      of the process, and the language of the file; [InitConfSpec] has the theorems.

    A file has a module of the same name.  Its state is a record with the static
    variables of the source file, each operation is a definition with the name
    of the C function, and a helper definition stands for a loop or for a part of
    a function that has a lemma of its own.  Structures that the code allocates
    and shares are kept in finite maps by their address; freeing one removes it,
    so that a later use is undefined behaviour.

    ** The monad

    [M S A] is [S -> outcome (A * S)].  An outcome is a result, a kernel panic,
    a spin lock that is never released ([Spin]), or undefined behaviour
    ([Undef]): a null or dangling pointer, or an index out of a table.  [wp m s Q]
    says that [m] returns from [s] and that [Q] holds of the result: it excludes
    the other three.  Code runs on one processor without interruption, so taking
    a lock that is held never ends; the places where the code is meant to be
    interleaved are separate definitions ([thread_block_prepare] and
    [thread_block_commit]; a blocking read ends when the thread has joined the
    wait queue).  Integers are in [Z] with the wrap-around written out.

    ** What is proved

    - The lists behave as lists, also when the current element of a loop is
      removed.  The string routines compute on strings what they should.
    - The heap, the segments and the regions are tilings of a range.  Allocating
      gives a part that was free and changes the view (live blocks, reference
      count of a page, mapped pages) there only; it fails exactly when nothing is
      large enough; releasing gives it back and merging does not change the view.
    - The processor translates exactly what was mapped: [mmu_map] and [mmu_unmap]
      change the translation of their range and of no other address, while page
      tables are allocated and given back.  The mappings of an address space agree
      with its regions, with the page tables and with the reference counts of the
      segments; [as_map], [as_unmap] and [as_clean] keep them so.
    - A timer fires at its tick and not before, across the wrap-around of the
      counter.  The scheduler elects every queued thread in turn.  An event wakes
      the threads waiting for it.  An interrupt has one owner, to which it is reported
      once; the lines of the controllers that are open are those with a handler.
    - Fork, exit and wait keep an invariant of processes and threads: each thread is
      counted by its process and has its page and its flags, address spaces are not
      shared, pids are distinct.  Fork gives the least free pid, or fails and gives
      back what it took.  A process that exits is never scheduled again, its threads
      and its memory go within a time slice, and its parent gets its exit status,
      whether it waits before or after.  A new thread finds its arguments on its stack.
    - A channel refines a first-in first-out queue with waiting threads; a message
      of the master reaches the slave it names.  Names identify channels, devices
      and mounts.
    - Path lookup ends for every behaviour of the drivers and crosses a mount
      point; the device file system finds what it lists.
    - The count of an inode is the number of open files that refer to it, over
      all processes, and every operation keeps it so on its error paths too.
    - The heap of processes gives areas that are apart and keep their bytes.
      Formatted output is what the format stands for, in memory and on streams with
      every kind of buffering, and numbers are read back.  Buffered reads give every
      character once.  The
      block cache is a cache on a list of slots: a block in use stays where it is
      and holds what the disk holds.  What the ext2 driver reads from files and
      directories is what the disk holds, and it gives back what it took.
    - The message loop of a driver answers each request once.  The memory disk is an
      array of bytes with an end.  The keyboard delivers the events it accepted in
      order; what is typed is what the controller hands out, and the terminal delivers
      the text it receives in order and by lines.
    - A request to a driver in user space arrives as the kernel sent it and its answer
      returns to the slave that asked.  A read or a write of a file on the memory disk
      is followed from the kernel to the disk and back; opening and closing a file of a
      driver give back what they took, on every path.
    - Init reads its configuration file as the language it is in, for every contents, and
      gives back the memory of a configuration, also when there is not enough.
    - Where the code does something else than it means to, a theorem states what
      it does: a read shorter than a message loses the rest, mounts below mounts
      are not found, a descriptor duplicated onto itself is closed, a seek
      truncates large offsets, registering an interrupt that is taken silences it for
      its owner, a fork makes the parent lose its interrupts, an event can queue a thread twice, free regions of
      different sizes are not merged, running out of memory for a page table
      faults, the test of user buffers accepts a size that wraps around, a block
      that cannot be fetched spoils the cache, printf writes other letters than A to
      F in base 16, a read of a file that starts or
      ends inside a block gives the wrong bytes, the terminal controller leaves its
      array of slaves, the terminal misses lines that come in one read, and a write to a
      driver that has no callback for it calls a null pointer.

    Theorems about components that allocate are stated for every heap with the
    laws of [KHeap] and enough room; running out of memory is a kernel panic in
    [kmalloc], which is the other half of its specification.  Each theorem with
    hypotheses is followed, at the end of its file, by an instance on a concrete
    state that shows that they can hold.

    ** Fuel and bounds

    [lookup_loop] of [Fs] has fuel; two more rounds than the path has characters
    are enough ([vfs_lookup_returns]), because a round that consumes nothing ends
    the search.  The string loops have fuel, one more than the length of the
    string.  The cleaning loop of the scheduler has fuel, more than the threads in
    the queue and the blocked ones, which may join it meanwhile.  The loops of [Ext2] over a directory have
    fuel; the number of entries is enough.  [scheduler_elect] recurs at most once, with fuel 2.
    [wait_answer] of [Fiu] has one turn of the server for each time the reader is woken;
    one is enough for a server that answers each request.  [read_loop] of [InitConf] has
    fuel, as much as the file has bytes, because a read gives one at least.  Sizes of C
    structures are those of i386.

    ** What is not modelled

    Not yet: the loading of programs (execv.c and elf.c of kernel/core/proc);
    the other system calls; of the user land
    the disk and video drivers and the programs other than the configuration of init.  Left out: the pool of messages that
    nothing uses (kernel/core/fs/vfs/message.c), port input and output, descriptor tables and assembly of
    kernel/arch and kernel/glue, the boot loader, console output, the vendored
    ELF header, getopt and scripts, and the font of the video driver.  Several
    processors and interrupts between two instructions are not modelled. *)

From Stdlib Require Import ZArith Lia String.
From stdpp Require Export base list gmap strings.

#[global] Open Scope Z_scope.

(** * Machine integers

    The kernel runs on i386: [uint32_t], [size_t], [uintptr_t], [paddr_t] and
    [vaddr_t] are 32-bit unsigned, [int] and [long] are 32-bit two's
    complement.  Values are kept in [Z]; [u32], [u16], [u8] and [s32] write the
    wrap-around of an assignment or of an arithmetic operator out. *)

Definition u32 (x : Z) : Z := x mod 2 ^ 32.
Definition u16 (x : Z) : Z := x mod 2 ^ 16.
Definition u8 (x : Z) : Z := x mod 2 ^ 8.
Definition u64 (x : Z) : Z := x mod 2 ^ 64.
Definition s32 (x : Z) : Z := (x + 2 ^ 31) mod 2 ^ 32 - 2 ^ 31.
Definition s8 (x : Z) : Z := (x + 2 ^ 7) mod 2 ^ 8 - 2 ^ 7.

Definition is_u32 (x : Z) : Prop := 0 <= x < 2 ^ 32.

Lemma u32_small x : 0 <= x < 2 ^ 32 -> u32 x = x.
Proof. intros; unfold u32; now apply Z.mod_small. Qed.
Lemma u16_small x : 0 <= x < 2 ^ 16 -> u16 x = x.
Proof. intros; unfold u16; now apply Z.mod_small. Qed.
Lemma u8_small x : 0 <= x < 2 ^ 8 -> u8 x = x.
Proof. intros; unfold u8; now apply Z.mod_small. Qed.
Lemma u64_small x : 0 <= x < 2 ^ 64 -> u64 x = x.
Proof. intros; unfold u64; now apply Z.mod_small. Qed.
Lemma u32_range x : 0 <= u32 x < 2 ^ 32.
Proof. unfold u32; apply Z.mod_pos_bound; lia. Qed.
Lemma s32_small x : - 2 ^ 31 <= x < 2 ^ 31 -> s32 x = x.
Proof. intros; unfold s32; rewrite Z.mod_small; lia. Qed.
Lemma s32_range x : - 2 ^ 31 <= s32 x < 2 ^ 31.
Proof. unfold s32; pose proof (Z.mod_pos_bound (x + 2 ^ 31) (2 ^ 32)); lia. Qed.
Lemma u32_idemp x : u32 (u32 x) = u32 x.
Proof. apply u32_small, u32_range. Qed.

(** Clearing the low bits of an address. *)
Lemma land_mask a k : 0 <= k <= 32 -> 0 <= a < 2 ^ 32 -> Z.land a (2 ^ 32 - 2 ^ k) = a / 2 ^ k * 2 ^ k.
Proof.
  intros Hk Ha. rewrite <-Z.shiftr_div_pow2, <-Z.shiftl_mul_pow2 by lia.
  replace (2 ^ 32 - 2 ^ k) with (Z.shiftl (Z.ones (32 - k)) k).
  - apply Z.bits_inj'. intros i Hi. rewrite Z.land_spec, !Z.shiftl_spec by lia.
    destruct (decide (i < k)).
    + rewrite !(Z.testbit_neg_r _ (i - k)) by lia. by rewrite andb_false_r.
    + rewrite Z.shiftr_spec by lia. replace (i - k + k) with i by lia.
      destruct (decide (i < 32)).
      * rewrite Z.ones_spec_low by lia. by rewrite andb_true_r.
      * rewrite Z.ones_spec_high by lia. rewrite andb_false_r. symmetry.
        destruct (decide (a = 0)) as [->|]; [apply Z.testbit_0_l|].
        apply Z.bits_above_log2; [lia|]. assert (Z.log2 a < 32) by (apply Z.log2_lt_pow2; lia). lia.
  - rewrite Z.shiftl_mul_pow2, Z.ones_equiv by lia.
    rewrite Z.mul_pred_l, <-Z.pow_add_r by lia. f_equal. f_equal. lia.
Qed.

(** [u32_norm] removes the wrap-around of every 32-bit operation whose exact
    result fits, discharging the range with [lia]. *)
Ltac u32_norm :=
  repeat match goal with
  | |- context [u32 ?x] => rewrite (u32_small x) by lia
  | H : context [u32 ?x] |- _ => rewrite (u32_small x) in H by lia
  end.

(** * Outcomes of kernel code

    A kernel function either returns, stops in [kernel_panic], waits for ever
    on a spinlock that is already taken ([CPU_COUNT] is 1 and [spinlock_lock]
    runs with interrupts disabled, so nobody can release it), or leaves the
    behaviour C defines (a dereference outside the objects of the model). *)

Inductive outcome (A : Type) : Type :=
| Done (a : A)
| Panic (msg : string)
| Spin
| Undef.
Arguments Done {A} _.
Arguments Panic {A} _.
Arguments Spin {A}.
Arguments Undef {A}.

Definition M (S A : Type) : Type := S -> outcome (A * S).

Definition ret {S A} (a : A) : M S A := fun s => Done (a, s).

Definition bind {S A B} (m : M S A) (k : A -> M S B) : M S B := fun s =>
  match m s with
  | Done (a, s') => k a s'
  | Panic w => Panic w
  | Spin => Spin
  | Undef => Undef
  end.

Definition get {S} : M S S := fun s => Done (s, s).
Definition put {S} (s : S) : M S unit := fun _ => Done (tt, s).
Definition modify {S} (f : S -> S) : M S unit := fun s => Done (tt, f s).
Definition kernel_panic {S A} (msg : string) : M S A := fun _ => Panic msg.
Definition undef {S A} : M S A := fun _ => Undef.

(** Run a component's code inside a larger state that contains it. *)
Definition zoom {S T A} (proj : S -> T) (upd : T -> S -> S) (m : M T A) : M S A :=
  fun s => match m (proj s) with
  | Done (a, t) => Done (a, upd t s)
  | Panic w => Panic w
  | Spin => Spin
  | Undef => Undef
  end.

(** [spinlock_lock] and [spinlock_unlock] on the lock word of a component. *)
Definition spinlock_lock {S} (held : S -> bool) (set : bool -> S -> S) : M S unit :=
  fun s => if held s then Spin else Done (tt, set true s).
Definition spinlock_unlock {S} (set : bool -> S -> S) : M S unit :=
  fun s => Done (tt, set false s).

Declare Scope kernel_scope.
Delimit Scope kernel_scope with kernel.
Notation "'let!' x := m 'in' k" := (bind m (fun x => k))
  (at level 10, x binder, m at level 100, k at level 200)
  : kernel_scope.
Notation "m ;;; k" := (bind m (fun _ => k))
  (at level 199, right associativity) : kernel_scope.
#[global] Open Scope kernel_scope.

(** ** Total correctness

    [wp m s Q]: from [s] the code [m] returns (no panic, no dead lock, nothing
    undefined), and its result and final state satisfy [Q]. *)

Definition wp {S A} (m : M S A) (s : S) (Q : A -> S -> Prop) : Prop :=
  match m s with Done (a, s') => Q a s' | _ => False end.

Section wp_rules.
Context {S : Type}.
Implicit Types s : S.

Lemma wp_ret {A} (a : A) s Q : Q a s -> wp (ret a) s Q.
Proof. done. Qed.

Lemma wp_bind {A B} (m : M S A) (k : A -> M S B) s Q :
  wp m s (fun a s' => wp (k a) s' Q) -> wp (bind m k) s Q.
Proof. unfold wp, bind. by destruct (m s) as [[a s']| | |]. Qed.

Lemma wp_bind_inv {A B} (m : M S A) (k : A -> M S B) s Q :
  wp (bind m k) s Q -> wp m s (fun a s' => wp (k a) s' Q).
Proof. unfold wp, bind. by destruct (m s) as [[a s']| | |]. Qed.

Lemma wp_mono {A} (m : M S A) s (Q R : A -> S -> Prop) :
  wp m s Q -> (forall a s', Q a s' -> R a s') -> wp m s R.
Proof. unfold wp. destruct (m s) as [[a s']| | |]; auto. Qed.

Lemma wp_and {A} (m : M S A) s (Q R : A -> S -> Prop) :
  wp m s Q -> wp m s R -> wp m s (fun a s' => Q a s' /\ R a s').
Proof. unfold wp. destruct (m s) as [[a s']| | |]; auto. Qed.

Lemma wp_get s (Q : S -> S -> Prop) : Q s s -> wp get s Q.
Proof. done. Qed.

Lemma wp_put s s' (Q : unit -> S -> Prop) : Q tt s' -> wp (put s') s Q.
Proof. done. Qed.

Lemma wp_modify f s (Q : unit -> S -> Prop) : Q tt (f s) -> wp (modify f) s Q.
Proof. done. Qed.

Lemma wp_lock held set s (Q : unit -> S -> Prop) :
  held s = false -> Q tt (set true s) -> wp (spinlock_lock held set) s Q.
Proof. unfold wp, spinlock_lock. by intros ->. Qed.

Lemma wp_unlock set s (Q : unit -> S -> Prop) :
  Q tt (set false s) -> wp (spinlock_unlock set) s Q.
Proof. done. Qed.

Lemma wp_zoom {T A} proj upd (m : M T A) s (Q : A -> S -> Prop) :
  wp m (proj s) (fun a t => Q a (upd t s)) -> wp (zoom proj upd m) s Q.
Proof. unfold wp, zoom. by destruct (m (proj s)) as [[a t]| | |]. Qed.

Lemma wp_run {A} (m : M S A) s Q :
  wp m s Q <-> exists a s', m s = Done (a, s') /\ Q a s'.
Proof.
  unfold wp. destruct (m s) as [[a s']| | |]; split.
  2: by intros (? & ? & [= -> ->] & ?).
  1: eauto.
  all: first [done | by intros (? & ? & ? & ?)].
Qed.
End wp_rules.

(** [step] symbolically executes straight-line code. *)
Ltac step :=
  first [ apply wp_bind
        | (match goal with |- wp (spinlock_lock _ _) _ _ => apply wp_lock; [done|] end)
        | apply wp_ret | apply wp_get | apply wp_put
        | apply wp_modify | apply wp_unlock | (apply wp_lock; [done|])
        | apply wp_zoom ].
Ltac steps := repeat (step; simpl).

(** [wp_eval] runs closed code and leaves the postcondition on its result. *)
Ltac wp_eval :=
  match goal with
  | |- wp ?m ?s ?Q =>
      let v := eval vm_compute in (m s) in
      let Hrun := fresh in
      assert (m s = v) as Hrun by (vm_compute; reflexivity);
      unfold wp; rewrite Hrun; clear Hrun
  end.

(** * Searching a list the way the [klist_for_each_elem] loops do

    [list_break p l] is the first element that satisfies [p], with what comes
    before and after it. *)

Section list_break.
Context {A : Type} (p : A -> bool).

Fixpoint list_break (l : list A) : option (list A * A * list A) :=
  match l with
  | [] => None
  | x :: r =>
      if p x then Some ([], x, r)
      else match list_break r with
           | None => None
           | Some (a, y, b) => Some (x :: a, y, b)
           end
  end.

Lemma list_break_Some l a x b :
  list_break l = Some (a, x, b) <->
  l = a ++ x :: b /\ p x = true /\ Forall (fun y => p y = false) a.
Proof.
  revert a x b. induction l as [|y r IH]; intros a x b; simpl.
  { split; [done|]. intros [H _]. by destruct a. }
  destruct (p y) eqn:Hy.
  - split.
    + intros; simplify_eq. auto.
    + intros (H & Hx & Ha). destruct a as [|z a]; simplify_eq/=; [done|].
      by inversion Ha; congruence.
  - destruct (list_break r) as [[[a' y'] b']|] eqn:E.
    + destruct (proj1 (IH a' y' b') eq_refl) as (-> & Hy' & Ha'). split.
      * intros; simplify_eq/=. auto.
      * intros (H & Hx & Ha). destruct a as [|z a]; simplify_eq/=; [congruence|].
        inversion Ha; subst.
        assert (Some (a', y', b') = Some (a, x, b)) by (apply IH; auto).
        by simplify_eq.
    + split; [done|]. intros (H & Hx & Ha).
      destruct a as [|z a]; simplify_eq/=; [congruence|]. inversion Ha; subst.
      by assert (None = Some (a, x, b)) by (apply IH; auto).
Qed.

Lemma list_break_None l :
  list_break l = None <-> Forall (fun y => p y = false) l.
Proof.
  induction l as [|y r IH]; simpl; [by split|].
  destruct (p y) eqn:Hy.
  - split; [done|]. inversion 1; congruence.
  - destruct (list_break r) as [[[a' y'] b']|] eqn:E.
    + split; [done|]. inversion 1; subst. by apply IH in H3.
    + split; [|done]. intros _. constructor; [done|]. by apply IH.
Qed.
End list_break.

(** The place of an element in a list whose elements have distinct keys. *)
Lemma NoDup_split_unique {A B} (f : A -> B) l1 x l2 l1' x' l2' :
  NoDup (f <$> l1 ++ x :: l2) -> l1 ++ x :: l2 = l1' ++ x' :: l2' -> f x = f x' ->
  l1 = l1' /\ x = x' /\ l2 = l2'.
Proof.
  revert l1'. induction l1 as [|y l1 IH]; intros [|y' l1'] Hnd Heq Hf; simplify_eq/=.
  - done.
  - apply NoDup_cons in Hnd as [[] _]. rewrite Hf. apply list_elem_of_fmap_2. set_solver.
  - apply NoDup_cons in Hnd as [[] _]. rewrite <-Hf. apply list_elem_of_fmap_2. set_solver.
  - apply NoDup_cons in Hnd as [_ Hnd]. destruct (IH l1' Hnd) as (-> & -> & ->); auto.
Qed.

(** Looking an element up by a key that identifies it. *)
Lemma list_break_key {A} (f : A -> Z) l x :
  NoDup (f <$> l) -> x ∈ l ->
  exists l1 l2, list_break (fun y => f y =? f x) l = Some (l1, x, l2) /\ l = l1 ++ x :: l2.
Proof.
  intros Hnd Hx. destruct (list_break _ l) as [[[l1 y] l2]|] eqn:E.
  - apply list_break_Some in E as (-> & Hy & _). apply Z.eqb_eq in Hy.
    apply list_elem_of_split in Hx as (l3 & l4 & Heq).
    destruct (NoDup_split_unique f l1 y l2 l3 x l4) as (<- & <- & <-); eauto.
  - apply list_break_None in E. rewrite Forall_forall in E. specialize (E x Hx).
    by rewrite Z.eqb_refl in E.
Qed.

Lemma filter_all {A} (P : A -> Prop) `{!forall x, Decision (P x)} (l : list A) :
  (forall x, x ∈ l -> P x) -> filter P l = l.
Proof.
  induction l as [|x l IH]; intros HP; [done|].
  rewrite filter_cons_True by (apply HP; set_solver). f_equal. apply IH. set_solver.
Qed.

Lemma filter_ext_elem {A} (P Q : A -> Prop)
    `{!forall x, Decision (P x)} `{!forall x, Decision (Q x)} (l : list A) :
  (forall x, x ∈ l -> P x <-> Q x) -> filter P l = filter Q l.
Proof.
  induction l as [|x l IH]; intros HPQ; [done|]. rewrite !filter_cons, IH by set_solver.
  specialize (HPQ x ltac:(set_solver)). destruct (decide (P x)), (decide (Q x)); tauto.
Qed.

(** * Pairs of distinct places of a list *)

Section pairwise.
Context {A : Type} (R : A -> A -> Prop).

Fixpoint pairwise (l : list A) : Prop :=
  match l with
  | [] => True
  | x :: l => Forall (R x) l /\ pairwise l
  end.

Lemma pairwise_app l1 l2 :
  pairwise (l1 ++ l2) <->
  pairwise l1 /\ pairwise l2 /\ (forall x y, x ∈ l1 -> y ∈ l2 -> R x y).
Proof.
  induction l1 as [|z l1 IH]; simpl.
  - split; [|tauto]. intros. split_and!; [done..|]. set_solver.
  - rewrite Forall_app, IH, !Forall_forall. set_solver.
Qed.

Lemma pairwise_perm l1 l2 :
  (forall x y, R x y -> R y x) -> l1 ≡ₚ l2 -> pairwise l1 -> pairwise l2.
Proof.
  intros Hsym Hp. induction Hp as [|x l l' Hp IH|x y l|l l' l'' _ IH1 _ IH2]; simpl; [done| | |tauto].
  - intros [Hx Hl]. split; [by rewrite <-Hp|tauto].
  - intros ([Hyx Hy]%Forall_cons & Hx & Hl). split_and!; [by constructor; auto|done..].
Qed.

(** One element replaced by others that stay clear of what it stayed clear of. *)
Lemma pairwise_replace l1 x l2 ys :
  (forall x y, R x y -> R y x) ->
  pairwise (l1 ++ x :: l2) -> pairwise ys ->
  (forall y z, y ∈ ys -> R x z -> R y z) -> pairwise (l1 ++ ys ++ l2).
Proof.
  intros Hsym Hp Hys Hin. apply pairwise_app in Hp as (H1 & [Hx H2] & H12).
  rewrite Forall_forall in Hx. apply pairwise_app. split_and!; [done| |].
  - apply pairwise_app. split_and!; [done..|]. intros y z Hy Hz. eauto.
  - intros z y Hz [Hy|Hy]%elem_of_app; [|set_solver].
    apply Hsym. apply (Hin y z Hy). apply Hsym. set_solver.
Qed.
End pairwise.

Lemma pairwise_impl {A} (R R' : A -> A -> Prop) l :
  (forall x y, R x y -> R' x y) -> pairwise R l -> pairwise R' l.
Proof.
  intros Hi. induction l as [|x l IH]; simpl; [done|]. intros [Hx Hl].
  split; [|by apply IH]. eapply Forall_impl; [done|]. auto.
Qed.

(** * Lists of intervals laid end to end

    [tiles lo l hi]: the intervals [start x, stop x) of the elements of [l], in
    order, cover [lo, hi) without hole or overlap. *)

Section tiles.
Context {A : Type} (start stop : A -> Z).

Fixpoint tiles (lo : Z) (l : list A) (hi : Z) : Prop :=
  match l with
  | [] => lo = hi
  | x :: l => start x = lo /\ tiles (stop x) l hi
  end.

Lemma tiles_app lo l1 l2 hi :
  tiles lo (l1 ++ l2) hi <-> exists mid, tiles lo l1 mid /\ tiles mid l2 hi.
Proof.
  revert lo. induction l1 as [|x l1 IH]; intros lo; simpl.
  - split; [eauto|]. by intros (? & -> & ?).
  - rewrite IH. split.
    + intros (? & mid & ? & ?). eauto.
    + intros (mid & (? & ?) & ?). eauto.
Qed.

Lemma tiles_middle lo l1 x l2 hi :
  tiles lo (l1 ++ x :: l2) hi <-> tiles lo l1 (start x) /\ tiles (stop x) l2 hi.
Proof.
  rewrite tiles_app. simpl. split.
  - by intros (? & ? & <- & ?).
  - intros [? ?]. eauto.
Qed.

Lemma tiles_snoc lo l x hi :
  tiles lo (l ++ [x]) hi <-> tiles lo l (start x) /\ stop x = hi.
Proof. apply tiles_middle. Qed.

Lemma tiles_le lo l hi : Forall (fun x => start x <= stop x) l -> tiles lo l hi -> lo <= hi.
Proof.
  revert lo. induction l as [|x l IH]; intros lo; simpl; [lia|].
  intros [Hx Hl]%Forall_cons [<- Ht]. apply IH in Ht; [lia|done].
Qed.

(** Elements are inside the covered range. *)
Lemma tiles_elem lo l hi x :
  Forall (fun x => start x <= stop x) l -> tiles lo l hi -> x ∈ l ->
  lo <= start x /\ stop x <= hi.
Proof.
  intros Hf Ht (l1 & l2 & ->)%list_elem_of_split.
  apply tiles_middle in Ht as [H1 H2]. apply Forall_app in Hf as [Hf1 [_ Hf2]%Forall_cons].
  apply tiles_le in H1; [|done]. apply tiles_le in H2; [|done]. lia.
Qed.

(** Elements at different places do not overlap. *)
Lemma tiles_disjoint lo l1 x l2 hi y :
  Forall (fun x => start x <= stop x) (l1 ++ x :: l2) -> tiles lo (l1 ++ x :: l2) hi ->
  y ∈ l1 ++ l2 -> stop y <= start x \/ stop x <= start y.
Proof.
  intros Hf Ht Hy. apply tiles_middle in Ht as [H1 H2].
  apply Forall_app in Hf as [Hf1 [_ Hf2]%Forall_cons].
  apply elem_of_app in Hy as [Hy|Hy].
  - left. by apply (tiles_elem _ _ _ y Hf1 H1).
  - right. by apply (tiles_elem _ _ _ y Hf2 H2).
Qed.

Lemma tiles_NoDup lo l hi :
  Forall (fun x => start x < stop x) l -> tiles lo l hi -> NoDup (start <$> l).
Proof.
  revert lo. induction l as [|x l IH]; intros lo; simpl; [constructor|].
  intros [Hx Hl]%Forall_cons [<- Ht]. constructor; [|by eapply IH].
  intros (y & Hy & Hin)%list_elem_of_fmap.
  assert (Forall (fun x => start x <= stop x) l) as Hle.
  { eapply Forall_impl; [done|]. simpl. lia. }
  pose proof (tiles_elem _ _ _ y Hle Ht Hin). lia.
Qed.

Lemma tiles_cover lo l hi p :
  tiles lo l hi -> lo <= p < hi -> exists x, x ∈ l /\ start x <= p < stop x.
Proof.
  revert lo. induction l as [|x l IH]; intros lo; simpl; [lia|].
  intros [<- Ht] Hp. destruct (decide (p < stop x)).
  - exists x. split; [apply list_elem_of_here|lia].
  - destruct (IH _ Ht) as (y & Hy & ?); [lia|]. exists y. split; [by apply list_elem_of_further|done].
Qed.

Lemma tiles_pairwise lo l hi :
  Forall (fun x => start x <= stop x) l -> tiles lo l hi ->
  pairwise (fun x y => stop x <= start y) l.
Proof.
  revert lo. induction l as [|x l IH]; intros lo; simpl; [done|].
  intros [Hx Hl]%Forall_cons [<- Ht]. split; [|by eapply IH].
  apply Forall_forall. intros y Hy. by apply (tiles_elem _ _ _ y Hl Ht).
Qed.
End tiles.

(** * Error numbers (include/kernel/errno.h) *)

Definition EPERM := 1.
Definition ENOENT := 2.
Definition EBADF := 9.
Definition ECHILD := 10.
Definition EAGAIN := 11.
Definition ENOMEM := 12.
Definition EACCES := 13.
Definition EFAULT := 14.
Definition EBUSY := 16.
Definition EEXIST := 17.
Definition ENODEV := 19.
Definition EINVAL := 22.
Definition EMFILE := 24.
Definition ENOSYS := 38.
Definition EBADE := 52.
Definition ELIBBAD := 80.

(** * Memory layout constants (include/kernel/arch/i386/arch/mmu.h) *)

Definition PAGE_SIZE := 4096.
Definition USER_BEGIN := 4096.
Definition KERNEL_BEGIN := 3221225472.
