(* ===== verification/Klist.v ===== *)
(** Intrusive doubly linked lists: include/kernel/klist.h.

    A [struct klist] is a pair of pointers living inside the object it links; a
    list is a circle through a head.  [KlistPtr] is the code, over a memory of
    [struct klist] nodes indexed by address with [NULL] as address 0; a
    dereference of a pointer that is no node is [Undef].  [klist_rep m h l]
    says that the circle of head [h] goes through exactly the nodes [l], in
    that order, in both directions.  The theorems show that each operation
    implements the list function its users have in mind, so the components
    below use lists of nodes. *)

From S2P Require Import Prelude.

Definition NULL : Z := 0.

Record klist := { prev : Z; next : Z }.

Abbreviation kmem := (gmap Z klist).

(** Assignments [a->next = v] and [a->prev = v]. *)
Definition upd_next (a v : Z) (m : kmem) : kmem :=
  alter (fun k => {| prev := prev k; next := v |}) a m.
Definition upd_prev (a v : Z) (m : kmem) : kmem :=
  alter (fun k => {| prev := v; next := next k |}) a m.

Module KlistPtr.

Definition deref (a : Z) : M kmem klist := fun m =>
  match m !! a with Some k => Done (k, m) | None => Undef end.

Definition set_prev (a v : Z) : M kmem unit := fun m =>
  match m !! a with
  | Some _ => Done (tt, upd_prev a v m)
  | None => Undef
  end.

Definition set_next (a v : Z) : M kmem unit := fun m =>
  match m !! a with
  | Some _ => Done (tt, upd_next a v m)
  | None => Undef
  end.

Definition klist_head_init (name : Z) : M kmem unit :=
  set_prev name name ;;; set_next name name.

Definition klist_empty (head : Z) : M kmem bool :=
  let! k := deref head in ret (bool_decide (prev k = head)).

Definition klist_add (insert_pt new : Z) : M kmem unit :=
  set_prev new insert_pt ;;;
  let! k := deref insert_pt in set_next new (next k) ;;;
  let! k := deref insert_pt in set_prev (next k) new ;;;
  set_next insert_pt new.

Definition klist_add_back (insert_pt new : Z) : M kmem unit :=
  let! k := deref insert_pt in set_prev new (prev k) ;;;
  set_next new insert_pt ;;;
  let! k := deref insert_pt in set_next (prev k) new ;;;
  set_prev insert_pt new.

Definition klist_del (elem : Z) : M kmem unit :=
  (let! k := deref elem in
   if bool_decide (prev k = NULL) then ret tt else set_next (prev k) (next k)) ;;;
  (let! k := deref elem in
   if bool_decide (next k = NULL) then ret tt else set_prev (next k) (prev k)) ;;;
  set_prev elem NULL ;;;
  set_next elem NULL.

(** [klist_first_elem]: NULL on an empty list, the first node otherwise.  The
    macro tests [klist_empty((head)->next)], not [klist_empty(head)]. *)
Definition klist_first_elem (head : Z) : M kmem Z :=
  let! k := deref head in
  let! e := klist_empty (next k) in
  if e then ret NULL else ret (next k).

(** [klist_for_each]: the node after the current one is read before the body
    runs, so the body may remove the current node.  [fuel] bounds the number
    of tests of the loop condition; running out of it is [Undef]. *)
Fixpoint klist_for_each_from (fuel : nat) (head name nxt : Z)
    (body : Z -> M kmem unit) : M kmem unit :=
  match fuel with
  | O => undef
  | S fuel =>
      if bool_decide (name = head) then ret tt
      else body name ;;;
           let! k := deref nxt in
           klist_for_each_from fuel head nxt (next k) body
  end.

Definition klist_for_each (fuel : nat) (head : Z) (body : Z -> M kmem unit)
    : M kmem unit :=
  let! k := deref head in
  let! k' := deref (next k) in
  klist_for_each_from fuel head (next k) (next k') body.

End KlistPtr.

(** ** Representation *)

Definition nxt (m : kmem) (a : Z) : option Z := next <$> m !! a.
Definition prv (m : kmem) (a : Z) : option Z := prev <$> m !! a.

Definition links (m : kmem) (x y : Z) : Prop :=
  nxt m x = Some y /\ prv m y = Some x.

Fixpoint linked (m : kmem) (x : Z) (l : list Z) (y : Z) : Prop :=
  match l with
  | [] => links m x y
  | z :: l' => links m x z /\ linked m z l' y
  end.

Definition klist_rep (m : kmem) (h : Z) (l : list Z) : Prop :=
  linked m h l h /\ NoDup (h :: l) /\ NULL ∉ h :: l.

(** ** Updates of one pointer *)

Section upd.
Implicit Types (m : kmem) (a b v : Z).

Lemma nxt_upd_next m a v b :
  is_Some (m !! a) -> nxt (upd_next a v m) b = if decide (a = b) then Some v else nxt m b.
Proof.
  intros [k Hk]. unfold nxt, upd_next. rewrite lookup_alter.
  case_decide; simplify_eq; [by rewrite Hk|done].
Qed.
Lemma prv_upd_next m a v b : prv (upd_next a v m) b = prv m b.
Proof.
  unfold prv, upd_next. rewrite lookup_alter. case_decide; [|done].
  subst. by destruct (m !! b).
Qed.
Lemma prv_upd_prev m a v b :
  is_Some (m !! a) -> prv (upd_prev a v m) b = if decide (a = b) then Some v else prv m b.
Proof.
  intros [k Hk]. unfold prv, upd_prev. rewrite lookup_alter.
  case_decide; simplify_eq; [by rewrite Hk|done].
Qed.
Lemma nxt_upd_prev m a v b : nxt (upd_prev a v m) b = nxt m b.
Proof.
  unfold nxt, upd_prev. rewrite lookup_alter. case_decide; [|done].
  subst. by destruct (m !! b).
Qed.
Lemma is_Some_upd_next m a v b : is_Some (upd_next a v m !! b) <-> is_Some (m !! b).
Proof. unfold upd_next. by rewrite lookup_alter_is_Some. Qed.
Lemma is_Some_upd_prev m a v b : is_Some (upd_prev a v m !! b) <-> is_Some (m !! b).
Proof. unfold upd_prev. by rewrite lookup_alter_is_Some. Qed.

Lemma wp_set_next a v m Q :
  is_Some (m !! a) -> Q tt (upd_next a v m) -> wp (KlistPtr.set_next a v) m Q.
Proof. intros [k Hk] HQ. unfold wp, KlistPtr.set_next. by rewrite Hk. Qed.
Lemma wp_set_prev a v m Q :
  is_Some (m !! a) -> Q tt (upd_prev a v m) -> wp (KlistPtr.set_prev a v) m Q.
Proof. intros [k Hk] HQ. unfold wp, KlistPtr.set_prev. by rewrite Hk. Qed.
Lemma wp_deref a k m (Q : klist -> kmem -> Prop) :
  m !! a = Some k -> Q k m -> wp (KlistPtr.deref a) m Q.
Proof. intros Hk HQ. unfold wp, KlistPtr.deref. by rewrite Hk. Qed.

(** Reading one pointer of a node that is known to have it. *)
Lemma wp_deref_next a v m (Q : klist -> kmem -> Prop) :
  nxt m a = Some v -> (forall k, next k = v -> Q k m) -> wp (KlistPtr.deref a) m Q.
Proof.
  unfold nxt. intros H HQ. destruct (m !! a) as [k|] eqn:E; [|done].
  simplify_eq/=. eapply wp_deref; eauto.
Qed.
Lemma wp_deref_prev a v m (Q : klist -> kmem -> Prop) :
  prv m a = Some v -> (forall k, prev k = v -> Q k m) -> wp (KlistPtr.deref a) m Q.
Proof.
  unfold prv. intros H HQ. destruct (m !! a) as [k|] eqn:E; [|done].
  simplify_eq/=. eapply wp_deref; eauto.
Qed.
Lemma wp_deref_both a p n m (Q : klist -> kmem -> Prop) :
  prv m a = Some p -> nxt m a = Some n ->
  (forall k, prev k = p -> next k = n -> Q k m) -> wp (KlistPtr.deref a) m Q.
Proof.
  unfold prv, nxt. intros H H' HQ. destruct (m !! a) as [k|] eqn:E; [|done].
  simplify_eq/=. eapply wp_deref; eauto.
Qed.
Lemma nxt_is_Some m a v : nxt m a = Some v -> is_Some (m !! a).
Proof. unfold nxt. destruct (m !! a); [eauto|done]. Qed.
Lemma prv_is_Some m a v : prv m a = Some v -> is_Some (m !! a).
Proof. unfold prv. destruct (m !! a); [eauto|done]. Qed.
End upd.

Create HintDb klist.
Create Rewrite HintDb klist.
#[export] Hint Resolve nxt_is_Some prv_is_Some : klist.
#[export] Hint Rewrite is_Some_upd_next is_Some_upd_prev nxt_upd_prev prv_upd_next : klist.

(** [ptr] computes the pointers of an updated memory at a given node. *)
Ltac ptr :=
  repeat first
    [ rewrite nxt_upd_prev | rewrite prv_upd_next
    | rewrite nxt_upd_next by (autorewrite with klist; eauto with klist)
    | rewrite prv_upd_prev by (autorewrite with klist; eauto with klist)
    | rewrite decide_True by congruence
    | rewrite decide_False by congruence ].

(** [mem] decides membership goals on list expressions propositionally. *)
Ltac mem :=
  rewrite ?not_elem_of_cons, ?not_elem_of_app, ?elem_of_cons, ?elem_of_app,
    ?not_elem_of_cons, ?elem_of_cons, ?elem_of_nil in *;
  intuition (first [congruence | subst; intuition congruence]).

(** ** Linked segments *)

Section linked.
Implicit Types (m : kmem) (x y z a : Z) (l : list Z).

Lemma linked_app m x l1 z l2 y :
  linked m x (l1 ++ z :: l2) y <-> linked m x l1 z /\ linked m z l2 y.
Proof.
  revert x. induction l1 as [|w l1 IH]; intros x; simpl; [done|].
  rewrite IH. tauto.
Qed.

Lemma linked_frame m m' x l y :
  linked m x l y ->
  (forall a, a ∈ x :: l -> nxt m' a = nxt m a) ->
  (forall a, a ∈ l ++ [y] -> prv m' a = prv m a) ->
  linked m' x l y.
Proof.
  revert x. induction l as [|z l IH]; intros x; simpl.
  - intros [Hn Hp] Fn Fp. split; [rewrite Fn|rewrite Fp]; set_solver.
  - intros [[Hn Hp] Hl] Fn Fp. split.
    + split; [rewrite Fn|rewrite Fp]; set_solver.
    + apply IH; [done|set_solver..].
Qed.

Lemma linked_first m x l y :
  linked m x l y -> nxt m x = Some (hd y l) /\ prv m (hd y l) = Some x.
Proof. destruct l; simpl; [done|]. by intros [[??] ?]. Qed.

Lemma linked_node m x l y a :
  linked m x l y -> a ∈ x :: l -> is_Some (m !! a).
Proof.
  revert x. induction l as [|z l IH]; intros x H Ha.
  - assert (a = x) as -> by set_solver. destruct H; eauto with klist.
  - destruct H as [[] ?]. apply elem_of_cons in Ha as [->|Ha]; eauto with klist.
Qed.
End linked.

Lemma hd_elem (y : Z) (l : list Z) : hd y l ∈ l ++ [y].
Proof. destruct l; simpl; set_solver. Qed.

(** Insertion right after the first node of a segment: the effect of
    [klist_add] on the pointers. *)
Definition added (ip new c : Z) (m : kmem) : kmem :=
  upd_next ip new (upd_prev c new (upd_next new c (upd_prev new ip m))).

Lemma wp_klist_add m ip new c Q :
  nxt m ip = Some c -> is_Some (m !! c) -> is_Some (m !! new) -> ip <> new ->
  Q tt (added ip new c m) -> wp (KlistPtr.klist_add ip new) m Q.
Proof.
  intros Hip Hc Hnew Hne HQ. unfold KlistPtr.klist_add.
  step. apply wp_set_prev; [done|].
  step. eapply wp_deref_next; [ptr; done|]. intros k Hk.
  step. apply wp_set_next; [by autorewrite with klist|]. rewrite Hk.
  step. eapply wp_deref_next; [ptr; done|]. intros k' Hk'.
  step. apply wp_set_prev; [rewrite Hk'; by autorewrite with klist|].
  apply wp_set_next; [autorewrite with klist; eauto with klist|].
  by rewrite Hk'.
Qed.

Lemma linked_added m ip new l y :
  linked m ip l y -> NoDup (ip :: l) -> y ∉ l -> is_Some (m !! new) ->
  new ∉ ip :: l -> new <> y ->
  linked (added ip new (hd y l) m) ip (new :: l) y.
Proof.
  intros Hl Hnd Hy Hnew Hfresh Hney. unfold added.
  destruct (linked_first _ _ _ _ Hl) as [Hn Hp].
  assert (ip <> new) by set_solver. assert (hd y l <> new) by (pose proof (hd_elem y l); set_solver).
  simpl. split; [split; ptr; done|].
  destruct l as [|c l]; simpl in *.
  - split; ptr; done.
  - destruct Hl as [_ Hl]. apply NoDup_cons in Hnd as [Hni Hnd].
    apply NoDup_cons in Hnd as [Hci Hnd].
    split; [split; ptr; done|].
    eapply linked_frame; [done| |]; intros a Ha.
    + assert (a <> ip) by set_solver. assert (a <> new) by set_solver. ptr. done.
    + assert (a <> c) by set_solver. assert (a <> new) by set_solver. ptr. done.
Qed.

(** Nodes outside the list and the arguments are untouched. *)
Definition unchanged (m m' : kmem) (l : list Z) : Prop :=
  forall a, a ∉ l -> m' !! a = m !! a.

Lemma unchanged_upd_next m a v l : a ∈ l -> unchanged m (upd_next a v m) l.
Proof. intros Ha b Hb. unfold upd_next. apply lookup_alter_ne. set_solver. Qed.
Lemma unchanged_upd_prev m a v l : a ∈ l -> unchanged m (upd_prev a v m) l.
Proof. intros Ha b Hb. unfold upd_prev. apply lookup_alter_ne. set_solver. Qed.
Lemma unchanged_trans m1 m2 m3 l :
  unchanged m1 m2 l -> unchanged m2 m3 l -> unchanged m1 m3 l.
Proof. intros H1 H2 a Ha. rewrite H2, H1; auto. Qed.

Lemma unchanged_added m ip new c l :
  ip ∈ l -> new ∈ l -> c ∈ l -> unchanged m (added ip new c m) l.
Proof.
  intros. unfold added.
  repeat (eapply unchanged_trans;
          [|first [apply unchanged_upd_next | apply unchanged_upd_prev]; done]).
  by intros a Ha.
Qed.

(** ** The operations implement the list functions *)

Lemma klist_add_head m h l new :
  klist_rep m h l -> is_Some (m !! new) -> new ∉ NULL :: h :: l ->
  wp (KlistPtr.klist_add h new) m (fun _ m' =>
    klist_rep m' h (new :: l) /\ unchanged m m' (new :: h :: l)).
Proof.
  intros (Hl & Hnd & Hz) Hnew Hf.
  destruct (linked_first _ _ _ _ Hl) as [Hn Hp].
  assert (h ∉ l) by (by apply NoDup_cons in Hnd as [? _]).
  eapply wp_klist_add; [done|eauto with klist|done|set_solver|].
  split; [split|].
  - apply linked_added; [done..|set_solver|set_solver].
  - split; [|set_solver]. apply NoDup_cons in Hnd as [??].
    repeat (apply NoDup_cons; split); set_solver.
  - apply unchanged_added; [set_solver..|]. pose proof (hd_elem h l). set_solver.
Qed.

Lemma NoDup_split (h ip : Z) l1 l2 :
  NoDup (h :: l1 ++ ip :: l2) <->
  h <> ip /\ (h ∉ l1) /\ (h ∉ l2) /\ (ip ∉ l1) /\ (ip ∉ l2) /\
  (forall a, a ∈ l1 -> a ∉ l2) /\ NoDup l1 /\ NoDup l2.
Proof.
  rewrite NoDup_cons, NoDup_app, NoDup_cons. split.
  - intros (H & H1 & H2 & H3 & H4).
    split_and!; try done; try solve [mem].
    + intros Hi. apply (H2 ip Hi). mem.
    + intros a Ha Ha2. apply (H2 a Ha). mem.
  - intros (?&?&?&?&?&Hd&?&?). split_and!; try done; try solve [mem].
    intros a Ha. specialize (Hd a Ha). mem.
Qed.

Lemma klist_add_after m h l1 ip l2 new :
  klist_rep m h (l1 ++ ip :: l2) -> is_Some (m !! new) ->
  new ∉ NULL :: h :: l1 ++ ip :: l2 ->
  wp (KlistPtr.klist_add ip new) m (fun _ m' =>
    klist_rep m' h (l1 ++ ip :: new :: l2) /\
    unchanged m m' (new :: h :: l1 ++ ip :: l2)).
Proof.
  intros (Hl & Hnd & Hz) Hnew Hf. apply linked_app in Hl as [Hl1 Hl2].
  destruct (linked_first _ _ _ _ Hl2) as [Hn Hp].
  apply NoDup_split in Hnd as (?&?&?&?&?&Hd&?&?).
  eapply wp_klist_add; [done|eauto with klist|done|mem|].
  pose proof (hd_elem h l2) as Hhd.
  split; [split|].
  - apply linked_app. split.
    + eapply linked_frame; [done| |]; intros a Ha; unfold added.
      * assert (a <> new) by mem. assert (a <> ip) by mem. by ptr.
      * assert (a <> new) by mem.
        assert (a <> hd h l2) by (intros ->; specialize (Hd (hd h l2)); mem).
        by ptr.
    + apply linked_added; try done; [by apply NoDup_cons|mem..].
  - split; [|mem]. apply NoDup_split. split_and!; try done; try solve [mem].
    + intros a Ha. specialize (Hd a Ha). mem.
    + apply NoDup_cons. mem.
  - apply unchanged_added; mem.
Qed.

Lemma klist_add_rep m h l a ip b new :
  klist_rep m h l -> h :: l = a ++ ip :: b -> is_Some (m !! new) ->
  new ∉ NULL :: h :: l ->
  wp (KlistPtr.klist_add ip new) m (fun _ m' =>
    klist_rep m' h (tail (a ++ ip :: new :: b)) /\ unchanged m m' (new :: h :: l)).
Proof.
  intros Hr Heq. destruct a as [|x a]; simplify_eq/=.
  - by apply klist_add_head.
  - by apply klist_add_after.
Qed.

Lemma upd_next_prev_comm a v b w m :
  upd_next a v (upd_prev b w m) = upd_prev b w (upd_next a v m).
Proof.
  apply map_eq. intros c. unfold upd_next, upd_prev. rewrite !lookup_alter.
  repeat case_decide; simplify_eq; by destruct (m !! _).
Qed.

(** Before a node [ip] whose predecessor is [c], [klist_add_back] does what
    [klist_add] does after [c]. *)
Lemma klist_add_back_add m c ip new :
  links m c ip -> is_Some (m !! new) -> c <> new -> ip <> new ->
  KlistPtr.klist_add_back ip new m = Done (tt, added c new ip m).
Proof.
  intros [Hn Hp] Hnew Hc Hip.
  assert (wp (KlistPtr.klist_add_back ip new) m (fun _ m' => m' = added c new ip m)) as Hw.
  { unfold KlistPtr.klist_add_back.
    step. eapply wp_deref_prev; [done|]. intros k Hk.
    step. apply wp_set_prev; [done|]. rewrite Hk.
    step. apply wp_set_next; [by autorewrite with klist|].
    step. eapply wp_deref_prev; [by ptr|]. intros k' Hk'.
    step. apply wp_set_next; [rewrite Hk'; autorewrite with klist; eauto with klist|].
    apply wp_set_prev; [autorewrite with klist; eauto with klist|].
    rewrite Hk'. symmetry. apply upd_next_prev_comm. }
  apply wp_run in Hw as ([] & m' & -> & ->). done.
Qed.

Lemma klist_add_back_rep m h l new :
  klist_rep m h l -> is_Some (m !! new) -> new ∉ NULL :: h :: l ->
  wp (KlistPtr.klist_add_back h new) m (fun _ m' =>
    klist_rep m' h (l ++ [new]) /\ unchanged m m' (new :: h :: l)).
Proof.
  intros Hr Hnew Hf.
  assert (exists a c, h :: l = a ++ [c] /\ links m c h /\
                      tail (a ++ [c; new]) = l ++ [new]) as (a & c & Heq & Hlk & Ht).
  { destruct Hr as (Hl & _). destruct l as [|x l _] using rev_ind.
    - by exists [], h.
    - apply linked_app in Hl as [_ Hl]. exists (h :: l), x. simpl.
      by rewrite <-app_assoc. }
  pose proof (klist_add_rep m h l a c [] new Hr Heq Hnew Hf) as Hw.
  assert (c ∈ h :: l) by (rewrite Heq; mem).
  assert (is_Some (m !! c)) by (destruct Hlk; eauto with klist).
  unfold wp. rewrite (klist_add_back_add _ c) by (done || mem).
  rewrite Ht in Hw. apply wp_run in Hw as ([] & m' & Hm & HQ).
  assert (wp (KlistPtr.klist_add c new) m (fun _ m'' => m'' = added c new h m)) as Ha.
  { eapply wp_klist_add; [apply Hlk|destruct Hlk; eauto with klist|done|mem|done]. }
  unfold wp in Ha. rewrite Hm in Ha. by subst.
Qed.

(** [klist_del]. *)
Definition removed (p e n : Z) (m : kmem) : kmem :=
  upd_next e NULL (upd_prev e NULL (upd_prev n p (upd_next p n m))).

Lemma wp_klist_del m p e n Q :
  links m p e -> links m e n -> p <> e -> n <> e -> p <> NULL -> n <> NULL ->
  Q tt (removed p e n m) -> wp (KlistPtr.klist_del e) m Q.
Proof.
  intros [Hn Hp] [Hn' Hp'] ? ? ? ? HQ. unfold KlistPtr.klist_del.
  step. step. eapply wp_deref_both; [done..|]. intros k -> ->.
  rewrite bool_decide_false by done.
  apply wp_set_next; [eauto with klist|].
  step. step. eapply wp_deref_both; [by ptr..|]. intros k' -> ->.
  rewrite bool_decide_false by done.
  apply wp_set_prev; [autorewrite with klist; eauto with klist|].
  step. apply wp_set_prev; [autorewrite with klist; eauto with klist|].
  apply wp_set_next; [autorewrite with klist; eauto with klist|]. done.
Qed.

Lemma linked_removed m p e l y :
  linked m p (e :: l) y -> NoDup (p :: e :: l) -> (y ∉ e :: l) ->
  linked (removed p e (hd y l) m) p l y.
Proof.
  intros [[Hn Hp] Hl] Hnd Hy. unfold removed.
  destruct (linked_first _ _ _ _ Hl) as [Hn' Hp'].
  apply NoDup_cons in Hnd as [? Hnd]. apply NoDup_cons in Hnd as [? Hnd].
  assert (p <> e) by mem. assert (y <> e) by mem.
  destruct l as [|c l]; simpl in *.
  - split; by ptr.
  - destruct Hl as [_ Hl]. apply NoDup_cons in Hnd as [??].
    assert (c <> e) by mem. split; [split; by ptr|].
    eapply linked_frame; [done| |]; intros a Ha.
    + assert (a <> e) by mem. assert (a <> p) by mem. by ptr.
    + assert (a <> c) by mem. assert (a <> e) by mem. by ptr.
Qed.

Lemma klist_del_rep m h l1 e l2 :
  klist_rep m h (l1 ++ e :: l2) ->
  wp (KlistPtr.klist_del e) m (fun _ m' =>
    klist_rep m' h (l1 ++ l2) /\ m' !! e = Some {| prev := NULL; next := NULL |} /\
    unchanged m m' (h :: l1 ++ e :: l2)).
Proof.
  intros (Hl & Hnd & Hz). pose proof (hd_elem h l2) as Hhd.
  assert (exists p, p ∈ h :: l1 /\ linked m p (e :: l2) h /\
    (forall m', (forall a, a ∈ h :: l1 -> a <> p -> nxt m' a = nxt m a) ->
                (forall a, a ∈ l1 -> prv m' a = prv m a) ->
                linked m' p l2 h -> linked m' h (l1 ++ l2) h))
    as (p & Hp & Hlp & Hpre).
  { destruct l1 as [|x l1 _] using rev_ind.
    - exists h. split_and!; [mem|done|]. intros m' _ _ Hm. done.
    - rewrite <-app_assoc in Hl. simpl in Hl. apply linked_app in Hl as [Hl1 Hl2].
      exists x. split_and!; [mem|done|]. intros m' Fn Fp Hm.
      rewrite <-app_assoc. simpl. apply linked_app. split; [|done].
      eapply linked_frame; [done| |]; intros a Ha; [apply Fn|apply Fp]; try solve [mem].
      apply NoDup_split in Hnd as (?&?&?&?&?&?&Hnd&?).
      apply NoDup_app in Hnd as (_&Hd&_). specialize (Hd a). mem. }
  apply NoDup_split in Hnd as (?&?&?&?&?&Hd&?&?).
  assert (p ∉ l2) by (specialize (Hd p); mem).
  pose proof (linked_first _ _ _ _ (proj2 Hlp)) as [Hn' Hp'].
  eapply (wp_klist_del m p e (hd h l2)); [apply Hlp|done| | | | |]; try solve [mem].
  split; [split|split].
  - apply Hpre; [| |apply linked_removed; [done| |mem]].
    + intros a Ha Hap. unfold removed. assert (a <> e) by mem.
      destruct Hlp as [[??]?]. by ptr.
    + intros a Ha. unfold removed. assert (a <> e) by mem.
      assert (a <> hd h l2) by (specialize (Hd a); mem).
      destruct Hlp as [[??]?]. by ptr.
    + apply NoDup_cons. split; [mem|]. by apply NoDup_cons.
  - split; [|mem]. apply NoDup_cons. split; [mem|]. by apply NoDup_app.
  - unfold removed, upd_next, upd_prev. destruct Hlp as [[Hn Hpe] Hle].
    assert (p <> e) by mem. assert (hd h l2 <> e) by mem.
    rewrite !lookup_alter_eq, !lookup_alter_ne by done.
    unfold prv in Hpe. by destruct (m !! e).
  - unfold removed.
    repeat (eapply unchanged_trans;
            [|first [apply unchanged_upd_next | apply unchanged_upd_prev]; mem]).
    by intros a Ha.
Qed.

(** ** Traversal *)

(** The body of a cleaning loop: unlink the node if [p] holds of it, leave it
    otherwise (scheduler_update, event notification, klist-based tables). *)
Definition klist_reap (p : Z -> bool) (a : Z) : M kmem unit :=
  if p a then KlistPtr.klist_del a else ret tt.

Lemma klist_rep_next m h l1 l2 :
  klist_rep m h (l1 ++ l2) -> exists x, x ∈ h :: l1 /\ nxt m x = Some (hd h l2).
Proof.
  intros (Hl & _). destruct l1 as [|x l1 _] using rev_ind.
  - exists h. split; [mem|]. by apply linked_first in Hl as [??].
  - rewrite <-app_assoc in Hl. apply linked_app in Hl as [_ Hl].
    exists x. split; [mem|]. by apply linked_first in Hl as [??].
Qed.

Lemma klist_rep_node_next m h l1 e l2 :
  klist_rep m h (l1 ++ e :: l2) -> nxt m e = Some (hd h l2).
Proof.
  intros (Hl & _). apply linked_app in Hl as [_ Hl]. by apply linked_first in Hl as [??].
Qed.

Lemma klist_rep_head_next m h l : klist_rep m h l -> nxt m h = Some (hd h l).
Proof. intros (Hl & _). by apply linked_first in Hl as [??]. Qed.

(** One traversal from the middle of the list: [kept] has been visited, the
    loop stands on the first node of [rest] (or on the head). *)
Lemma klist_for_each_reap p m h kept rest nx :
  klist_rep m h (kept ++ rest) ->
  (forall e r, rest = e :: r -> nx = hd h r) ->
  wp (KlistPtr.klist_for_each_from (S (length rest)) h (hd h rest) nx (klist_reap p)) m
     (fun _ m' => klist_rep m' h (kept ++ filter (fun a => p a = false) rest)).
Proof.
  revert m kept nx. induction rest as [|e rest IH]; intros m kept nx Hr Hnx.
  { simpl. rewrite bool_decide_true by done. by apply wp_ret. }
  assert (e <> h) by (destruct Hr as (_ & Hnd & _); apply NoDup_split in Hnd; intuition).
  rewrite (Hnx e rest eq_refl). clear Hnx nx. cbn -[filter].
  rewrite bool_decide_false by done.
  assert (forall m' kept', klist_rep m' h (kept' ++ rest) ->
    wp (let! k := KlistPtr.deref (hd h rest) in
        KlistPtr.klist_for_each_from (S (length rest)) h (hd h rest) (next k) (klist_reap p)) m'
       (fun _ m'' => klist_rep m'' h (kept' ++ filter (fun a => p a = false) rest))) as Hgo.
  { intros m' kept' Hr'. apply wp_bind. destruct rest as [|e' rest].
    - eapply wp_deref_next; [by eapply klist_rep_head_next|]. intros k Hk.
      by apply IH.
    - eapply wp_deref_next; [by eapply klist_rep_node_next|]. intros k Hk.
      apply IH; [done|]. intros ?? [= -> ->]. done. }
  apply wp_bind. unfold klist_reap at 1. destruct (p e) eqn:Hp.
  - eapply wp_mono; [by apply klist_del_rep|]. intros _ m' (Hr' & _).
    rewrite filter_cons_False by congruence. by apply Hgo.
  - apply wp_ret. rewrite filter_cons_True by done.
    rewrite cons_middle, app_assoc in *. by apply Hgo.
Qed.

(** ** Initialisation and the first element *)

Lemma klist_head_init_rep m h :
  is_Some (m !! h) -> h <> NULL ->
  wp (KlistPtr.klist_head_init h) m (fun _ m' => klist_rep m' h [] /\ unchanged m m' [h]).
Proof.
  intros Hh Hz. unfold KlistPtr.klist_head_init.
  step. apply wp_set_prev; [done|].
  apply wp_set_next; [by autorewrite with klist|]. split.
  - split; [split; by ptr|]. split; [apply NoDup_singleton|mem].
  - eapply unchanged_trans; [apply unchanged_upd_prev|apply unchanged_upd_next]; mem.
Qed.

Lemma klist_rep_prev m h e l : klist_rep m h (e :: l) -> prv m e = Some h.
Proof. intros (Hl & _). by destruct Hl as [[??] ?]. Qed.

Lemma klist_empty_rep m h l :
  klist_rep m h l ->
  wp (KlistPtr.klist_empty h) m (fun b m' => m' = m /\ b = bool_decide (l = [])).
Proof.
  intros Hr. unfold KlistPtr.klist_empty. step. destruct l as [|x l _] using rev_ind.
  - destruct Hr as ([Hn Hp] & _).
    eapply wp_deref_prev; [done|]. intros k ->. step. by rewrite !bool_decide_true.
  - destruct Hr as (Hl & Hnd & _). apply linked_app in Hl as [_ [_ Hp]].
    apply NoDup_split in Hnd as (? & _).
    eapply wp_deref_prev; [done|]. intros k ->. step.
    rewrite !bool_decide_false; [done|by destruct l|done].
Qed.

Lemma klist_first_elem_rep m h l :
  klist_rep m h l ->
  wp (KlistPtr.klist_first_elem h) m (fun a m' => m' = m /\ a = hd NULL l).
Proof.
  intros Hr. unfold KlistPtr.klist_first_elem, KlistPtr.klist_empty.
  step. eapply wp_deref_next; [by eapply klist_rep_head_next|]. intros k ->.
  step. step. destruct l as [|e l]; simpl.
  - destruct Hr as ([Hn Hp] & _).
    eapply wp_deref_prev; [done|]. intros k' ->. step. by rewrite bool_decide_true.
  - pose proof (klist_rep_prev _ _ _ _ Hr).
    destruct Hr as (_ & Hnd & _). apply (NoDup_split h e []) in Hnd as (? & _).
    eapply wp_deref_prev; [done|]. intros k' ->. step. by rewrite bool_decide_false.
Qed.

(** ** Properties *)

(** [klist_add] puts the new node right after any node of the list,
    [klist_add_back] on the head puts it last, and neither touches a node
    outside the list. *)
Theorem klist_add_inserts m h l a ip b new :
  klist_rep m h l -> h :: l = a ++ ip :: b -> is_Some (m !! new) ->
  new ∉ NULL :: h :: l ->
  wp (KlistPtr.klist_add ip new) m (fun _ m' =>
    klist_rep m' h (tail (a ++ ip :: new :: b)) /\ unchanged m m' (new :: h :: l)) /\
  wp (KlistPtr.klist_add_back h new) m (fun _ m' =>
    klist_rep m' h (l ++ [new]) /\ unchanged m m' (new :: h :: l)).
Proof. intros. split; [by apply klist_add_rep|by apply klist_add_back_rep]. Qed.

(** The head at 10 and the nodes 20, 30, 40; a free node at 50. *)
Definition sample_klist : kmem :=
  list_to_map [ (10, {| prev := 40; next := 20 |}); (20, {| prev := 10; next := 30 |});
                (30, {| prev := 20; next := 40 |}); (40, {| prev := 30; next := 10 |});
                (50, {| prev := 0; next := 0 |}) ].

Lemma sample_klist_rep : klist_rep sample_klist 10 [20; 30; 40].
Proof.
  split; [by vm_compute|]. split; apply (bool_decide_unpack _); by vm_compute.
Qed.

Lemma klist_add_inserts_witness :
  wp (KlistPtr.klist_add 30 50) sample_klist (fun _ m' =>
    klist_rep m' 10 [20; 30; 50; 40] /\ unchanged sample_klist m' [50; 10; 20; 30; 40]) /\
  wp (KlistPtr.klist_add_back 10 50) sample_klist (fun _ m' =>
    klist_rep m' 10 [20; 30; 40; 50] /\ unchanged sample_klist m' [50; 10; 20; 30; 40]).
Proof.
  apply (klist_add_inserts sample_klist 10 [20; 30; 40] [10; 20] 30 [40] 50);
    [apply sample_klist_rep|reflexivity|by vm_compute; eauto|].
  apply (bool_decide_unpack _). by vm_compute.
Defined.

(** [klist_del] unlinks exactly the given node, from any position of the
    list, leaves both its pointers NULL, and touches nothing outside the list. *)
Theorem klist_del_unlinks m h l1 e l2 :
  klist_rep m h (l1 ++ e :: l2) ->
  wp (KlistPtr.klist_del e) m (fun _ m' =>
    klist_rep m' h (l1 ++ l2) /\ m' !! e = Some {| prev := NULL; next := NULL |} /\
    unchanged m m' (h :: l1 ++ e :: l2)).
Proof. apply klist_del_rep. Qed.

Lemma klist_del_unlinks_witness :
  wp (KlistPtr.klist_del 20) sample_klist (fun _ m' =>
    klist_rep m' 10 [30; 40] /\ m' !! 20 = Some {| prev := NULL; next := NULL |} /\
    unchanged sample_klist m' [10; 20; 30; 40]).
Proof.
  apply (klist_del_unlinks sample_klist 10 [] 20 [30; 40]). apply sample_klist_rep.
Defined.

(** A [klist_for_each] whose body unlinks the current node when it likes
    terminates after visiting each node once, and leaves exactly the nodes
    the body did not remove, in order. *)
Theorem klist_for_each_removal p m h l :
  klist_rep m h l ->
  wp (KlistPtr.klist_for_each (S (length l)) h (klist_reap p)) m
     (fun _ m' => klist_rep m' h (filter (fun a => p a = false) l)).
Proof.
  intros Hr. unfold KlistPtr.klist_for_each.
  step. eapply wp_deref_next; [by eapply klist_rep_head_next|]. intros k ->.
  step. destruct l as [|e l].
  - eapply wp_deref_next; [by eapply klist_rep_head_next|]. intros k' ->.
    by apply (klist_for_each_reap p m h [] []).
  - eapply wp_deref_next; [by eapply (klist_rep_node_next _ _ [])|]. intros k' ->.
    apply (klist_for_each_reap p m h [] (e :: l)); [done|]. by intros ?? [= -> ->].
Qed.

Lemma klist_for_each_removal_witness :
  wp (KlistPtr.klist_for_each 4 10 (klist_reap (fun a => a <=? 30))) sample_klist
     (fun _ m' => klist_rep m' 10 [40]).
Proof.
  apply (klist_for_each_removal (fun a => a <=? 30) sample_klist 10 [20; 30; 40]).
  apply sample_klist_rep.
Defined.
