(* ===== verification/KString.v ===== *)
(** Strings and memory blocks: kernel/core/string.c and the string directory of
    userland/lib/libc.

    Memory is a partial map from addresses to [char] values (signed 8-bit);
    reading or writing outside its domain is [Undef].  The loops that stop at a
    terminating zero take fuel, one unit per test of the loop condition; the
    theorems give the fuel each call needs from the length of its arguments. *)

From S2P Require Import Prelude.

Abbreviation bmem := (gmap Z Z).

Definition load (a : Z) : M bmem Z := fun m =>
  match m !! a with Some c => Done (c, m) | None => Undef end.

Definition store (a v : Z) : M bmem unit := fun m =>
  match m !! a with Some _ => Done (tt, <[a := s8 v]> m) | None => Undef end.

Module KString.

(** Copies forward, one byte per unit of [size], and returns the advanced [dest]. *)
Fixpoint memcpy_loop (dest src : Z) (size : nat) : M bmem Z :=
  match size with
  | O => ret dest
  | S size =>
      let! c := load src in
      store dest c ;;;
      memcpy_loop (dest + 1) (src + 1) size
  end.
Definition memcpy (dest src size : Z) : M bmem Z :=
  memcpy_loop dest src (Z.to_nat (u32 size)).

Fixpoint memset_loop (ptr value : Z) (size : nat) : M bmem Z :=
  match size with
  | O => ret ptr
  | S size => store ptr value ;;; memset_loop (ptr + 1) value size
  end.
Definition memset (ptr value size : Z) : M bmem Z :=
  memset_loop ptr value (Z.to_nat (u32 size)).

Fixpoint strlen_loop (fuel : nat) (str size : Z) : M bmem Z :=
  match fuel with
  | O => undef
  | S fuel =>
      let! c := load str in
      if c =? 0 then ret size else strlen_loop fuel (str + 1) (u32 (size + 1))
  end.
Definition strlen (fuel : nat) (str : Z) : M bmem Z := strlen_loop fuel str 0.

Fixpoint strcpy_loop (fuel : nat) (destination source : Z) : M bmem unit :=
  match fuel with
  | O => undef
  | S fuel =>
      let! c := load source in
      if c =? 0 then store destination 0
      else store destination c ;;; strcpy_loop fuel (destination + 1) (source + 1)
  end.
Definition strcpy (fuel : nat) (destination source : Z) : M bmem Z :=
  strcpy_loop fuel destination source ;;; ret destination.

(** The condition is [*source && --n]: [n] is decremented only when the source
    character is not zero. *)
Fixpoint strncpy_loop (fuel : nat) (destination source n : Z) : M bmem unit :=
  match fuel with
  | O => undef
  | S fuel =>
      let! c := load source in
      if c =? 0 then store destination 0
      else let n := s32 (n - 1) in
           if n =? 0 then store destination 0
           else let! c := load source in
                store destination c ;;;
                strncpy_loop fuel (destination + 1) (source + 1) n
  end.
Definition strncpy (fuel : nat) (destination source n : Z) : M bmem Z :=
  strncpy_loop fuel destination source n ;;; ret destination.

Fixpoint strcmp (fuel : nat) (str1 str2 : Z) : M bmem Z :=
  match fuel with
  | O => undef
  | S fuel =>
      let! c1 := load str1 in
      let! c2 := load str2 in
      if negb (c1 =? 0) && negb (c2 =? 0) && (c1 =? c2)
      then strcmp fuel (str1 + 1) (str2 + 1)
      else if c1 >? c2 then ret 1 else if c1 <? c2 then ret (-1) else ret 0
  end.

(** The loop reads a character only when [n] is not zero. *)
Fixpoint strncmp_loop (s1 s2 : Z) (n : nat) : M bmem Z :=
  match n with
  | O => ret 0
  | S n =>
      let! c1 := load s1 in
      let! c2 := load s2 in
      if negb (c1 =? 0) && negb (c2 =? 0) && (c1 =? c2)
      then strncmp_loop (s1 + 1) (s2 + 1) n
      else if c1 >? c2 then ret 1 else if c1 <? c2 then ret (-1) else ret 0
  end.
Definition strncmp (s1 s2 n : Z) : M bmem Z := strncmp_loop s1 s2 (Z.to_nat (u32 n)).

Fixpoint strchr (fuel : nat) (s c : Z) : M bmem Z :=
  match fuel with
  | O => undef
  | S fuel =>
      let! x := load s in
      if x =? 0 then ret 0
      else if x =? c then ret s else strchr fuel (s + 1) c
  end.

Fixpoint strcat_seek (fuel : nat) (dest : Z) : M bmem Z :=
  match fuel with
  | O => undef
  | S fuel =>
      let! c := load dest in
      if c =? 0 then ret (dest + 1) else strcat_seek fuel (dest + 1)
  end.
Definition strcat (fuel : nat) (dest src : Z) : M bmem Z :=
  let! d := strcat_seek fuel dest in strcpy fuel (d - 1) src.

(** The inner loop of [strtok_r]: walk [delim] until it is exhausted or holds
    the character at [str], which is then overwritten; the result is the
    position reached in [delim]. *)
Fixpoint strtok_delim (fuel : nat) (str delim : Z) : M bmem Z :=
  match fuel with
  | O => undef
  | S fuel =>
      let! d := load delim in
      if d =? 0 then ret delim
      else let! c := load str in
           if d =? c then store str 0 ;;; ret delim
           else strtok_delim fuel str (delim + 1)
  end.

Fixpoint strtok_scan (fuel : nat) (delim_base str : Z) : M bmem Z :=
  match fuel with
  | O => undef
  | S fuel =>
      let! c := load str in
      if c =? 0 then ret str
      else let! delim := strtok_delim (S fuel) str delim_base in
           let! d := load delim in
           if negb (d =? 0) then ret (str + 1)
           else strtok_scan fuel delim_base (str + 1)
  end.

(** Returns the token and the new value of [*saveptr]. *)
Definition strtok_r (fuel : nat) (str delim saveptr : Z) : M bmem (Z * Z) :=
  let! done := (if str =? 0 then let! c := load saveptr in ret (c =? 0) else ret false) in
  if (done : bool) then ret (0, saveptr)
  else let base := if str =? 0 then saveptr else str in
       let! str := strtok_scan fuel delim base in
       ret (base, str).

End KString.

Module LibcString.

Definition memcpy (dest src size : Z) : M bmem Z :=
  let! _ := KString.memcpy_loop dest src (Z.to_nat (u32 size)) in ret dest.

(** [for (i = 0; i < num; ++i) mem[i] = value;] *)
Fixpoint memset_loop (mem value i : Z) (num : nat) : M bmem unit :=
  match num with
  | O => ret tt
  | S num => store (mem + i) value ;;; memset_loop mem value (i + 1) num
  end.
Definition memset (ptr value num : Z) : M bmem Z :=
  memset_loop ptr value 0 (Z.to_nat (u32 num)) ;;; ret ptr.

Fixpoint memcmp_loop (c1 c2 : Z) (n : nat) : M bmem Z :=
  match n with
  | O => ret 0
  | S n =>
      let! x := load c1 in
      let! y := load c2 in
      if negb (x =? y) then ret (x - y) else memcmp_loop (c1 + 1) (c2 + 1) n
  end.
Definition memcmp (s1 s2 n : Z) : M bmem Z := memcmp_loop s1 s2 (Z.to_nat (u32 n)).

(** Walk past the terminator, then the distance to the start, less one. *)
Fixpoint strlen_seek (fuel : nat) (s : Z) : M bmem Z :=
  match fuel with
  | O => undef
  | S fuel =>
      let! c := load s in
      if c =? 0 then ret (s + 1) else strlen_seek fuel (s + 1)
  end.
Definition strlen (fuel : nat) (s : Z) : M bmem Z :=
  let! e := strlen_seek fuel s in ret (u32 (e - s - 1)).

Fixpoint strcat_seek (fuel : nat) (tmp : Z) : M bmem Z :=
  match fuel with
  | O => undef
  | S fuel =>
      let! c := load tmp in
      if c =? 0 then ret tmp else strcat_seek fuel (tmp + 1)
  end.
Definition strcat (fuel : nat) (dest str : Z) : M bmem Z :=
  let! tmp := strcat_seek fuel dest in
  KString.strcpy_loop fuel tmp str ;;; ret dest.

Fixpoint strrchr_loop (fuel : nat) (s c res : Z) : M bmem Z :=
  match fuel with
  | O => undef
  | S fuel =>
      let! x := load s in
      if x =? 0 then ret res
      else strrchr_loop fuel (s + 1) c (if x =? c then s else res)
  end.
Definition strrchr (fuel : nat) (s c : Z) : M bmem Z := strrchr_loop fuel s c 0.

(** These have the text of their kernel counterparts. *)
Definition strcpy := KString.strcpy.
Definition strcmp := KString.strcmp.
Definition strncmp := KString.strncmp.
Definition strchr := KString.strchr.
Definition strtok_r := KString.strtok_r.

End LibcString.

(** ** Contents of memory *)

Definition is_char (c : Z) : Prop := -128 <= c < 128.

Fixpoint bytes_at (m : bmem) (a : Z) (l : list Z) : Prop :=
  match l with
  | [] => True
  | c :: l => m !! a = Some c /\ bytes_at m (a + 1) l
  end.

Definition cstr (m : bmem) (a : Z) (s : list Z) : Prop :=
  bytes_at m a (s ++ [0]) /\ Forall (fun c => is_char c /\ c <> 0) s.

Definition writable (m : bmem) (a : Z) (n : nat) : Prop :=
  forall x, a <= x < a + Z.of_nat n -> is_Some (m !! x).

Fixpoint store_bytes (a : Z) (l : list Z) (m : bmem) : bmem :=
  match l with
  | [] => m
  | c :: l => store_bytes (a + 1) l (<[a := c]> m)
  end.

Lemma s8_char c : is_char c -> s8 c = c.
Proof. unfold is_char, s8. intros. rewrite Z.mod_small; lia. Qed.

Lemma wp_load m a c (Q : Z -> bmem -> Prop) : m !! a = Some c -> Q c m -> wp (load a) m Q.
Proof. unfold wp, load. by intros ->. Qed.

Lemma wp_store m a c (Q : unit -> bmem -> Prop) :
  is_Some (m !! a) -> is_char c -> Q tt (<[a := c]> m) -> wp (store a c) m Q.
Proof. unfold wp, store. intros [? ->] Hc. by rewrite s8_char. Qed.

Lemma bytes_at_frame m a l x c :
  bytes_at m a l -> (x < a \/ a + Z.of_nat (length l) <= x) -> bytes_at (<[x := c]> m) a l.
Proof.
  revert a. induction l as [|y l IH]; intros a; simpl; [done|].
  intros [Ha Hl] Hx. split; [rewrite lookup_insert_ne by lia; done|]. apply IH; [done|lia].
Qed.

Lemma bytes_at_lookup m a l (i : nat) : bytes_at m a l -> (i < length l)%nat ->
  m !! (a + Z.of_nat i) = l !! i.
Proof.
  revert a i. induction l as [|c l IH]; intros a i; simpl; [lia|].
  intros [Ha Hl] Hi. destruct i as [|i]; [by rewrite Z.add_0_r|].
  change ((c :: l) !! S i) with (l !! i). rewrite <-(IH (a + 1) i) by (done || lia). f_equal. lia.
Qed.

Lemma bytes_at_app m a l l' :
  bytes_at m a (l ++ l') <-> bytes_at m a l /\ bytes_at m (a + Z.of_nat (length l)) l'.
Proof.
  revert a. induction l as [|c l IH]; intros a; simpl; [rewrite Z.add_0_r; tauto|].
  rewrite IH. replace (a + Z.of_nat (S (length l))) with (a + 1 + Z.of_nat (length l)) by lia.
  tauto.
Qed.

Lemma writable_insert m a n x c :
  writable m a n -> writable (<[x := c]> m) a n.
Proof. intros H y Hy. destruct (decide (x = y)) as [->|]; rewrite ?lookup_insert_eq, ?lookup_insert_ne by done; eauto. Qed.

Lemma writable_S m a n : writable m a (S n) <-> is_Some (m !! a) /\ writable m (a + 1) n.
Proof.
  split.
  - intros H. split; [apply H; lia|]. intros x Hx. apply H. lia.
  - intros [Ha H] x Hx. destruct (decide (x = a)) as [->|]; [done|]. apply H. lia.
Qed.

Lemma lookup_store_bytes_ne m a l x :
  x < a \/ a + Z.of_nat (length l) <= x -> store_bytes a l m !! x = m !! x.
Proof.
  revert a m. induction l as [|c l IH]; intros a m; simpl; [done|].
  intros Hx. rewrite IH by lia. by rewrite lookup_insert_ne by lia.
Qed.

Lemma lookup_store_bytes_in (m : bmem) a (l : list Z) x :
  a <= x < a + Z.of_nat (length l) -> is_Some (store_bytes a l m !! x).
Proof.
  revert a m. induction l as [|c l IH]; intros a m Hx; simpl in *; [lia|].
  destruct (decide (x = a)) as [->|]; [|apply IH; lia].
  rewrite lookup_store_bytes_ne by lia. rewrite lookup_insert_eq. by eexists.
Qed.

Lemma bytes_at_kept (m m' : bmem) a (l : list Z) :
  bytes_at m a l -> (forall x, a <= x < a + Z.of_nat (length l) -> m' !! x = m !! x) -> bytes_at m' a l.
Proof.
  revert a. induction l as [|c l IH]; intros a; simpl; [done|]. intros [Hc Hl] Hk. split.
  - rewrite Hk by lia. done.
  - apply IH; [done|]. intros x Hx. apply Hk. lia.
Qed.

Lemma bytes_at_store_bytes m a l : bytes_at (store_bytes a l m) a l.
Proof.
  revert a m. induction l as [|c l IH]; intros a m; simpl; [done|].
  split; [|apply IH]. rewrite lookup_store_bytes_ne by lia. apply lookup_insert_eq.
Qed.

Lemma bytes_at_store_bytes_ne m a l b l' :
  bytes_at m b l' ->
  (b + Z.of_nat (length l') <= a \/ a + Z.of_nat (length l) <= b) ->
  bytes_at (store_bytes a l m) b l'.
Proof.
  revert b. induction l' as [|c l' IH]; intros b; simpl; [done|].
  intros [Hb Hl'] Hd. split; [rewrite lookup_store_bytes_ne by lia; done|].
  apply IH; [done|lia].
Qed.

Lemma bytes_at_take m a l n : bytes_at m a l -> bytes_at m a (take n l).
Proof. intros Hl. rewrite <-(take_drop n l) in Hl. by apply bytes_at_app in Hl as [? _]. Qed.

Lemma bytes_at_drop m a l n : (n <= length l)%nat -> bytes_at m a l -> bytes_at m (a + Z.of_nat n) (drop n l).
Proof.
  intros Hn Hl. rewrite <-(take_drop n l) in Hl. apply bytes_at_app in Hl as [_ Hl].
  by rewrite length_take, Nat.min_l in Hl.
Qed.

Lemma bytes_at_writable m a l n : bytes_at m a l -> (n <= length l)%nat -> writable m a n.
Proof.
  intros Hl Hn x Hx. replace x with (a + Z.of_nat (Z.to_nat (x - a))) by lia.
  rewrite (bytes_at_lookup m a l) by (done || lia). apply lookup_lt_is_Some. lia.
Qed.

Lemma bytes_at_inj m a l : forall l', bytes_at m a l -> bytes_at m a l' -> length l = length l' -> l = l'.
Proof.
  intros l' Hl Hl' Hn. apply list_eq_same_length with (length l); [done..|]. intros i x y Hi Hx Hy.
  rewrite <-(bytes_at_lookup m a l) in Hx by done. rewrite <-(bytes_at_lookup m a l') in Hy by (done || lia). congruence.
Qed.

Lemma bytes_at_size (m : bmem) a l : bytes_at m a l -> (length l <= size m)%nat.
Proof.
  intros Hb. rewrite <-size_dom, <-(Nat2Z.id (length l)), <-(length_seqZ a), <-(size_list_to_set (C := gset Z) (seqZ a _)).
  - apply subseteq_size. intros x Hx. apply elem_of_list_to_set, elem_of_seqZ in Hx. apply elem_of_dom.
    replace x with (a + Z.of_nat (Z.to_nat (x - a))) by lia. rewrite (bytes_at_lookup m a l) by (done || lia).
    apply lookup_lt_is_Some_2. lia.
  - apply NoDup_seqZ.
Qed.

(** ** Block operations *)

Lemma memcpy_loop_spec m dest src l :
  bytes_at m src l -> Forall is_char l -> writable m dest (length l) ->
  (dest <= src \/ src + Z.of_nat (length l) <= dest) ->
  wp (KString.memcpy_loop dest src (length l)) m
     (fun r m' => r = dest + Z.of_nat (length l) /\ m' = store_bytes dest l m).
Proof.
  revert m dest src. induction l as [|c l IH]; intros m dest src Hb Hc Hw Hd; simpl.
  { apply wp_ret. split; [lia|done]. }
  destruct Hb as [Ha Hb]. apply Forall_cons in Hc as [Hc Hcs].
  apply writable_S in Hw as [Hw Hws]. simpl in Hd.
  step. eapply wp_load; [done|]. step. apply wp_store; [done..|].
  eapply wp_mono; [apply IH|].
  - apply bytes_at_frame; [done|lia].
  - done.
  - by apply writable_insert.
  - lia.
  - intros r m' [-> ->]. split; [lia|done].
Qed.

Lemma memcpy_spec m dest src l :
  bytes_at m src l -> Forall is_char l -> writable m dest (length l) ->
  (dest <= src \/ src + Z.of_nat (length l) <= dest) -> Z.of_nat (length l) < 2 ^ 32 ->
  wp (KString.memcpy dest src (Z.of_nat (length l))) m
     (fun r m' => r = dest + Z.of_nat (length l) /\ m' = store_bytes dest l m).
Proof.
  intros. unfold KString.memcpy. rewrite u32_small, Nat2Z.id by lia.
  by apply memcpy_loop_spec.
Qed.

Lemma libc_memcpy_spec m dest src l :
  bytes_at m src l -> Forall is_char l -> writable m dest (length l) ->
  (dest <= src \/ src + Z.of_nat (length l) <= dest) -> Z.of_nat (length l) < 2 ^ 32 ->
  wp (LibcString.memcpy dest src (Z.of_nat (length l))) m (fun r m' => r = dest /\ m' = store_bytes dest l m).
Proof.
  intros. unfold LibcString.memcpy. rewrite u32_small, Nat2Z.id by lia. apply wp_bind.
  eapply wp_mono; [by apply memcpy_loop_spec|]. intros r m' [_ ->]. by apply wp_ret.
Qed.

Lemma memset_loop_spec m ptr value n :
  writable m ptr n ->
  wp (KString.memset_loop ptr value n) m
     (fun r m' => r = ptr + Z.of_nat n /\ m' = store_bytes ptr (replicate n (s8 value)) m).
Proof.
  revert m ptr. induction n as [|n IH]; intros m ptr Hw; simpl.
  { apply wp_ret. split; [lia|done]. }
  apply writable_S in Hw as [[x Hx] Hws].
  step. unfold wp at 1, store. rewrite Hx. simpl.
  eapply wp_mono; [apply IH; by apply writable_insert|].
  intros r m' [-> ->]. split; [lia|done].
Qed.

(** ** Strings *)

Lemma cstr_nil m a : cstr m a [] <-> m !! a = Some 0.
Proof. unfold cstr. simpl. intuition. Qed.

Lemma cstr_cons m a c s :
  cstr m a (c :: s) <-> m !! a = Some c /\ is_char c /\ c <> 0 /\ cstr m (a + 1) s.
Proof. unfold cstr. simpl. rewrite Forall_cons. intuition. Qed.

Lemma cstr_frame m a s x c :
  cstr m a s -> (x < a \/ a + Z.of_nat (length s) < x) -> cstr (<[x := c]> m) a s.
Proof.
  intros [Hb Hf] Hx. split; [|done]. apply bytes_at_frame; [done|].
  rewrite length_app. simpl. lia.
Qed.

Lemma strlen_loop_spec m a s n fuel :
  cstr m a s -> (length s < fuel)%nat -> 0 <= n -> n + Z.of_nat (length s) < 2 ^ 32 ->
  wp (KString.strlen_loop fuel a n) m (fun r m' => r = n + Z.of_nat (length s) /\ m' = m).
Proof.
  revert a n fuel. induction s as [|c s IH]; intros a n [|fuel] Hs Hf Hn Hl; simpl in *; try lia.
  - apply cstr_nil in Hs. step. eapply wp_load; [done|]. simpl. step. split; [lia|done].
  - apply cstr_cons in Hs as (Ha & _ & Hc & Hs). step. eapply wp_load; [done|].
    rewrite (proj2 (Z.eqb_neq c 0)) by done. u32_norm.
    eapply wp_mono; [apply IH; [done|lia..]|]. intros r m' [-> ->]. split; [lia|done].
Qed.

Lemma strlen_seek_spec m a s fuel :
  cstr m a s -> (length s < fuel)%nat ->
  wp (LibcString.strlen_seek fuel a) m (fun r m' => r = a + Z.of_nat (length s) + 1 /\ m' = m).
Proof.
  revert a fuel. induction s as [|c s IH]; intros a [|fuel] Hs Hf; simpl in *; try lia.
  - apply cstr_nil in Hs. step. eapply wp_load; [done|]. simpl. step. split; [lia|done].
  - apply cstr_cons in Hs as (Ha & _ & Hc & Hs). step. eapply wp_load; [done|].
    rewrite (proj2 (Z.eqb_neq c 0)) by done.
    eapply wp_mono; [apply IH; [done|lia..]|]. intros r m' [-> ->]. split; [lia|done].
Qed.

Lemma libc_strlen_spec m a s fuel : cstr m a s -> (length s < fuel)%nat -> Z.of_nat (length s) < 2 ^ 32 - 1 ->
  wp (LibcString.strlen fuel a) m (fun r m' => r = Z.of_nat (length s) /\ m' = m).
Proof.
  intros Hs Hf Hl. unfold LibcString.strlen. apply wp_bind. eapply wp_mono; [by apply strlen_seek_spec|].
  intros r m' [-> ->]. apply wp_ret. split; [|done].
  replace (a + Z.of_nat (length s) + 1 - a - 1) with (Z.of_nat (length s)) by lia. by rewrite u32_small by lia.
Qed.

Lemma strcpy_loop_spec m dst src s fuel :
  cstr m src s -> (length s < fuel)%nat -> writable m dst (S (length s)) ->
  (dst <= src \/ src + Z.of_nat (length s) < dst) ->
  wp (KString.strcpy_loop fuel dst src) m
     (fun _ m' => m' = store_bytes dst (s ++ [0]) m).
Proof.
  revert m dst src fuel.
  induction s as [|c s IH]; intros m dst src [|fuel] Hs Hf Hw Hd; simpl in *; try lia;
    apply writable_S in Hw as [Hw Hws].
  - apply cstr_nil in Hs. step. eapply wp_load; [done|]. simpl. by apply wp_store.
  - apply cstr_cons in Hs as (Ha & Hch & Hc & Hs). step. eapply wp_load; [done|].
    rewrite (proj2 (Z.eqb_neq c 0)) by done. step. apply wp_store; [done..|].
    apply IH; [|lia| |lia].
    + apply cstr_frame; [done|lia].
    + by apply writable_insert.
Qed.

Lemma strncpy_loop_spec m dst src s n fuel :
  cstr m src s -> (length s < fuel)%nat -> 1 <= n < 2 ^ 31 ->
  writable m dst (S (Nat.min (length s) (Z.to_nat (n - 1)))) ->
  (dst <= src \/ src + Z.of_nat (length s) < dst) ->
  wp (KString.strncpy_loop fuel dst src n) m
     (fun _ m' => m' = store_bytes dst (take (Z.to_nat (n - 1)) s ++ [0]) m).
Proof.
  revert m dst src n fuel.
  induction s as [|c s IH]; intros m dst src n [|fuel] Hs Hf Hn Hw Hd; simpl in *; try lia;
    apply writable_S in Hw as [Hw Hws].
  - apply cstr_nil in Hs. step. eapply wp_load; [done|]. simpl. rewrite take_nil. by apply wp_store.
  - apply cstr_cons in Hs as (Ha & Hch & Hc & Hs). step. eapply wp_load; [done|].
    rewrite (proj2 (Z.eqb_neq c 0)) by done. rewrite s32_small by lia.
    destruct (Z.eqb_spec (n - 1) 0) as [->|Hn1]; [by apply wp_store|].
    step. eapply wp_load; [done|]. step. apply wp_store; [done..|].
    replace (Z.to_nat (n - 1)) with (S (Z.to_nat (n - 1 - 1))) in * by lia. simpl in *.
    apply IH; [|lia|lia| |lia].
    + apply cstr_frame; [done|lia].
    + by apply writable_insert.
Qed.

(** ** Comparison *)

(** Comparison of character sequences by their first difference. *)
Fixpoint cmp_chars (l1 l2 : list Z) : Z :=
  match l1, l2 with
  | x :: l1, y :: l2 =>
      if x =? y then cmp_chars l1 l2 else if x >? y then 1 else -1
  | _, _ => 0
  end.

Lemma cmp_chars_eq s t :
  Forall (fun c => is_char c /\ c <> 0) s -> Forall (fun c => is_char c /\ c <> 0) t ->
  cmp_chars (s ++ [0]) (t ++ [0]) = 0 <-> s = t.
Proof.
  revert t. induction s as [|c s IH]; intros [|d t] Hs Ht; cbn [app cmp_chars].
  - done.
  - apply Forall_cons in Ht as [[_ Hd] _]. destruct (Z.eqb_spec 0 d); [lia|].
    destruct (0 >? d); split; congruence.
  - apply Forall_cons in Hs as [[_ Hc] _]. destruct (Z.eqb_spec c 0); [lia|].
    destruct (c >? 0); split; congruence.
  - apply Forall_cons in Hs as [_ Hs]. apply Forall_cons in Ht as [_ Ht].
    destruct (Z.eqb_spec c d) as [->|Hne].
    + rewrite IH by done. split; congruence.
    + destruct (c >? d); split; congruence.
Qed.

(** [!strcmp(a, b)] on strings given by their characters. *)
Lemma cmp_chars_refl l : cmp_chars l l = 0.
Proof. induction l as [|c l IH]; [done|]. simpl. by rewrite Z.eqb_refl, IH. Qed.

Definition streq (a b : list Z) : bool := cmp_chars (a ++ [0]) (b ++ [0]) =? 0.

Definition is_string (s : list Z) : Prop := Forall (fun c => is_char c /\ c <> 0) s.

Lemma streq_spec a b : is_string a -> is_string b -> streq a b = true <-> a = b.
Proof. intros Ha Hb. unfold streq. rewrite Z.eqb_eq. by apply cmp_chars_eq. Qed.

(** One test of the comparison loops, on the current pair of characters. *)
Lemma cmp_step (c1 c2 : Z) (A : Type) (go one mone zero : A) :
  (if negb (c1 =? 0) && negb (c2 =? 0) && (c1 =? c2) then go
   else if c1 >? c2 then one else if c1 <? c2 then mone else zero) =
  (if c1 =? c2 then if c1 =? 0 then zero else go
   else if c1 >? c2 then one else mone).
Proof.
  rewrite Z.gtb_ltb. destruct (Z.eqb_spec c1 c2) as [->|Hne].
  - rewrite Z.ltb_irrefl. by destruct (c2 =? 0).
  - rewrite andb_false_r. destruct (Z.ltb_spec c2 c1); [done|].
    by rewrite (proj2 (Z.ltb_lt c1 c2)) by lia.
Qed.

Lemma strcmp_spec m a b s t fuel :
  cstr m a s -> cstr m b t -> (length s < fuel)%nat ->
  wp (KString.strcmp fuel a b) m (fun r m' => m' = m /\ r = cmp_chars (s ++ [0]) (t ++ [0])).
Proof.
  revert a b t fuel.
  induction s as [|c s IH]; intros a b t [|fuel] Hs Ht Hf; simpl in Hf; try lia;
    [apply cstr_nil in Hs|apply cstr_cons in Hs as (Hs & _ & Hc & Hss)];
    (destruct t as [|d t]; [apply cstr_nil in Ht|apply cstr_cons in Ht as (Ht & _ & Hd & Htt)]);
    cbn [KString.strcmp app cmp_chars]; step; (eapply wp_load; [done|]); step;
    (eapply wp_load; [done|]); rewrite cmp_step.
  - by apply wp_ret.
  - rewrite (proj2 (Z.eqb_neq 0 d)) by done. by destruct (0 >? d); apply wp_ret.
  - rewrite (proj2 (Z.eqb_neq c 0)) by done. by destruct (c >? 0); apply wp_ret.
  - rewrite (proj2 (Z.eqb_neq c 0)) by done. destruct (c =? d).
    + apply IH; [done..|lia].
    + by destruct (c >? d); apply wp_ret.
Qed.

Lemma strncmp_spec m a b s t n :
  cstr m a s -> cstr m b t ->
  wp (KString.strncmp_loop a b n) m
     (fun r m' => m' = m /\ r = cmp_chars (take n (s ++ [0])) (take n (t ++ [0]))).
Proof.
  revert a b s t. induction n as [|n IH]; intros a b s t Hs Ht; [by apply wp_ret|].
  destruct s as [|c s]; [apply cstr_nil in Hs|apply cstr_cons in Hs as (Hs & _ & Hc & Hss)];
    (destruct t as [|d t]; [apply cstr_nil in Ht|apply cstr_cons in Ht as (Ht & _ & Hd & Htt)]);
    cbn [KString.strncmp_loop app take cmp_chars]; step; (eapply wp_load; [done|]); step;
    (eapply wp_load; [done|]); rewrite cmp_step.
  - apply wp_ret. by rewrite take_nil.
  - rewrite (proj2 (Z.eqb_neq 0 d)) by done. by destruct (0 >? d); apply wp_ret.
  - rewrite (proj2 (Z.eqb_neq c 0)) by done. by destruct (c >? 0); apply wp_ret.
  - rewrite (proj2 (Z.eqb_neq c 0)) by done. destruct (c =? d).
    + by apply IH.
    + by destruct (c >? d); apply wp_ret.
Qed.

(** ** Tokens *)

Lemma strtok_delim_miss m str d delims c fuel :
  cstr m d delims -> m !! str = Some c -> (c ∉ delims) -> (length delims < fuel)%nat ->
  wp (KString.strtok_delim fuel str d) m
     (fun r m' => m' = m /\ r = d + Z.of_nat (length delims)).
Proof.
  revert d fuel. induction delims as [|x delims IH]; intros d [|fuel] Hd Hc Hn Hf;
    simpl in *; try lia.
  - apply cstr_nil in Hd. step. eapply wp_load; [done|]. apply wp_ret. split; [done|lia].
  - apply cstr_cons in Hd as (Hx & _ & Hx0 & Hd). apply not_elem_of_cons in Hn as [Hcx Hn].
    step. eapply wp_load; [done|]. rewrite (proj2 (Z.eqb_neq x 0)) by done.
    step. eapply wp_load; [done|]. rewrite (proj2 (Z.eqb_neq x c)) by done.
    eapply wp_mono; [apply IH; [done..|lia]|]. intros r m' [-> ->]. split; [done|lia].
Qed.

Lemma strtok_delim_hit m str d delims c fuel :
  cstr m d delims -> m !! str = Some c -> c ∈ delims -> (length delims < fuel)%nat ->
  (str < d \/ d + Z.of_nat (length delims) < str) ->
  wp (KString.strtok_delim fuel str d) m
     (fun r m' => m' = <[str := 0]> m /\ m' !! r = Some c).
Proof.
  revert d fuel. induction delims as [|x delims IH]; intros d [|fuel] Hd Hc Hn Hf Hdis;
    simpl in *; try lia; [by apply not_elem_of_nil in Hn|].
  apply cstr_cons in Hd as (Hx & _ & Hx0 & Hd).
  step. eapply wp_load; [done|]. rewrite (proj2 (Z.eqb_neq x 0)) by done.
  step. eapply wp_load; [done|]. destruct (Z.eqb_spec x c) as [->|Hne].
  - step. apply wp_store; [eauto|unfold is_char; lia|]. step. split; [done|].
    rewrite lookup_insert_ne by lia. done.
  - apply elem_of_cons in Hn as [?|Hn]; [congruence|]. apply IH; try done; lia.
Qed.

(** The two ends of the scan: the string runs out, or a delimiter is met. *)
Lemma strtok_scan_end m a s d delims fuel :
  cstr m a s -> cstr m d delims -> Forall (fun c => c ∉ delims) s ->
  (length s + length delims < fuel)%nat ->
  wp (KString.strtok_scan fuel d a) m (fun r m' => m' = m /\ r = a + Z.of_nat (length s)).
Proof.
  revert a fuel. induction s as [|c s IH]; intros a [|fuel] Hs Hd Hn Hf; simpl in Hf; try lia;
    cbn [KString.strtok_scan].
  - apply cstr_nil in Hs. step. eapply wp_load; [done|]. apply wp_ret. split; [done|simpl; lia].
  - apply cstr_cons in Hs as (Hc & _ & Hc0 & Hs). apply Forall_cons in Hn as [Hcn Hn].
    step. eapply wp_load; [done|]. rewrite (proj2 (Z.eqb_neq c 0)) by done.
    step. eapply wp_mono; [apply (strtok_delim_miss m _ d delims c); [done..|lia]|]. intros r ? [-> ->].
    assert (m !! (d + Z.of_nat (length delims)) = Some 0) as Hz.
    { destruct Hd as [Hd _]. apply bytes_at_app in Hd as [_ [Hd _]]. done. }
    step. eapply wp_load; [done|]. cbn [negb Z.eqb].
    eapply wp_mono; [apply IH; [done..|lia]|]. intros r ? [-> ->]. split; [done|simpl; lia].
Qed.

Lemma strtok_scan_token m a tok x rest d delims fuel :
  cstr m a (tok ++ x :: rest) -> cstr m d delims -> Forall (fun c => c ∉ delims) tok ->
  x ∈ delims ->
  (a + Z.of_nat (length tok) < d \/ d + Z.of_nat (length delims) < a) ->
  (length tok + length delims < fuel)%nat ->
  wp (KString.strtok_scan fuel d a) m (fun r m' =>
    m' = <[a + Z.of_nat (length tok) := 0]> m /\ r = a + Z.of_nat (length tok) + 1).
Proof.
  intros Hs Hd Hn Hx. revert a fuel Hs.
  induction tok as [|c tok IH]; intros a [|fuel] Hs Hdis Hf; simpl in Hf; try lia;
    cbn [KString.strtok_scan]; apply cstr_cons in Hs as (Hc & _ & Hc0 & Hs);
    step; (eapply wp_load; [done|]);
    rewrite (proj2 (Z.eqb_neq _ 0)) by done; step.
  - eapply wp_mono; [apply (strtok_delim_hit m _ d delims x); [done..|lia|simpl in Hdis; lia]|].
    intros r ? [-> Hr]. step. eapply wp_load; [done|].
    rewrite (proj2 (Z.eqb_neq _ 0)) by done. step. simpl. rewrite !Z.add_0_r. done.
  - apply Forall_cons in Hn as [Hcn Hn].
    eapply wp_mono; [apply (strtok_delim_miss m _ d delims c); [done..|lia]|]. intros r ? [-> ->].
    assert (m !! (d + Z.of_nat (length delims)) = Some 0) as Hz.
    { destruct Hd as [Hd _]. apply bytes_at_app in Hd as [_ [Hd _]]. done. }
    step. eapply wp_load; [done|]. cbn [negb Z.eqb].
    simpl in Hdis. eapply wp_mono; [apply IH; [done..|lia|lia]|]. intros r ? [-> ->]. simpl.
    split; [|lia]. f_equal. lia.
Qed.

(** ** Properties *)

(** [memcpy] makes the destination a copy of the source block, byte for
    byte, and changes nothing else, also when the two overlap with the
    destination first; the kernel's returns the end of the copy, libc's its
    start. *)
Theorem memcpy_copies m dest src l :
  bytes_at m src l -> Forall is_char l -> writable m dest (length l) ->
  (dest <= src \/ src + Z.of_nat (length l) <= dest) -> Z.of_nat (length l) < 2 ^ 32 ->
  exists m', KString.memcpy dest src (Z.of_nat (length l)) m
               = Done (dest + Z.of_nat (length l), m') /\
             LibcString.memcpy dest src (Z.of_nat (length l)) m = Done (dest, m') /\
             bytes_at m' dest l /\
             forall x, x < dest \/ dest + Z.of_nat (length l) <= x -> m' !! x = m !! x.
Proof.
  intros Hb Hc Hw Hd Hl. pose proof (memcpy_spec m dest src l Hb Hc Hw Hd Hl) as Hwp.
  apply wp_run in Hwp as (r & m' & Hrun & -> & ->). exists (store_bytes dest l m).
  split; [done|]. split.
  - unfold LibcString.memcpy, bind, ret. unfold KString.memcpy in Hrun. by rewrite Hrun.
  - split; [apply bytes_at_store_bytes|]. intros x Hx. by apply lookup_store_bytes_ne.
Qed.

Definition sample_bytes : bmem := list_to_map (imap (fun i c => (100 + Z.of_nat i, c)) 
  [104; 105; 47; 122; 111; 115; 0; 9; 9; 47; 0]).

Lemma memcpy_copies_witness :
  exists m', KString.memcpy 100 102 4 sample_bytes = Done (104, m') /\
             LibcString.memcpy 100 102 4 sample_bytes = Done (100, m') /\
             bytes_at m' 100 [47; 122; 111; 115] /\
             forall x, x < 100 \/ 104 <= x -> m' !! x = sample_bytes !! x.
Proof.
  apply (memcpy_copies sample_bytes 100 102 [47; 122; 111; 115]).
  - by vm_compute.
  - repeat constructor; unfold is_char; lia.
  - intros x Hx. simpl in Hx.
    assert (x = 100 \/ x = 101 \/ x = 102 \/ x = 103) as [->|[->|[->| ->]]] by lia;
      vm_compute; eauto.
  - left. lia.
  - simpl. lia.
Defined.

(** [strncpy] with a positive bound leaves at the destination the first
    [n - 1] characters of the source, always followed by a terminator, and
    writes nothing beyond it. *)
Theorem strncpy_truncates m dst src s n fuel :
  cstr m src s -> (length s < fuel)%nat -> 1 <= n < 2 ^ 31 ->
  writable m dst (S (Nat.min (length s) (Z.to_nat (n - 1)))) ->
  (dst <= src \/ src + Z.of_nat (length s) < dst) ->
  wp (KString.strncpy fuel dst src n) m (fun r m' =>
    r = dst /\ cstr m' dst (take (Z.to_nat (n - 1)) s) /\
    forall x, x < dst \/ dst + n <= x -> m' !! x = m !! x).
Proof.
  intros Hs Hf Hn Hw Hd. unfold KString.strncpy.
  step. eapply wp_mono; [by apply strncpy_loop_spec|]. intros _ ? ->. step.
  split; [done|]. split.
  - split; [apply bytes_at_store_bytes|]. destruct Hs as [_ Hs]. by apply Forall_take.
  - intros x Hx. apply lookup_store_bytes_ne. rewrite length_app, length_take. simpl. lia.
Qed.

Lemma strncpy_truncates_witness :
  wp (KString.strncpy 4 103 109 2) sample_bytes (fun r m' =>
    r = 103 /\ cstr m' 103 [47] /\
    forall x, x < 103 \/ 103 + 2 <= x -> m' !! x = sample_bytes !! x).
Proof.
  apply (strncpy_truncates sample_bytes 103 109 [47] 2 4).
  - split; [by vm_compute|]. repeat constructor; unfold is_char; lia.
  - simpl. lia.
  - lia.
  - intros x Hx. simpl in Hx.
    assert (x = 103 \/ x = 104) as [->| ->] by lia; vm_compute; eauto.
  - left. lia.
Defined.

(** [strcmp] returns 0 exactly on equal strings, and otherwise the sign of
    the first difference, the terminator counting as a character; [strncmp]
    does the same on the first [n] characters. *)
Theorem strcmp_compares m a b s t n fuel :
  cstr m a s -> cstr m b t -> (length s < fuel)%nat -> 0 <= n < 2 ^ 32 ->
  wp (KString.strcmp fuel a b) m (fun r m' =>
    m' = m /\ r = cmp_chars (s ++ [0]) (t ++ [0]) /\ (r = 0 <-> s = t)) /\
  wp (KString.strncmp a b n) m (fun r m' =>
    m' = m /\ r = cmp_chars (take (Z.to_nat n) (s ++ [0])) (take (Z.to_nat n) (t ++ [0]))).
Proof.
  intros Hs Ht Hf Hn. split.
  - eapply wp_mono; [by apply strcmp_spec|]. intros r m' [-> ->]. split_and!; [done..|].
    apply cmp_chars_eq; [apply Hs|apply Ht].
  - unfold KString.strncmp. rewrite u32_small by lia. by apply strncmp_spec.
Qed.

Lemma strcmp_compares_witness :
  wp (KString.strcmp 7 100 109) sample_bytes (fun r m' =>
    m' = sample_bytes /\ r = 1 /\ (r = 0 <-> [104; 105; 47; 122; 111; 115] = [47])) /\
  wp (KString.strncmp 100 109 0) sample_bytes (fun r m' => m' = sample_bytes /\ r = 0).
Proof.
  apply (strcmp_compares sample_bytes 100 109 [104; 105; 47; 122; 111; 115] [47] 0 7).
  - split; [by vm_compute|]. repeat constructor; unfold is_char; lia.
  - split; [by vm_compute|]. repeat constructor; unfold is_char; lia.
  - simpl. lia.
  - lia.
Defined.

(** [strtok_r] on a string whose first delimiter comes after [tok] cuts the
    string there: the token is what precedes the delimiter, and [*saveptr] is
    left on the rest, from which a later call with a NULL string goes on. *)
Theorem strtok_r_cuts m a tok x rest d delims str saveptr fuel :
  cstr m a (tok ++ x :: rest) -> cstr m d delims ->
  Forall (fun c => c ∉ delims) tok -> x ∈ delims ->
  (a + Z.of_nat (length tok) + 1 + Z.of_nat (length rest) < d
   \/ d + Z.of_nat (length delims) < a) ->
  (length tok + length delims < fuel)%nat ->
  (str = a /\ a <> 0 \/ str = 0 /\ saveptr = a) ->
  wp (KString.strtok_r fuel str d saveptr) m (fun r m' =>
    r = (a, a + Z.of_nat (length tok) + 1) /\
    cstr m' a tok /\ cstr m' (a + Z.of_nat (length tok) + 1) rest /\ cstr m' d delims).
Proof.
  intros Hs Hd Hn Hx Hdis Hf Hstr. unfold KString.strtok_r.
  assert (exists c, m !! a = Some c /\ c <> 0) as (c & Hc & Hc0).
  { destruct tok; apply cstr_cons in Hs as (? & _ & ? & _); eauto. }
  step. apply (wp_mono _ _ (fun b m' => b = false /\ m' = m)).
  { destruct Hstr as [[-> Ha]|[-> ->]].
    - rewrite (proj2 (Z.eqb_neq a 0)) by done. by apply wp_ret.
    - cbn [Z.eqb]. step. eapply wp_load; [done|]. apply wp_ret. split; [|done].
      by apply Z.eqb_neq. }
  intros ? ? [-> ->].
  replace (if str =? 0 then saveptr else str) with a.
  2:{ destruct Hstr as [[-> Ha]|[-> ->]]; [|done]. by rewrite (proj2 (Z.eqb_neq a 0)). }
  step. eapply wp_mono; [apply (strtok_scan_token m a tok x rest d delims); [done..|lia|done]|].
  intros r ? [-> ->]. step. split; [done|].
  destruct Hs as [Hb Hch]. rewrite <-app_assoc in Hb. apply bytes_at_app in Hb as [Hbt Hbr].
  apply Forall_app in Hch as [Hct Hcr]. apply Forall_cons in Hcr as [_ Hcr].
  destruct Hbr as [Hbx Hbr]. split_and!.
  - split; [|done]. apply bytes_at_app. split.
    + apply bytes_at_frame; [done|]. lia.
    + simpl. split; [|done]. apply lookup_insert_eq.
  - split; [|done]. apply bytes_at_frame; [done|]. lia.
  - apply cstr_frame; [done|]. lia.
Qed.

Lemma strtok_r_cuts_witness :
  wp (KString.strtok_r 4 0 109 100) sample_bytes (fun r m' =>
    r = (100, 103) /\ cstr m' 100 [104; 105] /\ cstr m' 103 [122; 111; 115] /\
    cstr m' 109 [47]).
Proof.
  apply (strtok_r_cuts sample_bytes 100 [104; 105] 47 [122; 111; 115] 109 [47] 0 100 4).
  - split; [by vm_compute|]. repeat constructor; unfold is_char; lia.
  - split; [by vm_compute|]. repeat constructor; unfold is_char; lia.
  - repeat constructor; apply (bool_decide_unpack _); by vm_compute.
  - apply (bool_decide_unpack _). by vm_compute.
  - simpl. lia.
  - simpl. lia.
  - right. done.
Defined.
