(* ===== verification/Stack.v ===== *)
(** The stack a new thread starts with: i386_setup_stack of
    kernel/arch/i386/thread.c.

    The memory is that of KString.v.  The page of the stack is mapped twice: for the
    user, where [stack] points into it, and for the kernel, at the address as_map gives;
    that of the kernel is what is written.  [argv] is the address of a table of [argc]
    addresses of strings. *)

From S2P Require Import Prelude KString.

(** What the function uses of the address space of the kernel: [as_map_page phy] is
    [as_map(&kernel_as, 0, phy, PAGE_SIZE, AS_MAP_WRITE)] and [as_unmap_page a] is
    [as_unmap(&kernel_as, a, AS_UNMAP_NORELEASE)].  [mapped] gives the physical address of
    each mapping by its start, [kbytes] the memory the kernel sees and [others] the
    addresses of it that are not those of the structures of the address space. *)
Class KernelSpace (W : Type) := {
  kbytes : W -> bmem;
  set_kbytes : bmem -> W -> W;
  mapped : W -> gmap Z Z;
  others : W -> Z -> Prop;
  space_ok : W -> Prop;
  as_map_page : Z -> M W Z;
  as_unmap_page : Z -> M W unit;
  kbytes_set : forall b w, kbytes (set_kbytes b w) = b;
  mapped_set : forall b w, mapped (set_kbytes b w) = mapped w;
  others_set : forall b w, others (set_kbytes b w) = others w;
  space_set : forall b w, space_ok w -> (forall x, ~ others w x -> b !! x = kbytes w !! x) -> space_ok (set_kbytes b w);
  mapped_page : forall w a p, space_ok w -> mapped w !! a = Some p -> a mod PAGE_SIZE = 0;
  as_map_page_spec : forall w phy, space_ok w -> wp (as_map_page phy) w (fun r w' => space_ok w' /\
    (forall x, others w x -> others w' x /\ kbytes w' !! x = kbytes w !! x) /\
    ((r = 0 /\ mapped w' = mapped w) \/
     (0 < r /\ r mod PAGE_SIZE = 0 /\ mapped w !! r = None /\ mapped w' = <[r := phy]> (mapped w) /\
      forall x, r <= x < r + PAGE_SIZE -> is_Some (kbytes w' !! x) /\ others w' x /\ ~ others w x)));
  as_unmap_page_spec : forall w a, space_ok w -> wp (as_unmap_page a) w (fun _ w' =>
    mapped w' = delete a (mapped w) /\ (mapped w !! a = None -> w' = w));
}.

Module Stack.

(** [(PAGE_SIZE - 4) & 0xFFFFFFF0] *)
Definition STACK_TOP : Z := Z.land (PAGE_SIZE - 4) 0xFFFFFFF0.

Definition load32 (a : Z) : M bmem Z :=
  let! b0 := load a in
  let! b1 := load (a + 1) in
  let! b2 := load (a + 2) in
  let! b3 := load (a + 3) in
  ret (u8 b0 + 2 ^ 8 * u8 b1 + 2 ^ 16 * u8 b2 + 2 ^ 24 * u8 b3).

Definition store32 (a v : Z) : M bmem unit :=
  store a v ;;;
  store (a + 1) (v / 2 ^ 8) ;;;
  store (a + 2) (v / 2 ^ 16) ;;;
  store (a + 3) (v / 2 ^ 24).

(** The loop that copies the strings, from [argv[i]] on, for [n] of them: the
    addresses in the table are replaced by those of the copies. *)
Fixpoint copy_argv (fuel n : nat) (i argv kstack stack : Z) (deep : bool) : M bmem (Z * Z) :=
  match n with
  | O => ret (kstack, stack)
  | S n =>
      if deep then
        let! p := load32 (argv + 4 * i) in
        let! l := KString.strlen fuel p in
        let len := s32 (l + 1) in
        let kstack := kstack - len in
        let stack := stack - len in
        KString.memcpy kstack p len ;;;
        store32 (argv + 4 * i) stack ;;;
        let r := Z.rem len 16 in
        let pad := if r =? 0 then 0 else 16 - r in
        copy_argv fuel n (i + 1) argv (kstack - pad) (stack - pad) deep
      else copy_argv fuel n (i + 1) argv kstack stack deep
  end.

(** The loop that pushes the table, from its last entry down. *)
Fixpoint push_argv (n : nat) (argv stack_ptr stack : Z) : M bmem (Z * Z) :=
  match n with
  | O => ret (stack_ptr, stack)
  | S n =>
      let! p := load32 (argv + 4 * Z.of_nat n) in
      store32 stack_ptr p ;;;
      push_argv n argv (stack_ptr - 4) (stack - 4)
  end.

(** The loops that align the stack. *)
Fixpoint align_stack (fuel : nat) (c kstack stack : Z) : M bmem (Z * Z) :=
  match fuel with
  | O => undef
  | S fuel =>
      if u32 (stack - c) mod 16 =? 0 then ret (kstack, stack)
      else align_stack fuel c (kstack - 1) (stack - 1)
  end.

(** The part below the strings: the table, its address and [argc]; the result is
    [kstack] and [stack]. *)
Definition push_args (kstack stack argc argv : Z) (deep : bool) : M bmem (Z * Z) :=
  store32 kstack 0 ;;;
  let! y := (if argc >? 0 then push_argv (Z.to_nat argc) argv (kstack - 4) (stack - 4)
             else ret (kstack - 4, stack - 4)) in
  let argv_start := y.2 + 4 in
  let! z := align_stack 16 (if deep then 4 else 2 * 4) y.1 y.2 in
  store32 z.1 argv_start ;;;
  store32 (z.1 - 4) argc ;;;
  ret (z.1, if deep then z.2 - 4 else z.2 - 4 - 4).

(** What is written to the page at [kmap]; the result is [kstack] and [stack]. *)
Definition fill_stack (fuel : nat) (kmap stack argc argv : Z) (deep : bool) : M bmem (Z * Z) :=
  let kstack := kmap + STACK_TOP - 2 * 4 in
  let stack := stack - 2 * 4 in
  let! x :=
    (if argv =? 0 then ret (kstack, stack)
     else
       let! y := copy_argv fuel (Z.to_nat argc) 0 argv kstack stack deep in
       ret (if deep then (y.1 - 16, y.2 - 16) else y)) in
  push_args x.1 x.2 argc argv deep.

(** The page is unmapped at [kstack], which has been moved. *)
Definition i386_setup_stack {W : Type} `{!KernelSpace W} (fuel : nat) (stack phy_stack argc argv : Z) (deep : bool) : M W Z :=
  let! kmap := as_map_page phy_stack in
  if kmap =? 0 then ret 1
  else
    let! y := zoom kbytes set_kbytes (fill_stack fuel kmap stack argc argv deep) in
    as_unmap_page y.1 ;;;
    ret (stack - y.2).

(** ** Words in memory *)

Definition word_bytes (v : Z) : list Z := [s8 v; s8 (v / 2 ^ 8); s8 (v / 2 ^ 16); s8 (v / 2 ^ 24)].
Definition word_at (m : bmem) (a v : Z) : Prop := bytes_at m a (word_bytes v).

Fixpoint words_at (m : bmem) (a : Z) (l : list Z) : Prop :=
  match l with
  | [] => True
  | v :: l => word_at m a v /\ words_at m (a + 4) l
  end.

(** Memory changes at most where [P] holds, and does not shrink. *)
Definition only (P : Z -> Prop) (m m' : bmem) : Prop :=
  (forall x, ~ P x -> m' !! x = m !! x) /\ (forall x, is_Some (m !! x) -> is_Some (m' !! x)).

Lemma only_refl P m : only P m m.
Proof. done. Qed.

Lemma only_mono (P Q : Z -> Prop) m m' : only P m m' -> (forall x, P x -> Q x) -> only Q m m'.
Proof. intros [H1 H2] HP. split; auto. Qed.

Lemma only_trans (P Q R : Z -> Prop) m m' m'' :
  only P m m' -> only Q m' m'' -> (forall x, P x -> R x) -> (forall x, Q x -> R x) -> only R m m''.
Proof. intros [H1 H2] [H3 H4] HP HQ. split; [|auto]. intros x Hx. rewrite H3, H1; auto. Qed.

Lemma only_bytes (P : Z -> Prop) m m' a l :
  only P m m' -> (forall x, a <= x < a + Z.of_nat (length l) -> ~ P x) -> bytes_at m a l -> bytes_at m' a l.
Proof. intros [Hs _] Hd Hb. eapply bytes_at_kept; [exact Hb|]. intros x Hx. by apply Hs, Hd. Qed.

Lemma only_cstr (P : Z -> Prop) m m' a l :
  only P m m' -> (forall x, a <= x <= a + Z.of_nat (length l) -> ~ P x) -> cstr m a l -> cstr m' a l.
Proof.
  intros Hs Hd [Hb Hf]. split; [|done]. eapply only_bytes; [exact Hs| |done]. rewrite length_app. simpl.
  intros x Hx. apply Hd. lia.
Qed.

Lemma only_words (P : Z -> Prop) m m' : forall l a,
  only P m m' -> (forall x, a <= x < a + 4 * Z.of_nat (length l) -> ~ P x) -> words_at m a l -> words_at m' a l.
Proof.
  induction l as [|v l IH]; intros a Hs Hd; [done|]. simpl in *. intros [Hv Hl]. split.
  - eapply only_bytes; [exact Hs| |exact Hv]. simpl. intros x Hx. apply Hd. lia.
  - apply IH; [done| |done]. intros x Hx. apply Hd. lia.
Qed.

Lemma only_writable P m m' a n : only P m m' -> writable m a n -> writable m' a n.
Proof. intros [_ Hs] Hw x Hx. by apply Hs, Hw. Qed.

Lemma store_bytes_only a l (m : bmem) : only (fun x => a <= x < a + Z.of_nat (length l)) m (store_bytes a l m).
Proof.
  split; intros x Hx.
  - apply lookup_store_bytes_ne. lia.
  - destruct (decide (a <= x < a + Z.of_nat (length l))); [by apply lookup_store_bytes_in|].
    rewrite lookup_store_bytes_ne by lia. done.
Qed.

Lemma u8_s8 v : u8 (s8 v) = u8 v.
Proof. unfold u8, s8. rewrite Zminus_mod_idemp_l. f_equal. lia. Qed.

Lemma wp_store_any m a c (Q : unit -> bmem -> Prop) :
  is_Some (m !! a) -> Q tt (<[a := s8 c]> m) -> wp (store a c) m Q.
Proof. unfold wp, store. by intros [? ->]. Qed.

Lemma wp_store_word m a v (Q : unit -> bmem -> Prop) :
  writable m a 4 -> (forall m', word_at m' a v -> only (fun x => a <= x < a + 4) m m' -> Q tt m') -> wp (store32 a v) m Q.
Proof.
  intros Hw HQ. unfold store32.
  assert (forall x c (m0 : bmem), writable m0 a 4 -> writable (<[x := c]> m0) a 4) as Hi by (intros; by apply writable_insert).
  apply wp_bind, wp_store_any; [apply Hw; lia|].
  apply wp_bind, wp_store_any; [apply (Hi _ _ m Hw); lia|].
  apply wp_bind, wp_store_any; [apply (Hi _ _ _ (Hi _ _ m Hw)); lia|].
  apply wp_store_any; [apply (Hi _ _ _ (Hi _ _ _ (Hi _ _ m Hw))); lia|].
  replace (a + 2) with (a + 1 + 1) by lia. replace (a + 3) with (a + 1 + 1 + 1) by lia.
  apply HQ; [apply (bytes_at_store_bytes m a (word_bytes v))|apply (store_bytes_only a (word_bytes v))].
Qed.

Lemma wp_load_word m a v (Q : Z -> bmem -> Prop) :
  word_at m a v -> is_u32 v -> Q v m -> wp (load32 a) m Q.
Proof.
  intros (H0 & H1 & H2 & H3 & _) Hv HQ. unfold load32.
  apply wp_bind. eapply wp_load; [exact H0|]. apply wp_bind. eapply wp_load; [exact H1|].
  apply wp_bind. eapply wp_load; [replace (a + 2) with (a + 1 + 1) by lia; exact H2|].
  apply wp_bind. eapply wp_load; [replace (a + 3) with (a + 1 + 1 + 1) by lia; exact H3|]. apply wp_ret.
  match goal with |- Q ?z m => assert (z = v) as -> end; [|done].
  rewrite !u8_s8. change (2 ^ 24) with (2 ^ 8 * (2 ^ 8 * 2 ^ 8)). change (2 ^ 16) with (2 ^ 8 * 2 ^ 8).
  rewrite <-!Z.div_div by done. unfold u8, is_u32 in *. change (2 ^ 8) with 256. change (2 ^ 32) with 4294967296 in Hv.
  Z.div_mod_to_equations. lia.
Qed.

Lemma words_at_lookup m : forall l a (n : nat) v, words_at m a l -> l !! n = Some v -> word_at m (a + 4 * Z.of_nat n) v.
Proof.
  induction l as [|x l IH]; intros a n v; [done|]. intros [Hx Hl]. destruct n as [|n].
  - intros [= <-]. by rewrite Z.add_0_r.
  - intros Hn. replace (a + 4 * Z.of_nat (S n)) with (a + 4 + 4 * Z.of_nat n) by lia. by apply IH.
Qed.

Lemma words_at_app m l' : forall l a,
  words_at m a (l ++ l') <-> words_at m a l /\ words_at m (a + 4 * Z.of_nat (length l)) l'.
Proof.
  induction l as [|v l IH]; intros a; simpl; [rewrite Z.add_0_r; tauto|]. rewrite IH.
  replace (a + 4 * Z.of_nat (S (length l))) with (a + 4 + 4 * Z.of_nat (length l)) by lia. tauto.
Qed.

(** ** The loops *)

Lemma push_argv_ok argv ptrs n : forall m sp st,
  words_at m argv ptrs -> Forall is_u32 ptrs -> (n <= length ptrs)%nat ->
  writable m (sp + 4 - 4 * Z.of_nat n) (4 * n) ->
  (argv + 4 * Z.of_nat (length ptrs) <= sp + 4 - 4 * Z.of_nat n \/ sp + 4 <= argv) ->
  wp (push_argv n argv sp st) m (fun r m' =>
    r = (sp - 4 * Z.of_nat n, st - 4 * Z.of_nat n) /\
    words_at m' (sp + 4 - 4 * Z.of_nat n) (take n ptrs) /\
    only (fun x => sp + 4 - 4 * Z.of_nat n <= x < sp + 4) m m').
Proof.
  induction n as [|n IH]; intros m sp st Hw Hu Hn Hwr Hd; cbn [push_argv].
  { apply wp_ret. split_and!; [f_equal; lia|done|done]. }
  destruct (lookup_lt_is_Some_2 ptrs n) as [v Hv]; [lia|].
  apply wp_bind. eapply wp_load_word; [by eapply words_at_lookup|by eapply Forall_lookup_1|].
  apply wp_bind, wp_store_word; [intros x Hx; apply Hwr; lia|]. intros m1 Hv1 Ho1.
  eapply wp_mono; [apply (IH m1)|].
  - eapply only_words; [exact Ho1| |done]. simpl. lia.
  - done.
  - lia.
  - eapply only_writable; [exact Ho1|]. intros x Hx. apply Hwr. lia.
  - lia.
  - intros r m' (-> & Hws & Ho). split_and!.
    + f_equal; lia.
    + rewrite (take_S_r _ _ v) by done. apply words_at_app. rewrite length_take_le by lia. split.
      * replace (sp + 4 - 4 * Z.of_nat (S n)) with (sp - 4 + 4 - 4 * Z.of_nat n) by lia. done.
      * replace (sp + 4 - 4 * Z.of_nat (S n) + 4 * Z.of_nat n) with sp by lia. split; [|done].
        eapply only_bytes; [exact Ho| |exact Hv1]. simpl. lia.
    + eapply only_trans; [exact Ho1|exact Ho|..]; simpl; lia.
Qed.

Lemma align_stack_ok c (m : bmem) : forall fuel k st,
  0 <= st - c - Z.of_nat fuel -> st - c < 2 ^ 32 -> (exists j, 0 <= j < Z.of_nat fuel /\ (st - j - c) mod 16 = 0) ->
  wp (align_stack fuel c k st) m (fun r m' => m' = m /\
    exists j, 0 <= j < Z.of_nat fuel /\ (st - j - c) mod 16 = 0 /\ r = (k - j, st - j)).
Proof.
  induction fuel as [|fuel IH]; intros k st H0 H1 (j & Hj & Hm); [lia|]. cbn [align_stack].
  rewrite u32_small by lia. destruct (Z.eqb_spec ((st - c) mod 16) 0) as [Hz|Hz].
  - apply wp_ret. split; [done|]. exists 0. split_and!; [lia|lia| |f_equal; lia]. rewrite <-Hz. f_equal. lia.
  - eapply wp_mono; [apply IH; [lia|lia|]|].
    + exists (j - 1). assert (j <> 0) by (intros ->; apply Hz; rewrite <-Hm; f_equal; lia).
      split; [lia|]. rewrite <-Hm. f_equal. lia.
    + intros r m' (-> & j' & Hj' & Hm' & ->). split; [done|]. exists (j' + 1). split_and!; [lia|lia| |f_equal; lia].
      rewrite <-Hm'. f_equal. lia.
Qed.

(** The place a string takes on the stack, and all of them. *)
Definition arg_room (s : list Z) : Z :=
  let len := Z.of_nat (length s) + 1 in
  len + (if len mod 16 =? 0 then 0 else 16 - len mod 16).
Fixpoint args_room (strs : list (list Z)) : Z :=
  match strs with
  | [] => 0
  | s :: strs => arg_room s + args_room strs
  end.

Lemma arg_room_bounds s : Z.of_nat (length s) + 1 <= arg_room s /\ arg_room s mod 16 = 0.
Proof.
  unfold arg_room. set (len := Z.of_nat (length s) + 1). pose proof (Z.mod_pos_bound len 16).
  destruct (Z.eqb_spec (len mod 16) 0) as [E|E]; (split; [lia|]); [by rewrite Z.add_0_r|].
  replace (len + (16 - len mod 16)) with ((len / 16 + 1) * 16) by (pose proof (Z.div_mod len 16); lia). apply Z.mod_mul. lia.
Qed.

Lemma args_room_bounds strs : 0 <= args_room strs /\ args_room strs mod 16 = 0.
Proof.
  induction strs as [|s strs [IH IH']]; [done|]. simpl. destruct (arg_room_bounds s) as [H1 H2]. split; [lia|].
  rewrite Z.add_mod, H2, IH' by done. done.
Qed.

(** A string out of the page and of the table. *)
Record source (m : bmem) (lo hi a e p : Z) (s : list Z) : Prop := {
  so_str : cstr m p s;
  so_ptr : is_u32 p;
  so_page : p + Z.of_nat (length s) < lo \/ hi <= p;
  so_table : p + Z.of_nat (length s) < a \/ e <= p;
}.

(** Its copy, at an address of the user that is [d] more than that of the kernel. *)
Record copy (m : bmem) (d bot top q : Z) (s : list Z) : Prop := {
  cp_str : cstr m (q - d) s;
  cp_ptr : is_u32 q;
  cp_place : bot <= q - d /\ q - d + Z.of_nat (length s) < top;
}.

Lemma copy_kept (P : Z -> Prop) m m' d bot top bot' top' q s :
  copy m d bot top q s -> only P m m' -> (forall x, bot <= x < top -> ~ P x) -> bot' <= bot -> top <= top' ->
  copy m' d bot' top' q s.
Proof.
  intros [Hs Hq Hp] Ho Hd Hb Ht. split; [|done|lia]. eapply only_cstr; [exact Ho| |done]. intros x Hx. apply Hd. lia.
Qed.

Lemma source_kept (P : Z -> Prop) m m' lo hi a e a' p s :
  source m lo hi a e p s -> only P m m' -> (forall x, P x -> lo <= x < hi \/ a <= x < e) -> a <= a' ->
  source m' lo hi a' e p s.
Proof.
  intros [Hs Hq Hp Ht] Ho HP Ha. split; [|done|done|lia]. eapply only_cstr; [exact Ho| |done].
  intros x Hx Hx'. destruct (HP x Hx'); lia.
Qed.

Lemma word_writable m a v : word_at m a v -> writable m a 4.
Proof.
  intros (H0 & H1 & H2 & H3 & _) x Hx. simpl in Hx.
  assert (x = a \/ x = a + 1 \/ x = a + 1 + 1 \/ x = a + 1 + 1 + 1) as [->|[->|[->| ->]]] by lia; eauto.
Qed.

Section copies.
Context (fuel : nat) (lo hi argv d : Z).

Lemma copy_argv_ok : forall strs ptrs i m k,
  let a := argv + 4 * i in
  let e := a + 4 * Z.of_nat (length strs) in
  words_at m a ptrs -> Forall2 (source m lo hi a e) ptrs strs ->
  Forall (fun s => (length s < fuel)%nat) strs ->
  (strs = [] \/ e <= lo \/ hi <= a) -> lo <= k - args_room strs -> k <= hi -> hi - lo < 2 ^ 31 ->
  (forall x, lo <= x < hi -> is_Some (m !! x)) ->
  0 <= lo + d -> hi + d < 2 ^ 32 ->
  wp (copy_argv fuel (length strs) i argv k (k + d) true) m (fun r m' => exists ptrs',
    r = (k - args_room strs, k + d - args_room strs) /\ words_at m' a ptrs' /\
    Forall2 (copy m' d (k - args_room strs) k) ptrs' strs /\
    only (fun x => k - args_room strs <= x < k \/ a <= x < e) m m').
Proof.
  induction strs as [|s strs IH]; intros ptrs i m k a e Hw Hsrc Hfuel Hae Hlo Hhi Hsmall Hpage Hd0 Hd1; cbn [copy_argv length].
  { apply wp_ret. exists []. split_and!; [f_equal; simpl; lia|done|constructor|done]. }
  assert (e = a + 4 + 4 * Z.of_nat (length strs)) as He by (unfold e; simpl; lia). clearbody e. destruct Hae as [?|Hae]; [done|].
  apply Forall2_cons_inv_r in Hsrc as (p & ptrs0 & Hs & Hsrc & ->). destruct Hw as [Hp Hw].
  apply Forall_cons in Hfuel as [Hf Hfuel]. pose proof Hs as [Hstr Hptr Hpg Htb].
  destruct (arg_room_bounds s) as [Hr1 _]. destruct (args_room_bounds strs) as [Hr2 _]. simpl args_room in *.
  apply wp_bind. eapply wp_load_word; [exact Hp|done|].
  apply wp_bind. eapply wp_mono; [apply strlen_loop_spec; [exact Hstr|done|lia|lia]|]. intros l m0 [-> ->].
  rewrite Z.add_0_l, s32_small by lia. set (len := Z.of_nat (length s) + 1) in *.
  assert (Z.of_nat (length (s ++ [0])) = len) as Hlen by (rewrite length_app; simpl; lia). destruct Hstr as [Hb Hc].
  apply wp_bind. eapply wp_mono.
  { rewrite <-Hlen. apply memcpy_spec; [exact Hb| | |rewrite Hlen; lia|rewrite Hlen; lia].
    - apply Forall_app. split; [eapply Forall_impl; [exact Hc|]; by intros ? []|]. repeat constructor; unfold is_char; lia.
    - intros x Hx. apply Hpage. rewrite Hlen in Hx. lia. }
  intros _ m1 [_ ->]. rewrite Hlen. pose proof (store_bytes_only (k - len) (s ++ [0]) m) as Ho1. rewrite Hlen in Ho1.
  set (m1 := store_bytes _ _ m) in *. assert (bytes_at m1 (k - len) (s ++ [0])) as Hb1 by apply bytes_at_store_bytes.
  apply wp_bind, wp_store_word; [eapply only_writable; [exact Ho1|by eapply word_writable]|]. fold a. intros m2 Hp2 Ho2.
  rewrite Z.rem_mod_nonneg by lia. fold len. set (pad := if len mod 16 =? 0 then 0 else 16 - len mod 16).
  assert (arg_room s = len + pad) as Hroom by done. assert (0 <= pad) as Hpad0 by lia.
  set (k1 := k - len - pad). replace (k + d - len - pad) with (k1 + d) by lia.
  assert (only (fun x => k - len <= x < k \/ a <= x < a + 4) m m2) as Ho12 by (eapply only_trans; [exact Ho1|exact Ho2|simpl; lia..]).
  assert (argv + 4 * (i + 1) = a + 4) as Ea by (unfold a; lia).
  eapply wp_mono; [apply (IH ptrs0 (i + 1) m2 k1); rewrite ?Ea; try done; try lia|].
  - eapply only_words; [exact Ho12| |done]. rewrite (Forall2_length _ _ _ Hsrc). simpl. lia.
  - eapply Forall2_impl; [exact Hsrc|]. intros q t Hq. rewrite <-He. eapply source_kept; [exact Hq|exact Ho12|simpl; lia|lia].
  - intros x Hx. apply Ho12, Hpage, Hx.
  - intros r m3 (ptrs' & -> & Hw3 & Hcp & Ho3). rewrite Ea in *. exists (k - len + d :: ptrs').
    assert (forall x, k1 <= x < k \/ a <= x < a + 4 -> ~ (k1 - args_room strs <= x < k1 \/ a + 4 <= x < a + 4 + 4 * Z.of_nat (length strs))) as Hfar.
    { lia. }
    split_and!; [f_equal; lia| | |].
    + split; [|done]. eapply only_bytes; [exact Ho3| |]; simpl; [|unfold a in Hp2; replace (k - len + d) with (k + d - len) by lia; exact Hp2].
      intros x Hx. apply Hfar. lia.
    + constructor.
      * split; [|unfold is_u32; lia|lia]. replace (k - len + d - d) with (k - len) by lia. split; [|done].
        eapply only_bytes; [exact Ho3| |].
        -- rewrite Hlen. intros x Hx. apply Hfar. lia.
        -- eapply only_bytes; [exact Ho2| |exact Hb1]. rewrite Hlen. simpl. lia.
      * eapply Forall2_impl; [exact Hcp|]. intros q t [H1 H2 H3]. split; [done|done|lia].
    + eapply only_trans; [exact Ho12|exact Ho3|..]; simpl; lia.
Qed.

End copies.

(** A residue is met within 16 steps down. *)
Lemma align_exists v : exists j, 0 <= j < 16 /\ (v - j) mod 16 = 0.
Proof.
  exists (v mod 16). split; [apply Z.mod_pos_bound; lia|].
  replace (v - v mod 16) with (v / 16 * 16) by (pose proof (Z.div_mod v 16); lia). apply Z.mod_mul. lia.
Qed.

Lemma push_args_ok lo k d argv ptrs deep m :
  let argc := Z.of_nat (length ptrs) in
  words_at m argv ptrs -> Forall is_u32 ptrs ->
  (forall x, lo <= x < k + 4 -> is_Some (m !! x)) -> lo <= k - 4 * argc - 23 ->
  (ptrs = [] \/ argv + 4 * argc <= lo \/ k + 4 <= argv) -> 16 <= lo + d -> k + d < 2 ^ 32 ->
  wp (push_args k (k + d) argc argv deep) m (fun v m' => exists sp,
    let av := k - 4 * argc + d in
    lo <= sp - 4 /\ sp < k - 4 * argc /\ v = (sp, sp + d - (if deep then 4 else 8)) /\ v.2 mod 16 = 0 /\
    word_at m' sp av /\ word_at m' (sp - 4) argc /\ words_at m' (av - d) (ptrs ++ [0]) /\
    only (fun x => sp - 4 <= x < k + 4) m m').
Proof.
  intros argc Hw Hu Hpage Hlo Htab Hd0 Hd1. assert (0 <= argc) as Hargc by lia. unfold push_args.
  apply wp_bind, wp_store_word; [intros x Hx; apply Hpage; lia|]. intros m1 Hz1 Ho1.
  apply wp_bind. eapply (wp_mono _ _ (fun y m' => y = (k - 4 - 4 * argc, k + d - 4 - 4 * argc) /\
    words_at m' (k - 4 * argc) ptrs /\ only (fun x => k - 4 * argc <= x < k) m1 m')).
  { destruct (Z.gtb_spec argc 0) as [Hpos|Hpos].
    - replace (Z.to_nat argc) with (length ptrs) by lia. eapply wp_mono; [apply (push_argv_ok argv ptrs)|].
      + eapply only_words; [exact Ho1| |done]. destruct Htab as [->|?]; simpl in *; lia.
      + done.
      + done.
      + intros x Hx. apply Ho1, Hpage. lia.
      + destruct Htab as [->|?]; [simpl in *; lia|lia].
      + intros r m' (-> & Hws & Ho). rewrite take_ge in Hws by done. split_and!; [f_equal; lia| |].
        * replace (k - 4 * argc) with (k - 4 + 4 - 4 * Z.of_nat (length ptrs)) by lia. done.
        * eapply only_mono; [exact Ho|simpl; lia].
    - apply wp_ret. assert (ptrs = []) as -> by (apply nil_length_inv; lia). split_and!; [f_equal; lia|done|apply only_refl]. }
  intros y m2 (-> & Hws & Ho2). simpl fst. simpl snd.
  set (c := if deep then 4 else 2 * 4). assert (c = 4 \/ c = 8) as Hc by (unfold c; destruct deep; lia).
  apply wp_bind. eapply wp_mono; [apply align_stack_ok; [lia|lia|]|].
  { destruct (align_exists (k + d - 4 - 4 * argc - c)) as (j & Hj & Hm). exists j. split; [lia|]. rewrite <-Hm. f_equal. lia. }
  intros z m3 (-> & j & Hj & Hm & ->). simpl fst. simpl snd. set (sp := k - 4 - 4 * argc - j).
  apply wp_bind, wp_store_word; [intros x Hx; apply Ho2, Ho1, Hpage; lia|]. intros m3 Ha3 Ho3.
  apply wp_bind, wp_store_word; [intros x Hx; apply Ho3, Ho2, Ho1, Hpage; lia|]. intros m4 Ha4 Ho4.
  apply wp_ret. exists sp. split_and!.
  - lia.
  - lia.
  - unfold c, sp in *. destruct deep; f_equal; lia.
  - simpl. rewrite <-Hm. unfold c. destruct deep; f_equal; lia.
  - eapply only_bytes; [exact Ho4|simpl; lia|]. replace (k - 4 * argc + d) with (k + d - 4 - 4 * argc + 4) by lia. exact Ha3.
  - exact Ha4.
  - replace (k - 4 * argc + d - d) with (k - 4 * argc) by lia.
    eapply only_words; [exact Ho4|simpl; lia|]. eapply only_words; [exact Ho3|simpl; lia|].
    apply words_at_app. split; [done|]. fold argc. replace (k - 4 * argc + 4 * argc) with k by lia. split; [|done].
    eapply only_bytes; [exact Ho2|simpl; lia|exact Hz1].
  - eapply only_trans; [exact Ho1| |simpl; lia|]; [|exact (fun x H => H)].
    eapply only_trans; [exact Ho2| |simpl; lia|]; [|exact (fun x H => H)].
    eapply only_trans; [exact Ho3|exact Ho4|simpl; lia..].
Qed.

(** ** Properties *)

(** The page of the stack at [kmap] for the kernel and [base] for the user, and a
    table of strings out of it. *)
Record page_args (fuel : nat) (m : bmem) (kmap base argv : Z) (ptrs : list Z) (strs : list (list Z)) : Prop := {
  pa_base : PAGE_SIZE <= base /\ base + PAGE_SIZE < 2 ^ 32;
  pa_argv : argv = 0 -> strs = [];
  pa_page : forall x, kmap <= x < kmap + PAGE_SIZE -> is_Some (m !! x);
  pa_table : words_at m argv ptrs;
  pa_apart : strs = [] \/ argv + 4 * Z.of_nat (length strs) <= kmap \/ kmap + PAGE_SIZE <= argv;
  pa_strs : Forall2 (source m kmap (kmap + PAGE_SIZE) argv (argv + 4 * Z.of_nat (length strs))) ptrs strs;
  pa_fuel : Forall (fun s => (length s < fuel)%nat) strs;
}.

(** What a program with copied arguments finds at [esp]: [argc], above it the address
    of a table of addresses that ends with NULL, each the address of a copy of the
    argument.  All of it is on the page, which the kernel has at [kmap]. *)
Definition deep_stack (m : bmem) (kmap base esp : Z) (strs : list (list Z)) : Prop :=
  let d := base - kmap in
  base <= esp /\ esp mod 16 = 0 /\ word_at m (esp - d) (Z.of_nat (length strs)) /\
  exists av qtrs, word_at m (esp - d + 4) av /\ words_at m (av - d) (qtrs ++ [0]) /\ base <= av < base + PAGE_SIZE /\
    Forall2 (copy m d kmap (kmap + STACK_TOP)) qtrs strs.

(** What a thread without copied arguments finds: room for a return address, [argc],
    and the address of a table of the addresses given. *)
Definition shallow_stack (m : bmem) (kmap base esp : Z) (ptrs : list Z) : Prop :=
  let d := base - kmap in
  base <= esp + 4 /\ esp mod 16 = 0 /\ word_at m (esp - d + 4) (Z.of_nat (length ptrs)) /\
  exists av, word_at m (esp - d + 8) av /\ words_at m (av - d) (ptrs ++ [0]) /\ base <= av < base + PAGE_SIZE.

Lemma fill_stack_deep_ok fuel m kmap base argv ptrs strs :
  let argc := Z.of_nat (length strs) in
  page_args fuel m kmap base argv ptrs strs -> args_room strs + 4 * argc <= 4032 ->
  wp (fill_stack fuel kmap (base + STACK_TOP) argc argv true) m (fun y m' =>
    kmap < y.1 < kmap + PAGE_SIZE /\ deep_stack m' kmap base y.2 strs /\
    only (fun x => kmap <= x < kmap + PAGE_SIZE \/ argv <= x < argv + 4 * argc) m m').
Proof.
  intros argc [Hb Ha Hpage Htab Hapart Hsrc Hfuel] Hfit. change STACK_TOP with 4080 in *. change PAGE_SIZE with 4096 in *.
  destruct (args_room_bounds strs) as [Hr _]. assert (argc = Z.of_nat (length strs)) as Eargc by done.
  unfold fill_stack, deep_stack. change STACK_TOP with 4080. change PAGE_SIZE with 4096. set (d := base - kmap).
  set (k0 := kmap + 4080 - 2 * 4). replace (base + 4080 - 2 * 4) with (k0 + d) by lia.
  replace (Z.to_nat argc) with (length strs) by lia. apply wp_bind.
  eapply (wp_mono _ _ (fun x m1 => exists k1 qtrs, x = (k1, k1 + d) /\ k0 - args_room strs - 16 <= k1 <= k0 /\
    words_at m1 argv qtrs /\ Forall2 (copy m1 d (k1 + 4) (k0 + 4)) qtrs strs /\
    only (fun x => kmap <= x < kmap + 4096 \/ argv <= x < argv + 4 * argc) m m1)).
  { destruct (Z.eqb_spec argv 0) as [Hz|Hz].
    - rewrite (Ha Hz) in *. apply Forall2_nil_inv_r in Hsrc as ->. apply wp_ret. exists k0, [].
      split_and!; [done|simpl; lia|lia|done|constructor|apply only_refl].
    - apply wp_bind. eapply wp_mono.
      { apply (copy_argv_ok fuel kmap (kmap + 4096) argv d strs ptrs 0 m k0); rewrite ?Z.mul_0_r, ?Z.add_0_r; try done; lia. }
      rewrite Z.mul_0_r, Z.add_0_r. fold argc. intros r m1 (qtrs & -> & Hw1 & Hcp & Ho1). apply wp_ret. simpl fst. simpl snd.
      exists (k0 - args_room strs - 16), qtrs. split_and!; [f_equal; lia|lia|lia|done| |].
      + eapply Forall2_impl; [exact Hcp|]. intros q t Hq. eapply (copy_kept (fun _ => False)); [exact Hq|apply only_refl|tauto|lia|lia].
      + eapply only_mono; [exact Ho1|simpl; lia]. }
  intros x m1 (k1 & qtrs & -> & Hk1 & Hw1 & Hcp & Ho1). simpl fst. simpl snd.
  assert (length qtrs = length strs) as Hlen by by eapply Forall2_length.
  eapply wp_mono.
  { unfold argc. rewrite <-Hlen. apply (push_args_ok kmap k1 d argv qtrs true m1); rewrite ?Hlen; fold argc; try done; try lia.
    - apply Forall_forall. intros q Hq. apply list_elem_of_lookup in Hq as [n Hn].
      destruct (Forall2_lookup_l _ _ _ _ _ Hcp Hn) as (t & _ & [_ ? _]). done.
    - intros x Hx. apply Ho1, Hpage. lia.
    - destruct Hapart as [->|?]; [left; by apply nil_length_inv|right; lia]. }
  rewrite Hlen. fold argc. intros v m2 (sp & Hsp & Hsp' & -> & Hm & Hav & Hac & Hws & Ho2). simpl fst in *. simpl snd in *.
  split_and!; [lia|lia|lia|done| | |].
  - replace (sp + d - 4 - d) with (sp - 4) by lia. done.
  - exists (k1 - 4 * argc + d), qtrs. replace (sp + d - 4 - d + 4) with sp by lia. split_and!; [done|done|lia|lia|].
    eapply Forall2_impl; [exact Hcp|]. intros q t Hq. eapply copy_kept; [exact Hq|exact Ho2|simpl; lia|lia|lia].
  - eapply only_trans; [exact Ho1|exact Ho2|simpl; lia..].
Qed.

Lemma copy_argv_shallow fuel n argv : forall i k st (m : bmem), copy_argv fuel n i argv k st false m = Done ((k, st), m).
Proof. induction n as [|n IH]; intros i k st m; [done|]. apply IH. Qed.

Lemma fill_stack_shallow_ok fuel m kmap base argv ptrs strs :
  let argc := Z.of_nat (length strs) in
  page_args fuel m kmap base argv ptrs strs -> 4 * argc <= 4032 ->
  wp (fill_stack fuel kmap (base + STACK_TOP) argc argv false) m (fun y m' =>
    kmap < y.1 < kmap + PAGE_SIZE /\ shallow_stack m' kmap base y.2 ptrs /\
    only (fun x => kmap <= x < kmap + PAGE_SIZE) m m').
Proof.
  intros argc [Hb Ha Hpage Htab Hapart Hsrc Hfuel] Hfit. change STACK_TOP with 4080 in *. change PAGE_SIZE with 4096 in *.
  assert (argc = Z.of_nat (length strs)) as Eargc by done.
  assert (length ptrs = length strs) as Hlen by by eapply Forall2_length.
  unfold fill_stack, shallow_stack. change STACK_TOP with 4080. change PAGE_SIZE with 4096. set (d := base - kmap).
  set (k0 := kmap + 4080 - 2 * 4). replace (base + 4080 - 2 * 4) with (k0 + d) by lia.
  apply wp_bind. apply (wp_mono _ _ (fun x m1 => x = (k0, k0 + d) /\ m1 = m)).
  { destruct (argv =? 0); [by apply wp_ret|]. apply wp_bind. unfold wp at 1. rewrite copy_argv_shallow. by apply wp_ret. }
  intros x m1 [-> ->]. simpl fst. simpl snd. eapply wp_mono.
  { unfold argc. rewrite <-Hlen. apply (push_args_ok kmap k0 d argv ptrs false m); rewrite ?Hlen; fold argc; try done; try lia.
    - apply Forall_forall. intros q Hq. apply list_elem_of_lookup in Hq as [n Hn].
      destruct (Forall2_lookup_l _ _ _ _ _ Hsrc Hn) as (t & _ & [_ ? _ _]). done.
    - intros x Hx. apply Hpage. lia.
    - destruct Hapart as [->|?]; [left; by apply nil_length_inv|right; lia]. }
  rewrite Hlen. fold argc. intros v m2 (sp & Hsp & Hsp' & -> & Hm & Hav & Hac & Hws & Ho2). simpl fst in *. simpl snd in *.
  split_and!; [lia|lia|lia|done| | |].
  - replace (sp + d - 8 - d + 4) with (sp - 4) by lia. done.
  - exists (k0 - 4 * argc + d). replace (sp + d - 8 - d + 8) with sp by lia. split_and!; [done|done|lia|lia].
  - eapply only_mono; [exact Ho2|simpl; lia].
Qed.

Section space.
Context {W : Type} `{!KernelSpace W}.
Implicit Types w : W.

(** The arguments of the caller: a table of addresses of strings, all of them in memory
    that is not the address space's own. *)
Record stack_args (fuel : nat) (w : W) (base argv : Z) (ptrs : list Z) (strs : list (list Z)) : Prop := {
  sa_base : PAGE_SIZE <= base /\ base + PAGE_SIZE < 2 ^ 32;
  sa_argv : argv = 0 -> strs = [];
  sa_table : words_at (kbytes w) argv ptrs;
  sa_own : forall x, argv <= x < argv + 4 * Z.of_nat (length strs) -> others w x;
  sa_strs : Forall2 (fun p s => cstr (kbytes w) p s /\ is_u32 p /\
    (p + Z.of_nat (length s) < argv \/ argv + 4 * Z.of_nat (length strs) <= p) /\
    forall x, p <= x <= p + Z.of_nat (length s) -> others w x) ptrs strs;
  sa_fuel : Forall (fun s => (length s < fuel)%nat) strs;
}.

(** An interval out of a page. *)
Lemma apart_page (P : Z -> Prop) a e kmap :
  (forall x, a <= x < e -> P x) -> (forall x, kmap <= x < kmap + PAGE_SIZE -> ~ P x) -> a <= e ->
  (a = e \/ e <= kmap \/ kmap + PAGE_SIZE <= a).
Proof.
  intros HP Hn Hae. unfold PAGE_SIZE in *. destruct (decide (a = e \/ e <= kmap \/ kmap + 4096 <= a)) as [|Hno]; [done|].
  destruct (Hn (Z.max a kmap)); [lia|]. apply HP. lia.
Qed.

(** The arguments once the page is mapped. *)
Lemma page_args_mapped fuel w w1 kmap base argv ptrs strs :
  stack_args fuel w base argv ptrs strs ->
  (forall x, others w x -> others w1 x /\ kbytes w1 !! x = kbytes w !! x) ->
  (forall x, kmap <= x < kmap + PAGE_SIZE -> is_Some (kbytes w1 !! x) /\ others w1 x /\ ~ others w x) ->
  page_args fuel (kbytes w1) kmap base argv ptrs strs.
Proof.
  intros [Hb Ha Ht Ho Hs Hf] Hk Hp. set (e := argv + 4 * Z.of_nat (length strs)) in *.
  assert (length ptrs = length strs) as Hlen by by eapply Forall2_length.
  split; try done.
  - intros x Hx. by apply Hp.
  - assert (forall l a, (forall x, a <= x < a + 4 * Z.of_nat (length l) -> others w x) ->
      words_at (kbytes w) a l -> words_at (kbytes w1) a l) as Hwords; [|by apply Hwords; [rewrite Hlen|]].
    induction l as [|v l IH]; intros a Hx; [done|]. simpl in *. intros [Hv Hl]. split; [|apply IH; [|done]; intros; apply Hx; lia].
    eapply bytes_at_kept; [exact Hv|]. simpl. intros x Hx'. apply Hk, Hx. lia.
  - destruct (apart_page (others w) argv e kmap Ho ltac:(intros; by apply Hp) ltac:(lia)) as [?|?]; [|by right].
    left. apply nil_length_inv. lia.
  - eapply Forall2_impl; [exact Hs|]. intros p s (Hc & Hu & Htab & Hown). split; [|done| |done].
    + destruct Hc as [Hc Hc']. split; [|done]. eapply bytes_at_kept; [exact Hc|]. rewrite length_app. simpl.
      intros x Hx. apply Hk, Hown. lia.
    + destruct (apart_page (others w) p (p + Z.of_nat (length s) + 1) kmap) as [?|?]; [|intros; by apply Hp|..]; try lia.
      intros x Hx. apply Hown. lia.
Qed.
(** The frame: the page, and [P], are all that may change of the memory of others. *)
Definition spares (P : Z -> Prop) (w w' : W) : Prop :=
  forall x, others w x -> ~ P x -> kbytes w' !! x = kbytes w !! x.

(** Mapping, writing and unmapping, for what is written. *)
Lemma setup_stack_ok fuel w phy base argc argv deep ptrs strs (P : Z -> Prop) (R : bmem -> Z -> Z -> Prop) :
  space_ok w -> stack_args fuel w base argv ptrs strs -> (forall x, P x -> others w x) ->
  (forall m kmap, page_args fuel m kmap base argv ptrs strs ->
    wp (fill_stack fuel kmap (base + STACK_TOP) argc argv deep) m (fun y m' =>
      kmap < y.1 < kmap + PAGE_SIZE /\ R m' kmap y.2 /\ only (fun x => kmap <= x < kmap + PAGE_SIZE \/ P x) m m')) ->
  wp (i386_setup_stack fuel (base + STACK_TOP) phy argc argv deep) w (fun n w' => space_ok w' /\ spares P w w' /\
    ((n = 1 /\ mapped w' = mapped w) \/
     exists kmap, kmap mod PAGE_SIZE = 0 /\ mapped w' = <[kmap := phy]> (mapped w) /\ R (kbytes w') kmap (base + STACK_TOP - n))).
Proof.
  intros Hok Hargs HP Hfill. unfold i386_setup_stack. apply wp_bind. eapply wp_mono; [by apply as_map_page_spec|].
  intros r w1 (Hok1 & Hk & [[-> Hm]|(Hr & Hal & Hnone & Hm & Hpage)]).
  { apply wp_ret. split_and!; [done| |by left]. intros x Hx _. by apply Hk. }
  rewrite (proj2 (Z.eqb_neq r 0)) by lia. apply wp_bind, wp_zoom.
  eapply wp_mono; [apply Hfill, (page_args_mapped fuel w w1); done|]. intros [ks st] m' (Hks & HR & [Hon Hdom]). simpl in *.
  set (w2 := set_kbytes m' w1).
  assert (space_ok w2) as Hok2.
  { apply space_set; [done|]. intros x Hx. apply Hon. intros [?|HPx]; apply Hx; [by apply Hpage|by apply Hk, HP]. }
  assert (mapped w2 !! ks = None) as Hfree.
  { apply eq_None_not_Some. intros [p Hp]. pose proof (mapped_page _ _ _ Hok2 Hp) as Hmod. unfold PAGE_SIZE in *.
    apply Z.mod_divide in Hmod as [q1 ->], Hal as [q2 ->]; lia. }
  apply wp_bind. eapply wp_mono; [by apply as_unmap_page_spec|]. intros _ w3 [_ Hsame]. rewrite (Hsame Hfree). apply wp_ret.
  unfold w2. split_and!; [done| |right; exists r; split_and!; [done|by rewrite mapped_set|]].
  - intros x Hx HPx. rewrite kbytes_set, Hon; [by apply Hk|]. intros [Hp|?]; [|done]. by destruct (Hpage x Hp) as (_ & _ & []).
  - rewrite kbytes_set. by replace (base + STACK_TOP - (base + STACK_TOP - st)) with st by lia.
Qed.

End space.

(** ** The theorem applies *)

Definition zeroes (a n : Z) : bmem := list_to_map ((fun x => (x, 0)) <$> seqZ a n).

Lemma zeroes_mapped a n x : is_Some (zeroes a n !! x) <-> a <= x < a + n.
Proof.
  rewrite <-elem_of_dom. unfold zeroes. rewrite dom_list_to_map, elem_of_list_to_set, list_elem_of_fmap. split.
  - intros ([y v] & -> & Hy). apply list_elem_of_fmap in Hy as (z & [= -> ->] & Hz). simpl. apply elem_of_seqZ in Hz. lia.
  - intros Hx. exists (x, 0). split; [done|]. apply list_elem_of_fmap. exists x. split; [done|]. apply elem_of_seqZ. lia.
Qed.

(** A kernel with one page to map, at 8192. *)
Record small_space := { s_bytes : bmem; s_mapped : gmap Z Z; s_others : gset Z }.

Definition small_page : list Z := seqZ 8192 PAGE_SIZE.

Definition small_map (phy : Z) : M small_space Z := fun w =>
  if decide (s_mapped w !! 8192 = None /\ Forall (fun x => x ∉ s_others w) small_page)
  then Done (8192, {| s_bytes := s_bytes w ∪ zeroes 8192 PAGE_SIZE; s_mapped := <[8192 := phy]> (s_mapped w);
                      s_others := s_others w ∪ list_to_set small_page |})
  else Done (0, w).

Definition small_unmap (a : Z) : M small_space unit := fun w =>
  match s_mapped w !! a with
  | Some _ => Done (tt, {| s_bytes := filter (fun '(x, _) => x < a \/ a + PAGE_SIZE <= x) (s_bytes w);
                           s_mapped := delete a (s_mapped w); s_others := s_others w |})
  | None => Done (tt, w)
  end.

Definition small_ok (w : small_space) : Prop := forall a p, s_mapped w !! a = Some p -> a mod PAGE_SIZE = 0.

Lemma in_small_page x : x ∈ small_page <-> 8192 <= x < 8192 + PAGE_SIZE.
Proof. apply elem_of_seqZ. Qed.

#[local] Opaque small_page zeroes.

Lemma small_map_ok w phy : small_ok w -> wp (small_map phy) w (fun r w' => small_ok w' /\
  (forall x, x ∈ s_others w -> x ∈ s_others w' /\ s_bytes w' !! x = s_bytes w !! x) /\
  ((r = 0 /\ s_mapped w' = s_mapped w) \/
   (0 < r /\ r mod PAGE_SIZE = 0 /\ s_mapped w !! r = None /\ s_mapped w' = <[r := phy]> (s_mapped w) /\
    forall x, r <= x < r + PAGE_SIZE -> is_Some (s_bytes w' !! x) /\ x ∈ s_others w' /\ x ∉ s_others w))).
Proof.
  intros Hp. unfold wp, small_map. case_decide as Hd; [|split; [exact Hp|split; [tauto|by left]]]. destruct Hd as [Hn Hf].
  rewrite Forall_forall in Hf. split; [|split].
  - intros a p. simpl. destruct (decide (a = 8192)) as [->|]; [done|]. rewrite lookup_insert_ne by done. apply Hp.
  - intros x Hx. simpl. split; [apply elem_of_union; by left|].
    assert (zeroes 8192 PAGE_SIZE !! x = None) as Hz.
    { apply eq_None_not_Some. rewrite zeroes_mapped, <-in_small_page. intros Hx'. by apply (Hf x). }
    exact (lookup_union_l _ _ _ Hz).
  - right. simpl. split; [done|]. split; [done|]. split; [exact Hn|]. split; [done|]. intros x Hx.
    apply in_small_page in Hx as Hx'. split; [|split; [|by apply Hf]].
    + apply lookup_union_is_Some. right. exact (proj2 (zeroes_mapped _ _ _) Hx).
    + apply elem_of_union. right. by apply elem_of_list_to_set.
Qed.

#[export] Instance small_kernel : KernelSpace small_space.
Proof.
  refine {| kbytes := s_bytes; set_kbytes b w := {| s_bytes := b; s_mapped := s_mapped w; s_others := s_others w |};
    mapped := s_mapped; others w x := x ∈ s_others w; space_ok := small_ok;
    as_map_page := small_map; as_unmap_page := small_unmap; as_map_page_spec := small_map_ok |}; try done.
  - intros w a p Hok. apply Hok.
  - intros w a Hok. unfold wp, small_unmap. destruct (s_mapped w !! a) as [p|] eqn:E; simpl; [done|].
    split; [|done]. by rewrite delete_id.
Defined.

(** The command [ls -l]. *)
Definition sample_args : list (list Z) := [[108; 115]; [45; 108]].
Definition args_mem : bmem :=
  store_bytes 100 (word_bytes 200 ++ word_bytes 300) (store_bytes 200 [108; 115; 0] (store_bytes 300 [45; 108; 0] ∅)).
Definition sample_space : small_space :=
  {| s_bytes := args_mem; s_mapped := {[4096 := 65536]}; s_others := dom args_mem |}.

Lemma sample_space_ok : space_ok sample_space.
Proof. intros a p Ha. change (({[4096 := 65536]} : gmap Z Z) !! a = Some p) in Ha. by apply lookup_singleton_Some in Ha as [<- _]. Qed.

Lemma args_mem_there a n x : forallb (fun y => bool_decide (is_Some (args_mem !! y))) (seqZ a n) = true ->
  a <= x < a + n -> x ∈ dom args_mem.
Proof.
  intros Hb Hx. rewrite forallb_forall in Hb. apply elem_of_dom. apply (bool_decide_unpack _), Is_true_true, Hb.
  apply list_elem_of_In, elem_of_seqZ. lia.
Qed.

Lemma sample_args_ok : stack_args 5 sample_space 1048576 100 [200; 300] sample_args.
Proof.
  split.
  - unfold PAGE_SIZE. lia.
  - done.
  - vm_compute. repeat split.
  - intros x Hx. simpl in Hx. by eapply (args_mem_there 100 8).
  - constructor; [|constructor; [|constructor]]; (split; [|split; [unfold is_u32; lia|split; [simpl; lia|]]]).
    1, 3: split; [vm_compute; repeat split|unfold is_char; repeat constructor; lia].
    + intros x Hx. simpl in Hx. eapply (args_mem_there 200 3); [by vm_compute|lia].
    + intros x Hx. simpl in Hx. eapply (args_mem_there 300 3); [by vm_compute|lia].
  - repeat constructor.
Qed.


End Stack.
