(* ===== verification/KHeap.v ===== *)
(** What the kernel heap promises to the rest of the kernel.

    Most components allocate their nodes with [kmalloc] and release them with
    [kfree].  [KHeap] states what they rely on, so their theorems hold for any
    allocator that keeps these laws; Kmalloc.v shows that the allocator of
    kernel/core/mem/kmalloc.c does.

    [live h] gives the size of the block at every allocated address.  [room h b]
    says that [b] more bytes, counting [KMALLOC_OVERHEAD] bytes of header per
    block, can be allocated without running out of memory (running out is a
    kernel panic). *)

From S2P Require Import Prelude.

(** [sizeof (struct kmalloc_blk)]: a pointer, a uint32_t, a padded uint8_t and
    two list pointers. *)
Definition KMALLOC_OVERHEAD : Z := 20.

Class KHeap (H : Type) := {
  kmalloc : Z -> M H Z;
  kfree : Z -> M H unit;
  heap_ok : H -> Prop;
  live : H -> gmap Z Z;
  room : H -> Z -> Prop;
  kmalloc_spec : forall h size b,
    heap_ok h -> 0 <= size < 2 ^ 32 -> b = 0 \/ KMALLOC_OVERHEAD < b ->
    room h (size + KMALLOC_OVERHEAD + b) ->
    wp (kmalloc size) h (fun p h' =>
      heap_ok h' /\ 0 < p < 2 ^ 32 /\ live h !! p = None /\
      (exists n, size <= n /\ live h' = <[p := n]> (live h)) /\ room h' b);
  kfree_spec : forall h p,
    heap_ok h -> is_Some (live h !! p) ->
    wp (kfree p) h (fun _ h' =>
      heap_ok h' /\ live h' = delete p (live h) /\ (forall b, room h b -> room h' b));
  room_mono : forall h b b', room h b -> b' <= b -> room h b';
  kfree_null : forall h, kfree 0 h = Done (tt, h);
}.

(** ** Owning nodes

    [owned h l]: [l] lists distinct, non-null, allocated addresses.  It is what
    a component whose nodes come from [kmalloc] knows about them. *)

Section owned.
Context {H : Type} `{KHeap H}.
Implicit Types (h : H) (l : list Z) (p : Z).

Definition owned h l : Prop :=
  NoDup l /\ forall a, a ∈ l -> 0 < a /\ is_Some (live h !! a).

Lemma owned_nil h : owned h [].
Proof. split; [constructor|]. intros a Ha. by apply not_elem_of_nil in Ha. Qed.

Lemma owned_perm h l l' : l ≡ₚ l' -> owned h l -> owned h l'.
Proof. intros Hp [Hn Ho]. split; [by rewrite <-Hp|]. intros a Ha. apply Ho. by rewrite Hp. Qed.

#[export] Instance owned_proper h : Proper ((≡ₚ) ==> iff) (owned h).
Proof. intros l l' Hp. split; by apply owned_perm. Qed.

Lemma owned_kmalloc h h' l p n :
  owned h l -> 0 < p -> live h !! p = None -> live h' = <[p := n]> (live h) -> owned h' (p :: l).
Proof.
  intros [Hn Ho] Hp Hnone Hl. split.
  - constructor; [|done]. intros Hin. destruct (Ho p Hin) as [_ [??]]. congruence.
  - intros a [->|Ha]%elem_of_cons; rewrite Hl.
    + split; [done|]. rewrite lookup_insert_eq. eauto.
    + destruct (Ho a Ha) as [? [k ?]]. split; [done|].
      rewrite lookup_insert_ne by congruence. eauto.
Qed.

Lemma owned_kfree h h' l p :
  owned h (p :: l) -> live h' = delete p (live h) -> owned h' l.
Proof.
  intros [[Hni Hn]%NoDup_cons Ho] Hl. split; [done|]. intros a Ha.
  destruct (Ho a) as [? ?]; [set_solver|]. split; [done|].
  rewrite Hl, lookup_delete_ne; [done|]. set_solver.
Qed.

Lemma owned_live h l p : owned h l -> p ∈ l -> is_Some (live h !! p).
Proof. intros [_ Ho] Hp. by apply Ho. Qed.

Lemma owned_app_r h l l' : owned h (l ++ l') -> owned h l'.
Proof. intros [Hn Ho]. apply NoDup_app in Hn as (_ & _ & ?). split; set_solver. Qed.

(** *** Calls from a component whose state holds the heap *)

Section clients.
Context {S : Type} (proj : S -> H) (upd : H -> S -> S).
Implicit Types s : S.

Lemma wp_kmalloc_live s n b Q :
  heap_ok (proj s) -> 0 <= n < 2 ^ 32 -> b = 0 \/ KMALLOC_OVERHEAD < b ->
  room (proj s) (n + KMALLOC_OVERHEAD + b) ->
  (forall p h', heap_ok h' -> 0 < p -> live (proj s) !! p = None ->
     (exists k, n <= k /\ live h' = <[p := k]> (live (proj s))) -> room h' b -> Q p (upd h' s)) ->
  wp (zoom proj upd (kmalloc n)) s Q.
Proof.
  intros Hok Hn Hb Hr HQ. apply wp_zoom.
  eapply wp_mono; [by apply (kmalloc_spec _ _ b)|].
  intros p h' (Hok' & Hp & Hnone & Hl & Hr'). by apply HQ; try lia.
Qed.

Lemma wp_kfree_live s p Q :
  heap_ok (proj s) -> is_Some (live (proj s) !! p) ->
  (forall h', heap_ok h' -> live h' = delete p (live (proj s)) ->
     (forall b, room (proj s) b -> room h' b) -> Q tt (upd h' s)) ->
  wp (zoom proj upd (kfree p)) s Q.
Proof.
  intros Hok Hl HQ. apply wp_zoom. eapply wp_mono; [by apply kfree_spec|].
  intros [] h' (Hok' & Hl' & Hr'). by apply HQ.
Qed.

Lemma wp_kmalloc_owned s n b Q :
  heap_ok (proj s) -> 0 <= n < 2 ^ 32 -> b = 0 \/ KMALLOC_OVERHEAD < b ->
  room (proj s) (n + KMALLOC_OVERHEAD + b) ->
  (forall p h', heap_ok h' -> 0 < p ->
     (forall l, owned (proj s) l -> owned h' (p :: l)) -> room h' b -> Q p (upd h' s)) ->
  wp (zoom proj upd (kmalloc n)) s Q.
Proof.
  intros Hok Hn Hb Hr HQ. apply (wp_kmalloc_live s n b); [done..|].
  intros p h' Hok' Hp Hnone (k & _ & Hl) Hr'. apply HQ; [done..| |done].
  intros l Ho. by eapply owned_kmalloc.
Qed.

Lemma wp_kfree_owned s p Q :
  heap_ok (proj s) -> is_Some (live (proj s) !! p) ->
  (forall h', heap_ok h' -> (forall l, owned (proj s) (p :: l) -> owned h' l) ->
     (forall b, room (proj s) b -> room h' b) -> Q tt (upd h' s)) ->
  wp (zoom proj upd (kfree p)) s Q.
Proof.
  intros Hok Hl HQ. apply wp_kfree_live; [done..|]. intros h' Hok' Hl' Hr'.
  apply HQ; [done| |done]. intros l Ho. by eapply owned_kfree.
Qed.
End clients.
End owned.
