(* ===== verification/Kmalloc.v ===== *)
(** The kernel heap: kernel/core/mem/kmalloc.c.

    The heap is a list of blocks, in the order of the klist; each starts with a
    [struct kmalloc_blk] at [bk_addr], followed by [bk_size] bytes of data.  A
    pointer to a block of the list is the block with what comes before and after
    it ([list_break]).  Reading the header of an address where no block starts
    is [Undef].  [mem] is the contents of the data areas, for [krealloc].

    [heap_inv lo hi]: the blocks tile the heap, headers are consistent, and no
    two adjacent blocks are free. *)

From S2P Require Import Prelude KHeap KString.

Module Kmalloc.

Record kmalloc_blk := {
  bk_addr : Z;
  bk_ptr : Z;
  bk_size : Z;
  bk_free : bool;
}.

#[export] Instance kmalloc_blk_eq_dec : EqDecision kmalloc_blk.
Proof. solve_decision. Defined.

Record heap := {
  kmalloc_lock : bool;
  kmalloc_head : list kmalloc_blk;
  mem : bmem;
}.

Definition set_lock (b : bool) (h : heap) : heap :=
  {| kmalloc_lock := b; kmalloc_head := kmalloc_head h; mem := mem h |}.
Definition set_head (l : list kmalloc_blk) (h : heap) : heap :=
  {| kmalloc_lock := kmalloc_lock h; kmalloc_head := l; mem := mem h |}.
Definition set_mem (m : bmem) (h : heap) : heap :=
  {| kmalloc_lock := kmalloc_lock h; kmalloc_head := kmalloc_head h; mem := m |}.

Definition set_free (f : bool) (b : kmalloc_blk) : kmalloc_blk :=
  {| bk_addr := bk_addr b; bk_ptr := bk_ptr b; bk_size := bk_size b; bk_free := f |}.
Definition set_size (n : Z) (b : kmalloc_blk) : kmalloc_blk :=
  {| bk_addr := bk_addr b; bk_ptr := bk_ptr b; bk_size := n; bk_free := bk_free b |}.

Definition sizeof_blk := KMALLOC_OVERHEAD.
Definition KSTACK_SIZE : Z := 4096.

Definition kmalloc_initialize (heap_start heap_size : Z) : M heap unit := fun h =>
  let first_blk := {| bk_addr := heap_start;
                      bk_ptr := u32 (heap_start + sizeof_blk);
                      bk_size := u32 (heap_size - KSTACK_SIZE - sizeof_blk);
                      bk_free := true |} in
  Done (tt, {| kmalloc_lock := false; kmalloc_head := [first_blk]; mem := mem h |}).

(** The block as it is left and, when the block is cut, the new one behind it. *)
Definition kmalloc_split (before : list kmalloc_blk) (blk : kmalloc_blk)
    (after : list kmalloc_blk) (size : Z) : M heap Z :=
  let blk := set_free false blk in
  (if bk_size blk >? u32 (size + sizeof_blk) then
     let new_addr := u32 (bk_addr blk + sizeof_blk + size) in
     let new_blk := {| bk_addr := new_addr;
                       bk_size := u32 (bk_size blk - size - sizeof_blk);
                       bk_ptr := u32 (new_addr + sizeof_blk);
                       bk_free := true |} in
     modify (set_head (before ++ set_size size blk :: new_blk :: after))
   else modify (set_head (before ++ blk :: after))) ;;;
  ret (bk_ptr blk).

Definition kmalloc (size : Z) : M heap Z :=
  spinlock_lock kmalloc_lock set_lock ;;;
  let! h := get in
  match list_break (fun blk => (bk_size blk >=? size) && bk_free blk) (kmalloc_head h) with
  | Some (before, blk, after) =>
      let! addr := kmalloc_split before blk after size in
      spinlock_unlock set_lock ;;;
      ret addr
  | None =>
      spinlock_unlock set_lock ;;;
      kernel_panic "kmalloc no more memory"
  end.

(** The two halves of [kmerge]: absorb the next block, then be absorbed by the
    previous one. *)
Definition kmerge_next (blk : kmalloc_blk) (after : list kmalloc_blk)
    : kmalloc_blk * list kmalloc_blk :=
  match after with
  | next :: rest =>
      if bk_free next && (bk_addr next =? u32 (bk_addr blk + sizeof_blk + bk_size blk))
      then (set_size (u32 (bk_size blk + (bk_size next + sizeof_blk))) blk, rest)
      else (blk, after)
  | [] => (blk, after)
  end.

Definition kmerge_prev (before : list kmalloc_blk) (blk : kmalloc_blk)
    (after : list kmalloc_blk) : list kmalloc_blk :=
  match rev before with
  | prev :: rest =>
      if bk_free prev && (bk_addr blk =? u32 (bk_addr prev + sizeof_blk + bk_size prev))
      then rev rest ++ set_size (u32 (bk_size prev + (bk_size blk + sizeof_blk))) prev :: after
      else before ++ blk :: after
  | [] => before ++ blk :: after
  end.

Definition kmerge (before : list kmalloc_blk) (blk : kmalloc_blk)
    (after : list kmalloc_blk) : list kmalloc_blk :=
  let '(blk, after) := kmerge_next blk after in kmerge_prev before blk after.

(** The block whose header is at [a]. *)
Definition block_at (a : Z) (h : heap) : option (list kmalloc_blk * kmalloc_blk * list kmalloc_blk) :=
  list_break (fun blk => bk_addr blk =? a) (kmalloc_head h).

Definition kfree (ptr : Z) : M heap unit :=
  if ptr =? 0 then ret tt
  else
    let! h := get in
    match block_at (u32 (ptr - sizeof_blk)) h with
    | None => undef
    | Some (before, blk, after) =>
        if negb (bk_ptr blk =? ptr) then kernel_panic "kfree junk ptr"
        else
          spinlock_lock kmalloc_lock set_lock ;;;
          modify (set_head (kmerge before (set_free true blk) after)) ;;;
          spinlock_unlock set_lock
    end.

Definition krealloc (ptr new_size : Z) : M heap Z :=
  if ptr =? 0 then kmalloc new_size
  else
    let! h := get in
    match block_at (u32 (ptr - sizeof_blk)) h with
    | None => undef
    | Some (_, old_blk, _) =>
        if negb (bk_ptr old_blk =? ptr) then kernel_panic "krealloc junk ptr"
        else
          let! new_area := kmalloc new_size in
          if new_area =? 0 then ret 0
          else
            let! h := get in
            match block_at (u32 (ptr - sizeof_blk)) h with
            | None => undef
            | Some (_, old_blk, _) =>
                let n := if new_size >? bk_size old_blk then bk_size old_blk else new_size in
                zoom mem set_mem (KString.memcpy new_area ptr n) ;;;
                kfree ptr ;;;
                ret new_area
            end
    end.

(** The lines printed, one per block. *)
Definition kmalloc_dump : M heap (list (string * Z * Z * Z)) :=
  spinlock_lock kmalloc_lock set_lock ;;;
  let! h := get in
  spinlock_unlock set_lock ;;;
  ret (map (fun blk => ((if bk_free blk then "FREE" else "USED")%string, bk_ptr blk,
                        u32 (bk_ptr blk + bk_size blk), bk_size blk)) (kmalloc_head h)).

(** ** Invariant *)

Definition blk_stop (b : kmalloc_blk) : Z := bk_addr b + sizeof_blk + bk_size b.

Definition blk_ok (b : kmalloc_blk) : Prop :=
  bk_ptr b = bk_addr b + sizeof_blk /\ 0 <= bk_size b.

(** Arithmetic on the fields of blocks. *)
Ltac blk_arith :=
  unfold blk_ok, blk_stop, sizeof_blk, KMALLOC_OVERHEAD in *; simpl in *; lia.

(** No two adjacent free blocks; [p] tells whether the block before is free. *)
Fixpoint coalesced (p : bool) (l : list kmalloc_blk) : Prop :=
  match l with
  | [] => True
  | b :: l => (p && bk_free b = false) /\ coalesced (bk_free b) l
  end.

Definition heap_inv (lo hi : Z) (h : heap) : Prop :=
  kmalloc_lock h = false /\
  tiles bk_addr blk_stop lo (kmalloc_head h) hi /\
  Forall blk_ok (kmalloc_head h) /\
  coalesced false (kmalloc_head h) /\
  0 < lo /\ hi < 2 ^ 32.

(** The allocated areas: address and size. *)
Definition used (b : kmalloc_blk) : option (Z * Z) :=
  if bk_free b then None else Some (bk_ptr b, bk_size b).
Definition areas (l : list kmalloc_blk) : list (Z * Z) := omap used l.
Arguments areas : simpl never.
Definition live (h : heap) : gmap Z Z := list_to_map (areas (kmalloc_head h)).

Definition room (h : heap) (b : Z) : Prop :=
  b <= 0 \/ exists blk, blk ∈ kmalloc_head h /\ bk_free blk = true /\ b <= bk_size blk + sizeof_blk.

Fixpoint end_free (p : bool) (l : list kmalloc_blk) : bool :=
  match l with [] => p | b :: l => end_free (bk_free b) l end.

Lemma coalesced_app p l1 l2 :
  coalesced p (l1 ++ l2) <-> coalesced p l1 /\ coalesced (end_free p l1) l2.
Proof.
  revert p. induction l1 as [|b l1 IH]; intros p; simpl; [tauto|]. rewrite IH. tauto.
Qed.

Lemma coalesced_weaken p l : coalesced p l -> coalesced false l.
Proof. destruct l; simpl; [done|]. tauto. Qed.

Lemma end_free_snoc p l b : end_free p (l ++ [b]) = bk_free b.
Proof. revert p. by induction l as [|c l IH]; intros p; simpl. Qed.

Lemma blk_ok_le l : Forall blk_ok l -> Forall (fun b => bk_addr b < blk_stop b) l.
Proof.
  intros H. eapply Forall_impl; [done|]. intros b [_ ?]. unfold blk_stop, sizeof_blk, KMALLOC_OVERHEAD. lia.
Qed.

Lemma blk_ok_le' l : Forall blk_ok l -> Forall (fun b => bk_addr b <= blk_stop b) l.
Proof. intros H. eapply Forall_impl; [by apply blk_ok_le|]. simpl. lia. Qed.

Lemma heap_inv_elem lo hi h b :
  heap_inv lo hi h -> b ∈ kmalloc_head h -> blk_ok b /\ lo <= bk_addr b /\ blk_stop b <= hi.
Proof.
  intros (_ & Ht & Hok & _) Hb. split; [by eapply Forall_forall|].
  eapply tiles_elem; [by apply blk_ok_le'|done..].
Qed.

(** Two blocks of the heap with the same header address are the same. *)
Lemma heap_inv_addr lo hi h : heap_inv lo hi h -> NoDup (bk_addr <$> kmalloc_head h).
Proof. intros (_ & Ht & Hok & _). eapply tiles_NoDup; [by apply blk_ok_le|done]. Qed.

Lemma areas_app l1 l2 : areas (l1 ++ l2) = areas l1 ++ areas l2.
Proof. apply omap_app. Qed.

Lemma areas_cons b l :
  areas (b :: l) = if bk_free b then areas l else (bk_ptr b, bk_size b) :: areas l.
Proof. unfold areas, used. simpl. by destruct (bk_free b). Qed.

Lemma areas_NoDup l :
  Forall blk_ok l -> NoDup (bk_addr <$> l) -> NoDup (areas l).*1.
Proof.
  induction l as [|b l IH]; [constructor|]. intros [Hb Hl]%Forall_cons [Hni Hnd]%NoDup_cons.
  rewrite areas_cons. destruct (bk_free b); [by apply IH|].
  simpl. constructor; [|by apply IH].
  intros ([q n] & Hq & Hin)%list_elem_of_fmap. simpl in Hq. subst q.
  apply list_elem_of_omap in Hin as (c & Hc & Hu). unfold used in Hu.
  destruct (bk_free c); [done|]. simplify_eq. apply Hni.
  apply list_elem_of_fmap. exists c. split; [|done].
  destruct Hb as [Hb _]. apply (Forall_forall blk_ok l) in Hc as [Hc _]; [|done]. lia.
Qed.

Lemma live_lookup lo hi h p n :
  heap_inv lo hi h ->
  live h !! p = Some n <->
  exists b, b ∈ kmalloc_head h /\ bk_free b = false /\ bk_ptr b = p /\ bk_size b = n.
Proof.
  intros Hi. unfold live. rewrite <-elem_of_list_to_map.
  2:{ apply areas_NoDup; [apply Hi|by eapply heap_inv_addr]. }
  unfold areas. rewrite list_elem_of_omap. unfold used. split.
  - intros (b & Hb & Hu). destruct (bk_free b) eqn:E; simplify_eq. eauto.
  - intros (b & Hb & Hf & <- & <-). exists b. by rewrite Hf.
Qed.

(** ** Allocation *)

(** What [kmalloc] makes of the list when it takes [blk]. *)
Definition cut (blk : kmalloc_blk) (size : Z) : list kmalloc_blk :=
  if bk_size blk >? size + sizeof_blk
  then [ {| bk_addr := bk_addr blk; bk_ptr := bk_ptr blk; bk_size := size; bk_free := false |};
         {| bk_addr := bk_addr blk + sizeof_blk + size;
            bk_ptr := bk_addr blk + sizeof_blk + size + sizeof_blk;
            bk_size := bk_size blk - size - sizeof_blk; bk_free := true |} ]
  else [ set_free false blk ].

Lemma kmalloc_run lo hi h size before blk after :
  heap_inv lo hi h -> 0 <= size ->
  list_break (fun blk => (bk_size blk >=? size) && bk_free blk) (kmalloc_head h)
    = Some (before, blk, after) ->
  kmalloc size h = Done (bk_ptr blk, set_head (before ++ cut blk size ++ after) h).
Proof.
  intros Hi Hs Hb. unfold kmalloc, spinlock_lock, bind, get. simpl.
  rewrite (proj1 Hi). simpl. rewrite Hb.
  apply list_break_Some in Hb as (Heq & Hp & _). apply andb_prop in Hp as [Hge _].
  destruct (heap_inv_elem lo hi h blk Hi) as ([Hptr Hsz] & Hlo & Hhi).
  { rewrite Heq. set_solver. }
  destruct Hi as (Hlk & _ & _ & _ & Hlo0 & Hhi32).
  unfold blk_stop, sizeof_blk, KMALLOC_OVERHEAD in *.
  unfold kmalloc_split, bind, modify, ret, spinlock_unlock, set_head, set_lock, cut,
    set_size, set_free, sizeof_blk, KMALLOC_OVERHEAD; simpl.
  rewrite (u32_small (size + 20)) by lia.
  destruct (Z.gtb_spec (bk_size blk) (size + 20)); simpl; u32_norm; rewrite ?Hlk; done.
Qed.

Lemma cut_used blk size :
  exists b r, cut blk size = b :: r /\ bk_ptr b = bk_ptr blk /\ bk_addr b = bk_addr blk /\
              bk_free b = false /\ areas r = [].
Proof.
  unfold cut. destruct (_ >? _); simpl; eexists _, _; split_and!; done.
Qed.

Lemma cut_tiles blk size hi l :
  tiles bk_addr blk_stop (blk_stop blk) l hi ->
  tiles bk_addr blk_stop (bk_addr blk) (cut blk size ++ l) hi.
Proof.
  intros Ht. unfold cut. destruct (_ >? _); simpl; [|done].
  split; [done|]. split; [done|].
  replace (blk_stop _) with (blk_stop blk); [done|].
  unfold blk_stop. simpl. lia.
Qed.

Lemma cut_ok blk size :
  blk_ok blk -> 0 <= size -> size <= bk_size blk -> Forall blk_ok (cut blk size).
Proof.
  intros [Hp Hs] H0 Hle. unfold cut. destruct (Z.gtb_spec (bk_size blk) (size + sizeof_blk));
    repeat constructor; simpl; lia.
Qed.

Lemma cut_coalesced blk size l p :
  coalesced true l -> p = false -> coalesced p (cut blk size ++ l).
Proof.
  intros Hl ->. unfold cut. destruct (_ >? _); simpl; [tauto|].
  split; [done|]. by eapply coalesced_weaken.
Qed.

Lemma alloc_inv lo hi h before blk after size :
  heap_inv lo hi h -> kmalloc_head h = before ++ blk :: after -> bk_free blk = true ->
  0 <= size <= bk_size blk ->
  heap_inv lo hi (set_head (before ++ cut blk size ++ after) h).
Proof.
  intros (Hlk & Ht & Hok & Hc & Hlo & Hhi) Heq Hf Hs. rewrite Heq in *.
  apply tiles_middle in Ht as [Ht1 Ht2].
  apply Forall_app in Hok as [Hok1 [Hb Hok2]%Forall_cons].
  apply coalesced_app in Hc as [Hc1 [Hf' Hc2]]. rewrite Hf in *. rewrite andb_true_r in Hf'.
  split_and!; simpl; try done.
  - apply tiles_app. exists (bk_addr blk). split; [done|]. by apply cut_tiles.
  - rewrite !Forall_app. split_and!; [done| |done]. apply cut_ok; [done|lia..].
  - apply coalesced_app. split; [done|]. by apply cut_coalesced.
Qed.

Lemma alloc_live lo hi h before blk after size :
  heap_inv lo hi h -> kmalloc_head h = before ++ blk :: after -> bk_free blk = true ->
  0 <= size <= bk_size blk ->
  exists n, size <= n <= size + sizeof_blk /\ n <= bk_size blk /\
    live (set_head (before ++ cut blk size ++ after) h) = <[bk_ptr blk := n]> (live h) /\
    live h !! bk_ptr blk = None.
Proof.
  intros Hi Heq Hf Hs.
  pose proof (alloc_inv lo hi h before blk after size Hi Heq Hf Hs) as Hi'.
  destruct (cut_used blk size) as (b & r & Hcut & Hp & _ & Hbf & Hr).
  exists (bk_size b). split_and!.
  1-3: unfold cut, set_free, sizeof_blk, KMALLOC_OVERHEAD in *;
    destruct (Z.gtb_spec (bk_size blk) (size + 20)); simplify_eq/=; lia.
  - unfold live. rewrite Heq. simpl. rewrite Hcut. rewrite <-Hp.
    pose proof (areas_NoDup _ (proj1 (proj2 (proj2 Hi'))) (heap_inv_addr _ _ _ Hi')) as Hnd.
    simpl in Hnd. rewrite Hcut in Hnd.
    assert (areas (before ++ (b :: r) ++ after)
            = areas before ++ (bk_ptr b, bk_size b) :: areas after) as Ha.
    { by rewrite !areas_app, areas_cons, Hbf, Hr. }
    rewrite Ha in *. rewrite areas_app, areas_cons, Hf, <-list_to_map_cons.
    apply list_to_map_proper; [done|]. by rewrite Permutation_middle.
  - destruct (live h !! bk_ptr blk) as [n|] eqn:E; [|done].
    apply (live_lookup lo hi) in E as (c & Hc & Hcf & Hcp & _); [|done].
    destruct (heap_inv_elem lo hi h c Hi Hc) as ([Hcp' _] & _).
    destruct (heap_inv_elem lo hi h blk Hi) as ([Hbp' _] & _); [rewrite Heq; set_solver|].
    assert (c ∈ before ++ after) as Hc'.
    { rewrite Heq in Hc. apply elem_of_app in Hc as [Hc|[->|Hc]%elem_of_cons]; [set_solver|congruence|set_solver]. }
    pose proof (heap_inv_addr _ _ _ Hi) as Hnd. rewrite Heq, fmap_app, fmap_cons in Hnd.
    rewrite <-Permutation_middle, <-fmap_app in Hnd.
    apply NoDup_cons in Hnd as [Hni _]. destruct Hni. apply list_elem_of_fmap. exists c. split; [lia|done].
Qed.

(** ** Release *)

Lemma kmerge_next_ok hi blk after blk' after' :
  tiles bk_addr blk_stop (blk_stop blk) after hi -> blk_ok blk -> Forall blk_ok after ->
  0 <= bk_addr blk -> hi < 2 ^ 32 -> coalesced false after ->
  kmerge_next blk after = (blk', after') ->
  bk_addr blk' = bk_addr blk /\ bk_free blk' = bk_free blk /\ blk_ok blk' /\
  bk_size blk <= bk_size blk' /\
  tiles bk_addr blk_stop (blk_stop blk') after' hi /\ Forall blk_ok after' /\
  coalesced true after' /\ areas after' = areas after /\
  (forall b, b ∈ after -> b ∈ after' \/ bk_free b = true /\ bk_size b <= bk_size blk').
Proof.
  intros Ht [Hp Hs] Hok Ha Hhi Hc Heq. unfold kmerge_next in Heq.
  destruct after as [|next rest]; simplify_eq; [split_and!; done || lia || set_solver|].
  destruct Ht as [Hst Ht]. apply Forall_cons in Hok as [[Hnp Hns] Hok].
  destruct Hc as [_ Hc]. pose proof (tiles_le _ _ _ _ _ (blk_ok_le' _ Hok) Ht) as Hle.
  unfold blk_stop, sizeof_blk, KMALLOC_OVERHEAD in *.
  rewrite (u32_small (bk_addr blk + 20 + bk_size blk)) in Heq by lia.
  rewrite Hst, Z.eqb_refl, andb_true_r in Heq.
  destruct (bk_free next) eqn:Hf; simplify_eq; unfold set_size; simpl; u32_norm.
  - assert (bk_addr blk + 20 + (bk_size blk + (bk_size next + 20)) = bk_addr next + 20 + bk_size next)
      as -> by lia.
    split_and!; try done; try lia.
    + split; blk_arith.
    + rewrite areas_cons, Hf. done.
    + intros b [->|Hb]%elem_of_cons; [right; split; [done|lia]|by left].
  - split_and!; try done; try lia; try (by split).
    + by constructor.
    + by rewrite Hf.
    + intros b Hb. by left.
Qed.

Lemma kmerge_prev_ok lo hi before blk after :
  tiles bk_addr blk_stop lo before (bk_addr blk) -> Forall blk_ok before ->
  tiles bk_addr blk_stop (blk_stop blk) after hi -> blk_ok blk -> Forall blk_ok after ->
  bk_free blk = true -> 0 <= lo -> hi < 2 ^ 32 -> coalesced false before -> coalesced true after ->
  let l := kmerge_prev before blk after in
  tiles bk_addr blk_stop lo l hi /\ Forall blk_ok l /\ coalesced false l /\
  areas l = areas before ++ areas after /\
  (forall b, b ∈ before ++ blk :: after -> b ∈ l \/
     bk_free b = true /\ exists c, c ∈ l /\ bk_free c = true /\ bk_size b <= bk_size c).
Proof.
  intros Ht Hok Ht2 [Hp Hs] Hok2 Hf Hlo Hhi Hc Hc2. unfold kmerge_prev.
  assert (coalesced (end_free false before) (blk :: after) \/ end_free false before = true) as Hcase.
  { simpl. rewrite Hf. destruct (end_free false before); simpl; auto. }
  destruct before as [|prev before _] using rev_ind; simpl.
  { split_and!; try done.
    - by constructor.
    - by rewrite Hf.
    - rewrite areas_cons, Hf. done.
    - intros b Hb. by left. }
  rewrite rev_app_distr. simpl. rewrite rev_involutive.
  apply tiles_snoc in Ht as [Ht Hst]. apply Forall_app in Hok as [Hok [Hpp Hps]%Forall_singleton].
  pose proof (tiles_le _ _ _ _ _ (blk_ok_le' _ Hok) Ht) as Hle.
  pose proof (tiles_le _ _ _ _ _ (blk_ok_le' _ Hok2) Ht2) as Hle2.
  apply coalesced_app in Hc as [Hc Hcp]. rewrite end_free_snoc in Hcase.
  unfold blk_stop, sizeof_blk, KMALLOC_OVERHEAD in *.
  rewrite (u32_small (bk_addr prev + 20 + bk_size prev)) by lia.
  rewrite Hst, Z.eqb_refl, andb_true_r.
  destruct (bk_free prev) eqn:Hpf; simpl; u32_norm; split_and!.
  - apply tiles_middle. unfold set_size; simpl. split; [done|].
    replace (_ + _ + _) with (bk_addr blk + 20 + bk_size blk) by lia. done.
  - apply Forall_app. split; [done|]. constructor; [split; blk_arith|done].
  - apply coalesced_app. split; [done|]. simpl. rewrite Hpf. split; [|done].
    destruct Hcp as [Hcp _]. by rewrite Hpf in Hcp.
  - rewrite !areas_app, !areas_cons. unfold set_size; simpl. rewrite Hpf. by rewrite app_nil_r.
  - intros b Hb. rewrite <-app_assoc in Hb. simpl in Hb.
    assert (b ∈ before \/ b = prev \/ b = blk \/ b ∈ after) as [?|[->|[->|?]]] by set_solver;
      [left; set_solver|right|right|left; set_solver];
      (split; [done|]; eexists; split; [apply elem_of_app; right; apply elem_of_cons; by left|];
       simpl; split; [done|lia]).
  - apply tiles_middle. split; [|done]. apply tiles_snoc. done.
  - apply Forall_app. split; [apply Forall_app; split; [done|by repeat constructor]|by constructor].
  - apply coalesced_app. rewrite end_free_snoc. split.
    + apply coalesced_app. done.
    + simpl. by rewrite Hpf, Hf.
  - rewrite !areas_app, !areas_cons, Hf. done.
  - intros b Hb. by left.
Qed.

Lemma block_at_live lo hi h p n :
  heap_inv lo hi h -> live h !! p = Some n ->
  exists before blk after, block_at (u32 (p - sizeof_blk)) h = Some (before, blk, after) /\
    kmalloc_head h = before ++ blk :: after /\ bk_free blk = false /\
    bk_ptr blk = p /\ bk_size blk = n /\ blk_ok blk /\ lo <= bk_addr blk /\ blk_stop blk <= hi.
Proof.
  intros Hi Hl. apply (live_lookup lo hi) in Hl as (b & Hb & Hf & Hp & Hn); [|done].
  destruct (heap_inv_elem lo hi h b Hi Hb) as (Hok & Hlo & Hhi).
  assert (u32 (p - sizeof_blk) = bk_addr b) as Ha.
  { destruct Hi as (_ & _ & _ & _ & ? & ?). rewrite u32_small; blk_arith. }
  unfold block_at. rewrite Ha.
  destruct (list_break_key bk_addr (kmalloc_head h) b) as (l1 & l2 & -> & Heq);
    [by eapply heap_inv_addr|done|].
  exists l1, b, l2. by split_and!.
Qed.

(** What releasing [blk] makes of the heap. *)
Lemma free_ok lo hi h before blk after :
  heap_inv lo hi h -> kmalloc_head h = before ++ blk :: after -> bk_free blk = false ->
  let h' := set_head (kmerge before (set_free true blk) after) h in
  heap_inv lo hi h' /\ live h' = delete (bk_ptr blk) (live h) /\
  (forall b, room h b -> room h' b).
Proof.
  intros Hi Heq Hf.
  pose proof (areas_NoDup _ (proj1 (proj2 (proj2 Hi))) (heap_inv_addr _ _ _ Hi)) as Hnd.
  destruct Hi as (Hlk & Ht & Hok & Hc & Hlo & Hhi). rewrite Heq in Ht, Hok, Hc, Hnd.
  apply tiles_middle in Ht as [Ht1 Ht2].
  apply Forall_app in Hok as [Hok1 [Hb Hok2]%Forall_cons].
  apply coalesced_app in Hc as [Hc1 [_ Hc2]]. rewrite Hf in Hc2.
  pose proof (tiles_le _ _ _ _ _ (blk_ok_le' _ Hok1) Ht1) as Hle.
  unfold kmerge. destruct (kmerge_next (set_free true blk) after) as [blk' after'] eqn:En.
  eapply (kmerge_next_ok hi) in En as (Ha & Hf' & Hb' & Hsz & Ht' & Hok' & Hc' & Har & Hel);
    [|done..|simpl; lia|done|done].
  simpl in Ha, Hf'. rewrite <-Ha in Ht1.
  pose proof (kmerge_prev_ok lo hi before blk' after' Ht1 Hok1 Ht' Hb' Hok' Hf') as Hk.
  simpl in Hk. destruct Hk as (HT & HO & HC & HA & HR); [lia|done..|].
  split_and!.
  - split_and!; done.
  - unfold live. rewrite Heq. simpl. rewrite HA, Har.
    rewrite areas_app, areas_cons, Hf, fmap_app, fmap_cons in Hnd. simpl in Hnd.
    rewrite areas_app, areas_cons, Hf.
    rewrite <-Permutation_middle, <-fmap_app in Hnd.
    rewrite <-(list_to_map_proper ((bk_ptr blk, bk_size blk) :: areas before ++ areas after)
                (areas before ++ (bk_ptr blk, bk_size blk) :: areas after));
      [|done|by rewrite Permutation_middle].
    simpl. rewrite delete_insert_id; [done|].
    apply not_elem_of_list_to_map_1. by apply NoDup_cons in Hnd as [? _].
  - intros b [?|(c & Hc0 & Hcf & Hcs)]; [by left|]. right. rewrite Heq in Hc0. simpl.
    assert (c ∈ before \/ c ∈ after) as Hc3.
    { apply elem_of_app in Hc0 as [?|[->|?]%elem_of_cons]; [by left|congruence|by right]. }
    destruct (decide (c ∈ before ++ blk' :: after')) as [Hin|Hni].
    + destruct (HR c Hin) as [?|(_ & d & ? & ? & ?)]; [by exists c|]. exists d. split_and!; [done..|lia].
    + destruct Hc3 as [?|Hc3]; [set_solver|].
      destruct (Hel c Hc3) as [?|[_ Hcsz]]; [set_solver|].
      destruct (HR blk') as [?|(_ & d & ? & ? & ?)]; [set_solver| |].
      * exists blk'. split_and!; [done..|lia].
      * exists d. split_and!; [done..|lia].
Qed.

Lemma kfree_ok lo hi h p n :
  heap_inv lo hi h -> live h !! p = Some n ->
  wp (kfree p) h (fun _ h' =>
    heap_inv lo hi h' /\ live h' = delete p (live h) /\ mem h' = mem h /\
    forall b, room h b -> room h' b).
Proof.
  intros Hi Hl.
  destruct (block_at_live lo hi h p n Hi Hl)
    as (before & blk & after & Hba & Heq & Hf & Hp & _ & Hok & Hlo & _).
  destruct (free_ok lo hi h before blk after Hi Heq Hf) as (Hi' & Hl' & Hr).
  rewrite Hp in Hl'. unfold kfree.
  assert (0 < lo) by apply Hi. assert (bk_ptr blk = bk_addr blk + sizeof_blk) by apply Hok.
  rewrite (proj2 (Z.eqb_neq p 0)) by blk_arith.
  step. step. rewrite Hba, Hp, Z.eqb_refl. cbn [negb].
  step. apply wp_lock; [apply Hi|]. step. step. step. simpl.
  replace (set_lock false _) with (set_head (kmerge before (set_free true blk) after) h).
  - done.
  - unfold set_head, set_lock. simpl. f_equal. apply Hi.
Qed.

(** ** The allocator keeps the promises of [KHeap] *)

Lemma kmalloc_finds h size b :
  0 <= b -> 0 <= size -> room h (size + sizeof_blk + b) ->
  exists before blk after,
    list_break (fun blk => (bk_size blk >=? size) && bk_free blk) (kmalloc_head h)
      = Some (before, blk, after) /\
    kmalloc_head h = before ++ blk :: after /\ bk_free blk = true /\ size <= bk_size blk.
Proof.
  intros Hb Hs [?|(c & Hc & Hf & Hcs)]; [blk_arith|].
  destruct (list_break _ _) as [[[l1 x] l2]|] eqn:E.
  - apply list_break_Some in E as (Heq & [Hge Hfx]%andb_prop & _).
    exists l1, x, l2. split_and!; [done..|lia].
  - apply list_break_None in E. rewrite Forall_forall in E. specialize (E c Hc).
    simpl in E. rewrite Hf, andb_true_r in E. rewrite Z.geb_leb in E.
    apply Z.leb_gt in E. blk_arith.
Qed.

Lemma cut_room h before blk after size b :
  kmalloc_head h = before ++ blk :: after -> b = 0 \/ sizeof_blk < b ->
  room h (size + sizeof_blk + b) -> 0 <= size ->
  room (set_head (before ++ cut blk size ++ after) h) b.
Proof.
  intros Heq Hb Hr Hs. destruct Hb as [->|Hb]; [by left|].
  destruct Hr as [?|(c & Hc & Hf & Hcs)]; [blk_arith|]. right. simpl.
  rewrite Heq in Hc. apply elem_of_app in Hc as [Hc|[->|Hc]%elem_of_cons].
  - exists c. split_and!; [set_solver|done|blk_arith].
  - unfold cut. destruct (Z.gtb_spec (bk_size blk) (size + sizeof_blk)); [|blk_arith].
    eexists. split_and!; [apply elem_of_app; right; apply list_elem_of_further, list_elem_of_here|done|blk_arith].
  - exists c. split_and!; [set_solver|done|blk_arith].
Qed.

Lemma kmalloc_ok lo hi h size b :
  heap_inv lo hi h -> 0 <= size -> b = 0 \/ sizeof_blk < b ->
  room h (size + sizeof_blk + b) ->
  wp (kmalloc size) h (fun p h' =>
    heap_inv lo hi h' /\ lo < p /\ live h !! p = None /\ mem h' = mem h /\
    (exists n, size <= n <= size + sizeof_blk /\ p + n <= hi /\
               live h' = <[p := n]> (live h)) /\ room h' b).
Proof.
  intros Hi Hs Hb Hr.
  destruct (kmalloc_finds h size b) as (before & blk & after & Hlb & Heq & Hf & Hle);
    [blk_arith|done..|].
  unfold wp. rewrite (kmalloc_run lo hi h size before blk after Hi Hs Hlb).
  destruct (alloc_live lo hi h before blk after size) as (n & Hn & Hnb & Hlv & Hnone); [done..|].
  destruct (heap_inv_elem lo hi h blk Hi) as ([Hptr Hsz] & Hlo & Hhi); [rewrite Heq; set_solver|].
  split_and!.
  - by apply alloc_inv.
  - blk_arith.
  - done.
  - done.
  - exists n. split_and!; [lia|lia| |done]. blk_arith.
  - by apply cut_room.
Qed.

Lemma kmalloc_spec_heap h size b :
  (exists lo hi, heap_inv lo hi h) -> 0 <= size < 2 ^ 32 -> b = 0 \/ KMALLOC_OVERHEAD < b ->
  room h (size + KMALLOC_OVERHEAD + b) ->
  wp (kmalloc size) h (fun p h' =>
    (exists lo hi, heap_inv lo hi h') /\ 0 < p < 2 ^ 32 /\ live h !! p = None /\
    (exists n, size <= n /\ live h' = <[p := n]> (live h)) /\ room h' b).
Proof.
  intros (lo & hi & Hi) Hs Hb Hr.
  eapply wp_mono; [apply (kmalloc_ok lo hi h size b); [done|lia|done..]|].
  intros p h' (Hi' & Hp & Hn & _ & (n & Hsz & Hphi & Hl) & Hr').
  destruct Hi as (_ & _ & _ & _ & ? & ?). split_and!; eauto; try lia.
  exists n. split; [lia|done].
Qed.

Lemma kfree_spec_heap h p :
  (exists lo hi, heap_inv lo hi h) -> is_Some (live h !! p) ->
  wp (kfree p) h (fun _ h' =>
    (exists lo hi, heap_inv lo hi h') /\ live h' = delete p (live h) /\
    (forall b, room h b -> room h' b)).
Proof.
  intros (lo & hi & Hi) [n Hl].
  eapply wp_mono; [by apply (kfree_ok lo hi h p n)|]. intros _ h' (? & ? & _ & ?).
  split_and!; eauto.
Qed.

Lemma room_mono_heap h b b' : room h b -> b' <= b -> room h b'.
Proof.
  intros [?|(blk & ? & ? & ?)] Hle; [left; lia|]. right. exists blk. split_and!; [done..|lia].
Qed.

#[export] Instance kmalloc_kheap : KHeap heap := {
  KHeap.kmalloc := kmalloc;
  KHeap.kfree := kfree;
  KHeap.heap_ok h := exists lo hi, heap_inv lo hi h;
  KHeap.live := live;
  KHeap.room := room;
  KHeap.kmalloc_spec := kmalloc_spec_heap;
  KHeap.kfree_spec := kfree_spec_heap;
  KHeap.room_mono := room_mono_heap;
  KHeap.kfree_null h := eq_refl;
}.
(** ** Reallocation *)

Definition area_bytes (h : heap) (p : Z) (l : list Z) : Prop :=
  bytes_at (mem h) p l /\ Forall is_char l.

Lemma live_range lo hi h p n :
  heap_inv lo hi h -> live h !! p = Some n -> lo + sizeof_blk <= p /\ p + n <= hi /\ 0 <= n.
Proof.
  intros Hi Hl. apply (live_lookup lo hi) in Hl as (b & Hb & _ & <- & <-); [|done].
  destruct (heap_inv_elem lo hi h b Hi Hb) as (Hok & Hlo & Hhi). blk_arith.
Qed.

Lemma live_disjoint lo hi h p n q k :
  heap_inv lo hi h -> live h !! p = Some n -> live h !! q = Some k -> p <> q ->
  p + n <= q - sizeof_blk \/ q + k <= p - sizeof_blk.
Proof.
  intros Hi Hp Hq Hne. destruct (block_at_live lo hi h p n Hi Hp)
    as (l1 & b & l2 & _ & Heq & _ & Hbp & Hbn & Hbok & _).
  apply (live_lookup lo hi) in Hq as (c & Hc & _ & Hcq & Hck); [|done].
  destruct (heap_inv_elem lo hi h c Hi Hc) as (Hcok & _).
  destruct Hi as (_ & Ht & Hok & _). rewrite Heq in *.
  assert (c ∈ l1 ++ l2) as Hc'.
  { assert (c <> b) by congruence. set_solver. }
  pose proof (tiles_disjoint _ _ _ _ _ _ _ c (blk_ok_le' _ Hok) Ht Hc'). blk_arith.
Qed.

Lemma set_mem_inv lo hi h m : heap_inv lo hi (set_mem m h) <-> heap_inv lo hi h.
Proof. done. Qed.

(** The copy made by [krealloc], on a heap where [q] has just been allocated. *)
Lemma realloc_copy lo hi h p n q n' l size :
  heap_inv lo hi h -> live h !! p = Some n -> live h !! q = Some n' -> p <> q ->
  area_bytes h p l -> Z.of_nat (length l) = n -> 0 <= size <= n' ->
  (forall x, lo <= x < hi -> is_Some (mem h !! x)) ->
  let k := if size >? n then n else size in
  wp (KString.memcpy q p k) (mem h) (fun _ m' => m' = store_bytes q (take (Z.to_nat k) l) (mem h)).
Proof.
  intros Hi Hp Hq Hne [Hby Hch] Hlen Hsz Hw k.
  pose proof (live_range lo hi h p n Hi Hp) as (Hp1 & Hp2 & Hp3).
  pose proof (live_range lo hi h q n' Hi Hq) as (Hq1 & Hq2 & Hq3).
  pose proof (live_disjoint lo hi h p n q n' Hi Hp Hq Hne) as Hdis.
  assert (0 <= k <= n /\ k <= size) as Hk.
  { unfold k. destruct (Z.gtb_spec size n); lia. }
  assert (Z.of_nat (length (take (Z.to_nat k) l)) = k) as Hlk.
  { rewrite length_take. lia. }
  rewrite <-Hlk at 1. destruct Hi as (_ & _ & _ & _ & Hlo0 & Hhi0).
  eapply wp_mono; [apply (memcpy_spec (mem h) q p (take (Z.to_nat k) l))|].
  - by apply bytes_at_take.
  - by apply Forall_take.
  - intros x Hx. apply Hw. blk_arith.
  - blk_arith.
  - blk_arith.
  - by intros r m' [_ ->].
Qed.

Lemma krealloc_ok lo hi h p n l size :
  heap_inv lo hi h -> live h !! p = Some n -> area_bytes h p l -> Z.of_nat (length l) = n ->
  (forall x, lo <= x < hi -> is_Some (mem h !! x)) ->
  0 <= size -> room h (size + sizeof_blk) ->
  wp (krealloc p size) h (fun q h' =>
    heap_inv lo hi h' /\ q <> p /\
    (exists n', size <= n' /\ live h' = <[q := n']> (delete p (live h))) /\
    bytes_at (mem h') q (take (Z.to_nat (Z.min size n)) l) /\
    forall r k l', live h !! r = Some k -> r <> p -> bytes_at (mem h) r l' ->
                   Z.of_nat (length l') = k -> bytes_at (mem h') r l').
Proof.
  intros Hi Hl Hab Hlen Hw Hs Hr. unfold krealloc.
  pose proof (live_range lo hi h p n Hi Hl) as (Hp1 & _ & _). assert (0 < lo) by apply Hi.
  rewrite (proj2 (Z.eqb_neq p 0)) by blk_arith.
  destruct (block_at_live lo hi h p n Hi Hl) as (b1 & blk & b2 & Hba & _ & _ & Hp & _).
  step. step. rewrite Hba, Hp, Z.eqb_refl. cbn [negb].
  step. eapply wp_mono; [apply (kmalloc_ok lo hi h size 0); [done..|by left|by rewrite Z.add_0_r]|].
  intros q h1 (Hi1 & Hq & Hqn & Hm1 & (n' & Hn' & Hqhi & Hl1) & _).
  rewrite (proj2 (Z.eqb_neq q 0)) by lia.
  assert (p <> q) as Hpq by congruence.
  assert (live h1 !! p = Some n) as Hp1'. { by rewrite Hl1, lookup_insert_ne. }
  assert (live h1 !! q = Some n') as Hq1. { by rewrite Hl1, lookup_insert_eq. }
  destruct (block_at_live lo hi h1 p n Hi1 Hp1') as (c1 & blk1 & c2 & Hba1 & _ & _ & _ & Hn1 & _).
  step. step. rewrite Hba1, Hn1. cbv zeta. step. apply wp_zoom.
  eapply wp_mono; [apply (realloc_copy lo hi h1 p n q n' l size); try done; try lia|].
  { unfold area_bytes. by rewrite Hm1. }
  { by rewrite Hm1. }
  intros _ m' ->. set (k := if size >? n then n else size) in *.
  assert (k = Z.min size n) as Hk by (unfold k; destruct (Z.gtb_spec size n); lia). rewrite Hk in *.
  assert (Z.of_nat (length (take (Z.to_nat (Z.min size n)) l)) <= n') as Hlk.
  { rewrite length_take. lia. }
  set (h2 := set_mem _ h1). step.
  eapply wp_mono; [apply (kfree_ok lo hi h2 p n); done|].
  intros _ h3 (Hi3 & Hl3 & Hm3 & _). step. rewrite Hm3, Hl3. unfold h2; simpl.
  split_and!; [done|congruence| | |].
  - exists n'. split; [lia|]. change (live (set_mem _ h1)) with (live h1).
    rewrite Hl1. by rewrite delete_insert_ne.
  - apply bytes_at_store_bytes.
  - intros r j l' Hrl Hrp Hb Hj. rewrite Hm1. apply bytes_at_store_bytes_ne; [done|].
    assert (live h1 !! r = Some j) as Hr1.
    { rewrite Hl1, lookup_insert_ne; [done|]. congruence. }
    assert (r <> q) by congruence.
    pose proof (live_disjoint lo hi h1 r j q n' Hi1 Hr1 Hq1 ltac:(done)). blk_arith.
Qed.

Lemma kmalloc_initialize_inv h heap_start heap_size :
  0 < heap_start -> KSTACK_SIZE + sizeof_blk <= heap_size -> heap_start + heap_size <= 2 ^ 32 ->
  wp (kmalloc_initialize heap_start heap_size) h (fun _ h' =>
    heap_inv heap_start (heap_start + heap_size - KSTACK_SIZE) h' /\ live h' = ∅ /\
    room h' (heap_size - KSTACK_SIZE)).
Proof.
  intros H0 H1 H2. unfold wp, kmalloc_initialize, KSTACK_SIZE, sizeof_blk, KMALLOC_OVERHEAD in *.
  u32_norm. split_and!; simpl; try done; try lia.
  - split_and!; simpl; try done; try lia; try blk_arith.
    constructor; [split; blk_arith|constructor].
  - right. eexists. split_and!; [apply list_elem_of_here|done|unfold KSTACK_SIZE; blk_arith].
Qed.

Lemma kmalloc_exhausted h size :
  kmalloc_lock h = false -> 0 <= size -> ~ room h (size + sizeof_blk) ->
  kmalloc size h = Panic "kmalloc no more memory".
Proof.
  intros Hlk Hs Hr. unfold kmalloc, spinlock_lock, bind, get. simpl. rewrite Hlk. simpl.
  destruct (list_break _ _) as [[[l1 x] l2]|] eqn:E; [|done].
  apply list_break_Some in E as (Heq & [Hge Hf]%andb_prop & _). destruct Hr. right.
  exists x. split_and!; [rewrite Heq; set_solver|done|lia].
Qed.

(** Releasing what was just allocated. *)
Lemma kmerge_cut lo hi h before blk after size :
  heap_inv lo hi h -> kmalloc_head h = before ++ blk :: after -> bk_free blk = true ->
  0 <= size <= bk_size blk ->
  exists b r, cut blk size = b :: r /\
    kmerge before (set_free true b) (r ++ after) = before ++ blk :: after.
Proof.
  intros (_ & Ht & Hok & Hc & Hlo & Hhi) Heq Hf Hs. rewrite Heq in *.
  apply tiles_middle in Ht as [Ht1 Ht2].
  apply Forall_app in Hok as [Hok1 [[Hp Hz] Hok2]%Forall_cons].
  pose proof (tiles_le _ _ _ _ _ (blk_ok_le' _ Hok1) Ht1) as Hle1.
  pose proof (tiles_le _ _ _ _ _ (blk_ok_le' _ Hok2) Ht2) as Hle2.
  apply coalesced_app in Hc as [_ [Hpf Hc2]]. rewrite Hf in *. rewrite andb_true_r in Hpf.
  assert (forall l, kmerge_prev before blk l = before ++ blk :: l) as Hprev.
  { intros l. unfold kmerge_prev. destruct before as [|pb before _] using rev_ind; [done|].
    rewrite rev_app_distr. simpl. rewrite end_free_snoc in Hpf. by rewrite Hpf. }
  unfold cut, kmerge. destruct (Z.gtb_spec (bk_size blk) (size + sizeof_blk)) as [Hgt|Hle].
  - eexists _, _. split; [done|]. unfold kmerge_next, set_free, set_size. simpl.
    rewrite (u32_small (bk_addr blk + _ + _)) by blk_arith. rewrite Z.eqb_refl.
    rewrite u32_small by blk_arith.
    replace (size + (bk_size blk - size - sizeof_blk + sizeof_blk)) with (bk_size blk) by lia.
    destruct blk; simpl in *; subst. apply Hprev.
  - eexists _, []. split; [done|]. simpl.
    replace (set_free true (set_free false blk)) with blk by (destruct blk; simpl in *; by subst).
    unfold kmerge_next. destruct after as [|nb after]; [apply Hprev|].
    simpl in Hc2. destruct Hc2 as [Hnf _]. rewrite Hnf. apply Hprev.
Qed.

(** ** Properties *)

(** C1: on a well-formed heap, [kmalloc] either serves the request or panics
    with "kmalloc no more memory", the latter exactly when no free block is
    large enough.  The area it returns lies inside the heap, is at least as
    large as asked, overlaps no allocated area, and is the only change to the
    allocated areas; the heap stays well formed and unlocked. *)
Theorem kmalloc_serves lo hi h size :
  heap_inv lo hi h -> 0 <= size ->
  (room h (size + sizeof_blk) ->
   wp (kmalloc size) h (fun p h' =>
     heap_inv lo hi h' /\ live h !! p = None /\
     exists n, size <= n /\ lo < p /\ p + n <= hi /\ live h' = <[p := n]> (live h) /\
       forall q k, live h !! q = Some k -> p + n <= q \/ q + k <= p)) /\
  (~ room h (size + sizeof_blk) -> kmalloc size h = Panic "kmalloc no more memory").
Proof.
  intros Hi Hs. split.
  - intros Hr. eapply wp_mono;
      [apply (kmalloc_ok lo hi h size 0); [done..|by left|by rewrite Z.add_0_r]|].
    intros p h' (Hi' & Hlp & Hn & _ & (n & Hsz & Hphi & Hl) & _).
    split_and!; [done..|]. exists n. split_and!; [lia..|done|].
    intros q k Hq. assert (q <> p) by congruence.
    assert (live h' !! p = Some n) as Hp' by by rewrite Hl, lookup_insert_eq.
    assert (live h' !! q = Some k) as Hq' by (rewrite Hl, lookup_insert_ne; done).
    pose proof (live_disjoint lo hi h' p n q k Hi' Hp' Hq' ltac:(done)). blk_arith.
  - apply kmalloc_exhausted; [apply Hi|done].
Qed.

(** [kfree] of an allocated area removes exactly that area from the heap
    and merges the block with its free neighbours: the heap stays tiled with no
    two adjacent free blocks, and no request that could be served before
    fails afterwards. *)
Theorem kfree_releases lo hi h p n :
  heap_inv lo hi h -> live h !! p = Some n ->
  wp (kfree p) h (fun _ h' =>
    heap_inv lo hi h' /\ live h' = delete p (live h) /\ mem h' = mem h /\
    forall b, room h b -> room h' b).
Proof. apply kfree_ok. Qed.

(** Releasing an area right after allocating it gives the very same heap
    back, block for block. *)
Theorem kmalloc_kfree_roundtrip lo hi h size :
  heap_inv lo hi h -> 0 <= size -> room h (size + sizeof_blk) ->
  wp (let! p := kmalloc size in kfree p) h (fun _ h' => h' = h).
Proof.
  intros Hi Hs Hr.
  destruct (kmalloc_finds h size 0) as (before & blk & after & Hlb & Heq & Hf & Hle);
    [lia|done|by rewrite Z.add_0_r|].
  destruct (kmerge_cut lo hi h before blk after size) as (b & r & Hcut & Hmer); [done..|].
  unfold wp, bind. rewrite (kmalloc_run lo hi h size before blk after Hi Hs Hlb).
  pose proof (alloc_inv lo hi h before blk after size Hi Heq Hf (conj Hs Hle)) as Hi'.
  destruct (alloc_live lo hi h before blk after size) as (n & _ & _ & Hlv & _); [done..|].
  set (h' := set_head _ h) in *.
  assert (live h' !! bk_ptr blk = Some n) as Hl by by rewrite Hlv, lookup_insert_eq.
  destruct (block_at_live lo hi h' _ n Hi' Hl) as (c1 & c & c2 & Hba & Heq' & Hcf & Hcp & _ & Hcok & Hcl & _).
  destruct (cut_used blk size) as (b' & r' & Hcut' & Hbp & Hba' & _ & _). rewrite Hcut in Hcut'. simplify_eq.
  simpl in Heq'. rewrite Hcut in Heq'.
  destruct (NoDup_split_unique bk_addr before b' (r' ++ after) c1 c c2) as (<- & <- & <-).
  { pose proof (heap_inv_addr lo hi h' Hi') as Hnd. unfold h' in Hnd. simpl in Hnd.
    by rewrite Hcut in Hnd. }
  { done. }
  { destruct (heap_inv_elem lo hi h blk Hi) as ([? _] & _); [rewrite Heq; set_solver|]. blk_arith. }
  unfold kfree. rewrite (proj2 (Z.eqb_neq _ 0)) by (assert (0 < lo) by apply Hi; blk_arith).
  unfold bind, get. rewrite Hba, Hcp, Z.eqb_refl. simpl. unfold spinlock_lock. simpl.
  rewrite (proj1 Hi). simpl. rewrite Hmer. destruct h; simpl in *. unfold set_lock, set_head. simpl.
  destruct Hi as (Hlk & _). simpl in Hlk. by subst.
Qed.

(** [krealloc] of an allocated area returns a new area of the requested
    size that starts with the old contents, up to the smaller of the two sizes,
    and releases the old one; the contents of every other area are kept. *)
Theorem krealloc_preserves lo hi h p n l size :
  heap_inv lo hi h -> live h !! p = Some n -> area_bytes h p l -> Z.of_nat (length l) = n ->
  (forall x, lo <= x < hi -> is_Some (mem h !! x)) ->
  0 <= size -> room h (size + sizeof_blk) ->
  wp (krealloc p size) h (fun q h' =>
    heap_inv lo hi h' /\ q <> p /\
    (exists n', size <= n' /\ live h' = <[q := n']> (delete p (live h))) /\
    bytes_at (mem h') q (take (Z.to_nat (Z.min size n)) l) /\
    forall r k l', live h !! r = Some k -> r <> p -> bytes_at (mem h) r l' ->
                   Z.of_nat (length l') = k -> bytes_at (mem h') r l').
Proof. apply krealloc_ok. Qed.

(** A heap of 200 bytes at address 1000 with one area of 3 bytes in use. *)
Definition sample_heap : heap := {|
  kmalloc_lock := false;
  kmalloc_head :=
    [ {| bk_addr := 1000; bk_ptr := 1020; bk_size := 3; bk_free := false |};
      {| bk_addr := 1023; bk_ptr := 1043; bk_size := 157; bk_free := true |} ];
  mem := list_to_map ((fun i => (1000 + Z.of_nat i, Z.of_nat i mod 7)) <$> seq 0 200) |}.

Lemma sample_heap_inv : heap_inv 1000 1200 sample_heap.
Proof.
  split_and!; try done.
  repeat (constructor; [split; simpl; blk_arith|]). constructor.
Qed.

Lemma sample_heap_room b : b <= 177 -> room sample_heap b.
Proof.
  intros. right. eexists. split_and!;
    [apply list_elem_of_further, list_elem_of_here|done|blk_arith].
Qed.

Lemma kmalloc_serves_witness :
  (room sample_heap (50 + sizeof_blk) ->
   wp (kmalloc 50) sample_heap (fun p h' =>
     heap_inv 1000 1200 h' /\ live sample_heap !! p = None /\
     exists n, 50 <= n /\ 1000 < p /\ p + n <= 1200 /\ live h' = <[p := n]> (live sample_heap) /\
       forall q k, live sample_heap !! q = Some k -> p + n <= q \/ q + k <= p)) /\
  (~ room sample_heap (50 + sizeof_blk) ->
   kmalloc 50 sample_heap = Panic "kmalloc no more memory").
Proof. apply (kmalloc_serves 1000 1200 sample_heap 50); [apply sample_heap_inv|lia]. Defined.

Lemma kfree_releases_witness :
  wp (kfree 1020) sample_heap (fun _ h' =>
    heap_inv 1000 1200 h' /\ live h' = delete 1020 (live sample_heap) /\
    mem h' = mem sample_heap /\ forall b, room sample_heap b -> room h' b).
Proof.
  apply (kfree_releases 1000 1200 sample_heap 1020 3); [apply sample_heap_inv|by vm_compute].
Defined.

Lemma kmalloc_kfree_roundtrip_witness :
  wp (let! p := kmalloc 50 in kfree p) sample_heap (fun _ h' => h' = sample_heap).
Proof.
  apply (kmalloc_kfree_roundtrip 1000 1200 sample_heap 50);
    [apply sample_heap_inv|lia|apply sample_heap_room; blk_arith].
Defined.

Lemma krealloc_preserves_witness :
  wp (krealloc 1020 9) sample_heap (fun q h' =>
    heap_inv 1000 1200 h' /\ q <> 1020 /\
    (exists n', 9 <= n' /\ live h' = <[q := n']> (delete 1020 (live sample_heap))) /\
    bytes_at (mem h') q [6; 0; 1] /\
    forall r k l', live sample_heap !! r = Some k -> r <> 1020 -> bytes_at (mem sample_heap) r l' ->
                   Z.of_nat (length l') = k -> bytes_at (mem h') r l').
Proof.
  apply (krealloc_preserves 1000 1200 sample_heap 1020 3 [6; 0; 1] 9).
  - apply sample_heap_inv.
  - by vm_compute.
  - split; [by vm_compute|]. repeat constructor; unfold is_char; lia.
  - done.
  - intros x Hx.
    replace x with (1000 + Z.of_nat (Z.to_nat (x - 1000))) by lia.
    assert (Z.to_nat (x - 1000) < 200)%nat as Hn by lia. revert Hn.
    generalize (Z.to_nat (x - 1000)). intros n Hn.
    assert (forallb (fun n => bool_decide (is_Some (mem sample_heap !! (1000 + Z.of_nat n)))) (seq 0 200) = true)
      as Hall by by vm_compute.
    rewrite forallb_forall in Hall. specialize (Hall n).
    apply bool_decide_eq_true in Hall; [done|]. apply in_seq. lia.
  - lia.
  - apply sample_heap_room. blk_arith.
Defined.

End Kmalloc.
