(* ===== verification/Segment.v ===== *)
(** Physical memory: kernel/core/mem/segment.c.

    The list [segment_head] holds the segments in klist order; a segment is
    known by the address [seg_addr] of its [struct segment], which comes from
    the kernel heap.  A pointer to an element of the list is the element with
    what comes before and after it.  The component is written against the heap
    interface [KHeap]; console output is left out.

    The abstract view is the reference count of every page of physical memory:
    [page_ref l p r] says that page [p] belongs to a segment of [l] with
    reference count [r]. *)

From S2P Require Import Prelude KHeap Kmalloc.

Module Segment.

Definition SEGMENT_FLAGS_NONE : Z := 0.
Definition SEGMENT_FLAGS_COW : Z := 1.

Record segment := {
  seg_addr : Z;
  base : Z;
  page_size : Z;
  flags : Z;
  ref_count : Z;
}.

#[export] Instance segment_eq_dec : EqDecision segment.
Proof. solve_decision. Defined.

(** base, page_size, flags, ref_count and the two list pointers. *)
Definition sizeof_segment : Z := 20.

Definition seg_size (s : segment) : Z := u32 (page_size s * PAGE_SIZE).
Definition set_base (v : Z) (s : segment) : segment :=
  {| seg_addr := seg_addr s; base := v; page_size := page_size s; flags := flags s; ref_count := ref_count s |}.
Definition set_page_size (v : Z) (s : segment) : segment :=
  {| seg_addr := seg_addr s; base := base s; page_size := v; flags := flags s; ref_count := ref_count s |}.
Definition set_ref_count (v : Z) (s : segment) : segment :=
  {| seg_addr := seg_addr s; base := base s; page_size := page_size s; flags := flags s; ref_count := v |}.

Section ops.
Context {H : Type} `{KHeap H}.

Record segs := {
  segment_lock : bool;
  segment_head : list segment;
  kheap : H;
}.

Definition set_lock (b : bool) (s : segs) : segs :=
  {| segment_lock := b; segment_head := segment_head s; kheap := kheap s |}.
Definition set_head (l : list segment) (s : segs) : segs :=
  {| segment_lock := segment_lock s; segment_head := l; kheap := kheap s |}.
Definition set_kheap (h : H) (s : segs) : segs :=
  {| segment_lock := segment_lock s; segment_head := segment_head s; kheap := h |}.

Definition segment_add (base page_size : Z) : M segs Z :=
  let! seg := zoom kheap set_kheap (kmalloc sizeof_segment) in
  if seg =? 0 then ret (- ENOMEM)
  else
    spinlock_lock segment_lock set_lock ;;;
    modify (fun s => set_head ({| seg_addr := seg; base := base; page_size := page_size;
                                  flags := SEGMENT_FLAGS_NONE; ref_count := 0 |}
                               :: segment_head s) s) ;;;
    spinlock_unlock set_lock ;;;
    ret 0.

(** The segment created in front of [seg], if any. *)
Definition split_before (seg : segment) (addr : Z) : M segs (list segment) :=
  if addr >? base seg then
    let! before := zoom kheap set_kheap (kmalloc sizeof_segment) in
    ret [ {| seg_addr := before; base := base seg;
             page_size := u32 (addr - base seg) / PAGE_SIZE;
             flags := SEGMENT_FLAGS_NONE; ref_count := 0 |} ]
  else ret [].

(** The segment created behind [seg], if any. *)
Definition split_after (seg : segment) (addr pages : Z) : M segs (list segment) :=
  if u32 (addr + u32 (pages * PAGE_SIZE)) <? u32 (base seg + seg_size seg) then
    let! after := zoom kheap set_kheap (kmalloc sizeof_segment) in
    ret [ {| seg_addr := after; base := u32 (addr + u32 (pages * PAGE_SIZE));
             page_size := u32 (page_size seg - u32 (u32 (addr - base seg) / PAGE_SIZE + pages));
             flags := SEGMENT_FLAGS_NONE; ref_count := 0 |} ]
  else ret [].

Definition segment_split (front : list segment) (seg : segment) (back : list segment)
    (addr pages : Z) : M segs unit :=
  let! before := split_before seg addr in
  let! after := split_after seg addr pages in
  modify (set_head (front ++ before
                    ++ set_ref_count 1 (set_base addr (set_page_size pages seg)) :: after ++ back)).

Definition segment_alloc (pages : Z) : M segs Z :=
  if pages =? 0 then ret 0
  else
    spinlock_lock segment_lock set_lock ;;;
    let! s := get in
    match list_break (fun seg => (ref_count seg =? 0) && (page_size seg >=? pages)) (segment_head s) with
    | Some (front, seg, back) =>
        segment_split front seg back (base seg) pages ;;;
        spinlock_unlock set_lock ;;;
        ret (seg_addr seg)
    | None =>
        spinlock_unlock set_lock ;;;
        ret 0
    end.

Definition segment_reserve (addr pages : Z) : M segs Z :=
  if pages =? 0 then ret 0
  else
    spinlock_lock segment_lock set_lock ;;;
    let! s := get in
    match list_break (fun seg => (ref_count seg =? 0) && (addr >=? base seg)
                                 && (addr <=? u32 (base seg + seg_size seg))) (segment_head s) with
    | Some (front, seg, back) =>
        if u32 (addr + u32 (pages * PAGE_SIZE)) >? u32 (base seg + seg_size seg) then
          spinlock_unlock set_lock ;;;
          ret 0
        else
          segment_split front seg back addr pages ;;;
          spinlock_unlock set_lock ;;;
          ret 1
    | None =>
        spinlock_unlock set_lock ;;;
        ret 0
    end.

(** The segment a [struct segment *] points to. *)
Definition segment_at (p : Z) (s : segs) : option (list segment * segment * list segment) :=
  list_break (fun seg => seg_addr seg =? p) (segment_head s).

Definition segment_alloc_address (pages : Z) : M segs Z :=
  let! seg := segment_alloc pages in
  if seg =? 0 then ret 0
  else let! s := get in
       match segment_at seg s with
       | Some (_, seg, _) => ret (base seg)
       | None => undef
       end.

Definition segment_locate (addr : Z) : M segs Z :=
  spinlock_lock segment_lock set_lock ;;;
  let! s := get in
  match list_break (fun seg => (base seg <=? addr) && (u32 (base seg + seg_size seg) >? addr))
          (segment_head s) with
  | Some (_, seg, _) => spinlock_unlock set_lock ;;; ret (seg_addr seg)
  | None => spinlock_unlock set_lock ;;; ret 0
  end.

(** [segment_merge] with the free segment in front of [seg]. *)
Definition merge_prev (front : list segment) (seg : segment)
    : M segs (list segment * segment) :=
  match rev front with
  | prev :: rest =>
      if (ref_count prev =? 0) && (u32 (base prev + seg_size prev) =? base seg) then
        zoom kheap set_kheap (kfree (seg_addr prev)) ;;;
        ret (rev rest, set_page_size (u32 (page_size seg + page_size prev)) (set_base (base prev) seg))
      else ret (front, seg)
  | [] => ret (front, seg)
  end.

Definition merge_next (seg : segment) (back : list segment)
    : M segs (segment * list segment) :=
  match back with
  | next :: rest =>
      if (ref_count next =? 0) && (u32 (base seg + seg_size seg) =? base next) then
        zoom kheap set_kheap (kfree (seg_addr next)) ;;;
        ret (set_page_size (u32 (page_size seg + page_size next)) seg, rest)
      else ret (seg, back)
  | [] => ret (seg, back)
  end.

Definition segment_merge (front : list segment) (seg : segment) (back : list segment)
    : M segs unit :=
  let! '(front, seg) := merge_prev front seg in
  let! '(seg, back) := merge_next seg back in
  modify (set_head (front ++ seg :: back)).

(** Drop a reference to [seg], merging it when it was the last one. *)
Definition drop_ref (front : list segment) (seg : segment) (back : list segment)
    : M segs unit :=
  let seg := set_ref_count (u16 (ref_count seg - 1)) seg in
  if ref_count seg =? 0 then segment_merge front seg back
  else modify (set_head (front ++ seg :: back)).

Definition segment_release (seg : Z) : M segs unit :=
  if seg =? 0 then ret tt
  else
    let! s := get in
    match segment_at seg s with
    | None => undef
    | Some (front, seg, back) =>
        if ref_count seg =? 0 then ret tt
        else
          spinlock_lock segment_lock set_lock ;;;
          drop_ref front seg back ;;;
          spinlock_unlock set_lock
    end.

(** The branch for a segment that is already free returns without unlocking. *)
Definition segment_free (addr : Z) : M segs unit :=
  spinlock_lock segment_lock set_lock ;;;
  let! s := get in
  match list_break (fun seg => base seg =? addr) (segment_head s) with
  | Some (front, seg, back) =>
      if ref_count seg =? 0 then ret tt
      else
        drop_ref front seg back ;;;
        spinlock_unlock set_lock
  | None => spinlock_unlock set_lock
  end.

Fixpoint add_boot_segs (segs_list : list (Z * Z)) : M segs unit :=
  match segs_list with
  | [] => ret tt
  | (seg_start, seg_size) :: rest =>
      let! r := segment_add (u32 seg_start) (u32 (seg_size / PAGE_SIZE)) in
      if r <? 0 then kernel_panic "Fail to add a segment" else add_boot_segs rest
  end.

(** [boot->segs] as pairs of start and size in bytes; [glue_init] is the
    architecture's part, which does not touch the segments. *)
Definition segment_initialize (boot_segs : list (Z * Z)) : M segs unit :=
  modify (set_head []) ;;;
  (if Z.of_nat (length boot_segs) =? 0
   then kernel_panic "No memory map was provided by the bootloader" else ret tt) ;;;
  add_boot_segs boot_segs ;;;
  spinlock_unlock set_lock ;;;
  let! _ := segment_reserve 0 160 in
  let! _ := segment_reserve 655360 64 in
  let! _ := segment_reserve 917504 800 in
  ret tt.

Definition segment_dump : M segs (list (Z * Z * Z * Z)) :=
  spinlock_lock segment_lock set_lock ;;;
  let! s := get in
  spinlock_unlock set_lock ;;;
  ret (map (fun seg => (ref_count seg, base seg, u32 (base seg + seg_size seg), page_size seg))
           (segment_head s)).

End ops.
Arguments segs : clear implicits.

(** ** Invariant and abstract view *)

Definition seg_stop (s : segment) : Z := base s + page_size s * PAGE_SIZE.

Definition seg_ok (s : segment) : Prop :=
  0 <= base s /\ base s mod PAGE_SIZE = 0 /\ 0 < page_size s /\ seg_stop s < 2 ^ 32 /\
  0 <= ref_count s < 2 ^ 16.

Definition sep (x y : segment) : Prop := seg_stop x <= base y \/ seg_stop y <= base x.

Definition in_seg (p : Z) (s : segment) : Prop := base s <= p * PAGE_SIZE < seg_stop s.

Definition page_ref (l : list segment) (p r : Z) : Prop :=
  exists s, s ∈ l /\ in_seg p s /\ ref_count s = r.

(** The number of free pages. *)
Definition free_pages (l : list segment) : Z :=
  foldr (fun s n => (if ref_count s =? 0 then page_size s else 0) + n) 0 l.

(** Arithmetic on the fields of segments. *)
Ltac seg_arith :=
  unfold seg_ok, sep, in_seg, seg_stop, seg_size, PAGE_SIZE in *; simpl in *;
  Z.to_euclidean_division_equations; lia.

(** [F] lists the nodes of the heap that belong to other components: they stay
    allocated and are never reused. *)

Section inv.
Context {H : Type} `{KHeap H} (F : list Z).
Implicit Types (s : segs H) (seg : segment).

Definition list_wf (h : H) (l : list segment) : Prop :=
  heap_ok h /\ Forall seg_ok l /\ pairwise sep l /\ owned h ((seg_addr <$> l) ++ F).

Definition seg_wf (s : segs H) : Prop := list_wf (kheap s) (segment_head s).

Definition seg_inv (s : segs H) : Prop := segment_lock s = false /\ seg_wf s.

Lemma sep_sym x y : sep x y -> sep y x.
Proof. unfold sep. tauto. Qed.

Lemma seg_size_ok (s : segment) : seg_ok s -> seg_size s = page_size s * PAGE_SIZE /\
  u32 (base s + seg_size s) = seg_stop s.
Proof.
  intros Hs. assert (seg_size s = page_size s * PAGE_SIZE) as E.
  { unfold seg_size. apply u32_small. seg_arith. }
  split; [done|]. rewrite E. apply u32_small. seg_arith.
Qed.

(** Replacing one segment by pieces of it. *)
Lemma pieces_sep front seg back ps :
  pairwise sep (front ++ seg :: back) -> pairwise sep ps ->
  (forall y, y ∈ ps -> base seg <= base y /\ seg_stop y <= seg_stop seg) ->
  pairwise sep (front ++ ps ++ back).
Proof.
  intros Hp Hps Hin. eapply pairwise_replace; [apply sep_sym|done..|].
  intros y z Hy. specialize (Hin y Hy). unfold sep. lia.
Qed.

(** ** Splitting *)

Lemma split_before_ok s seg addr b :
  heap_ok (kheap s) -> room (kheap s) (sizeof_segment + KMALLOC_OVERHEAD + b) ->
  b = 0 \/ KMALLOC_OVERHEAD < b ->
  seg_ok seg -> base seg <= addr <= seg_stop seg -> addr mod PAGE_SIZE = 0 ->
  wp (split_before seg addr) s (fun ps s' => exists h', s' = set_kheap h' s /\
    heap_ok h' /\ room h' b /\
    (forall l, owned (kheap s) l -> owned h' ((seg_addr <$> ps) ++ l)) /\
    Forall seg_ok ps /\ Forall (fun x => ref_count x = 0) ps /\
    tiles base seg_stop (base seg) ps addr).
Proof.
  intros Hh Hr Hb Hs Ha Hal. unfold split_before.
  destruct (Z.gtb_spec addr (base seg)) as [Hgt|Hle].
  - step. eapply wp_kmalloc_owned; [done..|]. intros p h' Hh' Hp Ho Hr'. step.
    exists h'. rewrite u32_small by seg_arith. split_and!; try done.
    + constructor; [|constructor]. seg_arith.
    + by constructor.
    + seg_arith.
  - step. exists (kheap s). split_and!; try done.
    + by destruct s.
    + eapply room_mono; [done|]. unfold sizeof_segment, KMALLOC_OVERHEAD. lia.
    + simpl. lia.
Qed.

Lemma split_after_ok s seg addr pages b :
  heap_ok (kheap s) -> room (kheap s) (sizeof_segment + KMALLOC_OVERHEAD + b) ->
  b = 0 \/ KMALLOC_OVERHEAD < b ->
  seg_ok seg -> base seg <= addr -> 0 <= pages -> addr + pages * PAGE_SIZE <= seg_stop seg ->
  addr mod PAGE_SIZE = 0 ->
  wp (split_after seg addr pages) s (fun ps s' => exists h', s' = set_kheap h' s /\
    heap_ok h' /\ room h' b /\
    (forall l, owned (kheap s) l -> owned h' ((seg_addr <$> ps) ++ l)) /\
    Forall seg_ok ps /\ Forall (fun x => ref_count x = 0) ps /\
    tiles base seg_stop (addr + pages * PAGE_SIZE) ps (seg_stop seg)).
Proof.
  intros Hh Hr Hb Hs Ha Hpg Hle Hal. unfold split_after.
  destruct (seg_size_ok seg Hs) as [_ ->].
  rewrite (u32_small (pages * PAGE_SIZE)) by seg_arith.
  rewrite (u32_small (addr + pages * PAGE_SIZE)) by seg_arith.
  rewrite (u32_small (addr - base seg)) by seg_arith.
  rewrite (u32_small ((addr - base seg) / PAGE_SIZE + pages)) by seg_arith.
  rewrite u32_small by seg_arith.
  destruct (Z.ltb_spec (addr + pages * PAGE_SIZE) (seg_stop seg)) as [Hlt|Hge].
  - step. eapply wp_kmalloc_owned; [done..|]. intros p h' Hh' Hp Ho Hr'. step.
    exists h'. split_and!; try done.
    + constructor; [|constructor]. seg_arith.
    + by constructor.
    + seg_arith.
  - step. exists (kheap s). split_and!; try done.
    + by destruct s.
    + eapply room_mono; [done|]. unfold sizeof_segment, KMALLOC_OVERHEAD. lia.
    + simpl. lia.
Qed.

(** Room for the two nodes a split may create. *)
Definition split_room : Z := 2 * (sizeof_segment + KMALLOC_OVERHEAD).

Lemma seg_ok_le l : Forall seg_ok l -> Forall (fun x => base x <= seg_stop x) l.
Proof. intros Hf. eapply Forall_impl; [done|]. intros x Hx. seg_arith. Qed.

(** What [segment_split] leaves: [seg] is replaced by pieces that tile it, one of
    which is the part that was asked for, now with one reference. *)
Definition carved (s s' : segs H) (front : list segment) (seg : segment) (back : list segment)
    (addr pages : Z) : Prop :=
  exists lb la,
    let seg' := set_ref_count 1 (set_base addr (set_page_size pages seg)) in
    segment_head s' = front ++ (lb ++ seg' :: la) ++ back /\
    segment_lock s' = segment_lock s /\ seg_wf s' /\
    Forall (fun x => ref_count x = 0) (lb ++ la) /\
    tiles base seg_stop (base seg) (lb ++ seg' :: la) (seg_stop seg).

Lemma segment_split_ok s front seg back addr pages b :
  seg_wf s -> segment_head s = front ++ seg :: back -> room (kheap s) (split_room + b) ->
  b = 0 \/ KMALLOC_OVERHEAD < b ->
  base seg <= addr -> addr mod PAGE_SIZE = 0 -> 0 < pages ->
  addr + pages * PAGE_SIZE <= seg_stop seg ->
  wp (segment_split front seg back addr pages) s (fun _ s' =>
    carved s s' front seg back addr pages /\ room (kheap s') b).
Proof.
  intros (Hh & Hok & Hsep & Ho) Heq Hr Hb Ha Hal Hpg Hst. rewrite Heq in *.
  apply Forall_app in Hok as [Hok1 [Hs Hok2]%Forall_cons].
  unfold segment_split. step.
  eapply wp_mono; [apply (split_before_ok _ _ _ (sizeof_segment + KMALLOC_OVERHEAD + b))|].
  1: done.
  1: by rewrite Z.add_assoc.
  1: right; unfold KMALLOC_OVERHEAD, sizeof_segment in *; lia.
  1-3: done || seg_arith.
  intros lb s1 (h1 & -> & Hh1 & Hr1 & Ho1 & Hokb & Hrb & Htb).
  step. eapply wp_mono; [apply (split_after_ok _ _ _ _ b); done || lia|].
  intros la s2 (h2 & -> & Hh2 & Hr2 & Ho2 & Hoka & Hra & Hta). step.
  set (seg' := set_ref_count 1 _).
  assert (tiles base seg_stop (base seg) (lb ++ seg' :: la) (seg_stop seg)) as Ht.
  { apply tiles_middle. done. }
  assert (Forall seg_ok (lb ++ seg' :: la)) as Hokp.
  { apply Forall_app. split; [done|]. constructor; [|done]. seg_arith. }
  assert (lb ++ seg' :: la ++ back = (lb ++ seg' :: la) ++ back) as Has by by rewrite <-app_assoc.
  split; [|done]. exists lb, la. split_and!.
  - simpl. by rewrite Has.
  - done.
  - split_and!; simpl; try done.
    + rewrite Has, !Forall_app in *. tauto.
    + rewrite Has. eapply pieces_sep; [done| |].
      * eapply pairwise_impl; [|by eapply tiles_pairwise; [apply seg_ok_le|]].
        intros x y. unfold sep. auto.
      * intros y Hy. apply (tiles_elem _ _ _ _ _ y (seg_ok_le _ Hokp) Ht Hy).
    + eapply owned_perm; [|by apply Ho2, Ho1]. rewrite !fmap_app, !fmap_cons, !fmap_app.
      simpl. solve_Permutation.
  - by apply Forall_app.
  - done.
Qed.

(** ** The abstract view *)

(** Pages [first .. first + n) get reference count [v]. *)
Definition set_refs (R : Z -> Z -> Prop) (first n v : Z) (p r : Z) : Prop :=
  if decide (first <= p < first + n) then r = v else R p r.

Lemma page_ref_app l1 l2 p r :
  page_ref (l1 ++ l2) p r <-> page_ref l1 p r \/ page_ref l2 p r.
Proof. unfold page_ref. set_solver. Qed.

Lemma page_ref_cons x l p r :
  page_ref (x :: l) p r <-> (in_seg p x /\ ref_count x = r) \/ page_ref l p r.
Proof. unfold page_ref. set_solver. Qed.

Lemma page_ref_unique l p r r' :
  pairwise sep l -> page_ref l p r -> page_ref l p r' -> r = r'.
Proof.
  induction l as [|x l IH]; simpl.
  - intros _ (? & []%not_elem_of_nil & _).
  - intros [Hx Hl] H1 H2. rewrite Forall_forall in Hx.
    apply page_ref_cons in H1 as [[? <-]|H1], H2 as [[? <-]|H2]; [done| | |by apply IH].
    + destruct H2 as (y & Hy & ? & _). specialize (Hx y Hy). seg_arith.
    + destruct H1 as (y & Hy & ? & _). specialize (Hx y Hy). seg_arith.
Qed.

(** Free pieces of a segment hold the page numbers they cover with count 0. *)
Lemma page_ref_pieces ps lo hi p r :
  Forall (fun x => ref_count x = 0) ps -> tiles base seg_stop lo ps hi ->
  Forall seg_ok ps -> page_ref ps p r <-> lo <= p * PAGE_SIZE < hi /\ r = 0.
Proof.
  intros Hr Ht Hok. split.
  - intros (x & Hx & Hin & <-). rewrite Forall_forall in Hr.
    pose proof (tiles_elem _ _ _ _ _ x (seg_ok_le _ Hok) Ht Hx).
    split; [unfold in_seg in Hin; lia|by apply Hr].
  - intros [Hp ->]. destruct (tiles_cover _ _ _ _ _ _ Ht Hp) as (x & Hx & Hin).
    exists x. split_and!; [done..|]. rewrite Forall_forall in Hr. by apply Hr.
Qed.

Lemma carved_pages s s' front seg back addr pages :
  segment_head s = front ++ seg :: back -> ref_count seg = 0 -> seg_ok seg ->
  addr mod PAGE_SIZE = 0 -> carved s s' front seg back addr pages ->
  forall p r, page_ref (segment_head s') p r <->
              set_refs (page_ref (segment_head s)) (addr / PAGE_SIZE) pages 1 p r.
Proof.
  intros Heq Hr Hok Hal (lb & la & Heq' & _ & (_ & Hok' & Hsep' & _) & Hrefs & Ht) p r.
  apply Forall_app in Hrefs as [Hrb Hra]. apply tiles_middle in Ht as [Htb Hta].
  simpl in Htb, Hta.
  rewrite Heq' in Hok'. rewrite !Forall_app, Forall_cons in Hok'.
  destruct Hok' as (_ & (Hokb & Hs' & Hoka) & _).
  set (seg' := set_ref_count 1 _) in *.
  assert (in_seg p seg' <-> addr / PAGE_SIZE <= p < addr / PAGE_SIZE + pages) as Hin by seg_arith.
  unfold set_refs. case_decide as Hd.
  - assert (page_ref (segment_head s') p 1) as H1.
    { rewrite Heq'. exists seg'. split_and!; [set_solver|by apply Hin|done]. }
    split; [|by intros ->]. intros H2. by eapply page_ref_unique.
  - rewrite <-Hin in Hd. rewrite Heq, Heq'. rewrite !page_ref_app, !page_ref_cons, Hr.
    rewrite (page_ref_pieces lb), (page_ref_pieces la) by done.
    assert (seg_stop seg' = addr + pages * PAGE_SIZE) as Hst by done.
    assert (in_seg p seg <-> base seg <= p * PAGE_SIZE < addr \/ in_seg p seg' \/
            seg_stop seg' <= p * PAGE_SIZE < seg_stop seg) as ->.
    { pose proof (tiles_le _ _ _ _ _ (seg_ok_le _ Hokb) Htb).
      pose proof (tiles_le _ _ _ _ _ (seg_ok_le _ Hoka) Hta). seg_arith. }
    intuition.
Qed.

Lemma free_pages_app l1 l2 : free_pages (l1 ++ l2) = free_pages l1 + free_pages l2.
Proof. induction l1 as [|x l1 IH]; simpl; [done|]. rewrite IH. lia. Qed.

Lemma free_pages_tiles lo l hi :
  Forall (fun x => ref_count x = 0) l -> tiles base seg_stop lo l hi ->
  free_pages l * PAGE_SIZE = hi - lo.
Proof.
  revert lo. induction l as [|x l IH]; intros lo; simpl; [lia|].
  intros [Hx Hl]%Forall_cons [<- Ht]. rewrite Hx, Z.eqb_refl, Z.mul_add_distr_r, (IH _ Hl Ht).
  unfold seg_stop. lia.
Qed.

(** Carving takes its pages from the free ones and leaves the segments in use. *)
Lemma carved_free s s' front seg back addr pages :
  segment_head s = front ++ seg :: back -> ref_count seg = 0 ->
  carved s s' front seg back addr pages ->
  free_pages (segment_head s') = free_pages (segment_head s) - pages /\
  (forall x, x ∈ segment_head s -> ref_count x <> 0 -> x ∈ segment_head s').
Proof.
  intros Heq Hr (lb & la & Heq' & _ & _ & [Hb Ha]%Forall_app & Ht). rewrite Heq, Heq'.
  apply tiles_middle in Ht as [Htb Hta]. split; [|set_solver].
  apply free_pages_tiles in Htb, Hta; [|done..]. unfold seg_stop in Hta. simpl in Htb, Hta.
  rewrite !free_pages_app. simpl. rewrite Hr. simpl. unfold PAGE_SIZE in *. unfold seg_stop in *. lia.
Qed.

Lemma in_pages_free s front seg back addr pages :
  segment_head s = front ++ seg :: back -> ref_count seg = 0 ->
  base seg <= addr -> addr + pages * PAGE_SIZE <= seg_stop seg -> addr mod PAGE_SIZE = 0 ->
  forall p, addr / PAGE_SIZE <= p < addr / PAGE_SIZE + pages -> page_ref (segment_head s) p 0.
Proof.
  intros Heq Hr Ha Hst Hal p Hp. exists seg. rewrite Heq. split_and!; [set_solver| |done].
  seg_arith.
Qed.

(** A granted range: [seg'] is in the list, all its pages were free, they now
    have one reference, and no other page changed.  The segments in use are
    still there. *)
Definition granted (s s' : segs H) (seg' : segment) : Prop :=
  seg' ∈ segment_head s' /\ ref_count seg' = 1 /\ seg_ok seg' /\
  (forall p, in_seg p seg' -> page_ref (segment_head s) p 0) /\
  (forall p r, page_ref (segment_head s') p r <->
     set_refs (page_ref (segment_head s)) (base seg' / PAGE_SIZE) (page_size seg') 1 p r) /\
  free_pages (segment_head s') = free_pages (segment_head s) - page_size seg' /\
  (forall x, x ∈ segment_head s -> ref_count x <> 0 -> x ∈ segment_head s').

Lemma segment_grant s front seg back addr pages b :
  seg_wf s -> segment_head s = front ++ seg :: back -> ref_count seg = 0 ->
  room (kheap s) (split_room + b) -> b = 0 \/ KMALLOC_OVERHEAD < b -> base seg <= addr -> addr mod PAGE_SIZE = 0 -> 0 < pages ->
  addr + pages * PAGE_SIZE <= seg_stop seg ->
  wp (segment_split front seg back addr pages) s (fun _ s' =>
    segment_lock s' = segment_lock s /\ seg_wf s' /\ room (kheap s') b /\
    exists seg', granted s s' seg' /\ base seg' = addr /\ page_size seg' = pages /\
                 seg_addr seg' = seg_addr seg).
Proof.
  intros Hwf Heq Hr Hroom Hb Ha Hal Hpg Hst.
  eapply wp_mono; [by apply (segment_split_ok _ _ _ _ _ _ b)|]. intros [] s' [Hc Hroom'].
  assert (seg_ok seg) as Hok.
  { destruct Hwf as (_ & Hok & _). rewrite Heq, Forall_app, Forall_cons in Hok. tauto. }
  pose proof (carved_pages _ _ _ _ _ _ _ Heq Hr Hok Hal Hc) as Hpages.
  pose proof (carved_free _ _ _ _ _ _ _ Heq Hr Hc) as [Hfree Hkept].
  destruct Hc as (lb & la & Heq' & Hlk & Hwf' & _).
  split_and!; [done..|]. exists (set_ref_count 1 (set_base addr (set_page_size pages seg))). split; [|done]. split_and!; simpl.
  - rewrite Heq'. set_solver.
  - done.
  - seg_arith.
  - intros p Hp. eapply in_pages_free; [done..|]. seg_arith.
  - done.
  - done.
  - done.
Qed.

Lemma seg_wf_lock b s : seg_wf (set_lock b s) <-> seg_wf s.
Proof. done. Qed.

Lemma seg_wf_elem s seg : seg_wf s -> seg ∈ segment_head s -> seg_ok seg /\ 0 < seg_addr seg.
Proof.
  intros (_ & Hok & _ & Ho) Hs. rewrite Forall_forall in Hok. split; [by apply Hok|].
  apply Ho, elem_of_app. left. by apply list_elem_of_fmap_2.
Qed.

Lemma wf_NoDup s : seg_wf s -> NoDup (seg_addr <$> segment_head s).
Proof. intros (_ & _ & _ & Ho & _). by apply NoDup_app in Ho as [? _]. Qed.

Lemma addr_unique s x y :
  seg_wf s -> x ∈ segment_head s -> y ∈ segment_head s -> seg_addr x = seg_addr y -> x = y.
Proof.
  intros Hwf Hx Hy E.
  destruct (list_break_key seg_addr (segment_head s) x) as (l1 & l2 & Hx' & _); [apply wf_NoDup, Hwf|done|].
  destruct (list_break_key seg_addr (segment_head s) y) as (l3 & l4 & Hy' & _); [apply wf_NoDup, Hwf|done|].
  rewrite E in Hx'. congruence.
Qed.

(** ** Release *)

Lemma merged_wf h h' l1 x y z l2 :
  list_wf h (l1 ++ x :: y :: l2) -> seg_stop x = base y ->
  ref_count x = 0 -> ref_count y = 0 -> ref_count z = 0 ->
  base z = base x -> page_size z = page_size x + page_size y ->
  heap_ok h' -> owned h' ((seg_addr <$> l1 ++ z :: l2) ++ F) ->
  list_wf h' (l1 ++ z :: l2) /\
  forall p r, page_ref (l1 ++ z :: l2) p r <-> page_ref (l1 ++ x :: y :: l2) p r.
Proof.
  intros (_ & Hok & Hsep & _) Hxy Hx Hy Hz Hb Hp Hh' Ho'.
  rewrite Forall_app, !Forall_cons in Hok. destruct Hok as (Hok1 & Hxok & Hyok & Hok2).
  assert (seg_ok z) as Hzok by seg_arith.
  split.
  - split_and!; [done| | |done].
    + rewrite Forall_app, Forall_cons. done.
    + apply pairwise_app in Hsep as (Hs1 & (Hsx & Hsy & Hs2) & Hs12).
      apply Forall_cons in Hsx as [_ Hsx]. rewrite Forall_forall in Hsx, Hsy.
      assert (forall w, seg_ok w -> sep x w -> sep y w -> sep z w) as Hzw by (intros; seg_arith).
      rewrite Forall_forall in Hok1, Hok2.
      apply pairwise_app. split_and!; [done| |].
      * split; [|done]. apply Forall_forall. intros w Hw. auto.
      * intros w v Hw [->|Hv]%elem_of_cons; [|set_solver].
        apply sep_sym, Hzw; [auto|apply sep_sym, Hs12; set_solver..].
  - intros p r. rewrite !page_ref_app, !page_ref_cons, Hx, Hy, Hz.
    assert (in_seg p z <-> in_seg p x \/ in_seg p y) as -> by seg_arith. tauto.
Qed.

(** Merging changes neither the number of free pages nor the segments in use. *)
Definition kept (l l' : list segment) : Prop :=
  free_pages l' = free_pages l /\ forall x, x ∈ l -> ref_count x <> 0 -> x ∈ l'.

Lemma merge_kept_refl l : kept l l.
Proof. by split. Qed.

Lemma merge_kept_trans l1 l2 l3 : kept l1 l2 -> kept l2 l3 -> kept l1 l3.
Proof. intros [E1 K1] [E2 K2]. split; [congruence|]. auto. Qed.

Lemma merged_kept l1 x y z l2 :
  ref_count x = 0 -> ref_count y = 0 -> ref_count z = 0 ->
  page_size z = page_size x + page_size y -> kept (l1 ++ x :: y :: l2) (l1 ++ z :: l2).
Proof.
  intros Hx Hy Hz Hp. split; [|set_solver].
  rewrite !free_pages_app. simpl. rewrite Hx, Hy, Hz, Hp. simpl. lia.
Qed.

Lemma merge_next_ok s front seg back :
  list_wf (kheap s) (front ++ seg :: back) -> ref_count seg = 0 ->
  wp (merge_next seg back) s (fun '(seg', back') s' => exists h', s' = set_kheap h' s /\
    list_wf h' (front ++ seg' :: back') /\
    (forall b, room (kheap s) b -> room h' b) /\
    kept (front ++ seg :: back) (front ++ seg' :: back') /\
    forall p r, page_ref (front ++ seg' :: back') p r <-> page_ref (front ++ seg :: back) p r).
Proof.
  intros Hwf Hr. unfold merge_next. destruct back as [|next rest].
  { step. exists (kheap s). destruct s. done. }
  assert (seg_ok seg /\ seg_ok next) as [Hs Hn].
  { destruct Hwf as (_ & Hok & _). rewrite Forall_app, !Forall_cons in Hok. tauto. }
  destruct (seg_size_ok seg Hs) as [_ ->].
  destruct (Z.eqb_spec (ref_count next) 0) as [Hnr|]; simpl.
  2:{ step. exists (kheap s). destruct s. done. }
  destruct (Z.eqb_spec (seg_stop seg) (base next)) as [Hadj|].
  2:{ step. exists (kheap s). destruct s. done. }
  pose proof Hwf as (Hh & _ & _ & Ho).
  step. eapply wp_kfree_owned; [done| |].
  { eapply owned_live; [done|]. apply elem_of_app. left. apply list_elem_of_fmap_2. set_solver. }
  intros h' Hh' Ho' Hr'. step. exists h'. split; [done|].
  rewrite u32_small by seg_arith.
  destruct (merged_wf (kheap s) h' front seg next
              (set_page_size (page_size seg + page_size next) seg) rest) as [??]; try done.
  2: split_and!; try done; by apply merged_kept.
  apply Ho'. eapply owned_perm; [|done]. rewrite !fmap_app, !fmap_cons. simpl. solve_Permutation.
Qed.

Lemma merge_prev_ok s front seg back :
  list_wf (kheap s) (front ++ seg :: back) -> ref_count seg = 0 ->
  wp (merge_prev front seg) s (fun '(front', seg') s' => exists h', s' = set_kheap h' s /\
    list_wf h' (front' ++ seg' :: back) /\
    (forall b, room (kheap s) b -> room h' b) /\ ref_count seg' = 0 /\
    kept (front ++ seg :: back) (front' ++ seg' :: back) /\
    forall p r, page_ref (front' ++ seg' :: back) p r <-> page_ref (front ++ seg :: back) p r).
Proof.
  intros Hwf Hr. unfold merge_prev.
  destruct front as [|prev front _] using rev_ind; [simpl|rewrite rev_app_distr; simpl].
  { step. exists (kheap s). destruct s. done. }
  rewrite rev_involutive. rewrite <-app_assoc in *. simpl in *.
  assert (seg_ok prev /\ seg_ok seg) as [Hp Hs].
  { destruct Hwf as (_ & Hok & _). rewrite Forall_app, !Forall_cons in Hok. tauto. }
  destruct (seg_size_ok prev Hp) as [_ ->].
  destruct (Z.eqb_spec (ref_count prev) 0) as [Hpr|]; simpl.
  2:{ step. exists (kheap s). rewrite <-app_assoc. destruct s. done. }
  destruct (Z.eqb_spec (seg_stop prev) (base seg)) as [Hadj|].
  2:{ step. exists (kheap s). rewrite <-app_assoc. destruct s. done. }
  pose proof Hwf as (Hh & _ & _ & Ho).
  step. eapply wp_kfree_owned; [done| |].
  { eapply owned_live; [done|]. apply elem_of_app. left. apply list_elem_of_fmap_2. set_solver. }
  intros h' Hh' Ho' Hr'. step. exists h'. split; [done|].
  rewrite u32_small by seg_arith.
  destruct (merged_wf (kheap s) h' front prev seg
     (set_page_size (page_size seg + page_size prev) (set_base (base prev) seg)) back) as [??];
    try done; [simpl; lia| |].
  2: split_and!; try done; apply merged_kept; simpl; done || lia.
  apply Ho'. eapply owned_perm; [|done]. rewrite !fmap_app, !fmap_cons. simpl. solve_Permutation.
Qed.

Lemma segment_merge_ok s front seg back :
  list_wf (kheap s) (front ++ seg :: back) -> ref_count seg = 0 ->
  wp (segment_merge front seg back) s (fun _ s' =>
    segment_lock s' = segment_lock s /\ seg_wf s' /\
    (forall b, room (kheap s) b -> room (kheap s') b) /\
    kept (front ++ seg :: back) (segment_head s') /\
    forall p r, page_ref (segment_head s') p r <-> page_ref (front ++ seg :: back) p r).
Proof.
  intros Hwf Hr. unfold segment_merge.
  step. eapply wp_mono; [by apply (merge_prev_ok s front seg back)|].
  intros [front' seg'] s1 (h1 & -> & Hwf1 & Hr1 & Href1 & Hk1 & Hp1).
  step. eapply wp_mono; [by apply (merge_next_ok _ front' seg' back)|].
  intros [seg'' back'] s2 (h2 & -> & Hwf2 & Hr2 & Hk2 & Hp2). step.
  split_and!; try done; [by intros b ?%Hr1%Hr2|by eapply merge_kept_trans|]. intros p r. simpl. rewrite Hp2. apply Hp1.
Qed.

(** Changing the reference count of one segment. *)
Lemma set_ref_wf h front seg back v :
  list_wf h (front ++ seg :: back) -> 0 <= v < 2 ^ 16 ->
  list_wf h (front ++ set_ref_count v seg :: back) /\
  forall p r, page_ref (front ++ set_ref_count v seg :: back) p r <->
    set_refs (page_ref (front ++ seg :: back)) (base seg / PAGE_SIZE) (page_size seg) v p r.
Proof.
  intros (Hh & Hok & Hsep & Ho) Hv.
  rewrite Forall_app, !Forall_cons in Hok. destruct Hok as (Hok1 & Hs & Hok2).
  assert (list_wf h (front ++ set_ref_count v seg :: back)) as Hwf'.
  { split_and!; [done| | |].
    - rewrite Forall_app, Forall_cons. split_and!; [done| |done]. seg_arith.
    - apply (pieces_sep front seg back [set_ref_count v seg]); [done|by repeat constructor|].
      intros y ->%list_elem_of_singleton. simpl. unfold seg_stop. simpl. lia.
    - rewrite fmap_app, fmap_cons in *. done. }
  split; [done|]. intros p r. unfold set_refs.
  assert (in_seg p seg <-> base seg / PAGE_SIZE <= p < base seg / PAGE_SIZE + page_size seg)
    as Hin by seg_arith.
  case_decide as Hd.
  - apply Hin in Hd. assert (page_ref (front ++ set_ref_count v seg :: back) p v) as Hpv.
    { exists (set_ref_count v seg). split_and!; [set_solver|done..]. }
    split; [|by intros ->]. intros Hpr. eapply page_ref_unique; [apply Hwf'|done..].
  - rewrite <-Hin in Hd. rewrite !page_ref_app, !page_ref_cons.
    assert (in_seg p (set_ref_count v seg) <-> in_seg p seg) as -> by done. tauto.
Qed.

(** Dropping a reference of [seg]: the other segments in use are still there,
    and the pages of [seg] are free when it was the last reference. *)
Definition dropped (s s' : segs H) seg : Prop :=
  free_pages (segment_head s') =
    free_pages (segment_head s) + (if ref_count seg =? 1 then page_size seg else 0) /\
  (forall x, x ∈ segment_head s -> seg_addr x <> seg_addr seg -> ref_count x <> 0 ->
     x ∈ segment_head s') /\
  (ref_count seg <> 1 -> set_ref_count (ref_count seg - 1) seg ∈ segment_head s') /\
  (forall b, room (kheap s) b -> room (kheap s') b).

Lemma drop_ref_ok s front seg back :
  seg_wf s -> segment_head s = front ++ seg :: back -> ref_count seg <> 0 ->
  wp (drop_ref front seg back) s (fun _ s' =>
    segment_lock s' = segment_lock s /\ seg_wf s' /\
    dropped s s' seg /\
    forall p r, page_ref (segment_head s') p r <->
      set_refs (page_ref (segment_head s)) (base seg / PAGE_SIZE) (page_size seg)
        (ref_count seg - 1) p r).
Proof.
  intros Hwf Heq Hr. unfold dropped. rewrite Heq. unfold seg_wf in Hwf. rewrite Heq in Hwf. unfold drop_ref.
  assert (seg_ok seg) as Hs.
  { destruct Hwf as (_ & Hok & _). rewrite Forall_app, !Forall_cons in Hok. tauto. }
  rewrite u16_small by seg_arith.
  destruct (set_ref_wf (kheap s) front seg back (ref_count seg - 1) Hwf) as [Hwf' Hp]; [seg_arith|].
  simpl. destruct (Z.eqb_spec (ref_count seg - 1) 0) as [Hz|].
  - eapply wp_mono; [by apply (segment_merge_ok s front _ back)|].
    intros _ s' (? & ? & ? & [Hf Hk] & Hp'). split_and!; try done.
    + rewrite Hf, !free_pages_app. simpl. rewrite Hz. simpl.
      replace (ref_count seg) with 1 by lia. simpl. lia.
    + intros x Hx Hne Hxr. apply Hk; [|done]. set_solver.
    + lia.
    + intros p r. by rewrite Hp', Hp.
  - step. split_and!; try done.
    + simpl. rewrite !free_pages_app. simpl.
      rewrite !(proj2 (Z.eqb_neq _ _)) by (simpl; lia). lia.
    + simpl. set_solver.
    + simpl. set_solver.
Qed.

(** ** Properties *)

Lemma segment_alloc_ok s pages b :
  seg_inv s -> 0 < pages -> room (kheap s) (split_room + b) -> b = 0 \/ KMALLOC_OVERHEAD < b ->
  wp (segment_alloc pages) s (fun r s' => seg_inv s' /\
    ((r = 0 /\ s' = s /\ Forall (fun x => ref_count x = 0 -> page_size x < pages) (segment_head s)) \/
     (exists seg', r = seg_addr seg' /\ r <> 0 /\ page_size seg' = pages /\ granted s s' seg' /\
        room (kheap s') b))).
Proof.
  intros [Hlk Hwf] Hpg Hroom Hb0. unfold segment_alloc.
  rewrite (proj2 (Z.eqb_neq pages 0)) by lia.
  step. apply wp_lock; [done|]. step. step. simpl.
  destruct (list_break _ _) as [[[front seg] back]|] eqn:E.
  - apply list_break_Some in E as (Heq & [Hr Hge]%andb_prop & _).
    apply Z.eqb_eq in Hr. rewrite Z.geb_leb in Hge. apply Z.leb_le in Hge.
    destruct (seg_wf_elem s seg Hwf) as [Hs Hpos]; [rewrite Heq; set_solver|].
    step. eapply wp_mono; [apply (segment_grant _ _ _ _ _ _ b); try done; seg_arith|].
    intros _ s' (Hlk' & Hwf' & Hroom' & seg' & Hg & Hb & Hp & Had). step. step. step.
    split; [by split|]. right. exists seg'. split_and!; [done|lia|done..].
  - apply list_break_None in E. step. step. step.
    assert (set_lock false (set_lock true s) = s) as Hs by (destruct s; simpl in *; by subst).
    rewrite Hs. split; [by split|]. left. split_and!; [done..|].
    eapply Forall_impl; [done|]. intros x Hx Hr. cbv beta in Hx. rewrite Hr, Z.geb_leb in Hx. simpl in Hx.
    by apply Z.leb_gt in Hx.
Qed.

(** C4: [segment_alloc] gives the first free segment that is large enough, cut to
    the requested size.  All the pages it covers were free; they get one
    reference and no other page changes.  It returns NULL, changing nothing,
    exactly when every free segment is too small.  In every case the segments
    stay disjoint, their nodes allocated, and the lock released. *)
Theorem segment_alloc_grants s pages :
  seg_inv s -> 0 < pages -> room (kheap s) split_room ->
  wp (segment_alloc pages) s (fun r s' => seg_inv s' /\
    ((r = 0 /\ s' = s /\ Forall (fun x => ref_count x = 0 -> page_size x < pages) (segment_head s)) \/
     (exists seg', r = seg_addr seg' /\ r <> 0 /\ page_size seg' = pages /\ granted s s' seg'))).
Proof.
  intros Hinv Hpg Hroom. eapply wp_mono; [apply (segment_alloc_ok s pages 0); [done..| |by left]|].
  { by rewrite Z.add_0_r. }
  intros r s' [Hinv' [Hn|(seg' & ? & ? & ? & ? & _)]]; split; eauto 10.
Qed.

(** [segment_reserve] on a page-aligned range either takes it, when the first
    free segment whose closed range holds [addr] contains it all, or returns 0
    and changes nothing.  A range inside one free segment is always granted,
    provided no other free segment ends exactly at [addr]. *)
Theorem segment_reserve_grants s addr pages :
  seg_inv s -> 0 < pages -> 0 <= addr -> addr mod PAGE_SIZE = 0 ->
  addr + pages * PAGE_SIZE < 2 ^ 32 -> room (kheap s) split_room ->
  wp (segment_reserve addr pages) s (fun r s' => seg_inv s' /\
    ((r = 0 /\ s' = s) \/
     (r = 1 /\ exists seg', base seg' = addr /\ page_size seg' = pages /\ granted s s' seg')) /\
    ((exists x, x ∈ segment_head s /\ ref_count x = 0 /\ base x <= addr /\
        addr + pages * PAGE_SIZE <= seg_stop x) ->
     Forall (fun x => ref_count x = 0 -> seg_stop x <> addr) (segment_head s) -> r = 1)).
Proof.
  intros [Hlk Hwf] Hpg Ha Hal Hmax Hroom. unfold segment_reserve.
  rewrite (proj2 (Z.eqb_neq pages 0)) by lia.
  assert (set_lock false (set_lock true s) = s) as Hsame by (destruct s; simpl in *; by subst).
  step. apply wp_lock; [done|]. step. step. simpl.
  destruct (list_break _ _) as [[[front seg] back]|] eqn:E.
  - apply list_break_Some in E as (Heq & [[Hr Hge]%andb_prop Hle]%andb_prop & _).
    destruct (seg_wf_elem s seg Hwf) as [Hs _]; [rewrite Heq; set_solver|].
    destruct (seg_size_ok seg Hs) as [_ Hst]. rewrite Hst in *.
    apply Z.eqb_eq in Hr. rewrite Z.geb_leb in Hge. apply Z.leb_le in Hge, Hle.
    rewrite (u32_small (pages * PAGE_SIZE)) by seg_arith. rewrite u32_small by seg_arith.
    destruct (Z.gtb_spec (addr + pages * PAGE_SIZE) (seg_stop seg)) as [Hgt|Hfit].
    + step. step. step. rewrite Hsame. split_and!; [by split|by left|].
      intros (x & Hx & Hxr & Hxb & Hxs) Hend. exfalso.
      destruct (seg_wf_elem s x Hwf Hx) as [Hxok _].
      rewrite Forall_forall in Hend. pose proof (Hend seg) as Hne.
      assert (seg_stop seg <> addr) by (apply Hne; [rewrite Heq; set_solver|done]).
      assert (x = seg) as ->; [|lia].
      destruct Hwf as (_ & _ & Hsep & _). rewrite Heq in Hx, Hsep.
      apply pairwise_app in Hsep as (_ & [Hsx _] & H12). rewrite Forall_forall in Hsx.
      apply elem_of_app in Hx as [Hx|[?|Hx]%elem_of_cons]; [|done|].
      * specialize (H12 x seg Hx ltac:(set_solver)). seg_arith.
      * specialize (Hsx x Hx). seg_arith.
    + step. eapply wp_mono; [apply (segment_grant _ _ _ _ _ _ 0); first [done | lia | by left | by rewrite Z.add_0_r]|].
      intros _ s' (Hlk' & Hwf' & _ & seg' & Hg & Hb & Hp & _). step. step. step.
      split_and!; [by split| |done]. right. split; [done|]. by exists seg'.
  - apply list_break_None in E. step. step. step. rewrite Hsame.
    split_and!; [by split|by left|]. intros (x & Hx & Hxr & Hxb & Hxs) _. exfalso.
    destruct (seg_wf_elem s x Hwf Hx) as [Hxok _]. destruct (seg_size_ok x Hxok) as [_ Hst].
    rewrite Forall_forall in E. specialize (E x Hx). cbv beta in E.
    rewrite Hst, Hxr, Z.geb_leb in E. simpl in E.
    rewrite (proj2 (Z.leb_le (base x) addr)) in E by lia.
    apply Z.leb_gt in E. seg_arith.
Qed.

Lemma set_lock_same s : segment_lock s = false -> set_lock false (set_lock true s) = s.
Proof. destruct s. simpl. by intros ->. Qed.

Lemma set_refs_same l seg p r :
  pairwise sep l -> seg ∈ l -> seg_ok seg ->
  set_refs (page_ref l) (base seg / PAGE_SIZE) (page_size seg) (ref_count seg) p r <->
  page_ref l p r.
Proof.
  intros Hsep Hin Hok. unfold set_refs. case_decide as Hd; [|done].
  assert (page_ref l p (ref_count seg)) as Hp by (exists seg; split_and!; [done|seg_arith|done]).
  split; [by intros ->|]. intros Hp'. by eapply page_ref_unique.
Qed.

(** Dropping a reference under the lock. *)
Lemma locked_drop s front seg back :
  seg_inv s -> segment_head s = front ++ seg :: back -> ref_count seg <> 0 ->
  wp (drop_ref front seg back ;;; spinlock_unlock set_lock) (set_lock true s) (fun _ s' =>
    seg_inv s' /\ dropped s s' seg /\ forall p r, page_ref (segment_head s') p r <->
      set_refs (page_ref (segment_head s)) (base seg / PAGE_SIZE) (page_size seg)
        (ref_count seg - 1) p r).
Proof.
  intros [Hlk Hwf] Heq Hr. step. eapply wp_mono; [by apply drop_ref_ok|].
  intros _ s' (Hlk' & Hwf' & Hd & Hp). step. by split.
Qed.

Lemma segment_release_ok s seg :
  seg_inv s -> seg ∈ segment_head s -> ref_count seg <> 0 ->
  wp (segment_release (seg_addr seg)) s (fun _ s' => seg_inv s' /\ dropped s s' seg /\
    forall p r, page_ref (segment_head s') p r <->
      set_refs (page_ref (segment_head s)) (base seg / PAGE_SIZE) (page_size seg)
        (ref_count seg - 1) p r).
Proof.
  intros Hinv Hin Hz. pose proof Hinv as [Hlk Hwf].
  destruct (seg_wf_elem s seg Hwf Hin) as [Hok Hpos]. unfold segment_release.
  rewrite (proj2 (Z.eqb_neq _ 0)) by lia. step. step. unfold segment_at.
  destruct (list_break_key seg_addr (segment_head s) seg) as (front & back & -> & Heq);
    [apply wf_NoDup, Hwf|done|].
  rewrite (proj2 (Z.eqb_neq _ 0)) by done.
  step. apply wp_lock; [done|]. by apply (locked_drop s front seg back).
Qed.

(** [segment_release] drops one reference of the given segment: its pages,
    and no others, lose one reference; a segment whose count reaches 0 is merged
    with its free neighbours without changing the view of any page.  Releasing
    a segment that has no reference changes nothing. *)
Theorem segment_release_drops s seg :
  seg_inv s -> seg ∈ segment_head s ->
  wp (segment_release (seg_addr seg)) s (fun _ s' => seg_inv s' /\
    forall p r, page_ref (segment_head s') p r <->
      set_refs (page_ref (segment_head s)) (base seg / PAGE_SIZE) (page_size seg)
        (Z.max 0 (ref_count seg - 1)) p r).
Proof.
  intros Hinv Hin. pose proof Hinv as [Hlk Hwf].
  destruct (seg_wf_elem s seg Hwf Hin) as [Hok Hpos].
  destruct (decide (ref_count seg = 0)) as [Hz|Hz].
  - unfold segment_release. rewrite (proj2 (Z.eqb_neq _ 0)) by lia. step. step. unfold segment_at.
    destruct (list_break_key seg_addr (segment_head s) seg) as (front & back & -> & Heq);
      [apply wf_NoDup, Hwf|done|].
    rewrite Hz. step. split; [done|]. intros p r. change (Z.max 0 (0 - 1)) with 0.
    rewrite <-Hz. symmetry. apply set_refs_same; [apply Hwf|done..].
  - rewrite Z.max_r by seg_arith. eapply wp_mono; [by apply segment_release_ok|].
    by intros _ s' (? & _ & ?).
Qed.

Lemma base_unique s seg seg' :
  seg_wf s -> seg ∈ segment_head s -> seg' ∈ segment_head s -> base seg = base seg' -> seg = seg'.
Proof.
  intros Hwf H1 H2 Hb. destruct (decide (seg = seg')) as [|Hne]; [done|].
  destruct (seg_wf_elem s seg Hwf H1) as [? _]. destruct (seg_wf_elem s seg' Hwf H2) as [? _].
  apply list_elem_of_split in H1 as (l1 & l2 & Heq). destruct Hwf as (_ & _ & Hsep & _).
  rewrite Heq in H2, Hsep. apply pairwise_app in Hsep as (_ & [Hx _] & H12).
  rewrite Forall_forall in Hx.
  apply elem_of_app in H2 as [H2|[?|H2]%elem_of_cons]; [| done|].
  - specialize (H12 seg' seg H2 ltac:(set_solver)). seg_arith.
  - specialize (Hx seg' H2). seg_arith.
Qed.

Lemma break_base s seg :
  seg_wf s -> seg ∈ segment_head s -> exists front back,
    list_break (fun x => base x =? base seg) (segment_head s) = Some (front, seg, back) /\
    segment_head s = front ++ seg :: back.
Proof.
  intros Hwf Hin. destruct (list_break _ _) as [[[front x] back]|] eqn:E.
  - apply list_break_Some in E as (Heq & Hb & _). apply Z.eqb_eq in Hb.
    exists front, back. assert (x = seg) as ->; [|done].
    apply (base_unique s); [done|rewrite Heq; set_solver|done..].
  - apply list_break_None in E. rewrite Forall_forall in E. specialize (E seg Hin).
    by rewrite Z.eqb_refl in E.
Qed.

Lemma segment_free_ok s seg :
  seg_inv s -> seg ∈ segment_head s -> ref_count seg <> 0 ->
  wp (segment_free (base seg)) s (fun _ s' => seg_inv s' /\ dropped s s' seg /\
    forall p r, page_ref (segment_head s') p r <->
      set_refs (page_ref (segment_head s)) (base seg / PAGE_SIZE) (page_size seg)
        (ref_count seg - 1) p r).
Proof.
  intros [Hlk Hwf] Hin Hr. destruct (break_base s seg Hwf Hin) as (front & back & Hlb & Heq).
  unfold segment_free. step. apply wp_lock; [done|]. step. step. simpl. rewrite Hlb.
  rewrite (proj2 (Z.eqb_neq _ 0)) by done. by apply (locked_drop s front seg back).
Qed.

(** [segment_free] of the start address of a segment in use drops one
    reference as [segment_release] does.  But given the start address of a
    segment that is already free it returns with [segment_lock] still taken,
    after which any allocation waits for ever. *)
Theorem segment_free_drops s seg pages :
  seg_inv s -> seg ∈ segment_head s -> pages <> 0 ->
  (ref_count seg <> 0 ->
   wp (segment_free (base seg)) s (fun _ s' => seg_inv s' /\
     forall p r, page_ref (segment_head s') p r <->
       set_refs (page_ref (segment_head s)) (base seg / PAGE_SIZE) (page_size seg)
         (ref_count seg - 1) p r)) /\
  (ref_count seg = 0 ->
   segment_free (base seg) s = Done (tt, set_lock true s) /\
   segment_alloc pages (set_lock true s) = Spin).
Proof.
  intros Hinv Hin Hpg. split; intros Hr.
  - eapply wp_mono; [by apply segment_free_ok|]. by intros _ s' (? & _ & ?).
  - destruct Hinv as [Hlk Hwf]. destruct (break_base s seg Hwf Hin) as (front & back & Hlb & Heq).
    unfold segment_free, segment_alloc, spinlock_lock, bind, get.
    rewrite Hlk, (proj2 (Z.eqb_neq pages 0)) by done. simpl. by rewrite Hlb, Hr.
Qed.

(** ** One page at a time *)

(** [segment_alloc_address] gives the address of the pages, which is 0 only when
    there is no free segment of that size (or when page 0 is free). *)
Lemma segment_alloc_address_ok s pages b :
  seg_inv s -> 0 < pages -> room (kheap s) (split_room + b) -> b = 0 \/ KMALLOC_OVERHEAD < b ->
  wp (segment_alloc_address pages) s (fun r s' => seg_inv s' /\
    ((r = 0 /\ s' = s /\ Forall (fun x => ref_count x = 0 -> page_size x < pages) (segment_head s)) \/
     (exists seg', r = base seg' /\ page_size seg' = pages /\ granted s s' seg' /\
        room (kheap s') b))).
Proof.
  intros Hinv Hpg Hr Hb. unfold segment_alloc_address. step.
  eapply wp_mono; [by apply (segment_alloc_ok s pages b)|].
  intros r s' [Hinv' [(-> & -> & Hn)|(seg' & -> & Hne & Hp & Hg & Hr')]].
  - apply wp_ret. split; [done|]. by left.
  - rewrite (proj2 (Z.eqb_neq _ 0)) by done. step. step. unfold segment_at.
    destruct (list_break_key seg_addr (segment_head s') seg') as (front & back & -> & _);
      [apply wf_NoDup, Hinv'|exact (proj1 Hg)|].
    step. split; [done|]. right. by exists seg'.
Qed.

(** [segment_locate] finds the segment that holds an address. *)
Lemma segment_locate_ok s addr :
  seg_inv s ->
  wp (segment_locate addr) s (fun r s' => s' = s /\
    ((r = 0 /\ Forall (fun x => ~ base x <= addr < seg_stop x) (segment_head s)) \/
     (exists seg, seg ∈ segment_head s /\ r = seg_addr seg /\ base seg <= addr < seg_stop seg))).
Proof.
  intros [Hlk Hwf]. unfold segment_locate. step. apply wp_lock; [done|]. step. step. simpl.
  destruct (list_break _ _) as [[[front seg] back]|] eqn:E; step; step; step;
    rewrite set_lock_same by done; (split; [done|]).
  - apply list_break_Some in E as (Heq & [Hb He]%andb_prop & _). right. exists seg.
    assert (seg ∈ segment_head s) as Hin by (rewrite Heq; set_solver).
    destruct (seg_wf_elem s seg Hwf Hin) as [Hok _]. destruct (seg_size_ok seg Hok) as [_ Hst].
    rewrite Hst in He. apply Z.leb_le in Hb. apply Z.gtb_lt in He. done.
  - apply list_break_None in E. left. split; [done|]. rewrite Forall_forall in E |- *.
    intros x Hx [Hb He]. destruct (seg_wf_elem s x Hwf Hx) as [Hok _].
    destruct (seg_size_ok x Hok) as [_ Hst]. specialize (E x Hx). cbv beta in E.
    rewrite Hst, (proj2 (Z.leb_le _ _) Hb) in E. rewrite Z.gtb_ltb in E.
    apply Z.ltb_ge in E. lia.
Qed.
End inv.

(** ** A concrete memory map

    Pages 0..159 in use, then 64 free pages and 10 pages in use, over a heap
    that holds the three nodes. *)

#[local] Existing Instance Kmalloc.kmalloc_kheap.

Definition sample_heap : Kmalloc.heap := {|
  Kmalloc.kmalloc_lock := false;
  Kmalloc.kmalloc_head :=
    [ {| Kmalloc.bk_addr := 1000; Kmalloc.bk_ptr := 1020; Kmalloc.bk_size := 20; Kmalloc.bk_free := false |};
      {| Kmalloc.bk_addr := 1040; Kmalloc.bk_ptr := 1060; Kmalloc.bk_size := 20; Kmalloc.bk_free := false |};
      {| Kmalloc.bk_addr := 1080; Kmalloc.bk_ptr := 1100; Kmalloc.bk_size := 20; Kmalloc.bk_free := false |};
      {| Kmalloc.bk_addr := 1120; Kmalloc.bk_ptr := 1140; Kmalloc.bk_size := 400; Kmalloc.bk_free := true |} ];
  Kmalloc.mem := ∅ |}.

Definition seg_used : segment :=
  {| seg_addr := 1020; base := 0; page_size := 160; flags := 0; ref_count := 2 |}.
Definition seg_unused : segment :=
  {| seg_addr := 1060; base := 655360; page_size := 64; flags := 0; ref_count := 0 |}.
Definition seg_last : segment :=
  {| seg_addr := 1100; base := 917504; page_size := 10; flags := 0; ref_count := 1 |}.

Definition sample_segs : segs Kmalloc.heap := {|
  segment_lock := false;
  segment_head := [seg_used; seg_unused; seg_last];
  kheap := sample_heap |}.

Lemma sample_heap_ok : heap_ok sample_heap.
Proof.
  exists 1000, 1540. split_and!; try done.
  repeat (constructor; [split; simpl; Kmalloc.blk_arith|]). constructor.
Qed.

Lemma sample_segs_inv : seg_inv [] sample_segs.
Proof.
  split; [done|]. split_and!.
  - apply sample_heap_ok.
  - repeat (constructor; [seg_arith|]). constructor.
  - simpl. split_and!; repeat (constructor; [seg_arith|]); constructor.
  - split; [apply (bool_decide_unpack _); by vm_compute|].
    intros a Ha. simpl in Ha. rewrite !elem_of_cons, elem_of_nil in Ha.
    destruct Ha as [->|[->|[->|[]]]]; (split; [lia|]); vm_compute; eauto.
Qed.

Lemma sample_segs_room : room (kheap sample_segs) split_room.
Proof.
  right. eexists. split_and!;
    [do 3 apply list_elem_of_further; apply list_elem_of_here|done|].
  unfold split_room, sizeof_segment. Kmalloc.blk_arith.
Qed.

Lemma segment_alloc_grants_witness :
  wp (segment_alloc 5) sample_segs (fun r s' => seg_inv [] s' /\
    ((r = 0 /\ s' = sample_segs /\
      Forall (fun x => ref_count x = 0 -> page_size x < 5) (segment_head sample_segs)) \/
     (exists seg', r = seg_addr seg' /\ r <> 0 /\ page_size seg' = 5 /\
                   granted sample_segs s' seg'))).
Proof.
  apply (segment_alloc_grants [] sample_segs 5);
    [apply sample_segs_inv|lia|apply sample_segs_room].
Defined.

Lemma segment_reserve_grants_witness :
  wp (segment_reserve 663552 3) sample_segs (fun r s' => seg_inv [] s' /\
    ((r = 0 /\ s' = sample_segs) \/
     (r = 1 /\ exists seg', base seg' = 663552 /\ page_size seg' = 3 /\
                            granted sample_segs s' seg')) /\
    ((exists x, x ∈ segment_head sample_segs /\ ref_count x = 0 /\ base x <= 663552 /\
        663552 + 3 * PAGE_SIZE <= seg_stop x) ->
     Forall (fun x => ref_count x = 0 -> seg_stop x <> 663552) (segment_head sample_segs) ->
     r = 1)).
Proof.
  apply (segment_reserve_grants [] sample_segs 663552 3);
    [apply sample_segs_inv|lia|lia|done|unfold PAGE_SIZE; lia|apply sample_segs_room].
Defined.

Lemma segment_release_drops_witness :
  wp (segment_release 1100) sample_segs (fun _ s' => seg_inv [] s' /\
    forall p r, page_ref (segment_head s') p r <->
      set_refs (page_ref (segment_head sample_segs)) 224 10 0 p r).
Proof.
  apply (segment_release_drops [] sample_segs seg_last); [apply sample_segs_inv|].
  apply (bool_decide_unpack _). by vm_compute.
Defined.

Lemma segment_free_drops_witness :
  (ref_count seg_unused <> 0 ->
   wp (segment_free 655360) sample_segs (fun _ s' => seg_inv [] s' /\
     forall p r, page_ref (segment_head s') p r <->
       set_refs (page_ref (segment_head sample_segs)) 160 64 (-1) p r)) /\
  (ref_count seg_unused = 0 ->
   segment_free 655360 sample_segs = Done (tt, set_lock true sample_segs) /\
   segment_alloc 7 (set_lock true sample_segs) = Spin).
Proof.
  apply (segment_free_drops [] sample_segs seg_unused 7); [apply sample_segs_inv| |lia].
  apply (bool_decide_unpack _). by vm_compute.
Defined.

(** A range that starts where one free segment ends and lies in the next free
    segment is refused: the search of [segment_reserve] accepts the end address
    of a segment as inside it and stops there.  (Two free segments are adjacent
    when the boot map lists them so: [segment_add] does not merge.) *)
Theorem segment_reserve_boundary :
  exists (s : segs Kmalloc.heap) seg,
    seg_inv [] s /\ room (kheap s) split_room /\ seg ∈ segment_head s /\
    ref_count seg = 0 /\ base seg = 655360 /\ page_size seg = 64 /\
    segment_reserve 655360 1 s = Done (0, s).
Proof.
  exists (set_head [set_ref_count 0 seg_used; seg_unused; seg_last] sample_segs), seg_unused.
  split_and!; try done; [|apply sample_segs_room|apply (bool_decide_unpack _); by vm_compute].
  destruct sample_segs_inv as [_ (Hh & _ & _ & Ho)]. split; [done|]. split_and!; try done.
  - repeat (constructor; [seg_arith|]). constructor.
  - simpl. split_and!; repeat (constructor; [seg_arith|]); constructor.
Qed.

End Segment.
