(* ===== verification/Region.v ===== *)
(** Virtual address ranges of an address space: kernel/core/mem/region.c.

    [regions] holds the regions of one [struct as] in klist order; a region is
    known by the address [reg_addr] of its node, which comes from the kernel
    heap.  The regions always tile the part of the address space they manage,
    and the abstract view is which of its pages are mapped. *)

From S2P Require Import Prelude KHeap Kmalloc.

Module Region.

Record region := {
  reg_addr : Z;
  base : Z;
  page_size : Z;
  mapped : bool;
}.

#[export] Instance region_eq_dec : EqDecision region.
Proof. solve_decision. Defined.

(** base, page_size, mapped and the two list pointers. *)
Definition sizeof_region : Z := 20.

(** include/kernel/arch/i386/arch/mmu.h *)
Definition KERNEL_EXHEAP_START : Z := 3225419776.
Definition KERNEL_EXHEAP_END : Z := KERNEL_BEGIN + (524288 - 8192) / PAGE_SIZE * 4 * 1048576.
Definition KERNEL_EXHEAP_SIZE : Z := KERNEL_EXHEAP_END - KERNEL_EXHEAP_START.

Definition set_range (b n : Z) (r : region) : region :=
  {| reg_addr := reg_addr r; base := b; page_size := n; mapped := mapped r |}.
Definition set_mapped (v : bool) (r : region) : region :=
  {| reg_addr := reg_addr r; base := base r; page_size := page_size r; mapped := v |}.

(** [reg->base + reg->page_size * PAGE_SIZE] *)
Definition reg_end (r : region) : Z := u32 (base r + u32 (page_size r * PAGE_SIZE)).

Section ops.
Context {H : Type} `{KHeap H}.

Record space := {
  region_lock : bool;
  regions : list region;
  kheap : H;
}.

Definition set_lock (b : bool) (s : space) : space :=
  {| region_lock := b; regions := regions s; kheap := kheap s |}.
Definition set_regions (l : list region) (s : space) : space :=
  {| region_lock := region_lock s; regions := l; kheap := kheap s |}.
Definition set_kheap (h : H) (s : space) : space :=
  {| region_lock := region_lock s; regions := regions s; kheap := h |}.

Definition split_before (reg : region) (addr : Z) : M space (list region) :=
  if addr >? base reg then
    let! before := zoom kheap set_kheap (kmalloc sizeof_region) in
    ret [ {| reg_addr := before; base := base reg;
             page_size := u32 (addr - base reg) / PAGE_SIZE; mapped := false |} ]
  else ret [].

Definition split_after (reg : region) (addr pages : Z) : M space (list region) :=
  if u32 (addr + u32 (pages * PAGE_SIZE)) <? reg_end reg then
    let! after := zoom kheap set_kheap (kmalloc sizeof_region) in
    ret [ {| reg_addr := after; base := u32 (addr + u32 (pages * PAGE_SIZE));
             page_size := u32 (page_size reg - u32 (u32 (addr - base reg) / PAGE_SIZE + pages));
             mapped := false |} ]
  else ret [].

Definition region_split (front : list region) (reg : region) (back : list region)
    (addr pages : Z) : M space unit :=
  let! before := split_before reg addr in
  let! after := split_after reg addr pages in
  modify (set_regions (front ++ before ++ set_range addr pages reg :: after ++ back)).

(** A region the loop of [region_reserve] stops at: one that is large enough
    when no address is asked for, the one that holds [addr] otherwise. *)
Definition reserve_stop (addr pages : Z) (reg : region) : bool :=
  negb (mapped reg) &&
  (if addr =? 0 then page_size reg >=? pages
   else (addr >=? base reg) && (addr <? reg_end reg)).

Definition region_reserve (addr pages : Z) : M space Z :=
  let max_range := u32 (addr + u32 (pages * PAGE_SIZE)) in
  spinlock_lock region_lock set_lock ;;;
  let! s := get in
  match list_break (reserve_stop addr pages) (regions s) with
  | Some (front, reg, back) =>
      if addr =? 0 then
        region_split front (set_mapped true reg) back (base reg) pages ;;;
        spinlock_unlock set_lock ;;;
        ret (base reg)
      else if max_range >? reg_end reg then
        spinlock_unlock set_lock ;;;
        ret 0
      else
        region_split front (set_mapped true reg) back addr pages ;;;
        spinlock_unlock set_lock ;;;
        ret addr
  | None =>
      spinlock_unlock set_lock ;;;
      ret 0
  end.

(** The test on the previous region adds the size of [reg], not of [prev]. *)
Definition merge_prev (front : list region) (reg : region) : M space (list region * region) :=
  match rev front with
  | prev :: rest =>
      if negb (mapped prev) && (u32 (base prev + u32 (page_size reg * PAGE_SIZE)) =? base reg) then
        zoom kheap set_kheap (kfree (reg_addr prev)) ;;;
        ret (rev rest, set_range (base prev) (u32 (page_size reg + page_size prev)) reg)
      else ret (front, reg)
  | [] => ret (front, reg)
  end.

Definition merge_next (reg : region) (back : list region) : M space (region * list region) :=
  match back with
  | next :: rest =>
      if negb (mapped next) && (reg_end reg =? base next) then
        zoom kheap set_kheap (kfree (reg_addr next)) ;;;
        ret (set_range (base reg) (u32 (page_size reg + page_size next)) reg, rest)
      else ret (reg, back)
  | [] => ret (reg, back)
  end.

Definition region_merge (front : list region) (reg : region) (back : list region)
    : M space unit :=
  let! '(front, reg) := merge_prev front reg in
  let! '(reg, back) := merge_next reg back in
  modify (set_regions (front ++ reg :: back)).

Definition region_release (addr : Z) : M space unit :=
  spinlock_lock region_lock set_lock ;;;
  let! s := get in
  match list_break (fun reg => base reg =? addr) (regions s) with
  | Some (front, reg, back) =>
      region_merge front (set_mapped false reg) back ;;;
      spinlock_unlock set_lock
  | None => spinlock_unlock set_lock
  end.

(** [kernel]: whether the address space is [kernel_as]. *)
Definition region_initialize (kernel : bool) : M space unit :=
  let! reg := zoom kheap set_kheap (kmalloc sizeof_region) in
  modify (set_regions []) ;;;
  if kernel then
    modify (set_regions [ {| reg_addr := reg; base := KERNEL_BEGIN;
                             page_size := 1024 + KERNEL_EXHEAP_SIZE / PAGE_SIZE;
                             mapped := false |} ]) ;;;
    let! _ := region_reserve KERNEL_BEGIN 1024 in
    ret tt
  else
    modify (set_regions [ {| reg_addr := reg; base := USER_BEGIN;
                             page_size := (KERNEL_BEGIN - USER_BEGIN) / PAGE_SIZE;
                             mapped := false |} ]).

Definition region_dump : M space (list (string * Z * Z * Z)) :=
  let! s := get in
  ret (map (fun reg => ((if mapped reg then "MAPPED" else "FREE")%string, base reg,
                        reg_end reg, page_size reg)) (regions s)).

End ops.
Arguments space : clear implicits.

(** ** Invariant and abstract view *)

Definition reg_stop (r : region) : Z := base r + page_size r * PAGE_SIZE.

Definition reg_ok (r : region) : Prop := base r mod PAGE_SIZE = 0 /\ 0 < page_size r.

Definition in_reg (p : Z) (r : region) : Prop := base r <= p * PAGE_SIZE < reg_stop r.

Definition page_mapped (l : list region) (p : Z) (b : bool) : Prop :=
  exists r, r ∈ l /\ in_reg p r /\ mapped r = b.

(** Pages [first .. first + n) become [v]. *)
Definition set_pages (R : Z -> bool -> Prop) (first n : Z) (v : bool) (p : Z) (b : bool) : Prop :=
  if decide (first <= p < first + n) then b = v else R p b.

(** Arithmetic on the fields of regions. *)
Ltac reg_arith :=
  unfold reg_ok, in_reg, reg_stop, PAGE_SIZE in *; simpl in *;
  Z.to_euclidean_division_equations; lia.

(** [F] lists the nodes of the heap that belong to other components. *)

Section inv.
Context {H : Type} `{KHeap H} (F : list Z).
Implicit Types (s : space H) (reg : region) (l : list region).

Definition list_wf (lo hi : Z) (h : H) l : Prop :=
  heap_ok h /\ Forall reg_ok l /\ tiles base reg_stop lo l hi /\ owned h ((reg_addr <$> l) ++ F) /\
  0 < lo /\ hi < 2 ^ 32.

Definition space_wf (lo hi : Z) s : Prop := list_wf lo hi (kheap s) (regions s).

Definition space_inv (lo hi : Z) s : Prop := region_lock s = false /\ space_wf lo hi s.

Lemma reg_ok_lt l : Forall reg_ok l -> Forall (fun x => base x < reg_stop x) l.
Proof. intros Hf. eapply Forall_impl; [done|]. intros x Hx. reg_arith. Qed.
Lemma reg_ok_le l : Forall reg_ok l -> Forall (fun x => base x <= reg_stop x) l.
Proof. intros Hf. eapply Forall_impl; [done|]. intros x Hx. reg_arith. Qed.

Lemma list_wf_elem lo hi h l reg :
  list_wf lo hi h l -> reg ∈ l -> reg_ok reg /\ lo <= base reg /\ reg_stop reg <= hi /\
  reg_end reg = reg_stop reg.
Proof.
  intros (_ & Hok & Ht & _ & Hlo & Hhi) Hin.
  assert (reg_ok reg) as Hr by (rewrite Forall_forall in Hok; auto).
  destruct (tiles_elem _ _ _ _ _ reg (reg_ok_le _ Hok) Ht Hin) as [??].
  split_and!; [done..|]. unfold reg_end.
  rewrite (u32_small (page_size reg * PAGE_SIZE)) by reg_arith. apply u32_small. reg_arith.
Qed.

Lemma page_mapped_app l1 l2 p b :
  page_mapped (l1 ++ l2) p b <-> page_mapped l1 p b \/ page_mapped l2 p b.
Proof. unfold page_mapped. set_solver. Qed.

Lemma page_mapped_cons x l p b :
  page_mapped (x :: l) p b <-> (in_reg p x /\ mapped x = b) \/ page_mapped l p b.
Proof. unfold page_mapped. set_solver. Qed.

(** The pages of a tiled range, when all its regions have the same state. *)
Lemma page_mapped_pieces l lo hi v p b :
  Forall (fun x => mapped x = v) l -> tiles base reg_stop lo l hi -> Forall reg_ok l ->
  page_mapped l p b <-> lo <= p * PAGE_SIZE < hi /\ b = v.
Proof.
  intros Hm Ht Hok. rewrite Forall_forall in Hm. split.
  - intros (x & Hx & Hin & <-).
    pose proof (tiles_elem _ _ _ _ _ x (reg_ok_le _ Hok) Ht Hx). unfold in_reg in Hin.
    split; [lia|by apply Hm].
  - intros [Hp ->]. destruct (tiles_cover _ _ _ _ _ _ Ht Hp) as (x & Hx & Hin).
    exists x. split_and!; [done..|]. by apply Hm.
Qed.

Lemma page_mapped_range l lo hi p b :
  tiles base reg_stop lo l hi -> Forall reg_ok l -> page_mapped l p b -> lo <= p * PAGE_SIZE < hi.
Proof.
  intros Ht Hok (x & Hx & Hin & _).
  pose proof (tiles_elem _ _ _ _ _ x (reg_ok_le _ Hok) Ht Hx). unfold in_reg in Hin. lia.
Qed.

(** ** Splitting *)

Lemma reg_split_before_ok s reg addr b :
  heap_ok (kheap s) -> room (kheap s) (sizeof_region + KMALLOC_OVERHEAD + b) ->
  b = 0 \/ KMALLOC_OVERHEAD < b ->
  reg_ok reg -> 0 <= base reg <= addr -> addr < 2 ^ 32 -> addr mod PAGE_SIZE = 0 ->
  wp (split_before reg addr) s (fun ps s' => exists h', s' = set_kheap h' s /\
    heap_ok h' /\ room h' b /\
    (forall al, owned (kheap s) al -> owned h' ((reg_addr <$> ps) ++ al)) /\
    Forall reg_ok ps /\ Forall (fun x => mapped x = false) ps /\
    tiles base reg_stop (base reg) ps addr).
Proof.
  intros Hh Hr Hb Hs Ha Hmax Hal. unfold split_before.
  destruct (Z.gtb_spec addr (base reg)) as [Hgt|Hle].
  - step. eapply wp_kmalloc_owned; [done..|]. intros p h' Hh' Hp Ho Hr'. step.
    exists h'. rewrite u32_small by reg_arith. split_and!; try done.
    + constructor; [|constructor]. reg_arith.
    + by constructor.
    + reg_arith.
  - step. exists (kheap s). split_and!; try done.
    + by destruct s.
    + eapply room_mono; [done|]. unfold sizeof_region, KMALLOC_OVERHEAD. lia.
    + simpl. lia.
Qed.

Lemma reg_split_after_ok s reg addr pages b :
  heap_ok (kheap s) -> room (kheap s) (sizeof_region + KMALLOC_OVERHEAD + b) ->
  b = 0 \/ KMALLOC_OVERHEAD < b ->
  reg_ok reg -> reg_end reg = reg_stop reg -> reg_stop reg < 2 ^ 32 ->
  0 <= base reg <= addr -> 0 <= pages ->
  addr + pages * PAGE_SIZE <= reg_stop reg -> addr mod PAGE_SIZE = 0 ->
  wp (split_after reg addr pages) s (fun ps s' => exists h', s' = set_kheap h' s /\
    heap_ok h' /\ room h' b /\
    (forall al, owned (kheap s) al -> owned h' ((reg_addr <$> ps) ++ al)) /\
    Forall reg_ok ps /\ Forall (fun x => mapped x = false) ps /\
    tiles base reg_stop (addr + pages * PAGE_SIZE) ps (reg_stop reg)).
Proof.
  intros Hh Hr Hb Hs Hend Hmax Ha Hpg Hle Hal. unfold split_after. rewrite Hend.
  rewrite (u32_small (pages * PAGE_SIZE)) by reg_arith.
  rewrite (u32_small (addr + pages * PAGE_SIZE)) by reg_arith.
  rewrite (u32_small (addr - base reg)) by reg_arith.
  rewrite (u32_small ((addr - base reg) / PAGE_SIZE + pages)) by reg_arith.
  rewrite u32_small by reg_arith.
  destruct (Z.ltb_spec (addr + pages * PAGE_SIZE) (reg_stop reg)) as [Hlt|Hge].
  - step. eapply wp_kmalloc_owned; [done..|]. intros p h' Hh' Hp Ho Hr'. step.
    exists h'. split_and!; try done.
    + constructor; [|constructor]. reg_arith.
    + by constructor.
    + reg_arith.
  - step. exists (kheap s). split_and!; try done.
    + by destruct s.
    + eapply room_mono; [done|]. unfold sizeof_region, KMALLOC_OVERHEAD. lia.
    + simpl. lia.
Qed.

(** Room for the two nodes a split may create. *)
Definition split_room : Z := 2 * (sizeof_region + KMALLOC_OVERHEAD).

(** The pages of a list in which one region has been replaced by pieces of it:
    free ones around a mapped one. *)
Lemma pieces_pages lo hi front reg back lb reg' la p b :
  tiles base reg_stop lo front (base reg) -> Forall reg_ok front ->
  tiles base reg_stop (reg_stop reg) back hi -> Forall reg_ok back ->
  tiles base reg_stop (base reg) lb (base reg') -> Forall reg_ok lb ->
  tiles base reg_stop (reg_stop reg') la (reg_stop reg) -> Forall reg_ok la ->
  Forall (fun x => mapped x = false) lb -> Forall (fun x => mapped x = false) la ->
  reg_ok reg' -> mapped reg' = true -> mapped reg = false ->
  page_mapped (front ++ lb ++ reg' :: la ++ back) p b <->
  set_pages (page_mapped (front ++ reg :: back)) (base reg' / PAGE_SIZE) (page_size reg') true p b.
Proof.
  intros Htf Hokf Htk Hokk Htb Hokb Hta Hoka Hmb Hma Hr' Hm' Hm.
  assert (in_reg p reg' <-> base reg' / PAGE_SIZE <= p < base reg' / PAGE_SIZE + page_size reg')
    as Hin by reg_arith.
  pose proof (tiles_le _ _ _ _ _ (reg_ok_le _ Hokb) Htb) as Hle1.
  pose proof (tiles_le _ _ _ _ _ (reg_ok_le _ Hoka) Hta) as Hle2.
  assert (in_reg p reg <-> base reg <= p * PAGE_SIZE < base reg' \/ in_reg p reg' \/
          reg_stop reg' <= p * PAGE_SIZE < reg_stop reg) as Hreg by reg_arith.
  rewrite !page_mapped_app, !page_mapped_cons, !page_mapped_app.
  rewrite (page_mapped_pieces lb _ _ false), (page_mapped_pieces la _ _ false) by done.
  rewrite Hm'. unfold set_pages. case_decide as Hd.
  - apply Hin in Hd. pose proof (page_mapped_range front lo (base reg) p b Htf Hokf) as Hf.
    pose proof (page_mapped_range back (reg_stop reg) hi p b Htk Hokk) as Hk.
    split.
    + intros [Hp|[Hp|[[_ <-]|[Hp|Hp]]]]; [apply Hf in Hp|destruct Hp as [Hp _]|done|destruct Hp as [Hp _]|apply Hk in Hp];
        reg_arith.
    + intros ->. auto.
  - rewrite <-Hin in Hd. rewrite page_mapped_app, page_mapped_cons, Hm, Hreg. intuition.
Qed.

Lemma region_split_ok lo hi s front reg back addr pages b :
  list_wf lo hi (kheap s) (front ++ reg :: back) -> room (kheap s) (split_room + b) ->
  b = 0 \/ KMALLOC_OVERHEAD < b ->
  mapped reg = false -> base reg <= addr -> addr mod PAGE_SIZE = 0 -> 0 < pages ->
  addr + pages * PAGE_SIZE <= reg_stop reg ->
  wp (region_split front (set_mapped true reg) back addr pages) s (fun _ s' =>
    region_lock s' = region_lock s /\ space_wf lo hi s' /\ room (kheap s') b /\
    (exists reg', reg' ∈ regions s' /\ base reg' = addr /\ page_size reg' = pages /\ mapped reg' = true) /\
    (forall x, x ∈ front ++ back -> x ∈ regions s') /\
    forall p b, page_mapped (regions s') p b <->
      set_pages (page_mapped (front ++ reg :: back)) (addr / PAGE_SIZE) pages true p b).
Proof.
  intros Hwf Hroom Hb Hm Ha Hal Hpg Hst.
  destruct (list_wf_elem lo hi _ _ reg Hwf) as (Hr & Hlo & Hhi & Hend); [set_solver|].
  destruct Hwf as (Hh & Hok & Ht & Ho & Hlo0 & Hhi0).
  apply Forall_app in Hok as [Hokf [_ Hokk]%Forall_cons].
  apply tiles_middle in Ht as [Htf Htk].
  unfold region_split. step.
  eapply wp_mono; [apply (reg_split_before_ok _ _ _ (sizeof_region + KMALLOC_OVERHEAD + b))|].
  1: done.
  1: by rewrite Z.add_assoc.
  1: right; unfold KMALLOC_OVERHEAD, sizeof_region in *; lia.
  1-4: done || reg_arith.
  intros lb s1 (h1 & -> & Hh1 & Hr1 & Ho1 & Hokb & Hmb & Htb).
  step. eapply wp_mono; [apply (reg_split_after_ok _ _ _ _ b); done || reg_arith|].
  intros la s2 (h2 & -> & Hh2 & Hr2 & Ho2 & Hoka & Hma & Hta). step.
  set (reg' := set_range addr pages _) in *. simpl in Htb, Hta.
  assert (reg_ok reg') as Hr' by reg_arith.
  split_and!; [done| |done| | |].
  - split_and!; simpl; try done.
    + rewrite !Forall_app, Forall_cons, Forall_app. done.
    + apply tiles_app. exists (base reg). split; [done|]. apply tiles_middle. split; [done|].
      apply tiles_app. exists (reg_stop reg). done.
    + eapply owned_perm; [|by apply Ho2, Ho1]. rewrite !fmap_app, !fmap_cons, !fmap_app.
      simpl. solve_Permutation.
  - exists reg'. simpl. split_and!; [set_solver|done..].
  - simpl. set_solver.
  - intros p b0. by apply (pieces_pages lo hi front reg back lb reg' la).
Qed.

(** ** Release *)

Lemma reg_merged_wf lo hi h h' l1 x y z l2 v :
  list_wf lo hi h (l1 ++ x :: y :: l2) ->
  mapped x = v -> mapped y = v -> mapped z = v ->
  base z = base x -> page_size z = page_size x + page_size y ->
  heap_ok h' -> owned h' ((reg_addr <$> l1 ++ z :: l2) ++ F) ->
  list_wf lo hi h' (l1 ++ z :: l2) /\
  forall p b, page_mapped (l1 ++ z :: l2) p b <-> page_mapped (l1 ++ x :: y :: l2) p b.
Proof.
  intros (_ & Hok & Ht & _ & Hlo & Hhi) Hx Hy Hz Hb Hp Hh' Ho'.
  rewrite Forall_app, !Forall_cons in Hok. destruct Hok as (Hok1 & Hxok & Hyok & Hok2).
  apply tiles_middle in Ht as [Ht1 [Hxy Ht2]].
  assert (reg_ok z) as Hzok by reg_arith.
  assert (reg_stop z = reg_stop y) as Hstop by reg_arith.
  split.
  - split_and!; try done.
    + rewrite Forall_app, Forall_cons. done.
    + apply tiles_middle. by rewrite Hb, Hstop.
  - intros p b. rewrite !page_mapped_app, !page_mapped_cons, Hx, Hy, Hz.
    assert (in_reg p z <-> in_reg p x \/ in_reg p y) as -> by reg_arith. tauto.
Qed.

(** Merging two free regions keeps the mapped ones. *)
Lemma reg_merged_kept l1 x y z l2 w :
  mapped x = false -> mapped y = false -> w ∈ l1 ++ x :: y :: l2 -> mapped w = true ->
  w ∈ l1 ++ z :: l2.
Proof.
  intros Hx Hy Hw Hm. rewrite elem_of_app, !elem_of_cons in *.
  destruct Hw as [|[->|[->|]]]; [auto|congruence..|auto].
Qed.

Lemma reg_merge_next_ok lo hi s front reg back :
  list_wf lo hi (kheap s) (front ++ reg :: back) -> mapped reg = false ->
  wp (merge_next reg back) s (fun '(reg', back') s' => exists h', s' = set_kheap h' s /\
    list_wf lo hi h' (front ++ reg' :: back') /\
    (forall b, room (kheap s) b -> room h' b) /\
    (forall x, x ∈ front ++ reg :: back -> mapped x = true -> x ∈ front ++ reg' :: back') /\
    forall p b, page_mapped (front ++ reg' :: back') p b <-> page_mapped (front ++ reg :: back) p b).
Proof.
  intros Hwf Hm. unfold merge_next. destruct back as [|next rest].
  { step. exists (kheap s). by destruct s. }
  destruct (list_wf_elem lo hi _ _ reg Hwf) as (Hr & Hrlo & Hrhi & Hend); [set_solver|].
  destruct (list_wf_elem lo hi _ _ next Hwf) as (Hn & Hnlo & Hnhi & _); [set_solver|].
  rewrite Hend. destruct (mapped next) eqn:Hmn; simpl.
  { step. exists (kheap s). by destruct s. }
  destruct (Z.eqb_spec (reg_stop reg) (base next)) as [Hadj|].
  2:{ step. exists (kheap s). by destruct s. }
  pose proof Hwf as (Hh & _ & _ & Ho & Hlo & Hhi).
  step. eapply wp_kfree_owned; [done| |].
  { eapply owned_live; [done|]. apply elem_of_app. left. apply list_elem_of_fmap_2. set_solver. }
  intros h' Hh' Ho' Hr'. step. exists h'. split; [done|].
  rewrite u32_small by reg_arith.
  destruct (reg_merged_wf lo hi (kheap s) h' front reg next
              (set_range (base reg) (page_size reg + page_size next) reg) rest false) as [??]; try done.
  2: split_and!; try done; intros w Hw Hwm; by eapply reg_merged_kept; [| |exact Hw|].
  apply Ho'. eapply owned_perm; [|done]. rewrite !fmap_app, !fmap_cons. simpl. solve_Permutation.
Qed.

Lemma reg_merge_prev_ok lo hi s front reg back :
  list_wf lo hi (kheap s) (front ++ reg :: back) -> mapped reg = false ->
  wp (merge_prev front reg) s (fun '(front', reg') s' => exists h', s' = set_kheap h' s /\
    list_wf lo hi h' (front' ++ reg' :: back) /\
    (forall b, room (kheap s) b -> room h' b) /\ mapped reg' = false /\
    (forall x, x ∈ front ++ reg :: back -> mapped x = true -> x ∈ front' ++ reg' :: back) /\
    forall p b, page_mapped (front' ++ reg' :: back) p b <-> page_mapped (front ++ reg :: back) p b).
Proof.
  intros Hwf Hm. unfold merge_prev.
  destruct front as [|prev front _] using rev_ind; [simpl|rewrite rev_app_distr; simpl].
  { step. exists (kheap s). by destruct s. }
  rewrite rev_involutive. rewrite <-app_assoc in *. simpl in *.
  destruct (list_wf_elem lo hi _ _ reg Hwf) as (Hr & Hrlo & Hrhi & _); [set_solver|].
  destruct (list_wf_elem lo hi _ _ prev Hwf) as (Hp & Hplo & Hphi & _); [set_solver|].
  destruct (mapped prev) eqn:Hmp; simpl.
  { step. exists (kheap s). rewrite <-app_assoc. by destruct s. }
  destruct (_ =? base reg) eqn:Hadj.
  2:{ step. exists (kheap s). rewrite <-app_assoc. by destruct s. }
  pose proof Hwf as (Hh & _ & _ & Ho & Hlo & Hhi).
  step. eapply wp_kfree_owned; [done| |].
  { eapply owned_live; [done|]. apply elem_of_app. left. apply list_elem_of_fmap_2. set_solver. }
  intros h' Hh' Ho' Hr'. step. exists h'. split; [done|].
  assert (reg_stop prev = base reg) as Hpr.
  { destruct Hwf as (_ & _ & Ht & _). apply tiles_middle in Ht as [_ [? _]]. done. }
  rewrite (u32_small (page_size reg + page_size prev)) by reg_arith.
  destruct (reg_merged_wf lo hi (kheap s) h' front prev reg
     (set_range (base prev) (page_size reg + page_size prev) reg) back false) as [??];
    try done; [simpl; lia| |].
  2: split_and!; try done; intros w Hw Hwm; by eapply reg_merged_kept; [| |exact Hw|].
  apply Ho'. eapply owned_perm; [|done]. rewrite !fmap_app, !fmap_cons. simpl. solve_Permutation.
Qed.

(** One region changes state. *)
Lemma set_mapped_wf lo hi h front reg back v :
  list_wf lo hi h (front ++ reg :: back) ->
  list_wf lo hi h (front ++ set_mapped v reg :: back) /\
  forall p b, page_mapped (front ++ set_mapped v reg :: back) p b <->
    set_pages (page_mapped (front ++ reg :: back)) (base reg / PAGE_SIZE) (page_size reg) v p b.
Proof.
  intros (Hh & Hok & Ht & Ho & Hlo & Hhi).
  rewrite Forall_app, !Forall_cons in Hok. destruct Hok as (Hok1 & Hr & Hok2).
  pose proof Ht as [Ht1 Ht2]%tiles_middle. split.
  - split_and!; try done.
    + rewrite Forall_app, Forall_cons. done.
    + by apply tiles_middle.
    + rewrite fmap_app, fmap_cons in *. done.
  - intros p b. unfold set_pages.
    assert (in_reg p reg <-> base reg / PAGE_SIZE <= p < base reg / PAGE_SIZE + page_size reg)
      as Hin by reg_arith.
    pose proof (page_mapped_range front lo (base reg) p b Ht1 Hok1) as Hf.
    pose proof (page_mapped_range back (reg_stop reg) hi p b Ht2 Hok2) as Hk.
    rewrite !page_mapped_app, !page_mapped_cons.
    change (in_reg p (set_mapped v reg)) with (in_reg p reg).
    change (mapped (set_mapped v reg)) with v. case_decide as Hd.
    + apply Hin in Hd. split; [|intros ->; auto].
      intros [Hp|[[_ <-]|Hp]]; [apply Hf in Hp|done|apply Hk in Hp]; reg_arith.
    + rewrite <-Hin in Hd. rewrite page_mapped_app, page_mapped_cons. tauto.
Qed.

Lemma reg_set_lock_same s : region_lock s = false -> set_lock false (set_lock true s) = s.
Proof. destruct s. simpl. by intros ->. Qed.

(** What a successful reservation of [pages] pages at [r] means. *)
Definition reserved (lo hi : Z) s s' (r pages : Z) : Prop :=
  lo <= r /\ r + pages * PAGE_SIZE <= hi /\ r mod PAGE_SIZE = 0 /\
  (forall p, r / PAGE_SIZE <= p < r / PAGE_SIZE + pages -> page_mapped (regions s) p false) /\
  (forall p b, page_mapped (regions s') p b <->
     set_pages (page_mapped (regions s)) (r / PAGE_SIZE) pages true p b) /\
  (exists reg, reg ∈ regions s' /\ base reg = r /\ page_size reg = pages /\ mapped reg = true) /\
  (forall x, x ∈ regions s -> mapped x = true -> x ∈ regions s').

Lemma reserve_split lo hi s front reg back addr pages b :
  space_inv lo hi s -> regions s = front ++ reg :: back -> room (kheap s) (split_room + b) ->
  b = 0 \/ KMALLOC_OVERHEAD < b ->
  mapped reg = false -> base reg <= addr -> addr mod PAGE_SIZE = 0 -> 0 < pages ->
  addr + pages * PAGE_SIZE <= reg_stop reg ->
  wp (region_split front (set_mapped true reg) back addr pages ;;;
      spinlock_unlock set_lock ;;; ret addr) (set_lock true s)
     (fun r s' => space_inv lo hi s' /\ r = addr /\ reserved lo hi s s' r pages /\ room (kheap s') b).
Proof.
  intros [Hlk Hwf] Heq Hroom Hb Hm Ha Hal Hpg Hst.
  destruct (list_wf_elem lo hi _ _ reg Hwf) as (Hr & Hlo & Hhi & _); [rewrite Heq; set_solver|].
  pose proof Hwf as Hwf'. unfold space_wf in Hwf'. rewrite Heq in Hwf'.
  step. eapply wp_mono; [by apply (region_split_ok lo hi _ _ _ _ _ _ b)|].
  intros _ s' (Hlk' & Hwf'' & Hr' & Hnew & Hkept & Hp). step. step. step. split_and!; try done.
  split_and!; try done; try lia.
  - intros p Hpp. exists reg. rewrite Heq. split_and!; [set_solver|reg_arith|done].
  - intros p b0. simpl. rewrite Hp, Heq. done.
  - intros x Hx Hxm. apply Hkept. rewrite Heq in Hx.
    apply elem_of_app in Hx as [?|[->|?]%elem_of_cons]; [set_solver|congruence|set_solver].
Qed.

(** ** Properties *)

Lemma region_reserve_ok lo hi s addr pages b :
  space_inv lo hi s -> 0 < pages -> 0 <= addr -> addr mod PAGE_SIZE = 0 ->
  addr + pages * PAGE_SIZE < 2 ^ 32 -> room (kheap s) (split_room + b) ->
  b = 0 \/ KMALLOC_OVERHEAD < b ->
  wp (region_reserve addr pages) s (fun r s' => space_inv lo hi s' /\
    ((r <> 0 /\ (addr <> 0 -> r = addr) /\ reserved lo hi s s' r pages /\ room (kheap s') b) \/
     (r = 0 /\ s' = s /\
      Forall (fun x => mapped x = false ->
        if addr =? 0 then page_size x < pages
        else ~ (base x <= addr /\ addr + pages * PAGE_SIZE <= reg_stop x)) (regions s)))).
Proof.
  intros Hinv Hpg Ha Hal Hmax Hroom Hb0. pose proof Hinv as [Hlk Hwf]. unfold region_reserve.
  rewrite (u32_small (pages * PAGE_SIZE)) by reg_arith. rewrite u32_small by reg_arith.
  step. apply wp_lock; [done|]. step. step. simpl.
  destruct (list_break _ _) as [[[front reg] back]|] eqn:E.
  - apply list_break_Some in E as (Heq & Hstop & _). unfold reserve_stop in Hstop.
    destruct (list_wf_elem lo hi _ _ reg Hwf) as (Hr & Hlo & Hhi & Hend); [rewrite Heq; set_solver|].
    assert (0 < lo) by apply Hwf. rewrite Hend in *.
    apply andb_prop in Hstop as [Hm Hstop]. apply negb_true_iff in Hm.
    destruct (Z.eqb_spec addr 0) as [->|Hne].
    + rewrite Z.geb_leb in Hstop. apply Z.leb_le in Hstop.
      eapply wp_mono; [apply (reserve_split lo hi s front reg back _ _ b); try done; reg_arith|].
      intros r s' (Hi' & -> & Hres & Hr'). split; [done|]. left. split_and!; [lia|done..].
    + apply andb_prop in Hstop as [Hge Hlt]. rewrite Z.geb_leb in Hge.
      apply Z.leb_le in Hge. apply Z.ltb_lt in Hlt.
      destruct (Z.gtb_spec (addr + pages * PAGE_SIZE) (reg_stop reg)) as [Hgt|Hfit].
      * step. step. step. rewrite reg_set_lock_same by done. split; [done|]. right. split_and!; [done..|].
        apply Forall_forall. intros x Hx Hxm [Hxb Hxs].
        destruct Hwf as (_ & Hok & Ht & _). rewrite Heq in Hx, Hok, Ht.
        apply elem_of_app in Hx as [Hx|[->|Hx]%elem_of_cons]; [|lia|].
        -- assert (x ∈ front ++ back) as Hx' by set_solver.
           pose proof (tiles_disjoint _ _ _ _ _ _ _ x (reg_ok_le _ Hok) Ht Hx'). lia.
        -- assert (x ∈ front ++ back) as Hx' by set_solver.
           pose proof (tiles_disjoint _ _ _ _ _ _ _ x (reg_ok_le _ Hok) Ht Hx'). lia.
      * eapply wp_mono; [by apply (reserve_split lo hi s front reg back _ _ b)|].
        intros r s' (Hi' & -> & Hres & Hr'). split; [done|]. by left.
  - apply list_break_None in E. step. step. step. rewrite reg_set_lock_same by done.
    split; [done|]. right. split_and!; [done..|].
    rewrite Forall_forall in E. apply Forall_forall. intros x Hx Hxm. specialize (E x Hx).
    destruct (list_wf_elem lo hi _ _ x Hwf Hx) as (Hr & _ & _ & Hend).
    unfold reserve_stop in E. rewrite Hxm, Hend in E. simpl in E.
    destruct (Z.eqb_spec addr 0) as [->|Hne]; [rewrite Z.geb_leb in E; by apply Z.leb_gt in E|].
    intros [Hxb Hxs]. rewrite Z.geb_leb, (proj2 (Z.leb_le _ _) Hxb) in E.
    apply Z.ltb_ge in E. reg_arith.
Qed.


Lemma region_release_ok lo hi s addr :
  space_inv lo hi s ->
  wp (region_release addr) s (fun _ s' => space_inv lo hi s' /\
    (forall b, room (kheap s) b -> room (kheap s') b) /\
    (forall x, x ∈ regions s -> mapped x = true -> base x <> addr -> x ∈ regions s') /\
    ((exists reg, reg ∈ regions s /\ base reg = addr /\
        forall p b, page_mapped (regions s') p b <->
          set_pages (page_mapped (regions s)) (addr / PAGE_SIZE) (page_size reg) false p b) \/
     (Forall (fun reg => base reg <> addr) (regions s) /\ s' = s))).
Proof.
  intros [Hlk Hwf]. unfold region_release. step. apply wp_lock; [done|]. step. step. simpl.
  destruct (list_break _ _) as [[[front reg] back]|] eqn:E.
  - apply list_break_Some in E as (Heq & Hb & _). apply Z.eqb_eq in Hb. subst addr.
    pose proof Hwf as Hwf'. unfold space_wf in Hwf'. rewrite Heq in Hwf'.
    destruct (set_mapped_wf lo hi (kheap s) front reg back false Hwf') as [Hwf1 Hp1].
    step. unfold region_merge.
    step. eapply wp_mono; [by apply (reg_merge_prev_ok lo hi (set_lock true s) front _ back)|].
    intros [front' reg'] s1 (h1 & -> & Hwf2 & Hr2 & Hm2 & Hk2 & Hp2).
    step. eapply wp_mono; [by apply (reg_merge_next_ok lo hi _ front' reg' back)|].
    intros [reg'' back'] s2 (h2 & -> & Hwf3 & Hr3 & Hk3 & Hp3). step. step.
    split_and!; [by split|by intros b ?%Hr2%Hr3| |left; exists reg].
    { intros x Hx Hxm Hne. apply Hk3; [|done]. apply Hk2; [|done]. rewrite Heq in Hx. set_solver. }
    split_and!; [rewrite Heq; set_solver|done|].
    intros p b. simpl. rewrite Hp3, Hp2, Hp1, Heq. done.
  - apply list_break_None in E. step. rewrite reg_set_lock_same by done. split_and!; [by split|done..|]. right.
    split; [|done]. eapply Forall_impl; [done|]. intros x Hx. by apply Z.eqb_neq.
Qed.

(** [region_release] unmaps exactly the pages of the region that starts at
    the given address, and changes nothing when no region starts there; the
    merging that follows keeps the state of every page and the tiling of the
    address space. *)
Theorem region_release_unmaps lo hi s addr :
  space_inv lo hi s ->
  wp (region_release addr) s (fun _ s' => space_inv lo hi s' /\
    ((exists reg, reg ∈ regions s /\ base reg = addr /\
        forall p b, page_mapped (regions s') p b <->
          set_pages (page_mapped (regions s)) (addr / PAGE_SIZE) (page_size reg) false p b) \/
     (Forall (fun reg => base reg <> addr) (regions s) /\ s' = s))).
Proof.
  intros Hinv. eapply wp_mono; [by apply region_release_ok|]. by intros _ s' (? & _ & _ & ?).
Qed.

(** The initial address spaces: everything free for a user one, the first 1024
    pages taken for the kernel's. *)
Lemma region_initialize_user s :
  region_lock s = false -> heap_ok (kheap s) -> owned (kheap s) F ->
  room (kheap s) (sizeof_region + KMALLOC_OVERHEAD) ->
  wp (region_initialize false) s (fun _ s' => space_inv USER_BEGIN KERNEL_BEGIN s' /\
    forall p b, page_mapped (regions s') p b <->
                USER_BEGIN <= p * PAGE_SIZE < KERNEL_BEGIN /\ b = false).
Proof.
  intros Hlk Hh HF Hr. unfold region_initialize. step.
  eapply (wp_kmalloc_owned _ _ _ _ 0); [done|done|by left|by rewrite Z.add_0_r|].
  intros a h' Hh' Ha Ho _. step. step. step. split.
  - split; [done|]. split_and!; try done.
    + constructor; [|constructor]. unfold KERNEL_BEGIN, USER_BEGIN. split; done.
    + by apply Ho.
  - intros p b. apply page_mapped_pieces; [by repeat constructor|done|].
    constructor; [|constructor]. done.
Qed.

Lemma region_initialize_kernel s :
  region_lock s = false -> heap_ok (kheap s) -> owned (kheap s) F ->
  room (kheap s) (sizeof_region + KMALLOC_OVERHEAD + split_room) ->
  wp (region_initialize true) s (fun _ s' => space_inv KERNEL_BEGIN KERNEL_EXHEAP_END s' /\
    forall p b, page_mapped (regions s') p b <->
      set_pages (fun p b => KERNEL_BEGIN <= p * PAGE_SIZE < KERNEL_EXHEAP_END /\ b = false)
        (KERNEL_BEGIN / PAGE_SIZE) 1024 true p b).
Proof.
  intros Hlk Hh HF Hr. unfold region_initialize. step.
  eapply (wp_kmalloc_owned _ _ _ _ split_room); [done|done|by right|done|].
  intros a h' Hh' Ha Ho Hr'. step. step. step. step. step.
  set (s1 := set_regions _ _). set (reg := {| reg_addr := a |}) in s1.
  assert (space_inv KERNEL_BEGIN KERNEL_EXHEAP_END s1) as Hinv.
  { split; [done|]. split_and!; try done.
    - constructor; [|constructor]. done.
    - by apply Ho. }
  apply wp_bind, wp_get.
  change (list_break _ _) with (Some ([] : list region, reg, [] : list region)).
  change (if KERNEL_BEGIN =? 0 then _ else ?x) with x. cbv iota.
  change (u32 (KERNEL_BEGIN + u32 (1024 * PAGE_SIZE)) >? reg_end reg) with false. cbv iota.
  eapply wp_mono; [apply (reserve_split KERNEL_BEGIN KERNEL_EXHEAP_END s1 [] reg [] _ _ 0); first [done | by left | by rewrite Z.add_0_r]|].
  intros r s' (Hinv' & -> & Hres & _). step. split; [done|]. intros p b.
  destruct Hres as (_ & _ & _ & _ & -> & _). unfold set_pages. case_decide; [done|].
  apply page_mapped_pieces; [by repeat constructor|done|apply Hinv].
Qed.
End inv.

(** ** A small address space *)

#[local] Existing Instance Kmalloc.kmalloc_kheap.

Definition sample_heap : Kmalloc.heap := {|
  Kmalloc.kmalloc_lock := false;
  Kmalloc.kmalloc_head :=
    [ {| Kmalloc.bk_addr := 1000; Kmalloc.bk_ptr := 1020; Kmalloc.bk_size := 20; Kmalloc.bk_free := false |};
      {| Kmalloc.bk_addr := 1040; Kmalloc.bk_ptr := 1060; Kmalloc.bk_size := 400; Kmalloc.bk_free := true |} ];
  Kmalloc.mem := ∅ |}.

(** Ten free pages from address 4096. *)
Definition sample_space : space Kmalloc.heap := {|
  region_lock := false;
  regions := [ {| reg_addr := 1020; base := 4096; page_size := 10; mapped := false |} ];
  kheap := sample_heap |}.

Lemma sample_space_inv : space_inv [] 4096 45056 sample_space.
Proof.
  split; [done|]. split_and!; try done.
  - exists 1000, 1460. split_and!; try done.
    repeat (constructor; [split; simpl; Kmalloc.blk_arith|]). constructor.
  - repeat constructor.
  - split; [apply (bool_decide_unpack _); by vm_compute|].
    intros a Ha. simpl in Ha. rewrite !elem_of_cons, elem_of_nil in Ha.
    destruct Ha as [->|[]]; (split; [lia|]); vm_compute; eauto.
Qed.

Lemma sample_space_room : room (kheap sample_space) split_room.
Proof.
  right. eexists. split_and!; [apply list_elem_of_further, list_elem_of_here|done|].
  unfold split_room, sizeof_region. Kmalloc.blk_arith.
Qed.


Lemma region_release_unmaps_witness :
  wp (region_release 4096) sample_space (fun _ s' => space_inv [] 4096 45056 s' /\
    ((exists reg, reg ∈ regions sample_space /\ base reg = 4096 /\
        forall p b, page_mapped (regions s') p b <->
          set_pages (page_mapped (regions sample_space)) 1 (page_size reg) false p b) \/
     (Forall (fun reg => base reg <> 4096) (regions sample_space) /\ s' = sample_space))).
Proof. apply (region_release_unmaps [] 4096 45056 sample_space 4096), sample_space_inv. Defined.

(** Releasing everything does not give the address space back: [region_merge]
    looks for the previous region at the distance of the size of the released
    one, so two free neighbours of different sizes stay apart.  From ten free
    pages, after reserving 3 and 2 pages and releasing both, all ten pages are
    free again and a request for ten pages fails. *)
Theorem region_merge_fragments :
  (forall p, 1 <= p < 11 -> page_mapped (regions sample_space) p false) /\
  wp (let! a := region_reserve 0 3 in
      let! b := region_reserve 0 2 in
      region_release a ;;;
      region_release b ;;;
      region_reserve 0 10) sample_space (fun r s' =>
    (forall p, 1 <= p < 11 -> page_mapped (regions s') p false) /\ r = 0).
Proof.
  split.
  - intros p Hp. eexists. split; [apply list_elem_of_here|]. split; [|done]. reg_arith.
  - wp_eval. split; [|done]. intros p Hp. simpl.
    destruct (decide (p < 4)).
    + eexists. split; [apply list_elem_of_here|]. split; [|done]. reg_arith.
    + eexists. split; [apply list_elem_of_further, list_elem_of_here|]. split; [|done].
      reg_arith.
Qed.

End Region.
