(* ===== verification/Mmu.v ===== *)
(** Page tables of i386: kernel/arch/i386/mmu.c, with the state of the address
    spaces (include/kernel/mem/as.h) that As.v works on.

    The hardware is the function [walk]: the two-level translation of a virtual
    address with the directory the register [cr3] points to.  [phys] gives the
    32-bit word at every physical address that is a multiple of four.  The code
    reaches the directory and the tables through the last entry of the
    directory, which points to the directory itself; all its accesses go through
    [walk], and an access to a page that is not present is a page fault of the
    kernel ([undef]).  There is no translation cache in the model, so
    [cpu_invalid_page] and [cpu_flush_tlb] do nothing; the access rights of an
    entry do not restrict the kernel.

    The abstract view of a directory is [pte]: the entry of every virtual page,
    0 where there is none. *)

From S2P Require Import Prelude KHeap Kmalloc Segment Region.

Module Mmu.

Definition PD_PRESENT : Z := 1.
Definition PD_WRITE : Z := 2.
Definition PD_USER : Z := 4.
Definition PD_4MB : Z := 128.

Definition AS_MAP_USER : Z := 1.
Definition AS_MAP_WRITE : Z := 4.
Definition AS_MAP_EXEC : Z := 8.

(** Where the directory and the tables are seen. *)
Definition PD_MIRROR : Z := 4294963200.
Definition PT_MIRROR : Z := 4290772992.

(** A [struct as *]: the kernel's static one or one from the heap. *)
Inductive as_ptr :=
| KernelAs
| UserAs (p : Z).

#[export] Instance as_ptr_eq_dec : EqDecision as_ptr.
Proof. solve_decision. Defined.

Record as_mapping := {
  map_addr : Z;
  virt : Z;
  phy : Z;
  size : Z;
  map_flags : Z;
}.

#[export] Instance as_mapping_eq_dec : EqDecision as_mapping.
Proof. solve_decision. Defined.

(** A [struct as]; [as_cr3] is the field [arch.cr3]. *)
Record as_t := {
  region_lock : bool;
  regions : list Region.region;
  map_lock : bool;
  mapping : list as_mapping;
  as_cr3 : Z;
}.

(** ** The page walk *)

Definition present (e : Z) : bool := negb (Z.land e PD_PRESENT =? 0).
Definition is_4mb (e : Z) : bool := negb (Z.land e PD_4MB =? 0).
(** [e & ~0xFFF] *)
Definition frame (e : Z) : Z := Z.land e 4294963200.

Definition pd_index (vaddr : Z) : Z := Z.land (Z.shiftr vaddr 22) 1023.
Definition pt_index (vaddr : Z) : Z := Z.land (Z.shiftr vaddr 12) 1023.

Definition walk (phys : Z -> Z) (cr3 vaddr : Z) : option Z :=
  let pde := phys (frame cr3 + 4 * pd_index vaddr) in
  if negb (present pde) then None
  else if is_4mb pde then Some (Z.land pde 4290772992 + vaddr mod 4194304)
  else
    let pte := phys (frame pde + 4 * pt_index vaddr) in
    if negb (present pte) then None else Some (frame pte + vaddr mod PAGE_SIZE).

Section ops.
Context {H : Type} `{KHeap H}.

(** [current] is the address space of the running thread, if there is one. *)
Record mem := {
  phys : Z -> Z;
  cr3 : Z;
  segs : Segment.segs H;
  kernel_as : as_t;
  spaces : gmap Z as_t;
  current : option as_ptr;
}.

Definition set_phys (p : Z -> Z) (s : mem) : mem :=
  {| phys := p; cr3 := cr3 s; segs := segs s; kernel_as := kernel_as s; spaces := spaces s; current := current s |}.
Definition set_cr3 (c : Z) (s : mem) : mem :=
  {| phys := phys s; cr3 := c; segs := segs s; kernel_as := kernel_as s; spaces := spaces s; current := current s |}.
Definition set_segs (g : Segment.segs H) (s : mem) : mem :=
  {| phys := phys s; cr3 := cr3 s; segs := g; kernel_as := kernel_as s; spaces := spaces s; current := current s |}.

Definition as_at (a : as_ptr) (s : mem) : option as_t :=
  match a with KernelAs => Some (kernel_as s) | UserAs p => spaces s !! p end.

Definition write_word (a w : Z) (p : Z -> Z) : Z -> Z := fun x => if x =? a then w else p x.
Definition zero_page (a : Z) (p : Z -> Z) : Z -> Z :=
  fun x => if (a <=? x) && (x <? a + PAGE_SIZE) then 0 else p x.

(** A read or a write of the kernel at a virtual address. *)
Definition load (vaddr : Z) : M mem Z :=
  let! s := get in
  match walk (phys s) (cr3 s) vaddr with
  | Some a => ret (phys s a)
  | None => undef
  end.

Definition store (vaddr w : Z) : M mem unit :=
  let! s := get in
  match walk (phys s) (cr3 s) vaddr with
  | Some a => modify (set_phys (write_word a w (phys s)))
  | None => undef
  end.

(** [memset (page, 0, PAGE_SIZE)] of an aligned page. *)
Definition memset_page (vaddr : Z) : M mem unit :=
  let! s := get in
  match walk (phys s) (cr3 s) vaddr with
  | Some a => modify (set_phys (zero_page a (phys s)))
  | None => undef
  end.

Definition cr3_get : M mem Z := let! s := get in ret (cr3 s).
Definition cr3_set (c : Z) : M mem unit := modify (set_cr3 c).

Definition segment {A} (m : M (Segment.segs H) A) : M mem A := zoom segs set_segs m.

(** ** mmu.c *)

Definition as_to_mmu_flags (flags : Z) : Z :=
  let mmu_flags := PD_PRESENT in
  let mmu_flags := if Z.land flags AS_MAP_USER =? 0 then mmu_flags else Z.lor mmu_flags PD_USER in
  if Z.land flags AS_MAP_WRITE =? 0 then mmu_flags else Z.lor mmu_flags PD_WRITE.

(** The page table of directory entry [pd_index], as an address. *)
Definition pt_of (pd_index : Z) : Z := u32 (PT_MIRROR + u32 (4096 * pd_index)).

Definition mmu_virt_to_phy (vaddr : Z) : M mem Z :=
  let pd := PD_MIRROR in
  let pt := pt_of (pd_index vaddr) in
  let! pde := load (pd + 4 * pd_index vaddr) in
  if negb (present pde) then ret 0
  else
    let! pte := load (pt + 4 * pt_index vaddr) in
    if negb (present pte) then ret 0 else ret (frame pte).

Definition install_pt_if_needed (pd pd_index flags : Z) : M mem Z :=
  let! pde := load (pd + 4 * pd_index) in
  if negb (present pde) then
    let! phy_pt := segment (Segment.segment_alloc_address 1) in
    if phy_pt =? 0 then ret 0
    else
      store (pd + 4 * pd_index) (Z.lor phy_pt flags) ;;;
      memset_page (pt_of pd_index) ;;;
      ret 1
  else ret 1.

(** Whether every word of the page at [pt] from the [n]th last on is 0. *)
Fixpoint all_zero (pt : Z) (n : nat) : M mem bool :=
  match n with
  | O => ret true
  | S n =>
      let! w := load (pt + 4 * (1023 - Z.of_nat n)) in
      if w =? 0 then all_zero pt n else ret false
  end.

Definition clean_if_needed (pt pd pd_index : Z) : M mem unit :=
  if pd_index >=? 768 then ret tt
  else
    let! empty := all_zero pt 1024 in
    if negb empty then ret tt
    else
      let! addr := mmu_virt_to_phy pt in
      if addr =? 0 then ret tt
      else
        segment (Segment.segment_free addr) ;;;
        store (pd + 4 * pd_index) 0.

(** The loop of [unmap_mirror]; [n] pages are left after the current one. *)
Fixpoint unmap_loop (kernel : bool) (pd pd_index pt_index : Z) (n : nat) : M mem unit :=
  store (pt_of pd_index + 4 * pt_index) 0 ;;;
  match n with
  | O => if kernel then ret tt else clean_if_needed (pt_of pd_index) pd pd_index
  | S n =>
      let pt_index := pt_index + 1 in
      if pt_index >? 1023 then
        (if kernel then ret tt else clean_if_needed (pt_of pd_index) pd pd_index) ;;;
        unmap_loop kernel pd (pd_index + 1) 0 n
      else unmap_loop kernel pd pd_index pt_index n
  end.

(** [number_of_page] is decremented before it is tested, so that a size below a
    page stands for 2^32 pages. *)
Definition pages_after (size : Z) : nat := Z.to_nat (u32 (size / PAGE_SIZE - 1)).

Definition unmap_mirror (a : as_ptr) (vaddr size : Z) : M mem Z :=
  unmap_loop (bool_decide (a = KernelAs)) PD_MIRROR (pd_index vaddr) (pt_index vaddr)
    (pages_after size) ;;;
  ret 1.

(** Run [m] on the page tables of [a]. *)
Definition in_space (a : as_ptr) (m : M mem Z) : M mem Z :=
  let! c := cr3_get in
  if decide (a = KernelAs) then m
  else
    let! s := get in
    if decide (current s = Some a) then m
    else
      match as_at a s with
      | None => undef
      | Some d =>
          cr3_set (as_cr3 d) ;;;
          let! r := m in
          cr3_set c ;;;
          ret r
      end.

Definition mmu_unmap (a : as_ptr) (vaddr size : Z) : M mem Z :=
  in_space a (unmap_mirror a vaddr size).

(** The loop of [map_mirror]; [n] pages are left after the current one. *)
Fixpoint map_loop (a : as_ptr) (size mmu_flags pd pd_index pt_index vaddr paddr : Z) (n : nat)
    : M mem Z :=
  store (pt_of pd_index + 4 * pt_index) (Z.lor paddr mmu_flags) ;;;
  let vaddr := u32 (vaddr + PAGE_SIZE) in
  let paddr := u32 (paddr + PAGE_SIZE) in
  match n with
  | O => ret 1
  | S n' =>
      let pt_index := pt_index + 1 in
      if pt_index >? 1023 then
        let! r := install_pt_if_needed pd (pd_index + 1) mmu_flags in
        if r =? 0 then
          let! _ := mmu_unmap a vaddr (u32 (size - u32 (Z.of_nat n * PAGE_SIZE))) in
          ret 0
        else map_loop a size mmu_flags pd (pd_index + 1) 0 vaddr paddr n'
      else map_loop a size mmu_flags pd pd_index pt_index vaddr paddr n'
  end.

Definition map_mirror (a : as_ptr) (vaddr paddr size flags : Z) : M mem Z :=
  let mmu_flags := as_to_mmu_flags flags in
  let! r := install_pt_if_needed PD_MIRROR (pd_index vaddr) mmu_flags in
  if r =? 0 then ret 0
  else map_loop a size mmu_flags PD_MIRROR (pd_index vaddr) (pt_index vaddr) vaddr paddr
         (pages_after size).

Definition mmu_map (a : as_ptr) (vaddr paddr size flags : Z) : M mem Z :=
  in_space a (map_mirror a vaddr paddr size flags).

End ops.
Arguments mem : clear implicits.

(** ** Bits of addresses and entries *)

Lemma land_page x q : 0 <= x < PAGE_SIZE -> Z.land (q * PAGE_SIZE) x = 0.
Proof.
  intros Hx. apply Z.bits_inj'. intros i Hi. rewrite Z.land_spec, Z.bits_0.
  destruct (decide (i < 12)).
  - change PAGE_SIZE with (2 ^ 12). by rewrite Z.mul_pow2_bits_low.
  - apply andb_false_intro2, Z.testbit_false; [done|]. rewrite Z.div_small; [done|]. split; [lia|].
    apply Z.lt_le_trans with (2 ^ 12); [apply Hx|]. apply Z.pow_le_mono_r; lia.
Qed.

Lemma lor_page a f : a mod PAGE_SIZE = 0 -> 0 <= f < PAGE_SIZE -> Z.lor a f = a + f.
Proof.
  intros Ha Hf. assert (a = a / PAGE_SIZE * PAGE_SIZE) as -> by (unfold PAGE_SIZE in *; Z.to_euclidean_division_equations; lia).
  pose proof (land_page f (a / PAGE_SIZE) Hf) as Hl.
  rewrite (Z.add_nocarry_lxor _ _ Hl). symmetry. by apply Z.lxor_lor.
Qed.

Lemma frame_eq e : frame e = (e / PAGE_SIZE) mod 2 ^ 20 * PAGE_SIZE.
Proof.
  unfold frame. change 4294963200 with (Z.shiftl (Z.ones 20) 12).
  change PAGE_SIZE with (2 ^ 12).
  rewrite <-Z.land_ones, <-Z.shiftr_div_pow2, <-Z.shiftl_mul_pow2 by lia.
  apply Z.bits_inj'. intros i Hi. rewrite Z.land_spec, !Z.shiftl_spec, Z.land_spec by done.
  destruct (decide (i < 12)).
  - rewrite !(Z.testbit_neg_r _ (i - 12)) by lia. by rewrite andb_false_r.
  - rewrite Z.shiftr_spec by lia. f_equal. f_equal. lia.
Qed.

Lemma present_eq e : present e = (e mod 2 =? 1).
Proof.
  unfold present. change PD_PRESENT with (Z.ones 1). rewrite Z.land_ones by lia.
  change (2 ^ 1) with 2. pose proof (Z.mod_pos_bound e 2).
  destruct (Z.eqb_spec (e mod 2) 0), (Z.eqb_spec (e mod 2) 1); simpl; lia || done.
Qed.

Lemma is_4mb_eq e : is_4mb e = ((e / 128) mod 2 =? 1).
Proof.
  unfold is_4mb. assert (Z.land e PD_4MB = Z.shiftl (Z.land (Z.shiftr e 7) (Z.ones 1)) 7) as ->.
  { change PD_4MB with (Z.shiftl (Z.ones 1) 7). apply Z.bits_inj'. intros i Hi.
    rewrite Z.land_spec, !Z.shiftl_spec, Z.land_spec by done. destruct (decide (i < 7)).
    - rewrite !(Z.testbit_neg_r _ (i - 7)) by lia. by rewrite andb_false_r.
    - rewrite Z.shiftr_spec by lia. f_equal. f_equal. lia. }
  rewrite Z.land_ones, Z.shiftr_div_pow2, Z.shiftl_mul_pow2 by lia.
  change (2 ^ 7) with 128. change (2 ^ 1) with 2. pose proof (Z.mod_pos_bound (e / 128) 2).
  destruct (Z.eqb_spec ((e / 128) mod 2 * 128) 0), (Z.eqb_spec ((e / 128) mod 2) 1);
    simpl; lia || done.
Qed.

Lemma pd_index_eq v : pd_index v = (v / 4194304) mod 1024.
Proof.
  unfold pd_index. change 1023 with (Z.ones 10).
  by rewrite Z.land_ones, Z.shiftr_div_pow2 by lia.
Qed.

Lemma pt_index_eq v : pt_index v = (v / PAGE_SIZE) mod 1024.
Proof.
  unfold pt_index. change 1023 with (Z.ones 10).
  by rewrite Z.land_ones, Z.shiftr_div_pow2 by lia.
Qed.

(** Arithmetic on pages, frames and indices. *)
Ltac page_arith :=
  rewrite ?frame_eq, ?pd_index_eq, ?pt_index_eq in *;
  unfold PAGE_SIZE, PT_MIRROR, PD_MIRROR in *; Z.to_euclidean_division_equations; lia.

Lemma frame_range e : frame e mod PAGE_SIZE = 0 /\ 0 <= frame e < 2 ^ 32.
Proof. page_arith. Qed.

Lemma frame_aligned a : a mod PAGE_SIZE = 0 -> 0 <= a < 2 ^ 32 -> frame a = a.
Proof. intros. page_arith. Qed.

(** An entry made of the address of a page and flags of [as_to_mmu_flags]. *)
Definition entry_flags (f : Z) : Prop := f = 1 \/ f = 3 \/ f = 5 \/ f = 7.

Lemma as_to_mmu_flags_ok flags : entry_flags (as_to_mmu_flags flags).
Proof.
  unfold as_to_mmu_flags, entry_flags.
  destruct (_ =? 0), (_ =? 0); vm_compute; auto.
Qed.

Lemma entry_ok a f :
  a mod PAGE_SIZE = 0 -> 0 <= a < 2 ^ 32 -> entry_flags f ->
  Z.lor a f = a + f /\ frame (Z.lor a f) = a /\ present (Z.lor a f) = true /\
  is_4mb (Z.lor a f) = false.
Proof.
  intros Ha Hr Hf. assert (0 <= f < PAGE_SIZE) by (destruct Hf as [->|[->|[->| ->]]]; done).
  rewrite lor_page by done. rewrite present_eq, is_4mb_eq, Z.eqb_eq, Z.eqb_neq.
  unfold entry_flags in Hf. split_and!; page_arith.
Qed.

(** ** The view of a directory *)

Definition pde (p : Z -> Z) (root i : Z) : Z := p (root + 4 * i).

(** The page of the [i]th table. *)
Definition table (p : Z -> Z) (root i : Z) : option Z :=
  if present (pde p root i) && negb (is_4mb (pde p root i)) then Some (frame (pde p root i)) else None.

(** The entry of virtual page [n]. *)
Definition pte (p : Z -> Z) (root n : Z) : Z :=
  match table p root (n / 1024) with
  | Some f => p (f + 4 * (n mod 1024))
  | None => 0
  end.

(** The directory entry of a page of 4 MB. *)
Definition big (p : Z -> Z) (root i : Z) : option Z :=
  if present (pde p root i) && is_4mb (pde p root i) then Some (pde p root i) else None.

(** The pages of the view: the last 4 MB are the tables themselves. *)
Definition view_page (n : Z) : Prop := 0 <= n < 1023 * 1024.

(** The directory is its own last table, and no two entries share a table. *)
Record mirrored (p : Z -> Z) (root : Z) : Prop := {
  root_page : root mod PAGE_SIZE = 0 /\ 0 <= root < 2 ^ 32;
  root_self : table p root 1023 = Some root;
  tables_inj : forall i j f, 0 <= i < 1024 -> 0 <= j < 1024 ->
    table p root i = Some f -> table p root j = Some f -> i = j;
}.

Lemma table_Some p root i f :
  table p root i = Some f <->
  present (pde p root i) = true /\ is_4mb (pde p root i) = false /\ f = frame (pde p root i).
Proof.
  unfold table. destruct (present _), (is_4mb _); simpl; naive_solver.
Qed.

Lemma table_page p root i f : table p root i = Some f -> f mod PAGE_SIZE = 0 /\ 0 <= f < 2 ^ 32.
Proof. intros (_ & _ & ->)%table_Some. apply frame_range. Qed.

Lemma pages_apart f g x y :
  f mod PAGE_SIZE = 0 -> g mod PAGE_SIZE = 0 -> f <> g ->
  0 <= x < 1024 -> 0 <= y < 1024 -> f + 4 * x <> g + 4 * y.
Proof. intros. page_arith. Qed.

Lemma pt_of_eq i : 0 <= i < 1024 -> pt_of i = PT_MIRROR + 4096 * i.
Proof.
  intros Hi. unfold pt_of. rewrite (u32_small (4096 * i)) by lia.
  apply u32_small. unfold PT_MIRROR. lia.
Qed.

Lemma walk_table p root i k f :
  mirrored p root -> 0 <= i < 1024 -> 0 <= k < 1024 -> table p root i = Some f ->
  walk p root (pt_of i + 4 * k) = Some (f + 4 * k).
Proof.
  intros [Hroot (Hpr & H4 & Hfr)%table_Some _] Hi Hk (Hp & _ & ->)%table_Some.
  rewrite pt_of_eq by done. unfold walk. rewrite (frame_aligned root) by apply Hroot.
  assert (pd_index (PT_MIRROR + 4096 * i + 4 * k) = 1023) as -> by page_arith.
  assert (pt_index (PT_MIRROR + 4096 * i + 4 * k) = i) as -> by page_arith.
  assert ((PT_MIRROR + 4096 * i + 4 * k) mod PAGE_SIZE = 4 * k) as -> by page_arith.
  change (p (root + 4 * 1023)) with (pde p root 1023).
  rewrite Hpr, H4, <-Hfr. simpl. change (p (root + 4 * i)) with (pde p root i). by rewrite Hp.
Qed.

(** What the processor makes of the view. *)
Definition translate (p : Z -> Z) (root vaddr : Z) : option Z :=
  let e := pte p root (vaddr / PAGE_SIZE) in
  match big p root (vaddr / 4194304) with
  | Some pde => Some (Z.land pde 4290772992 + vaddr mod 4194304)
  | None => if present e then Some (frame e + vaddr mod PAGE_SIZE) else None
  end.

Lemma walk_translate p root vaddr :
  mirrored p root -> 0 <= vaddr < 2 ^ 32 -> walk p root vaddr = translate p root vaddr.
Proof.
  intros [Hroot _ _] Hv. unfold walk, translate, big, pte, table, pde.
  rewrite (frame_aligned root) by apply Hroot.
  assert (pd_index vaddr = vaddr / 4194304) as -> by page_arith.
  assert (vaddr / PAGE_SIZE / 1024 = vaddr / 4194304) as -> by page_arith.
  rewrite pt_index_eq.
  destruct (present (p (root + 4 * (vaddr / 4194304)))), (is_4mb _); simpl; try done.
  by destruct (present _).
Qed.

Lemma walk_pd p root k :
  mirrored p root -> 0 <= k < 1024 -> walk p root (PD_MIRROR + 4 * k) = Some (root + 4 * k).
Proof.
  intros Hm Hk. change PD_MIRROR with (pt_of 1023). apply walk_table; [done..|]. apply Hm.
Qed.

Lemma table_not_root p root i f :
  mirrored p root -> 0 <= i < 1023 -> table p root i = Some f -> f <> root.
Proof.
  intros [_ Hself Hinj] Hi Hf ->. assert (i = 1023) by (apply (Hinj _ _ root); done || lia). lia.
Qed.

(** A directory with the same entries has the same tables. *)
Lemma mirrored_same p p' root :
  (forall j, 0 <= j < 1024 -> pde p' root j = pde p root j) -> mirrored p root ->
  mirrored p' root /\ forall j, 0 <= j < 1024 -> table p' root j = table p root j.
Proof.
  intros Hpde [Hroot Hself Hinj].
  assert (forall j, 0 <= j < 1024 -> table p' root j = table p root j) as Ht.
  { intros j Hj. unfold table. by rewrite Hpde. }
  split; [|done]. split; [done|by rewrite Ht|]. intros j1 j2 g ??. rewrite !Ht by done. by apply Hinj.
Qed.

(** A write into a table leaves the directory alone and changes one page. *)
Lemma write_table p root i k f w :
  mirrored p root -> 0 <= i < 1023 -> 0 <= k < 1024 -> table p root i = Some f ->
  let p' := write_word (f + 4 * k) w p in
  mirrored p' root /\ (forall j, 0 <= j < 1024 -> pde p' root j = pde p root j) /\
  (forall n, view_page n -> pte p' root n = if decide (n = i * 1024 + k) then w else pte p root n).
Proof.
  intros Hm Hi Hk Hf p'. pose proof Hm as [Hroot _ Hinj].
  pose proof (table_not_root _ _ _ _ Hm Hi Hf) as Hne.
  assert (forall j, 0 <= j < 1024 -> pde p' root j = pde p root j) as Hpde.
  { intros j Hj. unfold pde, p', write_word. rewrite (proj2 (Z.eqb_neq _ _)); [done|].
    apply not_eq_sym, pages_apart; try done; [|apply Hroot]. by eapply table_page. }
  destruct (mirrored_same p p' root Hpde Hm) as [Hm' Ht].
  split_and!; [done..|].
  - intros n Hn. unfold pte. unfold view_page in Hn. rewrite Ht by page_arith.
    destruct (table p root (n / 1024)) as [g|] eqn:Hg.
    + unfold p', write_word. case_decide as Hd.
      * subst n. assert (((i * 1024 + k) / 1024) = i) as Hq by page_arith. rewrite Hq in Hg.
        assert ((i * 1024 + k) mod 1024 = k) as -> by page_arith.
        simplify_eq. by rewrite Z.eqb_refl.
      * rewrite (proj2 (Z.eqb_neq _ _)); [done|]. destruct (decide (g = f)) as [->|Hgf].
        -- assert (n / 1024 = i) by (apply (Hinj _ _ f); [page_arith|lia|done..]). page_arith.
        -- apply pages_apart; [by eapply table_page..|done|page_arith|done].
    + case_decide as Hd; [|done]. subst n. exfalso.
      assert (((i * 1024 + k) / 1024) = i) as Hq by page_arith. congruence.
Qed.

(** Zeroing a table removes its pages. *)
Lemma zero_table p root i f :
  mirrored p root -> 0 <= i < 1023 -> table p root i = Some f ->
  let p' := zero_page f p in
  mirrored p' root /\ (forall j, 0 <= j < 1024 -> pde p' root j = pde p root j) /\
  (forall n, view_page n -> pte p' root n = if decide (n / 1024 = i) then 0 else pte p root n).
Proof.
  intros Hm Hi Hf p'. pose proof (table_not_root _ _ _ _ Hm Hi Hf) as Hne.
  pose proof Hm as [Hroot _ Hinj]. destruct (table_page _ _ _ _ Hf) as [Hfm Hfr].
  assert (forall g k, g mod PAGE_SIZE = 0 -> 0 <= k < 1024 ->
    p' (g + 4 * k) = if decide (g = f) then 0 else p (g + 4 * k)) as Hp'.
  { intros g k Hg Hk. unfold p', zero_page. case_decide as Hd.
    - rewrite (proj2 (Z.leb_le _ _)), (proj2 (Z.ltb_lt _ _)); [done|unfold PAGE_SIZE; lia|lia].
    - destruct (Z.leb_spec f (g + 4 * k)), (Z.ltb_spec (g + 4 * k) (f + PAGE_SIZE)); simpl; try done.
      page_arith. }
  assert (forall j, 0 <= j < 1024 -> pde p' root j = pde p root j) as Hpde.
  { intros j Hj. unfold pde. rewrite Hp' by (done || apply Hroot). by rewrite decide_False. }
  destruct (mirrored_same p p' root Hpde Hm) as [Hm' Ht]. split_and!; [done..|].
  intros n Hn. unfold pte. unfold view_page in Hn. rewrite Ht by page_arith.
  destruct (table p root (n / 1024)) as [g|] eqn:Hg; [|by case_decide].
  destruct (table_page _ _ _ _ Hg) as [Hgm _]. rewrite Hp' by (done || page_arith).
  destruct (decide (n / 1024 = i)) as [<-|Hni].
  - rewrite decide_True; [done|]. congruence.
  - rewrite decide_False; [done|]. intros ->. apply Hni, (Hinj _ _ f); [page_arith|lia|done..].
Qed.

(** Writing an entry of the directory: to install a table that is not one yet, or
    to remove one. *)
Lemma write_dir p root i w :
  mirrored p root -> 0 <= i < 1023 ->
  (present w = true -> forall j, 0 <= j < 1024 -> table p root j <> Some (frame w)) ->
  let p' := write_word (root + 4 * i) w p in
  mirrored p' root /\ pde p' root i = w /\
  (forall j, 0 <= j < 1024 -> j <> i -> pde p' root j = pde p root j) /\
  (forall n, view_page n -> n / 1024 <> i -> pte p' root n = pte p root n).
Proof.
  intros Hm Hi Hnew p'. pose proof Hm as [Hroot Hself Hinj].
  assert (pde p' root i = w) as Hw by (unfold pde, p', write_word; by rewrite Z.eqb_refl).
  assert (forall j, j <> i -> pde p' root j = pde p root j) as Hpde.
  { intros j Hj. unfold pde, p', write_word. rewrite (proj2 (Z.eqb_neq _ _)); [done|lia]. }
  assert (forall j, j <> i -> table p' root j = table p root j) as Ht.
  { intros j Hj. unfold table. by rewrite Hpde. }
  split_and!; [|done|auto|].
  - split; [done|rewrite Ht by lia; done|]. intros j1 j2 g H1 H2 Hg1 Hg2.
    destruct (decide (j1 = i)) as [->|N1], (decide (j2 = i)) as [->|N2]; [done| | |].
    + apply table_Some in Hg1 as (Hp & _ & Hfr). rewrite Ht in Hg2 by done.
      rewrite Hw in Hp, Hfr. subst g. by destruct (Hnew Hp j2 H2).
    + apply table_Some in Hg2 as (Hp & _ & Hfr). rewrite Ht in Hg1 by done.
      rewrite Hw in Hp, Hfr. subst g. by destruct (Hnew Hp j1 H1).
    + rewrite Ht in Hg1, Hg2 by done. by apply (Hinj j1 j2 g).
  - intros n Hn Hni. unfold pte. rewrite Ht by done. unfold view_page in Hn.
    destruct (table p root (n / 1024)) as [g|] eqn:Hg; [|done].
    unfold p', write_word. rewrite (proj2 (Z.eqb_neq _ _)); [done|].
    apply pages_apart; [by eapply table_page|apply Hroot| |page_arith|lia].
    eapply table_not_root; [done| |done]. page_arith.
Qed.

(** ** Invariant *)

(** [F] lists the nodes of the heap that are not segments. *)

Section inv.
Context {H : Type} `{KHeap H} (F : list Z).
Implicit Types s : mem H.

Notation head s := (Segment.segment_head (segs s)).
Notation heap s := (Segment.kheap (segs s)).

(** The page at address [f] is free. *)
Definition free_page s (f : Z) : Prop := Segment.page_ref (head s) (f / PAGE_SIZE) 0.

(** The state of the tables of the directory in [cr3]: the page of a table is in
    use, and the page of a user table is a segment of its own.  Page 0 is never
    free (it is the null address of [segment_alloc_address]). *)
Record paging s : Prop := {
  pg_segs : Segment.seg_inv F (segs s);
  pg_mirror : mirrored (phys s) (cr3 s);
  pg_zero : ~ free_page s 0;
  pg_used : forall i f, 0 <= i < 1024 -> table (phys s) (cr3 s) i = Some f -> ~ free_page s f;
  pg_user : forall i f, 0 <= i < 768 -> table (phys s) (cr3 s) i = Some f ->
    exists seg, seg ∈ head s /\ Segment.base seg = f /\ Segment.page_size seg = 1 /\
                Segment.ref_count seg = 1;
}.

(** What mapping pages leaves alone: everything but the tables of the directory
    and pages that were free. *)
Record grows s s' : Prop := {
  gr_rest : cr3 s' = cr3 s /\ kernel_as s' = kernel_as s /\ spaces s' = spaces s /\
            current s' = current s;
  gr_segs : forall x, x ∈ head s -> Segment.ref_count x <> 0 -> x ∈ head s';
  gr_free : forall f, free_page s' f -> free_page s f;
  gr_tables : forall i f, 0 <= i < 1024 ->
    table (phys s) (cr3 s) i = Some f -> table (phys s') (cr3 s) i = Some f;
  gr_new : forall i f, 0 <= i < 1024 -> table (phys s') (cr3 s) i = Some f ->
    table (phys s) (cr3 s) i = Some f \/ free_page s f;
  gr_big : forall i, 0 <= i < 1024 -> big (phys s') (cr3 s) i = big (phys s) (cr3 s) i;
  gr_phys : forall a,
    (forall i f, 0 <= i < 1024 -> table (phys s') (cr3 s) i = Some f -> ~ f <= a < f + PAGE_SIZE) ->
    phys s' a = phys s a;
}.

Lemma grows_refl s : grows s s.
Proof. split; auto. Qed.

Lemma grows_trans s1 s2 s3 : grows s1 s2 -> grows s2 s3 -> grows s1 s3.
Proof.
  intros [(E1 & E2 & E3 & E4) A1 F1 T1 N1 B1 P1] [(E5 & E6 & E7 & E8) A2 F2 T2 N2 B2 P2].
  rewrite E1 in *. split.
  - split_and!; congruence.
  - intros x Hx Hr. by apply A2; [apply A1|].
  - auto.
  - auto.
  - intros i f Hi [Hf|Hf]%N2; [by apply N1|by right; apply F1|done].
  - intros i Hi. by rewrite B2, B1.
  - intros a Ha. rewrite P2 by done. apply P1. intros i f Hi Hf. apply (Ha i f Hi). by apply T2.
Qed.

(** Accesses through the mirror. *)
Lemma wp_load_table s i k f Q :
  mirrored (phys s) (cr3 s) -> 0 <= i < 1024 -> 0 <= k < 1024 ->
  table (phys s) (cr3 s) i = Some f -> Q (phys s (f + 4 * k)) s ->
  wp (load (pt_of i + 4 * k)) s Q.
Proof.
  intros Hm Hi Hk Hf HQ. unfold load. step. step. by rewrite (walk_table _ _ i k f).
Qed.

Lemma wp_store_table s i k f w Q :
  mirrored (phys s) (cr3 s) -> 0 <= i < 1024 -> 0 <= k < 1024 ->
  table (phys s) (cr3 s) i = Some f ->
  Q tt (set_phys (write_word (f + 4 * k) w (phys s)) s) ->
  wp (store (pt_of i + 4 * k) w) s Q.
Proof.
  intros Hm Hi Hk Hf HQ. unfold store. step. step. by rewrite (walk_table _ _ i k f).
Qed.

Lemma wp_load_pd s k Q :
  mirrored (phys s) (cr3 s) -> 0 <= k < 1024 -> Q (pde (phys s) (cr3 s) k) s ->
  wp (load (PD_MIRROR + 4 * k)) s Q.
Proof.
  intros Hm Hk HQ. change PD_MIRROR with (pt_of 1023).
  apply (wp_load_table _ _ _ (cr3 s)); [done..|apply Hm|done].
Qed.

Lemma wp_store_pd s k w Q :
  mirrored (phys s) (cr3 s) -> 0 <= k < 1024 ->
  Q tt (set_phys (write_word (cr3 s + 4 * k) w (phys s)) s) ->
  wp (store (PD_MIRROR + 4 * k) w) s Q.
Proof.
  intros Hm Hk HQ. change PD_MIRROR with (pt_of 1023).
  apply (wp_store_table _ _ _ (cr3 s)); [done..|apply Hm|done].
Qed.

(** *** Installing a table *)

Lemma free_page_seg s seg f :
  seg ∈ head s -> Segment.seg_ok seg -> Segment.base seg = f -> Segment.ref_count seg = 0 ->
  free_page s f.
Proof. intros Hin Hok <- Hr. exists seg. split_and!; [done| |done]. Segment.seg_arith. Qed.

(** A directory entry set to a page that was free. *)
Lemma install_paging s segs' i f flags :
  paging s -> 0 <= i < 1023 -> entry_flags flags -> present (pde (phys s) (cr3 s) i) = false ->
  Segment.seg_inv F segs' ->
  (exists seg', f = Segment.base seg' /\ Segment.page_size seg' = 1 /\ Segment.granted (segs s) segs' seg') ->
  let p1 := write_word (cr3 s + 4 * i) (Z.lor f flags) (phys s) in
  mirrored p1 (cr3 s) /\ table p1 (cr3 s) i = Some f /\
  let s' := set_phys (zero_page f p1) (set_segs segs' s) in
  paging s' /\ grows s s' /\ table (phys s') (cr3 s) i = Some f /\
  forall n, view_page n -> pte (phys s') (cr3 s) n = pte (phys s) (cr3 s) n.
Proof.
  intros [Hsi Hm Hz Hu Hus] Hi Hfl Hnp Hsi' (seg' & -> & Hp1 & Hg).
  destruct Hg as (Hin & Hr1 & Hok & Hfree & Href & _ & Hkept).
  set (f := Segment.base seg') in *. set (p := phys s) in *. set (root := cr3 s) in *.
  assert (f mod PAGE_SIZE = 0 /\ 0 <= f < 2 ^ 32) as [Hfm Hfr] by (unfold f; Segment.seg_arith).
  assert (free_page s f) as Hff by (apply Hfree; unfold f; Segment.seg_arith).
  assert (forall g, g mod PAGE_SIZE = 0 -> Segment.page_ref (Segment.segment_head segs') (g / PAGE_SIZE) 0 ->
    free_page s g /\ g <> f) as Hfree'.
  { intros g Hgm Hg. apply Href in Hg. unfold Segment.set_refs in Hg. case_decide; [done|].
    split; [done|]. intros ->. unfold f in *. Segment.seg_arith. }
  destruct (entry_ok f flags Hfm Hfr Hfl) as (_ & Hfr1 & Hpr1 & H41).
  intros p1. destruct (write_dir p root i (Z.lor f flags) Hm Hi) as (Hm1 & Hw1 & Hd1 & Hv1).
  { intros _ j Hj Ht. rewrite Hfr1 in Ht. by apply (Hu j f). }
  fold p1 in Hm1, Hw1, Hd1, Hv1.
  assert (table p1 root i = Some f) as Ht1 by (apply table_Some; by rewrite Hw1, Hfr1).
  split_and!; [done..|]. intros s'.
  destruct (zero_table p1 root i f Hm1 Hi Ht1) as (Hm2 & Hd2 & Hv2).
  destruct (mirrored_same p1 (zero_page f p1) root Hd2 Hm1) as [_ Ht2].
  assert (forall j, 0 <= j < 1024 -> table (phys s') root j =
    if decide (j = i) then Some f else table p root j) as Ht'.
  { intros j Hj. rewrite Ht2 by done. case_decide; [by subst|]. unfold table. by rewrite Hd1. }
  assert (table p root i = None) as Hni by (unfold table; by rewrite Hnp).
  split_and!; [split|split| |]; try done.
  - intros Hz0. by apply Hfree' in Hz0 as [? _].
  - intros j g Hj Hg Hgf. rewrite Ht' in Hg by done.
    assert (g mod PAGE_SIZE = 0) as Hgm by (case_decide; simplify_eq; [done|by eapply table_page]).
    apply Hfree' in Hgf as [Hgf Hne]; [|done]. case_decide; simplify_eq. by apply (Hu j g).
  - intros j g Hj Hg. rewrite Ht' in Hg by lia. case_decide; simplify_eq.
    + by exists seg'.
    + destruct (Hus j g Hj Hg) as (seg & ? & ? & ? & Hr). exists seg. split_and!; try done.
      apply Hkept; [done|]. by rewrite Hr.
  - intros g Hg. unfold free_page in *. apply Href in Hg. unfold Segment.set_refs in Hg.
    by case_decide.
  - intros j g Hj Hg. rewrite Ht' by done. case_decide; [|done]. subst j. by rewrite (Hni : table (phys s) (cr3 s) i = None) in Hg.
  - intros j g Hj. rewrite Ht' by done. case_decide; [|by left]. intros; simplify_eq. by right.
  - intros j Hj. unfold big. simpl. rewrite Hd2 by done.
    destruct (decide (j = i)) as [->|]; [|by rewrite Hd1].
    rewrite Hw1, H41, andb_false_r. by rewrite (Hnp : present (pde (phys s) (cr3 s) i) = false).
  - intros a Ha. simpl. unfold zero_page, p1, write_word.
    specialize (Ha i f ltac:(lia)) as Ha1. rewrite Ht', decide_True in Ha1 by (done || lia).
    specialize (Ha1 eq_refl).
    destruct (Z.leb_spec f a), (Z.ltb_spec a (f + PAGE_SIZE)); simpl; try lia.
    all: specialize (Ha 1023 root ltac:(lia)); rewrite Ht', decide_False in Ha by lia;
      specialize (Ha (root_self _ _ Hm)); rewrite (proj2 (Z.eqb_neq _ _)); [done|]; page_arith.
  - rewrite Ht' by lia. by rewrite decide_True.
  - intros n Hn. simpl. rewrite Hv2 by done. case_decide as Hd; [|by apply Hv1].
    unfold pte. by rewrite Hd, Hni.
Qed.

Lemma free_pages_pos l :
  0 < Segment.free_pages l ->
  ~ Forall (fun x => Segment.ref_count x = 0 -> Segment.page_size x < 1) l.
Proof.
  induction l as [|x l IH]; simpl; [lia|]. intros Hp [Hx Hl]%Forall_cons.
  destruct (Z.eqb_spec (Segment.ref_count x) 0); [|apply IH; [lia|done]].
  apply IH; [|done]. specialize (Hx e). lia.
Qed.

Lemma install_ok s i flags b :
  paging s -> 0 <= i < 1023 -> entry_flags flags ->
  big (phys s) (cr3 s) i = None ->
  (table (phys s) (cr3 s) i = None -> 0 < Segment.free_pages (head s)) ->
  room (heap s) (Segment.split_room + b) -> b = 0 \/ KMALLOC_OVERHEAD < b ->
  wp (install_pt_if_needed PD_MIRROR i flags) s (fun r s' =>
    r = 1 /\ paging s' /\ grows s s' /\ is_Some (table (phys s') (cr3 s) i) /\
    (forall n, view_page n -> pte (phys s') (cr3 s) n = pte (phys s) (cr3 s) n) /\
    room (heap s') b /\ Segment.free_pages (head s) - 1 <= Segment.free_pages (head s')).
Proof.
  intros Hpg Hi Hfl H4 Hfree Hr Hb. unfold install_pt_if_needed. pose proof Hpg as [Hsi Hm _ _ _].
  step. apply wp_load_pd; [done|lia|].
  destruct (present (pde (phys s) (cr3 s) i)) eqn:Hpr; simpl.
  { step. split_and!; try done; [apply grows_refl| |eapply room_mono; [done|]|lia].
    - unfold big in H4. rewrite Hpr in H4. unfold table. rewrite Hpr. simpl in H4 |- *.
      destruct (is_4mb _); [done|]. by eexists.
    - unfold Segment.split_room, Segment.sizeof_segment, KMALLOC_OVERHEAD in *. lia. }
  step. apply wp_zoom. eapply wp_mono; [by apply (Segment.segment_alloc_address_ok F _ 1 b)|].
  intros f g [Hsi' [(-> & -> & Hn)|(seg' & -> & Hp1 & Hg & Hr')]].
  { apply free_pages_pos in Hn; [done|]. apply Hfree. unfold table. by rewrite Hpr. }
  destruct (install_paging s g i (Segment.base seg') flags) as (Hm1 & Ht1 & Hpg' & Hgr & Ht & Hv);
    [done..|by exists seg'|].
  assert (Segment.base seg' <> 0) as Hne.
  { intros E. apply (pg_zero s Hpg). destruct Hg as (_ & _ & _ & Hfr & _). apply Hfr. unfold Segment.in_seg, Segment.seg_stop. by rewrite E, Hp1. }
  rewrite (proj2 (Z.eqb_neq _ 0)) by done.
  step. apply wp_store_pd; [done|lia|]. simpl. step. unfold memset_page. step. step. simpl.
  pose proof (walk_table _ _ i 0 _ Hm1 ltac:(lia) ltac:(lia) Ht1) as Hw.
  rewrite !Z.add_0_r in Hw. rewrite Hw. step. step.
  split_and!; try done.
  destruct Hg as (_ & _ & _ & _ & _ & Hfp & _). simpl. rewrite Hfp, Hp1. lia.
Qed.

(** *** Mapping pages *)

(** A write into a table keeps the invariant. *)
Lemma write_paging s i k f w :
  paging s -> 0 <= i < 1023 -> 0 <= k < 1024 -> table (phys s) (cr3 s) i = Some f ->
  let s' := set_phys (write_word (f + 4 * k) w (phys s)) s in
  paging s' /\ grows s s' /\
  (forall j, 0 <= j < 1024 -> table (phys s') (cr3 s) j = table (phys s) (cr3 s) j) /\
  forall n, view_page n -> pte (phys s') (cr3 s) n =
    if decide (n = i * 1024 + k) then w else pte (phys s) (cr3 s) n.
Proof.
  intros [Hsi Hm Hz Hu Hus] Hi Hk Hf s'.
  destruct (write_table _ _ i k f w Hm Hi Hk Hf) as (Hm' & Hd & Hv).
  destruct (mirrored_same _ _ _ Hd Hm) as [_ Ht]. split_and!; [split|split|..]; try done.
  - intros j g Hj. simpl. rewrite Ht by done. by apply Hu.
  - intros j g Hj. simpl. rewrite Ht by lia. by apply Hus.
  - intros j g Hj. simpl. by rewrite Ht.
  - intros j g Hj. simpl. rewrite Ht by done. by left.
  - intros j Hj. unfold big. simpl. by rewrite Hd.
  - intros a Ha. simpl. unfold write_word. rewrite (proj2 (Z.eqb_neq _ _)); [done|].
    specialize (Ha i f ltac:(lia)). simpl in Ha. rewrite Ht in Ha by lia. specialize (Ha Hf).
    unfold PAGE_SIZE in Ha. lia.
Qed.

(** Pages [first .. first + n] of the view show consecutive pages from [pa] on. *)
Definition mapped_to (pa flags first n : Z) (view : Z -> Z) (m : Z) : Z :=
  if decide (first <= m <= first + n) then pa + (m - first) * PAGE_SIZE + flags else view m.

Lemma map_loop_ok a size flags n : forall s i k v pa,
  paging s -> is_Some (table (phys s) (cr3 s) i) -> 0 <= i -> 0 <= k < 1024 ->
  i * 1024 + k + Z.of_nat n < 1023 * 1024 -> entry_flags flags ->
  (forall j, i <= j -> j * 1024 <= i * 1024 + k + Z.of_nat n -> big (phys s) (cr3 s) j = None) ->
  pa mod PAGE_SIZE = 0 -> 0 <= pa -> pa + (Z.of_nat n + 1) * PAGE_SIZE <= 2 ^ 32 ->
  (k + Z.of_nat n) / 1024 <= Segment.free_pages (head s) ->
  room (heap s) ((k + Z.of_nat n) / 1024 * Segment.split_room) ->
  wp (map_loop a size flags PD_MIRROR i k v pa n) s (fun r s' =>
    r = 1 /\ paging s' /\ grows s s' /\
    forall m, view_page m -> pte (phys s') (cr3 s) m =
      mapped_to pa flags (i * 1024 + k) (Z.of_nat n) (pte (phys s) (cr3 s)) m).
Proof.
  induction n as [|n IH]; intros s i k v pa Hpg [f Hf] Hi Hk Hmax Hfl Hbig Hpa Hpa0 Hpa1 Hfree Hroom.
  all: cbn [map_loop]; step; apply (wp_store_table _ _ _ f); [apply Hpg|lia|done..|].
  all: destruct (write_paging s i k f (Z.lor pa flags)) as (Hpg1 & Hgr1 & Ht1 & Hv1); [done|lia|done..|].
  all: destruct (entry_ok pa flags Hpa ltac:(unfold PAGE_SIZE in *; lia) Hfl) as (Hlor & _).
  all: set (s1 := set_phys _ s) in *.
  { step. split_and!; try done. intros m Hm. rewrite Hv1, Hlor by done. unfold mapped_to.
    repeat case_decide; try lia. }
  assert (forall s2, grows s1 s2 -> cr3 s2 = cr3 s /\ forall j, 0 <= j < 1024 ->
    big (phys s2) (cr3 s) j = big (phys s) (cr3 s) j) as Hbig2.
  { intros s2 Hgr2. pose proof (grows_trans _ _ _ Hgr1 Hgr2) as Hgr.
    split; [apply Hgr|apply (gr_big _ _ Hgr)]. }
  (* the rest of the loop, from page [i', k'] on *)
  assert (forall s2 i' k' v', paging s2 -> grows s1 s2 ->
    (forall m, view_page m -> pte (phys s2) (cr3 s) m = pte (phys s1) (cr3 s) m) ->
    is_Some (table (phys s2) (cr3 s) i') -> i <= i' -> 0 <= k' < 1024 ->
    i' * 1024 + k' = i * 1024 + k + 1 -> (k' + Z.of_nat n) / 1024 <= Segment.free_pages (head s2) ->
    room (heap s2) ((k' + Z.of_nat n) / 1024 * Segment.split_room) ->
    wp (map_loop a size flags PD_MIRROR i' k' v' (u32 (pa + PAGE_SIZE)) n) s2 (fun r s' =>
      r = 1 /\ paging s' /\ grows s s' /\
      forall m, view_page m -> pte (phys s') (cr3 s) m =
        mapped_to pa flags (i * 1024 + k) (Z.of_nat (S n)) (pte (phys s) (cr3 s)) m)) as Hrest.
  { intros s2 i' k' v' Hpg2 Hgr2 Hv2 Hs2 Hi' Hk' Heq Hfree2 Hroom2.
    destruct (Hbig2 s2 Hgr2) as [Hc Hb]. rewrite u32_small by (unfold PAGE_SIZE in *; lia).
    rewrite <-Hc in Hs2. eapply wp_mono.
    - apply IH; try done; try lia; try (unfold PAGE_SIZE in *; lia).
      + intros j Hj1 Hj2. rewrite Hc, Hb by lia. apply Hbig; lia.
      + page_arith.
    - intros r s' (-> & Hpg' & Hgr' & Hv'). split_and!; [done|done|eauto using grows_trans|].
      intros m Hm. rewrite <-Hc. rewrite Hv' by done. unfold mapped_to. rewrite Hc, Hv2, Hv1, Hlor by done.
      repeat case_decide; try lia. }
  cbv zeta. destruct (Z.gtb_spec (k + 1) 1023) as [Hgt|Hle].
  - assert (k = 1023) as -> by lia.
    assert ((1023 + Z.of_nat (S n)) / 1024 = 1 + Z.of_nat n / 1024) as Hq by page_arith.
    rewrite Hq in Hfree, Hroom.
    step. eapply wp_mono; [apply (install_ok s1 (i + 1) flags (Z.of_nat n / 1024 * Segment.split_room)); try done|].
    + lia.
    + rewrite (proj2 (Hbig2 s1 (grows_refl _))) by lia. apply Hbig; lia.
    + intros _. simpl. page_arith.
    + simpl. by replace (Segment.split_room + _) with ((1 + Z.of_nat n / 1024) * Segment.split_room) by lia.
    + unfold Segment.split_room, Segment.sizeof_segment, KMALLOC_OVERHEAD.
      assert (0 <= Z.of_nat n / 1024) by (apply Z.div_pos; lia). lia.
    + intros r s2 (-> & Hpg2 & Hgr2 & Hs2 & Hv2 & Hr2 & Hf2). simpl.
      apply Hrest; try done; try lia. rewrite Z.add_0_l. simpl in Hf2. lia.
  - apply Hrest; try done; try lia.
    + apply grows_refl.
    + rewrite Ht1 by lia. by eexists.
    + replace (k + 1 + Z.of_nat n) with (k + Z.of_nat (S n)) by lia. done.
    + replace (k + 1 + Z.of_nat n) with (k + Z.of_nat (S n)) by lia. done.
Qed.

(** The number of tables a range of [n] pages from virtual page [first] on uses. *)
Definition tables_used (first n : Z) : Z := (first mod 1024 + n - 1) / 1024 + 1.

Lemma map_mirror_ok a s vaddr paddr size flags :
  paging s -> vaddr mod PAGE_SIZE = 0 -> paddr mod PAGE_SIZE = 0 -> size mod PAGE_SIZE = 0 ->
  0 < size -> 0 <= vaddr -> vaddr + size <= 1023 * 4194304 -> 0 <= paddr -> paddr + size <= 2 ^ 32 ->
  (forall j, vaddr / 4194304 <= j -> j * 4194304 < vaddr + size -> big (phys s) (cr3 s) j = None) ->
  tables_used (vaddr / PAGE_SIZE) (size / PAGE_SIZE) <= Segment.free_pages (head s) ->
  room (heap s) (tables_used (vaddr / PAGE_SIZE) (size / PAGE_SIZE) * Segment.split_room) ->
  wp (map_mirror a vaddr paddr size flags) s (fun r s' =>
    r = 1 /\ paging s' /\ grows s s' /\
    forall m, view_page m -> pte (phys s') (cr3 s) m =
      mapped_to paddr (as_to_mmu_flags flags) (vaddr / PAGE_SIZE) (size / PAGE_SIZE - 1)
        (pte (phys s) (cr3 s)) m).
Proof.
  intros Hpg Hva Hpa Hsz Hs0 Hv0 Hv1 Hp0 Hp1 Hbig Hfree Hroom.
  pose proof (as_to_mmu_flags_ok flags) as Hfl. set (fl := as_to_mmu_flags flags) in *.
  unfold map_mirror, tables_used in *. fold fl.
  set (i := pd_index vaddr). set (k := pt_index vaddr).
  assert (i = vaddr / 4194304 /\ 0 <= i < 1023) as [Hi Hi1] by (unfold i; page_arith).
  assert (k = vaddr / PAGE_SIZE mod 1024 /\ 0 <= k < 1024) as [Hk Hk1] by (unfold k; page_arith).
  assert (i * 1024 + k = vaddr / PAGE_SIZE) as Hik by (rewrite Hi, Hk; page_arith).
  assert (Z.of_nat (pages_after size) = size / PAGE_SIZE - 1) as Hn.
  { unfold pages_after. rewrite u32_small by page_arith. page_arith. }
  assert (0 <= (k + size / PAGE_SIZE - 1) / 1024) by (apply Z.div_pos; page_arith).
  rewrite <-Hk in Hfree, Hroom.
  step. eapply wp_mono; [apply (install_ok s i fl ((k + size / PAGE_SIZE - 1) / 1024 * Segment.split_room)); try done|].
  - apply Hbig; [lia|]. rewrite Hi. page_arith.
  - lia.
  - by replace (Segment.split_room + _) with
      (((k + size / PAGE_SIZE - 1) / 1024 + 1) * Segment.split_room) by lia.
  - unfold Segment.split_room, Segment.sizeof_segment, KMALLOC_OVERHEAD. lia.
  - intros r s1 (-> & Hpg1 & Hgr1 & Hs1 & Hv & Hr1 & Hf1). simpl.
    destruct (gr_rest _ _ Hgr1) as [Hc _]. rewrite <-Hc in Hs1.
    eapply wp_mono; [apply map_loop_ok; try done; rewrite ?Hn; try lia|].
    + page_arith.
    + intros j Hj1 Hj2. rewrite Hc, (gr_big _ _ Hgr1) by page_arith. apply Hbig; [lia|]. page_arith.
    + page_arith.
    + rewrite Z.add_sub_assoc. lia.
    + by rewrite Z.add_sub_assoc.
    + intros r s' (-> & Hpg' & Hgr' & Hv'). split_and!; [done..|eauto using grows_trans|].
      intros m Hm. rewrite <-Hc, Hv' by done. rewrite Hn, Hik, Hc. unfold mapped_to.
      case_decide; [done|]. by apply Hv.
Qed.

(** *** Unmapping pages *)

(** [x] is the segment of a user table of the directory of [s] that [s'] does
    not have any more. *)
Definition freed_table s s' (x : Segment.segment) : Prop :=
  exists i, 0 <= i < 768 /\ table (phys s) (cr3 s) i = Some (Segment.base x) /\
            table (phys s') (cr3 s) i = None.

(** What unmapping leaves alone: everything but the tables of the directory, of
    which the user ones may be freed. *)
Record shrinks s s' : Prop := {
  sh_rest : cr3 s' = cr3 s /\ kernel_as s' = kernel_as s /\ spaces s' = spaces s /\
            current s' = current s;
  sh_segs : forall x, x ∈ head s -> Segment.ref_count x <> 0 -> x ∈ head s' \/ freed_table s s' x;
  sh_tables : forall i f, 0 <= i < 1024 ->
    table (phys s') (cr3 s) i = Some f -> table (phys s) (cr3 s) i = Some f;
  sh_kernel : forall i, 768 <= i < 1024 -> table (phys s') (cr3 s) i = table (phys s) (cr3 s) i;
  sh_big : forall i, 0 <= i < 1024 -> big (phys s') (cr3 s) i = big (phys s) (cr3 s) i;
  sh_phys : forall a,
    (forall i f, 0 <= i < 1024 -> table (phys s) (cr3 s) i = Some f -> ~ f <= a < f + PAGE_SIZE) ->
    phys s' a = phys s a;
  sh_room : forall b, room (heap s) b -> room (heap s') b;
  sh_free : forall p, Segment.page_ref (head s) p 0 -> Segment.page_ref (head s') p 0;
}.

Lemma shrinks_refl s : shrinks s s.
Proof. split; auto. Qed.

Lemma shrinks_trans s1 s2 s3 : shrinks s1 s2 -> shrinks s2 s3 -> shrinks s1 s3.
Proof.
  intros [(E1 & E2 & E3 & E4) A1 T1 K1 B1 P1 R1 F1] [(E5 & E6 & E7 & E8) A2 T2 K2 B2 P2 R2 F2].
  rewrite E1 in *. split.
  - split_and!; congruence.
  - intros x Hx Hr. destruct (A1 x Hx Hr) as [Hx2|(i & Hi & Hf & Hn)].
    + destruct (A2 x Hx2 Hr) as [|(i & Hi & Hf & Hn)]; [by left|]. right. exists i.
      rewrite E1 in Hf, Hn. split_and!; [lia..| |done]. apply T1; [lia|done].
    + right. exists i. split_and!; [lia..|done|].
      destruct (table (phys s3) _ i) as [g|] eqn:Hg; [|done]. apply T2 in Hg; [congruence|lia].
  - auto.
  - intros i Hi. by rewrite K2, K1.
  - intros i Hi. by rewrite B2, B1.
  - intros a Ha. rewrite P2; [by apply P1|]. intros i f Hi Hf. apply (Ha i f Hi). by apply T1.
  - auto.
  - auto.
Qed.

Lemma all_zero_ok s i f n :
  mirrored (phys s) (cr3 s) -> 0 <= i < 1024 -> table (phys s) (cr3 s) i = Some f -> (n <= 1024)%nat ->
  wp (all_zero (pt_of i) n) s (fun b s' => s' = s /\
    (b = true -> forall k, 1024 - Z.of_nat n <= k < 1024 -> phys s (f + 4 * k) = 0)).
Proof.
  intros Hm Hi Hf. induction n as [|n IH]; intros Hn; cbn [all_zero].
  { step. split; [done|]. intros _ k Hk. lia. }
  step. apply (wp_load_table _ _ _ f); [done..|lia|done|].
  destruct (Z.eqb_spec (phys s (f + 4 * (1023 - Z.of_nat n))) 0) as [Hz|]; [|by step].
  eapply wp_mono; [apply IH; lia|]. intros b s' [-> Hb]. split; [done|]. intros -> k Hk.
  destruct (decide (k = 1023 - Z.of_nat n)) as [->|]; [done|]. apply Hb; [done|lia].
Qed.

(** The address of a table is found through the mirror. *)
Lemma virt_to_phy_table s i f :
  mirrored (phys s) (cr3 s) -> 0 <= i < 1024 -> table (phys s) (cr3 s) i = Some f ->
  wp (mmu_virt_to_phy (pt_of i)) s (fun r s' => s' = s /\ r = f).
Proof.
  intros Hm Hi Hf. unfold mmu_virt_to_phy.
  assert (pd_index (pt_of i) = 1023) as -> by (rewrite pt_of_eq by done; page_arith).
  assert (pt_index (pt_of i) = i) as -> by (rewrite pt_of_eq by done; page_arith).
  step. apply wp_load_pd; [done..|].
  destruct (proj1 (table_Some _ _ _ _) (root_self _ _ Hm)) as (-> & _). simpl.
  step. change (pt_of 1023) with PD_MIRROR. apply wp_load_pd; [done..|].
  apply table_Some in Hf as (-> & _ & ->). by step.
Qed.

(** An empty user table given back. *)
Lemma remove_paging s segs' i seg :
  paging s -> 0 <= i < 768 -> table (phys s) (cr3 s) i = Some (Segment.base seg) ->
  seg ∈ head s -> Segment.page_size seg = 1 -> Segment.ref_count seg = 1 -> Segment.base seg <> 0 ->
  Segment.seg_inv F segs' -> Segment.dropped (segs s) segs' seg ->
  (forall p r, Segment.page_ref (Segment.segment_head segs') p r <->
     Segment.set_refs (Segment.page_ref (head s)) (Segment.base seg / PAGE_SIZE) 1 0 p r) ->
  (forall k, 0 <= k < 1024 -> phys s (Segment.base seg + 4 * k) = 0) ->
  let s' := set_phys (write_word (cr3 s + 4 * i) 0 (phys s)) (set_segs segs' s) in
  paging s' /\ shrinks s s' /\
  (forall j, j <> i -> 0 <= j < 1024 -> table (phys s') (cr3 s) j = table (phys s) (cr3 s) j) /\
  forall n, view_page n -> pte (phys s') (cr3 s) n = pte (phys s) (cr3 s) n.
Proof.
  intros [Hsi Hm Hz Hu Hus] Hi Hf Hin Hps Hr1 Hne Hsi' (_ & Hkept & _ & Hroom) Href Hzero s'.
  destruct (write_dir (phys s) (cr3 s) i 0 Hm ltac:(lia)) as (Hm' & Hw & Hd & Hv); [done|].
  change (write_word (cr3 s + 4 * i) 0 (phys s)) with (phys s') in Hm', Hw, Hd, Hv.
  assert (table (phys s') (cr3 s) i = None) as Hti by (unfold table; by rewrite Hw).
  assert (forall j, j <> i -> 0 <= j < 1024 -> table (phys s') (cr3 s) j = table (phys s) (cr3 s) j) as Ht.
  { intros j Hj Hj'. unfold table. by rewrite Hd. }
  assert (forall j g, 0 <= j < 1024 -> table (phys s') (cr3 s) j = Some g ->
    j <> i /\ table (phys s) (cr3 s) j = Some g /\ g <> Segment.base seg) as Hold.
  { intros j g Hj Hg. destruct (decide (j = i)) as [->|Hji]; [congruence|]. rewrite Ht in Hg by done.
    split_and!; [done..|]. intros ->. apply Hji, (tables_inj _ _ Hm _ _ (Segment.base seg)); done || lia. }
  assert (forall g, g mod PAGE_SIZE = 0 -> g <> Segment.base seg -> free_page s' g -> free_page s g) as Hfr.
  { intros g Hgm Hg Hfg. unfold free_page in Hfg. simpl in Hfg. apply Href in Hfg.
    unfold Segment.set_refs in Hfg. case_decide; [|done]. exfalso. apply Hg.
    destruct (table_page _ _ _ _ Hf). page_arith. }
  split_and!; [split|split| |]; try done.
  - intros Hz0. apply Hz, Hfr; done.
  - intros j g Hj (_ & Hg & Hne')%Hold Hgf; [|done]. apply (Hu j g Hj Hg), Hfr; [|done..].
    by eapply table_page.
  - intros j g Hj (_ & Hg & Hne')%Hold; [|lia]. destruct (Hus j g Hj Hg) as (x & Hx & Hxb & Hxp & Hxr).
    exists x. split_and!; try done. apply Hkept; [done| |by rewrite Hxr]. intros E. apply Hne'. subst g.
    by rewrite (Segment.addr_unique F (segs s) x seg (proj2 Hsi)).
  - intros x Hx Hxr. destruct (decide (Segment.seg_addr x = Segment.seg_addr seg)) as [E|Hxs].
    + right. exists i. split_and!; [lia..| |done].
      by rewrite (Segment.addr_unique F (segs s) x seg (proj2 Hsi)).
    + left. by apply Hkept.
  - intros j g Hj Hg. by apply Hold.
  - intros j Hj. apply Ht; lia.
  - intros j Hj. unfold big. destruct (decide (j = i)) as [->|]; [|by rewrite Hd].
    rewrite Hw. apply table_Some in Hf as (-> & -> & _). done.
  - intros a Ha. simpl. unfold write_word. rewrite (proj2 (Z.eqb_neq _ _)); [done|].
    specialize (Ha 1023 (cr3 s) ltac:(lia) (root_self _ _ Hm)). unfold PAGE_SIZE in Ha. lia.
  - intros p Hp. simpl. apply Href. unfold Segment.set_refs. by case_decide.
  - intros n Hn. destruct (decide (n / 1024 = i)) as [Hni|]; [|by apply Hv].
    unfold pte. rewrite Hni, Hti, Hf. symmetry. apply Hzero. page_arith.
Qed.

Lemma clean_table_ok s i :
  paging s -> 0 <= i < 1023 -> is_Some (table (phys s) (cr3 s) i) ->
  wp (clean_if_needed (pt_of i) PD_MIRROR i) s (fun _ s' => paging s' /\ shrinks s s' /\
    (forall j, j <> i -> 0 <= j < 1024 -> table (phys s') (cr3 s) j = table (phys s) (cr3 s) j) /\
    forall n, view_page n -> pte (phys s') (cr3 s) n = pte (phys s) (cr3 s) n).
Proof.
  intros Hpg Hi [f Hf]. pose proof Hpg as [Hsi Hm _ _ Hus]. unfold clean_if_needed.
  pose proof (shrinks_refl s) as Hsh. rewrite Z.geb_leb.
  destruct (Z.leb_spec 768 i); [by step|].
  step. eapply wp_mono; [apply (all_zero_ok s i f 1024); done || lia|]. intros b s1 [-> Hb].
  destruct b; [|by step]. specialize (Hb eq_refl). simpl.
  step. eapply wp_mono; [apply (virt_to_phy_table s i f); done || lia|]. intros ? s1 [-> ->].
  destruct (Z.eqb_spec f 0) as [|Hne]; [by step|].
  destruct (Hus i f ltac:(lia) Hf) as (seg & Hin & <- & Hps & Hr).
  step. apply wp_zoom. eapply wp_mono; [apply (Segment.segment_free_ok F); [done..|by rewrite Hr]|].
  intros _ g (Hsi' & Hdr & Href). rewrite Hps, Hr in Href.
  apply wp_store_pd; [done|lia|]. by apply (remove_paging s g i seg); try lia.
Qed.

Lemma write_shrinks s i k f w :
  mirrored (phys s) (cr3 s) -> 0 <= i < 1023 -> 0 <= k < 1024 -> table (phys s) (cr3 s) i = Some f ->
  shrinks s (set_phys (write_word (f + 4 * k) w (phys s)) s).
Proof.
  intros Hm Hi Hk Hf. destruct (write_table _ _ i k f w Hm Hi Hk Hf) as (Hm' & Hd & Hv).
  destruct (mirrored_same _ _ _ Hd Hm) as [_ Ht]. split; try done.
  - intros. by left.
  - intros j g Hj. simpl. by rewrite Ht.
  - intros j Hj. simpl. rewrite Ht; [done|lia].
  - intros j Hj. unfold big. simpl. by rewrite Hd.
  - intros a Ha. simpl. unfold write_word. rewrite (proj2 (Z.eqb_neq _ _)); [done|].
    specialize (Ha i f ltac:(lia) Hf). unfold PAGE_SIZE in Ha. lia.
Qed.

(** Pages [first .. first + n] of the view are gone. *)
Definition unmapped (first n : Z) (view : Z -> Z) (m : Z) : Z :=
  if decide (first <= m <= first + n) then 0 else view m.

(** The cleaning of a table at the end of its part of the range. *)
Lemma clean_step (kernel : bool) s i :
  paging s -> 0 <= i < 1023 -> is_Some (table (phys s) (cr3 s) i) ->
  wp (if kernel then ret tt else clean_if_needed (pt_of i) PD_MIRROR i) s (fun _ s' =>
    paging s' /\ shrinks s s' /\
    (forall j, j <> i -> 0 <= j < 1024 -> table (phys s') (cr3 s) j = table (phys s) (cr3 s) j) /\
    forall n, view_page n -> pte (phys s') (cr3 s) n = pte (phys s) (cr3 s) n).
Proof.
  intros Hpg Hi Hs. destruct kernel; [|by apply clean_table_ok]. step. by pose proof (shrinks_refl s).
Qed.

Lemma unmap_loop_ok kernel n : forall s i k,
  paging s -> 0 <= i -> 0 <= k < 1024 -> i * 1024 + k + Z.of_nat n < 1023 * 1024 ->
  (forall j, i <= j -> j * 1024 <= i * 1024 + k + Z.of_nat n -> is_Some (table (phys s) (cr3 s) j)) ->
  wp (unmap_loop kernel PD_MIRROR i k n) s (fun _ s' => paging s' /\ shrinks s s' /\
    forall m, view_page m -> pte (phys s') (cr3 s) m =
      unmapped (i * 1024 + k) (Z.of_nat n) (pte (phys s) (cr3 s)) m).
Proof.
  induction n as [|n IH]; intros s i k Hpg Hi Hk Hmax Htabs.
  all: destruct (Htabs i) as [f Hf]; [lia..|]; pose proof (pg_mirror _ Hpg) as Hm.
  all: cbn [unmap_loop]; step; apply (wp_store_table _ _ _ f); [done|lia|done..|].
  all: destruct (write_paging s i k f 0) as (Hpg1 & _ & Ht1 & Hv1); [done|lia|done..|].
  all: pose proof (write_shrinks s i k f 0 Hm ltac:(lia) Hk Hf) as Hsh1.
  all: set (s1 := set_phys _ s) in *.
  { eapply wp_mono; [apply (clean_step kernel s1 i); [done|lia|simpl; rewrite Ht1 by lia; by eexists]|].
    intros _ s' (Hpg' & Hsh' & _ & Hv'). split_and!; [done|eauto using shrinks_trans|].
    intros m Hm'. simpl in Hv'. rewrite Hv', Hv1 by done. unfold unmapped. repeat case_decide; lia. }
  assert (forall s2 i' k', paging s2 -> shrinks s1 s2 ->
    (forall m, view_page m -> pte (phys s2) (cr3 s) m = pte (phys s1) (cr3 s) m) ->
    (forall j, i' <= j < 1024 -> table (phys s2) (cr3 s) j = table (phys s) (cr3 s) j) ->
    i <= i' -> 0 <= k' < 1024 -> i' * 1024 + k' = i * 1024 + k + 1 ->
    wp (unmap_loop kernel PD_MIRROR i' k' n) s2 (fun _ s' => paging s' /\ shrinks s s' /\
      forall m, view_page m -> pte (phys s') (cr3 s) m =
        unmapped (i * 1024 + k) (Z.of_nat (S n)) (pte (phys s) (cr3 s)) m)) as Hrest.
  { intros s2 i' k' Hpg2 Hsh2 Hv2 Ht2 Hi' Hk' Heq.
    destruct (sh_rest _ _ Hsh2) as [Hc _]. simpl in Hc. eapply wp_mono.
    - apply IH; try done; try lia. intros j Hj1 Hj2. rewrite Hc, Ht2 by lia. apply Htabs; lia.
    - intros _ s' (Hpg' & Hsh' & Hv'). split_and!; [done|eauto using shrinks_trans|].
      intros m Hm'. rewrite <-Hc, Hv' by done. unfold unmapped. rewrite Hc, Hv2, Hv1 by done.
      repeat case_decide; lia. }
  cbv zeta. destruct (Z.gtb_spec (k + 1) 1023) as [Hgt|Hle].
  - step. eapply wp_mono; [apply (clean_step kernel s1 i); [done|lia|simpl; rewrite Ht1 by lia; by eexists]|].
    intros _ s2 (Hpg2 & Hsh2 & Ht2 & Hv2). apply Hrest; try done; try lia.
    intros j Hj. simpl in Ht2. rewrite Ht2 by lia. apply Ht1. lia.
  - apply Hrest; try done; try lia; [apply shrinks_refl|]. intros j Hj. apply Ht1. lia.
Qed.

(** *** The tables of an address space *)

(** The directory [mmu_map] and [mmu_unmap] work on. *)
Definition root_of (a : as_ptr) s : Z :=
  if decide (a = KernelAs \/ current s = Some a) then cr3 s
  else match as_at a s with Some d => as_cr3 d | None => 0 end.

Lemma set_cr3_same s : set_cr3 (cr3 s) s = s.
Proof. by destruct s. Qed.

Lemma wp_in_space a (m : M (mem H) Z) s Q :
  is_Some (as_at a s) ->
  wp m (set_cr3 (root_of a s) s) (fun r s' =>
    cr3 s' = root_of a s /\ Q r (set_cr3 (cr3 s) s')) ->
  wp (in_space a m) s Q.
Proof.
  intros [d Hd] Hm. unfold in_space, cr3_get, cr3_set, root_of in *. rewrite Hd in Hm. step. step. step.
  assert (wp m (set_cr3 (cr3 s) s) (fun r s' => cr3 s' = cr3 s /\ Q r (set_cr3 (cr3 s) s')) ->
          wp m s Q) as Hsame.
  { rewrite set_cr3_same. intros Hm'. eapply wp_mono; [done|]. intros r s' [Hc HQ].
    by rewrite <-Hc, set_cr3_same in HQ. }
  step. destruct (decide (a = KernelAs)) as [Ha|Ha].
  { rewrite decide_True in Hm by auto. auto. }
  step. step. destruct (decide (current s = Some a)) as [Hcur|Hcur].
  { rewrite decide_True in Hm by auto. auto. }
  rewrite decide_False in Hm by tauto. rewrite Hd. step. step. step.
  eapply wp_mono; [done|]. intros r s' [_ HQ]. step. step. by step.
Qed.

Lemma mmu_map_ok a s vaddr paddr size flags :
  let s0 := set_cr3 (root_of a s) s in
  is_Some (as_at a s) -> paging s0 ->
  vaddr mod PAGE_SIZE = 0 -> paddr mod PAGE_SIZE = 0 -> size mod PAGE_SIZE = 0 ->
  0 < size -> 0 <= vaddr -> vaddr + size <= 1023 * 4194304 -> 0 <= paddr -> paddr + size <= 2 ^ 32 ->
  (forall j, vaddr / 4194304 <= j -> j * 4194304 < vaddr + size -> big (phys s) (root_of a s) j = None) ->
  tables_used (vaddr / PAGE_SIZE) (size / PAGE_SIZE) <= Segment.free_pages (head s) ->
  room (heap s) (tables_used (vaddr / PAGE_SIZE) (size / PAGE_SIZE) * Segment.split_room) ->
  wp (mmu_map a vaddr paddr size flags) s (fun r s' => exists s0',
    r = 1 /\ s' = set_cr3 (cr3 s) s0' /\ paging s0' /\ grows s0 s0' /\
    forall m, view_page m -> pte (phys s0') (root_of a s) m =
      mapped_to paddr (as_to_mmu_flags flags) (vaddr / PAGE_SIZE) (size / PAGE_SIZE - 1)
        (pte (phys s) (root_of a s)) m).
Proof.
  intros s0 Has Hpg **. unfold mmu_map. apply wp_in_space; [done|].
  eapply wp_mono; [by apply map_mirror_ok|]. intros r s0' (-> & Hpg' & Hgr & Hv).
  split; [apply Hgr|]. by exists s0'.
Qed.

Lemma mmu_unmap_ok a s vaddr size :
  let s0 := set_cr3 (root_of a s) s in
  is_Some (as_at a s) -> paging s0 ->
  vaddr mod PAGE_SIZE = 0 -> size mod PAGE_SIZE = 0 ->
  0 < size -> 0 <= vaddr -> vaddr + size <= 1023 * 4194304 ->
  (forall j, vaddr / 4194304 <= j -> j * 4194304 < vaddr + size ->
     is_Some (table (phys s) (root_of a s) j)) ->
  wp (mmu_unmap a vaddr size) s (fun r s' => exists s0',
    r = 1 /\ s' = set_cr3 (cr3 s) s0' /\ paging s0' /\ shrinks s0 s0' /\
    forall m, view_page m -> pte (phys s0') (root_of a s) m =
      unmapped (vaddr / PAGE_SIZE) (size / PAGE_SIZE - 1) (pte (phys s) (root_of a s)) m).
Proof.
  intros s0 Has Hpg Hva Hsz Hs0 Hv0 Hv1 Ht. unfold mmu_unmap. apply wp_in_space; [done|].
  unfold unmap_mirror. step.
  assert (Z.of_nat (pages_after size) = size / PAGE_SIZE - 1) as Hn.
  { unfold pages_after. rewrite u32_small by page_arith. page_arith. }
  assert (pd_index vaddr * 1024 + pt_index vaddr = vaddr / PAGE_SIZE) as Hik by page_arith.
  eapply wp_mono; [apply unmap_loop_ok; try done; rewrite ?Hn, ?Hik; try page_arith|].
  - intros j Hj1 Hj2. apply Ht; page_arith.
  - intros _ s0' (Hpg' & Hsh & Hv). rewrite Hn, Hik in Hv. step. split; [apply Hsh|]. by exists s0'.
Qed.

(** What the changes of the view mean for the processor. *)
Lemma mapped_walk p p' root vaddr paddr size flags :
  mirrored p root -> mirrored p' root ->
  (forall i, 0 <= i < 1024 -> big p' root i = big p root i) ->
  (forall m, view_page m -> pte p' root m =
     mapped_to paddr flags (vaddr / PAGE_SIZE) (size / PAGE_SIZE - 1) (pte p root) m) ->
  entry_flags flags ->
  vaddr mod PAGE_SIZE = 0 -> paddr mod PAGE_SIZE = 0 -> size mod PAGE_SIZE = 0 ->
  0 <= vaddr -> vaddr + size <= 1023 * 4194304 -> 0 <= paddr -> paddr + size <= 2 ^ 32 ->
  (forall j, vaddr / 4194304 <= j -> j * 4194304 < vaddr + size -> big p root j = None) ->
  (forall v, vaddr <= v < vaddr + size ->
     walk p' root v = Some (paddr + (v - vaddr)) /\
     pte p' root (v / PAGE_SIZE) = frame (paddr + (v - vaddr)) + flags /\
     is_Some (table p' root (v / 4194304))) /\
  (forall v, 0 <= v < 1023 * 4194304 -> ~ vaddr <= v < vaddr + size ->
     walk p' root v = walk p root v).
Proof.
  intros Hm Hm' Hb Hv Hfl Hva Hpa Hsz Hv0 Hv1 Hp0 Hp1 Hbig. split.
  - intros v Hvr.
    assert (paddr + (v / PAGE_SIZE - vaddr / PAGE_SIZE) * PAGE_SIZE = frame (paddr + (v - vaddr))) as Ef
      by page_arith.
    assert (pte p' root (v / PAGE_SIZE) = frame (paddr + (v - vaddr)) + flags) as Hpte.
    { rewrite Hv by (unfold view_page; page_arith). unfold mapped_to.
      rewrite decide_True by page_arith. by rewrite Ef. }
    destruct (entry_ok (frame (paddr + (v - vaddr))) flags) as (Hlor & Hfr & Hpr & _);
      [apply frame_range..|done|]. rewrite Hlor in Hfr, Hpr.
    split_and!; [|done|].
    + rewrite walk_translate by (done || lia). unfold translate.
      rewrite Hb, Hbig, Hpte, Hpr, Hfr by page_arith. f_equal. page_arith.
    + unfold pte in Hpte. replace (v / PAGE_SIZE / 1024) with (v / 4194304) in Hpte by page_arith.
      destruct (table p' root (v / 4194304)); [by eexists|]. by rewrite <-Hpte in Hpr.
  - intros v Hvr Hout. rewrite !walk_translate by (done || lia). unfold translate.
    rewrite Hb, Hv by (unfold view_page; page_arith). unfold mapped_to.
    rewrite decide_False by page_arith. done.
Qed.

Lemma unmapped_walk p p' root vaddr size :
  mirrored p root -> mirrored p' root ->
  (forall i, 0 <= i < 1024 -> big p' root i = big p root i) ->
  (forall m, view_page m -> pte p' root m =
     unmapped (vaddr / PAGE_SIZE) (size / PAGE_SIZE - 1) (pte p root) m) ->
  vaddr mod PAGE_SIZE = 0 -> size mod PAGE_SIZE = 0 ->
  0 <= vaddr -> vaddr + size <= 1023 * 4194304 ->
  (forall j, vaddr / 4194304 <= j -> j * 4194304 < vaddr + size -> is_Some (table p root j)) ->
  (forall v, vaddr <= v < vaddr + size -> walk p' root v = None) /\
  (forall v, 0 <= v < 1023 * 4194304 -> ~ vaddr <= v < vaddr + size ->
     walk p' root v = walk p root v).
Proof.
  intros Hm Hm' Hb Hv Hva Hsz Hv0 Hv1 Ht. split.
  - intros v Hvr. rewrite walk_translate by (done || lia). unfold translate.
    destruct (Ht (v / 4194304)) as [f (Hpr & H4 & _)%table_Some]; [page_arith..|].
    rewrite Hb by page_arith. unfold big. rewrite Hpr, H4. simpl.
    rewrite Hv by (unfold view_page; page_arith). unfold unmapped.
    by rewrite decide_True by page_arith.
  - intros v Hvr Hout. rewrite !walk_translate by (done || lia). unfold translate.
    rewrite Hb, Hv by (unfold view_page; page_arith). unfold unmapped.
    rewrite decide_False by page_arith. done.
Qed.

(** ** Properties *)

(** C12: After [mmu_map] the processor translates every address of the range to
    the matching address of the physical range, with the flags asked for, and
    every other address as before.  Nothing is written outside the tables of
    the address space and pages that were free; the segments in use keep their
    references, and the directory loaded before is loaded again.  It takes as
    many free pages as the range uses tables. *)
Theorem mmu_map_maps a s vaddr paddr size flags :
  let root := root_of a s in
  is_Some (as_at a s) -> paging (set_cr3 root s) ->
  vaddr mod PAGE_SIZE = 0 -> paddr mod PAGE_SIZE = 0 -> size mod PAGE_SIZE = 0 ->
  0 < size -> 0 <= vaddr -> vaddr + size <= 1023 * 4194304 -> 0 <= paddr -> paddr + size <= 2 ^ 32 ->
  (forall j, vaddr / 4194304 <= j -> j * 4194304 < vaddr + size -> big (phys s) root j = None) ->
  tables_used (vaddr / PAGE_SIZE) (size / PAGE_SIZE) <= Segment.free_pages (head s) ->
  room (heap s) (tables_used (vaddr / PAGE_SIZE) (size / PAGE_SIZE) * Segment.split_room) ->
  wp (mmu_map a vaddr paddr size flags) s (fun r s' =>
    r = 1 /\ cr3 s' = cr3 s /\ paging (set_cr3 root s') /\
    (forall v, vaddr <= v < vaddr + size ->
       walk (phys s') root v = Some (paddr + (v - vaddr)) /\
       pte (phys s') root (v / PAGE_SIZE) = frame (paddr + (v - vaddr)) + as_to_mmu_flags flags) /\
    (forall v, 0 <= v < 1023 * 4194304 -> ~ vaddr <= v < vaddr + size ->
       walk (phys s') root v = walk (phys s) root v) /\
    (forall x, ~ Segment.page_ref (head s) (x / PAGE_SIZE) 0 ->
       (forall i f, 0 <= i < 1024 -> table (phys s) root i = Some f -> ~ f <= x < f + PAGE_SIZE) ->
       phys s' x = phys s x) /\
    (forall x, x ∈ head s -> Segment.ref_count x <> 0 -> x ∈ head s')).
Proof.
  intros root Has Hpg Hva Hpa Hsz Hs0 Hv0 Hv1 Hp0 Hp1 Hbig Hfree Hroom.
  eapply wp_mono; [by apply mmu_map_ok|]. intros r s' (s0' & -> & -> & Hpg' & Hgr & Hv).
  fold root in Hv, Hgr. destruct (gr_rest _ _ Hgr) as [Hc _]. simpl in Hc.
  pose proof (pg_mirror _ Hpg) as Hm. pose proof (pg_mirror _ Hpg') as Hm'. rewrite Hc in Hm'. simpl in Hm.
  assert (forall i, 0 <= i < 1024 -> big (phys s0') root i = big (phys s) root i) as Hb
    by apply (gr_big _ _ Hgr).
  destruct (mapped_walk (phys s) (phys s0') root vaddr paddr size (as_to_mmu_flags flags))
    as [Hw1 Hw2]; try done; [apply as_to_mmu_flags_ok|].
  split_and!; [done..| | | | |].
  - replace (set_cr3 root _) with s0'; [done|]. rewrite <-Hc. by destruct s0'.
  - intros v Hvr. by destruct (Hw1 v Hvr) as (? & ? & _).
  - done.
  - intros x Hnf Hnt. apply (gr_phys _ _ Hgr). intros i f Hi Hf Hx.
    destruct (gr_new _ _ Hgr i f Hi Hf) as [Hf'|Hf']; [by apply (Hnt i f)|].
    apply Hnf. destruct (table_page _ _ _ _ Hf). unfold free_page in Hf'.
    by replace (x / PAGE_SIZE) with (f / PAGE_SIZE) by page_arith.
  - apply (gr_segs _ _ Hgr).
Qed.

(** C13: After [mmu_unmap] no address of the range is mapped and every other
    address is translated as before.  Nothing is written outside the tables,
    and the only pages given back are those of user tables that became empty. *)
Theorem mmu_unmap_unmaps a s vaddr size :
  let root := root_of a s in
  is_Some (as_at a s) -> paging (set_cr3 root s) ->
  vaddr mod PAGE_SIZE = 0 -> size mod PAGE_SIZE = 0 ->
  0 < size -> 0 <= vaddr -> vaddr + size <= 1023 * 4194304 ->
  (forall j, vaddr / 4194304 <= j -> j * 4194304 < vaddr + size -> is_Some (table (phys s) root j)) ->
  wp (mmu_unmap a vaddr size) s (fun r s' =>
    r = 1 /\ cr3 s' = cr3 s /\ paging (set_cr3 root s') /\
    (forall v, vaddr <= v < vaddr + size -> walk (phys s') root v = None) /\
    (forall v, 0 <= v < 1023 * 4194304 -> ~ vaddr <= v < vaddr + size ->
       walk (phys s') root v = walk (phys s) root v) /\
    (forall x, (forall i f, 0 <= i < 1024 -> table (phys s) root i = Some f -> ~ f <= x < f + PAGE_SIZE) ->
       phys s' x = phys s x) /\
    (forall x, x ∈ head s -> Segment.ref_count x <> 0 ->
       x ∈ head s' \/ exists i, 0 <= i < 768 /\ table (phys s) root i = Some (Segment.base x) /\
                       forall n, n / 1024 = i -> pte (phys s') root n = 0)).
Proof.
  intros root Has Hpg Hva Hsz Hs0 Hv0 Hv1 Ht.
  eapply wp_mono; [by apply mmu_unmap_ok|]. intros r s' (s0' & -> & -> & Hpg' & Hsh & Hv).
  fold root in Hv, Hsh. destruct (sh_rest _ _ Hsh) as [Hc _]. simpl in Hc.
  pose proof (pg_mirror _ Hpg) as Hm. pose proof (pg_mirror _ Hpg') as Hm'. rewrite Hc in Hm'. simpl in Hm.
  assert (forall i, 0 <= i < 1024 -> big (phys s0') root i = big (phys s) root i) as Hb
    by apply (sh_big _ _ Hsh).
  destruct (unmapped_walk (phys s) (phys s0') root vaddr size) as [Hw1 Hw2]; try done.
  split_and!; [done..| | | | |].
  - replace (set_cr3 root _) with s0'; [done|]. rewrite <-Hc. by destruct s0'.
  - done.
  - done.
  - apply (sh_phys _ _ Hsh).
  - intros x Hx Hr. destruct (sh_segs _ _ Hsh x Hx Hr) as [|(i & Hi & Hf & Hn)]; [by left|right].
    exists i. split_and!; [lia..|done|]. intros n Hni. unfold pte. rewrite Hni.
    simpl in Hn |- *. by rewrite Hn.
Qed.
End inv.

(** ** A concrete machine

    The kernel's directory is in page 1 and the directory of the address space
    at 500 in page 2; both have nothing but their mirror entry. *)

#[local] Existing Instance Kmalloc.kmalloc_kheap.

Definition empty_as (c : Z) : as_t :=
  {| region_lock := false; regions := []; map_lock := false; mapping := []; as_cr3 := c |}.

Definition sample_mem (g : Segment.segs Kmalloc.heap) : mem Kmalloc.heap := {|
  phys := fun x => if x =? 4096 + 4 * 1023 then 4099 else if x =? 8192 + 4 * 1023 then 8195 else 0;
  cr3 := 4096;
  segs := g;
  kernel_as := empty_as 4096;
  spaces := {[ 500 := empty_as 8192 ]};
  current := None;
|}.

Lemma sample_tables g i :
  0 <= i < 1024 -> pde (phys (sample_mem g)) 8192 i = if decide (i = 1023) then 8195 else 0.
Proof.
  intros Hi. unfold pde. simpl. rewrite (proj2 (Z.eqb_neq _ _)) by lia.
  case_decide as Hd; [by subst|]. by rewrite (proj2 (Z.eqb_neq _ _)) by lia.
Qed.

Lemma sample_mirrored g : mirrored (phys (sample_mem g)) 8192.
Proof.
  assert (forall i f, 0 <= i < 1024 -> table (phys (sample_mem g)) 8192 i = Some f -> i = 1023) as Ht.
  { intros i f Hi. unfold table. rewrite sample_tables by done. case_decide; [done|]. done. }
  split; [done..|]. intros i j f Hi Hj H1 H2. transitivity 1023; [eauto|symmetry; eauto].
Qed.

Lemma sample_paging : paging [] (set_cr3 8192 (sample_mem Segment.sample_segs)).
Proof.
  assert (forall n, 0 <= n < 160 -> ~ Segment.page_ref (Segment.segment_head Segment.sample_segs) n 0) as Hu.
  { intros n Hn (x & Hx & Hin & Hr).
    repeat (apply elem_of_cons in Hx as [->|Hx]; [unfold Segment.in_seg, Segment.seg_stop, PAGE_SIZE in Hin; simpl in *; lia|]).
    by apply not_elem_of_nil in Hx. }
  split.
  - apply Segment.sample_segs_inv.
  - apply sample_mirrored.
  - apply Hu. done.
  - intros i f Hi. unfold table. change (cr3 _) with 8192.
    change (phys (set_cr3 _ ?m)) with (phys m). rewrite sample_tables by done.
    case_decide; [|done]. intros [= <-]. apply Hu. done.
  - intros i f Hi. unfold table. change (cr3 _) with 8192.
    change (phys (set_cr3 _ ?m)) with (phys m). rewrite sample_tables by lia. by rewrite decide_False by lia.
Qed.

Lemma sample_big g j : 0 <= j < 1023 -> big (phys (sample_mem g)) 8192 j = None.
Proof. intros Hj. unfold big. rewrite sample_tables by lia. by rewrite decide_False by lia. Qed.

Lemma mmu_map_maps_witness :
  let s := sample_mem Segment.sample_segs in
  wp (mmu_map (UserAs 500) 4194304 20480 8192 AS_MAP_WRITE) s (fun r s' =>
    r = 1 /\ walk (phys s') 8192 4198399 = Some (20480 + 4095)).
Proof.
  intros s. eapply wp_mono.
  - apply (mmu_map_maps [] (UserAs 500) s 4194304 20480 8192 AS_MAP_WRITE); try done.
    + apply sample_paging.
    + intros j Hj1 Hj2. apply sample_big. change (4194304 / 4194304) with 1 in Hj1. lia.
    + apply Segment.sample_segs_room.
  - intros r s' (-> & _ & _ & Hw & _). split; [done|]. by apply Hw.
Defined.

Lemma mmu_unmap_unmaps_witness :
  let s := sample_mem Segment.sample_segs in
  wp (mmu_map (UserAs 500) 4194304 20480 8192 AS_MAP_WRITE ;;; mmu_unmap (UserAs 500) 4194304 4096) s
    (fun r s' => r = 1 /\ walk (phys s') 8192 4194304 = None).
Proof.
  intros s. step. eapply wp_mono.
  - apply (mmu_map_ok [] (UserAs 500) s 4194304 20480 8192 AS_MAP_WRITE); try done.
    + apply sample_paging.
    + intros j Hj1 Hj2. apply sample_big. change (4194304 / 4194304) with 1 in Hj1. lia.
    + apply Segment.sample_segs_room.
  - intros r s' (s0 & -> & -> & Hpg & Hgr & Hv).
    destruct (gr_rest _ _ Hgr) as (Hc & Hk & Hs & Hcur).
    assert (root_of (UserAs 500) (set_cr3 (cr3 s) s0) = 8192) as Hroot.
    { unfold root_of, as_at. simpl. rewrite Hs, Hcur. done. }
    eapply wp_mono; [apply (mmu_unmap_unmaps [] (UserAs 500) (set_cr3 (cr3 s) s0) 4194304 4096); try done|].
    + unfold as_at. simpl. rewrite Hs. by eexists.
    + rewrite Hroot. replace (set_cr3 8192 _) with s0; [done|].
      change 8192 with (cr3 (set_cr3 8192 s)). destruct s0. simpl in *. by rewrite Hc.
    + rewrite Hroot. intros j Hj1 Hj2. change (4194304 / 4194304) with 1 in Hj1. assert (j = 1) as -> by lia.
      specialize (Hv 1024 ltac:(done)). change (root_of (UserAs 500) s) with 8192 in Hv.
      unfold pte in Hv. simpl phys. change (1024 / 1024) with 1 in Hv.
      destruct (table (phys s0) 8192 1); [by eexists|]. done.
    + intros r s' (-> & _ & _ & Hw & _). split; [done|]. rewrite Hroot in Hw. by apply Hw.
Defined.

(** Only one page is left. *)
Definition scarce_segs : Segment.segs Kmalloc.heap :=
  Segment.set_head [Segment.seg_used; Segment.set_page_size 1 Segment.seg_unused; Segment.seg_last]
    Segment.sample_segs.

(** When memory for the second page table of a range runs out, [map_mirror]
    does not undo its work and return 0: it unmaps from where it stopped instead
    of from the start of the range, which is in the table that is missing, and
    the kernel faults.  When the first table is missing it does return 0. *)
Theorem mmu_map_rollback_faults :
  mmu_map (UserAs 500) (1023 * PAGE_SIZE) 20480 (2 * PAGE_SIZE) AS_MAP_WRITE (sample_mem scarce_segs)
    = Undef /\
  wp (mmu_map (UserAs 500) (1023 * PAGE_SIZE) 20480 PAGE_SIZE AS_MAP_WRITE ;;;
      mmu_map (UserAs 500) (1024 * PAGE_SIZE) 24576 PAGE_SIZE AS_MAP_WRITE) (sample_mem scarce_segs)
    (fun r s' => r = 0 /\ walk (phys s') 8192 (1023 * PAGE_SIZE) = Some 20480).
Proof.
  split; [by vm_compute|]. unfold wp. by vm_compute.
Qed.
End Mmu.
