(* ===== verification/As.v ===== *)
(** Address spaces: kernel/core/mem/as.c, with the part of
    kernel/arch/i386/mmu.c that creates, duplicates and destroys directories,
    kernel/glue/i386-pc/as.c, and the copy on write of
    kernel/arch/i386/page_fault.c.

    The state is [Mmu.mem].  A mapping is a value with the address [map_addr] of
    its node; [region] and [heap] run the code of region.c and of kmalloc.c on
    the parts of the state it works on. *)

From S2P Require Import Prelude KHeap Kmalloc Segment Region Mmu.

Module As.
Import Mmu.

Definition AS_UNMAP_RELEASE : Z := 1.
Definition AS_UNMAP_NORELEASE : Z := 0.

(** virt, phy, size, flags and the two list pointers. *)
Definition sizeof_as_mapping : Z := 24.
(** Two locks, two list heads and cr3. *)
Definition sizeof_as : Z := 36.

Definition KERNEL_PHY_PD : Z := 1048576.
Definition KERNEL_VIRT_PD : Z := 3222274048.
Definition KERNEL_EXTRA_PT_BEGIN : Z := 8192.
Definition KERNEL_EXTRA_PT_END : Z := 524288.

(** [(x + PAGE_SIZE - 1) & ~(PAGE_SIZE - 1)] *)
Definition page_align (x : Z) : Z := frame (u32 (x + PAGE_SIZE - 1)).

Definition set_map_flags (v : Z) (m : as_mapping) : as_mapping :=
  {| map_addr := map_addr m; virt := virt m; phy := phy m; size := size m; map_flags := v |}.
Definition set_map_phy (v : Z) (m : as_mapping) : as_mapping :=
  {| map_addr := map_addr m; virt := virt m; phy := v; size := size m; map_flags := map_flags m |}.

Definition set_as_regions (lk : bool) (l : list Region.region) (d : as_t) : as_t :=
  {| region_lock := lk; regions := l; map_lock := map_lock d; mapping := mapping d; as_cr3 := as_cr3 d |}.
Definition set_mapping (l : list as_mapping) (d : as_t) : as_t :=
  {| region_lock := region_lock d; regions := regions d; map_lock := map_lock d; mapping := l; as_cr3 := as_cr3 d |}.
Definition set_map_lock (b : bool) (d : as_t) : as_t :=
  {| region_lock := region_lock d; regions := regions d; map_lock := b; mapping := mapping d; as_cr3 := as_cr3 d |}.
Definition set_as_cr3 (c : Z) (d : as_t) : as_t :=
  {| region_lock := region_lock d; regions := regions d; map_lock := map_lock d; mapping := mapping d; as_cr3 := c |}.

Section ops.
Context {H : Type} `{KHeap H}.

Definition set_as (a : as_ptr) (d : as_t) (s : mem H) : mem H :=
  match a with
  | KernelAs => {| phys := phys s; cr3 := cr3 s; segs := segs s; kernel_as := d;
                   spaces := spaces s; current := current s |}
  | UserAs p => {| phys := phys s; cr3 := cr3 s; segs := segs s; kernel_as := kernel_as s;
                   spaces := <[p := d]> (spaces s); current := current s |}
  end.
Definition drop_as (p : Z) (s : mem H) : mem H :=
  {| phys := phys s; cr3 := cr3 s; segs := segs s; kernel_as := kernel_as s;
     spaces := delete p (spaces s); current := current s |}.

Definition heap_of (s : mem H) : H := Segment.kheap (segs s).
Definition set_heap (h : H) (s : mem H) : mem H := set_segs (Segment.set_kheap h (segs s)) s.
Definition heap {A} (m : M H A) : M (mem H) A := zoom heap_of set_heap m.

(** The fields of [*a]. *)
Definition deref (a : as_ptr) : M (mem H) as_t :=
  let! s := get in match as_at a s with Some d => ret d | None => undef end.
Definition update (a : as_ptr) (f : as_t -> as_t) : M (mem H) unit :=
  let! d := deref a in modify (set_as a (f d)).

Definition space_of (d : as_t) (s : mem H) : Region.space H :=
  {| Region.region_lock := region_lock d; Region.regions := regions d; Region.kheap := heap_of s |}.
Definition put_space (a : as_ptr) (d : as_t) (r : Region.space H) (s : mem H) : mem H :=
  set_as a (set_as_regions (Region.region_lock r) (Region.regions r) d) (set_heap (Region.kheap r) s).
Definition region {A} (a : as_ptr) (m : M (Region.space H) A) : M (mem H) A :=
  let! d := deref a in zoom (space_of d) (put_space a d) m.

Definition map_lock_take (a : as_ptr) : M (mem H) unit :=
  let! d := deref a in
  if map_lock d then (fun _ => Spin) else update a (set_map_lock true).
Definition map_lock_release (a : as_ptr) : M (mem H) unit := update a (set_map_lock false).

(** The segment a pointer points to. *)
Definition segment_deref (p : Z) : M (mem H) Segment.segment :=
  let! s := get in
  match Segment.segment_at p (segs s) with Some (_, x, _) => ret x | None => undef end.

(** [mapping->virt <= vaddr && mapping->virt + mapping->size > vaddr] *)
Definition holds (vaddr : Z) (m : as_mapping) : bool :=
  (virt m <=? vaddr) && (u32 (virt m + size m) >? vaddr).

Definition as_mapping_locate (a : as_ptr) (vaddr : Z) : M (mem H) (option as_mapping) :=
  map_lock_take a ;;;
  let! d := deref a in
  let r := match list_break (holds vaddr) (mapping d) with Some (_, m, _) => Some m | None => None end in
  map_lock_release a ;;;
  ret r.

(** Remove the node at an address from the list of mappings. *)
Definition unlink (p : Z) (l : list as_mapping) : list as_mapping :=
  match list_break (fun m => map_addr m =? p) l with
  | Some (front, _, back) => front ++ back
  | None => l
  end.

(** The label [free_vaddr] of [setup_mapping]. *)
Definition free_vaddr (a : as_ptr) (vaddr : Z) (map : as_mapping) : M (mem H) (option as_mapping) :=
  (if size map =? 0 then
     (if (vaddr =? 0) && negb (virt map =? 0) then region a (Region.region_release (virt map)) else ret tt) ;;;
     heap (kfree (map_addr map))
   else ret tt) ;;;
  ret None.

(** [setup_mapping] from the test of [map->phy] on. *)
Definition setup_phy (a : as_ptr) (vaddr paddr sz : Z) (map : as_mapping)
    : M (mem H) (option as_mapping) :=
  (if phy map =? 0 then ret tt else segment (Segment.segment_release (phy map))) ;;;
  let! p := (if paddr =? 0 then segment (Segment.segment_alloc (sz / PAGE_SIZE))
             else segment (Segment.segment_locate paddr)) in
  if p =? 0 then free_vaddr a vaddr (set_map_phy 0 map)
  else ret (Some {| map_addr := map_addr map;
                    virt := if vaddr =? 0 then virt map else vaddr;
                    phy := p; size := sz; map_flags := map_flags map |}).

(** Fields of a new node that are not set before they are read are 0. *)
Definition setup_mapping (a : as_ptr) (vaddr paddr sz flags : Z) : M (mem H) (option as_mapping) :=
  if vaddr =? 0 then
    let! p := heap (kmalloc sizeof_as_mapping) in
    if p =? 0 then ret None
    else
      let! v := region a (Region.region_reserve 0 (sz / PAGE_SIZE)) in
      let map := {| map_addr := p; virt := v; phy := 0; size := 0; map_flags := 0 |} in
      if v =? 0 then free_vaddr a vaddr map else setup_phy a vaddr paddr sz map
  else if (vaddr >=? KERNEL_BEGIN) &&
          (negb (bool_decide (a = KernelAs)) || negb (Z.land flags AS_MAP_USER =? 0)) then ret None
  else
    let! found := as_mapping_locate a vaddr in
    match found with
    | None =>
        let! p := heap (kmalloc sizeof_as_mapping) in
        if p =? 0 then ret None
        else setup_phy a vaddr paddr sz
               {| map_addr := p; virt := 0; phy := 0; size := 0; map_flags := 0 |}
    | Some map =>
        map_lock_take a ;;;
        update a (fun d => set_mapping (unlink (map_addr map) (mapping d)) d) ;;;
        map_lock_release a ;;;
        if size map >? sz then kernel_panic "as: need mapping split"
        else setup_phy a vaddr paddr sz map
    end.

Definition as_map (a : as_ptr) (vaddr paddr sz flags : Z) : M (mem H) Z :=
  if sz =? 0 then ret 0
  else
    let vaddr := page_align vaddr in
    let paddr := page_align paddr in
    let sz := page_align sz in
    let! m := setup_mapping a vaddr paddr sz flags in
    match m with
    | None => ret 0
    | Some map =>
        let! seg := segment_deref (phy map) in
        let! r := mmu_map a (virt map) (Segment.base seg) (size map) flags in
        if r =? 0 then
          heap (kfree (map_addr map)) ;;;
          ret 0
        else
          let map := set_map_flags flags map in
          map_lock_take a ;;;
          update a (fun d => set_mapping (map :: mapping d) d) ;;;
          map_lock_release a ;;;
          ret (virt map)
    end.

Definition as_unmap (a : as_ptr) (vaddr flags : Z) : M (mem H) unit :=
  map_lock_take a ;;;
  let! d := deref a in
  match list_break (fun m => virt m =? vaddr) (mapping d) with
  | Some (_, map, _) =>
      region a (Region.region_release (virt map)) ;;;
      (if Z.land flags AS_UNMAP_RELEASE =? 0 then ret tt
       else segment (Segment.segment_release (phy map))) ;;;
      let! _ := mmu_unmap a (virt map) (size map) in
      update a (fun d => set_mapping (unlink (map_addr map) (mapping d)) d) ;;;
      heap (kfree (map_addr map)) ;;;
      map_lock_release a
  | None => map_lock_release a
  end.

Definition as_is_mapped (a : as_ptr) (ptr sz : Z) : M (mem H) Z :=
  map_lock_take a ;;;
  let! d := deref a in
  match list_break (fun m => (ptr >=? virt m) && (ptr <? u32 (virt m + size m))) (mapping d) with
  | Some (_, m, _) =>
      map_lock_release a ;;;
      ret (if u32 (u32 (ptr - virt m) + sz) >? size m then 0 else 1)
  | None =>
      map_lock_release a ;;;
      ret 0
  end.

(** [map->flags = flags] for a node of the list of mappings. *)
Definition update_mapping (a : as_ptr) (p : Z) (f : as_mapping -> as_mapping) : M (mem H) unit :=
  update a (fun d => set_mapping
    ((fun m => if map_addr m =? p then f m else m) <$> mapping d) d).

Definition as_remap (a : as_ptr) (map : as_mapping) (flags : Z) : M (mem H) Z :=
  update_mapping a (map_addr map) (set_map_flags flags) ;;;
  let! seg := segment_deref (phy map) in
  mmu_map a (virt map) (Segment.base seg) (size map) flags.

(** ** Copying bytes through the page tables *)

Definition load_byte (vaddr : Z) : M (mem H) Z :=
  let! w := load (vaddr - vaddr mod 4) in
  ret (Z.land (Z.shiftr w (8 * (vaddr mod 4))) 255).

Definition store_byte (vaddr b : Z) : M (mem H) unit :=
  let! w := load (vaddr - vaddr mod 4) in
  let sh := 8 * (vaddr mod 4) in
  store (vaddr - vaddr mod 4)
    (Z.lor (Z.land w (Z.lxor 4294967295 (Z.shiftl 255 sh))) (Z.shiftl b sh)).

(** [memcpy]; [n] bytes are left. *)
Fixpoint copy_bytes (dest src : Z) (n : nat) : M (mem H) unit :=
  match n with
  | O => ret tt
  | S n =>
      let! b := load_byte src in
      store_byte dest b ;;;
      copy_bytes (u32 (dest + 1)) (u32 (src + 1)) n
  end.

(** The two halves of [as_copy] before the tests: an address of the kernel and
    an offset that stand for a buffer. *)
Definition copy_window (a : as_ptr) (buf : Z) : M (mem H) (Z * Z) :=
  if bool_decide (a = KernelAs) || (buf >? KERNEL_BEGIN) then ret (buf, 0)
  else
    let! found := as_mapping_locate a buf in
    match found with
    | None => undef
    | Some map =>
        let! seg := segment_deref (phy map) in
        let! k := as_map KernelAs 0 (Segment.base seg) (size map) AS_MAP_WRITE in
        ret (k, u32 (buf - virt map))
    end.

Definition as_copy (src_as dest_as : as_ptr) (src dest sz : Z) : M (mem H) Z :=
  let! '(kaddr_src, offset_src) := copy_window src_as src in
  let! '(kaddr_dest, offset_dest) := copy_window dest_as dest in
  if kaddr_src =? 0 then
    (if negb (kaddr_dest =? 0) && negb (bool_decide (dest_as = KernelAs))
     then as_unmap KernelAs kaddr_dest AS_UNMAP_NORELEASE else ret tt) ;;;
    ret (- ENOMEM)
  else if kaddr_dest =? 0 then
    (if negb (kaddr_src =? 0) && negb (bool_decide (src_as = KernelAs))
     then as_unmap KernelAs kaddr_src AS_UNMAP_NORELEASE else ret tt) ;;;
    ret (- ENOMEM)
  else
    copy_bytes (u32 (kaddr_dest + offset_dest)) (u32 (kaddr_src + offset_src)) (Z.to_nat sz) ;;;
    (if negb (bool_decide (src_as = KernelAs)) && (src <? KERNEL_BEGIN)
     then as_unmap KernelAs kaddr_src AS_UNMAP_NORELEASE else ret tt) ;;;
    (if negb (bool_decide (dest_as = KernelAs)) && (dest <? KERNEL_BEGIN)
     then as_unmap KernelAs kaddr_dest AS_UNMAP_NORELEASE else ret tt) ;;;
    ret 0.

(** ** Directories *)

(** [for (i = first; ...; ++i)], [n] times. *)
Fixpoint for_loop {S} (n : nat) (i : Z) (body : Z -> M S unit) : M S unit :=
  match n with
  | O => ret tt
  | S n => body i ;;; for_loop n (i + 1) body
  end.

Definition mmu_init_kernel (a : as_ptr) : M (mem H) Z :=
  let kpd := KERNEL_VIRT_PD in
  update a (set_as_cr3 KERNEL_PHY_PD) ;;;
  for_loop 768 0 (fun i => store (kpd + 4 * i) 0) ;;;
  store (kpd + 4 * 768) (Z.lor (Z.lor PD_PRESENT PD_4MB) PD_WRITE) ;;;
  let n := (KERNEL_EXTRA_PT_END - KERNEL_EXTRA_PT_BEGIN) / PAGE_SIZE in
  for_loop (Z.to_nat n) 0 (fun i =>
    let pt := KERNEL_EXTRA_PT_BEGIN + i * PAGE_SIZE in
    memset_page (KERNEL_BEGIN + pt) ;;;
    store (kpd + 4 * (769 + i)) (Z.lor (Z.lor pt PD_PRESENT) PD_WRITE)) ;;;
  for_loop (Z.to_nat (1023 - (769 + n))) (769 + n) (fun i => store (kpd + 4 * i) 0) ;;;
  let! d := deref a in
  store (kpd + 4 * 1023) (Z.lor (Z.lor (as_cr3 d) PD_PRESENT) PD_WRITE) ;;;
  ret 1.

Definition mmu_init_user (a : as_ptr) : M (mem H) Z :=
  let kpd := KERNEL_VIRT_PD in
  let! c := segment (Segment.segment_alloc_address 1) in
  update a (set_as_cr3 c) ;;;
  if c =? 0 then ret 0
  else
    let! vpd := as_map KernelAs 0 c PAGE_SIZE AS_MAP_WRITE in
    if vpd =? 0 then
      segment (Segment.segment_free c) ;;;
      ret 0
    else
      memset_page vpd ;;;
      for_loop 255 768 (fun i => let! e := load (kpd + 4 * i) in store (vpd + 4 * i) e) ;;;
      store (vpd + 4 * 1023) (Z.lor (Z.lor c PD_PRESENT) PD_WRITE) ;;;
      as_unmap KernelAs vpd AS_UNMAP_NORELEASE ;;;
      ret 1.

(** [~PT_WRITE] *)
Definition no_write (e : Z) : Z := Z.land e 4294967293.

(** The copy of one page table by [mmu_duplicate]. *)
Definition copy_table (old_pt new_pt : Z) : M (mem H) unit :=
  for_loop 1024 0 (fun j =>
    let! e := load (old_pt + 4 * j) in
    if present e then
      store (old_pt + 4 * j) (no_write e) ;;;
      let! e := load (old_pt + 4 * j) in
      store (new_pt + 4 * j) e
    else store (new_pt + 4 * j) 0).

(** The loop of [mmu_duplicate] over the user entries; [false] is [goto error]. *)
Fixpoint duplicate_loop (new_pd i : Z) (n : nat) : M (mem H) bool :=
  match n with
  | O => ret true
  | S n =>
      let! e := load (PD_MIRROR + 4 * i) in
      if present e then
        let! seg := segment (Segment.segment_alloc 1) in
        if seg =? 0 then ret false
        else
          let! x := segment_deref seg in
          let! new_pt := as_map KernelAs 0 (Segment.base x) PAGE_SIZE AS_MAP_WRITE in
          if new_pt =? 0 then ret false
          else
            let! e := load (PD_MIRROR + 4 * i) in
            store (new_pd + 4 * i) (Z.lor (Segment.base x) (Z.land e 4095)) ;;;
            copy_table (pt_of i) new_pt ;;;
            as_unmap KernelAs new_pt AS_UNMAP_NORELEASE ;;;
            duplicate_loop new_pd (i + 1) n
      else
        store (new_pd + 4 * i) 0 ;;;
        duplicate_loop new_pd (i + 1) n
  end.

Definition mmu_duplicate (old new : as_ptr) : M (mem H) Z :=
  let! d := deref new in
  let! new_pd := as_map KernelAs 0 (as_cr3 d) PAGE_SIZE AS_MAP_WRITE in
  if new_pd =? 0 then ret 0
  else
    let! ok := duplicate_loop new_pd 0 768 in
    as_unmap KernelAs new_pd AS_UNMAP_NORELEASE ;;;
    ret (if ok then 1 else 0).

Definition mmu_remove_cr3 (a : as_ptr) : M (mem H) unit :=
  let! d := deref a in
  let! pd := as_map KernelAs 0 (as_cr3 d) PAGE_SIZE AS_MAP_WRITE in
  (if pd =? 0 then ret tt
   else
     for_loop 768 0 (fun i =>
       let! e := load (pd + 4 * i) in
       if present e then segment (Segment.segment_free (frame e)) else ret tt) ;;;
     as_unmap KernelAs pd AS_UNMAP_NORELEASE) ;;;
  let! d := deref a in
  segment (Segment.segment_free (as_cr3 d)).

Definition i386_pc_as_initialize (a : as_ptr) : M (mem H) Z :=
  if bool_decide (a = KernelAs) then mmu_init_kernel a else mmu_init_user a.

Definition i386_pc_as_destroy (a : as_ptr) : M (mem H) Z :=
  (if bool_decide (a = KernelAs)
   then kernel_panic "Attempting to destroy kernel address space are you mad ?" else ret tt) ;;;
  mmu_remove_cr3 a ;;;
  ret 1.

(** ** Creation and destruction *)

(** [as_initialize]; [junk] is what the field [flags] of the first mapping of the
    kernel holds, which is never set. *)
Definition as_initialize (junk : Z) (a : as_ptr) : M (mem H) Z :=
  let! r := i386_pc_as_initialize a in
  if r =? 0 then ret 0
  else
    update a (fun d => set_map_lock false (set_as_regions false (regions d) d)) ;;;
    region a (Region.region_initialize (bool_decide (a = KernelAs))) ;;;
    update a (set_mapping []) ;;;
    (if bool_decide (a = KernelAs) then
       let! p := heap (kmalloc sizeof_as_mapping) in
       let! x := segment (Segment.segment_locate 0) in
       let map := {| map_addr := p; virt := KERNEL_BEGIN; phy := x; size := 1024 * PAGE_SIZE;
                     map_flags := junk |} in
       update a (fun d => set_mapping (map :: mapping d) d)
     else ret tt) ;;;
    ret 1.

(** A [struct as] as [kmalloc] returns it; every field is set before it is read. *)
Definition new_as : as_t :=
  {| region_lock := false; regions := []; map_lock := false; mapping := []; as_cr3 := 0 |}.

Definition as_create : M (mem H) (option as_ptr) :=
  let! p := heap (kmalloc sizeof_as) in
  modify (set_as (UserAs p) new_as) ;;;
  let! r := as_initialize 0 (UserAs p) in
  if r =? 0 then
    modify (drop_as p) ;;;
    heap (kfree p) ;;;
    ret None
  else ret (Some (UserAs p)).

Fixpoint destroy_mappings (a : as_ptr) (l : list as_mapping) : M (mem H) unit :=
  match l with
  | [] => ret tt
  | map :: l =>
      segment (Segment.segment_release (phy map)) ;;;
      update a (fun d => set_mapping (unlink (map_addr map) (mapping d)) d) ;;;
      heap (kfree (map_addr map)) ;;;
      destroy_mappings a l
  end.

Fixpoint destroy_regions (a : as_ptr) (l : list Region.region) : M (mem H) unit :=
  match l with
  | [] => ret tt
  | reg :: l =>
      update a (fun d => set_as_regions (region_lock d)
        (match list_break (fun r => Region.reg_addr r =? Region.reg_addr reg) (regions d) with
         | Some (front, _, back) => front ++ back
         | None => regions d
         end) d) ;;;
      heap (kfree (Region.reg_addr reg)) ;;;
      destroy_regions a l
  end.

Definition as_destroy (a : as_ptr) : M (mem H) unit :=
  let! d := deref a in
  destroy_mappings a (mapping d) ;;;
  let! d := deref a in
  destroy_regions a (regions d) ;;;
  let! _ := i386_pc_as_destroy a in
  ret tt.

(** The node behind the one at [p] in the list, 0 for the head. *)
Definition next_mapping (p : Z) (l : list as_mapping) : option Z :=
  match list_break (fun m => map_addr m =? p) l with
  | Some (_, _, m :: _) => Some (map_addr m)
  | Some (_, _, []) => Some 0
  | None => None
  end.

(** The loop of [as_clean] at node [p] with the next node [next]: the next node is
    read before the body runs, and the one behind it afterwards. *)
Fixpoint clean_loop (fuel : nat) (a : as_ptr) (p next : Z) : M (mem H) unit :=
  if p =? 0 then ret tt
  else match fuel with
  | O => undef
  | S fuel =>
      let! d := deref a in
      match list_break (fun m => map_addr m =? p) (mapping d) with
      | None => undef
      | Some (_, map, _) =>
          (if virt map <? KERNEL_BEGIN then as_unmap a (virt map) AS_UNMAP_RELEASE else ret tt) ;;;
          let! d := deref a in
          if next =? 0 then ret tt
          else match next_mapping next (mapping d) with
               | None => undef
               | Some next' => clean_loop fuel a next next'
               end
      end
  end.

Definition as_clean (a : as_ptr) : M (mem H) unit :=
  let! d := deref a in
  match mapping d with
  | [] => ret tt
  | [m] => clean_loop (length (mapping d)) a (map_addr m) 0
  | m :: m' :: _ => clean_loop (length (mapping d)) a (map_addr m) (map_addr m')
  end.

(** ** Duplication *)

(** [mapping->phy->flags |= SEGMENT_FLAGS_COW], if asked, and [++ref_count]. *)
Definition share (cow : bool) (x : Segment.segment) : Segment.segment :=
  {| Segment.seg_addr := Segment.seg_addr x; Segment.base := Segment.base x;
     Segment.page_size := Segment.page_size x;
     Segment.flags := if cow then Z.lor (Segment.flags x) Segment.SEGMENT_FLAGS_COW else Segment.flags x;
     Segment.ref_count := u16 (Segment.ref_count x + 1) |}.

Definition update_segment (p : Z) (f : Segment.segment -> Segment.segment) : M (mem H) unit :=
  let! s := get in
  match Segment.segment_at p (segs s) with
  | Some (front, x, back) => modify (set_segs (Segment.set_head (front ++ f x :: back) (segs s)))
  | None => undef
  end.

(** The loop of [as_duplicate]; [false] is [goto cleanup]. *)
Fixpoint duplicate_mappings (new_as : as_ptr) (l : list as_mapping) : M (mem H) bool :=
  match l with
  | [] => ret true
  | map :: l =>
      if virt map <? KERNEL_BEGIN then
        let! p := heap (kmalloc sizeof_as_mapping) in
        if p =? 0 then ret false
        else
          let! v := region new_as (Region.region_reserve (virt map) (size map / PAGE_SIZE)) in
          if (v =? 0) || negb (v =? virt map) then
            heap (kfree p) ;;;
            ret false
          else
            update_segment (phy map) (share (negb (Z.land (map_flags map) AS_MAP_WRITE =? 0))) ;;;
            let new_map := {| map_addr := p; virt := v; phy := phy map; size := size map;
                              map_flags := map_flags map |} in
            update new_as (fun d => set_mapping (new_map :: mapping d) d) ;;;
            duplicate_mappings new_as l
      else duplicate_mappings new_as l
  end.

(** On failure the new address space is emptied but its structure is not freed. *)
Definition as_duplicate (a : as_ptr) : M (mem H) (option as_ptr) :=
  let! new := as_create in
  match new with
  | None => ret None
  | Some new_as =>
      map_lock_take a ;;;
      let! d := deref a in
      let! ok := duplicate_mappings new_as (mapping d) in
      let cleanup := as_destroy new_as ;;; map_lock_release a ;;; ret None in
      if negb ok then cleanup
      else
        map_lock_release a ;;;
        let! r := mmu_duplicate a new_as in
        if r =? 0 then cleanup else ret (Some new_as)
  end.

(** ** Page faults *)

Definition PAGE_FAULT_WRITE : Z := 2.
Definition PAGE_FAULT_USER : Z := 4.
Definition PROCESS_CODE_SEGV : Z := 128.

Definition cow (a : as_ptr) (map : as_mapping) : M (mem H) unit :=
  let! x := segment_deref (phy map) in
  let! map :=
    (if Segment.ref_count x =? 1 then
       update_segment (phy map) (fun x =>
         {| Segment.seg_addr := Segment.seg_addr x; Segment.base := Segment.base x;
            Segment.page_size := Segment.page_size x;
            Segment.flags := Z.land (Segment.flags x) 254;
            Segment.ref_count := Segment.ref_count x |}) ;;;
       ret map
     else
       let! seg := segment (Segment.segment_alloc (size map / PAGE_SIZE)) in
       if seg =? 0 then kernel_panic "COW: Out of memory"
       else
         let! y := segment_deref seg in
         let! new_page := as_map KernelAs 0 (Segment.base y) (size map) AS_MAP_WRITE in
         if new_page =? 0 then kernel_panic "COW: Unable to copy"
         else
           copy_bytes new_page (virt map) (Z.to_nat (size map)) ;;;
           as_unmap KernelAs new_page AS_UNMAP_NORELEASE ;;;
           segment (Segment.segment_release (phy map)) ;;;
           update_mapping a (map_addr map) (set_map_phy seg) ;;;
           ret (set_map_phy seg map)) in
  let! r := as_remap a map (map_flags map) in
  if r =? 0 then kernel_panic "COW: unable to remap memory area" else ret tt.

(** What is left to do after the fault: nothing, or [process_exit] of the running
    process with a code. *)
Inductive fault_result :=
| FaultHandled
| FaultExit (code : Z).

Definition page_fault_handler (addr_fault irq_data : Z) : M (mem H) fault_result :=
  let! s := get in
  match current s with
  | None => kernel_panic ""
  | Some a =>
      let user := negb (Z.land irq_data PAGE_FAULT_USER =? 0) in
      let! found :=
        (if ((addr_fault <? KERNEL_BEGIN) || user) && negb (Z.land irq_data PAGE_FAULT_WRITE =? 0)
         then as_mapping_locate a addr_fault else ret None) in
      let! shared :=
        match found with
        | Some map =>
            let! x := segment_deref (phy map) in
            ret (if Z.land (Segment.flags x) Segment.SEGMENT_FLAGS_COW =? 0 then None else Some map)
        | None => ret None
        end in
      match shared with
      | Some map => cow a map ;;; ret FaultHandled
      | None => if user then ret (FaultExit PROCESS_CODE_SEGV) else kernel_panic ""
      end
  end.

End ops.
End As.
