(* ===== verification/AsInv.v ===== *)
(** What the operations of As.v keep and promise.

    [as_inv] ties the three views of an address space together: the regions say
    which virtual pages are taken, the mappings name for each taken range the
    segment behind it, and the page tables translate the range to that segment.
    All nodes live in one heap; [F] lists those of the other components. *)

From S2P Require Import Prelude KHeap Kmalloc Segment Region Mmu As.

Module AsInv.
Import Mmu As.

Section state.
Context {H : Type} `{KHeap H}.
Implicit Types (s : mem H) (a : as_ptr) (d : as_t).

Lemma as_at_set a d s : as_at a (set_as a d s) = Some d.
Proof. destruct a; simpl; [done|]. apply lookup_insert_eq. Qed.

Lemma as_at_set_ne a b d s : a <> b -> as_at b (set_as a d s) = as_at b s.
Proof. destruct a, b; simpl; intros; try done. apply lookup_insert_ne. congruence. Qed.

Lemma set_as_twice a d d' s : set_as a d' (set_as a d s) = set_as a d' s.
Proof. destruct a; simpl; [done|]. by rewrite insert_insert_eq. Qed.

Lemma set_as_id a d s : as_at a s = Some d -> set_as a d s = s.
Proof. destruct a, s; simpl; [by intros [= ->]|]. intros. by rewrite insert_id. Qed.

Lemma root_of_set a b d d' s :
  as_at b s = Some d -> as_cr3 d' = as_cr3 d -> root_of a (set_as b d' s) = root_of a s.
Proof.
  intros Hd Hc. unfold root_of. destruct (decide (a = b)) as [->|Hne].
  - rewrite as_at_set, Hd, Hc. by destruct b.
  - rewrite as_at_set_ne by done. by destruct b.
Qed.

(** ** Rules for the pieces the operations are made of *)

Lemma wp_as_deref a d s Q : as_at a s = Some d -> Q d s -> wp (deref a) s Q.
Proof. intros Hd HQ. unfold deref. step. step. by rewrite Hd. Qed.

Lemma wp_update a d f s Q : as_at a s = Some d -> Q tt (set_as a (f d) s) -> wp (update a f) s Q.
Proof. intros Hd HQ. unfold update. apply wp_bind, (wp_as_deref a d); [done|]. by step. Qed.

Lemma wp_region {A} a d (m : M (Region.space H) A) s Q :
  as_at a s = Some d -> wp m (space_of d s) (fun x r => Q x (put_space a d r s)) ->
  wp (region a m) s Q.
Proof.
  intros Hd Hm. unfold region. apply wp_bind, (wp_as_deref a d); [done|]. by apply wp_zoom.
Qed.

Lemma wp_map_lock a d s Q :
  as_at a s = Some d -> map_lock d = false -> Q tt (set_as a (set_map_lock true d) s) ->
  wp (map_lock_take a) s Q.
Proof.
  intros Hd Hl HQ. unfold map_lock_take. apply wp_bind, (wp_as_deref a d); [done|]. rewrite Hl.
  by apply (wp_update a d).
Qed.

Lemma wp_map_unlock a d s Q :
  as_at a s = Some d -> Q tt (set_as a (set_map_lock false d) s) -> wp (map_lock_release a) s Q.
Proof. apply wp_update. Qed.

Lemma wp_segment_deref s x Q :
  NoDup (Segment.seg_addr <$> Segment.segment_head (segs s)) ->
  x ∈ Segment.segment_head (segs s) -> Q x s -> wp (segment_deref (Segment.seg_addr x)) s Q.
Proof.
  intros Hnd Hx HQ. unfold segment_deref, Segment.segment_at. step. step.
  by destruct (list_break_key Segment.seg_addr _ x Hnd Hx) as (l1 & l2 & -> & _).
Qed.

Lemma unlink_split l1 m l2 :
  NoDup (map_addr <$> l1 ++ m :: l2) -> unlink (map_addr m) (l1 ++ m :: l2) = l1 ++ l2.
Proof.
  intros Hnd. unfold unlink.
  destruct (list_break_key map_addr (l1 ++ m :: l2) m) as (l3 & l4 & -> & Heq); [done|set_solver|].
  by destruct (NoDup_split_unique map_addr l1 m l2 l3 m l4) as (-> & _ & ->).
Qed.
End state.

(** ** The invariant *)

(** The pages of [m] are a region of their own. *)
Definition placed (regs : list Region.region) (m : as_mapping) : Prop :=
  exists reg, reg ∈ regs /\ Region.mapped reg = true /\ Region.base reg = virt m /\
              Region.page_size reg * PAGE_SIZE = size m.

(** The page tables translate the range of [m] to the segment it names, which
    does not hold page tables itself. *)
Record backed (p : Z -> Z) (root : Z) (l : list Segment.segment) (m : as_mapping) : Prop := {
  bk_seg : exists x, x ∈ l /\ Segment.seg_addr x = phy m /\ Segment.ref_count x <> 0 /\
    0 < Segment.base x /\ size m <= Segment.page_size x * PAGE_SIZE /\
    (forall i f, 0 <= i < 1024 -> table p root i = Some f -> ~ Segment.base x <= f < Segment.seg_stop x) /\
    forall v, virt m <= v < virt m + size m -> walk p root v = Some (Segment.base x + (v - virt m));
  bk_table : forall j, virt m / 4194304 <= j -> j * 4194304 < virt m + size m ->
    is_Some (table p root j);
}.

(** How many mappings name the segment at [q]. *)
Definition uses (q : Z) (l : list as_mapping) : Z :=
  Z.of_nat (length (filter (fun m => phy m = q) l)).

Section inv.
Context {H : Type} `{KHeap H}.
Implicit Types (s : mem H) (a : as_ptr) (d : as_t) (L : list as_mapping) (F : list Z).

Notation head s := (Segment.segment_head (segs s)).

Definition as_nodes d L : list Z := (Region.reg_addr <$> regions d) ++ (map_addr <$> L).

(** [L] lists the mappings the statement is about: the list of the address space
    between operations, the others while an operation works on one.  The first
    mapping of the kernel, at [KERNEL_BEGIN], is a page of 4 MB without tables. *)
Record as_inv F (lo hi root : Z) L a d s : Prop := {
  ai_at : as_at a s = Some d;
  ai_root : root_of a s = root;
  ai_lock : region_lock d = false;
  ai_paging : paging (as_nodes d L ++ F) (set_cr3 root s);
  ai_regions : Forall Region.reg_ok (regions d) /\
    tiles Region.base Region.reg_stop lo (regions d) hi /\ 0 < lo /\ hi <= 1023 * 4194304;
  ai_nobig : forall n, Region.page_mapped (regions d) n false -> big (phys s) root (n / 1024) = None;
  ai_placed : Forall (placed (regions d)) L;
  ai_virts : NoDup (virt <$> L);
  ai_backed : forall m, m ∈ L -> virt m <> KERNEL_BEGIN -> backed (phys s) root (head s) m;
  ai_refs : forall m, m ∈ L -> exists x, x ∈ head s /\ Segment.seg_addr x = phy m /\
    uses (phy m) L <= Segment.ref_count x /\
    forall i, 0 <= i < 768 -> table (phys s) root i <> Some (Segment.base x);
}.

(** Between two operations. *)
Definition as_ok F (lo hi root : Z) a d s : Prop :=
  as_inv F lo hi root (mapping d) a d s /\ map_lock d = false.

Lemma uses_perm q L L' : L ≡ₚ L' -> uses q L = uses q L'.
Proof. intros Hp. unfold uses. by rewrite Hp. Qed.

Lemma uses_cons q m L : uses q (m :: L) = (if decide (phy m = q) then 1 else 0) + uses q L.
Proof. unfold uses. rewrite filter_cons. case_decide; simpl; lia. Qed.

Lemma paging_owned F s :
  paging F s -> heap_ok (heap_of s) /\ owned (heap_of s) ((Segment.seg_addr <$> head s) ++ F).
Proof. intros [[_ (Hh & _ & _ & Ho)] _ _ _ _]. done. Qed.

(** The nodes of the heap may change owner, and the heap may grow. *)
Lemma paging_heap F F' h s :
  paging F s -> heap_ok h -> owned h ((Segment.seg_addr <$> head s) ++ F') -> paging F' (set_heap h s).
Proof.
  intros [[Hl (_ & Hok & Hsep & _)] Hm Hz Hu Hus] Hh Ho. split; try done.
Qed.

Lemma as_inv_heap F F' lo hi root L a d h s :
  as_inv F lo hi root L a d s -> heap_ok h ->
  owned h ((Segment.seg_addr <$> head s) ++ as_nodes d L ++ F') ->
  as_inv F' lo hi root L a d (set_heap h s).
Proof.
  intros [Hat Hroot Hlk Hpg Hreg Hnb Hpl Hvi Hbk Hrf] Hh Ho. split; try done.
  change (set_cr3 root (set_heap h s)) with (set_heap h (set_cr3 root s)).
  by apply (paging_heap _ _ _ _ Hpg).
Qed.

Lemma as_inv_owned F lo hi root L a d s :
  as_inv F lo hi root L a d s ->
  heap_ok (heap_of s) /\ owned (heap_of s) ((Segment.seg_addr <$> head s) ++ as_nodes d L ++ F).
Proof. intros Hi. by apply (paging_owned _ _ (ai_paging _ _ _ _ _ _ _ _ Hi)). Qed.

Lemma set_heap_same s : set_heap (heap_of s) s = s.
Proof. destruct s as [? ? [] ? ? ?]. done. Qed.

(** The order of the mappings and of the frame does not matter. *)
Lemma as_inv_perm F F' lo hi root L L' a d s :
  L ≡ₚ L' -> F ≡ₚ F' -> as_inv F lo hi root L a d s -> as_inv F' lo hi root L' a d s.
Proof.
  intros HL HF Hi. pose proof (as_inv_owned _ _ _ _ _ _ _ _ Hi) as [Hh Ho].
  destruct Hi as [Hat Hroot Hlk Hpg Hreg Hnb Hpl Hvi Hbk Hrf]. split; try done.
  - rewrite <-(set_heap_same (set_cr3 root s)). apply (paging_heap _ _ _ _ Hpg); [done|].
    eapply owned_perm; [|exact Ho]. unfold as_nodes. by rewrite HL, HF.
  - by rewrite <-HL.
  - by rewrite <-HL.
  - intros m Hm. apply Hbk. by rewrite HL.
  - intros m Hm. rewrite <-(uses_perm _ _ _ HL). apply Hrf. by rewrite HL.
Qed.

(** The fields the invariant does not mention. *)
Lemma as_inv_set F lo hi root L a d d' s :
  as_inv F lo hi root L a d s -> regions d' = regions d -> region_lock d' = region_lock d ->
  as_cr3 d' = as_cr3 d -> as_inv F lo hi root L a d' (set_as a d' s).
Proof.
  intros [Hat Hroot Hlk Hpg Hreg Hnb Hpl Hvi Hbk Hrf] Er El Ec.
  split; rewrite ?Er, ?El; try done; try (destruct a; done).
  - apply as_at_set.
  - by rewrite (root_of_set a a d).
  - unfold as_nodes. rewrite Er. by destruct a, Hpg as [? ? ? ? ?]; split.
Qed.

(** *** Regions *)

Lemma as_inv_space F lo hi root L a d s :
  as_inv F lo hi root L a d s ->
  Region.space_inv ((Segment.seg_addr <$> head s) ++ (map_addr <$> L) ++ F) lo hi (space_of d s).
Proof.
  intros Hi. pose proof (as_inv_owned _ _ _ _ _ _ _ _ Hi) as [Hh Ho].
  destruct (ai_regions _ _ _ _ _ _ _ _ Hi) as (Hok & Ht & Hlo & Hhi).
  split; [apply Hi|]. split_and!; try done; [|lia]. simpl.
  eapply owned_perm; [|exact Ho]. unfold as_nodes. rewrite <-!app_assoc. solve_Permutation.
Qed.

Lemma as_inv_regions F lo hi root L a d s h l :
  as_inv F lo hi root L a d s -> let F' := (Segment.seg_addr <$> head s) ++ (map_addr <$> L) ++ F in
  Region.list_wf F' lo hi h l -> Forall (placed l) L ->
  (forall n, Region.page_mapped l n false -> big (phys s) root (n / 1024) = None) ->
  let d' := set_as_regions false l d in
  as_inv F lo hi root L a d' (set_as a d' (set_heap h s)).
Proof.
  intros [Hat Hroot Hlk Hpg Hreg Hnb Hpl Hvi Hbk Hrf] F' (Hh & Hok & Ht & Ho & Hlo & Hhi) Hpl' Hnb' d'.
  assert (as_at a (set_heap h s) = Some d) as Hat' by (by destruct a).
  split; try done; try (destruct a; done).
  - apply as_at_set.
  - rewrite (root_of_set a a d) by done. by destruct a.
  - replace (set_cr3 root (set_as a d' (set_heap h s))) with (set_as a d' (set_heap h (set_cr3 root s)))
      by (by destruct a).
    assert (paging (as_nodes d' L ++ F) (set_heap h (set_cr3 root s))) as [? ? ? ? ?].
    { apply (paging_heap _ _ _ _ Hpg); [done|]. eapply owned_perm; [|exact Ho].
      unfold F', as_nodes. simpl. rewrite <-!app_assoc. solve_Permutation. }
    by destruct a; split.
  - split_and!; [done..|lia].
Qed.

Lemma region_reserve_as F lo hi root L a d s v n b :
  as_inv F lo hi root L a d s -> 0 < n -> 0 <= v -> v mod PAGE_SIZE = 0 -> v + n * PAGE_SIZE < 2 ^ 32 ->
  room (heap_of s) (Region.split_room + b) -> b = 0 \/ KMALLOC_OVERHEAD < b ->
  wp (region a (Region.region_reserve v n)) s (fun r s' =>
    (r = 0 /\ s' = s /\ (v = 0 -> Forall (fun x => Region.mapped x = false -> Region.page_size x < n) (regions d))) \/
    exists d' h, r <> 0 /\ (v <> 0 -> r = v) /\ d' = set_as_regions false (regions d') d /\
      s' = set_as a d' (set_heap h s) /\ as_inv F lo hi root L a d' s' /\ room (heap_of s') b /\
      Region.reserved lo hi (space_of d s) (space_of d' s') r n).
Proof.
  intros Hi Hn Hv0 Hva Hv1 Hr Hb. pose proof (as_inv_space _ _ _ _ _ _ _ _ Hi) as Hsp.
  apply (wp_region a d); [apply Hi|].
  eapply wp_mono; [by apply (Region.region_reserve_ok ((Segment.seg_addr <$> head s) ++ (map_addr <$> L) ++ F) lo hi _ v n b)|].
  intros r sp [[Hlk' Hwf'] [(Hr0 & Hrv & Hres & Hroom)|(-> & -> & Hf)]].
  - right. exists (set_as_regions false (Region.regions sp) d), (Region.kheap sp).
    unfold put_space. rewrite Hlk'. pose proof Hres as (_ & _ & _ & _ & Hpm & _ & Hkept).
    split_and!; try done; [|by destruct a].
    apply as_inv_regions; [done|by destruct sp| |].
    + eapply Forall_impl; [apply Hi|]. intros m (reg & Hin & Hm & Hb1 & Hs1).
      exists reg. split_and!; try done. by apply Hkept.
    + intros p Hp%Hpm. unfold Region.set_pages in Hp. case_decide; [done|].
      by apply (ai_nobig _ _ _ _ _ _ _ _ Hi).
  - left. split_and!; [done| |by intros ->]. unfold put_space. simpl. rewrite set_heap_same.
    apply set_as_id. rewrite (ai_at _ _ _ _ _ _ _ _ Hi). by destruct d.
Qed.

(** Releasing a region that no mapping of [L] uses. *)
Lemma region_release_as F lo hi root L a d s reg :
  as_inv F lo hi root L a d s -> reg ∈ regions d -> Forall (fun m => virt m <> Region.base reg) L ->
  (forall n, Region.base reg / PAGE_SIZE <= n < Region.base reg / PAGE_SIZE + Region.page_size reg ->
     big (phys s) root (n / 1024) = None) ->
  wp (region a (Region.region_release (Region.base reg))) s (fun _ s' => exists d' h,
    d' = set_as_regions false (regions d') d /\ s' = set_as a d' (set_heap h s) /\
    as_inv F lo hi root L a d' s' /\ (forall b, room (heap_of s) b -> room (heap_of s') b) /\
    forall n b, Region.page_mapped (regions d') n b <->
      Region.set_pages (Region.page_mapped (regions d)) (Region.base reg / PAGE_SIZE)
        (Region.page_size reg) false n b).
Proof.
  intros Hi Hin Hne Hnb. pose proof (as_inv_space _ _ _ _ _ _ _ _ Hi) as Hsp.
  apply (wp_region a d); [apply Hi|].
  eapply wp_mono; [by apply (Region.region_release_ok ((Segment.seg_addr <$> head s) ++ (map_addr <$> L) ++ F) lo hi)|].
  intros _ sp ([Hlk' Hwf'] & Hroom & Hkept & Hcase).
  destruct Hcase as [(reg' & Hin' & Hb & Hpm)|[Hf _]].
  2:{ rewrite Forall_forall in Hf. by destruct (Hf reg). }
  assert (reg' = reg) as ->.
  { destruct (ai_regions _ _ _ _ _ _ _ _ Hi) as (Hok & Ht & _).
    pose proof (tiles_NoDup _ _ _ _ _ (Region.reg_ok_lt _ Hok) Ht) as Hnd.
    apply list_elem_of_split in Hin as (l1 & l2 & E1).
    apply list_elem_of_split in Hin' as (l3 & l4 & E2). simpl in E2. rewrite E1 in Hnd, E2.
    by destruct (NoDup_split_unique _ _ _ _ _ _ _ Hnd E2 (eq_sym Hb)) as (_ & -> & _). }
  exists (set_as_regions false (Region.regions sp) d), (Region.kheap sp).
  unfold put_space. rewrite Hlk'. split_and!; try done; [|by destruct a].
  apply as_inv_regions; [done|by destruct sp| |].
  - rewrite Forall_forall in Hne. apply Forall_forall. intros m Hm.
    pose proof (ai_placed _ _ _ _ _ _ _ _ Hi) as Hpl. rewrite Forall_forall in Hpl.
    destruct (Hpl m Hm) as (r & Hr & Hrm & Hrb & Hrs). exists r. split_and!; try done.
    apply Hkept; [done..|]. rewrite Hrb. auto.
  - intros n Hn%Hpm. unfold Region.set_pages in Hn. case_decide; [by apply Hnb|].
    by apply (ai_nobig _ _ _ _ _ _ _ _ Hi).
Qed.

(** *** Segments *)

Lemma uses_pos q m L : m ∈ L -> phy m = q -> 1 <= uses q L.
Proof.
  intros Hm <-. unfold uses. assert (m ∈ filter (fun m' => phy m' = phy m) L) as Hf.
  { by apply list_elem_of_filter. }
  destruct (filter _ L); [by apply not_elem_of_nil in Hf|]. simpl. lia.
Qed.

Lemma paging_granted F g x s :
  paging F s -> Segment.seg_inv F g -> Segment.granted (segs s) g x -> paging F (set_segs g s).
Proof.
  intros [Hsi Hm Hz Hu Hus] Hg (_ & _ & _ & _ & Href & _ & Hkept).
  assert (forall f, free_page (set_segs g s) f -> free_page s f) as Hf.
  { intros f Hf. unfold free_page in Hf. simpl in Hf. apply Href in Hf.
    unfold Segment.set_refs in Hf. by case_decide. }
  split; try done.
  - intros Hz0. by apply Hz, Hf.
  - intros i f Hi Ht Hff. by apply (Hu i f Hi Ht), Hf.
  - intros i f Hi Ht. destruct (Hus i f Hi Ht) as (y & Hy & ? & ? & Hr). exists y.
    split_and!; try done. apply Hkept; [done|]. by rewrite Hr.
Qed.

Lemma paging_dropped F g x s :
  paging F s -> Segment.seg_inv F g -> x ∈ head s -> 0 < Segment.base x ->
  (forall i f, 0 <= i < 1024 -> table (phys s) (cr3 s) i = Some f ->
     ~ Segment.base x <= f < Segment.seg_stop x) ->
  Segment.dropped (segs s) g x ->
  (forall p r, Segment.page_ref (Segment.segment_head g) p r <->
     Segment.set_refs (Segment.page_ref (head s)) (Segment.base x / PAGE_SIZE) (Segment.page_size x)
       (Segment.ref_count x - 1) p r) ->
  paging F (set_segs g s).
Proof.
  intros [Hsi Hm Hz Hu Hus] Hg Hx Hb0 Hap (_ & Hkept & _ & _) Href.
  destruct (Segment.seg_wf_elem F _ x (proj2 Hsi) Hx) as [Hok _].
  assert (forall f, f mod PAGE_SIZE = 0 -> ~ Segment.base x <= f < Segment.seg_stop x ->
    free_page (set_segs g s) f -> free_page s f) as Hf.
  { intros f Hfm Hfx Hf. unfold free_page in Hf. simpl in Hf. apply Href in Hf.
    unfold Segment.set_refs in Hf. case_decide; [|done]. exfalso. apply Hfx.
    unfold Segment.seg_ok, Segment.seg_stop in *. page_arith. }
  split; try done.
  - intros Hz0. apply Hz, Hf; [done|lia|done].
  - intros i f Hi Ht Hff. apply (Hu i f Hi Ht), Hf; [by eapply table_page|by eapply Hap|done].
  - intros i f Hi Ht. destruct (Hus i f Hi Ht) as (y & Hy & Hyb & Hyp & Hyr). exists y.
    split_and!; try done. apply Hkept; [done| |by rewrite Hyr]. intros E.
    rewrite (Segment.addr_unique F _ y x (proj2 Hsi) Hy Hx E) in *.
    apply (Hap i f ltac:(lia) Ht). unfold Segment.seg_stop. rewrite Hyb, Hyp. unfold PAGE_SIZE. lia.
Qed.

Lemma segment_alloc_as F lo hi root L a d s n b :
  as_inv F lo hi root L a d s -> 0 < n -> room (heap_of s) (Segment.split_room + b) ->
  b = 0 \/ KMALLOC_OVERHEAD < b ->
  wp (segment (Segment.segment_alloc n)) s (fun r s' =>
    (r = 0 /\ s' = s /\ Forall (fun x => Segment.ref_count x = 0 -> Segment.page_size x < n) (head s)) \/
    exists g x, s' = set_segs g s /\ r = Segment.seg_addr x /\ r <> 0 /\ Segment.page_size x = n /\
      Segment.granted (segs s) g x /\ as_inv F lo hi root L a d s' /\ room (heap_of s') b).
Proof.
  intros Hi Hn Hr Hb. pose proof (ai_paging _ _ _ _ _ _ _ _ Hi) as Hpg.
  apply wp_zoom. eapply wp_mono; [by apply (Segment.segment_alloc_ok (as_nodes d L ++ F) _ n b), Hb; [apply Hpg|..]|].
  intros r g [Hg [(-> & -> & Hf)|(x & -> & Hne & Hps & Hgr & Hr')]].
  { left. split_and!; [done| |done]. by destruct s. }
  right. exists g, x. split_and!; try done. destruct Hi as [Hat Hroot Hlk _ Hreg Hnb Hpl Hvi Hbk Hrf].
  split; try done; try (destruct a; done).
  - change (set_cr3 root (set_segs g s)) with (set_segs g (set_cr3 root s)). by apply (paging_granted _ _ x).
  - intros m Hm Hv. destruct (Hbk m Hm Hv) as [(y & Hy & Hya & Hyr & ?) Ht]. split; [|done].
    exists y. split_and!; try tauto. by apply Hgr.
  - intros m Hm. destruct (Hrf m Hm) as (y & Hy & Hya & Hyr & Hyt). exists y. split_and!; try done.
    apply Hgr; [done|]. pose proof (uses_pos _ m L Hm eq_refl). lia.
Qed.

(** Giving up the reference of a mapping [m0] that is no longer in the list. *)
Lemma segment_release_as F lo hi root L a d s m0 :
  as_inv F lo hi root L a d s -> backed (phys s) root (head s) m0 ->
  (exists x, x ∈ head s /\ Segment.seg_addr x = phy m0 /\
             uses (phy m0) (m0 :: L) <= Segment.ref_count x) ->
  wp (segment (Segment.segment_release (phy m0))) s (fun _ s' => exists g,
    s' = set_segs g s /\ as_inv F lo hi root L a d s' /\
    (forall b, room (heap_of s) b -> room (heap_of s') b) /\
    exists x, x ∈ head s /\ Segment.seg_addr x = phy m0 /\ Segment.dropped (segs s) g x /\
      forall p r, Segment.page_ref (Segment.segment_head g) p r <->
        Segment.set_refs (Segment.page_ref (head s)) (Segment.base x / PAGE_SIZE)
          (Segment.page_size x) (Segment.ref_count x - 1) p r).
Proof.
  intros Hi [(x & Hx & Hxa & Hxr & Hxb & _ & Hap & _) _] (x' & Hx' & Hxa' & Hus).
  pose proof (ai_paging _ _ _ _ _ _ _ _ Hi) as Hpg. pose proof (pg_segs _ _ Hpg) as Hsi. simpl in Hsi.
  assert (x' = x) as -> by (apply (Segment.addr_unique _ _ x' x (proj2 Hsi)); congruence).
  rewrite uses_cons, decide_True in Hus by done. rewrite <-Hxa.
  apply wp_zoom. eapply wp_mono; [by apply (Segment.segment_release_ok (as_nodes d L ++ F))|].
  intros _ g (Hg & Hdr & Href). exists g. pose proof Hdr as (_ & Hkept & Hself & Hroom).
  (* the segment of a mapping of [L] is still there, with enough references *)
  assert (forall m y, m ∈ L -> y ∈ head s -> Segment.seg_addr y = phy m ->
    uses (phy m) L <= Segment.ref_count y ->
    exists y', y' ∈ Segment.segment_head g /\ Segment.seg_addr y' = phy m /\
      Segment.base y' = Segment.base y /\ Segment.page_size y' = Segment.page_size y /\
      uses (phy m) L <= Segment.ref_count y') as Hstay.
  { intros m y Hm Hy Hya Hyr. pose proof (uses_pos _ m L Hm eq_refl).
    destruct (decide (Segment.seg_addr y = Segment.seg_addr x)) as [E|E].
    - rewrite (Segment.addr_unique _ _ y x (proj2 Hsi) Hy Hx E) in *.
      assert (phy m = phy m0) as Hpm by congruence. rewrite Hpm in *.
      exists (Segment.set_ref_count (Segment.ref_count x - 1) x). simpl. split_and!; try done; [|lia].
      apply Hself. lia.
    - exists y. split_and!; try done. apply Hkept; [done..|lia]. }
  split_and!; try done; [|by exists x].
  destruct Hi as [Hat Hroot Hlk _ Hreg Hnb Hpl Hvi Hbk Hrf].
  split; try done; try (destruct a; done).
  - change (set_cr3 root (set_segs g s)) with (set_segs g (set_cr3 root s)).
    by apply (paging_dropped _ _ x).
  - intros m Hm Hv. destruct (Hbk m Hm Hv) as [(y & Hy & Hya & Hyr & Hyb & Hys & Hyt & Hw) Ht]. split; [|done].
    destruct (Hrf m Hm) as (y2 & Hy2 & Hya2 & Hyr2 & _).
    assert (y2 = y) as -> by (apply (Segment.addr_unique _ _ y2 y (proj2 Hsi)); congruence).
    destruct (Hstay m y Hm Hy Hya Hyr2) as (y' & Hy' & Hya' & Hb' & Hp' & Hr').
    pose proof (uses_pos _ m L Hm eq_refl). exists y'. unfold Segment.seg_stop in *. rewrite Hb', Hp'.
    split_and!; try done; lia.
  - intros m Hm. destruct (Hrf m Hm) as (y & Hy & Hya & Hyr & Hyt).
    destruct (Hstay m y Hm Hy Hya Hyr) as (y' & Hy' & Hya' & Hb' & _ & Hr'). exists y'.
    by rewrite Hb'.
Qed.

(** *** Page tables *)

(** The translation of a mapping is not affected by work on other pages. *)
Lemma backed_walk p p' root l l' m :
  backed p root l m ->
  (forall x, x ∈ l -> Segment.ref_count x <> 0 -> Segment.seg_addr x = phy m -> x ∈ l') ->
  (forall v, virt m <= v < virt m + size m -> walk p' root v = walk p root v) ->
  (forall j, virt m / 4194304 <= j -> j * 4194304 < virt m + size m ->
     is_Some (table p root j) -> is_Some (table p' root j)) ->
  (forall x i f, x ∈ l -> Segment.ref_count x <> 0 -> 0 <= i < 1024 -> table p' root i = Some f ->
     (exists i', 0 <= i' < 1024 /\ table p root i' = Some f) \/ ~ Segment.base x <= f < Segment.seg_stop x) ->
  backed p' root l' m.
Proof.
  intros [(x & Hx & Hxa & Hxr & Hxb & Hxs & Hap & Hw) Ht] Hk Hw' Ht' Hnew. split.
  - exists x. split_and!; try done; [auto| |].
    + intros i f Hi Hf. destruct (Hnew x i f Hx Hxr Hi Hf) as [(i' & Hi' & Hf')|]; [|done]. eauto.
    + intros v Hv. rewrite Hw'; auto.
  - intros j Hj1 Hj2. apply Ht'; auto.
Qed.

(** The range of a mapping lies in the managed part of the address space. *)
Lemma placed_range F lo hi root L a d s m :
  as_inv F lo hi root L a d s -> m ∈ L ->
  lo <= virt m /\ virt m + size m <= hi /\ virt m mod PAGE_SIZE = 0 /\ 0 < size m /\
  size m mod PAGE_SIZE = 0 /\
  forall n, virt m / PAGE_SIZE <= n < virt m / PAGE_SIZE + size m / PAGE_SIZE ->
    Region.page_mapped (regions d) n true.
Proof.
  intros Hi Hm. pose proof (ai_placed _ _ _ _ _ _ _ _ Hi) as Hpl. rewrite Forall_forall in Hpl.
  destruct (Hpl m Hm) as (reg & Hin & Hmap & <- & <-).
  destruct (ai_regions _ _ _ _ _ _ _ _ Hi) as (Hok & Ht & Hlo & Hhi).
  destruct (tiles_elem _ _ _ _ _ reg (Region.reg_ok_le _ Hok) Ht Hin) as [H1 H2].
  rewrite Forall_forall in Hok. specialize (Hok reg Hin).
  rewrite Z.div_mul by done. unfold Region.reg_ok, Region.reg_stop in *.
  split_and!; try page_arith. intros n Hn. exists reg. split_and!; try done.
  unfold Region.in_reg, Region.reg_stop. page_arith.
Qed.

(** Pages are not both taken and free. *)
Lemma page_mapped_excl F lo hi root L a d s n :
  as_inv F lo hi root L a d s ->
  Region.page_mapped (regions d) n true -> Region.page_mapped (regions d) n false -> False.
Proof.
  intros Hi (r1 & H1 & I1 & M1) (r2 & H2 & I2 & M2).
  destruct (ai_regions _ _ _ _ _ _ _ _ Hi) as (Hok & Ht & _).
  assert (r1 <> r2) as Hne by congruence.
  apply list_elem_of_split in H1 as (l1 & l2 & E). rewrite E in *.
  assert (r2 ∈ l1 ++ l2) as H2' by set_solver.
  pose proof (tiles_disjoint _ _ _ _ _ _ _ r2 (Region.reg_ok_le _ Hok) Ht H2').
  unfold Region.in_reg in *. lia.
Qed.

Lemma mem_rest (s s' : mem H) a root :
  cr3 s' = root /\ kernel_as s' = kernel_as s /\ spaces s' = spaces s /\ current s' = current s ->
  as_at a (set_cr3 (cr3 s) s') = as_at a s /\ root_of a (set_cr3 (cr3 s) s') = root_of a s /\
  set_cr3 root (set_cr3 (cr3 s) s') = s'.
Proof.
  intros (Hc & Hk & Hs & Hcur).
  assert (as_at a (set_cr3 (cr3 s) s') = as_at a s) as Ha by (destruct a; simpl; congruence).
  split_and!; [done| |rewrite <-Hc; by destruct s'].
  unfold root_of. rewrite Ha. simpl. by rewrite Hcur.
Qed.

(** Two ranges of pages. *)
Definition apart (v sz : Z) (m : as_mapping) : Prop := v + sz <= virt m \/ virt m + size m <= v.

Lemma mmu_map_as F lo hi root L a d s v sz x flags :
  as_inv F lo hi root L a d s -> x ∈ head s -> Segment.ref_count x <> 0 ->
  0 < sz -> sz mod PAGE_SIZE = 0 -> sz <= Segment.page_size x * PAGE_SIZE ->
  v mod PAGE_SIZE = 0 -> lo <= v -> v + sz <= hi ->
  (forall n, v / PAGE_SIZE <= n < v / PAGE_SIZE + sz / PAGE_SIZE -> big (phys s) root (n / 1024) = None) ->
  Forall (apart v sz) L ->
  (forall i f, 0 <= i < 1024 -> table (phys s) root i = Some f -> ~ Segment.base x <= f < Segment.seg_stop x) ->
  tables_used (v / PAGE_SIZE) (sz / PAGE_SIZE) <= Segment.free_pages (head s) ->
  room (heap_of s) (tables_used (v / PAGE_SIZE) (sz / PAGE_SIZE) * Segment.split_room) ->
  wp (mmu_map a v (Segment.base x) sz flags) s (fun r s' =>
    r = 1 /\ as_inv F lo hi root L a d s' /\
    (forall m, virt m = v -> size m = sz -> phy m = Segment.seg_addr x -> 0 < Segment.base x ->
       backed (phys s') root (head s') m) /\
    (forall w, 0 <= w < 1023 * 4194304 -> ~ v <= w < v + sz ->
       walk (phys s') root w = walk (phys s) root w) /\
    (forall y, y ∈ head s -> Segment.ref_count y <> 0 -> y ∈ head s')).
Proof.
  intros Hi Hx Hxr Hsz0 Hsz Hszx Hv Hvlo Hvhi Hnb Hap Hxt Hfree Hroom.
  pose proof Hi as [Hat Hroot Hlk Hpg Hreg Hnbig Hpl Hvi Hbk Hrf].
  pose proof (pg_segs _ _ Hpg) as Hsi. simpl in Hsi.
  destruct (Segment.seg_wf_elem _ _ x (proj2 Hsi) Hx) as [Hxok _].
  destruct Hreg as (Hrok & Hrt & Hlo & Hhi).
  assert (forall j, v / 4194304 <= j -> j * 4194304 < v + sz -> big (phys s) root j = None) as Hbig.
  { intros j Hj1 Hj2. destruct (decide (j * 4194304 <= v)).
    - replace j with (v / PAGE_SIZE / 1024) by page_arith. apply Hnb. page_arith.
    - replace j with (j * 1024 / 1024) by page_arith. apply Hnb. page_arith. }
  rewrite <-Hroot in Hpg.
  assert (0 <= Segment.base x /\ Segment.base x mod PAGE_SIZE = 0 /\ Segment.base x + sz <= 2 ^ 32) as (Hb0 & Hbm & Hb1)
    by (unfold Segment.seg_ok, Segment.seg_stop in Hxok; lia).
  eapply wp_mono.
  { apply (mmu_map_ok (as_nodes d L ++ F) a s v (Segment.base x) sz flags); rewrite ?Hroot in *; try done; try lia. }
  rewrite Hroot in *. intros r s' (s0 & -> & -> & Hpg' & Hgr & Hvw).
  destruct (mem_rest s s0 a root (gr_rest _ _ Hgr)) as (Hat' & Hroot' & Hset).
  destruct (gr_rest _ _ Hgr) as [Hc _]. simpl in Hc.
  pose proof (pg_mirror _ _ Hpg) as Hm. pose proof (pg_mirror _ _ Hpg') as Hm'. rewrite Hc in Hm'. simpl in Hm.
  destruct (mapped_walk (phys s) (phys s0) root v (Segment.base x) sz (as_to_mmu_flags flags))
    as [Hw1 Hw2]; try done; [apply (gr_big _ _ Hgr)|apply as_to_mmu_flags_ok|lia|lia|].
  assert (forall y i f, y ∈ head s -> Segment.ref_count y <> 0 -> 0 <= i < 1024 ->
    table (phys s0) root i = Some f ->
    (exists i', 0 <= i' < 1024 /\ table (phys s) root i' = Some f) \/
    ~ Segment.base y <= f < Segment.seg_stop y) as Hnew.
  { intros y i f Hy Hyr Hii Hf. destruct (gr_new _ _ Hgr i f Hii Hf) as [Hf'|Hf']; [left; eauto|right].
    intros Hin. apply Hyr. eapply Segment.page_ref_unique; [apply Hsi..| |exact Hf'].
    exists y. split_and!; [done| |done]. unfold Segment.in_seg.
    destruct (table_page _ _ _ _ Hf). page_arith. }
  split_and!; [done| | |done|apply (gr_segs _ _ Hgr)].
  - split; try done; [by rewrite Hat'|by rewrite Hroot'|by rewrite Hset| | |].
    + intros n Hn. simpl. rewrite (gr_big _ _ Hgr); [by apply Hnbig|].
      destruct Hn as (rg & Hrg & Hin & _). destruct (tiles_elem _ _ _ _ _ rg (Region.reg_ok_le _ Hrok) Hrt Hrg).
      unfold Region.in_reg in Hin. page_arith.
    + intros m Hmm Hmk. destruct (placed_range _ _ _ _ _ _ _ _ m Hi Hmm) as (P1 & P2 & _).
      rewrite Forall_forall in Hap. specialize (Hap m Hmm). unfold apart in Hap.
      eapply backed_walk; [by apply Hbk|..]; simpl.
      * intros y Hy Hyr _. by apply (gr_segs _ _ Hgr).
      * intros w Hw. apply Hw2; lia.
      * intros j Hj1 Hj2 [f Hf]. exists f. apply (gr_tables _ _ Hgr); [|done]. page_arith.
      * apply Hnew.
    + intros m Hmm. destruct (Hrf m Hmm) as (y & Hy & Hya & Hyr & Hyt).
      pose proof (uses_pos _ m L Hmm eq_refl). exists y. split_and!; try done.
      * apply (gr_segs _ _ Hgr); [done|]. lia.
      * intros i Hii Hf. destruct (gr_new _ _ Hgr i _ ltac:(lia) Hf) as [Hf'|Hf']; [by apply (Hyt i)|].
        destruct (Segment.seg_wf_elem _ _ y (proj2 Hsi) Hy) as [Hyok _].
        assert (Segment.ref_count y = 0); [|lia].
        eapply Segment.page_ref_unique; [apply Hsi..| |exact Hf'].
        exists y. split_and!; [done| |done]. Segment.seg_arith.
  - intros m <- <- Hph Hpos. split; simpl.
    + exists x. split_and!; try done; [by apply (gr_segs _ _ Hgr)| |].
      * intros i f Hii Hf. destruct (Hnew x i f Hx Hxr Hii Hf) as [(i' & Hi' & Hf')|]; [eauto|done].
      * intros w Hw. by apply Hw1.
    + intros j Hj1 Hj2. destruct (decide (j * 4194304 <= virt m)).
      * replace j with (virt m / 4194304) by page_arith. apply Hw1. lia.
      * replace j with (j * 4194304 / 4194304) by page_arith. apply Hw1. lia.
Qed.

(** A translated address that is not in a big page has a table. *)
Lemma walk_has_table p root v x :
  mirrored p root -> 0 <= v < 1023 * 4194304 -> big p root (v / 4194304) = None ->
  walk p root v = Some x -> is_Some (table p root (v / 4194304)).
Proof.
  intros Hm Hv Hb. rewrite walk_translate by (done || lia). unfold translate. rewrite Hb.
  unfold pte. replace (v / PAGE_SIZE / 1024) with (v / 4194304) by page_arith.
  by destruct (table p root (v / 4194304)).
Qed.

Lemma mmu_unmap_as F lo hi root L a d s m0 :
  as_inv F lo hi root L a d s ->
  (forall j, virt m0 / 4194304 <= j -> j * 4194304 < virt m0 + size m0 -> is_Some (table (phys s) root j)) ->
  lo <= virt m0 -> virt m0 + size m0 <= hi -> virt m0 mod PAGE_SIZE = 0 -> 0 < size m0 ->
  size m0 mod PAGE_SIZE = 0 -> Forall (apart (virt m0) (size m0)) L ->
  wp (mmu_unmap a (virt m0) (size m0)) s (fun _ s' =>
    as_inv F lo hi root L a d s' /\
    (forall w, virt m0 <= w < virt m0 + size m0 -> walk (phys s') root w = None) /\
    (forall w, 0 <= w < 1023 * 4194304 -> ~ virt m0 <= w < virt m0 + size m0 ->
       walk (phys s') root w = walk (phys s) root w) /\
    shrinks (set_cr3 root s) (set_cr3 root s')).
Proof.
  intros Hi Htab Hlo0 Hhi0 Hv Hsz0 Hsz Hap.
  pose proof Hi as [Hat Hroot Hlk Hpg Hreg Hnbig Hpl Hvi Hbk Hrf].
  destruct Hreg as (Hrok & Hrt & Hlo & Hhi). rewrite <-Hroot in Hpg, Htab.
  eapply wp_mono; [apply (mmu_unmap_ok (as_nodes d L ++ F) a s); rewrite ?Hat; try done; lia|].
  rewrite Hroot in *. intros r s' (s0 & -> & -> & Hpg' & Hsh & Hvw).
  destruct (mem_rest s s0 a root (sh_rest _ _ Hsh)) as (Hat' & Hroot' & Hset).
  destruct (sh_rest _ _ Hsh) as [Hc _]. simpl in Hc.
  pose proof (pg_mirror _ _ Hpg) as Hm. pose proof (pg_mirror _ _ Hpg') as Hm'. rewrite Hc in Hm'. simpl in Hm.
  destruct (unmapped_walk (phys s) (phys s0) root (virt m0) (size m0)) as [Hw1 Hw2]; try done; try lia;
    [apply (sh_big _ _ Hsh)|].
  (* the segments of the other mappings are not page tables *)
  assert (forall m y, m ∈ L -> y ∈ head s -> Segment.ref_count y <> 0 -> Segment.seg_addr y = phy m ->
    y ∈ head s0) as Hstay.
  { intros m y Hmm Hy Hyr Hya. destruct (sh_segs _ _ Hsh y Hy Hyr) as [|(i & Hii & Hf & _)]; [done|].
    destruct (Hrf m Hmm) as (x & Hx & Hxa & _ & Hxt). destruct (Hxt i Hii).
    rewrite <-(Segment.addr_unique _ _ y x (proj2 (pg_segs _ _ Hpg)) Hy Hx) by congruence. done. }
  split_and!; try done; [|by rewrite Hset].
  split; try done; [by rewrite Hat'|by rewrite Hroot'|by rewrite Hset| | |].
  - intros n Hn. simpl. rewrite (sh_big _ _ Hsh); [by apply Hnbig|].
    destruct Hn as (rg & Hrg & Hin & _). destruct (tiles_elem _ _ _ _ _ rg (Region.reg_ok_le _ Hrok) Hrt Hrg).
    unfold Region.in_reg in Hin. page_arith.
  - intros m Hmm Hmk. destruct (placed_range _ _ _ _ _ _ _ _ m Hi Hmm) as (P1 & P2 & _ & P4 & _).
    rewrite Forall_forall in Hap. specialize (Hap m Hmm). unfold apart in Hap.
    assert (forall w, virt m <= w < virt m + size m -> walk (phys s0) root w = walk (phys s) root w) as Hww.
    { intros w Hw. apply Hw2; lia. }
    destruct (Hbk m Hmm Hmk) as [(x & _ & _ & _ & _ & _ & _ & Hxw) _].
    eapply backed_walk; [by apply Hbk|..]; simpl; [by eauto|done| |].
    + intros j Hj1 Hj2 [f (Hpr & H4 & _)%table_Some].
      set (w := Z.max (virt m) (j * 4194304)).
      assert (virt m <= w < virt m + size m /\ w / 4194304 = j) as [Hwr Hwj] by (unfold w; page_arith).
      rewrite <-Hwj in *. apply (walk_has_table _ _ w (Segment.base x + (w - virt m))); [done|lia| |].
      * rewrite (sh_big _ _ Hsh) by page_arith. unfold big. simpl. by rewrite Hpr, H4.
      * rewrite Hww; auto.
    + intros y i f Hy Hyr Hii Hf. left. exists i. split; [done|]. by apply (sh_tables _ _ Hsh).
  - intros m Hmm. destruct (Hrf m Hmm) as (y & Hy & Hya & Hyr & Hyt).
    pose proof (uses_pos _ m L Hmm eq_refl). exists y. split_and!; try done.
    + destruct (sh_segs _ _ Hsh y Hy) as [|(i & Hii & Hf & _)]; [lia|done|]. by destruct (Hyt i Hii).
    + intros i Hii Hf. apply (Hyt i Hii). apply (sh_tables _ _ Hsh); [lia|done].
Qed.

(** *** Nodes and the list of mappings *)

Lemma kmalloc_as F lo hi root L a d s n b :
  as_inv F lo hi root L a d s -> 0 <= n < 2 ^ 32 -> b = 0 \/ KMALLOC_OVERHEAD < b ->
  room (heap_of s) (n + KMALLOC_OVERHEAD + b) ->
  wp (heap (kmalloc n)) s (fun p s' => exists h, s' = set_heap h s /\ 0 < p /\
    as_inv (p :: F) lo hi root L a d s' /\ room (heap_of s') b).
Proof.
  intros Hi Hn Hb Hr. destruct (as_inv_owned _ _ _ _ _ _ _ _ Hi) as [Hh Ho].
  apply (wp_kmalloc_owned heap_of set_heap s n b); [done..|]. intros p h Hh' Hp Ho' Hr'.
  exists h. split_and!; try done. apply (as_inv_heap F); [done..|].
  eapply owned_perm; [|by apply Ho']. solve_Permutation.
Qed.

Lemma kfree_as F lo hi root L a d s p :
  as_inv (p :: F) lo hi root L a d s ->
  wp (heap (kfree p)) s (fun _ s' => exists h, s' = set_heap h s /\
    as_inv F lo hi root L a d s' /\ forall b, room (heap_of s) b -> room (heap_of s') b).
Proof.
  intros Hi. destruct (as_inv_owned _ _ _ _ _ _ _ _ Hi) as [Hh Ho].
  apply (wp_kfree_owned heap_of set_heap s p); [done| |].
  { eapply owned_live; [done|]. set_solver. }
  intros h Hh' Ho' Hr'. exists h. split_and!; try done. apply (as_inv_heap (p :: F)); [done..|].
  apply Ho'. eapply owned_perm; [|exact Ho]. solve_Permutation.
Qed.

(** The frame of the invariant and the node of a mapping. *)
Lemma paging_perm F F' s : F ≡ₚ F' -> paging F s -> paging F' s.
Proof.
  intros HF Hpg. destruct (paging_owned _ _ Hpg) as [Hh Ho].
  rewrite <-(set_heap_same s). apply (paging_heap _ _ _ _ Hpg); [done|]. by rewrite <-HF.
Qed.

Lemma as_inv_add F lo hi root L a d s m :
  as_inv (map_addr m :: F) lo hi root L a d s -> placed (regions d) m ->
  Forall (fun m' => virt m' <> virt m) L ->
  (virt m <> KERNEL_BEGIN -> backed (phys s) root (head s) m) ->
  (exists x, x ∈ head s /\ Segment.seg_addr x = phy m /\ uses (phy m) (m :: L) <= Segment.ref_count x /\
     forall i, 0 <= i < 768 -> table (phys s) root i <> Some (Segment.base x)) ->
  as_inv F lo hi root (m :: L) a d s.
Proof.
  intros [Hat Hroot Hlk Hpg Hreg Hnb Hpl Hvi Hbk Hrf] Hpm Hne Hbm (x & Hx & Hxa & Hxr & Hxt).
  split; try done.
  - eapply paging_perm; [|exact Hpg]. unfold as_nodes. simpl. solve_Permutation.
  - by constructor.
  - rewrite fmap_cons. constructor; [|done]. intros (m' & E & Hm')%list_elem_of_fmap.
    rewrite Forall_forall in Hne. by apply (Hne m' Hm').
  - intros m' [->|Hm']%elem_of_cons; auto.
  - intros m' [->|Hm']%elem_of_cons; [by exists x|].
    destruct (Hrf m' Hm') as (y & Hy & Hya & Hyr & Hyt). exists y. split_and!; try done.
    rewrite uses_cons. case_decide as Hd; [|lia]. rewrite uses_cons, decide_True in Hxr by done.
    rewrite (Segment.addr_unique _ _ y x (proj2 (pg_segs _ _ Hpg)) Hy Hx) by congruence.
    rewrite <-Hd. lia.
Qed.

Lemma as_inv_take F lo hi root L a d s m :
  as_inv F lo hi root (m :: L) a d s ->
  as_inv (map_addr m :: F) lo hi root L a d s /\
  Forall (fun m' => virt m' <> virt m) L /\ Forall (apart (virt m) (size m)) L.
Proof.
  intros Hi. pose proof Hi as [Hat Hroot Hlk Hpg Hreg Hnb Hpl Hvi Hbk Hrf].
  rewrite fmap_cons in Hvi. apply NoDup_cons in Hvi as [Hvm Hvi].
  assert (Forall (fun m' => virt m' <> virt m) L) as Hne.
  { apply Forall_forall. intros m' Hm' E. apply Hvm. rewrite <-E. by apply list_elem_of_fmap_2. }
  apply Forall_cons in Hpl as [Hpm Hpl]. split_and!; [|done|].
  - split; try done.
    + eapply paging_perm; [|exact Hpg]. unfold as_nodes. simpl. solve_Permutation.
    + intros m' Hm'. apply Hbk. set_solver.
    + intros m' Hm'. destruct (Hrf m') as (y & Hy & Hya & Hyr & Hyt); [set_solver|].
      exists y. split_and!; try done. rewrite uses_cons in Hyr. case_decide; lia.
  - rewrite Forall_forall in Hne, Hpl. apply Forall_forall. intros m' Hm'.
    destruct Hpm as (r1 & H1 & _ & E1 & S1). destruct (Hpl m' Hm') as (r2 & H2 & _ & E2 & S2).
    specialize (Hne m' Hm'). rewrite <-E1, <-E2 in Hne. unfold apart. rewrite <-E1, <-E2, <-S1, <-S2.
    destruct Hreg as (Hok & Ht & _). assert (r1 <> r2) by congruence.
    apply list_elem_of_split in H1 as (l1 & l2 & E). rewrite E in *.
    assert (r2 ∈ l1 ++ l2) as H2' by set_solver.
    pose proof (tiles_disjoint _ _ _ _ _ _ _ r2 (Region.reg_ok_le _ Hok) Ht H2') as Hd.
    unfold Region.reg_stop in Hd. lia.
Qed.

(** ** [as_map] of fresh memory *)

(** The most tables [n] pages can use. *)
Definition max_tables (n : Z) : Z := (n + 1022) / 1024 + 1.

Lemma tables_used_max first n : 0 < n -> 0 <= tables_used first n <= max_tables n.
Proof.
  intros Hn. unfold tables_used, max_tables. pose proof (Z.mod_pos_bound first 1024).
  assert ((first mod 1024 + n - 1) / 1024 <= (n + 1022) / 1024) by (apply Z.div_le_mono; lia).
  assert (0 <= (first mod 1024 + n - 1) / 1024) by (apply Z.div_pos; lia). lia.
Qed.

(** The room in the heap that mapping [n] fresh pages may need. *)
Definition map_room (n : Z) : Z :=
  sizeof_as_mapping + KMALLOC_OVERHEAD +
  (Region.split_room + (Segment.split_room + max_tables n * Segment.split_room)).

(** Nothing but the heap and the cut of the regions changed. *)
Definition same_as d d' s s' : Prop :=
  mapping d' = mapping d /\ map_lock d' = map_lock d /\ phys s' = phys s /\ head s' = head s /\
  forall n b, Region.page_mapped (regions d') n b <-> Region.page_mapped (regions d) n b.

(** No free range or no free segment is large enough for [n] pages. *)
Definition no_space d s (n : Z) : Prop :=
  Forall (fun x => Region.mapped x = false -> Region.page_size x < n) (regions d) \/
  Forall (fun x => Segment.ref_count x = 0 -> Segment.page_size x < n) (head s).

(** A free range and the segment chosen for it. *)
Definition chosen (lo hi : Z) d d' s s' (m : as_mapping) (x : Segment.segment) (n : Z) : Prop :=
  mapping d' = mapping d /\ map_lock d' = map_lock d /\ phys s' = phys s /\
  size m = n * PAGE_SIZE /\ Segment.seg_addr x = phy m /\ Segment.page_size x = n /\
  Segment.granted (segs s) (segs s') x /\
  lo <= virt m /\ virt m + n * PAGE_SIZE <= hi /\ virt m mod PAGE_SIZE = 0 /\ placed (regions d') m /\
  (forall p, virt m / PAGE_SIZE <= p < virt m / PAGE_SIZE + n -> Region.page_mapped (regions d) p false) /\
  (forall p b, Region.page_mapped (regions d') p b <->
     Region.set_pages (Region.page_mapped (regions d)) (virt m / PAGE_SIZE) n true p b).

Lemma fresh_virt F lo hi root L a d s v n m :
  as_inv F lo hi root L a d s -> 0 < n ->
  (forall p, v / PAGE_SIZE <= p < v / PAGE_SIZE + n -> Region.page_mapped (regions d) p false) ->
  m ∈ L -> virt m <> v /\ (v mod PAGE_SIZE = 0 -> apart v (n * PAGE_SIZE) m).
Proof.
  intros Hi Hn Hfree Hm.
  destruct (placed_range _ _ _ _ _ _ _ _ m Hi Hm) as (_ & _ & Ha & Hs & Hsm & Hmap).
  assert (forall p, v / PAGE_SIZE <= p < v / PAGE_SIZE + n ->
    virt m / PAGE_SIZE <= p < virt m / PAGE_SIZE + size m / PAGE_SIZE -> False) as Hno.
  { intros p H1 H2. by eapply page_mapped_excl; eauto. }
  assert (0 < size m / PAGE_SIZE) by page_arith. split.
  - intros <-. apply (Hno (virt m / PAGE_SIZE)); lia.
  - intros Hv. unfold apart.
    destruct (decide (v / PAGE_SIZE <= virt m / PAGE_SIZE)) as [Hle|Hgt].
    + left. assert (v / PAGE_SIZE + n <= virt m / PAGE_SIZE); [|page_arith].
      destruct (decide (v / PAGE_SIZE + n <= virt m / PAGE_SIZE)); [done|].
      exfalso. apply (Hno (virt m / PAGE_SIZE)); lia.
    + right. assert (virt m / PAGE_SIZE + size m / PAGE_SIZE <= v / PAGE_SIZE); [|page_arith].
      destruct (decide (virt m / PAGE_SIZE + size m / PAGE_SIZE <= v / PAGE_SIZE)); [done|].
      exfalso. apply (Hno (v / PAGE_SIZE)); lia.
Qed.

(** Undoing a reservation. *)
Lemma release_reserved F lo hi root L a d s p d1 s1 r n h :
  as_inv F lo hi root L a d s -> 0 < n ->
  d1 = set_as_regions false (regions d1) d -> s1 = set_as a d1 (set_heap h s) ->
  as_inv (p :: F) lo hi root L a d1 s1 ->
  Region.reserved lo hi (space_of d s) (space_of d1 s1) r n ->
  wp (region a (Region.region_release r) ;;; heap (kfree p)) s1 (fun _ s' => exists d',
    as_inv F lo hi root L a d' s' /\ same_as d d' s s').
Proof.
  intros Hi Hn Hd1 Hs1 Hi1 (Hlo & Hhi & Ha & Hfree & Hpm & (reg & Hin & Hb & Hp & Hmp) & _).
  simpl in Hfree, Hpm, Hin. apply wp_bind. rewrite <-Hb.
  eapply wp_mono; [apply (region_release_as (p :: F) lo hi root L a d1 s1 reg); try done|].
  - apply Forall_forall. intros m Hm. rewrite Hb. by apply (fresh_virt _ _ _ _ _ _ _ _ _ _ _ Hi Hn Hfree).
  - intros q Hq. rewrite Hs1. replace (phys _) with (phys s) by (by destruct a).
    apply (ai_nobig _ _ _ _ _ _ _ _ Hi), Hfree. by rewrite <-Hb, <-Hp.
  - intros _ s2 (d2 & h2 & Hd2 & -> & Hi2 & _ & Hpm2).
    eapply wp_mono; [by apply kfree_as|]. intros _ s3 (h3 & -> & Hi3 & _).
    exists d2. split; [done|].
    split_and!; [by rewrite Hd2, Hd1|by rewrite Hd2, Hd1|rewrite Hs1; by destruct a..|].
    intros q b. rewrite Hpm2. unfold Region.set_pages. case_decide as Hq.
    + assert (Region.page_mapped (regions d) q false) as Hqf by (apply Hfree; by rewrite <-Hb, <-Hp).
      split; [by intros ->|]. intros Hqb. destruct b; [|done].
      destruct (page_mapped_excl _ _ _ _ _ _ _ _ q Hi Hqb Hqf).
    + rewrite Hpm. unfold Region.set_pages. rewrite decide_False; [done|]. by rewrite <-Hb, <-Hp.
Qed.

Lemma setup_fresh_ok F lo hi root L a d s n flags :
  as_inv F lo hi root L a d s -> 0 < n -> n * PAGE_SIZE < 2 ^ 32 -> room (heap_of s) (map_room n) ->
  wp (setup_mapping a 0 0 (n * PAGE_SIZE) flags) s (fun r s' => exists d',
    match r with
    | None => as_inv F lo hi root L a d' s' /\ same_as d d' s s' /\ no_space d s n
    | Some m => exists x, as_inv (map_addr m :: F) lo hi root L a d' s' /\ chosen lo hi d d' s s' m x n /\
                          room (heap_of s') (max_tables n * Segment.split_room)
    end).
Proof.
  intros Hi Hn Hn1 Hroom. unfold setup_mapping. change (0 =? 0) with true. cbv iota.
  assert (0 <= max_tables n) as Hmt by (pose proof (tables_used_max 0 n Hn); lia).
  apply wp_bind. eapply wp_mono; [apply (kmalloc_as F lo hi root L a d s _
    (Region.split_room + (Segment.split_room + max_tables n * Segment.split_room))); try done|].
  { right. unfold Region.split_room, Segment.split_room, KMALLOC_OVERHEAD, Region.sizeof_region, Segment.sizeof_segment. lia. }
  intros p s1 (h1 & -> & Hp & Hi1 & Hr1). rewrite (proj2 (Z.eqb_neq p 0)) by lia.
  apply wp_bind. rewrite Z.div_mul by done.
  eapply wp_mono; [apply (region_reserve_as (p :: F) lo hi root L a d _ 0 n
    (Segment.split_room + max_tables n * Segment.split_room)); try done|].
  { right. unfold Segment.split_room, KMALLOC_OVERHEAD, Segment.sizeof_segment. lia. }
  intros v s2 [(-> & -> & Hno)|(d2 & h2 & Hv & _ & Hd2 & -> & Hi2 & Hr2 & Hres)].
  - simpl. unfold free_vaddr. simpl. apply wp_bind. apply wp_bind, wp_ret.
    eapply wp_mono; [by apply kfree_as|]. intros _ s3 (h3 & -> & Hi3 & _). step.
    exists d. split_and!; try done. left. by apply Hno.
  - rewrite (proj2 (Z.eqb_neq v 0)) by done. unfold setup_phy. simpl.
    apply wp_bind, wp_ret. apply wp_bind. rewrite Z.div_mul by done.
    eapply wp_mono; [apply (segment_alloc_as (p :: F) lo hi root L a d2 _ n
      (max_tables n * Segment.split_room)); try done|].
    { unfold Segment.split_room, KMALLOC_OVERHEAD, Segment.sizeof_segment. lia. }
    intros q s3 [(-> & -> & Hno)|(g & x & -> & -> & Hq & Hpx & Hg & Hi3 & Hr3)].
    + simpl. unfold free_vaddr. simpl. rewrite (proj2 (Z.eqb_neq v 0)) by done. simpl.
      apply wp_bind. eapply wp_mono; [by eapply (release_reserved F lo hi root L a d s p d2 _ v n h2)|].
      intros _ s3 (d3 & Hi3 & Hsame). step. exists d3. split_and!; [done..|]. right. by destruct a.
    + rewrite (proj2 (Z.eqb_neq _ 0)) by done. step. exists d2, x. split_and!; [done| |done].
      destruct Hres as (Hlo & Hhi & Ha & Hfree & Hpm & (reg & Hin & Hb & Hps & Hm) & _).
      split_and!; try done; simpl; try (rewrite Hd2; done); [by destruct a| |].
      * destruct Hg as (? & ? & ? & Hg4 & Hg5 & Hg6 & Hg7). split_and!; try done.
        -- intros y Hy. specialize (Hg4 y Hy). by destruct a.
        -- intros y r. rewrite Hg5. by destruct a.
        -- rewrite Hg6. by destruct a.
        -- intros y Hy Hyr. apply Hg7; [|done]. by destruct a.
      * exists reg. split_and!; try done. by rewrite Hps.
Qed.

(** A segment that was free is neither a page table nor used by a mapping. *)
Lemma fresh_segment F lo hi root L a d s g x :
  as_inv F lo hi root L a d s -> NoDup (Segment.seg_addr <$> Segment.segment_head g) ->
  Segment.granted (segs s) g x ->
  0 < Segment.base x /\
  (forall i f, 0 <= i < 1024 -> table (phys s) root i = Some f -> ~ Segment.base x <= f < Segment.seg_stop x) /\
  uses (Segment.seg_addr x) L = 0.
Proof.
  intros Hi Hnd (Hxin & Hxr & Hxok & Hfree & _ & _ & Hkept).
  pose proof (ai_paging _ _ _ _ _ _ _ _ Hi) as Hpg. pose proof (proj2 (pg_segs _ _ Hpg)) as Hwf. simpl in Hwf.
  assert (forall y, y ∈ head s -> Segment.ref_count y <> 0 -> Segment.seg_ok y ->
    Segment.seg_addr y = Segment.seg_addr x -> False) as Hno.
  { intros y Hy Hyr Hyok E. specialize (Hkept y Hy Hyr).
    apply list_elem_of_split in Hxin as (l1 & l2 & E1).
    apply list_elem_of_split in Hkept as (l3 & l4 & E2). rewrite E1 in Hnd, E2.
    destruct (NoDup_split_unique _ _ _ _ _ _ _ Hnd E2 (eq_sym E)) as (_ & -> & _).
    apply Hyr. eapply Segment.page_ref_unique; [apply Hwf..| |apply (Hfree (Segment.base y / PAGE_SIZE))].
    - exists y. split_and!; [done| |done]. Segment.seg_arith.
    - Segment.seg_arith. }
  split_and!.
  - destruct (decide (Segment.base x = 0)) as [E|]; [|unfold Segment.seg_ok in Hxok; lia].
    destruct (pg_zero _ _ Hpg). apply Hfree. unfold Segment.in_seg. rewrite E. Segment.seg_arith.
  - intros i f Hii Ht Hf. apply (pg_used _ _ Hpg i f Hii Ht). apply Hfree.
    destruct (table_page _ _ _ _ Ht). unfold Segment.in_seg. page_arith.
  - destruct (decide (uses (Segment.seg_addr x) L = 0)) as [|Hu]; [done|]. exfalso.
    unfold uses in Hu. destruct (filter _ L) as [|m l] eqn:E; [done|].
    assert (m ∈ filter (fun m => phy m = Segment.seg_addr x) L) as [Hm Hin]%list_elem_of_filter
      by (rewrite E; set_solver).
    destruct (ai_refs _ _ _ _ _ _ _ _ Hi m Hin) as (y & Hy & Hya & Hyr & _).
    pose proof (uses_pos _ m L Hin eq_refl). destruct (Segment.seg_wf_elem _ _ y Hwf Hy) as [Hyok _].
    apply (Hno y); [done|lia|done|congruence].
Qed.

(** The new mapping enters the list under the lock. *)
Lemma add_mapping_ok F lo hi root L a d s m Q :
  as_inv (map_addr m :: F) lo hi root L a d s -> map_lock d = false -> mapping d = L ->
  (forall d' s', as_inv (map_addr m :: F) lo hi root L a d' s' -> map_lock d' = false ->
     mapping d' = m :: L -> regions d' = regions d -> phys s' = phys s -> segs s' = segs s ->
     Q (virt m) s') ->
  wp (map_lock_take a ;;; update a (fun d => set_mapping (m :: mapping d) d) ;;;
      map_lock_release a ;;; ret (virt m)) s Q.
Proof.
  intros Hi Hl HL HQ. apply wp_bind, (wp_map_lock a d); [apply Hi|done|].
  apply wp_bind, (wp_update a (set_map_lock true d)); [apply as_at_set|]. rewrite set_as_twice.
  apply wp_bind, (wp_map_unlock a _ _ _ (as_at_set _ _ _)). rewrite set_as_twice. step.
  eapply HQ; [by eapply as_inv_set|..]; simpl; try (by destruct a). by rewrite HL.
Qed.

Lemma page_align_ok sz :
  0 < sz <= 2 ^ 32 - PAGE_SIZE -> exists n, page_align sz = n * PAGE_SIZE /\ 0 < n /\
    n * PAGE_SIZE < 2 ^ 32 /\ sz <= n * PAGE_SIZE < sz + PAGE_SIZE.
Proof.
  intros Hs. unfold page_align. rewrite u32_small by (unfold PAGE_SIZE in *; lia).
  exists ((sz + PAGE_SIZE - 1) / PAGE_SIZE). page_arith.
Qed.

Lemma as_map_fresh_ok F lo hi root a d s sz n flags :
  as_ok F lo hi root a d s -> page_align sz = n * PAGE_SIZE -> sz <> 0 -> 0 < n ->
  n * PAGE_SIZE < 2 ^ 32 -> n + max_tables n <= Segment.free_pages (head s) ->
  room (heap_of s) (map_room n) ->
  wp (as_map a 0 0 sz flags) s (fun r s' => exists d', as_ok F lo hi root a d' s' /\
    ((r = 0 /\ same_as d d' s s' /\ no_space d s n) \/
     exists m x, mapping d' = m :: mapping d /\ virt m = r /\ r <> 0 /\ size m = n * PAGE_SIZE /\
       map_flags m = flags /\ Segment.seg_addr x = phy m /\
       (forall p, Segment.in_seg p x -> Segment.page_ref (head s) p 0) /\
       (forall p, r / PAGE_SIZE <= p < r / PAGE_SIZE + n -> Region.page_mapped (regions d) p false) /\
       (forall p b, Region.page_mapped (regions d') p b <->
          Region.set_pages (Region.page_mapped (regions d)) (r / PAGE_SIZE) n true p b) /\
       (forall v, r <= v < r + n * PAGE_SIZE ->
          walk (phys s') root v = Some (Segment.base x + (v - r))) /\
       (forall v, 0 <= v < 1023 * 4194304 -> ~ r <= v < r + n * PAGE_SIZE ->
          walk (phys s') root v = walk (phys s) root v))).
Proof.
  intros [Hi Hl] Hal Hsz Hn Hn1 Hfree Hroom. unfold as_map. rewrite (proj2 (Z.eqb_neq sz 0)) by done.
  change (page_align 0) with 0. rewrite Hal.
  apply wp_bind. eapply wp_mono; [by apply setup_fresh_ok|]. intros r s1 (d1 & Hr).
  destruct r as [m|]; [|step; exists d1; destruct Hr as (Hi1 & Hs & Hno);
    pose proof Hs as (Em & El & _); split; [rewrite <-Em in Hi1; split; [done|congruence]|by left]].
  destruct Hr as (x & Hi1 & Hch & Hr1).
  destruct Hch as (Em & El & Ep & Hms & Hxa & Hxp & Hg & Hlo & Hhi & Hva & Hplc & Hvf & Hpm).
  pose proof (ai_paging _ _ _ _ _ _ _ _ Hi1) as Hpg1. pose proof (proj2 (pg_segs _ _ Hpg1)) as Hwf1. simpl in Hwf1.
  pose proof (Segment.wf_NoDup _ _ Hwf1) as Hnd.
  destruct (fresh_segment _ _ _ _ _ _ _ _ (segs s1) x Hi Hnd Hg) as (Hxb & Hxt & Hxu).
  pose proof Hg as (Hxin & Hxr & Hxok & Hxf & _ & Hfp & _).
  rewrite <-Hxa. apply wp_bind, wp_segment_deref; [done..|].
  destruct (tables_used_max (virt m / PAGE_SIZE) n Hn) as [Ht0 Ht1].
  apply wp_bind. eapply wp_mono.
  { apply (mmu_map_as (map_addr m :: F) lo hi root (mapping d) a d1 s1 (virt m) (size m) x flags);
      rewrite ?Hms, ?Z.div_mul by done; try done.
    - by rewrite Hxr.
    - unfold PAGE_SIZE. lia.
    - by apply Z.mod_mul.
    - by rewrite Hxp.
    - intros p Hp. rewrite Ep. by apply (ai_nobig _ _ _ _ _ _ _ _ Hi), Hvf.
    - apply Forall_forall. intros m' Hm'.
      by apply (fresh_virt _ _ _ _ _ _ _ _ _ _ _ Hi Hn Hvf Hm').
    - by rewrite Ep.
    - rewrite Hfp, Hxp. lia.
    - eapply room_mono; [exact Hr1|]. unfold Segment.split_room, Segment.sizeof_segment, KMALLOC_OVERHEAD. lia. }
  intros r s2 (-> & Hi2 & Hbk & Hw & Hkept). simpl.
  set (m' := set_map_flags flags m).
  eapply (add_mapping_ok F lo hi root (mapping d) a d1 s2 m'); [done|congruence|done|].
  intros d3 s3 Hi3 Hl3 Hm3 Hr3 Hp3 Hs3.
  assert (backed (phys s3) root (head s3) m') as Hbk3 by (rewrite Hp3, Hs3; by apply Hbk).
  assert (as_inv F lo hi root (m' :: mapping d) a d3 s3) as Hi4.
  { apply as_inv_add; [done|by rewrite Hr3| |done|].
    - apply Forall_forall. intros m0 Hm0. by apply (fresh_virt _ _ _ _ _ _ _ _ _ _ _ Hi Hn Hvf Hm0).
    - exists x. split_and!.
      + rewrite Hs3. apply Hkept; [done|]. by rewrite Hxr.
      + done.
      + rewrite uses_cons, decide_True by done. change (phy m') with (phy m). rewrite <-Hxa, Hxu, Hxr. lia.
      + intros i Hii Hf. destruct Hbk3 as [(y & Hy & Hya & _ & _ & _ & Hyt & _) _].
        assert (y = x) as ->.
        { eapply Segment.addr_unique; [apply (pg_segs _ _ (ai_paging _ _ _ _ _ _ _ _ Hi3))|done| |by rewrite Hya].
          simpl. rewrite Hs3. apply Hkept; [done|]. by rewrite Hxr. }
        apply (Hyt i _ ltac:(lia) Hf). Segment.seg_arith. }
  exists d3. split; [split; [by rewrite Hm3|done]|]. right. exists m', x.
  destruct (ai_regions _ _ _ _ _ _ _ _ Hi) as (_ & _ & Hlo0 & _).
  split_and!; try done.
  - simpl. lia.
  - by rewrite Hr3.
  - intros v Hv. destruct Hbk3 as [(y & Hy & Hya & _ & _ & _ & _ & Hyw) _].
    assert (y = x) as <-.
    { eapply Segment.addr_unique; [apply (pg_segs _ _ (ai_paging _ _ _ _ _ _ _ _ Hi3))|done| |by rewrite Hya].
      simpl. rewrite Hs3. apply Hkept; [done|]. by rewrite Hxr. }
    apply Hyw. simpl. by rewrite Hms.
  - intros v Hv Hout. rewrite Hp3, <-Ep. apply Hw; [done|]. by rewrite Hms.
Qed.

(** ** [as_unmap] *)

(** What becomes of the segment of [m]: it keeps its references, or has one less and its
    pages are free if that was the last one. *)
Definition released (flags : Z) (m : as_mapping) s s' : Prop :=
  exists x, x ∈ head s /\ Segment.seg_addr x = phy m /\ 0 < Segment.ref_count x /\
    let n := if Z.land flags AS_UNMAP_RELEASE =? 0 then Segment.ref_count x
             else Segment.ref_count x - 1 in
    if n =? 0 then forall p, Segment.in_seg p x -> Segment.page_ref (head s') p 0
    else Segment.set_ref_count n x ∈ head s'.

(** What the removal of a mapping of the segment [q] from [a] does not touch: the other
    address spaces, the other segments in use, except those of page tables of the
    directory [root] that are gone, the free pages, and the memory outside the page
    tables. *)
Definition spared a (root q : Z) s s' : Prop :=
  (forall a', a' <> a -> as_at a' s' = as_at a' s) /\
  (forall y, y ∈ head s -> Segment.ref_count y <> 0 -> Segment.seg_addr y <> q ->
     y ∈ head s' \/ exists i, 0 <= i < 768 /\ table (phys s) root i = Some (Segment.base y) /\
                              table (phys s') root i = None) /\
  (forall p, Segment.page_ref (head s) p 0 -> Segment.page_ref (head s') p 0) /\
  (forall x, (forall i f, 0 <= i < 1024 -> table (phys s) root i = Some f -> ~ f <= x < f + PAGE_SIZE) ->
     phys s' x = phys s x).

(** The reference is dropped, or not. *)
Lemma unmap_release_ok F lo hi root L a d s m flags :
  as_inv F lo hi root L a d s -> backed (phys s) root (head s) m ->
  (exists x, x ∈ head s /\ Segment.seg_addr x = phy m /\ uses (phy m) (m :: L) <= Segment.ref_count x) ->
  wp (if Z.land flags AS_UNMAP_RELEASE =? 0 then ret tt
      else segment (Segment.segment_release (phy m))) s (fun _ s' => exists g, s' = set_segs g s /\
    as_inv F lo hi root L a d s' /\ released flags m s s' /\ spared a root (phy m) s s').
Proof.
  intros Hi Hb (x & Hx & Hxa & Hxr). pose proof (pg_segs _ _ (ai_paging _ _ _ _ _ _ _ _ Hi)) as [_ Hwf].
  pose proof (uses_pos (phy m) m (m :: L) ltac:(set_solver) eq_refl). unfold released. case_match eqn:Hfl.
  { step. exists (segs s). replace (set_segs (segs s) s) with s by (by destruct s). split_and!; [done..| |].
    - exists x. split_and!; [done..|lia|]. cbv zeta. rewrite (proj2 (Z.eqb_neq _ 0)) by lia. by destruct x.
    - split_and!; try done. intros y Hy _ _. by left. }
  eapply wp_mono; [apply segment_release_as; [exact Hi|done|by exists x]|].
  intros _ s2 (g & -> & Hi2 & _ & y & Hy & Hya & (_ & Hkept & Hself & _) & Href). exists g.
  assert (y = x) as -> by (eapply Segment.addr_unique; [exact Hwf|done|done|congruence]).
  destruct (Segment.seg_wf_elem _ _ x Hwf Hx) as [Hxok _].
  split_and!; [done..| |].
  - exists x. split_and!; [done..|lia|]. cbv zeta. destruct (Z.eqb_spec (Segment.ref_count x - 1) 0) as [E|E].
    + intros p Hp. apply Href. unfold Segment.set_refs. rewrite decide_True by Segment.seg_arith. lia.
    + apply Hself. lia.
  - split_and!; [intros []; done| | |done].
    + intros y Hy2 Hyr Hq. left. apply Hkept; [done|congruence|done].
    + intros p Hp. apply Href. unfold Segment.set_refs. case_decide; [|done]. exfalso.
      assert (Segment.page_ref (head s) p (Segment.ref_count x)) as Hp2 by (exists x; split_and!; [done|Segment.seg_arith|done]).
      destruct Hwf as (_ & _ & Hsep & _). pose proof (Segment.page_ref_unique _ _ _ _ Hsep Hp Hp2). lia.
Qed.

(** Steps that change nothing but the space at [a] and the heap. *)
Definition only_as a s s' : Prop :=
  head s' = head s /\ phys s' = phys s /\ forall a', a' <> a -> as_at a' s' = as_at a' s.

Lemma only_as_set a d h s : only_as a s (set_as a d (set_heap h s)).
Proof.
  split_and!; [by destruct a..|]. intros [|p'] Hne; destruct a as [|p]; try done. simpl.
  rewrite lookup_insert_ne; [done|congruence].
Qed.

Lemma only_as_trans a s1 s2 s3 : only_as a s1 s2 -> only_as a s2 s3 -> only_as a s1 s3.
Proof.
  intros (E1 & E2 & E3) (E4 & E5 & E6). split_and!; [congruence..|]. intros a' Hne. by rewrite E6, E3.
Qed.

(** The pages of the segment are not page tables: unmapping leaves them. *)
Lemma released_shrinks F flags m a root s s1 s2 s3 s4 x :
  only_as a s s1 -> released flags m s1 s2 -> shrinks (set_cr3 root s2) (set_cr3 root s3) ->
  only_as a s3 s4 -> phys s2 = phys s -> Segment.seg_wf F (segs s) ->
  x ∈ head s -> Segment.seg_addr x = phy m ->
  (forall i, 0 <= i < 768 -> table (phys s) root i <> Some (Segment.base x)) -> released flags m s s4.
Proof.
  intros (E1 & _ & _) (y & Hy & Hya & Hyr & Hrel) Hsh (E2 & _ & _) Ep Hnd Hx Hxa Hxt. rewrite E1 in Hy.
  assert (y = x) as -> by (eapply Segment.addr_unique; [exact Hnd|done|done|congruence]).
  exists x. split_and!; [done..|]. cbv zeta in Hrel |- *. rewrite E2.
  match goal with |- context [?n =? 0] => destruct (Z.eqb_spec n 0) end.
  - intros p Hp. by apply (sh_free _ _ Hsh), Hrel.
  - destruct (sh_segs _ _ Hsh _ Hrel) as [|(i & Hi & Ht & _)]; [done|done|]. simpl in Ht. rewrite Ep in Ht.
    by destruct (Hxt i Hi).
Qed.

Lemma spared_shrinks a root q s s1 s2 s3 s4 :
  only_as a s s1 -> spared a root q s1 s2 -> phys s2 = phys s1 ->
  shrinks (set_cr3 root s2) (set_cr3 root s3) -> only_as a s3 s4 -> spared a root q s s4.
Proof.
  intros (E1 & E2 & E3) (H1 & H2 & H3 & H4) Ep Hsh (E4 & E5 & E6).
  destruct (sh_rest _ _ Hsh) as (_ & Hk & Hs & _). simpl in Hk, Hs. split_and!.
  - intros a' Hne. rewrite E6, <-E3, <-H1 by done. destruct a'; simpl; congruence.
  - intros y Hy Hyr Hyq. rewrite <-E1 in Hy. rewrite E4, E5, <-E2. destruct (H2 y Hy Hyr Hyq) as [Hy2|(i & Hi & Ht & Hn)].
    + destruct (sh_segs _ _ Hsh y Hy2 Hyr) as [|(i & Hi & Ht & Hn)]; [by left|right]. exists i. simpl in Ht, Hn.
      rewrite <-Ep. done.
    + right. exists i. split_and!; [lia..|done|]. destruct (table (phys s3) root i) as [f|] eqn:E; [|done].
      apply (sh_tables _ _ Hsh) in E; [|lia]. simpl in E. congruence.
  - intros p Hp. rewrite E4. apply (sh_free _ _ Hsh), H3. by rewrite E1.
  - intros w Hw. rewrite E5, <-E2, <-Ep. apply (sh_phys _ _ Hsh). simpl. by rewrite Ep, E2.
Qed.

(** [as_unmap] after it has found [m], with the lock held. *)
Lemma unmap_found_ok F lo hi root a d s front m back flags :
  as_inv F lo hi root (front ++ m :: back) a d s -> mapping d = front ++ m :: back ->
  virt m <> KERNEL_BEGIN ->
  wp (region a (Region.region_release (virt m)) ;;;
      (if Z.land flags AS_UNMAP_RELEASE =? 0 then ret tt
       else segment (Segment.segment_release (phy m))) ;;;
      let! _ := mmu_unmap a (virt m) (size m) in
      update a (fun d => set_mapping (unlink (map_addr m) (mapping d)) d) ;;;
      heap (kfree (map_addr m)) ;;;
      map_lock_release a) s (fun _ s' => exists d', as_ok F lo hi root a d' s' /\
    mapping d' = front ++ back /\
    (forall p b, Region.page_mapped (regions d') p b <->
       Region.set_pages (Region.page_mapped (regions d)) (virt m / PAGE_SIZE) (size m / PAGE_SIZE) false p b) /\
    (forall v, virt m <= v < virt m + size m -> walk (phys s') root v = None) /\
    (forall v, 0 <= v < 1023 * 4194304 -> ~ virt m <= v < virt m + size m ->
       walk (phys s') root v = walk (phys s) root v) /\
    released flags m s s' /\ spared a root (phy m) s s').
Proof.
  intros Hi0 Hmd Hmk.
  assert (as_inv F lo hi root (m :: front ++ back) a d s) as Hi.
  { eapply as_inv_perm; [|done|exact Hi0]. solve_Permutation. }
  destruct (placed_range _ _ _ _ _ _ _ _ m Hi) as (R1 & R2 & R3 & R4 & R5 & _); [set_solver|].
  destruct (as_inv_take _ _ _ _ _ _ _ _ _ Hi) as (Hi1 & Hne & Hap).
  pose proof (ai_placed _ _ _ _ _ _ _ _ Hi) as [(reg & Hreg & Hmap & Hrb & Hrs) _]%Forall_cons.
  destruct (ai_backed _ _ _ _ _ _ _ _ Hi m ltac:(set_solver) Hmk) as [Hbs Hbt].
  destruct (ai_refs _ _ _ _ _ _ _ _ Hi m ltac:(set_solver)) as (x & Hx & Hxa & Hxr & Hxt).
  assert (Region.page_size reg = size m / PAGE_SIZE) as Hps by (rewrite <-Hrs; by rewrite Z.div_mul).
  destruct (ai_regions _ _ _ _ _ _ _ _ Hi) as (_ & _ & Hlo & Hhi).
  apply wp_bind. rewrite <-Hrb.
  eapply wp_mono; [apply (region_release_as (map_addr m :: F) lo hi root (front ++ back) a d s reg); try done|].
  - by rewrite Hrb.
  - intros n Hn. rewrite Hrb, Hps in Hn.
    destruct (Hbt (n / 1024)) as [f (Hpr & H4 & _)%table_Some]; [page_arith..|].
    unfold big. by rewrite Hpr, H4.
  - rewrite Hrb, Hps. intros _ s1 (d1 & h1 & Hd1 & -> & Hi2 & _ & Hpm).
    set (s1 := set_as a d1 (set_heap h1 s)) in *.
    assert (phys s1 = phys s /\ head s1 = head s) as [Ep Eh] by (by destruct a).
    apply wp_bind. eapply wp_mono; [apply (unmap_release_ok (map_addr m :: F) lo hi root (front ++ back) a d1 s1 m flags)|].
    { done. } { rewrite Ep, Eh. by split. } { rewrite Eh. by exists x. }
    intros _ s2 (g & E2 & Hi3 & Hrel & Hsp1). assert (phys s2 = phys s) as Ep2 by (by rewrite E2). apply wp_bind.
    eapply wp_mono; [apply mmu_unmap_as; [exact Hi3|rewrite ?Ep2; done..]|].
    intros _ s3 (Hi4 & Hw1 & Hw2 & Hsh). rewrite Ep2 in Hw2.
    apply wp_bind, (wp_update a d1); [apply Hi4|].
    assert (mapping d1 = front ++ m :: back) as Hm1 by (by rewrite Hd1).
    rewrite Hm1, unlink_split.
    2:{ destruct (as_inv_owned _ _ _ _ _ _ _ _ Hi0) as [_ [Hnd _]].
        apply NoDup_app in Hnd as (_ & _ & Hnd). unfold as_nodes in Hnd.
        rewrite <-app_assoc in Hnd. apply NoDup_app in Hnd as (_ & _ & Hnd).
        by apply NoDup_app in Hnd as [? _]. }
    set (d2 := set_mapping (front ++ back) d1).
    assert (as_inv (map_addr m :: F) lo hi root (front ++ back) a d2 (set_as a d2 s3)) as Hi5
      by (by apply (as_inv_set _ _ _ _ _ _ d1)).
    apply wp_bind. eapply wp_mono; [by apply kfree_as|]. intros _ s4 (h4 & -> & Hi6 & _).
    apply (wp_map_unlock a d2); [apply Hi6|].
    exists (set_map_lock false d2).
    assert (phys (set_as a (set_map_lock false d2) (set_heap h4 (set_as a d2 s3))) = phys s3) as Ep3
      by (by destruct a).
    assert (only_as a s3 (set_as a (set_map_lock false d2) (set_heap h4 (set_as a d2 s3)))) as Ho34.
    { eapply only_as_trans; [apply (only_as_set a d2 (heap_of s3))|]. replace (set_heap (heap_of s3) s3) with s3;
        [apply only_as_set|]. by destruct s3 as [??[]]. }
    rewrite Ep3. split_and!; [|done..| |]; [split; [by eapply as_inv_set|done]| |].
    + eapply released_shrinks; [|exact Hrel|exact Hsh|exact Ho34|done| |exact Hx|done|]; [apply only_as_set| |].
      * exact (proj2 (pg_segs _ _ (ai_paging _ _ _ _ _ _ _ _ Hi))).
      * done.
    + eapply (spared_shrinks a root (phy m) s s1 s2 s3); [apply only_as_set|exact Hsp1|by rewrite Ep2, Ep|exact Hsh|exact Ho34].
Qed.

Lemma as_unmap_ok F lo hi root a d s m flags :
  as_ok F lo hi root a d s -> m ∈ mapping d -> virt m <> KERNEL_BEGIN ->
  wp (as_unmap a (virt m) flags) s (fun _ s' => exists d' front back, as_ok F lo hi root a d' s' /\
    mapping d = front ++ m :: back /\ mapping d' = front ++ back /\
    (forall p b, Region.page_mapped (regions d') p b <->
       Region.set_pages (Region.page_mapped (regions d)) (virt m / PAGE_SIZE) (size m / PAGE_SIZE) false p b) /\
    (forall v, virt m <= v < virt m + size m -> walk (phys s') root v = None) /\
    (forall v, 0 <= v < 1023 * 4194304 -> ~ virt m <= v < virt m + size m ->
       walk (phys s') root v = walk (phys s) root v) /\
    released flags m s s' /\ spared a root (phy m) s s').
Proof.
  intros [Hi Hl] Hm Hmk. unfold as_unmap. apply wp_bind, (wp_map_lock a d); [apply Hi|done|].
  apply wp_bind, (wp_as_deref a (set_map_lock true d)); [apply as_at_set|]. simpl.
  destruct (list_break_key virt (mapping d) m) as (front & back & -> & Heq); [apply Hi|done|].
  set (s1 := set_as a _ s). assert (phys s1 = phys s) as Ep by (by destruct a).
  eapply wp_mono; [apply (unmap_found_ok F lo hi root a (set_map_lock true d) s1 front m back flags)|].
  - rewrite <-Heq. by eapply as_inv_set.
  - done.
  - done.
  - rewrite Ep. intros _ s' (d' & Hok & Hm' & Hpm & Hw1 & Hw2 & Hrel & Hsp). exists d', front, back.
    assert (head s1 = head s) as Eh by (by destruct a). split_and!; try done.
    + unfold released in Hrel |- *. by rewrite Eh in Hrel.
    + destruct Hsp as (Hs1 & Hs2 & Hs3 & Hs4). rewrite Eh in Hs2, Hs3. rewrite Ep in Hs2, Hs4. split_and!; try done.
      intros a' Hne. rewrite Hs1 by done.
      destruct (only_as_set a (set_map_lock true d) (heap_of s) s) as (_ & _ & <-); [|done].
      by destruct s as [??[]].
Qed.

Lemma as_unmap_missing a d s vaddr flags :
  as_at a s = Some d -> map_lock d = false -> vaddr ∉ virt <$> mapping d ->
  wp (as_unmap a vaddr flags) s (fun _ s' => s' = s).
Proof.
  intros Hd Hl Hv. unfold as_unmap. apply wp_bind, (wp_map_lock a d); [done..|].
  apply wp_bind, (wp_as_deref a (set_map_lock true d)); [apply as_at_set|]. simpl.
  rewrite (proj2 (list_break_None _ _)).
  - apply (wp_map_unlock a (set_map_lock true d)); [apply as_at_set|].
    rewrite set_as_twice. replace (set_map_lock false _) with d; [by rewrite set_as_id|].
    destruct d; simpl in Hl; by subst.
  - apply Forall_forall. intros m Hm. apply Z.eqb_neq. intros <-. by apply Hv, list_elem_of_fmap_2.
Qed.

(** ** [as_clean] *)

Lemma as_ok_nodes F lo hi root a d s :
  as_ok F lo hi root a d s -> NoDup (map_addr <$> mapping d) /\ forall m, m ∈ mapping d -> 0 < map_addr m.
Proof.
  intros [Hi _]. destruct (as_inv_owned _ _ _ _ _ _ _ _ Hi) as [_ [Hnd Hl]]. unfold as_nodes in *. split.
  - apply NoDup_app in Hnd as (_ & _ & Hnd). rewrite <-app_assoc in Hnd.
    apply NoDup_app in Hnd as (_ & _ & Hnd). by apply NoDup_app in Hnd as [? _].
  - intros m Hm. apply Hl. rewrite !elem_of_app. right. left. right. by apply list_elem_of_fmap_2.
Qed.

Definition next_addr (l : list as_mapping) : Z := match l with m :: _ => map_addr m | [] => 0 end.

Lemma next_mapping_split l1 m l2 :
  NoDup (map_addr <$> l1 ++ m :: l2) -> next_mapping (map_addr m) (l1 ++ m :: l2) = Some (next_addr l2).
Proof.
  intros Hnd. unfold next_mapping.
  destruct (list_break_key map_addr (l1 ++ m :: l2) m) as (l3 & l4 & -> & Heq); [done|set_solver|].
  destruct (NoDup_split_unique map_addr l1 m l2 l3 m l4) as (-> & _ & ->); [done..|]. by destruct l4.
Qed.

(** The address is in one of the mappings of [l] that [as_clean] removes. *)
Definition wiped (l : list as_mapping) (v : Z) : Prop :=
  Exists (fun m => virt m < KERNEL_BEGIN /\ virt m <= v < virt m + size m) l.

#[export] Instance wiped_dec l v : Decision (wiped l v).
Proof. unfold wiped. apply _. Defined.

(** The translation after the mappings of [l] were removed. *)
Definition wipes root (l : list as_mapping) s s' : Prop :=
  forall v, 0 <= v < 1023 * 4194304 ->
    walk (phys s') root v = if decide (wiped l v) then None else walk (phys s) root v.

Lemma wipes_app root l l' s s1 s' :
  wipes root l s s1 -> wipes root l' s1 s' -> wipes root (l ++ l') s s'.
Proof.
  intros H1 H2 v Hv. rewrite H2, H1 by done. unfold wiped.
  repeat case_decide; rewrite ?Exists_app in *; tauto.
Qed.

Lemma as_clean_body_ok F lo hi root a d s kept m rest :
  as_ok F lo hi root a d s -> mapping d = kept ++ m :: rest ->
  wp (if virt m <? KERNEL_BEGIN then as_unmap a (virt m) AS_UNMAP_RELEASE else ret tt) s (fun _ s' =>
    exists d', as_ok F lo hi root a d' s' /\ wipes root [m] s s' /\
      mapping d' = (kept ++ filter (fun m => KERNEL_BEGIN <= virt m) [m]) ++ rest).
Proof.
  intros Hok Hm. rewrite filter_cons, filter_nil. destruct (Z.ltb_spec (virt m) KERNEL_BEGIN) as [Hlt|Hge].
  - rewrite decide_False by lia. eapply wp_mono.
    + apply (as_unmap_ok F lo hi root a d s m); [done|rewrite Hm; set_solver|lia].
    + intros _ s' (d' & front & back & Hok' & E1 & E2 & _ & Hw1 & Hw2 & _). exists d'. split_and!; [done| |].
      { intros v Hv. unfold wiped. case_decide as Hd; rewrite Exists_cons, Exists_nil in Hd; [apply Hw1; tauto|].
        apply Hw2; [done|tauto]. }
      destruct (as_ok_nodes _ _ _ _ _ _ _ Hok) as [Hnd _]. rewrite Hm in Hnd, E1.
      destruct (NoDup_split_unique map_addr _ _ _ _ _ _ Hnd E1 eq_refl) as (-> & _ & ->).
      by rewrite app_nil_r.
  - rewrite decide_True by lia. step. exists d. split_and!; [done| |by rewrite <-app_assoc].
    intros v Hv. rewrite decide_False; [done|]. unfold wiped. rewrite Exists_cons, Exists_nil. lia.
Qed.

(** The loop with the mappings [kept] behind it and [m :: rest] in front. *)
Lemma as_clean_loop_ok F lo hi root a rest : forall d s kept m fuel,
  as_ok F lo hi root a d s -> mapping d = kept ++ m :: rest -> (length rest < fuel)%nat ->
  wp (clean_loop fuel a (map_addr m) (next_addr rest)) s (fun _ s' => exists d',
    as_ok F lo hi root a d' s' /\ wipes root (m :: rest) s s' /\
    mapping d' = kept ++ filter (fun m => KERNEL_BEGIN <= virt m) (m :: rest)).
Proof.
  induction rest as [|m2 rest IH]; intros d s kept m fuel Hok Hm Hf;
    (destruct fuel as [|fuel]; [simpl in Hf; lia|]); cbn [clean_loop].
  all: destruct (as_ok_nodes _ _ _ _ _ _ _ Hok) as [Hnd Hpos].
  all: rewrite (proj2 (Z.eqb_neq _ 0)) by (specialize (Hpos m); rewrite Hm in Hpos; set_solver by lia).
  all: apply wp_bind, (wp_as_deref a d); [apply Hok|].
  all: destruct (list_break_key map_addr (mapping d) m) as (l1 & l2 & -> & _);
    [done|rewrite Hm; set_solver|].
  all: apply wp_bind; eapply wp_mono; [by eapply as_clean_body_ok|].
  all: intros _ s1 (d1 & Hok1 & Hw1 & Hm1); apply wp_bind, (wp_as_deref a d1); [apply Hok1|]; simpl next_addr.
  - step. exists d1. by rewrite Hm1, app_nil_r.
  - destruct (as_ok_nodes _ _ _ _ _ _ _ Hok1) as [Hnd1 Hpos1]. rewrite Hm1 in Hnd1, Hpos1.
    rewrite (proj2 (Z.eqb_neq _ 0)) by (specialize (Hpos1 m2); set_solver by lia).
    rewrite Hm1, next_mapping_split by done.
    eapply wp_mono; [apply (IH d1 s1 _ m2 fuel Hok1 Hm1); simpl in Hf; lia|].
    intros _ s' (d' & Hok' & Hw & Hm'). exists d'. split_and!; [done|by apply (wipes_app root [m] _ s s1 s')|].
    by rewrite Hm', <-app_assoc, <-filter_app.
Qed.

Lemma as_clean_ok F lo hi root a d s :
  as_ok F lo hi root a d s ->
  wp (as_clean a) s (fun _ s' => exists d',
    as_ok F lo hi root a d' s' /\ wipes root (mapping d) s s' /\
    mapping d' = filter (fun m => KERNEL_BEGIN <= virt m) (mapping d)).
Proof.
  intros Hok. unfold as_clean. apply wp_bind, (wp_as_deref a d); [apply Hok|].
  destruct (mapping d) as [|m rest] eqn:Hm.
  - step. exists d. rewrite Hm. split_and!; [done| |done].
    intros v Hv. rewrite decide_False; [done|]. by intros ?%Exists_nil.
  - assert (wp (clean_loop (length (m :: rest)) a (map_addr m) (next_addr rest)) s (fun _ s' => exists d',
      as_ok F lo hi root a d' s' /\ wipes root (m :: rest) s s' /\
      mapping d' = filter (fun m => KERNEL_BEGIN <= virt m) (m :: rest))) as Hw.
    { eapply wp_mono; [by apply (as_clean_loop_ok F lo hi root a rest d s [] m); [..|simpl; lia]|]. done. }
    by destruct rest.
Qed.

(** ** Queries *)

(** Taking and giving back the lock leaves the state as it was. *)
Lemma wp_locked {A} a d s (k : M (mem H) A) Q :
  as_at a s = Some d -> map_lock d = false -> wp k s Q ->
  wp (map_lock_release a ;;; k) (set_as a (set_map_lock true d) s) Q.
Proof.
  intros Hd Hl HQ. apply wp_bind, (wp_map_unlock a (set_map_lock true d)); [apply as_at_set|].
  rewrite set_as_twice. replace (set_map_lock false _) with d; [by rewrite set_as_id|].
  destruct d; simpl in Hl; by subst.
Qed.

Lemma as_mapping_locate_wp a d s vaddr Q :
  as_at a s = Some d -> map_lock d = false ->
  Q (match list_break (holds vaddr) (mapping d) with Some (_, m, _) => Some m | None => None end) s ->
  wp (as_mapping_locate a vaddr) s Q.
Proof.
  intros Hd Hl HQ. unfold as_mapping_locate. apply wp_bind, (wp_map_lock a d); [done..|].
  apply wp_bind, (wp_as_deref a (set_map_lock true d)); [apply as_at_set|]. by apply wp_locked; [..|step].
Qed.

(** The bytes from [ptr] on that lie in a mapping. *)
Definition covers (ptr sz : Z) (m : as_mapping) : Prop :=
  virt m <= ptr < virt m + size m /\ ptr + sz <= virt m + size m.

(** An address is in one mapping at most. *)
Lemma mapping_unique F lo hi root L a d s m1 m2 v :
  as_inv F lo hi root L a d s -> m1 ∈ L -> m2 ∈ L ->
  virt m1 <= v < virt m1 + size m1 -> virt m2 <= v < virt m2 + size m2 -> m1 = m2.
Proof.
  intros Hi H1 H2 V1 V2. pose proof (ai_placed _ _ _ _ _ _ _ _ Hi) as Hpl. rewrite Forall_forall in Hpl.
  destruct (Hpl m1 H1) as (r1 & R1 & _ & B1 & S1), (Hpl m2 H2) as (r2 & R2 & _ & B2 & S2).
  destruct (ai_regions _ _ _ _ _ _ _ _ Hi) as (Hok & Ht & _).
  destruct (decide (virt m1 = virt m2)) as [Hv|Hv].
  - destruct (list_break_key virt L m1) as (? & ? & E1 & _); [apply Hi|done|].
    destruct (list_break_key virt L m2) as (? & ? & E2 & _); [apply Hi|done|]. rewrite <-Hv in E2. congruence.
  - exfalso. assert (r1 <> r2) by congruence. apply list_elem_of_split in R1 as (l1 & l2 & E). rewrite E in *.
    assert (r2 ∈ l1 ++ l2) as R2' by set_solver.
    pose proof (tiles_disjoint _ _ _ _ _ _ _ r2 (Region.reg_ok_le _ Hok) Ht R2').
    unfold Region.reg_stop in *. lia.
Qed.

Lemma as_is_mapped_wp a d s ptr sz :
  as_at a s = Some d -> map_lock d = false ->
  wp (as_is_mapped a ptr sz) s (fun r s' => s' = s /\
    r = match list_break (fun m => (ptr >=? virt m) && (ptr <? u32 (virt m + size m))) (mapping d) with
        | Some (_, m, _) => if u32 (u32 (ptr - virt m) + sz) >? size m then 0 else 1
        | None => 0
        end).
Proof.
  intros Hd Hl. unfold as_is_mapped. apply wp_bind, (wp_map_lock a d); [done..|].
  apply wp_bind, (wp_as_deref a (set_map_lock true d)); [apply as_at_set|]. simpl.
  destruct (list_break _ _) as [[[? m] ?]|]; by apply wp_locked; [..|step].
Qed.

(** The answer of [as_is_mapped] for a range that does not wrap around. *)
Lemma as_is_mapped_ok F lo hi root a d s ptr sz :
  as_ok F lo hi root a d s -> 0 <= ptr -> 0 <= sz -> ptr + sz <= 2 ^ 32 ->
  wp (as_is_mapped a ptr sz) s (fun r s' => s' = s /\
    ((r = 1 /\ exists m, m ∈ mapping d /\ covers ptr sz m) \/
     (r = 0 /\ forall m, m ∈ mapping d -> ~ covers ptr sz m))).
Proof.
  intros [Hi Hl] Hp Hs Hps. eapply wp_mono; [by apply as_is_mapped_wp; [apply Hi|]|].
  intros r s' [-> Hr]. split; [done|].
  assert (forall m, m ∈ mapping d -> 0 < virt m /\ 0 < size m /\ virt m + size m < 2 ^ 32) as Hrange.
  { intros m Hm. destruct (placed_range _ _ _ _ _ _ _ _ m Hi Hm) as (H1 & H2 & _ & H3 & _).
    destruct (ai_regions _ _ _ _ _ _ _ _ Hi) as (_ & _ & Hlo & Hhi). lia. }
  destruct (list_break _ _) as [[[l1 m] l2]|] eqn:E.
  - apply list_break_Some in E as (El & Hm & _). assert (m ∈ mapping d) as Hin by (rewrite El; set_solver).
    specialize (Hrange m Hin) as HR. rewrite andb_true_iff in Hm. rewrite (u32_small (_ + size m)) in Hm by lia.
    rewrite (u32_small (ptr - _)), u32_small in Hr by lia. destruct (_ >? _) eqn:Eq; subst r.
    + right. split; [done|]. intros m' Hin' Hc.
      replace m' with m in Hc by (eapply (mapping_unique _ _ _ _ _ _ _ _ m m' ptr Hi); unfold covers in *; lia || done).
      unfold covers in Hc. lia.
    + left. split; [done|]. exists m. unfold covers. split; [done|lia].
  - right. split; [done|]. apply list_break_None in E. rewrite Forall_forall in E. intros m Hm [Hc _].
    specialize (E m Hm). specialize (Hrange m Hm). rewrite u32_small in E by lia.
    apply andb_false_iff in E. lia.
Qed.
End inv.
End AsInv.
