(* ===== verification/AsSpec.v ===== *)
(** What the operations on address spaces promise, with the states that show it.

    The first part states the theorems of AsInv.v for an address space between
    two operations; the second part has a concrete address space, on which the
    definitions of As.v are evaluated, and the behaviours of as.c that its
    callers have to avoid. *)

From S2P Require Import Prelude KHeap Kmalloc Segment Region Mmu As AsInv.

Module AsSpec.
Import Mmu As AsInv.

Section claims.
Context {H : Type} `{KHeap H}.
Implicit Types (s : mem H) (a : as_ptr) (d : as_t) (F : list Z).

Notation head s := (Segment.segment_head (segs s)).


(** C15: [as_unmap] takes exactly the mapping that begins at the address out of the
    list: its pages are free again, no address of its range is translated any
    more and every other address is translated as before.  With the flag to
    release, the segment has exactly one reference less, its pages being free if that was
    the last one; without it the segment is as before.  The other address spaces, the other
    segments in use, the free pages and the memory outside the page tables stay as they
    are, except that user page tables which became empty are given back.  An address at
    which no mapping begins changes nothing. *)
Theorem as_unmap_releases F lo hi root a d s vaddr flags :
  as_ok F lo hi root a d s -> vaddr <> KERNEL_BEGIN ->
  wp (as_unmap a vaddr flags) s (fun _ s' =>
    (s' = s /\ vaddr ∉ virt <$> mapping d) \/
    exists d' front m back, as_ok F lo hi root a d' s' /\ virt m = vaddr /\
      mapping d = front ++ m :: back /\ mapping d' = front ++ back /\
      (forall p b, Region.page_mapped (regions d') p b <->
         Region.set_pages (Region.page_mapped (regions d)) (vaddr / PAGE_SIZE) (size m / PAGE_SIZE) false p b) /\
      (forall v, vaddr <= v < vaddr + size m -> walk (phys s') root v = None) /\
      (forall v, 0 <= v < 1023 * 4194304 -> ~ vaddr <= v < vaddr + size m ->
         walk (phys s') root v = walk (phys s) root v) /\
      released flags m s s' /\ spared a root (phy m) s s').
Proof.
  intros Hok Hk. destruct (decide (vaddr ∈ virt <$> mapping d)) as [Hin|Hni].
  - apply list_elem_of_fmap in Hin as (m & -> & Hm). eapply wp_mono; [by apply as_unmap_ok|].
    intros _ s' (d' & front & back & Hs). right. exists d', front, m, back. tauto.
  - destruct Hok as [Hi Hl]. eapply wp_mono; [apply (as_unmap_missing a d); [apply Hi|done..]|]. intros _ s' ->. by left.
Qed.

(** C17: [as_clean] removes the mappings below the kernel and no other: in one run
    over the list, whose nodes it frees on the way, every user mapping goes, no
    address of one is translated any more, and all other addresses are translated
    as before. *)
Theorem as_clean_wipes F lo hi root a d s :
  as_ok F lo hi root a d s ->
  wp (as_clean a) s (fun _ s' => exists d',
    as_ok F lo hi root a d' s' /\ wipes root (mapping d) s s' /\
    mapping d' = filter (fun m => KERNEL_BEGIN <= virt m) (mapping d)).
Proof. apply as_clean_ok. Qed.

(** C16: For a range that does not wrap around, [as_is_mapped] says 1 exactly when
    the range lies in one mapping, and then every address of it is translated. *)
Theorem as_is_mapped_correct F lo hi root a d s ptr sz :
  as_ok F lo hi root a d s -> 0 <= ptr -> 0 <= sz -> ptr + sz <= 2 ^ 32 ->
  wp (as_is_mapped a ptr sz) s (fun r s' => s' = s /\ (r = 0 \/ r = 1) /\
    (r = 1 <-> exists m, m ∈ mapping d /\ covers ptr sz m) /\
    (r = 1 -> ~ KERNEL_BEGIN <= ptr -> forall v, ptr <= v < ptr + sz -> is_Some (walk (phys s) root v))).
Proof.
  intros Hok Hp Hs Hps. eapply wp_mono; [by apply (as_is_mapped_ok F lo hi root a d)|].
  intros r s' (-> & [[-> (m & Hm & Hc)]|[-> Hno]]); (split; [done|]).
  - split_and!; [by right|naive_solver|]. intros _ Hk v Hv. destruct Hok as [Hi _]. unfold covers in Hc.
    destruct (ai_backed _ _ _ _ _ _ _ _ Hi m Hm) as [(x & _ & _ & _ & _ & _ & _ & Hw) _]; [lia|].
    rewrite Hw by lia. by eexists.
  - split_and!; [by left| |done]. split; [done|]. intros (m & Hm & Hc). by destruct (Hno m).
Qed.
End claims.

(** ** A concrete address space *)

#[local] Existing Instance Kmalloc.kmalloc_kheap.

Definition sample_heap : Kmalloc.heap := {|
  Kmalloc.kmalloc_lock := false;
  Kmalloc.kmalloc_head :=
    [ {| Kmalloc.bk_addr := 1000; Kmalloc.bk_ptr := 1020; Kmalloc.bk_size := 20; Kmalloc.bk_free := false |};
      {| Kmalloc.bk_addr := 1040; Kmalloc.bk_ptr := 1060; Kmalloc.bk_size := 20; Kmalloc.bk_free := false |};
      {| Kmalloc.bk_addr := 1080; Kmalloc.bk_ptr := 1100; Kmalloc.bk_size := 20; Kmalloc.bk_free := false |};
      {| Kmalloc.bk_addr := 1120; Kmalloc.bk_ptr := 1140; Kmalloc.bk_size := 20; Kmalloc.bk_free := false |};
      {| Kmalloc.bk_addr := 1160; Kmalloc.bk_ptr := 1180; Kmalloc.bk_size := 4000; Kmalloc.bk_free := true |} ];
  Kmalloc.mem := ∅ |}.

Definition sample_segs : Segment.segs Kmalloc.heap := Segment.set_kheap sample_heap Segment.sample_segs.

(** A hundred free pages from 4 MB on. *)
Definition sample_as : as_t := {|
  region_lock := false;
  regions := [ {| Region.reg_addr := 1140; Region.base := 4194304; Region.page_size := 100; Region.mapped := false |} ];
  map_lock := false; mapping := []; as_cr3 := 8192 |}.

Definition sample : mem Kmalloc.heap := set_as (UserAs 500) sample_as (sample_mem sample_segs).

Lemma sample_heap_wf : heap_ok sample_heap.
Proof.
  exists 1000, 5180. split_and!; try done.
  repeat (constructor; [split; simpl; Kmalloc.blk_arith|]). constructor.
Qed.

Lemma sample_owned : owned sample_heap [1020; 1060; 1100; 1140].
Proof.
  split; [apply (bool_decide_unpack _); by vm_compute|].
  intros x Hx. rewrite !elem_of_cons, elem_of_nil in Hx.
  destruct Hx as [->|[->|[->|[->|[]]]]]; (split; [lia|]); vm_compute; eauto.
Qed.

Lemma sample_paging_as : paging [1140] (set_cr3 8192 sample).
Proof.
  destruct sample_paging as [[Hl Hwf] Hm Hr Ht Hk]. split; try done.
  split; [done|]. destruct Hwf as (_ & Hok & Hti & _). split_and!; [apply sample_heap_wf|done|done|apply sample_owned].
Qed.

Lemma sample_ok : as_ok [] 4194304 4603904 8192 (UserAs 500) sample_as sample.
Proof.
  split; [|done]. split; try done.
  - apply sample_paging_as.
  - split_and!; try done. by repeat constructor.
  - intros n (reg & Hreg & Hin & _). apply list_elem_of_singleton in Hreg as ->.
    apply sample_big. unfold Region.in_reg, Region.reg_stop, PAGE_SIZE in Hin. simpl in Hin.
    split; [apply Z.div_pos; lia|]. apply Z.div_lt_upper_bound; lia.
  - constructor.
  - intros m Hm. by apply not_elem_of_nil in Hm.
  - intros m Hm. by apply not_elem_of_nil in Hm.
Qed.

Lemma sample_room : room (heap_of sample) (map_room 2).
Proof.
  right. eexists. split_and!; [do 4 apply list_elem_of_further; apply list_elem_of_here|done|].
  vm_compute. done.
Qed.

(** Two pages for the process, and what is known of them. *)
Lemma sample_mapped :
  wp (as_map (UserAs 500) 0 0 5000 AS_MAP_WRITE) sample (fun r s' => exists d' m x,
    as_ok [] 4194304 4603904 8192 (UserAs 500) d' s' /\ mapping d' = [m] /\ virt m = r /\ r < KERNEL_BEGIN /\
    size m = 8192 /\ forall v, r <= v < r + 8192 -> walk (phys s') 8192 v = Some (Segment.base x + (v - r))).
Proof.
  eapply wp_mono.
  - apply (as_map_fresh_ok [] 4194304 4603904 8192 (UserAs 500) sample_as sample 5000 2 AS_MAP_WRITE);
      try done; [apply sample_ok|apply sample_room].
  - intros r s' (d' & Hok & [(_ & _ & [Hno|Hno])|(m & x & Em & Ev & _ & Es & _ & _ & _ & _ & _ & Hw & _)]).
    1: by apply Forall_cons in Hno as [Hno _]; specialize (Hno eq_refl).
    1: by apply Forall_cons in Hno as [_ Hno]; apply Forall_cons in Hno as [Hno _]; specialize (Hno eq_refl).
    exists d', m, x. split_and!; try done. subst r. destruct Hok as [Hi _].
    destruct (placed_range _ _ _ _ _ _ _ _ m Hi) as (H1 & H2 & _ & H3 & _); [rewrite Em; set_solver|].
    unfold KERNEL_BEGIN. lia.
Qed.


Lemma as_unmap_releases_witness :
  wp (let! r := as_map (UserAs 500) 0 0 5000 AS_MAP_WRITE in
      as_unmap (UserAs 500) r AS_UNMAP_RELEASE ;;; ret r) sample (fun r s' => exists d',
    as_ok [] 4194304 4603904 8192 (UserAs 500) d' s' /\ mapping d' = [] /\ walk (phys s') 8192 r = None).
Proof.
  apply wp_bind. eapply wp_mono; [apply sample_mapped|]. intros r s1 (d1 & m & x & Hok & Em & Ev & Hr & Es & _).
  apply wp_bind. eapply wp_mono.
  - apply (as_unmap_releases [] 4194304 4603904 8192 (UserAs 500) d1 s1 r AS_UNMAP_RELEASE); [done|lia].
  - intros _ s' [[_ Hni]|(d' & front & m' & back & Hok' & Ev' & E1 & E2 & _ & Hw & _)]; step.
    { destruct Hni. rewrite Em, <-Ev. apply list_elem_of_here. }
    rewrite Em in E1. destruct front as [|? front]; simplify_eq/=; [|by destruct front].
    exists d'. split_and!; try done. apply Hw. lia.
Defined.

Lemma as_clean_wipes_witness :
  wp (let! r := as_map (UserAs 500) 0 0 5000 AS_MAP_WRITE in
      as_clean (UserAs 500) ;;; ret r) sample (fun r s' => exists d',
    as_ok [] 4194304 4603904 8192 (UserAs 500) d' s' /\ mapping d' = []).
Proof.
  apply wp_bind. eapply wp_mono; [apply sample_mapped|]. intros r s1 (d1 & m & x & Hok & Em & Ev & Hr & Es & _).
  apply wp_bind. eapply wp_mono; [apply (as_clean_wipes [] 4194304 4603904 8192 (UserAs 500) d1 s1 Hok)|].
  intros _ s' (d' & Hok' & _ & E). step. exists d'. split; [done|].
  rewrite E, Em, filter_cons, decide_False by lia. apply filter_nil.
Defined.

Lemma as_is_mapped_correct_witness :
  wp (let! r := as_map (UserAs 500) 0 0 5000 AS_MAP_WRITE in
      as_is_mapped (UserAs 500) (r + 100) 8000) sample (fun r _ => r = 1).
Proof.
  apply wp_bind. eapply wp_mono; [apply sample_mapped|]. intros r s1 (d1 & m & x & Hok & Em & Ev & Hr & Es & _).
  destruct (placed_range _ _ _ _ _ _ _ _ m (proj1 Hok)) as (H1 & _); [rewrite Em; set_solver|].
  unfold KERNEL_BEGIN in Hr.
  eapply wp_mono; [apply (as_is_mapped_correct [] 4194304 4603904 8192 (UserAs 500) d1 s1 (r + 100) 8000 Hok); lia|].
  intros r' s' (_ & _ & Hiff & _). apply Hiff. exists m. rewrite Em. split; [apply list_elem_of_here|].
  unfold covers. lia.
Defined.

(** A size that makes the end of the range wrap around passes the check:
    [as_is_mapped] says 1 for a range of 2^32 - 1 bytes that starts in a mapping
    of one page.  The system calls test the buffers of a process with it. *)
Theorem as_is_mapped_wraps :
  wp (let! r := as_map (UserAs 500) 0 0 PAGE_SIZE AS_MAP_WRITE in
      as_is_mapped (UserAs 500) (r + 1) (2 ^ 32 - 1)) sample (fun r s' =>
    r = 1 /\ walk (phys s') 8192 (4194304 + PAGE_SIZE) = None).
Proof. unfold wp. by vm_compute. Qed.

(** A mapping at a given address does not reserve its range: the next mapping
    at an address of the choice of [as_map] may get the same range, and replaces
    the pages of the first in the page tables.  Both are in the list. *)
Theorem as_map_fixed_overlaps :
  wp (let! v1 := as_map (UserAs 500) 4194304 0 PAGE_SIZE AS_MAP_WRITE in
      let! s1 := get in
      let! v2 := as_map (UserAs 500) 0 0 PAGE_SIZE AS_MAP_WRITE in
      ret (v1, v2, walk (phys s1) 8192 v1)) sample (fun r s' =>
    r = (4194304, 4194304, Some 655360) /\ walk (phys s') 8192 4194304 = Some 663552 /\
    (virt <$> mapping (default (empty_as 0) (as_at (UserAs 500) s'))) = [4194304; 4194304]).
Proof. unfold wp. by vm_compute. Qed.

(** A mapping of a physical address begins at the start of the segment the
    address is in, not at the address, and takes no reference to the segment,
    though [as_unmap] drops one. *)
Lemma as_map_paddr_base :
  wp (let! r := as_map (UserAs 500) 0 8192 PAGE_SIZE AS_MAP_WRITE in
      let! s1 := get in
      as_unmap (UserAs 500) r AS_UNMAP_RELEASE ;;;
      ret (walk (phys s1) 8192 r)) sample (fun r s' =>
    r = Some 0 /\ Segment.ref_count Segment.seg_used = 2 /\
    Segment.set_ref_count 1 Segment.seg_used ∈ Segment.segment_head (segs s')).
Proof.
  unfold wp. vm_compute. split_and!; [done..|apply list_elem_of_here].
Qed.

(** Mapping over the second page of a mapping of two pages moves the mapping: its
    first page is in no mapping any more but stays translated, to the page that
    the moved mapping now uses. *)
Lemma as_map_inner_drops_page :
  wp (let! r := as_map (UserAs 500) 0 0 (2 * PAGE_SIZE) AS_MAP_WRITE in
      let! _ := as_map (UserAs 500) (r + PAGE_SIZE) 0 (2 * PAGE_SIZE) AS_MAP_WRITE in
      as_is_mapped (UserAs 500) r 1) sample (fun r s' =>
    r = 0 /\ walk (phys s') 8192 4194304 = Some 655360 /\
    walk (phys s') 8192 (4194304 + PAGE_SIZE) = Some 655360).
Proof. unfold wp. by vm_compute. Qed.
End AsSpec.
