(* ===== verification/Timer.v ===== *)
(** Timers and the tick counter: kernel/core/timer.c, kernel/core/time.c.

    The table [timers] has [TIMER_NUM] entries; [cpu_timers] is the klist of the
    running CPU, as indices into the table.  A callback is known by its address;
    what it does to the rest of the kernel, the state [W], is the parameter
    [run], and [update] stands for the scheduler_update that ends the
    interrupt.  None of them touches the timers, so the traversal, which reads
    the next node before its body runs, visits the list as it was at the start
    (Klist.v). *)

From S2P Require Import Prelude.

Module Timer.

Definition TIMER_NUM : Z := 255.
Definition TIMER_ONESHOT : Z := 0.
Definition TIMER_PERIODIC : Z := 1.
Definition MSEC_PER_SEC : Z := 1000.
Definition TICK_PER_SEC : Z := 1000.

(** TICK_PER_SEC <= MSEC_PER_SEC, so the first branch of each is compiled. *)
Definition ms_to_ticks (ms : Z) : Z := u32 (MSEC_PER_SEC * ms) / TICK_PER_SEC.
Definition ticks_to_ms (tick : Z) : Z := u32 (TICK_PER_SEC * tick) / MSEC_PER_SEC.

Record timer_entry := {
  free : bool;
  type : Z;
  value : Z;
  next : Z;
  callback : Z;
  data : Z;
}.

Definition set_free (b : bool) (e : timer_entry) : timer_entry :=
  {| free := b; type := type e; value := value e; next := next e;
     callback := callback e; data := data e |}.
Definition set_next (v : Z) (e : timer_entry) : timer_entry :=
  {| free := free e; type := type e; value := value e; next := v;
     callback := callback e; data := data e |}.

Section ops.
Context {W : Type} (run : Z -> Z -> W -> W) (update : W -> W).

Record state := {
  timer_lock : bool;
  timers : list timer_entry;
  cpu_timers : list nat;
  ticks : Z;
  world : W;
}.

Definition set_lock (b : bool) (s : state) : state :=
  {| timer_lock := b; timers := timers s; cpu_timers := cpu_timers s; ticks := ticks s; world := world s |}.
Definition set_timers (l : list timer_entry) (s : state) : state :=
  {| timer_lock := timer_lock s; timers := l; cpu_timers := cpu_timers s; ticks := ticks s; world := world s |}.
Definition set_cpu_timers (l : list nat) (s : state) : state :=
  {| timer_lock := timer_lock s; timers := timers s; cpu_timers := l; ticks := ticks s; world := world s |}.
Definition set_ticks (v : Z) (s : state) : state :=
  {| timer_lock := timer_lock s; timers := timers s; cpu_timers := cpu_timers s; ticks := v; world := world s |}.
Definition set_world (w : W) (s : state) : state :=
  {| timer_lock := timer_lock s; timers := timers s; cpu_timers := cpu_timers s; ticks := ticks s; world := w |}.

(** [glue_ret] is what the architecture's init returns. *)
Definition timer_initialize (glue_ret : Z) : M state unit :=
  if glue_ret <? 0 then kernel_panic "Failed to initialize timers"
  else modify (fun s => set_lock false (set_timers (set_free true <$> timers s) s)).

(** The body of the loop of [timer_handler] on entry [i]. *)
Definition timer_fire (i : nat) : M state unit :=
  let! s := get in
  match timers s !! i with
  | None => undef
  | Some timer =>
      if next timer =? ticks s then
        modify (set_world (run (callback timer) (data timer) (world s))) ;;;
        if negb (Z.land (type timer) TIMER_PERIODIC =? 0) then
          modify (set_timers (<[i := set_next (u32 (ticks s + value timer)) timer]> (timers s)))
        else
          modify (set_cpu_timers (filter (fun j => j <> i) (cpu_timers s))) ;;;
          modify (set_timers (<[i := set_free true timer]> (timers s)))
      else ret tt
  end.

Fixpoint timer_loop (l : list nat) : M state unit :=
  match l with
  | [] => ret tt
  | i :: l => timer_fire i ;;; timer_loop l
  end.

Definition timer_handler : M state unit :=
  modify (fun s => set_ticks (u32 (ticks s + 1)) s) ;;;
  let! s := get in
  timer_loop (cpu_timers s) ;;;
  modify (fun s => set_world (update (world s)) s).

(** The index of the first free entry, -1 if there is none. *)
Fixpoint timer_new_from (i : Z) (l : list timer_entry) : Z :=
  match l with
  | [] => -1
  | e :: l => if free e then i else timer_new_from (i + 1) l
  end.
Definition timer_new (s : state) : Z := timer_new_from 0 (timers s).

Definition timer_register (type time callback data : Z) : M state Z :=
  if negb (type =? TIMER_ONESHOT) && negb (type =? TIMER_PERIODIC) then ret (- EINVAL)
  else if callback =? 0 then ret (- EINVAL)
  else if time =? 0 then ret (- EINVAL)
  else
    spinlock_lock timer_lock set_lock ;;;
    let! s := get in
    let timer := timer_new s in
    if timer <? 0 then
      spinlock_unlock set_lock ;;;
      ret (-1)
    else
      let i := Z.to_nat timer in
      match timers s !! i with
      | None => undef
      | Some e =>
          modify (set_timers (<[i := set_free false e]> (timers s))) ;;;
          spinlock_unlock set_lock ;;;
          modify (fun s =>
            set_timers (<[i := {| free := false; type := type; value := time;
                                  next := u32 (ticks s + time);
                                  callback := callback; data := data |}]> (timers s)) s) ;;;
          modify (fun s => set_cpu_timers (i :: cpu_timers s) s) ;;;
          ret 1
      end.

End ops.
Arguments state : clear implicits.

(** ** What one tick does *)

Definition periodic (e : timer_entry) : bool := negb (Z.land (type e) TIMER_PERIODIC =? 0).

(** Entry [i] of the table expires at tick [tk]. *)
Definition due (tk : Z) (ts : list timer_entry) (i : nat) : bool :=
  match ts !! i with Some e => next e =? tk | None => false end.

(** Entry [i] expires at [tk] and is not periodic. *)
Definition spent (tk : Z) (ts : list timer_entry) (i : nat) : bool :=
  match ts !! i with Some e => (next e =? tk) && negb (periodic e) | None => false end.

(** A listed entry after tick [tk]. *)
Definition after_tick (tk : Z) (e : timer_entry) : timer_entry :=
  if next e =? tk
  then if periodic e then set_next (u32 (tk + value e)) e else set_free true e
  else e.

Section proofs.
Context {W : Type} (run : Z -> Z -> W -> W) (update : W -> W).
Implicit Types s : state W.

(** The callbacks of the entries [l], in order. *)
Definition calls (ts : list timer_entry) (l : list nat) (w : W) : W :=
  foldl (fun w i => match ts !! i with Some e => run (callback e) (data e) w | None => w end) w l.

Definition timer_inv s : Prop :=
  timer_lock s = false /\ Z.of_nat (length (timers s)) = TIMER_NUM /\
  NoDup (cpu_timers s) /\
  forall i, i ∈ cpu_timers s <-> exists e, timers s !! i = Some e /\ free e = false.

Lemma timer_fire_ok s i e :
  timers s !! i = Some e ->
  wp (timer_fire run i) s (fun _ s' =>
    timer_lock s' = timer_lock s /\ ticks s' = ticks s /\
    timers s' = <[i := after_tick (ticks s) e]> (timers s) /\
    cpu_timers s' = (if spent (ticks s) (timers s) i
                     then filter (fun j => j <> i) (cpu_timers s) else cpu_timers s) /\
    world s' = (if due (ticks s) (timers s) i
                then run (callback e) (data e) (world s) else world s)).
Proof.
  intros He. unfold timer_fire. step. step. rewrite He. unfold spent, due, after_tick.
  rewrite He. unfold periodic. destruct (next e =? ticks s) eqn:E; simpl.
  - step. step. destruct (negb (Z.land (type e) TIMER_PERIODIC =? 0)) eqn:P; simpl.
    + step. done.
    + step. step. step. done.
  - step. by rewrite list_insert_id.
Qed.

(** The loop over nodes [l], told with the table [ts] it started from. *)
Lemma timer_loop_ok ts l s :
  NoDup l -> (forall i, i ∈ l -> is_Some (ts !! i) /\ timers s !! i = ts !! i) ->
  wp (timer_loop run l) s (fun _ s' =>
    timer_lock s' = timer_lock s /\ ticks s' = ticks s /\
    length (timers s') = length (timers s) /\
    (forall i, timers s' !! i = if decide (i ∈ l) then after_tick (ticks s) <$> ts !! i
                                else timers s !! i) /\
    cpu_timers s' = filter (fun j => ~ (j ∈ l /\ spent (ticks s) ts j)) (cpu_timers s) /\
    world s' = calls ts (filter (fun i => due (ticks s) ts i) l) (world s)).
Proof.
  revert s. induction l as [|i l IH]; intros s Hnd Hl.
  { step. split_and!; try done.
    symmetry. apply filter_all. by intros j _ [[]%not_elem_of_nil _]. }
  apply NoDup_cons in Hnd as [Hi Hnd]. destruct (Hl i) as [[e He] Hie]; [set_solver|].
  assert (timers s !! i = Some e) as Hse by congruence.
  simpl. step. eapply wp_mono; [by apply timer_fire_ok|].
  intros _ s1 (Hlk & Htk & Hts & Hct & Hw). eapply wp_mono; [apply IH; [done|]|].
  { intros j Hj. destruct (Hl j) as [? ?]; [set_solver|]. split; [done|].
    rewrite Hts, list_lookup_insert_ne; [done|]. by intros ->. }
  intros _ s2 (Hlk2 & Htk2 & Hlen2 & Hts2 & Hct2 & Hw2). rewrite Htk in *.
  assert (spent (ticks s) (timers s) i = spent (ticks s) ts i) as Hsp by (unfold spent; by rewrite Hie).
  assert (due (ticks s) (timers s) i = due (ticks s) ts i) as Hdu by (unfold due; by rewrite Hie).
  split_and!; try congruence.
  - rewrite Hlen2, Hts. apply length_insert.
  - intros j. rewrite Hts2, Hts. destruct (decide (j = i)) as [->|Hne].
    + rewrite decide_False by done. rewrite decide_True by set_solver.
      rewrite list_lookup_insert_eq by (by eapply lookup_lt_Some). by rewrite He.
    + rewrite list_lookup_insert_ne by done.
      destruct (decide (j ∈ l)); [rewrite decide_True by set_solver|rewrite decide_False by set_solver]; done.
  - rewrite Hct2, Hct, Hsp. destruct (spent (ticks s) ts i) eqn:E.
    + rewrite list_filter_filter. apply list_filter_iff. intros j.
      destruct (decide (j = i)) as [->|]; [rewrite E; set_solver|set_solver].
    + apply list_filter_iff. intros j. destruct (decide (j = i)) as [->|]; [rewrite E; set_solver|set_solver].
  - rewrite Hw2, Hw, Hdu, filter_cons. destruct (due (ticks s) ts i) eqn:E.
    + rewrite decide_True by done. unfold calls. simpl. by rewrite He.
    + by rewrite decide_False by auto.
Qed.

Lemma after_tick_free tk e :
  free e = false -> free (after_tick tk e) = (next e =? tk) && negb (periodic e).
Proof.
  intros Hf. unfold after_tick. destruct (next e =? tk); [|done]. by destruct (periodic e).
Qed.

Lemma timer_handler_ok s :
  timer_inv s ->
  wp (timer_handler run update) s (fun _ s' =>
    let tk := u32 (ticks s + 1) in
    timer_inv s' /\ ticks s' = tk /\
    cpu_timers s' = filter (fun j => ~ spent tk (timers s) j) (cpu_timers s) /\
    (forall i, timers s' !! i = if decide (i ∈ cpu_timers s)
                                then after_tick tk <$> timers s !! i else timers s !! i) /\
    world s' = update (calls (timers s) (filter (fun i => due tk (timers s) i) (cpu_timers s)) (world s))).
Proof.
  intros (Hlk & Hlen & Hnd & Hin). unfold timer_handler. step. step. step. step. step.
  eapply wp_mono; [apply (timer_loop_ok (timers s)); [done|]|].
  { intros i Hi. simpl. apply Hin in Hi as (e & -> & _). eauto. }
  intros _ s' (Hlk' & Htk' & Hlen' & Hts & Hct & Hw). simpl in *. step. simpl.
  assert (cpu_timers s' = filter (fun j => ~ spent (u32 (ticks s + 1)) (timers s) j) (cpu_timers s)) as Hct'.
  { rewrite Hct. apply filter_ext_elem. tauto. }
  split_and!; try done; [|by rewrite Hw].
  split_and!; simpl; try congruence.
  - rewrite Hct'. by apply NoDup_filter.
  - intros i. rewrite Hct', list_elem_of_filter, Hts.
    destruct (decide (i ∈ cpu_timers s)) as [Hi|Hi].
    + pose proof Hi as (e & He & Hf)%Hin. unfold spent. rewrite He. simpl. split.
      * intros [Hsp _]. eexists. split; [done|]. rewrite after_tick_free by done.
        by destruct ((next e =? _) && _).
      * intros (e' & ? & Hf'). simplify_eq. rewrite after_tick_free in Hf' by done.
        rewrite Hf'. split; [tauto|done].
    + split; [tauto|]. rewrite <-Hin. tauto.
Qed.

Lemma timer_new_from_spec n l :
  0 <= n ->
  (timer_new_from n l = -1 /\ Forall (fun e => free e = false) l) \/
  (exists i e, timer_new_from n l = n + Z.of_nat i /\ l !! i = Some e /\ free e = true).
Proof.
  revert n. induction l as [|e l IH]; intros n Hn; simpl; [by left|].
  destruct (free e) eqn:E.
  - right. exists 0%nat, e. split_and!; [lia|done..].
  - destruct (IH (n + 1)) as [[-> ?]|(i & e' & -> & ? & ?)]; [lia| |].
    + left. split; [done|by constructor].
    + right. exists (S i), e'. split_and!; [lia|done..].
Qed.

Definition new_entry (type time tk cb d : Z) : timer_entry :=
  {| free := false; type := type; value := time; next := u32 (tk + time);
     callback := cb; data := d |}.

(** A registration with valid arguments. *)
Lemma timer_register_ok s type time cb d :
  timer_inv s -> type = TIMER_ONESHOT \/ type = TIMER_PERIODIC -> cb <> 0 -> time <> 0 ->
  wp (timer_register type time cb d) s (fun r s' => timer_inv s' /\ ticks s' = ticks s /\
    ((r = -1 /\ s' = s /\ Forall (fun e => free e = false) (timers s)) \/
     (r = 1 /\ exists i, cpu_timers s' = i :: cpu_timers s /\ world s' = world s /\
        timers s' = <[i := new_entry type time (ticks s) cb d]> (timers s) /\
        exists e, timers s !! i = Some e /\ free e = true))).
Proof.
  intros Hinv Hty Hcb Htime. pose proof Hinv as (Hlk & Hlen & Hnd & Hin).
  unfold timer_register.
  replace (negb (type =? TIMER_ONESHOT) && negb (type =? TIMER_PERIODIC)) with false
    by (destruct Hty as [-> | ->]; done).
  rewrite (proj2 (Z.eqb_neq cb 0)), (proj2 (Z.eqb_neq time 0)) by done.
  step. apply wp_lock; [done|]. step. step. unfold timer_new. simpl.
  destruct (timer_new_from_spec 0 (timers s)) as [[-> Hall]|(i & e & -> & He & Hf)]; [lia| |].
  - simpl. step. step. step. replace (set_lock false (set_lock true s)) with s by (destruct s; simpl in *; by subst).
    split_and!; try done. by left.
  - rewrite Z.add_0_l. rewrite (proj2 (Z.ltb_ge _ 0)) by lia. rewrite Nat2Z.id, He.
    step. step. step. step. step. step. step. step. step. simpl.
    rewrite list_insert_insert_eq.
    assert (i ∉ cpu_timers s) as Hni. { intros (e' & ? & ?)%Hin. congruence. }
    assert (i < length (timers s))%nat as Hlt by by eapply lookup_lt_Some.
    split_and!; try done.
    + split_and!; simpl; try done.
      * by rewrite length_insert.
      * by constructor.
      * intros j. rewrite elem_of_cons, Hin. destruct (decide (j = i)) as [->|Hne].
        -- rewrite list_lookup_insert_eq by done. split; [|by left]. intros _. by eexists.
        -- rewrite list_lookup_insert_ne by done. intuition.
    + right. split; [done|]. exists i. split_and!; try done. by exists e.
Qed.

(** ** Timers over several ticks *)

Fixpoint tick_n (n : nat) : M (state W) unit :=
  match n with
  | O => ret tt
  | S n => timer_handler run update ;;; tick_n n
  end.

(** Entry [e] is listed at [i] and expires at the [k]-th tick from now. *)
Definition armed s (i : nat) (e : timer_entry) (k : Z) : Prop :=
  timers s !! i = Some e /\ i ∈ cpu_timers s /\ next e = u32 (ticks s + k).

Lemma armed_due s i e k :
  armed s i e k -> 0 < k < 2 ^ 32 -> due (u32 (ticks s + 1)) (timers s) i = (k =? 1).
Proof.
  intros (He & _ & Hn) Hk. unfold due. rewrite He, Hn.
  destruct (Z.eqb_spec k 1) as [->|Hne]; [apply Z.eqb_refl|].
  apply Z.eqb_neq. unfold u32. intros Heq.
  assert ((ticks s + k - (ticks s + 1)) mod 2 ^ 32 = 0) as Hm.
  { rewrite Zminus_mod, Heq, Z.sub_diag. done. }
  rewrite Z.mod_small in Hm; lia.
Qed.

Lemma u32_add_l a b : u32 (u32 a + b) = u32 (a + b).
Proof. unfold u32. by rewrite Zplus_mod_idemp_l. Qed.

Lemma tick_waits s i e k :
  timer_inv s -> armed s i e k -> 1 < k < 2 ^ 32 ->
  wp (timer_handler run update) s (fun _ s' => timer_inv s' /\ armed s' i e (k - 1)).
Proof.
  intros Hinv Ha Hk. pose proof (armed_due s i e k Ha ltac:(lia)) as Hd.
  destruct Ha as (He & Hi & Hn). unfold due in Hd. rewrite He in Hd.
  rewrite (proj2 (Z.eqb_neq k 1)) in Hd by lia.
  eapply wp_mono; [by apply timer_handler_ok|]. intros _ s' (Hinv' & Htk & Hct & Hts & _).
  split; [done|]. split_and!.
  - rewrite Hts, decide_True, He by done. simpl. unfold after_tick. by rewrite Hd.
  - rewrite Hct. apply list_elem_of_filter. split; [|done]. unfold spent. rewrite He, Hd. simpl. tauto.
  - rewrite Hn, Htk, u32_add_l. f_equal. lia.
Qed.

Lemma tick_n_waits s i e k n :
  timer_inv s -> armed s i e k -> Z.of_nat n < k < 2 ^ 32 ->
  wp (tick_n n) s (fun _ s' => timer_inv s' /\ armed s' i e (k - Z.of_nat n)).
Proof.
  revert s k. induction n as [|n IH]; intros s k Hinv Ha Hk.
  { step. by rewrite Z.sub_0_r. }
  simpl tick_n. step. eapply wp_mono; [apply (tick_waits s i e k); [done..|lia]|].
  intros _ s1 [Hinv1 Ha1]. eapply wp_mono; [apply (IH s1 (k - 1)); [done..|lia]|].
  intros _ s2 [Hinv2 Ha2]. split; [done|]. replace (k - Z.of_nat (S n)) with (k - 1 - Z.of_nat n) by lia. done.
Qed.

Lemma tick_fires s i e :
  timer_inv s -> armed s i e 1 ->
  wp (timer_handler run update) s (fun _ s' => timer_inv s' /\
    if periodic e then armed s' i (set_next (u32 (ticks s' + value e)) e) (value e)
    else (i ∉ cpu_timers s') /\ timers s' !! i = Some (set_free true e)).
Proof.
  intros Hinv Ha. pose proof (armed_due s i e 1 Ha ltac:(lia)) as Hd.
  destruct Ha as (He & Hi & Hn). unfold due in Hd. rewrite He in Hd. simpl in Hd.
  eapply wp_mono; [by apply timer_handler_ok|]. intros _ s' (Hinv' & Htk & Hct & Hts & _).
  split; [done|]. specialize (Hts i). rewrite decide_True, He in Hts by done. simpl in Hts.
  unfold after_tick in Hts. rewrite Hd in Hts. destruct (periodic e) eqn:P.
  - rewrite Htk. split_and!; [done| |by rewrite Htk].
    rewrite Hct. apply list_elem_of_filter. split; [|done]. unfold spent. rewrite He, Hd, P. simpl. tauto.
  - split; [|done]. rewrite Hct, list_elem_of_filter. unfold spent. rewrite He, Hd, P. simpl. tauto.
Qed.

(** What one tick calls: the callbacks of a list of timers that are listed and due, with
    an armed one in it when its time has come. *)
Lemma tick_calls s i e k :
  timer_inv s -> armed s i e k -> 0 < k < 2 ^ 32 ->
  wp (timer_handler run update) s (fun _ s' =>
    exists l, NoDup l /\ (i ∈ l <-> k = 1) /\
      (forall j, j ∈ l -> j ∈ cpu_timers s /\ due (ticks s') (timers s) j = true) /\
      world s' = update (calls (timers s) l (world s))).
Proof.
  intros Hinv Ha Hk. pose proof (armed_due s i e k Ha Hk) as Hd. destruct Ha as (_ & Hi & _).
  pose proof Hinv as (_ & _ & Hnd & _).
  eapply wp_mono; [by apply timer_handler_ok|]. intros _ s' (_ & Htk & _ & _ & Hw).
  eexists. split_and!; [| | |exact Hw].
  - by apply NoDup_filter.
  - rewrite list_elem_of_filter, Hd. destruct (Z.eqb_spec k 1); simpl; [by split|]. split; [by intros [[] _]|done].
  - intros j [Hj Hin]%list_elem_of_filter. split; [done|]. rewrite Htk. by apply Is_true_true.
Qed.

(** ** Properties *)

(** One timer interrupt advances the tick counter by one modulo 2^32, calls
    exactly the callbacks of the listed timers whose deadline is the new tick, in
    list order, frees and unlists the one-shot ones, re-arms the periodic ones
    and leaves every other timer alone; the table and the list stay
    consistent. *)
Theorem timer_handler_fires s :
  timer_inv s ->
  wp (timer_handler run update) s (fun _ s' =>
    let tk := u32 (ticks s + 1) in
    timer_inv s' /\ ticks s' = tk /\
    cpu_timers s' = filter (fun j => ~ spent tk (timers s) j) (cpu_timers s) /\
    (forall i, timers s' !! i = if decide (i ∈ cpu_timers s)
                                then after_tick tk <$> timers s !! i else timers s !! i) /\
    world s' = update (calls (timers s) (filter (fun i => due tk (timers s) i) (cpu_timers s)) (world s))).
Proof. apply timer_handler_ok. Qed.

(** C11: a timer registered for [time] ticks has its callback called at the [time]-th
    tick and not before, whatever the value of the counter, wrap-around included.  [n]
    ticks after the registration its entry is listed with the callback and its argument;
    the next tick then runs the callbacks of a list of timers, all listed and due, that
    has this timer in it, once, exactly when [n + 1 = time].  At that tick a one-shot timer
    is freed and a periodic one is armed for [time] ticks again.  The registration returns
    1 (the header documents 0), or -1, changing nothing, only when the table is
    full. *)
Theorem timer_expires_on_time s type time cb d :
  timer_inv s -> type = TIMER_ONESHOT \/ type = TIMER_PERIODIC -> cb <> 0 ->
  0 < time < 2 ^ 32 ->
  wp (timer_register type time cb d) s (fun r s1 =>
    (r = -1 /\ s1 = s /\ Forall (fun e => free e = false) (timers s)) \/
    (r = 1 /\ exists i, forall n, Z.of_nat n < time ->
       wp (tick_n n) s1 (fun _ s2 =>
         timers s2 !! i = Some (new_entry type time (ticks s) cb d) /\ i ∈ cpu_timers s2 /\
         wp (timer_handler run update) s2 (fun _ s3 =>
           (exists l, NoDup l /\ (i ∈ l <-> Z.of_nat n + 1 = time) /\
              (forall j, j ∈ l -> j ∈ cpu_timers s2 /\ due (ticks s3) (timers s2) j = true) /\
              world s3 = update (calls (timers s2) l (world s2))) /\
           (Z.of_nat n + 1 = time ->
            if type =? TIMER_PERIODIC then exists e, armed s3 i e time /\ callback e = cb /\ data e = d
            else (i ∉ cpu_timers s3) /\ exists e, timers s3 !! i = Some e /\ free e = true))))).
Proof.
  intros Hinv Hty Hcb Htime.
  eapply wp_mono; [apply timer_register_ok; [done..|lia]|].
  intros r s1 (Hinv1 & Htk & [?|(-> & i & Hct & _ & Hts & e & He & Hf)]); [by left|].
  right. split; [done|]. exists i. intros n Hn.
  assert (armed s1 i (new_entry type time (ticks s) cb d) time) as Ha.
  { split_and!; [|rewrite Hct; set_solver|by rewrite Htk].
    rewrite Hts, list_lookup_insert_eq; [done|]. by eapply lookup_lt_Some. }
  eapply wp_mono; [apply (tick_n_waits s1 i (new_entry type time (ticks s) cb d) time n); [done..|lia]|].
  intros _ s2 [Hinv2 Ha2]. pose proof Ha2 as (He2 & Hi2 & _). split_and!; [done..|].
  eapply wp_mono; [apply wp_and; [eapply (tick_calls s2 i _ (time - Z.of_nat n)); [done..|lia]|]|].
  { instantiate (1 := fun _ s3 => Z.of_nat n + 1 = time -> _). simpl.
    destruct (decide (Z.of_nat n + 1 = time)) as [Heq|Hne].
    - replace (time - Z.of_nat n) with 1 in Ha2 by lia.
      eapply wp_mono; [by eapply tick_fires|]. intros _ s3 [_ H3] _. exact H3.
    - eapply wp_mono; [by apply timer_handler_ok|]. done. }
  intros _ s3 [(l & Hnd & Hl & Hd & Hw) H3]. split.
  - exists l. split_and!; try done. rewrite Hl. lia.
  - intros Heq. specialize (H3 Heq). unfold periodic in H3. simpl in H3.
    destruct Hty as [-> | ->]; simpl in H3 |- *.
    + destruct H3 as [? ?]. split; [done|]. by eexists.
    + eexists. split; [exact H3|done].
Qed.
End proofs.

(** Converting milliseconds to ticks is the identity up to 4294967 ms and
    wraps beyond it: the product by MSEC_PER_SEC is taken modulo 2^32, so a sleep
    of 4294968 ms (about 72 minutes) lasts 0 ticks. *)
Theorem ms_to_ticks_wraps :
  (forall ms, 0 <= ms <= 4294967 -> ms_to_ticks ms = ms /\ ticks_to_ms ms = ms) /\
  ms_to_ticks 4294968 = 0.
Proof.
  split; [|done]. intros ms Hms. unfold ms_to_ticks, ticks_to_ms, MSEC_PER_SEC, TICK_PER_SEC.
  rewrite u32_small by lia. rewrite Z.mul_comm, Z.div_mul; lia.
Qed.

(** ** An instance: two timers, the log of the calls as the world *)

Definition blank : timer_entry :=
  {| free := true; type := 0; value := 0; next := 0; callback := 0; data := 0 |}.

Definition log_call (cb d : Z) (w : list (Z * Z)) : list (Z * Z) := w ++ [(cb, d)].

Definition sample_timers : state (list (Z * Z)) := {|
  timer_lock := false;
  timers := new_entry TIMER_PERIODIC 3 7 500 1 :: replicate 254 blank;
  cpu_timers := [0%nat];
  ticks := 9;
  world := [] |}.

Lemma sample_timers_inv : timer_inv sample_timers.
Proof.
  split_and!; try done.
  - apply NoDup_singleton.
  - intros i. change (cpu_timers sample_timers) with [0%nat].
    change (timers sample_timers) with (new_entry TIMER_PERIODIC 3 7 500 1 :: replicate 254 blank).
    rewrite list_elem_of_singleton. split.
    + intros ->. by eexists.
    + intros (e & He & Hf). destruct i as [|i]; [done|]. rewrite lookup_cons in He.
      apply lookup_replicate in He as [-> _]. done.
Qed.

Lemma timer_handler_fires_witness :
  wp (timer_handler log_call id) sample_timers (fun _ s' =>
    let tk := u32 (ticks sample_timers + 1) in
    timer_inv s' /\ ticks s' = tk /\
    cpu_timers s' = filter (fun j => ~ spent tk (timers sample_timers) j) (cpu_timers sample_timers) /\
    (forall i, timers s' !! i = if decide (i ∈ cpu_timers sample_timers)
                                then after_tick tk <$> timers sample_timers !! i
                                else timers sample_timers !! i) /\
    world s' = id (calls log_call (timers sample_timers)
                     (filter (fun i => due tk (timers sample_timers) i) (cpu_timers sample_timers)) [])).
Proof. apply (timer_handler_fires log_call id sample_timers), sample_timers_inv. Defined.

Lemma timer_expires_on_time_witness :
  wp (timer_register TIMER_ONESHOT 5 600 2) sample_timers (fun r s1 =>
    (r = -1 /\ s1 = sample_timers /\ Forall (fun e => free e = false) (timers sample_timers)) \/
    (r = 1 /\ exists i, forall n, Z.of_nat n < 5 ->
       wp (tick_n log_call id n) s1 (fun _ s2 =>
         timers s2 !! i = Some (new_entry TIMER_ONESHOT 5 9 600 2) /\ i ∈ cpu_timers s2 /\
         wp (timer_handler log_call id) s2 (fun _ s3 =>
           (exists l, NoDup l /\ (i ∈ l <-> Z.of_nat n + 1 = 5) /\
              (forall j, j ∈ l -> j ∈ cpu_timers s2 /\ due (ticks s3) (timers s2) j = true) /\
              world s3 = id (calls log_call (timers s2) l (world s2))) /\
           (Z.of_nat n + 1 = 5 ->
            if TIMER_ONESHOT =? TIMER_PERIODIC then exists e, armed s3 i e 5 /\ callback e = 600 /\ data e = 2
            else (i ∉ cpu_timers s3) /\ exists e, timers s3 !! i = Some e /\ free e = true))))).
Proof.
  apply (timer_expires_on_time log_call id sample_timers TIMER_ONESHOT 5 600 2);
    [apply sample_timers_inv|by left|lia|lia].
Defined.

End Timer.
