(* ===== verification/Scheduler.v ===== *)
(** The scheduler: kernel/core/scheduler/scheduler.c and event.c, cpu_add_thread
    (kernel/core/cpu.c), thread_block and thread_unblock
    (kernel/core/proc/thread.c).

    A thread is known by the address of its [struct thread]; address 0 is NULL
    and, in a klist of threads, the head of the list.  [CPU_COUNT] is 1, so there
    is one scheduler.  [queue] is the klist [threads] of the scheduler and
    [waiting] the lists of threads blocked on each event.  Linking a node that is
    already linked breaks a klist: it is [Undef] here.

    The context switch of the architecture (kernel/arch/i386/scheduler.c) does not
    return to its caller: it releases the scheduler lock and goes on in the new
    thread.  An operation that may end so gives [Some t], control is now in thread
    [t], or [None], it returned.

    thread_destroy reaches back into the scheduler through the events it sends.
    What the scheduler needs of it is the class [Reaper]; [W] is the rest of the
    kernel, which thread_destroy also works on. *)

From S2P Require Import Prelude.

Module Scheduler.

Definition SCHEDULER_TIME : Z := 10.
Definition THREAD_STATE_RUNNING : Z := 1.
Definition THREAD_STATE_BLOCKED : Z := 2.
Definition THREAD_STATE_ZOMBIE : Z := 3.
Definition SCHED_EV_TIMER : Z := 1.
Definition SCHED_EV_PEXIT : Z := 5.
Definition SCHED_EV_PEXIT_PARENT : Z := 6.
Definition SCHED_EV_SIZE : nat := 6.

Record thread := {
  state : Z;
  event : Z;
  data : Z;
}.

#[export] Instance thread_eq_dec : EqDecision thread.
Proof. solve_decision. Defined.

Definition set_state (v : Z) (t : thread) : thread :=
  {| state := v; event := event t; data := data t |}.
Definition set_event (e d : Z) (t : thread) : thread :=
  {| state := state t; event := e; data := d |}.

Section state.
Context {W : Type}.

Record sched := {
  time : Z;
  running : Z;
  idle : Z;
  thread_num : Z;
  sched_lock : bool;
  queue : list Z;
  event_lock : bool;
  waiting : list (list Z);
  threads : gmap Z thread;
  world : W;
}.

Definition set_time (v : Z) (s : sched) : sched :=
  {| time := v; running := running s; idle := idle s; thread_num := thread_num s;
     sched_lock := sched_lock s; queue := queue s; event_lock := event_lock s;
     waiting := waiting s; threads := threads s; world := world s |}.
Definition set_running (v : Z) (s : sched) : sched :=
  {| time := time s; running := v; idle := idle s; thread_num := thread_num s;
     sched_lock := sched_lock s; queue := queue s; event_lock := event_lock s;
     waiting := waiting s; threads := threads s; world := world s |}.
Definition set_thread_num (v : Z) (s : sched) : sched :=
  {| time := time s; running := running s; idle := idle s; thread_num := v;
     sched_lock := sched_lock s; queue := queue s; event_lock := event_lock s;
     waiting := waiting s; threads := threads s; world := world s |}.
Definition set_lock (b : bool) (s : sched) : sched :=
  {| time := time s; running := running s; idle := idle s; thread_num := thread_num s;
     sched_lock := b; queue := queue s; event_lock := event_lock s;
     waiting := waiting s; threads := threads s; world := world s |}.
Definition set_queue (q : list Z) (s : sched) : sched :=
  {| time := time s; running := running s; idle := idle s; thread_num := thread_num s;
     sched_lock := sched_lock s; queue := q; event_lock := event_lock s;
     waiting := waiting s; threads := threads s; world := world s |}.
Definition set_event_lock (b : bool) (s : sched) : sched :=
  {| time := time s; running := running s; idle := idle s; thread_num := thread_num s;
     sched_lock := sched_lock s; queue := queue s; event_lock := b;
     waiting := waiting s; threads := threads s; world := world s |}.
Definition set_waiting (l : list (list Z)) (s : sched) : sched :=
  {| time := time s; running := running s; idle := idle s; thread_num := thread_num s;
     sched_lock := sched_lock s; queue := queue s; event_lock := event_lock s;
     waiting := l; threads := threads s; world := world s |}.
Definition set_threads (m : gmap Z thread) (s : sched) : sched :=
  {| time := time s; running := running s; idle := idle s; thread_num := thread_num s;
     sched_lock := sched_lock s; queue := queue s; event_lock := event_lock s;
     waiting := waiting s; threads := m; world := world s |}.

(** [t->...]: dereference of a thread pointer. *)
Definition deref (t : Z) : M sched thread := fun s =>
  match threads s !! t with Some th => Done (th, s) | None => Undef end.
Definition update_thread (f : thread -> thread) (t : Z) : M sched unit := fun s =>
  match threads s !! t with
  | Some th => Done (tt, set_threads (<[t := f th]> (threads s)) s)
  | None => Undef
  end.

(** [klist_add_back] and [klist_del] on the scheduler's list.  [klist_del] of a
    node that is not linked has no effect: its pointers are NULL. *)
Definition queue_add_back (t : Z) : M sched unit := fun s =>
  if decide (t ∈ queue s) then Undef else Done (tt, set_queue (queue s ++ [t]) s).
Definition queue_del (t : Z) : M sched unit :=
  modify (fun s => set_queue (filter (fun x => x <> t) (queue s)) s).

(** ** scheduler.c *)

Definition scheduler_event_initialize : M sched unit :=
  modify (fun s => set_waiting (replicate SCHED_EV_SIZE []) (set_event_lock false s)).

Definition scheduler_initialize : M sched unit :=
  modify (set_time 0) ;;;
  modify (set_running 0) ;;;
  modify (set_thread_num 0) ;;;
  modify (set_lock false) ;;;
  modify (set_queue []) ;;;
  scheduler_event_initialize.

Definition scheduler_add_thread (t : Z) : M sched unit :=
  spinlock_lock sched_lock set_lock ;;;
  modify (fun s => set_thread_num (u32 (thread_num s + 1)) s) ;;;
  queue_add_back t ;;;
  let! s := get in
  (if negb (running s =? 0) && (running s =? idle s) then modify (set_time 1) else ret tt) ;;;
  spinlock_unlock set_lock.

(** With one CPU, [thread->cpu] is 0. *)
Definition cpu_add_thread (t : Z) : M sched unit := scheduler_add_thread t.

Definition thread_unblock (t : Z) : M sched unit :=
  update_thread (set_state THREAD_STATE_RUNNING) t ;;;
  cpu_add_thread t.

(** ** event.c *)

(** The loop of [scheduler_event_notify]: the threads of [l] that wait for this
    event and data are unblocked; the result is the list left. *)
Fixpoint notify_loop (ev d : Z) (l : list Z) : M sched (list Z) :=
  match l with
  | [] => ret []
  | t :: l =>
      let! th := deref t in
      if (event th =? ev) && (data th =? d) then
        thread_unblock t ;;;
        notify_loop ev d l
      else
        let! l' := notify_loop ev d l in
        ret (t :: l')
  end.

Definition scheduler_event_notify (ev d : Z) : M sched unit :=
  spinlock_lock event_lock set_event_lock ;;;
  let! s := get in
  match (if ev <=? 0 then None else waiting s !! Z.to_nat (ev - 1)) with
  | None => undef
  | Some ev_list =>
      let! remaining := notify_loop ev d ev_list in
      modify (fun s => set_waiting (<[Z.to_nat (ev - 1) := remaining]> (waiting s)) s) ;;;
      spinlock_unlock set_event_lock
  end.

Definition scheduler_event_wait (ev t : Z) : M sched unit :=
  spinlock_lock event_lock set_event_lock ;;;
  let! s := get in
  match (if ev <=? 0 then None else waiting s !! Z.to_nat (ev - 1)) with
  | None => undef
  | Some ev_list =>
      (if decide (t ∈ ev_list) then undef
       else modify (set_waiting (<[Z.to_nat (ev - 1) := t :: ev_list]> (waiting s)))) ;;;
      spinlock_unlock set_event_lock
  end.

(** [scheduler_elect]: the first thread of the queue, moved to its end; when a
    change of thread is forced and it is the running one, the next.  [fuel] bounds
    the recursion. *)
Fixpoint scheduler_elect (fuel : nat) (force : bool) : M sched Z :=
  match fuel with
  | O => undef
  | S fuel =>
      let! s := get in
      match queue s with
      | [] => ret (idle s)
      | t :: rest =>
          modify (set_queue rest) ;;;
          if force && (running s =? t) then
            queue_add_back t ;;;
            if Z.of_nat (length rest) =? 0 then ret (idle s)
            else scheduler_elect fuel force
          else
            queue_add_back t ;;;
            ret t
      end
  end.

(** [sswitch] saves the state of the old thread, releases the lock and does not
    come back. *)
Definition scheduler_switch (new_thread : Z) : M sched (option Z) :=
  modify (set_running new_thread) ;;;
  modify (set_time SCHEDULER_TIME) ;;;
  spinlock_unlock set_lock ;;;
  ret (Some new_thread).

(** The node after [x] in [q], 0 being the head of the list; [None] when [x] is
    not linked. *)
Definition next_of (q : list Z) (x : Z) : option Z :=
  if x =? 0 then Some (hd 0 q)
  else match list_break (fun y => y =? x) q with
       | Some (_, _, r) => Some (hd 0 r)
       | None => None
       end.

(** ** Well-formed queues *)

Definition queue_wf (s : sched) : Prop :=
  NoDup (queue s) /\ (0 ∉ queue s) /\ (idle s ∉ queue s) /\
  forall t, t ∈ queue s -> is_Some (threads s !! t).

Definition has_state (v : Z) (s : sched) (t : Z) : Prop :=
  exists th, threads s !! t = Some th /\ state th = v.

(** How many threads are blocked. *)
Definition nblocked (s : sched) : nat :=
  size (filter (fun '(_, th) => state th = THREAD_STATE_BLOCKED) (threads s)).

End state.
Arguments sched : clear implicits.

(** thread_destroy, which belongs to another component. *)
Class ReaperOp (W : Type) := { thread_destroy : Z -> M (sched W) unit }.

(** What the scheduler relies on when it has thread_destroy called on a zombie
    thread it has unlinked, with its lock released: the call may unblock threads,
    which are appended to the queue, leaves the queued threads alone and makes the
    zombie one disappear.
    [reap_ok] is the invariant of the kernel it needs; what the scheduler itself
    does, unlinking and electing threads, keeps it. *)
Class Reaper (W : Type) `{ReaperOp W} := {
  reap_ok : sched W -> Prop;
  reap_ok_frame : forall s s',
    reap_ok s -> world s' = world s -> threads s' = threads s -> waiting s' = waiting s -> idle s' = idle s ->
    (forall x, x ∈ queue s' -> x ∈ queue s) ->
    (forall x, has_state THREAD_STATE_RUNNING s x -> x ∈ queue s -> x ∈ queue s') -> reap_ok s';
  thread_destroy_spec : forall s t,
    reap_ok s ->
    sched_lock s = false -> event_lock s = false -> queue_wf s -> (t ∉ queue s) ->
    has_state THREAD_STATE_ZOMBIE s t ->
    wp (thread_destroy t) s (fun _ s' => exists new,
      reap_ok s' /\
      sched_lock s' = false /\ event_lock s' = false /\
      running s' = running s /\ idle s' = idle s /\
      queue s' = queue s ++ new /\ queue_wf s' /\
      (forall x, x ∈ queue s -> threads s' !! x = threads s !! x) /\
      (forall x, is_Some (threads s' !! x) -> x <> t /\ is_Some (threads s !! x)) /\
      Forall (has_state THREAD_STATE_RUNNING s') new /\
      (nblocked s' + length new <= nblocked s)%nat);
}.

Section update.
Context {W : Type} `{ReaperOp W}.

(** The body of the cleaning loop of [scheduler_update]. *)
Definition clean_body (t : Z) : M (sched W) unit :=
  let! th := deref t in
  if state th =? THREAD_STATE_BLOCKED then queue_del t
  else if state th =? THREAD_STATE_ZOMBIE then
    let! s := get in
    if running s =? t then ret tt
    else
      queue_del t ;;;
      spinlock_unlock set_lock ;;;
      thread_destroy t ;;;
      spinlock_lock sched_lock set_lock
  else ret tt.

Fixpoint clean_loop (fuel : nat) (name nxt : Z) : M (sched W) unit :=
  match fuel with
  | O => undef
  | S fuel =>
      if name =? 0 then ret tt
      else
        clean_body name ;;;
        let! s := get in
        match next_of (queue s) nxt with
        | None => undef
        | Some n => clean_loop fuel nxt n
        end
  end.

Definition clean (fuel : nat) : M (sched W) unit :=
  let! s := get in
  let name := hd 0 (queue s) in
  match next_of (queue s) name with
  | None => undef
  | Some n => clean_loop fuel name n
  end.

(** [regs_null]: the function was not called from an interrupt.  [time] is a
    [size_t], so [time <= 0] is [time == 0], and the state of the running thread
    is read only when the first test fails. *)
Definition scheduler_update (fuel : nat) (regs_null force : bool) : M (sched W) (option Z) :=
  spinlock_lock sched_lock set_lock ;;;
  modify (fun s => set_time (u32 (time s - 1)) s) ;;;
  let! s := get in
  let! resched :=
    (if time s =? 0 then ret true
     else let! th := deref (running s) in
          ret (negb (state th =? THREAD_STATE_RUNNING) || regs_null || force ||
               ((running s =? idle s) && negb (bool_decide (queue s = []))))) in
  if resched then
    clean fuel ;;;
    let! t := scheduler_elect 2 force in
    let! s := get in
    if negb (t =? running s) then scheduler_switch t
    else
      modify (set_time SCHEDULER_TIME) ;;;
      spinlock_unlock set_lock ;;;
      ret None
  else
    spinlock_unlock set_lock ;;;
    ret None.

Definition scheduler_start (fuel : nat) : M (sched W) (option Z) :=
  modify (set_time 1) ;;;
  scheduler_update fuel true false.

(** [int $0x20] raises the timer interrupt, whose handler ends in
    [scheduler_update] with the interrupt's registers. *)
Definition scheduler_remove_thread (fuel : nat) (t : Z) : M (sched W) (option Z) :=
  let! th := deref t in
  if state th =? THREAD_STATE_RUNNING then
    spinlock_unlock set_lock ;;;
    ret None
  else
    let! s := get in
    if t =? running s then
      modify (fun s => set_thread_num (u32 (thread_num s - 1)) s) ;;;
      spinlock_unlock set_lock ;;;
      let! r := deref (running s) in
      if negb (state r =? THREAD_STATE_ZOMBIE) then scheduler_update fuel false false
      else
        modify (set_running 0) ;;;
        modify (set_time 1) ;;;
        scheduler_update fuel true true
    else
      modify (fun s => set_thread_num (u32 (thread_num s - 1)) s) ;;;
      queue_del t ;;;
      spinlock_unlock set_lock ;;;
      ret None.

(** The part of [thread_block] before the scheduler lock is taken; the spinlock
    the caller may pass is released between the two. *)
Definition thread_block_prepare (t ev d : Z) : M (sched W) unit :=
  update_thread (fun th => set_event ev d (set_state THREAD_STATE_BLOCKED th)) t ;;;
  scheduler_event_wait ev t.

Definition thread_block_commit (fuel : nat) (t : Z) : M (sched W) (option Z) :=
  spinlock_lock sched_lock set_lock ;;;
  let! th := deref t in
  if state th =? THREAD_STATE_BLOCKED then scheduler_remove_thread fuel t
  else
    spinlock_unlock set_lock ;;;
    ret None.

Definition thread_block (fuel : nat) (t ev d : Z) : M (sched W) (option Z) :=
  thread_block_prepare t ev d ;;;
  thread_block_commit fuel t.

End update.

(** ** Election *)

Section proofs.
Context {W : Type}.
Implicit Types (s : sched W) (t : Z).

Lemma queue_add_back_ok s t Q :
  (t ∉ queue s) -> Q tt (set_queue (queue s ++ [t]) s) -> wp (queue_add_back t) s Q.
Proof. intros Ht HQ. unfold wp, queue_add_back. by rewrite decide_False. Qed.

Lemma queue_del_ok s t (Q : unit -> sched W -> Prop) :
  Q tt (set_queue (filter (fun x => x <> t) (queue s)) s) -> wp (queue_del t) s Q.
Proof. done. Qed.

Lemma wp_thread s t th (Q : thread -> sched W -> Prop) :
  threads s !! t = Some th -> Q th s -> wp (deref t) s Q.
Proof. unfold wp, deref. by intros ->. Qed.

Lemma wp_update_thread s t th f (Q : unit -> sched W -> Prop) :
  threads s !! t = Some th -> Q tt (set_threads (<[t := f th]> (threads s)) s) ->
  wp (update_thread f t) s Q.
Proof. unfold wp, update_thread. by intros ->. Qed.

(** The election as a function of the queue: who is elected and the new queue. *)
Definition elected (force : bool) (run idl : Z) (q : list Z) : Z * list Z :=
  match q with
  | [] => (idl, [])
  | t :: rest =>
      if force && (run =? t) then
        match rest with
        | [] => (idl, [t])
        | t' :: rest' => (t', rest' ++ [t; t'])
        end
      else (t, rest ++ [t])
  end.

Lemma scheduler_elect_ok s force :
  queue_wf s ->
  wp (scheduler_elect 2 force) s (fun t s' =>
    (t, queue s') = elected force (running s) (idle s) (queue s) /\ s' = set_queue (queue s') s).
Proof.
  intros (Hnd & _). unfold elected. unfold scheduler_elect at 1. step. step.
  destruct (queue s) as [|t rest] eqn:Hq.
  { step. rewrite Hq. split; [done|]. rewrite <-Hq. by destruct s. }
  apply NoDup_cons in Hnd as [Ht Hnd]. step. step.
  destruct (force && (running s =? t)) eqn:E; simpl.
  2:{ step. apply queue_add_back_ok; [done|]. step. done. }
  step. apply queue_add_back_ok; [done|]. destruct rest as [|t' rest]; simpl.
  { step. done. }
  step. step. simpl. step. step. simpl.
  assert (running s = t) as Hr. { apply andb_prop in E as [_ E]. by apply Z.eqb_eq in E. }
  assert (t <> t') as Hne by (intros ->; set_solver).
  rewrite (proj2 (Z.eqb_neq _ t')) by congruence. rewrite andb_false_r.
  step. apply queue_add_back_ok.
  { simpl. apply NoDup_cons in Hnd as [? _]. set_solver. }
  step. simpl. split; [|done]. by rewrite <-app_assoc.
Qed.

(** Rotating the queue: the elections that follow one another serve the threads
    in turn. *)
Fixpoint elect_n (n : nat) (q : list Z) : list Z * list Z :=
  match n with
  | O => ([], q)
  | S n => match q with
           | [] => ([], [])
           | t :: rest => let '(l, q') := elect_n n (rest ++ [t]) in (t :: l, q')
           end
  end.

Lemma elect_n_rotates q1 q2 :
  elect_n (length q1) (q1 ++ q2) = (q1, q2 ++ q1).
Proof.
  revert q2. induction q1 as [|t q1 IH]; intros q2; simpl; [by rewrite app_nil_r|].
  rewrite <-app_assoc, IH. by rewrite <-app_assoc.
Qed.

(** ** Cleaning *)

Context {reaper_op : ReaperOp W} {reaper : Reaper W}.

(** Whether the cleaning loop leaves [t] in the queue. *)
Definition keep s (t : Z) : bool :=
  match threads s !! t with
  | Some th => negb (state th =? THREAD_STATE_BLOCKED) &&
               (negb (state th =? THREAD_STATE_ZOMBIE) || (running s =? t))
  | None => false
  end.

Lemma next_of_head q : next_of q 0 = Some (hd 0 q).
Proof. done. Qed.

Lemma next_of_middle q1 x q2 :
  NoDup (q1 ++ x :: q2) -> x <> 0 -> next_of (q1 ++ x :: q2) x = Some (hd 0 q2).
Proof.
  intros Hnd Hx. unfold next_of. rewrite (proj2 (Z.eqb_neq x 0)) by done.
  destruct (list_break_key id (q1 ++ x :: q2) x) as (l1 & l2 & E & Heq);
    [by rewrite list_fmap_id|set_solver|].
  unfold id in E. rewrite E.
  destruct (NoDup_split_unique id q1 x q2 l1 x l2) as (_ & _ & <-); [by rewrite list_fmap_id|done..].
Qed.

Lemma filter_ne_middle (q1 q2 : list Z) x :
  NoDup (q1 ++ x :: q2) -> filter (fun y => y <> x) (q1 ++ x :: q2) = q1 ++ q2.
Proof.
  intros (Hn1 & Hd & Hn2)%NoDup_app. apply NoDup_cons in Hn2 as [Hx Hn2].
  rewrite filter_app, filter_cons_False by tauto.
  rewrite !filter_all; [done|set_solver|]. intros y Hy ->. apply (Hd x Hy). set_solver.
Qed.

Lemma queue_wf_sub s s' :
  queue_wf s -> idle s' = idle s -> threads s' = threads s ->
  (exists x, queue s' = filter (fun y => y <> x) (queue s)) -> queue_wf s'.
Proof.
  intros (Hnd & H0 & Hi & Hth) Hid Hths [x Hx]. rewrite <-Hid in Hi.
  unfold queue_wf. rewrite Hx, Hths. split_and!.
  - by apply NoDup_filter.
  - rewrite list_elem_of_filter. tauto.
  - rewrite list_elem_of_filter. tauto.
  - intros t [_ Ht]%list_elem_of_filter. auto.
Qed.

(** Of the threads in [l] the zombies are gone, unless running, and there are no new
    threads. *)
Definition reaps (l : list Z) s s' : Prop := forall x, is_Some (threads s' !! x) ->
  is_Some (threads s !! x) /\ (x ∈ l -> has_state THREAD_STATE_ZOMBIE s x -> running s = x).

(** One pass of the body, on the node [e] that follows [kept]: whether it stays
    is [keep], and new threads may have been appended. *)
Lemma clean_body_ok s kept e rest :
  reap_ok s -> sched_lock s = true -> event_lock s = false -> queue_wf s -> queue s = kept ++ e :: rest ->
  wp (clean_body e) s (fun _ s' => exists new,
    reap_ok s' /\ sched_lock s' = true /\ event_lock s' = false /\
    running s' = running s /\ idle s' = idle s /\ queue_wf s' /\
    queue s' = kept ++ (if keep s e then [e] else []) ++ rest ++ new /\
    (forall x, x ∈ kept ++ (if keep s e then [e] else []) ++ rest -> threads s' !! x = threads s !! x) /\
    reaps [e] s s' /\
    Forall (has_state THREAD_STATE_RUNNING s') new /\
    (nblocked s' + length new <= nblocked s)%nat).
Proof.
  intros Hro Hlk Hev Hwf Hq. pose proof Hwf as (Hnd & H0 & _ & Hth).
  destruct (Hth e) as [th He]; [rewrite Hq; set_solver|]. unfold clean_body.
  step. eapply wp_thread; [done|]. unfold keep. rewrite He.
  rewrite Hq in Hnd. pose proof (filter_ne_middle kept rest e Hnd) as Hfil.
  set (s1 := set_queue (kept ++ rest) s).
  assert (queue_wf s1) as Hwf1.
  { apply (queue_wf_sub s); [done..|]. exists e. simpl. by rewrite Hq, Hfil. }
  assert (state th = THREAD_STATE_BLOCKED \/ state th = THREAD_STATE_ZOMBIE -> reap_ok s1) as Hro1.
  { intros Hgo. eapply reap_ok_frame; [exact Hro|done..| |]; intros x; rewrite Hq; unfold s1; simpl; [set_solver|].
    intros (th' & Hth' & Hs') [?|[->|?]%elem_of_cons]%elem_of_app; [set_solver| |set_solver].
    rewrite He in Hth'. injection Hth' as <-. destruct Hgo as [Hgo|Hgo]; rewrite Hs' in Hgo; done. }
  assert (set_queue (filter (fun x => x <> e) (queue s)) s = s1) as Hs1 by by rewrite Hq, Hfil.
  assert (state th <> THREAD_STATE_ZOMBIE -> reaps [e] s s) as Hre.
  { intros Hn x Hx. split; [done|]. intros ->%list_elem_of_singleton (th' & Hth' & Hs'). congruence. }
  destruct (Z.eqb_spec (state th) THREAD_STATE_BLOCKED) as [Hb|Hb]; simpl.
  - apply queue_del_ok. rewrite Hs1. exists []. split_and!; try done.
    + apply Hro1. by left.
    + simpl. by rewrite app_nil_r.
    + apply Hre. by rewrite Hb.
    + by rewrite Nat.add_0_r.
  - destruct (Z.eqb_spec (state th) THREAD_STATE_ZOMBIE) as [Hz|Hz]; simpl.
    2:{ step. exists []. rewrite app_nil_r. split_and!; try done; [by apply Hre|]. simpl. lia. }
    step. step. destruct (Z.eqb_spec (running s) e) as [Hr|Hr].
    { step. exists []. rewrite app_nil_r. split_and!; try done; [|simpl; lia].
      intros x Hx. split; [done|]. by intros ->%list_elem_of_singleton. }
    step. apply queue_del_ok. rewrite Hs1. step. step. step.
    eapply wp_mono; [apply (thread_destroy_spec (set_lock false s1) e); try done|].
    { by eapply reap_ok_frame; [apply Hro1; by right|..]. }
    { apply NoDup_app in Hnd as (_ & Hd & Hn2). apply NoDup_cons in Hn2 as [? _].
      simpl. intros [Hi|Hi]%elem_of_app; [|done]. apply (Hd e Hi). set_solver. }
    { exists th. done. }
    intros _ s2 (new & Hro2 & Hlk2 & Hev2 & Hrun & Hidl & Hq2 & Hwf2 & Hsame & Hgone & Hnew & Hnb).
    apply wp_lock; [done|]. exists new. simpl in *. split_and!; try done.
    + by eapply reap_ok_frame; [exact Hro2|..].
    + by rewrite Hq2, app_assoc.
    + intros x Hx. destruct (Hgone x Hx) as [Hne Hx0]. split; [done|]. by intros ->%list_elem_of_singleton.
Qed.

Lemma Forall_keep s new :
  Forall (has_state THREAD_STATE_RUNNING s) new -> filter (fun t => keep s t) new = new.
Proof.
  intros Hf. apply filter_all. intros x Hx. rewrite Forall_forall in Hf.
  destruct (Hf x Hx) as (th & Hth & Hs). unfold keep. rewrite Hth, Hs. done.
Qed.

Lemma clean_loop_ok fuel s kept rest nxt :
  reap_ok s -> sched_lock s = true -> event_lock s = false -> queue_wf s -> queue s = kept ++ rest ->
  (forall e r, rest = e :: r -> nxt = hd 0 r) -> (length rest + nblocked s < fuel)%nat ->
  wp (clean_loop fuel (hd 0 rest) nxt) s (fun _ s' => exists new,
    reap_ok s' /\ sched_lock s' = true /\ event_lock s' = false /\
    running s' = running s /\ idle s' = idle s /\ queue_wf s' /\
    queue s' = kept ++ filter (fun t => keep s t) rest ++ new /\
    (forall x, x ∈ kept ++ filter (fun t => keep s t) rest -> threads s' !! x = threads s !! x) /\
    reaps rest s s' /\ (length (queue s') + nblocked s' <= length (queue s) + nblocked s)%nat /\
    Forall (has_state THREAD_STATE_RUNNING s') new).
Proof.
  revert s kept rest nxt. induction fuel as [|fuel IH]; intros s kept rest nxt Hro Hlk Hev Hwf Hq Hnxt Hf; [lia|].
  pose proof Hwf as (Hnd & H0 & _ & _). destruct rest as [|e rest]; simpl.
  { step. exists []. rewrite !app_nil_r in *. split_and!; try done.
    intros x Hx. split; [done|]. by intros ?%not_elem_of_nil. }
  rewrite Hq in H0. rewrite (proj2 (Z.eqb_neq e 0)) by set_solver.
  rewrite (Hnxt e rest eq_refl). clear nxt Hnxt.
  step. eapply wp_mono; [by apply (clean_body_ok s kept e rest)|].
  intros _ s1 (new & Hro1 & Hlk1 & Hev1 & Hr1 & Hi1 & Hwf1 & Hq1 & Hth1 & Hre1 & Hnew & Hnb). step. step.
  set (kept' := kept ++ (if keep s e then [e] else [])).
  assert (queue s1 = kept' ++ rest ++ new) as Hq1' by (unfold kept'; by rewrite <-app_assoc).
  assert (length (queue s1) + nblocked s1 <= length (queue s) + nblocked s)%nat as Hld1.
  { rewrite Hq1, Hq, !length_app. simpl. destruct (keep s e); simpl; lia. }
  assert (filter (fun t => keep s t) (e :: rest) = (if keep s e then [e] else []) ++ filter (fun t => keep s t) rest) as Hfe.
  { rewrite filter_cons. destruct (keep s e); [by rewrite decide_True|by rewrite decide_False by auto]. }
  destruct rest as [|e' rest].
  - simpl hd. rewrite next_of_head. destruct fuel as [|fuel]; [simpl in Hf; lia|]. simpl. step.
    exists new. rewrite Hfe. simpl. rewrite !app_nil_r in *. split_and!; done.
  - simpl hd. rewrite Hq1', <-app_comm_cons.
    assert (e' <> 0) by set_solver.
    rewrite next_of_middle; [|destruct Hwf1 as [Hn1 _]; by rewrite Hq1' in Hn1|done].
    eapply wp_mono; [apply (IH s1 kept' (e' :: rest ++ new)); try done|].
    { intros ?? [= -> ->]. done. }
    { simpl. rewrite length_app. simpl in Hf. lia. }
    intros _ s2 (new2 & Hro2 & Hlk2 & Hev2 & Hr2 & Hi2 & Hwf2 & Hq2 & Hth2 & Hre2 & Hld2 & Hnew2).
    assert (filter (fun t => keep s1 t) (e' :: rest ++ new) = filter (fun t => keep s t) (e' :: rest) ++ new) as Hf1.
    { rewrite app_comm_cons, filter_app, (Forall_keep s1 new) by done. f_equal.
      apply filter_ext_elem. intros x Hx. unfold keep. rewrite Hr1, (Hth1 x); [done|]. set_solver. }
    exists (new ++ new2). rewrite Hf1 in *. rewrite Hfe.
    split_and!; try congruence; try done.
    + rewrite Hq2. unfold kept'. by rewrite <-!app_assoc.
    + intros x Hx. rewrite Hth2 by (unfold kept'; set_solver). apply Hth1.
      revert Hx. rewrite !elem_of_app, list_elem_of_filter. tauto.
    + intros x Hx. destruct (Hre2 x Hx) as [Hx1 Hz1]. destruct (Hre1 x Hx1) as [Hx0 Hz0]. split; [done|].
      intros [->|Hin]%elem_of_cons Hz; [apply Hz0; [set_solver|done]|]. rewrite <-Hr1. apply Hz1; [set_solver|].
      destruct Hz as (th & Hth & Hs). exists th. rewrite Hth1; [done|]. set_solver.
    + lia.
    + apply Forall_app. split; [|done]. apply Forall_forall. intros x Hx.
      rewrite Forall_forall in Hnew. destruct (Hnew x Hx) as (th & ? & ?).
      exists th. split; [|done]. rewrite Hth2; [done|]. set_solver.
Qed.

(** ** The decision to change thread *)

(** [s] is the state with the time already decremented. *)
Definition must_elect s (regs_null force : bool) : bool :=
  (time s =? 0) ||
  match threads s !! running s with
  | Some th => negb (state th =? THREAD_STATE_RUNNING)
  | None => false
  end || regs_null || force ||
  ((running s =? idle s) && negb (bool_decide (queue s = []))).

Lemma elected_perm force run idl q : (elected force run idl q).2 ≡ₚ q.
Proof.
  unfold elected. destruct q as [|t rest]; [done|].
  destruct (force && (run =? t)); simpl.
  - destruct rest as [|t' rest]; simpl; [done|]. solve_Permutation.
  - solve_Permutation.
Qed.

Lemma queue_wf_perm s q : q ≡ₚ queue s -> queue_wf s -> queue_wf (set_queue q s).
Proof.
  intros Hp (Hnd & H0 & Hi & Hth). unfold queue_wf; simpl. rewrite Hp. split_and!; try done.
  intros t. rewrite Hp. apply Hth.
Qed.

Lemma clean_ok fuel s :
  reap_ok s -> sched_lock s = true -> event_lock s = false -> queue_wf s ->
  (length (queue s) + nblocked s < fuel)%nat ->
  wp (clean fuel) s (fun _ s' => exists new,
    reap_ok s' /\ sched_lock s' = true /\ event_lock s' = false /\
    running s' = running s /\ idle s' = idle s /\ queue_wf s' /\
    queue s' = filter (fun t => keep s t) (queue s) ++ new /\
    (forall x, x ∈ filter (fun t => keep s t) (queue s) -> threads s' !! x = threads s !! x) /\
    reaps (queue s) s s' /\ (length (queue s') + nblocked s' <= length (queue s) + nblocked s)%nat /\
    Forall (has_state THREAD_STATE_RUNNING s') new).
Proof.
  intros Hro Hlk Hev Hwf Hf. unfold clean. step. step.
  destruct (queue s) as [|e q] eqn:Hq.
  - simpl hd. rewrite next_of_head.
    eapply wp_mono; [apply (clean_loop_ok fuel s [] []); try done|]. intros [] s' Hs'. by rewrite Hq in Hs'.
  - simpl hd. pose proof Hwf as (Hnd & H0 & _). rewrite Hq in Hnd, H0.
    change (e :: q) with ([] ++ e :: q) at 1. rewrite next_of_middle by (done || set_solver).
    eapply wp_mono; [apply (clean_loop_ok fuel s [] (e :: q)); try done|].
    + intros ?? [= -> ->]. done.
    + intros [] s' Hs'. by rewrite Hq in Hs'.
Qed.

Lemma scheduler_update_ok fuel s regs_null force :
  reap_ok s -> sched_lock s = false -> event_lock s = false -> queue_wf s ->
  (length (queue s) + nblocked s < fuel)%nat ->
  time s = 1 \/ is_Some (threads s !! running s) ->
  wp (scheduler_update fuel regs_null force) s (fun r s' =>
    let s0 := set_time (u32 (time s - 1)) s in
    reap_ok s' /\ sched_lock s' = false /\ event_lock s' = false /\ idle s' = idle s /\ queue_wf s' /\
    if must_elect s0 regs_null force then
      exists t new, time s' = SCHEDULER_TIME /\ running s' = t /\
        (t, queue s') = elected force (running s) (idle s) (filter (fun t => keep s t) (queue s) ++ new) /\
        Forall (has_state THREAD_STATE_RUNNING s') new /\ reaps (queue s) s s' /\
        (length (queue s') + nblocked s' <= length (queue s) + nblocked s)%nat /\
        r = (if t =? running s then None else Some t)
    else r = None /\ s' = s0).
Proof.
  intros Hro Hlk Hev Hwf Hf Hrun. unfold scheduler_update.
  step. apply wp_lock; [done|]. step. step. step. step. simpl.
  set (s0 := set_time (u32 (time s - 1)) s).
  set (s1 := set_time (u32 (time s - 1)) (set_lock true s)).
  step. apply (wp_mono _ _ (fun b s' => b = must_elect s0 regs_null force /\ s' = s1)).
  { simpl. unfold must_elect. simpl.
    destruct (Z.eqb_spec (u32 (time s - 1)) 0) as [Hz|Hz]; [by step|].
    destruct Hrun as [Ht|[th Hth]]; [by rewrite Ht in Hz|].
    step. eapply wp_thread; [done|]. rewrite Hth. step. done. }
  intros b s' [-> ->]. destruct (must_elect s0 regs_null force) eqn:E.
  2:{ step. step. step. unfold s0, s1. simpl.
      split; [by eapply reap_ok_frame; [exact Hro|..]|]. split_and!; try done.
      unfold set_lock, set_time. simpl. by rewrite Hlk. }
  assert (reap_ok s1) as Hro1 by by eapply reap_ok_frame; [exact Hro|..].
  step. eapply wp_mono; [by apply clean_ok|].
  intros _ s2 (new & Hro2 & Hlk2 & Hev2 & Hr2 & Hi2 & Hwf2 & Hq2 & Hth2 & Hre2 & Hld2 & Hnew). simpl in Hr2, Hi2, Hq2.
  change (queue s2 = filter (fun t => keep s t) (queue s) ++ new) in Hq2. clear Hth2.
  change (reaps (queue s) s s2) in Hre2.
  step. eapply wp_mono; [by apply scheduler_elect_ok|].
  intros t s3 [Hel Hs3]. rewrite Hr2, Hi2, Hq2 in Hel. step. step.
  assert (queue_wf s3) as Hwf3.
  { rewrite Hs3. apply queue_wf_perm; [|done]. rewrite Hq2.
    pose proof (elected_perm force (running s) (idle s) (filter (fun t => keep s t) (queue s) ++ new)) as Hp.
    by rewrite <-Hel in Hp. }
  assert (reap_ok s3) as Hro3.
  { eapply reap_ok_frame; [exact Hro2|rewrite Hs3; done..| |]; intros x; [|intros _];
    pose proof (elected_perm force (running s) (idle s) (queue s2)) as Hp; rewrite Hq2, <-Hel in Hp; simpl in Hp;
    rewrite Hp; by rewrite Hq2. }
  assert (running s3 = running s) as Hr3 by (rewrite Hs3; simpl; congruence).
  assert (idle s3 = idle s) as Hi3 by (rewrite Hs3; simpl; congruence).
  assert (Forall (has_state THREAD_STATE_RUNNING s3) new) as Hnew3 by by rewrite Hs3.
  assert (event_lock s3 = false) as Hev3 by by rewrite Hs3.
  assert (reaps (queue s) s s3) as Hre3 by by rewrite Hs3.
  assert (length (queue s3) + nblocked s3 <= length (queue s) + nblocked s)%nat as Hld3.
  { pose proof (elected_perm force (running s) (idle s) (queue s2)) as Hp%Permutation_length.
    rewrite Hq2, <-Hel, <-Hq2 in Hp. simpl in Hp. rewrite Hp. rewrite Hs3. exact Hld2. }
  rewrite Hr3. destruct (Z.eqb_spec t (running s)) as [Ht|Ht]; simpl.
  - step. step. step. step. step. simpl.
    split; [by eapply reap_ok_frame; [exact Hro3|..]|]. split_and!; try done.
    exists t, new. split_and!; try done; [congruence|]. by rewrite (proj2 (Z.eqb_eq t (running s))).
  - unfold scheduler_switch. step. step. step. step. step. step. step. simpl.
    split; [by eapply reap_ok_frame; [exact Hro3|..]|]. split_and!; try done. exists t, new. split_and!; try done.
    by rewrite (proj2 (Z.eqb_neq t (running s))).
Qed.

(** ** When there is nothing to destroy

    No thread of the queue is to be destroyed: a zombie may only be running. *)
Definition calm s : Prop :=
  forall t th, t ∈ queue s -> threads s !! t = Some th -> state th = THREAD_STATE_ZOMBIE -> running s = t.

Lemma clean_body_calm s kept e rest :
  queue_wf s -> calm s -> queue s = kept ++ e :: rest ->
  clean_body e s = Done (tt, set_queue (kept ++ (if keep s e then [e] else []) ++ rest) s).
Proof.
  intros Hwf Hcalm Hq. pose proof Hwf as (Hnd & _ & _ & Hth).
  destruct (Hth e) as [th He]; [rewrite Hq; set_solver|].
  unfold clean_body, bind, deref, keep. rewrite He.
  rewrite Hq in Hnd. pose proof (filter_ne_middle kept rest e Hnd) as Hfil.
  destruct (Z.eqb_spec (state th) THREAD_STATE_BLOCKED) as [Hb|Hb]; simpl.
  { unfold queue_del, modify. by rewrite Hq, Hfil. }
  assert (set_queue (kept ++ e :: rest) s = s) as Hs by (rewrite <-Hq; by destruct s).
  destruct (Z.eqb_spec (state th) THREAD_STATE_ZOMBIE) as [Hz|Hz]; simpl.
  - assert (running s = e) as Hr by (eapply Hcalm; [rewrite Hq; set_solver|done..]).
    unfold get. simpl. rewrite (proj2 (Z.eqb_eq _ e)) by done. simpl. by rewrite Hs.
  - by rewrite Hs.
Qed.

Lemma clean_loop_calm fuel s kept rest nxt :
  queue_wf s -> calm s -> queue s = kept ++ rest ->
  (forall e r, rest = e :: r -> nxt = hd 0 r) -> (length rest < fuel)%nat ->
  clean_loop fuel (hd 0 rest) nxt s = Done (tt, set_queue (kept ++ filter (fun t => keep s t) rest) s).
Proof.
  revert s kept rest nxt. induction fuel as [|fuel IH]; intros s kept rest nxt Hwf Hcalm Hq Hnxt Hf; [lia|].
  pose proof Hwf as (Hnd & H0 & _ & _). destruct rest as [|e rest]; simpl.
  { unfold ret. do 2 f_equal. change (filter _ []) with (@nil Z). rewrite <-Hq. by destruct s. }
  rewrite Hq in H0. rewrite (proj2 (Z.eqb_neq e 0)) by set_solver.
  rewrite (Hnxt e rest eq_refl). clear nxt Hnxt.
  unfold bind at 1. rewrite (clean_body_calm s kept e rest) by done. unfold bind, get.
  set (kept' := kept ++ (if keep s e then [e] else [])).
  assert (kept ++ (if keep s e then [e] else []) ++ rest = kept' ++ rest) as -> by (unfold kept'; by rewrite <-app_assoc).
  assert (kept ++ filter (fun t => keep s t) (e :: rest) = kept' ++ filter (fun t => keep s t) rest) as ->.
  { unfold kept'. rewrite <-app_assoc, filter_cons. f_equal. by destruct (keep s e). }
  set (s1 := set_queue (kept' ++ rest) s).
  assert (queue_wf s1 /\ calm s1) as [Hwf1 Hcalm1].
  { assert (sublist (kept' ++ rest) (queue s)) as Hsub.
    { rewrite Hq. unfold kept'. rewrite <-app_assoc. apply sublist_app; [done|].
      destruct (keep s e); simpl; [done|by apply sublist_cons]. }
    assert (forall x, x ∈ kept' ++ rest -> x ∈ queue s) as Hin.
    { intros x Hx. rewrite Hq. revert Hx. unfold kept'. destruct (keep s e); set_solver. }
    destruct Hwf as (Hn & Hz & Hi & Ht). split; [split_and!; simpl|].
    - by eapply sublist_NoDup.
    - intros Hx. by apply Hz, Hin.
    - intros Hx. by apply Hi, Hin.
    - intros t Hx. by apply Ht, Hin.
    - intros t th Hx. simpl in *. by apply Hcalm, Hin. }
  destruct rest as [|e' rest].
  - simpl hd. rewrite next_of_head. destruct fuel as [|fuel]; [simpl in Hf; lia|]. done.
  - change (queue s1) with (kept' ++ e' :: rest). change (hd 0 (e' :: rest)) with e' at 1.
    rewrite next_of_middle; [|by destruct Hwf1|set_solver].
    rewrite (IH s1 kept' (e' :: rest)); try done.
    + intros ?? [= -> ->]. done.
    + simpl in *. lia.
Qed.

Lemma clean_calm fuel s :
  queue_wf s -> calm s -> (length (queue s) < fuel)%nat ->
  clean fuel s = Done (tt, set_queue (filter (fun t => keep s t) (queue s)) s).
Proof.
  intros Hwf Hcalm Hf. unfold clean, bind, get. destruct (queue s) as [|e q] eqn:Hq.
  - simpl hd. rewrite next_of_head. apply (clean_loop_calm fuel s [] []); try done.
  - simpl hd. pose proof Hwf as (Hnd & H0 & _). rewrite Hq in Hnd, H0.
    change (e :: q) with ([] ++ e :: q) at 1. rewrite next_of_middle by (done || set_solver).
    change e with (hd 0 (e :: q)) at 1. apply (clean_loop_calm fuel s [] (e :: q)); try done.
    intros ?? [= -> ->]. done.
Qed.

(** A thread that has just been blocked leaves the processor, and only the
    scheduler changes. *)
Lemma block_running_calm fuel s th :
  let t := running s in
  let q := filter (fun x => keep s x) (queue s) in
  let next := elected false t (idle s) q in
  sched_lock s = true -> queue_wf s -> calm s -> (length (queue s) < fuel)%nat ->
  threads s !! t = Some th -> state th = THREAD_STATE_BLOCKED -> t <> idle s ->
  wp (scheduler_remove_thread fuel t) s (fun r s' => r = Some next.1 /\
    s' = set_lock false (set_time SCHEDULER_TIME (set_running next.1 (set_queue next.2
           (set_thread_num (u32 (thread_num s - 1)) s))))).
Proof.
  intros t q next Hlk Hwf Hcalm Hf Hth Hst Hidle. unfold scheduler_remove_thread.
  step. eapply wp_thread; [done|]. rewrite Hst. simpl. step. step. unfold t at 1. rewrite Z.eqb_refl.
  step. step. step. step. step. eapply wp_thread; [done|]. rewrite Hst. simpl.
  unfold scheduler_update. step. step. simpl. step. step. step. step. simpl.
  set (s1 := set_time _ _).
  step. apply (wp_mono _ _ (fun b s' => b = true /\ s' = s1)).
  { destruct (_ =? 0); [by step|]. step. eapply wp_thread; [done|]. rewrite Hst. by step. }
  intros b s' [-> ->]. step.
  assert (queue_wf s1 /\ calm s1) as [Hwf1 Hcalm1] by done.
  unfold wp at 1. rewrite clean_calm by done. step.
  change (filter (fun t => keep s1 t) (queue s1)) with q.
  set (s2 := set_queue q s1).
  assert (queue_wf s2) as Hwf2.
  { destruct Hwf as (Hn & Hz & Hi & Ht). unfold s2, q. split_and!; simpl.
    - by apply NoDup_filter.
    - rewrite list_elem_of_filter. tauto.
    - rewrite list_elem_of_filter. tauto.
    - intros x [_ Hx]%list_elem_of_filter. auto. }
  eapply (wp_mono (scheduler_elect 2 false)); [by apply scheduler_elect_ok|]. intros x s3 [Hel Hs3].
  change (elected false (running s2) (idle s2) (queue s2)) with next in Hel.
  assert (x = next.1 /\ queue s3 = next.2) as [Hx Hq3] by by rewrite <-Hel.
  step. step.
  assert (running s3 = t) as Hr3 by by rewrite Hs3.
  assert (x <> t) as Hxt.
  { rewrite Hx. unfold next, q, elected. destruct (filter _ _) as [|y l] eqn:Hfl; simpl; [congruence|].
    intros ->. assert (t ∈ filter (fun x => keep s x) (queue s)) as Hin by (rewrite Hfl; set_solver).
    apply list_elem_of_filter in Hin as [Hk _]. unfold keep in Hk. by rewrite Hth, Hst in Hk. }
  rewrite Hr3, (proj2 (Z.eqb_neq x t)) by done. simpl. unfold scheduler_switch.
  step. step. step. step. step. step. step. split; [by rewrite Hx|].
  rewrite Hs3, Hx, Hq3. unfold s2, s1. by rewrite <-Hx.
Qed.

(** ** Events *)

(** [t] waits for this event. *)
Definition waits_for s (ev d t : Z) : bool :=
  match threads s !! t with
  | Some th => (event th =? ev) && (data th =? d)
  | None => false
  end.

Lemma scheduler_add_thread_ok s t :
  sched_lock s = false -> (t ∉ queue s) ->
  wp (scheduler_add_thread t) s (fun _ s' =>
    sched_lock s' = false /\ event_lock s' = event_lock s /\ queue s' = queue s ++ [t] /\
    threads s' = threads s /\ running s' = running s /\ idle s' = idle s /\ waiting s' = waiting s /\
    thread_num s' = u32 (thread_num s + 1) /\ world s' = world s /\
    time s' = (if negb (running s =? 0) && (running s =? idle s) then 1 else time s)).
Proof.
  intros Hlk Ht. unfold scheduler_add_thread.
  step. apply wp_lock; [done|]. step. step. step. apply queue_add_back_ok; [done|].
  step. step. step. simpl. destruct (_ && _); step; by step.
Qed.

Lemma notify_loop_ok ev d l s :
  sched_lock s = false -> NoDup l ->
  (forall t, t ∈ l -> is_Some (threads s !! t) /\ (waits_for s ev d t -> t ∉ queue s)) ->
  wp (notify_loop ev d l) s (fun remaining s' =>
    let woken := filter (fun t => waits_for s ev d t) l in
    remaining = filter (fun t => ~ waits_for s ev d t) l /\
    sched_lock s' = false /\ event_lock s' = event_lock s /\
    queue s' = queue s ++ woken /\ waiting s' = waiting s /\
    running s' = running s /\ idle s' = idle s /\ world s' = world s /\
    (forall x, threads s' !! x = if decide (x ∈ woken)
                                 then set_state THREAD_STATE_RUNNING <$> threads s !! x
                                 else threads s !! x)).
Proof.
  revert s. induction l as [|t l IH]; intros s Hlk Hnd Hl.
  { step. cbv zeta. rewrite !filter_nil. split_and!; try done.
    by rewrite app_nil_r. }
  apply NoDup_cons in Hnd as [Ht Hnd]. destruct (Hl t) as [[th Hth] Hq]; [set_solver|].
  cbn [notify_loop]. step. eapply wp_thread; [done|].
  assert (waits_for s ev d t = (event th =? ev) && (data th =? d)) as Hw by (unfold waits_for; by rewrite Hth).
  rewrite !filter_cons. rewrite <-Hw. destruct (waits_for s ev d t) eqn:E.
  - rewrite decide_False, decide_True by (simpl; tauto). unfold thread_unblock.
    step. step. eapply wp_update_thread; [done|].
    eapply wp_mono; [apply scheduler_add_thread_ok; [done|by apply Hq]|].
    intros _ s1 (Hlk1 & Hev1 & Hq1 & Hth1 & Hr1 & Hi1 & Hw1 & _ & Hwd1 & _). simpl in *.
    assert (forall x, x ∈ l -> threads s1 !! x = threads s !! x) as Hsame.
    { intros x Hx. rewrite Hth1, lookup_insert_ne; [done|]. by intros ->. }
    assert (forall x, x ∈ l -> waits_for s1 ev d x = waits_for s ev d x) as Hwf.
    { intros x Hx. unfold waits_for. by rewrite Hsame. }
    eapply wp_mono; [apply IH; [done..|]|].
    { intros x Hx. destruct (Hl x) as [Hx1 Hx2]; [set_solver|]. rewrite Hsame, Hwf by done.
      split; [done|]. intros Hxw. rewrite Hq1. specialize (Hx2 Hxw). set_solver. }
    intros rem s2 (-> & Hlk2 & Hev2 & Hq2 & Hwt2 & Hr2 & Hi2 & Hwd2 & Hth2).
    assert (filter (fun x => waits_for s1 ev d x) l = filter (fun x => waits_for s ev d x) l) as Hf.
    { apply filter_ext_elem. intros x Hx. by rewrite Hwf. }
    rewrite Hf in *. split_and!; try congruence.
    + apply filter_ext_elem. intros x Hx. by rewrite Hwf.
    + by rewrite Hq2, Hq1, <-app_assoc.
    + intros x. rewrite Hth2. destruct (decide (x = t)) as [->|Hne].
      * rewrite decide_False by (rewrite list_elem_of_filter; tauto).
        rewrite decide_True by set_solver. rewrite Hth1, lookup_insert_eq, Hth. done.
      * rewrite Hth1, lookup_insert_ne by done.
        destruct (decide (x ∈ filter _ l)) as [?|?];
          [by rewrite decide_True by set_solver|by rewrite decide_False by set_solver].
  - rewrite decide_True, decide_False by (simpl; tauto).
    step. eapply wp_mono; [apply IH; [done..|]|]. { intros x Hx. apply Hl. set_solver. }
    intros rem s2 (-> & Hrest). step. split; [done|]. done.
Qed.

(** The threads that wait for the event are woken, and nothing else happens. *)
Lemma scheduler_event_notify_exact s ev d l :
  sched_lock s = false -> event_lock s = false -> 1 <= ev ->
  waiting s !! Z.to_nat (ev - 1) = Some l -> NoDup l ->
  (forall t, t ∈ l -> is_Some (threads s !! t) /\ (waits_for s ev d t -> t ∉ queue s)) ->
  wp (scheduler_event_notify ev d) s (fun _ s' =>
    let woken := filter (fun t => waits_for s ev d t) l in
    sched_lock s' = false /\ event_lock s' = false /\
    queue s' = queue s ++ woken /\
    waiting s' = <[Z.to_nat (ev - 1) := filter (fun t => ~ waits_for s ev d t) l]> (waiting s) /\
    running s' = running s /\ idle s' = idle s /\ world s' = world s /\
    (forall x, threads s' !! x = if decide (x ∈ woken)
                                 then set_state THREAD_STATE_RUNNING <$> threads s !! x
                                 else threads s !! x)).
Proof.
  intros Hlk Hev He Hl Hnd Hall. unfold scheduler_event_notify.
  step. apply wp_lock; [done|]. step. step.
  rewrite (proj2 (Z.leb_gt ev 0)) by lia. simpl. rewrite Hl.
  step. eapply wp_mono; [by apply (notify_loop_ok ev d l (set_event_lock true s))|].
  intros rem s1 (-> & Hlk1 & Hev1 & Hq1 & Hwt1 & Hr1 & Hi1 & Hw1 & Hth1). step. step. step.
  cbv zeta. change (waits_for (set_event_lock true s)) with (waits_for s) in *. simpl in *.
  split_and!; try done. by rewrite Hwt1.
Qed.

Lemma scheduler_event_notify_ok s ev d l :
  sched_lock s = false -> event_lock s = false -> 1 <= ev ->
  waiting s !! Z.to_nat (ev - 1) = Some l -> NoDup l ->
  (forall t, t ∈ l -> is_Some (threads s !! t) /\ (waits_for s ev d t -> t ∉ queue s)) ->
  wp (scheduler_event_notify ev d) s (fun _ s' =>
    let woken := filter (fun t => waits_for s ev d t) l in
    sched_lock s' = false /\ event_lock s' = false /\
    queue s' = queue s ++ woken /\
    waiting s' = <[Z.to_nat (ev - 1) := filter (fun t => ~ waits_for s ev d t) l]> (waiting s) /\
    Forall (has_state THREAD_STATE_RUNNING s') woken /\
    (forall x, x ∉ woken -> threads s' !! x = threads s !! x)).
Proof.
  intros Hlk Hev He Hl Hnd Hall. eapply wp_mono; [by apply (scheduler_event_notify_exact s ev d l)|].
  intros _ s' (Hlk1 & Hev1 & Hq1 & Hwt1 & _ & _ & _ & Hth1). cbv zeta. split_and!; try done.
  - apply Forall_forall. intros x Hx. specialize (Hth1 x). rewrite decide_True in Hth1 by done.
    assert (x ∈ l) as Hxl by (apply list_elem_of_filter in Hx as [_ ?]; done).
    destruct (Hall x Hxl) as [[th Hth] _]. rewrite Hth in Hth1.
    exists (set_state THREAD_STATE_RUNNING th). done.
  - intros x Hx. specialize (Hth1 x). by rewrite decide_False in Hth1.
Qed.

(** Unblocking threads leaves fewer of them blocked. *)
Lemma nblocked_woken s s' woken :
  NoDup woken ->
  (forall t, t ∈ woken -> has_state THREAD_STATE_BLOCKED s t /\ ~ has_state THREAD_STATE_BLOCKED s' t) ->
  (forall t, has_state THREAD_STATE_BLOCKED s' t -> has_state THREAD_STATE_BLOCKED s t) ->
  (nblocked s' + length woken <= nblocked s)%nat.
Proof.
  intros Hnd Hw Hsub. unfold nblocked. rewrite <-!size_dom.
  set (B := fun s : sched W => dom (filter (fun '(_, th) => state th = THREAD_STATE_BLOCKED) (threads s))).
  change (size (B s') + length woken <= size (B s))%nat.
  assert (forall s t, t ∈ B s <-> has_state THREAD_STATE_BLOCKED s t) as HB.
  { intros s0 t. unfold B, has_state. rewrite elem_of_dom. unfold is_Some.
    setoid_rewrite map_lookup_filter_Some. naive_solver. }
  rewrite <-(size_list_to_set (C := gset Z) woken) by done. rewrite <-size_union.
  - apply subseteq_size. intros t. rewrite elem_of_union, elem_of_list_to_set, !HB. naive_solver.
  - intros t. rewrite elem_of_list_to_set, HB. naive_solver.
Qed.

(** ** Properties *)

(** C6: a call of [scheduler_update] that finds time left, a runnable thread, no
    demand for a change and no reason to leave the idle thread only counts the
    tick.  Otherwise it unlinks the blocked threads, has the zombie ones
    destroyed, gives a full time slice to the first thread of what is left of the
    queue (the next one if a change is forced and the first is running, the idle
    thread if there is none), moves it to the end of the queue and switches to it
    unless it was already running; of the zombies only the running thread is left.  In all cases the scheduler lock is released
    and the queue stays a list of distinct live threads. *)
Theorem scheduler_update_elects fuel s regs_null force :
  reap_ok s -> sched_lock s = false -> event_lock s = false -> queue_wf s ->
  (length (queue s) + nblocked s < fuel)%nat ->
  time s = 1 \/ is_Some (threads s !! running s) ->
  wp (scheduler_update fuel regs_null force) s (fun r s' =>
    let s0 := set_time (u32 (time s - 1)) s in
    reap_ok s' /\ sched_lock s' = false /\ event_lock s' = false /\ idle s' = idle s /\ queue_wf s' /\
    if must_elect s0 regs_null force then
      exists t new, time s' = SCHEDULER_TIME /\ running s' = t /\
        (t, queue s') = elected force (running s) (idle s) (filter (fun t => keep s t) (queue s) ++ new) /\
        Forall (has_state THREAD_STATE_RUNNING s') new /\ reaps (queue s) s s' /\
        (length (queue s') + nblocked s' <= length (queue s) + nblocked s)%nat /\
        r = (if t =? running s then None else Some t)
    else r = None /\ s' = s0).
Proof. apply scheduler_update_ok. Qed.

(** [n] elections in a row. *)
Fixpoint elections (n : nat) : M (sched W) (list Z) :=
  match n with
  | O => ret []
  | S n =>
      let! t := scheduler_elect 2 false in
      let! l := elections n in
      ret (t :: l)
  end.

Lemma elections_ok n s :
  queue_wf s -> queue s <> [] ->
  wp (elections n) s (fun l s' => (l, queue s') = elect_n n (queue s) /\ s' = set_queue (queue s') s).
Proof.
  revert s. induction n as [|n IH]; intros s Hwf Hne; [step; split; [done|by destruct s]|].
  cbn [elections]. step. eapply wp_mono; [by apply scheduler_elect_ok|].
  intros t s1 [Hel Hs1]. destruct (queue s) as [|x q] eqn:Hq; [done|]. simpl in Hel.
  injection Hel as -> Hq1.
  step. eapply wp_mono; [apply IH|].
  { rewrite Hs1. apply queue_wf_perm; [|done]. rewrite Hq1, Hq. solve_Permutation. }
  { rewrite Hq1. by destruct q. }
  intros l s2 [Hl Hs2]. step. rewrite Hq1 in Hl. simpl. rewrite <-Hl. split; [done|].
  rewrite Hs2, Hs1. done.
Qed.

(** Elections serve the runnable threads in turn: as many elections as there
    are threads in the queue elect each of them once, in queue order, and bring
    the queue back to what it was, so no thread waits more than one round. *)
Theorem scheduler_round_robin s :
  queue_wf s -> queue s <> [] ->
  wp (elections (length (queue s))) s (fun l s' => l = queue s /\ s' = s).
Proof.
  intros Hwf Hne. eapply wp_mono; [by apply elections_ok|]. intros l s' [Hl Hs'].
  pose proof (elect_n_rotates (queue s) []) as Hr. rewrite app_nil_r in Hr. rewrite Hr in Hl.
  injection Hl as -> Hq. split; [done|]. rewrite Hs', Hq. by destruct s.
Qed.

(** [scheduler_event_notify] unblocks exactly the threads waiting for this
    event with this data, all of them, appends them to the run queue in order and
    takes them off the event's list; other threads and the other lists do not
    change.  It does so whatever the state of the threads, a zombie one
    included: a thread that exited while blocked becomes runnable again. *)
Theorem scheduler_event_notify_wakes s ev d l :
  sched_lock s = false -> event_lock s = false -> 1 <= ev ->
  waiting s !! Z.to_nat (ev - 1) = Some l -> NoDup l ->
  (forall t, t ∈ l -> is_Some (threads s !! t) /\ (waits_for s ev d t -> t ∉ queue s)) ->
  wp (scheduler_event_notify ev d) s (fun _ s' =>
    let woken := filter (fun t => waits_for s ev d t) l in
    sched_lock s' = false /\ event_lock s' = false /\
    queue s' = queue s ++ woken /\
    waiting s' = <[Z.to_nat (ev - 1) := filter (fun t => ~ waits_for s ev d t) l]> (waiting s) /\
    Forall (has_state THREAD_STATE_RUNNING s') woken /\
    (forall x, x ∉ woken -> threads s' !! x = threads s !! x)).
Proof. apply scheduler_event_notify_ok. Qed.

(** The window in [thread_block] between joining the event's list and taking
    the scheduler lock.  If the thread is still in the run queue when the event
    comes, which is the normal case since a running thread stays queued, the
    event links it into the queue a second time, which breaks the list.  Only if
    a timer interrupt has unlinked it first does the rest of [thread_block]
    return at once with the thread runnable and queued. *)
Theorem thread_block_window fuel s t ev d l :
  sched_lock s = false -> event_lock s = false -> 1 <= ev ->
  waiting s !! Z.to_nat (ev - 1) = Some l -> NoDup l -> (t ∉ l) -> is_Some (threads s !! t) ->
  (forall x, x ∈ l -> is_Some (threads s !! x) /\ ~ waits_for s ev d x) ->
  (t ∈ queue s ->
   (thread_block_prepare t ev d ;;; scheduler_event_notify ev d) s = Undef) /\
  ((t ∉ queue s) ->
   wp (thread_block_prepare t ev d ;;; scheduler_event_notify ev d ;;;
       thread_block_commit fuel t) s (fun r s' =>
     r = None /\ sched_lock s' = false /\ has_state THREAD_STATE_RUNNING s' t /\
     queue s' = queue s ++ [t])).
Proof.
  intros Hlk Hev He Hl Hnd Hni [th Hth] Hall.
  set (th' := set_event ev d (set_state THREAD_STATE_BLOCKED th)).
  set (s1 := set_event_lock false (set_waiting (<[Z.to_nat (ev - 1) := t :: l]> (waiting s))
               (set_event_lock true (set_threads (<[t := th']> (threads s)) s)))).
  assert (thread_block_prepare t ev d s = Done (tt, s1)) as Hprep.
  { unfold thread_block_prepare, bind, update_thread. rewrite Hth.
    unfold scheduler_event_wait, bind, spinlock_lock. simpl. rewrite Hev. simpl.
    rewrite (proj2 (Z.leb_gt ev 0)) by lia. rewrite Hl. by rewrite decide_False. }
  assert (threads s1 !! t = Some th') as Ht1 by (simpl; apply lookup_insert_eq).
  assert (waiting s1 !! Z.to_nat (ev - 1) = Some (t :: l)) as Hl1.
  { simpl. apply list_lookup_insert_eq. by eapply lookup_lt_Some. }
  assert (waits_for s1 ev d t = true) as Hw1.
  { unfold waits_for. rewrite Ht1. simpl. by rewrite !Z.eqb_refl. }
  split.
  - intros Hq. unfold bind at 1. rewrite Hprep.
    unfold scheduler_event_notify, spinlock_lock, bind. simpl.
    rewrite (proj2 (Z.leb_gt ev 0)) by lia. simpl in Hl1. rewrite Hl1. cbn [notify_loop].
    unfold bind, deref. simpl. rewrite lookup_insert_eq. simpl. rewrite !Z.eqb_refl. simpl.
    unfold thread_unblock, update_thread, bind. simpl. rewrite lookup_insert_eq.
    unfold cpu_add_thread, scheduler_add_thread, spinlock_lock, bind. simpl. rewrite Hlk. simpl.
    unfold queue_add_back. simpl. by rewrite decide_True.
  - intros Hq. apply wp_bind. unfold wp at 1. rewrite Hprep.
    assert (forall x, x ∈ l -> threads s1 !! x = threads s !! x) as Hsame.
    { intros x Hx. simpl. apply lookup_insert_ne. by intros ->. }
    assert (forall x, x ∈ l -> ~ waits_for s1 ev d x) as Hnw.
    { intros x Hx. unfold waits_for. rewrite Hsame by done. by apply Hall. }
    assert (filter (fun x => waits_for s1 ev d x) (t :: l) = [t]) as Hf.
    { rewrite filter_cons_True by by rewrite Hw1. f_equal.
      destruct (filter _ l) as [|y l'] eqn:E; [done|].
      assert (y ∈ filter (fun x => waits_for s1 ev d x) l) as [? ?]%list_elem_of_filter
        by (rewrite E; set_solver). by destruct (Hnw y). }
    step. eapply wp_mono; [apply (scheduler_event_notify_ok s1 ev d (t :: l)); try done|].
    { by constructor. }
    { intros x [->|Hx]%elem_of_cons; [by rewrite Ht1|]. rewrite Hsame by done.
      split; [by apply Hall|]. intros Hxw. by destruct (Hnw x Hx). }
    intros _ s2 (Hlk2 & Hev2 & Hq2 & _ & Hrun2 & _). rewrite Hf in *.
    apply Forall_singleton in Hrun2 as (th2 & Hth2 & Hst2).
    unfold thread_block_commit. step. apply wp_lock; [done|]. step.
    eapply wp_thread; [done|]. rewrite Hst2. simpl. step. step. step.
    split_and!; try done. by exists th2.
Qed.
End proofs.

(** The comment of [scheduler_initialize] wants a first tick with [time] = 0 to
    schedule the first thread; [time] is unsigned and decremented before the
    test, so that tick reads the state of the running thread through a NULL
    pointer instead.  Scheduling starts only through [scheduler_start]. *)
Theorem scheduler_first_tick {W} `{ReaperOp W} (s : sched W) fuel force :
  threads s !! 0 = None ->
  (scheduler_initialize ;;; scheduler_update fuel false force) s = Undef.
Proof.
  intros H0. unfold scheduler_initialize, scheduler_event_initialize, bind, modify. simpl.
  unfold scheduler_update, bind, spinlock_lock, modify, get. simpl.
  unfold deref. simpl. by rewrite H0.
Qed.

(** ** A concrete scheduler

    Threads 100 (running) and 300 are queued, 200 waits for the timer, 400 is a
    zombie still queued, 900 is the idle thread.  The reaper forgets the
    thread. *)

Definition forget_thread {W} (t : Z) : M (sched W) unit :=
  modify (fun s => set_threads (delete t (threads s)) s).

Lemma forget_thread_spec {W} (s : sched W) t :
  sched_lock s = false -> event_lock s = false -> queue_wf s -> (t ∉ queue s) ->
  has_state THREAD_STATE_ZOMBIE s t ->
  wp (forget_thread t) s (fun _ s' => exists new,
    True /\ sched_lock s' = false /\ event_lock s' = false /\
    running s' = running s /\ idle s' = idle s /\
    queue s' = queue s ++ new /\ queue_wf s' /\
    (forall x, x ∈ queue s -> threads s' !! x = threads s !! x) /\
    (forall x, is_Some (threads s' !! x) -> x <> t /\ is_Some (threads s !! x)) /\
    Forall (has_state THREAD_STATE_RUNNING s') new /\
    (nblocked s' + length new <= nblocked s)%nat).
Proof.
  intros Hlk Hev (Hnd & H0 & Hi & Hth) Ht _. unfold forget_thread. step. exists [].
  assert (forall x, x ∈ queue s -> delete t (threads s) !! x = threads s !! x) as Hsame.
  { intros x Hx. apply lookup_delete_ne. by intros ->. }
  simpl. rewrite app_nil_r. split_and!; try done.
  - split_and!; try done. intros x Hx. simpl in *. rewrite Hsame by done. auto.
  - intros x [th [? ?]%lookup_delete_Some]. eauto.
  - unfold nblocked. simpl. rewrite Nat.add_0_r.
    apply map_subseteq_size, map_filter_subseteq_mono, delete_subseteq.
Qed.

Definition forget_op {W} : ReaperOp W := {| thread_destroy := forget_thread |}.
#[local] Existing Instance forget_op.
Definition forget_reaper {W} : Reaper W.
Proof.
  refine {| reap_ok := fun _ => True; thread_destroy_spec := _ |}; [done|].
  intros s t _. apply forget_thread_spec.
Defined.
#[local] Existing Instance forget_reaper.

Definition sample_sched : sched unit := {|
  time := 1; running := 100; idle := 900; thread_num := 3;
  sched_lock := false; queue := [400; 300; 100]; event_lock := false;
  waiting := [[200]; []; []; []; []; []];
  threads := list_to_map
    [ (100, {| state := THREAD_STATE_RUNNING; event := 0; data := 0 |});
      (200, {| state := THREAD_STATE_BLOCKED; event := SCHED_EV_TIMER; data := 7 |});
      (300, {| state := THREAD_STATE_RUNNING; event := 0; data := 0 |});
      (400, {| state := THREAD_STATE_ZOMBIE; event := 0; data := 0 |});
      (900, {| state := THREAD_STATE_RUNNING; event := 0; data := 0 |}) ];
  world := tt |}.

Lemma sample_sched_wf : queue_wf sample_sched.
Proof.
  split_and!; try (apply (bool_decide_unpack _); by vm_compute).
  intros t Ht. simpl in Ht. rewrite !elem_of_cons, elem_of_nil in Ht.
  destruct Ht as [->|[->|[->|[]]]]; vm_compute; eauto.
Qed.

Lemma scheduler_update_elects_witness :
  wp (scheduler_update 5 false false) sample_sched (fun r s' =>
    let s0 := set_time (u32 (time sample_sched - 1)) sample_sched in
    reap_ok s' /\ sched_lock s' = false /\ event_lock s' = false /\ idle s' = 900 /\ queue_wf s' /\
    if must_elect s0 false false then
      exists t new, time s' = SCHEDULER_TIME /\ running s' = t /\
        (t, queue s') = elected false 100 900
          (filter (fun t => keep sample_sched t) (queue sample_sched) ++ new) /\
        Forall (has_state THREAD_STATE_RUNNING s') new /\ reaps (queue sample_sched) sample_sched s' /\
        (length (queue s') + nblocked s' <= length (queue sample_sched) + nblocked sample_sched)%nat /\
        r = (if t =? 100 then None else Some t)
    else r = None /\ s' = s0).
Proof.
  apply (scheduler_update_elects 5 sample_sched false false);
    [done|done|done|apply sample_sched_wf|vm_compute; lia|by left].
Defined.

Lemma scheduler_round_robin_witness :
  wp (elections 3) sample_sched (fun l s' => l = [400; 300; 100] /\ s' = sample_sched).
Proof. apply (scheduler_round_robin sample_sched); [apply sample_sched_wf|done]. Defined.

Lemma scheduler_event_notify_wakes_witness :
  wp (scheduler_event_notify SCHED_EV_TIMER 7) sample_sched (fun _ s' =>
    let woken := filter (fun t => waits_for sample_sched SCHED_EV_TIMER 7 t) [200] in
    sched_lock s' = false /\ event_lock s' = false /\
    queue s' = queue sample_sched ++ woken /\
    waiting s' = <[0%nat := filter (fun t => ~ waits_for sample_sched SCHED_EV_TIMER 7 t) [200]]>
                   (waiting sample_sched) /\
    Forall (has_state THREAD_STATE_RUNNING s') woken /\
    (forall x, x ∉ woken -> threads s' !! x = threads sample_sched !! x)).
Proof.
  apply (scheduler_event_notify_wakes sample_sched SCHED_EV_TIMER 7 [200]); try done.
  - apply NoDup_singleton.
  - intros t ->%list_elem_of_singleton. split; [vm_compute; eauto|].
    intros _. apply (bool_decide_unpack _). by vm_compute.
Defined.

Lemma thread_block_window_witness :
  (100 ∈ queue sample_sched ->
   (thread_block_prepare 100 2 0 ;;; scheduler_event_notify 2 0) sample_sched = Undef) /\
  ((100 ∉ queue sample_sched) ->
   wp (thread_block_prepare 100 2 0 ;;; scheduler_event_notify 2 0 ;;;
       thread_block_commit 5 100) sample_sched (fun r s' =>
     r = None /\ sched_lock s' = false /\ has_state THREAD_STATE_RUNNING s' 100 /\
     queue s' = queue sample_sched ++ [100])).
Proof.
  apply (thread_block_window 5 sample_sched 100 2 0 []); try done.
  - constructor.
  - apply not_elem_of_nil.
  - intros x []%not_elem_of_nil.
Defined.

Lemma scheduler_first_tick_witness :
  (scheduler_initialize ;;; scheduler_update 5 false false) sample_sched = Undef.
Proof. apply (scheduler_first_tick sample_sched 5 false). by vm_compute. Defined.

End Scheduler.
