(* ===== verification/Interrupt.v ===== *)
(** Interrupts: kernel/core/interrupt.c, the system calls of
    kernel/core/syscall/interrupt.c with the wait queue of
    include/kernel/proc/wait_queue.h, and for the PC kernel/arch/i386/pic.c and
    kernel/glue/i386-pc/interrupt.c.

    A port of the interrupt controllers is the last byte written to it: that is
    what reading a data port gives once [pic_initialize] is done, the mask of the
    controller.  A callback is [user_interrupt_callback] or the address of one of
    the kernel's handlers; what these do is the class [Handlers].  The field
    [interrupts] of [struct thread] is kept here, by the address of the thread.

    The state is the part [intr] of the kernel next to the scheduler ([HasIntr]). *)

From S2P Require Import Prelude Scheduler.

Module Interrupt.
Export Scheduler.

Definition MAX_IRQ_NUMBER : Z := 255.
Definition IRQ_PAGE_FAULT : Z := 14.
Definition IRQ_USER_BEGIN : Z := 33.
Definition IRQ_USER_END : Z := 47.
Definition IRQ_USER_SIZE : Z := 1 + IRQ_USER_END - IRQ_USER_BEGIN.
Definition INTERRUPT_NONE : Z := 0.
Definition INTERRUPT_CALLBACK : Z := 1.
Definition INTERRUPT_REGISTERED : Z := Z.shiftl 1 0.
Definition INTERRUPT_FIRED : Z := Z.shiftl 1 1.
Definition PIC_MASTER_CMD : Z := 32.
Definition PIC_MASTER_DATA : Z := 33.
Definition PIC_SLAVE_CMD : Z := 160.
Definition PIC_SLAVE_DATA : Z := 161.
Definition PIC_START_IRQ : Z := 32.
Definition PIC_END_IRQ : Z := 47.
Definition PIC_EOI : Z := 32.

Inductive handler := Null | User | Kernel (a : Z).

Record interrupt_entry := { type : Z; callback : handler }.

(** [struct irq]; its wait queue is the lock and the threads. *)
Record irq := { irq_thread : Z; irq_lock : bool; irq_threads : list Z }.

Record intr := {
  interrupt_entries : list interrupt_entry;
  interrupts : list irq;
  ports : gmap Z Z;
  thread_interrupts : gmap Z (list Z);
}.

Definition set_entries (l : list interrupt_entry) (i : intr) : intr :=
  {| interrupt_entries := l; interrupts := interrupts i; ports := ports i;
     thread_interrupts := thread_interrupts i |}.
Definition set_interrupts (l : list irq) (i : intr) : intr :=
  {| interrupt_entries := interrupt_entries i; interrupts := l; ports := ports i;
     thread_interrupts := thread_interrupts i |}.
Definition set_ports (m : gmap Z Z) (i : intr) : intr :=
  {| interrupt_entries := interrupt_entries i; interrupts := interrupts i; ports := m;
     thread_interrupts := thread_interrupts i |}.
Definition set_thread_interrupts (m : gmap Z (list Z)) (i : intr) : intr :=
  {| interrupt_entries := interrupt_entries i; interrupts := interrupts i; ports := ports i;
     thread_interrupts := m |}.

(** ** pic.c *)

Definition outb (port value : Z) : M intr unit :=
  modify (fun i => set_ports (<[port := u8 value]> (ports i)) i).
Definition inb (port : Z) : M intr Z :=
  let! i := get in ret (default 0 (ports i !! port)).

Definition pic_initialize : M intr unit :=
  outb PIC_MASTER_CMD 0x11 ;;;
  outb PIC_SLAVE_CMD 0x11 ;;;
  outb PIC_MASTER_DATA 0x20 ;;;
  outb PIC_SLAVE_DATA 0x28 ;;;
  outb PIC_MASTER_DATA 0x4 ;;;
  outb PIC_SLAVE_DATA 0x2 ;;;
  outb PIC_MASTER_DATA 0x1 ;;;
  outb PIC_SLAVE_DATA 0x1 ;;;
  outb PIC_MASTER_DATA 0xFB ;;;
  outb PIC_SLAVE_DATA 0xFF.

Definition pic_acnowledge (irq : Z) : M intr unit :=
  (if irq >? 7 then outb PIC_SLAVE_CMD PIC_EOI else ret tt) ;;;
  outb PIC_MASTER_CMD PIC_EOI.

(** The port and the bit of an interrupt line. *)
Definition pic_line (irq : Z) : Z * Z :=
  if irq <? 8 then (PIC_MASTER_DATA, irq) else (PIC_SLAVE_DATA, irq - 8).

Definition pic_mask (irq : Z) : M intr unit :=
  let '(port, bit) := pic_line irq in
  let! value := inb port in
  outb port (u8 (Z.lor value (Z.shiftl 1 bit))).

Definition pic_unmask (irq : Z) : M intr unit :=
  let '(port, bit) := pic_line irq in
  let! value := inb port in
  outb port (u8 (Z.land value (Z.lnot (Z.shiftl 1 bit)))).

(** ** kernel/glue/i386-pc/interrupt.c *)

Definition i386_interrupt_acknowledge (irq : Z) : M intr Z :=
  (if (irq >=? PIC_START_IRQ) && (irq <=? PIC_END_IRQ) then pic_acnowledge irq else ret tt) ;;;
  ret 1.

Definition i386_interrupt_mask (irq : Z) : M intr Z :=
  if (irq <? PIC_START_IRQ) || (irq >? PIC_END_IRQ) then ret 1
  else pic_mask (irq - PIC_START_IRQ) ;;; ret 1.

Definition i386_interrupt_unmask (irq : Z) : M intr Z :=
  if (irq <? PIC_START_IRQ) || (irq >? PIC_END_IRQ) then ret 1
  else pic_unmask (irq - PIC_START_IRQ) ;;; ret 1.

(** ** kernel/core/interrupt.c *)

Definition entry_at (irq : Z) : M intr interrupt_entry := fun i =>
  match (if irq <? 0 then None else interrupt_entries i !! Z.to_nat irq) with
  | Some e => Done (e, i)
  | None => Undef
  end.
Definition set_entry (irq : Z) (e : interrupt_entry) : M intr unit :=
  modify (fun i => set_entries (<[Z.to_nat irq := e]> (interrupt_entries i)) i).

Definition interrupt_acnowledge (irq : Z) : M intr unit :=
  i386_interrupt_acknowledge irq ;;; ret tt.
Definition interrupt_mask (irq : Z) : M intr unit := i386_interrupt_mask irq ;;; ret tt.
Definition interrupt_unmask (irq : Z) : M intr unit := i386_interrupt_unmask irq ;;; ret tt.

Definition interrupt_register (irq ty : Z) (cb : handler) : M intr Z :=
  if ty =? INTERRUPT_NONE then ret (- EINVAL)
  else if (irq <? 0) || (irq >? MAX_IRQ_NUMBER) then ret (- EINVAL)
  else
    let! e := entry_at irq in
    if negb (type e =? INTERRUPT_NONE) then ret (- EEXIST)
    else
      set_entry irq {| type := ty; callback := cb |} ;;;
      interrupt_unmask irq ;;;
      ret 0.

Definition interrupt_unregister (irq : Z) : M intr unit :=
  if (irq <? 0) || (irq >? MAX_IRQ_NUMBER) then ret tt
  else
    interrupt_mask irq ;;;
    let! e := entry_at irq in
    set_entry irq {| type := INTERRUPT_NONE; callback := callback e |}.

(** [page_fault]: the address of the handler of page faults.  The tables of the
    processor (mp_parse_tables, idt_initialize) are not in the state. *)
Definition i386_interrupt_initialize (page_fault : Z) : M intr Z :=
  pic_initialize ;;;
  interrupt_register IRQ_PAGE_FAULT INTERRUPT_CALLBACK (Kernel page_fault).

Definition interrupt_initialize (page_fault : Z) : M intr unit :=
  modify (set_entries (replicate (Z.to_nat (MAX_IRQ_NUMBER + 1))
                         {| type := INTERRUPT_NONE; callback := Null |})) ;;;
  let! r := i386_interrupt_initialize page_fault in
  if r <? 0 then kernel_panic "Failed to initialize interruption" else ret tt.

(** ** The rest of the kernel *)

Class HasIntr (W : Type) := {
  intr_of : W -> intr;
  set_intr : intr -> W -> W;
  intr_of_set : forall i w, intr_of (set_intr i w) = i;
  set_intr_of : forall w, set_intr (intr_of w) w = w;
  set_intr_set : forall i j w, set_intr i (set_intr j w) = set_intr i w;
}.

(** The handlers of the kernel, by their address. *)
Class Handlers (W : Type) := {
  handle : Z -> Z -> M (sched W) unit;
}.

Section calls.
Context {W : Type} `{!HasIntr W} `{!ReaperOp W} `{!Handlers W}.

Definition set_world (w : W) (s : sched W) : sched W :=
  {| time := time s; running := running s; idle := idle s; thread_num := thread_num s;
     sched_lock := sched_lock s; queue := queue s; event_lock := event_lock s;
     waiting := waiting s; threads := threads s; world := w |}.

Definition intr_s (s : sched W) : intr := intr_of (world s).
Definition set_intr_s (i : intr) (s : sched W) : sched W := set_world (set_intr i (world s)) s.
Definition on_intr {A} (m : M intr A) : M (sched W) A := zoom intr_s set_intr_s m.

(** [&interrupts[u]] *)
Definition irq_at (u : Z) : M intr irq := fun i =>
  match (if u <? 0 then None else interrupts i !! Z.to_nat u) with
  | Some r => Done (r, i)
  | None => Undef
  end.
Definition update_irq (u : Z) (f : irq -> irq) : M intr unit :=
  let! r := irq_at u in
  modify (fun i => set_interrupts (<[Z.to_nat u := f r]> (interrupts i)) i).

(** [t->interrupts[u]] *)
Definition flag_at (t u : Z) : M intr Z := fun i =>
  match thread_interrupts i !! t with
  | Some l =>
      match (if u <? 0 then None else l !! Z.to_nat u) with
      | Some v => Done (v, i)
      | None => Undef
      end
  | None => Undef
  end.
Definition set_flag (t u v : Z) : M intr unit :=
  flag_at t u ;;;
  modify (fun i => set_thread_interrupts
    (alter (fun l => <[Z.to_nat u := u8 v]> l) t (thread_interrupts i)) i).

Definition with_thread (t : Z) (r : irq) : irq :=
  {| irq_thread := t; irq_lock := irq_lock r; irq_threads := irq_threads r |}.
Definition with_threads (l : list Z) (r : irq) : irq :=
  {| irq_thread := irq_thread r; irq_lock := irq_lock r; irq_threads := l |}.
Definition with_irq_lock (b : bool) (r : irq) : irq :=
  {| irq_thread := irq_thread r; irq_lock := b; irq_threads := irq_threads r |}.

(** ** include/kernel/proc/wait_queue.h, on the queue of an interrupt *)

Definition wait_queue_init (u : Z) : M intr unit :=
  update_irq u (fun r => with_irq_lock false (with_threads [] r)).

Definition lock_queue (u : Z) : M (sched W) unit :=
  let! r := on_intr (irq_at u) in
  if irq_lock r then (fun _ => Spin) else on_intr (update_irq u (with_irq_lock true)).
Definition unlock_queue (u : Z) : M (sched W) unit :=
  on_intr (update_irq u (with_irq_lock false)).

Definition wait_queue_notify (u : Z) : M (sched W) unit :=
  lock_queue u ;;;
  let! r := on_intr (irq_at u) in
  (match irq_threads r with
   | [] => ret tt
   | t :: rest =>
       update_thread (set_state THREAD_STATE_RUNNING) t ;;;
       cpu_add_thread t ;;;
       on_intr (update_irq u (with_threads rest))
   end) ;;;
  unlock_queue u.

Definition fired (t u : Z) : M (sched W) bool :=
  let! v := on_intr (flag_at t u) in
  ret (negb (Z.land v INTERRUPT_FIRED =? 0)).

(** [wait_queue_wait] of thread [t], for the condition that the interrupt has
    fired: [Some t'] when the thread has left the processor to [t'], [None] when
    the condition holds.  [rounds] bounds the loop, [fuel] is that of the
    scheduler. *)
Fixpoint wait_queue_wait (rounds fuel : nat) (u t : Z) : M (sched W) (option Z) :=
  match rounds with
  | O => undef
  | S rounds =>
      lock_queue u ;;;
      let! cond := fired t u in
      if cond then unlock_queue u ;;; ret None
      else
        update_thread (set_state THREAD_STATE_BLOCKED) t ;;;
        let! r := on_intr (irq_at u) in
        (if decide (t ∈ irq_threads r) then undef
         else on_intr (update_irq u (with_threads (irq_threads r ++ [t])))) ;;;
        unlock_queue u ;;;
        spinlock_lock sched_lock set_lock ;;;
        let! next := scheduler_remove_thread fuel t in
        match next with
        | Some t' => ret (Some t')
        | None =>
            let! cond := fired t u in
            if cond then ret None else wait_queue_wait rounds fuel u t
        end
  end.

(** ** kernel/core/syscall/interrupt.c *)

Definition user_interrupt_callback (irq_num : Z) : M (sched W) unit :=
  let u := irq_num - IRQ_USER_BEGIN in
  let! r := on_intr (irq_at u) in
  if irq_thread r =? 0 then ret tt
  else
    let! v := on_intr (flag_at (irq_thread r) u) in
    on_intr (set_flag (irq_thread r) u (Z.lor v INTERRUPT_FIRED)) ;;;
    wait_queue_notify u.

(** [console_message] for an interrupt nobody handles has no effect on the state. *)
Definition interrupt_dispatch (irq_num : Z) : M (sched W) unit :=
  on_intr (interrupt_acnowledge irq_num) ;;;
  if irq_num >=? MAX_IRQ_NUMBER then kernel_panic "Invalid IRQ number"
  else
    let! e := on_intr (entry_at irq_num) in
    if type e =? INTERRUPT_CALLBACK then
      match callback e with
      | User => user_interrupt_callback irq_num
      | Kernel a => handle a irq_num
      | Null => undef
      end
    else ret tt.

Definition sys_interrupt_register (irq_num : Z) : M (sched W) Z :=
  let u := irq_num - IRQ_USER_BEGIN in
  let! s := get in
  let t := running s in
  if (irq_num <? IRQ_USER_BEGIN) || (irq_num >? IRQ_USER_END) then ret (- EINVAL)
  else
    let! v := on_intr (flag_at t u) in
    if negb (Z.land v INTERRUPT_REGISTERED =? 0) then ret (- EBUSY)
    else
      on_intr (set_flag t u INTERRUPT_REGISTERED) ;;;
      on_intr (update_irq u (with_thread t)) ;;;
      on_intr (wait_queue_init u) ;;;
      let! err := on_intr (interrupt_register irq_num INTERRUPT_CALLBACK User) in
      if err <? 0 then
        on_intr (set_flag t u 0) ;;;
        on_intr (update_irq u (with_thread 0)) ;;;
        ret err
      else ret 0.

Definition sys_interrupt_unregister (irq_num : Z) : M (sched W) Z :=
  let u := irq_num - IRQ_USER_BEGIN in
  let! s := get in
  let t := running s in
  if (irq_num <? IRQ_USER_BEGIN) || (irq_num >? IRQ_USER_END) then ret 0
  else
    let! v := on_intr (flag_at t u) in
    if Z.land v INTERRUPT_REGISTERED =? 0 then ret 0
    else
      on_intr (interrupt_unregister irq_num) ;;;
      on_intr (set_flag t u 0) ;;;
      on_intr (update_irq u (with_thread 0)) ;;;
      ret 0.

(** A system call that may block: it returns a value, or control is now in
    another thread. *)
Inductive outcome_of_call := Return (v : Z) | Switched (t : Z).

(** What [sys_interrupt_listen] does when the wait is over. *)
Definition listen_return (t irq_num : Z) : M (sched W) outcome_of_call :=
  let u := irq_num - IRQ_USER_BEGIN in
  let! v := on_intr (flag_at t u) in
  on_intr (set_flag t u (Z.land v (Z.lnot INTERRUPT_FIRED))) ;;;
  ret (Return irq_num).

Definition sys_interrupt_listen (fuel : nat) (irq_num : Z) : M (sched W) outcome_of_call :=
  let u := irq_num - IRQ_USER_BEGIN in
  let! s := get in
  let t := running s in
  if (irq_num <? IRQ_USER_BEGIN) || (irq_num >? IRQ_USER_END) then ret (Return (-1))
  else
    let! v := on_intr (flag_at t u) in
    if Z.land v INTERRUPT_REGISTERED =? 0 then ret (Return (-1))
    else if negb (Z.land v INTERRUPT_FIRED =? 0) then listen_return t irq_num
    else
      let! next := wait_queue_wait 2 fuel u t in
      match next with
      | Some t' => ret (Switched t')
      | None => listen_return t irq_num
      end.

(** The thread [t], blocked in [sys_interrupt_listen], is elected again: it goes on
    with the test of the loop of [wait_queue_wait]. *)
Definition sys_interrupt_listen_resume (fuel : nat) (t irq_num : Z) : M (sched W) outcome_of_call :=
  let u := irq_num - IRQ_USER_BEGIN in
  let! cond := fired t u in
  if cond then listen_return t irq_num
  else
    let! next := wait_queue_wait 2 fuel u t in
    match next with
    | Some t' => ret (Switched t')
    | None => listen_return t irq_num
    end.

End calls.

(** ** The lines of the controllers *)

Definition byte_at (p : Z) (i : intr) : Z := default 0 (ports i !! p).

(** Whether the interrupt [irq] of the controllers is masked. *)
Definition masked (i : intr) (irq : Z) : bool :=
  let '(port, bit) := pic_line (irq - PIC_START_IRQ) in Z.testbit (byte_at port i) bit.

Definition on_pic (irq : Z) : Prop := PIC_START_IRQ <= irq <= PIC_END_IRQ.

(** The line on which the slave controller reports to the master. *)
Definition CASCADE : Z := 34.

Definition entry (i : intr) (irq : Z) : option interrupt_entry := interrupt_entries i !! Z.to_nat irq.

(** A line with a handler may fire.  A line without one may not, except for the cascade:
    [pic_initialize] leaves it unmasked (0xFB), and it stays so until a thread has
    registered and unregistered it. *)
Record lines_ok (i : intr) : Prop := {
  lines_unmasked : forall irq e, on_pic irq -> entry i irq = Some e -> type e <> INTERRUPT_NONE -> masked i irq = false;
  lines_entries : length (interrupt_entries i) = Z.to_nat (MAX_IRQ_NUMBER + 1);
  lines_masked : forall irq e, on_pic irq -> irq <> CASCADE -> entry i irq = Some e ->
    masked i irq = bool_decide (type e = INTERRUPT_NONE);
}.

Lemma set_bit_spec v b k :
  0 <= b < 8 -> 0 <= k < 8 -> Z.testbit (u8 (u8 (Z.lor v (Z.shiftl 1 b)))) k = Z.testbit v k || (b =? k).
Proof.
  intros Hb Hk. unfold u8. rewrite Zmod_mod, Z.mod_pow2_bits_low, Z.lor_spec, Z.shiftl_1_l by lia.
  rewrite Z.pow2_bits_eqb by lia. done.
Qed.

Lemma clear_bit_spec v b k :
  0 <= b < 8 -> 0 <= k < 8 ->
  Z.testbit (u8 (u8 (Z.land v (Z.lnot (Z.shiftl 1 b))))) k = Z.testbit v k && negb (b =? k).
Proof.
  intros Hb Hk. unfold u8. rewrite Zmod_mod, Z.mod_pow2_bits_low, Z.land_spec, Z.lnot_spec, Z.shiftl_1_l by lia.
  rewrite Z.pow2_bits_eqb by lia. done.
Qed.

(** A line of the controllers, with the bounds of its bit; different interrupts are
    different lines. *)
Lemma pic_line_bit irq : 0 <= irq < 16 -> 0 <= (pic_line irq).2 < 8.
Proof. unfold pic_line. intros H. destruct (Z.ltb_spec irq 8); simpl; lia. Qed.

Lemma pic_line_inj a b : pic_line a = pic_line b -> a = b.
Proof. unfold pic_line. destruct (a <? 8), (b <? 8); intros [=]; lia. Qed.

(** [i'] is [i] with the byte of a line rewritten. *)
Definition line_set (irq : Z) (v : bool) (i i' : intr) : Prop :=
  (exists p, i' = set_ports p i) /\
  forall irq', on_pic irq' -> masked i' irq' = if irq' =? irq then v else masked i irq'.

Lemma write_line irq v w i :
  on_pic irq ->
  let '(port, bit) := pic_line (irq - PIC_START_IRQ) in
  (forall k, 0 <= k < 8 -> Z.testbit (u8 w) k = if bit =? k then v else Z.testbit (byte_at port i) k) ->
  line_set irq v i (set_ports (<[port := u8 w]> (ports i)) i).
Proof.
  intros Hirq. destruct (pic_line (irq - PIC_START_IRQ)) as [port bit] eqn:Hl. intros Hw.
  split; [eauto|]. intros irq' Hirq'. unfold masked, byte_at. simpl. unfold on_pic, PIC_START_IRQ, PIC_END_IRQ in *.
  pose proof (pic_line_bit (irq' - 32) ltac:(lia)) as Hb.
  destruct (pic_line (irq' - 32)) as [port' bit'] eqn:Hl'. simpl in Hb.
  destruct (decide (port = port')) as [<-|Hp].
  - rewrite lookup_insert_eq. simpl. rewrite Hw by done.
    destruct (Z.eqb_spec irq' irq) as [->|Hne].
    + rewrite Hl in Hl'. injection Hl' as ->. by rewrite Z.eqb_refl.
    + destruct (Z.eqb_spec bit bit') as [->|]; [|done].
      exfalso. apply Hne. assert (irq' - 32 = irq - 32) by (apply pic_line_inj; congruence). lia.
  - rewrite lookup_insert_ne by done. destruct (Z.eqb_spec irq' irq) as [->|]; [|done]. congruence.
Qed.

Lemma interrupt_mask_ok irq i :
  wp (interrupt_mask irq) i (fun _ i' => if decide (on_pic irq) then line_set irq true i i' else i' = i).
Proof.
  unfold interrupt_mask, i386_interrupt_mask. step.
  destruct (decide (on_pic irq)) as [Hon|Hoff]; unfold on_pic, PIC_START_IRQ, PIC_END_IRQ in *.
  - destruct (Z.ltb_spec irq 32); [lia|]. destruct (Z.gtb_spec irq 47); [lia|]. simpl.
    pose proof (write_line irq true) as Hset. pose proof (pic_line_bit (irq - 32) ltac:(lia)) as Hb.
    unfold pic_mask. unfold PIC_START_IRQ in *. destruct (pic_line (irq - 32)) as [port bit].
    steps. apply Hset; [done|]. intros k Hk. fold (byte_at port i). rewrite set_bit_spec by done.
    destruct (bit =? k); [by rewrite orb_true_r|by rewrite orb_false_r].
  - destruct (Z.ltb_spec irq 32); [by steps|]. destruct (Z.gtb_spec irq 47); [by steps|lia].
Qed.

Lemma interrupt_unmask_ok irq i :
  wp (interrupt_unmask irq) i (fun _ i' => if decide (on_pic irq) then line_set irq false i i' else i' = i).
Proof.
  unfold interrupt_unmask, i386_interrupt_unmask. step.
  destruct (decide (on_pic irq)) as [Hon|Hoff]; unfold on_pic, PIC_START_IRQ, PIC_END_IRQ in *.
  - destruct (Z.ltb_spec irq 32); [lia|]. destruct (Z.gtb_spec irq 47); [lia|]. simpl.
    pose proof (write_line irq false) as Hset. pose proof (pic_line_bit (irq - 32) ltac:(lia)) as Hb.
    unfold pic_unmask. unfold PIC_START_IRQ in *. destruct (pic_line (irq - 32)) as [port bit].
    steps. apply Hset; [done|]. intros k Hk. fold (byte_at port i). rewrite clear_bit_spec by done.
    destruct (bit =? k); [by rewrite andb_false_r|by rewrite andb_true_r].
  - destruct (Z.ltb_spec irq 32); [by steps|]. destruct (Z.gtb_spec irq 47); [by steps|lia].
Qed.

(** [i] with a new entry and new masks. *)
Definition relined (irq : Z) (e : interrupt_entry) (i i' : intr) : Prop :=
  exists p, i' = set_ports p (set_entries (<[Z.to_nat irq := e]> (interrupt_entries i)) i).

Lemma lines_ok_update i p irq e :
  lines_ok i -> 0 <= irq <= MAX_IRQ_NUMBER ->
  (forall irq', on_pic irq' ->
    masked (set_ports p i) irq' = if irq' =? irq then bool_decide (type e = INTERRUPT_NONE) else masked i irq') ->
  lines_ok (set_ports p (set_entries (<[Z.to_nat irq := e]> (interrupt_entries i)) i)).
Proof.
  intros [Hun Hl Hm] Hirq Hp. unfold MAX_IRQ_NUMBER in *. split; simpl; [|by rewrite length_insert|].
  { intros irq' e' Hon. unfold entry. simpl. change (masked (set_ports p (set_entries _ i)) irq') with (masked (set_ports p i) irq').
    rewrite Hp by done. unfold on_pic, PIC_START_IRQ in Hon. destruct (Z.eqb_spec irq' irq) as [->|Hne].
    - rewrite list_lookup_insert_eq by lia. intros [= ->] Hty. by apply bool_decide_false.
    - rewrite list_lookup_insert_ne by lia. by apply Hun. }
  intros irq' e' Hon Hc. unfold entry. simpl. change (masked (set_ports p (set_entries _ i)) irq') with (masked (set_ports p i) irq').
  rewrite Hp by done. unfold on_pic, PIC_START_IRQ in Hon. destruct (Z.eqb_spec irq' irq) as [->|Hne].
  - rewrite list_lookup_insert_eq by lia. by intros [= ->].
  - rewrite list_lookup_insert_ne by lia. by apply Hm.
Qed.

Lemma entry_exists i irq : lines_ok i -> 0 <= irq <= MAX_IRQ_NUMBER -> is_Some (entry i irq).
Proof. intros [_ Hl _] Hirq. apply lookup_lt_is_Some. rewrite Hl. unfold MAX_IRQ_NUMBER in *. lia. Qed.

Lemma wp_entry i irq e (Q : interrupt_entry -> intr -> Prop) :
  0 <= irq -> entry i irq = Some e -> Q e i -> wp (entry_at irq) i Q.
Proof. intros Hirq He HQ. unfold wp, entry_at. destruct (Z.ltb_spec irq 0); [lia|]. unfold entry in He. by rewrite He. Qed.

Lemma interrupt_register_ok irq ty cb i e :
  lines_ok i -> ty <> INTERRUPT_NONE -> 0 <= irq <= MAX_IRQ_NUMBER -> entry i irq = Some e ->
  wp (interrupt_register irq ty cb) i (fun r i' =>
    if decide (type e = INTERRUPT_NONE)
    then r = 0 /\ lines_ok i' /\ relined irq {| type := ty; callback := cb |} i i'
    else r = - EEXIST /\ i' = i).
Proof.
  intros Hok Hty Hirq He. unfold interrupt_register. rewrite (proj2 (Z.eqb_neq ty _)) by done.
  unfold MAX_IRQ_NUMBER in *. destruct (Z.ltb_spec irq 0); [lia|]. destruct (Z.gtb_spec irq 255); [lia|]. simpl.
  step. eapply wp_entry; [lia|done|]. destruct (Z.eqb_spec (type e) INTERRUPT_NONE) as [E|E]; simpl.
  2:{ step. by rewrite decide_False. }
  apply wp_bind, wp_modify, wp_bind.
  eapply wp_mono; [apply interrupt_unmask_ok|]. intros ? i' Hi'. step. rewrite decide_True by done. split; [done|].
  set (e' := {| type := ty; callback := cb |}) in *.
  destruct (decide (on_pic irq)) as [Hon|Hoff].
  - destruct Hi' as [[p ->] Hm]. split; [|by exists p]. apply lines_ok_update; [done..|].
    intros irq' Hon'. pose proof (Hm irq' Hon') as Hm'.
    change (masked (set_ports p i) irq' = if irq' =? irq then false else masked i irq') in Hm'.
    rewrite Hm'. rewrite bool_decide_false by done. done.
  - subst i'. assert (set_entries (<[Z.to_nat irq := e']> (interrupt_entries i)) i =
      set_ports (ports i) (set_entries (<[Z.to_nat irq := e']> (interrupt_entries i)) i)) as -> by done.
    split; [|by eexists]. apply lines_ok_update; [done..|]. intros irq' Hon'.
    destruct (Z.eqb_spec irq' irq) as [->|]; [done|]. by destruct i.
Qed.

Lemma interrupt_unregister_ok irq i e :
  lines_ok i -> 0 <= irq <= MAX_IRQ_NUMBER -> entry i irq = Some e ->
  wp (interrupt_unregister irq) i (fun _ i' =>
    lines_ok i' /\ relined irq {| type := INTERRUPT_NONE; callback := callback e |} i i').
Proof.
  intros Hok Hirq He. unfold interrupt_unregister. unfold MAX_IRQ_NUMBER in *.
  destruct (Z.ltb_spec irq 0); [lia|]. destruct (Z.gtb_spec irq 255); [lia|]. simpl.
  step. eapply wp_mono; [apply interrupt_mask_ok|]. intros ? i' Hi'. step.
  set (e' := {| type := INTERRUPT_NONE; callback := callback e |}) in *.
  assert (exists p, i' = set_ports p i /\ forall irq', on_pic irq' ->
    masked (set_ports p i) irq' = if irq' =? irq then true else masked i irq') as (p & -> & Hm).
  { destruct (decide (on_pic irq)) as [Hon|Hoff].
    - destruct Hi' as [[p ->] Hm]. by exists p.
    - subst i'. exists (ports i). split; [by destruct i|]. intros irq' Hon'.
      destruct (Z.eqb_spec irq' irq) as [->|]; [done|]. by destruct i. }
  eapply wp_entry; [lia|done|]. step.
  change (set_entries _ (set_ports p i)) with (set_ports p (set_entries (<[Z.to_nat irq := e']> (interrupt_entries i)) i)).
  split; [|by exists p]. by apply lines_ok_update.
Qed.

(** ** The interrupts of threads *)

Definition flag (i : intr) (t u : Z) : option Z :=
  l ← thread_interrupts i !! t; l !! Z.to_nat u.
Definition irq_of (i : intr) (u : Z) : option irq := interrupts i !! Z.to_nat u.
Definition user_irq (u : Z) : Prop := 0 <= u < IRQ_USER_SIZE.

Definition user_entry : interrupt_entry := {| type := INTERRUPT_CALLBACK; callback := User |}.

(** The tables as functions of the user interrupt: its entry, the flag of a thread,
    its [struct irq]. *)
Definition has_flag (f : Z) (F : Z -> Z -> option Z) (t u : Z) : Prop :=
  exists v, F t u = Some v /\ Z.land v f <> 0.

(** An interrupt that a thread has registered calls [user_interrupt_callback] and
    belongs to no other thread; the thread this callback works on, if any, has
    registered the interrupt, and nobody else waits for it. *)
Record owners (E : Z -> option interrupt_entry) (F : Z -> Z -> option Z) (R : Z -> option irq) : Prop := {
  owners_entry : forall t u, user_irq u -> has_flag INTERRUPT_REGISTERED F t u -> E u = Some user_entry;
  owners_unique : forall t t' u, user_irq u ->
    has_flag INTERRUPT_REGISTERED F t u -> has_flag INTERRUPT_REGISTERED F t' u -> t = t';
  owners_target : forall u r, user_irq u -> E u = Some user_entry -> R u = Some r ->
    (irq_thread r = 0 /\ irq_threads r = []) \/
    (irq_thread r <> 0 /\ has_flag INTERRUPT_REGISTERED F (irq_thread r) u /\
     (irq_threads r = [] \/ irq_threads r = [irq_thread r]));
  owners_lock : forall u r, user_irq u -> R u = Some r -> irq_lock r = false;
}.

Definition user_entry_of (i : intr) (u : Z) : option interrupt_entry := entry i (u + IRQ_USER_BEGIN).

(** A flag is 0, registered, or registered and fired. *)
Definition is_flag (v : Z) : Prop := v = 0 \/ v = 1 \/ v = 3.

Record users_ok (i : intr) : Prop := {
  users_size : length (interrupts i) = Z.to_nat IRQ_USER_SIZE;
  users_flags : forall t l, thread_interrupts i !! t = Some l ->
    length l = Z.to_nat IRQ_USER_SIZE /\ Forall is_flag l;
  users_owners : owners (user_entry_of i) (flag i) (irq_of i);
}.

Definition intr_ok (i : intr) : Prop := lines_ok i /\ users_ok i.

Definition registered (i : intr) : Z -> Z -> Prop := has_flag INTERRUPT_REGISTERED (flag i).
Definition has_fired (i : intr) : Z -> Z -> Prop := has_flag INTERRUPT_FIRED (flag i).

Definition put_flag (t u v : Z) (i : intr) : intr :=
  set_thread_interrupts (alter (fun l => <[Z.to_nat u := v]> l) t (thread_interrupts i)) i.
Definition put_irq (u : Z) (r : irq) (i : intr) : intr :=
  set_interrupts (<[Z.to_nat u := r]> (interrupts i)) i.

Lemma wp_irq_at i u r (Q : irq -> intr -> Prop) :
  0 <= u -> irq_of i u = Some r -> Q r i -> wp (irq_at u) i Q.
Proof. intros Hu Hr HQ. unfold wp, irq_at. destruct (Z.ltb_spec u 0); [lia|]. unfold irq_of in Hr. by rewrite Hr. Qed.

Lemma wp_update_irq i u r f (Q : unit -> intr -> Prop) :
  0 <= u -> irq_of i u = Some r -> Q tt (put_irq u (f r) i) -> wp (update_irq u f) i Q.
Proof. intros Hu Hr HQ. unfold update_irq. apply wp_bind. by eapply wp_irq_at. Qed.

Lemma wp_flag_at i t u v (Q : Z -> intr -> Prop) :
  0 <= u -> flag i t u = Some v -> Q v i -> wp (flag_at t u) i Q.
Proof.
  intros Hu Hv HQ. unfold wp, flag_at. unfold flag in Hv.
  destruct (thread_interrupts i !! t) as [l|]; [|done]. simpl in Hv. destruct (Z.ltb_spec u 0); [lia|]. by rewrite Hv.
Qed.

Lemma wp_set_flag i t u v w (Q : unit -> intr -> Prop) :
  0 <= u -> flag i t u = Some v -> Q tt (put_flag t u (u8 w) i) -> wp (set_flag t u w) i Q.
Proof. intros Hu Hv HQ. unfold set_flag. apply wp_bind. by eapply wp_flag_at. Qed.

Lemma flag_put i t u w t' u' :
  0 <= u -> 0 <= u' -> is_Some (flag i t u) ->
  flag (put_flag t u w i) t' u' = if decide (t' = t /\ u' = u) then Some w else flag i t' u'.
Proof.
  intros Hu Hu' [v Hv]. unfold flag in *. simpl. destruct (decide (t' = t)) as [->|Ht].
  - rewrite lookup_alter_eq. destruct (thread_interrupts i !! t) as [l|]; [|done]. simpl in *.
    destruct (decide (u' = u)) as [->|Hne].
    + rewrite decide_True by done. apply list_lookup_insert_eq. by eapply lookup_lt_Some.
    + rewrite decide_False by naive_solver. apply list_lookup_insert_ne. lia.
  - rewrite decide_False by naive_solver. by rewrite lookup_alter_ne.
Qed.

Lemma irq_of_put i u r u' :
  0 <= u -> 0 <= u' -> is_Some (irq_of i u) ->
  irq_of (put_irq u r i) u' = if decide (u' = u) then Some r else irq_of i u'.
Proof.
  intros Hu Hu' [v Hv]. unfold irq_of in *. simpl. destruct (decide (u' = u)) as [->|Hne].
  - apply list_lookup_insert_eq. by eapply lookup_lt_Some.
  - apply list_lookup_insert_ne. lia.
Qed.

Lemma flags_put i t u w :
  (forall t l, thread_interrupts i !! t = Some l -> length l = Z.to_nat IRQ_USER_SIZE /\ Forall is_flag l) ->
  is_flag w ->
  forall t' l, thread_interrupts (put_flag t u w i) !! t' = Some l ->
    length l = Z.to_nat IRQ_USER_SIZE /\ Forall is_flag l.
Proof.
  intros Hf Hw t' l. simpl. destruct (decide (t' = t)) as [->|Hne].
  - rewrite lookup_alter_eq. destruct (thread_interrupts i !! t) as [l0|] eqn:Hl; [|done]. intros [= <-].
    destruct (Hf t l0 Hl) as [Hlen Hall]. rewrite length_insert. split; [done|]. by apply Forall_insert.
  - rewrite lookup_alter_ne by done. apply Hf.
Qed.

Lemma user_flag i t l u :
  users_ok i -> thread_interrupts i !! t = Some l -> user_irq u ->
  exists v, flag i t u = Some v /\ is_flag v.
Proof.
  intros Hok Hl Hu. destruct (users_flags i Hok t l Hl) as [Hlen Hall]. unfold flag. rewrite Hl. simpl.
  unfold user_irq, IRQ_USER_SIZE, IRQ_USER_END, IRQ_USER_BEGIN in *.
  destruct (lookup_lt_is_Some_2 l (Z.to_nat u)) as [v Hv]; [lia|].
  exists v. split; [done|]. by eapply (Forall_lookup_1 is_flag l).
Qed.

Lemma user_irq_of i u : users_ok i -> user_irq u -> exists r, irq_of i u = Some r /\ irq_lock r = false.
Proof.
  intros [Hs _ Hw] Hu. unfold user_irq, IRQ_USER_SIZE, IRQ_USER_END, IRQ_USER_BEGIN in *.
  destruct (lookup_lt_is_Some_2 (interrupts i) (Z.to_nat u)) as [r Hr]; [lia|].
  exists r. split; [done|]. by eapply (owners_lock _ _ _ Hw u).
Qed.

(** The entry of an interrupt after another entry has been written. *)
Lemma entry_relined i irq e p irq' e0 :
  entry i irq = Some e0 -> 0 <= irq -> 0 <= irq' ->
  entry (set_ports p (set_entries (<[Z.to_nat irq := e]> (interrupt_entries i)) i)) irq' =
  if decide (irq' = irq) then Some e else entry i irq'.
Proof.
  intros He Hi Hi'. unfold entry in *. simpl. destruct (decide (irq' = irq)) as [->|Hne].
  - apply list_lookup_insert_eq. by eapply lookup_lt_Some.
  - apply list_lookup_insert_ne. lia.
Qed.

(** *** What the calls do to the owners *)

(** The update of a table at one place. *)
Definition upd_at {A} (f : Z -> A) (x : Z) (a : A) (g : Z -> A) : Prop :=
  forall y, user_irq y -> g y = if decide (y = x) then a else f y.
Definition upd_flag (f : Z -> Z -> option Z) (t x v : Z) (g : Z -> Z -> option Z) : Prop :=
  forall t' y, user_irq y -> g t' y = if decide (t' = t /\ y = x) then Some v else f t' y.

Lemma has_flag_upd F F' t u b v t' y :
  upd_flag F t u v F' -> user_irq y ->
  has_flag b F' t' y <-> if decide (t' = t /\ y = u) then Z.land v b <> 0 else has_flag b F t' y.
Proof. intros HF Hy. unfold has_flag. rewrite HF by done. destruct (decide _); naive_solver. Qed.

Section owners.
Context {E E' : Z -> option interrupt_entry} {F F' : Z -> Z -> option Z} {R R' : Z -> option irq} {t u : Z}.
Hypothesis Hok : owners E F R.
Hypothesis Hu : user_irq u.

(** The thread takes a free interrupt. *)
Lemma owners_claim e :
  t <> 0 -> E u = Some e -> type e = INTERRUPT_NONE ->
  upd_at E u (Some user_entry) E' -> upd_flag F t u 1 F' ->
  upd_at R u (Some {| irq_thread := t; irq_lock := false; irq_threads := [] |}) R' ->
  owners E' F' R'.
Proof.
  intros Ht He Hnone HE HF HR. destruct Hok as [Hent Huni Htgt Hlk].
  assert (forall t', ~ has_flag INTERRUPT_REGISTERED F t' u) as Hfree.
  { intros t' Hreg. rewrite (Hent t' u Hu Hreg) in He. by simplify_eq. }
  split.
  - intros t' y Hy. rewrite (has_flag_upd F F' t u _ 1), HE by done. destruct (decide (y = u)) as [->|Hne]; [done|].
    rewrite decide_False by naive_solver. by apply Hent.
  - intros t1 t2 y Hy. rewrite !(has_flag_upd F F' t u _ 1) by done. destruct (decide (y = u)) as [->|Hne].
    + intros H1 H2. destruct (decide (t1 = t /\ u = u)); [|by destruct (Hfree t1)].
      destruct (decide (t2 = t /\ u = u)); [naive_solver|by destruct (Hfree t2)].
    + rewrite !decide_False by naive_solver. by apply Huni.
  - intros y r Hy. rewrite HE, HR, (has_flag_upd F F' t u _ 1) by done. destruct (decide (y = u)) as [->|Hne].
    + intros _ [= <-]. right. simpl. rewrite decide_True by done. auto.
    + rewrite decide_False by naive_solver. by apply Htgt.
  - intros y r Hy. rewrite HR by done. destruct (decide (y = u)); [by intros [= <-]|by apply Hlk].
Qed.

(** Only the [struct irq] changes, to one without a thread. *)
Lemma owners_forget :
  upd_at R u (Some {| irq_thread := 0; irq_lock := false; irq_threads := [] |}) R' -> owners E F R'.
Proof using Hok.
  clear E'. intros HR. destruct Hok as [Hent Huni Htgt Hlk]. split; [done..| |].
  - intros y r Hy. rewrite HR by done. destruct (decide (y = u)) as [->|]; [|by apply Htgt].
    intros _ [= <-]. by left.
  - intros y r Hy. rewrite HR by done. destruct (decide (y = u)); [by intros [= <-]|by apply Hlk].
Qed.

(** The thread gives up its interrupt. *)
Lemma owners_drop e r' :
  has_flag INTERRUPT_REGISTERED F t u -> type e = INTERRUPT_NONE -> irq_lock r' = false ->
  upd_at E u (Some e) E' -> upd_flag F t u 0 F' -> upd_at R u (Some r') R' ->
  owners E' F' R'.
Proof.
  intros Hreg Hnone Hlk' HE HF HR. destruct Hok as [Hent Huni Htgt Hlk]. split.
  - intros t' y Hy. rewrite (has_flag_upd F F' t u _ 0), HE by done.
    destruct (decide (t' = t /\ y = u)) as [[-> ->]|Hne]; [done|]. intros Hx.
    rewrite decide_False; [by eapply Hent|]. intros ->. apply Hne. split; [|done]. by eapply Huni.
  - intros t1 t2 y Hy. rewrite !(has_flag_upd F F' t u _ 0) by done.
    destruct (decide (t1 = t /\ y = u)), (decide (t2 = t /\ y = u)); try done. by apply Huni.
  - intros y r Hy. rewrite HE, HR, (has_flag_upd F F' t u _ 0) by done. destruct (decide (y = u)) as [->|Hne].
    + intros [= ->]. done.
    + rewrite decide_False by naive_solver. by apply Htgt.
  - intros y r Hy. rewrite HR by done. destruct (decide (y = u)); [by intros [= <-]|by apply Hlk].
Qed.

(** The interrupt of the thread fires, is waited for or is served. *)
Lemma owners_serve v r r' :
  has_flag INTERRUPT_REGISTERED F t u -> Z.land v INTERRUPT_REGISTERED <> 0 -> R u = Some r ->
  irq_thread r' = irq_thread r -> irq_lock r' = false ->
  (irq_threads r' = [] \/ irq_threads r' = [irq_thread r] /\ irq_thread r <> 0) ->
  upd_flag F t u v F' -> upd_at R u (Some r') R' ->
  owners E F' R'.
Proof using Hok.
  clear E'. intros Hreg Hv Hr Hth Hlk' Hw HF HR. destruct Hok as [Hent Huni Htgt Hlk].
  assert (forall t' y, user_irq y ->
    has_flag INTERRUPT_REGISTERED F' t' y <-> has_flag INTERRUPT_REGISTERED F t' y) as Hsame.
  { intros t' y Hy. rewrite (has_flag_upd F F' t u _ v) by done. destruct (decide _) as [[-> ->]|]; done. }
  split.
  - intros t' y Hy. rewrite Hsame by done. by apply Hent.
  - intros t1 t2 y Hy. rewrite !Hsame by done. by apply Huni.
  - intros y x Hy Hy'. rewrite HR, Hsame by done. destruct (decide (y = u)) as [->|Hne]; [|by apply Htgt].
    intros [= <-]. rewrite Hth. destruct (Htgt u r Hy Hy' Hr) as [[? ?]|(? & ? & ?)]; naive_solver.
  - intros y x Hy. rewrite HR by done. destruct (decide (y = u)); [by intros [= <-]|by apply Hlk].
Qed.
End owners.

Lemma upd_flag_put i t u v : user_irq u -> is_Some (flag i t u) -> upd_flag (flag i) t u v (flag (put_flag t u v i)).
Proof. intros Hu Hs t' y Hy. unfold user_irq in *. apply flag_put; [lia|lia|done]. Qed.

Lemma upd_at_put i u r : user_irq u -> is_Some (irq_of i u) -> upd_at (irq_of i) u (Some r) (irq_of (put_irq u r i)).
Proof. intros Hu Hs y Hy. unfold user_irq in *. apply irq_of_put; [lia|lia|done]. Qed.

Lemma upd_at_relined i u e p e0 :
  user_irq u -> user_entry_of i u = Some e0 ->
  upd_at (user_entry_of i) u (Some e) (user_entry_of (set_ports p (set_entries
    (<[Z.to_nat (u + IRQ_USER_BEGIN) := e]> (interrupt_entries i)) i))).
Proof.
  intros Hu He y Hy. unfold user_irq, user_entry_of, IRQ_USER_BEGIN in *.
  rewrite (entry_relined i _ _ _ _ e0) by (done || lia).
  destruct (decide (y = u)) as [->|]; [by rewrite decide_True|rewrite decide_False by lia; done].
Qed.

(** ** Code on the interrupts, from the scheduler *)

Section sched.
Context {W : Type} `{!HasIntr W} `{!ReaperOp W} `{!Handlers W}.
Implicit Types (s : sched W) (i : intr).

Lemma intr_set i s : intr_s (set_intr_s i s) = i.
Proof. apply intr_of_set. Qed.
Lemma set_intr_same s : set_intr_s (intr_s s) s = s.
Proof. unfold set_intr_s, intr_s. rewrite set_intr_of. by destruct s. Qed.
Lemma set_intr_twice i j s : set_intr_s i (set_intr_s j s) = set_intr_s i s.
Proof. unfold set_intr_s. simpl. by rewrite set_intr_set. Qed.

Lemma wp_on_intr {A} (m : M intr A) i s (Q : A -> sched W -> Prop) :
  wp m i (fun a i' => Q a (set_intr_s i' s)) -> wp (on_intr m) (set_intr_s i s) Q.
Proof.
  intros Hm. apply wp_zoom. rewrite intr_set. eapply wp_mono; [exact Hm|].
  intros a i' HQ. by rewrite set_intr_twice.
Qed.

Lemma user_irq_range irq : user_irq (irq - IRQ_USER_BEGIN) -> (irq <? IRQ_USER_BEGIN) || (irq >? IRQ_USER_END) = false.
Proof.
  unfold user_irq, IRQ_USER_SIZE, IRQ_USER_END, IRQ_USER_BEGIN. intros H.
  destruct (Z.ltb_spec irq 33); [lia|]. destruct (Z.gtb_spec irq 47); [lia|done].
Qed.
Lemma not_user_irq_range irq : ~ user_irq (irq - IRQ_USER_BEGIN) -> (irq <? IRQ_USER_BEGIN) || (irq >? IRQ_USER_END) = true.
Proof.
  unfold user_irq, IRQ_USER_SIZE, IRQ_USER_END, IRQ_USER_BEGIN. intros H.
  destruct (Z.ltb_spec irq 33); [done|]. destruct (Z.gtb_spec irq 47); [done|lia].
Qed.
#[local] Instance user_irq_dec u : Decision (user_irq u).
Proof. unfold user_irq. apply _. Defined.

Lemma put_flag_twice t u v w i : put_flag t u v (put_flag t u w i) = put_flag t u v i.
Proof.
  unfold put_flag. simpl. unfold set_thread_interrupts. f_equal.
  apply map_eq. intros x. destruct (decide (x = t)) as [->|]; [|by rewrite !lookup_alter_ne].
  rewrite !lookup_alter_eq. destruct (thread_interrupts i !! t); simpl; [|done]. f_equal. apply list_insert_insert_eq.
Qed.
Lemma put_flag_same t u v i : flag i t u = Some v -> put_flag t u v i = i.
Proof.
  unfold flag. intros Hv. destruct (thread_interrupts i !! t) as [l|] eqn:Hl; [|done]. simpl in Hv.
  unfold put_flag. replace (alter _ t _) with (thread_interrupts i); [by destruct i|].
  symmetry. apply map_eq. intros x. destruct (decide (x = t)) as [->|]; [|by rewrite lookup_alter_ne].
  rewrite lookup_alter_eq, Hl. simpl. f_equal. by apply list_insert_id.
Qed.
Lemma put_irq_twice u r r' i : put_irq u r (put_irq u r' i) = put_irq u r i.
Proof. unfold put_irq, set_interrupts. simpl. f_equal. apply list_insert_insert_eq. Qed.

(** The other interrupts are as before. *)
Definition untouched (u : Z) (i i' : intr) : Prop :=
  forall y, user_irq y -> y <> u -> irq_of i' y = irq_of i y /\ forall t, flag i' t y = flag i t y.

(** The states a call may leave. *)
Definition claimed (t u : Z) (i i' : intr) : Prop :=
  untouched u i i' /\ registered i' t u /\ user_entry_of i' u = Some user_entry /\
  irq_of i' u = Some {| irq_thread := t; irq_lock := false; irq_threads := [] |}.

Lemma claim_intr i t u e p :
  users_ok i -> user_irq u -> flag i t u = Some 0 -> t <> 0 ->
  user_entry_of i u = Some e -> type e = INTERRUPT_NONE ->
  let i' := set_ports p (set_entries (<[Z.to_nat (u + IRQ_USER_BEGIN) := user_entry]> (interrupt_entries i))
    (put_irq u {| irq_thread := t; irq_lock := false; irq_threads := [] |} (put_flag t u 1 i))) in
  users_ok i' /\ claimed t u i i'.
Proof.
  intros [Hs Hf Hw] Hu Hv Ht He Hn i'.
  assert (is_Some (irq_of i u)) as Hr by (destruct (user_irq_of i u) as (? & ? & _); [by split|done|eauto]).
  assert (upd_flag (flag i) t u 1 (flag i')) as HF by (apply (upd_flag_put i t u 1); eauto).
  pose (R := {| irq_thread := t; irq_lock := false; irq_threads := [] |}).
  assert (upd_at (irq_of i) u (Some R) (irq_of i')) as HR by (by apply (upd_at_put i u R)).
  assert (upd_at (user_entry_of i) u (Some user_entry) (user_entry_of i')) as HE by (by apply (upd_at_relined i u user_entry p e)).
  split; [split|].
  - simpl. by rewrite length_insert.
  - apply (flags_put i t u 1 Hf). unfold is_flag. auto.
  - by eapply (owners_claim Hw).
  - split_and!.
    + intros y Hy Hne. split; [by rewrite (HR y), decide_False|].
      intros t'. rewrite (HF t' y) by done. by rewrite decide_False by naive_solver.
    + exists 1. rewrite (HF t u) by done. by rewrite decide_True.
    + rewrite (HE u) by done. by rewrite decide_True.
    + rewrite (HR u) by done. by rewrite decide_True.
Qed.

Lemma sys_interrupt_register_ok s irq l :
  let i := intr_s s in
  let t := running s in
  let u := irq - IRQ_USER_BEGIN in
  intr_ok i -> t <> 0 -> thread_interrupts i !! t = Some l ->
  wp (sys_interrupt_register irq) s (fun r s' => exists i', s' = set_intr_s i' s /\ intr_ok i' /\
    ((~ user_irq u /\ r = - EINVAL /\ i' = i) \/
     (user_irq u /\ registered i t u /\ r = - EBUSY /\ i' = i) \/
     (user_irq u /\ ~ registered i t u /\ (exists e, user_entry_of i u = Some e /\ type e <> INTERRUPT_NONE) /\
      r = - EEXIST /\ i' = put_irq u {| irq_thread := 0; irq_lock := false; irq_threads := [] |} i) \/
     (user_irq u /\ (exists e, user_entry_of i u = Some e /\ type e = INTERRUPT_NONE) /\ r = 0 /\ claimed t u i i'))).
Proof.
  intros i t u [Hlines Husers] Ht Hl. rewrite <-(set_intr_same s) at 1. fold i.
  unfold sys_interrupt_register. apply wp_bind, wp_get. change (running (set_intr_s i s)) with t.
  destruct (decide (user_irq u)) as [Hu|Hu].
  2:{ rewrite not_user_irq_range by done. apply wp_ret. exists i. split_and!; [done..|]. by left. }
  rewrite user_irq_range by done. fold u. assert (0 <= u) as Hu0 by (unfold user_irq in Hu; lia).
  destruct (user_flag i t l u Husers Hl Hu) as (v & Hv & Hvs).
  apply wp_bind, wp_on_intr. eapply wp_flag_at; [done|done|].
  destruct (Z.eqb_spec (Z.land v INTERRUPT_REGISTERED) 0) as [Hz|Hz]; simpl.
  2:{ apply wp_ret. exists i. split_and!; [done..|]. right. left. split_and!; try done. by exists v. }
  assert (v = 0) as -> by (destruct Hvs as [->|[->| ->]]; done).
  assert (~ registered i t u) as Hnr by (intros (? & ? & ?); simplify_eq; done).
  destruct (user_irq_of i u Husers Hu) as (r & Hr & Hlk).
  apply wp_bind, wp_on_intr. eapply wp_set_flag; [done|done|].
  apply wp_bind, wp_on_intr. eapply wp_update_irq; [done|done|].
  apply wp_bind, wp_on_intr. set (i1 := put_irq u (with_thread t r) _).
  assert (irq_of i1 u = Some (with_thread t r)) as Hr1.
  { unfold i1. rewrite irq_of_put by (done || by eexists). by rewrite decide_True. }
  eapply wp_update_irq; [done|exact Hr1|]. apply wp_bind, wp_on_intr. unfold i1. rewrite put_irq_twice. clear i1 Hr1.
  set (i1 := put_irq u _ _).
  assert (lines_ok i1) as Hlines1 by (destruct Hlines; by split).
  assert (0 <= irq <= MAX_IRQ_NUMBER) as Hirq.
  { unfold user_irq, u, IRQ_USER_SIZE, IRQ_USER_BEGIN, IRQ_USER_END, MAX_IRQ_NUMBER in *. lia. }
  destruct (entry_exists i irq Hlines Hirq) as [e He].
  assert (user_entry_of i u = Some e) as Hue by (unfold user_entry_of, u; by rewrite Z.sub_add).
  eapply wp_mono; [by apply (interrupt_register_ok irq _ _ i1 e)|].
  intros err i2. destruct (decide (type e = INTERRUPT_NONE)) as [Hn|Hn].
  - intros (-> & Hlines2 & p & ->). simpl. apply wp_ret.
    destruct (claim_intr i t u e p Husers Hu Hv Ht Hue Hn) as [Husers2 Hclaim].
    unfold u in Husers2, Hclaim. rewrite Z.sub_add in Husers2, Hclaim. fold u in Husers2, Hclaim.
    eexists. split; [done|]. split; [by split|]. right. right. right. split_and!; eauto.
  - intros [-> ->]. simpl.
    assert (flag i1 t u = Some 1) as Hv1.
    { change (flag (put_flag t u 1 i) t u = Some 1). rewrite flag_put by (done || by eexists). by rewrite decide_True. }
    assert (is_Some (irq_of (put_flag t u (u8 INTERRUPT_REGISTERED) i) u)) as Hr1 by by exists r.
    apply wp_bind, wp_on_intr. eapply wp_set_flag; [done|exact Hv1|].
    apply wp_bind, wp_on_intr. eapply wp_update_irq; [done| |].
    { unfold i1. change (irq_of (put_flag t u (u8 0) ?x) u) with (irq_of x u). rewrite irq_of_put by done. by rewrite decide_True. }
    apply wp_ret. eexists. split; [done|].
    assert (put_irq u (with_thread 0 (with_irq_lock false (with_threads [] (with_thread t r)))) (put_flag t u (u8 0) i1) =
      put_irq u {| irq_thread := 0; irq_lock := false; irq_threads := [] |} i) as ->.
    { unfold i1. change (put_flag t u (u8 0) (put_irq u ?y ?x)) with (put_irq u y (put_flag t u 0 x)).
      rewrite put_irq_twice, put_flag_twice, put_flag_same by done. done. }
    split; [|right; right; left; split_and!; eauto].
    split; [destruct Hlines; by split|]. destruct Husers as [Hs Hf Hw]. split.
    + simpl. by rewrite length_insert.
    + done.
    + eapply (owners_forget Hw). apply (upd_at_put i u); eauto.
Qed.

Lemma sys_interrupt_unregister_ok s irq l :
  let i := intr_s s in
  let t := running s in
  let u := irq - IRQ_USER_BEGIN in
  intr_ok i -> thread_interrupts i !! t = Some l ->
  wp (sys_interrupt_unregister irq) s (fun r s' => exists i', s' = set_intr_s i' s /\ intr_ok i' /\ r = 0 /\
    ((~ (user_irq u /\ registered i t u) /\ i' = i) \/
     (user_irq u /\ registered i t u /\ untouched u i i' /\ (forall t', ~ registered i' t' u) /\
      exists e, user_entry_of i' u = Some e /\ type e = INTERRUPT_NONE))).
Proof.
  intros i t u [Hlines Husers] Hl. rewrite <-(set_intr_same s) at 1. fold i.
  unfold sys_interrupt_unregister. apply wp_bind, wp_get. change (running (set_intr_s i s)) with t.
  destruct (decide (user_irq u)) as [Hu|Hu].
  2:{ rewrite not_user_irq_range by done. apply wp_ret. exists i. split_and!; [done..|]. left. by split; [tauto|]. }
  rewrite user_irq_range by done. fold u. assert (0 <= u) as Hu0 by (unfold user_irq in Hu; lia).
  destruct (user_flag i t l u Husers Hl Hu) as (v & Hv & Hvs).
  apply wp_bind, wp_on_intr. eapply wp_flag_at; [done|done|].
  destruct (Z.eqb_spec (Z.land v INTERRUPT_REGISTERED) 0) as [Hz|Hz].
  { apply wp_ret. exists i. split_and!; [done..|]. left. split; [|done]. intros [_ (? & ? & ?)]. by simplify_eq. }
  assert (registered i t u) as Hreg by by exists v.
  destruct (user_irq_of i u Husers Hu) as (r & Hr & Hlk).
  assert (0 <= irq <= MAX_IRQ_NUMBER) as Hirq.
  { unfold user_irq, u, IRQ_USER_SIZE, IRQ_USER_BEGIN, IRQ_USER_END, MAX_IRQ_NUMBER in *. lia. }
  destruct (entry_exists i irq Hlines Hirq) as [e He].
  apply wp_bind, wp_on_intr. eapply wp_mono; [by apply (interrupt_unregister_ok irq i e)|].
  intros ? i1 [Hlines1 [p ->]]. set (i1 := set_ports p _).
  apply wp_bind, wp_on_intr. eapply wp_set_flag; [done|exact Hv|].
  apply wp_bind, wp_on_intr. eapply wp_update_irq; [done|exact Hr|]. apply wp_ret.
  set (e' := {| type := INTERRUPT_NONE; callback := callback e |}) in *.
  set (i2 := put_irq u _ _). exists i2. split; [done|].
  assert (upd_flag (flag i) t u 0 (flag i2)) as HF by (apply (upd_flag_put i t u 0); eauto).
  assert (upd_at (irq_of i) u (Some (with_thread 0 r)) (irq_of i2)) as HR by (apply (upd_at_put i u); eauto).
  assert (user_entry_of i u = Some e) as Hue by (unfold user_entry_of, u; by rewrite Z.sub_add).
  assert (upd_at (user_entry_of i) u (Some e') (user_entry_of i2)) as HE.
  { pose proof (upd_at_relined i u e' p e Hu Hue) as HE. unfold u in HE. by rewrite Z.sub_add in HE. }
  destruct Husers as [Hs Hf Hw]. split_and!; [split|done|].
  - by destruct Hlines1; split.
  - split; [by simpl; rewrite length_insert|apply (flags_put i t u 0 Hf); by left|].
    by apply (owners_drop Hw e' (with_thread 0 r) Hreg).
  - right. split_and!; [done..| | |].
    + intros y Hy Hne. split; [by rewrite (HR y), decide_False|].
      intros t'. rewrite (HF t' y) by done. by rewrite decide_False by naive_solver.
    + intros t' Hx. apply (has_flag_upd (flag i) _ t u _ 0) in Hx; [|done..].
      destruct (decide _) as [?|Hne]; [done|]. apply Hne. split; [|done]. by eapply (owners_unique _ _ _ Hw).
    + exists e'. rewrite (HE u) by done. by rewrite decide_True.
Qed.


(** ** Waking the thread that listens *)

Lemma lock_queue_ok s i u r (Q : unit -> sched W -> Prop) :
  0 <= u -> irq_of i u = Some r -> irq_lock r = false ->
  Q tt (set_intr_s (put_irq u (with_irq_lock true r) i) s) -> wp (lock_queue u) (set_intr_s i s) Q.
Proof.
  intros Hu Hr Hlk HQ. unfold lock_queue. apply wp_bind, wp_on_intr. eapply wp_irq_at; [done|done|].
  rewrite Hlk. apply wp_on_intr. by eapply wp_update_irq.
Qed.

Lemma unlock_queue_ok s i u r (Q : unit -> sched W -> Prop) :
  0 <= u -> irq_of i u = Some r ->
  Q tt (set_intr_s (put_irq u (with_irq_lock false r) i) s) -> wp (unlock_queue u) (set_intr_s i s) Q.
Proof. intros Hu Hr HQ. unfold unlock_queue. apply wp_on_intr. by eapply wp_update_irq. Qed.

Lemma irq_of_put_eq u r r' i : irq_of i u = Some r -> 0 <= u -> irq_of (put_irq u r' i) u = Some r'.
Proof. intros Hr Hu. rewrite irq_of_put by eauto. by rewrite decide_True. Qed.

(** What the scheduler gains when [woken] is unblocked. *)
Definition awoken (woken : list Z) s s' : Prop :=
  sched_lock s' = false /\ event_lock s' = event_lock s /\ running s' = running s /\ idle s' = idle s /\
  waiting s' = waiting s /\ queue s' = queue s ++ woken /\
  threads s' = foldr (alter (set_state THREAD_STATE_RUNNING)) (threads s) woken.

Lemma wait_queue_notify_ok s u r :
  user_irq u -> irq_of (intr_s s) u = Some r -> irq_lock r = false -> sched_lock s = false ->
  (forall t, head (irq_threads r) = Some t -> is_Some (threads s !! t) /\ t ∉ queue s) ->
  wp (wait_queue_notify u) s (fun _ s' =>
    intr_s s' = put_irq u (with_threads (tail (irq_threads r)) r) (intr_s s) /\
    awoken (take 1 (irq_threads r)) s s').
Proof.
  intros [Hu _] Hr Hlk Hsl Hw. unfold wait_queue_notify. rewrite <-(set_intr_same s) at 1.
  apply wp_bind. eapply lock_queue_ok; [done|exact Hr|done|].
  apply wp_bind, wp_on_intr. eapply wp_irq_at; [done|by eapply irq_of_put_eq|]. simpl.
  assert (with_irq_lock false (with_irq_lock true r) = r) as Hrr by (destruct r; simpl in *; by subst).
  destruct (irq_threads r) as [|t rest] eqn:Hl; simpl.
  - apply wp_bind, wp_ret. eapply unlock_queue_ok; [done|by eapply irq_of_put_eq|].
    rewrite put_irq_twice, intr_set, Hrr. split.
    + by destruct r; simpl in *; subst.
    + unfold awoken. simpl. by rewrite app_nil_r.
  - destruct (Hw t eq_refl) as [[th Hth] Hq].
    apply wp_bind, wp_bind. eapply wp_update_thread; [exact Hth|].
    apply wp_bind. eapply wp_mono; [by apply scheduler_add_thread_ok|].
    intros ? s2 (Hsl2 & Hev2 & Hq2 & Hth2 & Hrun2 & Hid2 & Hwt2 & _ & Hw2 & _). simpl in *.
    rewrite <-(set_intr_same s2). assert (intr_s s2 = put_irq u (with_irq_lock true r) (intr_s s)) as ->.
    { unfold intr_s at 1. rewrite Hw2. apply intr_of_set. }
    apply wp_on_intr. eapply wp_update_irq; [done|by eapply irq_of_put_eq|].
    rewrite put_irq_twice. eapply unlock_queue_ok; [done|by eapply irq_of_put_eq|].
    rewrite put_irq_twice, intr_set. split; [by destruct r; simpl in *; subst|].
    unfold awoken. simpl. split_and!; try done. rewrite Hth2.
    apply map_eq. intros x. destruct (decide (x = t)) as [->|].
    + rewrite lookup_insert_eq, lookup_alter_eq. by rewrite Hth.
    + by rewrite lookup_insert_ne, lookup_alter_ne.
Qed.

(** The interrupt of a thread that has registered it. *)
Lemma user_interrupt_callback_ok s irq r :
  let i := intr_s s in
  let u := irq - IRQ_USER_BEGIN in
  let t := irq_thread r in
  intr_ok i -> user_irq u -> user_entry_of i u = Some user_entry -> irq_of i u = Some r -> t <> 0 ->
  sched_lock s = false ->
  (irq_threads r <> [] -> is_Some (threads s !! t) /\ t ∉ queue s) ->
  wp (user_interrupt_callback irq) s (fun _ s' =>
    intr_s s' = put_irq u (with_threads [] r) (put_flag t u 3 i) /\
    intr_ok (intr_s s') /\ has_fired (intr_s s') t u /\ awoken (irq_threads r) s s').
Proof.
  intros i u t [Hlines Husers] Hu He Hr Ht Hsl Hw. pose proof Husers as [Hs Hf Howns].
  assert (0 <= u) as Hu0 by (unfold user_irq in Hu; lia).
  destruct (owners_target _ _ _ Howns u r Hu He Hr) as [[? _]|(_ & Hreg & Hths)]; [done|].
  pose proof (owners_lock _ _ _ Howns u r Hu Hr) as Hlk.
  destruct Hreg as (v & Hv & Hvr). fold t in Hv.
  assert (is_flag v) as Hvs.
  { unfold flag in Hv. destruct (thread_interrupts i !! t) as [l|] eqn:Hl; [|done].
    destruct (Hf t l Hl) as [_ Hall]. by eapply (Forall_lookup_1 is_flag l). }
  assert (u8 (Z.lor v INTERRUPT_FIRED) = 3) as H3 by (destruct Hvs as [->|[->| ->]]; done).
  unfold user_interrupt_callback. rewrite <-(set_intr_same s) at 1. fold i u.
  apply wp_bind, wp_on_intr. eapply wp_irq_at; [done|exact Hr|]. fold t. rewrite (proj2 (Z.eqb_neq t 0)) by done.
  apply wp_bind, wp_on_intr. eapply wp_flag_at; [done|exact Hv|].
  apply wp_bind, wp_on_intr. eapply wp_set_flag; [done|exact Hv|]. rewrite H3.
  eapply wp_mono.
  { apply (wait_queue_notify_ok _ u r); [done|by rewrite intr_set|done|done|].
    intros x Hx. destruct Hths as [Hn|Hn]; rewrite Hn in Hx; simplify_eq/=. apply Hw. by rewrite Hn. }
  intros ? s' [Hi' Haw]. rewrite intr_set in Hi'.
  assert (tail (irq_threads r) = [] /\ take 1 (irq_threads r) = irq_threads r) as [Htl Htk].
  { by destruct Hths as [-> | ->]. }
  rewrite Htl in Hi'. rewrite Htk in Haw. rewrite Hi'.
  assert (upd_flag (flag i) t u 3 (flag (put_irq u (with_threads [] r) (put_flag t u 3 i)))) as HF.
  { apply (upd_flag_put i t u 3); eauto. }
  split_and!; [done|split| |exact Haw].
  - by destruct Hlines; split.
  - split; [by simpl; rewrite length_insert|apply (flags_put i t u 3 Hf); unfold is_flag; auto|].
    eapply (owners_serve Howns 3 r (with_threads [] r) (t := t)); try done; [by exists v|by left|].
    apply (upd_at_put i u); eauto.
  - exists 3. rewrite (HF t u) by done. by rewrite decide_True.
Qed.


Lemma acknowledge_ok irq i :
  wp (interrupt_acnowledge irq) i (fun _ i' => exists p, i' = set_ports p i /\
    forall irq', masked i' irq' = masked i irq').
Proof.
  assert (forall j p v irq', p = PIC_SLAVE_CMD \/ p = PIC_MASTER_CMD ->
    masked (set_ports (<[p := v]> (ports j)) j) irq' = masked j irq') as Hcmd.
  { intros j p v irq' Hp. unfold masked, byte_at, pic_line. simpl.
    destruct (_ <? 8); rewrite lookup_insert_ne; try done; by destruct Hp as [-> | ->]. }
  unfold interrupt_acnowledge, i386_interrupt_acknowledge, pic_acnowledge. apply wp_bind, wp_bind.
  destruct (_ && _).
  - apply wp_bind. destruct (irq >? 7).
    + apply wp_modify, wp_modify, wp_ret, wp_ret. eexists. split; [done|]. intros irq'. rewrite !Hcmd; auto.
    + apply wp_ret, wp_modify, wp_ret, wp_ret. eexists. split; [done|]. intros irq'. rewrite !Hcmd; auto.
  - apply wp_ret, wp_ret, wp_ret. exists (ports i). split; [by destruct i|done].
Qed.

Lemma ports_ok i p : (forall irq, masked (set_ports p i) irq = masked i irq) -> intr_ok i -> intr_ok (set_ports p i).
Proof.
  intros Hm [[Hn Hl Hb] Hu]. split; [|by destruct Hu; split]. split; [|done|]; intros irq e; rewrite Hm; [apply Hn|apply Hb].
Qed.

Lemma interrupt_dispatch_ok s irq r :
  let i := intr_s s in
  let u := irq - IRQ_USER_BEGIN in
  let t := irq_thread r in
  intr_ok i -> user_irq u -> user_entry_of i u = Some user_entry -> irq_of i u = Some r -> t <> 0 ->
  sched_lock s = false ->
  (irq_threads r <> [] -> is_Some (threads s !! t) /\ t ∉ queue s) ->
  wp (interrupt_dispatch irq) s (fun _ s' =>
    (exists p, intr_s s' = put_irq u (with_threads [] r) (put_flag t u 3 (set_ports p i))) /\
    intr_ok (intr_s s') /\ has_fired (intr_s s') t u /\ awoken (irq_threads r) s s').
Proof.
  intros i u t Hok Hu He Hr Ht Hsl Hw. unfold interrupt_dispatch. rewrite <-(set_intr_same s) at 1. fold i.
  apply wp_bind, wp_on_intr. eapply wp_mono; [apply acknowledge_ok|]. intros ? i1 (p & -> & Hm).
  assert (33 <= irq <= 47) as Hirq.
  { unfold user_irq, u, IRQ_USER_SIZE, IRQ_USER_BEGIN, IRQ_USER_END in *. lia. }
  unfold MAX_IRQ_NUMBER. rewrite Z.geb_leb, (proj2 (Z.leb_gt 255 irq)) by lia.
  unfold user_entry_of, u in He. rewrite Z.sub_add in He.
  apply wp_bind, wp_on_intr. eapply wp_entry; [lia|exact He|]. simpl.
  eapply wp_mono; [apply (user_interrupt_callback_ok _ irq r)|].
  - rewrite intr_set. by apply ports_ok.
  - done.
  - rewrite intr_set. change (user_entry_of (set_ports p i) u = Some user_entry). unfold user_entry_of, u. by rewrite Z.sub_add.
  - rewrite intr_set. exact Hr.
  - done.
  - done.
  - exact Hw.
  - intros ? s' (Hi' & Hok' & Hf & Haw). rewrite intr_set in Hi'. split_and!; [by exists p|done..].
Qed.

(** ** Listening *)

Lemma wait_queue_wait_blocks s u t r th fuel rounds :
  let i := intr_s s in
  user_irq u -> flag i t u = Some 1 -> irq_of i u = Some r -> irq_lock r = false -> irq_threads r = [] ->
  sched_lock s = false -> queue_wf s -> calm s -> (length (queue s) < fuel)%nat ->
  t = running s -> threads s !! t = Some th -> t <> idle s ->
  wp (wait_queue_wait (S rounds) fuel u t) s (fun next s' => exists t', next = Some t' /\ t' <> t /\
    running s' = t' /\ (t ∉ queue s') /\ sched_lock s' = false /\ event_lock s' = event_lock s /\
    intr_s s' = put_irq u (with_threads [t] r) i /\
    threads s' = <[t := set_state THREAD_STATE_BLOCKED th]> (threads s)).
Proof.
  intros i Hu Hv Hr Hlk Hths Hsl Hwf Hcalm Hfuel Ht Hth Hidle. cbn [wait_queue_wait].
  assert (0 <= u) as Hu0 by (unfold user_irq in Hu; lia).
  rewrite <-(set_intr_same s) at 1. fold i. apply wp_bind. eapply lock_queue_ok; [done|exact Hr|done|].
  apply wp_bind. unfold fired. apply wp_bind, wp_on_intr. eapply wp_flag_at; [done|exact Hv|]. apply wp_ret. simpl.
  apply wp_bind. eapply wp_update_thread; [exact Hth|].
  set (s1 := set_threads (<[t := set_state THREAD_STATE_BLOCKED th]> (threads s)) s).
  change (set_threads _ (set_intr_s ?x s)) with (set_intr_s x s1).
  apply wp_bind, wp_on_intr. eapply wp_irq_at; [done|by eapply irq_of_put_eq|].
  simpl irq_threads. rewrite Hths. rewrite decide_False by apply not_elem_of_nil. simpl.
  apply wp_bind, wp_on_intr. eapply wp_update_irq; [done|by eapply irq_of_put_eq|].
  rewrite put_irq_twice. apply wp_bind. eapply unlock_queue_ok; [done|by eapply irq_of_put_eq|].
  rewrite put_irq_twice. apply wp_bind, wp_lock; [done|].
  replace (with_irq_lock false (with_threads [t] (with_irq_lock true r))) with (with_threads [t] r)
    by (destruct r; simpl in *; by subst).
  set (i2 := put_irq u _ i). set (s2 := Scheduler.set_lock true (set_intr_s i2 s1)).
  assert (threads s2 !! t = Some (set_state THREAD_STATE_BLOCKED th)) as Hth2 by apply lookup_insert_eq.
  assert (queue_wf s2 /\ calm s2) as [Hwf2 Hcalm2].
  { destruct Hwf as (H1 & H2 & H3 & H4). split; [split_and!; try done|].
    - intros x Hx. unfold s2. simpl. destruct (decide (x = t)) as [->|]; [by rewrite lookup_insert_eq|].
      rewrite lookup_insert_ne by done. by apply H4.
    - intros x xh Hx. unfold s2. simpl. destruct (decide (x = t)) as [->|]; [done|].
      rewrite lookup_insert_ne by done. by apply Hcalm. }
  apply wp_bind. subst t. eapply wp_mono; [by apply (block_running_calm fuel s2 (set_state THREAD_STATE_BLOCKED th))|].
  intros next s3 [-> ->]. apply wp_ret. set (el := elected _ _ _ _).
  assert (keep s2 (running s) = false) as Hkeep by by unfold keep; rewrite Hth2.
  assert (running s ∉ filter (fun x => keep s2 x) (queue s2)) as Hnq.
  { rewrite list_elem_of_filter. intros [Hk _]. by rewrite Hkeep in Hk. }
  exists el.1. split_and!; try done.
  - unfold el, elected. change (idle s2) with (idle s). destruct (filter _ _) as [|x l]; simpl; [congruence|].
    intros ->. apply Hnq. set_solver.
  - simpl. unfold el. by rewrite elected_perm.
  - change (intr_s (set_intr_s i2 s1) = i2). apply intr_set.
Qed.


Lemma upd_flag_id (F : Z -> Z -> option Z) t u v : F t u = Some v -> upd_flag F t u v F.
Proof. intros Hv t' y Hy. destruct (decide _) as [[-> ->]|]; done. Qed.

(** The owner of an interrupt that is registered to it, waiting or served. *)
Lemma serve_ok i t u v r l :
  intr_ok i -> user_irq u -> registered i t u -> irq_of i u = Some r -> irq_thread r = t -> t <> 0 ->
  v = 1 \/ v = 3 -> l = [] \/ l = [t] ->
  intr_ok (put_irq u (with_threads l r) (put_flag t u v i)).
Proof.
  intros [Hlines [Hs Hf Hw]] Hu Hreg Hr Ht H0 Hv Hl. split; [by destruct Hlines; split|].
  assert (is_Some (flag i t u)) as Hfl by (destruct Hreg as (x & ? & _); eauto). split.
  - simpl. by rewrite length_insert.
  - apply (flags_put i t u v Hf). unfold is_flag. naive_solver.
  - eapply (owners_serve Hw v r (with_threads l r) Hreg); try done.
    + by destruct Hv as [-> | ->].
    + exact (owners_lock _ _ _ Hw u r Hu Hr).
    + simpl. rewrite Ht. naive_solver.
    + by apply (upd_flag_put i t u v).
    + apply (upd_at_put i u); eauto.
Qed.

Lemma listen_return_ok s t irq :
  let i := intr_s s in
  let u := irq - IRQ_USER_BEGIN in
  user_irq u -> flag i t u = Some 3 ->
  wp (listen_return t irq) s (fun o s' => o = Return irq /\ s' = set_intr_s (put_flag t u 1 i) s).
Proof.
  intros i u Hu Hv. unfold listen_return. rewrite <-(set_intr_same s) at 1. fold i u.
  assert (0 <= u) as Hu0 by (unfold user_irq in Hu; lia).
  apply wp_bind, wp_on_intr. eapply wp_flag_at; [done|exact Hv|].
  apply wp_bind, wp_on_intr. eapply wp_set_flag; [done|exact Hv|]. by apply wp_ret.
Qed.

(** [t] owns the interrupt [u], which has not fired, and does not wait for it. *)
Record listener s (t u : Z) (r : irq) : Prop := {
  l_ok : intr_ok (intr_s s);
  l_user : user_irq u;
  l_registered : registered (intr_s s) t u;
  l_calm : ~ has_fired (intr_s s) t u;
  l_irq : irq_of (intr_s s) u = Some r;
  l_thread : irq_thread r = t;
  l_null : t <> 0;
  l_threads : irq_threads r = [];
}.

Lemma listener_flag s t u r : listener s t u r -> flag (intr_s s) t u = Some 1.
Proof.
  intros []. destruct l_registered0 as (v & Hv & Hreg). destruct l_ok0 as [_ [_ Hf _]].
  assert (is_flag v) as Hvs.
  { unfold flag in Hv. destruct (thread_interrupts (intr_s s) !! t) as [l|] eqn:Hl; [|done].
    destruct (Hf t l Hl) as [_ Hall]. by eapply (Forall_lookup_1 is_flag l). }
  destruct Hvs as [->|[->| ->]]; [done|done|]. destruct l_calm0. by exists 3.
Qed.

(** After the interrupt has fired and its thread was served. *)
Definition served (t u : Z) (i : intr) : Prop := intr_ok i /\ registered i t u /\ ~ has_fired i t u.

Lemma put_flag_served i t u r p :
  intr_ok (put_irq u (with_threads [] r) (put_flag t u 3 (set_ports p i))) ->
  user_irq u -> irq_of i u = Some r -> irq_thread r = t -> t <> 0 -> is_Some (flag i t u) ->
  served t u (put_flag t u 1 (put_irq u (with_threads [] r) (put_flag t u 3 (set_ports p i)))).
Proof.
  intros Hok Hu Hr Ht H0 Hfl. set (j := put_irq _ _ _) in *. assert (0 <= u) as Hu0 by (unfold user_irq in Hu; lia).
  assert (flag j t u = Some 3) as H3.
  { change (flag (put_flag t u 3 i) t u = Some 3). rewrite flag_put by done. by rewrite decide_True. }
  assert (flag (put_flag t u 1 j) t u = Some 1) as H1 by (rewrite flag_put by eauto; by rewrite decide_True).
  assert (irq_of j u = Some (with_threads [] r)) as Hj by (by eapply irq_of_put_eq).
  split_and!.
  - pose proof (serve_ok j t u 1 (with_threads [] r) [] Hok Hu) as Hs.
    replace (put_irq u (with_threads [] (with_threads [] r)) (put_flag t u 1 j)) with (put_flag t u 1 j) in Hs.
    { apply Hs; auto. by exists 3. }
    unfold j. change (put_flag t u 1 (put_irq u ?a ?b)) with (put_irq u a (put_flag t u 1 b)). by rewrite put_irq_twice.
  - by exists 1.
  - intros (v & Hv & Hx). by simplify_eq.
Qed.


Lemma fired_before_listening fuel s irq r th :
  let t := running s in
  let u := irq - IRQ_USER_BEGIN in
  listener s t u r ->
  sched_lock s = false -> queue_wf s -> calm s -> (length (queue s) < fuel)%nat ->
  threads s !! t = Some th -> t <> idle s ->
  wp (interrupt_dispatch irq) s (fun _ s1 =>
    queue s1 = queue s /\ running s1 = t /\
    wp (sys_interrupt_listen fuel irq) s1 (fun o s2 => o = Return irq /\ served t u (intr_s s2))).
Proof.
  intros t u HL Hsl Hwf Hcalm Hfuel Hth Hidle. pose proof (listener_flag s t u r HL) as Hv.
  destruct HL as [Hok Hu Hreg Hnf Hr Ht H0 Hths]. pose proof Hok as [Hlines [Hsz Hf Hw]].
  assert (0 <= u) as Hu0 by (unfold user_irq in Hu; lia).
  pose proof (owners_entry _ _ _ Hw t u Hu Hreg) as He.
  eapply wp_mono; [apply (interrupt_dispatch_ok s irq r); try done; rewrite Ht; done|].
  fold u. rewrite Ht. intros ? s1 ((p & Hi1) & Hok1 & Hf1 & (_ & _ & Hrun1 & _ & _ & Hq1 & _)).
  rewrite Hths, app_nil_r in Hq1. split_and!; [done..|].
  assert (flag (intr_s s1) t u = Some 3) as H3.
  { rewrite Hi1. change (flag (put_flag t u 3 (intr_s s)) t u = Some 3). rewrite flag_put by eauto. by rewrite decide_True. }
  unfold sys_interrupt_listen. apply wp_bind, wp_get. rewrite Hrun1. fold t u. rewrite user_irq_range by done.
  rewrite <-(set_intr_same s1) at 1. apply wp_bind, wp_on_intr. eapply wp_flag_at; [done|exact H3|].
  simpl. rewrite set_intr_same. eapply wp_mono; [by apply listen_return_ok|]. fold u.
  intros o s2 [-> ->]. split; [done|]. rewrite intr_set, Hi1. rewrite Hi1 in Hok1.
  apply put_flag_served; eauto.
Qed.

Lemma fired_while_listening fuel s irq r th :
  let t := running s in
  let u := irq - IRQ_USER_BEGIN in
  listener s t u r ->
  sched_lock s = false -> queue_wf s -> calm s -> (length (queue s) < fuel)%nat ->
  threads s !! t = Some th -> t <> idle s ->
  wp (sys_interrupt_listen fuel irq) s (fun o s1 => exists t', o = Switched t' /\ t' <> t /\ running s1 = t' /\
    (t ∉ queue s1) /\ has_state THREAD_STATE_BLOCKED s1 t /\
    wp (interrupt_dispatch irq) s1 (fun _ s2 =>
      queue s2 = queue s1 ++ [t] /\ has_state THREAD_STATE_RUNNING s2 t /\
      wp (sys_interrupt_listen_resume fuel t irq) s2 (fun o s3 =>
        o = Return irq /\ served t u (intr_s s3)))).
Proof.
  intros t u HL Hsl Hwf Hcalm Hfuel Hth Hidle. pose proof (listener_flag s t u r HL) as Hv.
  destruct HL as [Hok Hu Hreg Hnf Hr Ht H0 Hths]. pose proof Hok as [Hlines [Hsz Hf Hw]].
  assert (0 <= u) as Hu0 by (unfold user_irq in Hu; lia).
  pose proof (owners_entry _ _ _ Hw t u Hu Hreg) as He.
  unfold sys_interrupt_listen. apply wp_bind, wp_get. fold t u. rewrite user_irq_range by done.
  rewrite <-(set_intr_same s) at 1. apply wp_bind, wp_on_intr. eapply wp_flag_at; [done|exact Hv|]. simpl.
  rewrite set_intr_same. apply wp_bind.
  eapply wp_mono; [apply (wait_queue_wait_blocks s u t r th fuel 1); try done; exact (owners_lock _ _ _ Hw u r Hu Hr)|].
  intros next s1 (t' & -> & Hne & Hrun1 & Hq1 & Hsl1 & _ & Hi1 & Hth1). apply wp_ret.
  assert (intr_ok (intr_s s1)) as Hok1.
  { rewrite Hi1, <-(put_flag_same t u 1 (intr_s s)) by done. apply serve_ok; auto. }
  assert (irq_of (intr_s s1) u = Some (with_threads [t] r)) as Hr1 by (rewrite Hi1; by eapply irq_of_put_eq).
  assert (threads s1 !! t = Some (set_state THREAD_STATE_BLOCKED th)) as Ht1 by (rewrite Hth1; apply lookup_insert_eq).
  exists t'. split_and!; try done; [by eexists|].
  eapply wp_mono; [apply (interrupt_dispatch_ok s1 irq (with_threads [t] r)); try done|].
  { by rewrite Hi1. }
  { simpl. by rewrite Ht. }
  { intros _. simpl. rewrite Ht. by split; [eexists|]. }
  fold u. simpl. rewrite Ht. intros ? s2 ((p & Hi2) & Hok2 & Hf2 & (_ & _ & _ & _ & _ & Hq2 & Hth2)).
  split_and!; [done| |].
  { exists (set_state THREAD_STATE_RUNNING (set_state THREAD_STATE_BLOCKED th)). rewrite Hth2. simpl.
    by rewrite lookup_alter_eq, Ht1. }
  assert (flag (intr_s s2) t u = Some 3) as H3.
  { rewrite Hi2, Hi1. change (flag (put_flag t u 3 (intr_s s)) t u = Some 3). rewrite flag_put by eauto. by rewrite decide_True. }
  unfold sys_interrupt_listen_resume, fired. fold u. apply wp_bind, wp_bind.
  rewrite <-(set_intr_same s2) at 1. apply wp_on_intr. eapply wp_flag_at; [done|exact H3|]. apply wp_ret. simpl.
  rewrite set_intr_same. eapply wp_mono; [by apply listen_return_ok|]. fold u.
  intros o s3 [-> ->]. split; [done|]. rewrite intr_set, Hi2.
  rewrite Hi2 in Hok2. apply put_flag_served; try done. rewrite Hi1. eexists. exact Hv.
Qed.

(** ** The theorems *)

(** The callback of an interrupt works on the thread that has registered it. *)
Definition attended (i : intr) : Prop :=
  forall t u, user_irq u -> registered i t u -> exists r, irq_of i u = Some r /\ irq_thread r = t.

Lemma registered_untouched u i i' t y :
  untouched u i i' -> user_irq y -> y <> u -> registered i' t y -> registered i t y.
Proof. intros Hun Hy Hne (v & Hv & Hx). exists v. split; [|done]. destruct (Hun y Hy Hne) as [_ <-]. exact Hv. Qed.

Lemma attended_claimed t u i i' : attended i -> users_ok i' -> claimed t u i i' -> attended i'.
Proof.
  intros Hat [_ _ Hw] (Hun & Hreg & _ & Hr) t' y Hy Hreg'. destruct (decide (y = u)) as [->|Hne].
  - eexists. split; [exact Hr|]. simpl. by eapply (owners_unique _ _ _ Hw).
  - destruct (Hat t' y Hy) as (r & Hr' & Hth); [by eapply registered_untouched|]. exists r. split; [|done].
    destruct (Hun y Hy Hne) as [-> _]. done.
Qed.

Lemma attended_dropped u i i' : attended i -> untouched u i i' -> (forall t, ~ registered i' t u) -> attended i'.
Proof.
  intros Hat Hun Hno t' y Hy Hreg'. destruct (decide (y = u)) as [->|Hne]; [by destruct (Hno t')|].
  destruct (Hat t' y Hy) as (r & Hr' & Hth); [by eapply registered_untouched|]. exists r. split; [|done].
  destruct (Hun y Hy Hne) as [-> _]. done.
Qed.


(** C27: an interrupt is not lost.  When it fires before its thread listens,
    [sys_interrupt_listen] returns at once.  When the thread listens first, it
    leaves the processor and the run queue until the interrupt fires; this queues
    it, and when it is elected again its call returns.  Either way the interrupt is
    reported once. *)
Theorem interrupt_wakes_listener fuel s irq r th :
  let t := running s in
  let u := irq - IRQ_USER_BEGIN in
  listener s t u r ->
  sched_lock s = false -> queue_wf s -> calm s -> (length (queue s) < fuel)%nat ->
  threads s !! t = Some th -> t <> idle s ->
  wp (interrupt_dispatch irq) s (fun _ s1 =>
    queue s1 = queue s /\ running s1 = t /\
    wp (sys_interrupt_listen fuel irq) s1 (fun o s2 => o = Return irq /\ served t u (intr_s s2))) /\
  wp (sys_interrupt_listen fuel irq) s (fun o s1 => exists t', o = Switched t' /\ t' <> t /\ running s1 = t' /\
    (t ∉ queue s1) /\ has_state THREAD_STATE_BLOCKED s1 t /\
    wp (interrupt_dispatch irq) s1 (fun _ s2 =>
      queue s2 = queue s1 ++ [t] /\ has_state THREAD_STATE_RUNNING s2 t /\
      wp (sys_interrupt_listen_resume fuel t irq) s2 (fun o s3 =>
        o = Return irq /\ served t u (intr_s s3)))).
Proof.
  intros t u HL Hsl Hwf Hcalm Hfuel Hth Hidle.
  split; [by eapply fired_before_listening|by eapply fired_while_listening].
Qed.


(** A thread that tries to register an interrupt that is taken is told so, but
    the owner of the interrupt is forgotten: when the interrupt fires, nobody is
    woken and nothing is recorded for the owner, which waits for ever. *)
Theorem sys_interrupt_register_steals s irq owner r l :
  let i := intr_s s in
  let t := running s in
  let u := irq - IRQ_USER_BEGIN in
  intr_ok i -> user_irq u -> t <> 0 -> thread_interrupts i !! t = Some l -> t <> owner ->
  registered i owner u -> ~ has_fired i owner u ->
  irq_of i u = Some r -> irq_threads r = [owner] ->
  wp (sys_interrupt_register irq) s (fun err s1 => err = - EEXIST /\
    wp (interrupt_dispatch irq) s1 (fun _ s2 =>
      queue s2 = queue s /\ threads s2 = threads s /\
      registered (intr_s s2) owner u /\ ~ has_fired (intr_s s2) owner u)).
Proof.
  intros i t u Hok Hu Ht Hl Hne Hreg Hnf Hr Hths. pose proof Hok as [Hlines [_ _ Hw]].
  pose proof (owners_entry _ _ _ Hw owner u Hu Hreg) as He.
  eapply wp_mono; [by eapply sys_interrupt_register_ok|]. fold i t u.
  intros err s1 (i1 & -> & Hok1 & [(? & _)|[(_ & Hx & _)|[(_ & _ & _ & -> & ->)|(_ & (e & He' & Hn) & _)]]]); [done| | |].
  - destruct Hne. by eapply (owners_unique _ _ _ Hw).
  - split; [done|]. unfold interrupt_dispatch.
    apply wp_bind, wp_on_intr. eapply wp_mono; [apply acknowledge_ok|]. intros ? i2 (p & -> & _).
    assert (33 <= irq <= 47) as Hirq.
    { unfold user_irq, u, IRQ_USER_SIZE, IRQ_USER_BEGIN, IRQ_USER_END in *. lia. }
    unfold MAX_IRQ_NUMBER. rewrite Z.geb_leb, (proj2 (Z.leb_gt 255 irq)) by lia.
    unfold user_entry_of, u in He. rewrite Z.sub_add in He.
    apply wp_bind, wp_on_intr. eapply wp_entry; [lia|exact He|]. simpl.
    unfold user_interrupt_callback. fold u. apply wp_bind, wp_on_intr.
    eapply wp_irq_at; [unfold user_irq in Hu; lia| |].
    { change (irq_of (set_ports p (put_irq u ?x i)) u) with (irq_of (put_irq u x i) u).
      eapply irq_of_put_eq; [exact Hr|unfold user_irq in Hu; lia]. }
    simpl. apply wp_ret. rewrite intr_set. split_and!; done.
  - rewrite He in He'. by simplify_eq.
Qed.

End sched.

(** [interrupt_initialize] sets the tables up, when no thread has an interrupt yet. *)
Lemma interrupt_initialize_ok page_fault i :
  interrupts i = replicate 15 {| irq_thread := 0; irq_lock := false; irq_threads := [] |} ->
  thread_interrupts i = ∅ ->
  wp (interrupt_initialize page_fault) i (fun _ i' => intr_ok i').
Proof.
  intros Hirqs Hths. unfold interrupt_initialize, i386_interrupt_initialize. apply wp_bind, wp_modify.
  set (l := replicate _ _). apply wp_bind, wp_bind.
  apply (wp_mono _ _ (fun _ i' => i' = set_ports (ports i') (set_entries l i) /\
    byte_at PIC_MASTER_DATA i' = 0xFB /\ byte_at PIC_SLAVE_DATA i' = 0xFF)).
  { unfold pic_initialize, outb. do 9 apply wp_bind, wp_modify. apply wp_modify.
    split_and!; [done|..]; unfold byte_at; simpl;
      repeat (rewrite lookup_insert_eq || rewrite lookup_insert_ne by done); done. }
  intros ? i1 (Hi1 & Hm & Hs).
  assert (forall irq, on_pic irq -> irq <> CASCADE -> masked i1 irq = true) as Hall.
  { intros irq Hon Hc. unfold masked, pic_line, on_pic, PIC_START_IRQ, PIC_END_IRQ, CASCADE in *.
    assert (irq ∈ [32;33;35;36;37;38;39;40;41;42;43;44;45;46;47]) as Hin.
    { rewrite !elem_of_cons. lia. }
    repeat (apply elem_of_cons in Hin as [->|Hin]; [simpl; by rewrite ?Hm, ?Hs|]). by apply not_elem_of_nil in Hin. }
  assert (forall irq, 0 <= irq <= MAX_IRQ_NUMBER -> entry i1 irq = Some {| type := INTERRUPT_NONE; callback := Null |}) as Hent.
  { intros irq Hirq. rewrite Hi1. change (l !! Z.to_nat irq = Some {| type := INTERRUPT_NONE; callback := Null |}).
    apply lookup_replicate_2. unfold MAX_IRQ_NUMBER in *. lia. }
  assert (lines_ok i1) as Hlines.
  { split; [|rewrite Hi1; apply length_replicate|].
    { intros irq e Hon. rewrite Hent by (unfold on_pic, PIC_START_IRQ, PIC_END_IRQ, MAX_IRQ_NUMBER in *; lia). by intros [= <-]. }
    intros irq e Hon Hc. rewrite Hent, Hall by (unfold on_pic, PIC_START_IRQ, PIC_END_IRQ, MAX_IRQ_NUMBER in *; done || lia).
    by intros [= <-]. }
  eapply wp_mono; [apply (interrupt_register_ok IRQ_PAGE_FAULT _ _ i1); [done|done|done|by apply Hent]|].
  simpl. intros r i2 (-> & Hlines2 & p & ->). simpl. apply wp_ret. split; [done|].
  assert (forall t u, ~ has_flag INTERRUPT_REGISTERED (flag i1) t u) as Hnone.
  { intros t u (v & Hv & _). rewrite Hi1 in Hv. unfold flag in Hv. simpl in Hv. by rewrite Hths, lookup_empty in Hv. }
  split.
  - rewrite Hi1. cbn [interrupts set_ports set_entries]. by rewrite Hirqs.
  - rewrite Hi1. cbn [thread_interrupts set_ports set_entries]. rewrite Hths. intros t l0. by rewrite lookup_empty.
  - split.
    + intros t u _ Hx. by destruct (Hnone t u).
    + intros t t' u _ Hx. by destruct (Hnone t u).
    + intros u r Hu Hx. unfold user_irq, user_entry_of, IRQ_USER_SIZE, IRQ_USER_END, IRQ_USER_BEGIN in *.
      rewrite (entry_relined i1 _ _ _ _ {| type := INTERRUPT_NONE; callback := Null |}) in Hx;
        [|by apply Hent|done|lia].
      rewrite decide_False in Hx by (unfold IRQ_PAGE_FAULT; lia). rewrite Hent in Hx by (unfold MAX_IRQ_NUMBER; lia). done.
    + intros u r Hu. unfold irq_of. cbn [interrupts set_ports set_entries]. rewrite Hi1.
      cbn [interrupts set_ports set_entries]. rewrite Hirqs.
      intros Hr. by apply lookup_replicate_1 in Hr as [-> _].
Qed.

(** A thread without interrupts, as [thread_create] makes it. *)
Definition no_flags : list Z := replicate (Z.to_nat IRQ_USER_SIZE) 0.

Lemma new_thread_ok i t :
  intr_ok i -> thread_interrupts i !! t = None ->
  intr_ok (set_thread_interrupts (<[t := no_flags]> (thread_interrupts i)) i).
Proof.
  intros [Hlines [Hs Hf Hw]] Ht. split; [by destruct Hlines; split|]. set (i' := set_thread_interrupts _ i).
  assert (forall b t' u, has_flag b (flag i') t' u <-> has_flag b (flag i) t' u) as Hsame.
  { intros b t' u. unfold has_flag, flag. simpl. destruct (decide (t' = t)) as [->|Hne].
    - rewrite lookup_insert_eq, Ht. simpl. split; [|naive_solver].
      intros (v & Hv & Hx). apply lookup_replicate_1 in Hv as [-> _]. done.
    - by rewrite lookup_insert_ne. }
  split; [done| |].
  - simpl. intros t' l. destruct (decide (t' = t)) as [->|Hne].
    + rewrite lookup_insert_eq. intros [= <-]. split; [done|]. apply Forall_replicate. by left.
    + rewrite lookup_insert_ne by done. apply Hf.
  - destruct Hw as [H1 H2 H3 H4]. split; [| | |done].
    + intros t' u Hu. rewrite Hsame. by apply H1.
    + intros t1 t2 u Hu. rewrite !Hsame. by apply H2.
    + intros u r Hu He Hr. rewrite Hsame. by apply H3.
Qed.

(** A thread without registered interrupts may go. *)
Lemma gone_thread_ok i t :
  intr_ok i -> (forall u, user_irq u -> ~ registered i t u) ->
  intr_ok (set_thread_interrupts (delete t (thread_interrupts i)) i).
Proof.
  intros [Hlines [Hs Hf Hw]] Ht. split; [by destruct Hlines; split|]. set (i' := set_thread_interrupts _ i).
  assert (forall t' u, user_irq u ->
    has_flag INTERRUPT_REGISTERED (flag i') t' u <-> has_flag INTERRUPT_REGISTERED (flag i) t' u) as Hsame.
  { intros t' u Hu. destruct (decide (t' = t)) as [->|Hne].
    - split; [|intros Hx; by destruct (Ht u Hu)]. intros (v & Hv & _). unfold flag in Hv. simpl in Hv.
      by rewrite lookup_delete_eq in Hv.
    - unfold has_flag, flag. simpl. by rewrite lookup_delete_ne. }
  split; [done| |].
  - simpl. intros t' l Hl. apply lookup_delete_Some in Hl as [_ Hl]. by apply (Hf t').
  - destruct Hw as [H1 H2 H3 H4]. split; [| | |done].
    + intros t' u Hu. rewrite Hsame by done. by apply H1.
    + intros t1 t2 u Hu. rewrite !Hsame by done. by apply H2.
    + intros u r Hu He Hr. rewrite Hsame by done. by apply H3.
Qed.

(** ** A concrete kernel

    Thread 100 runs and has registered interrupt 33, thread 300 is queued and 900 is
    the idle thread. *)

#[local] Instance intr_world : HasIntr intr := {|
  intr_of := fun i => i; set_intr := fun i _ => i;
  intr_of_set := fun _ _ => eq_refl; set_intr_of := fun _ => eq_refl; set_intr_set := fun _ _ _ => eq_refl;
|}.
#[local] Existing Instance forget_op.
#[local] Instance quiet_handlers : Handlers intr := {| handle := fun _ _ => ret tt |}.

Definition run_state {S A} (m : M S A) (s : S) : S := match m s with Done (_, s') => s' | _ => s end.

Lemma wp_run_state {S A} (m : M S A) s (Q : A -> S -> Prop) : wp m s Q -> exists a, m s = Done (a, run_state m s) /\ Q a (run_state m s).
Proof. unfold wp, run_state. destruct (m s) as [[a s']| | |]; [eauto|done..]. Qed.

Definition blank_intr : intr :=
  {| interrupt_entries := [];
     interrupts := replicate 15 {| irq_thread := 0; irq_lock := false; irq_threads := [] |};
     ports := ∅; thread_interrupts := ∅ |}.
Definition boot_intr : intr := run_state (interrupt_initialize 5000) blank_intr.
Definition add_flags (t : Z) (i : intr) : intr :=
  set_thread_interrupts (<[t := no_flags]> (thread_interrupts i)) i.

Definition irq_sched : sched intr := {|
  time := 5; running := 100; idle := 900; thread_num := 2;
  sched_lock := false; queue := [300; 100]; event_lock := false;
  waiting := [[]; []; []; []; []; []];
  threads := list_to_map
    [ (100, {| state := THREAD_STATE_RUNNING; event := 0; data := 0 |});
      (300, {| state := THREAD_STATE_RUNNING; event := 0; data := 0 |});
      (900, {| state := THREAD_STATE_RUNNING; event := 0; data := 0 |}) ];
  world := add_flags 300 (add_flags 100 boot_intr) |}.

Lemma boot_intr_ok : intr_ok (add_flags 300 (add_flags 100 boot_intr)).
Proof.
  destruct (wp_run_state _ _ _ (interrupt_initialize_ok 5000 blank_intr eq_refl eq_refl)) as (? & _ & Hok).
  apply new_thread_ok; [apply new_thread_ok; [exact Hok|by vm_compute]|by vm_compute].
Qed.

Lemma boot_attended : attended (add_flags 300 (add_flags 100 boot_intr)).
Proof.
  intros t u Hu (v & Hv & Hx). destruct Hx. unfold flag in Hv.
  assert (thread_interrupts (add_flags 300 (add_flags 100 boot_intr)) = <[300 := no_flags]> (<[100 := no_flags]> ∅)) as Hb
    by by vm_compute. rewrite Hb in Hv.
  destruct (decide (t = 300)) as [->|]; [rewrite lookup_insert_eq in Hv|rewrite lookup_insert_ne in Hv by done;
    destruct (decide (t = 100)) as [->|]; [rewrite lookup_insert_eq in Hv|rewrite lookup_insert_ne in Hv by done; by rewrite lookup_empty in Hv]].
  all: simpl in Hv; by apply lookup_replicate_1 in Hv as [-> _].
Qed.

Definition registered_sched : sched intr := run_state (sys_interrupt_register 33) irq_sched.

Lemma registered_sched_ok :
  intr_ok (intr_s registered_sched) /\ claimed 100 0 (intr_s irq_sched) (intr_s registered_sched).
Proof.
  assert (thread_interrupts (intr_s irq_sched) !! 100 = Some no_flags) as Hl by by vm_compute.
  assert (intr_ok (intr_s irq_sched)) as Hok0 by exact boot_intr_ok.
  destruct (wp_run_state _ _ _ (sys_interrupt_register_ok irq_sched 33 no_flags Hok0 ltac:(done) Hl))
    as (r & Hr & i' & Hs & Hok & Hcases).
  fold registered_sched in Hr, Hs. rewrite Hs, intr_set. clear Hs. split; [done|].
  assert (r = 0) as -> by (vm_compute in Hr; congruence).
  destruct Hcases as [(_ & H & _)|[(_ & _ & H & _)|[(_ & _ & _ & H & _)|(_ & _ & _ & H)]]]; done.
Qed.

Lemma registered_listener :
  listener registered_sched 100 0 {| irq_thread := 100; irq_lock := false; irq_threads := [] |}.
Proof.
  destruct registered_sched_ok as [Hok (_ & Hreg & He & Hr)]. split; try done.
  intros (v & Hv & Hx). vm_compute in Hv. by simplify_eq.
Qed.

Lemma registered_sched_calm : queue_wf registered_sched /\ calm registered_sched.
Proof.
  split; [split_and!|].
  - by apply (bool_decide_unpack _); vm_compute.
  - by apply (bool_decide_unpack _); vm_compute.
  - by apply (bool_decide_unpack _); vm_compute.
  - intros t Ht. change (t ∈ [300; 100]) in Ht. rewrite !elem_of_cons, elem_of_nil in Ht.
    destruct Ht as [->|[->|[]]]; vm_compute; eauto.
  - intros t th Ht Hth Hz. change (t ∈ [300; 100]) in Ht. rewrite !elem_of_cons, elem_of_nil in Ht.
    destruct Ht as [->|[->|[]]]; vm_compute in Hth; simplify_eq; by vm_compute in Hz.
Qed.

(** 100 waits for the interrupt, and 300 runs. *)
Definition blocked_sched : sched intr := run_state (sys_interrupt_listen 10 33) registered_sched.

Definition parked_irq : irq := {| irq_thread := 100; irq_lock := false; irq_threads := [100] |}.

Lemma blocked_sched_ok :
  intr_ok (intr_s blocked_sched) /\ registered (intr_s blocked_sched) 100 0 /\
  ~ has_fired (intr_s blocked_sched) 100 0 /\ irq_of (intr_s blocked_sched) 0 = Some parked_irq.
Proof.
  pose proof registered_listener as HL. pose proof (listener_flag _ _ _ _ HL) as Hv.
  destruct HL as [Hok Hu Hreg _ Hr Ht H0 _].
  assert (intr_s blocked_sched = put_irq 0 (with_threads [100] {| irq_thread := 100; irq_lock := false; irq_threads := [] |})
    (put_flag 100 0 1 (intr_s registered_sched))) as Hi by by vm_compute.
  split_and!; [rewrite Hi; by apply serve_ok; auto| | |].
  - exists 1. by vm_compute.
  - intros (v & Hx & Hy). vm_compute in Hx. by simplify_eq.
  - by vm_compute.
Qed.

(** ** The theorems apply *)


Lemma interrupt_wakes_listener_witness :
  wp (interrupt_dispatch 33) registered_sched (fun _ s1 =>
    queue s1 = queue registered_sched /\ running s1 = 100 /\
    wp (sys_interrupt_listen 10 33) s1 (fun o s2 => o = Return 33 /\ served 100 0 (intr_s s2))) /\
  wp (sys_interrupt_listen 10 33) registered_sched (fun o s1 => exists t', o = Switched t' /\ t' <> 100 /\ running s1 = t' /\
    (100 ∉ queue s1) /\ has_state THREAD_STATE_BLOCKED s1 100 /\
    wp (interrupt_dispatch 33) s1 (fun _ s2 =>
      queue s2 = queue s1 ++ [100] /\ has_state THREAD_STATE_RUNNING s2 100 /\
      wp (sys_interrupt_listen_resume 10 100 33) s2 (fun o s3 =>
        o = Return 33 /\ served 100 0 (intr_s s3)))).
Proof.
  destruct registered_sched_calm as [Hwf Hcalm].
  apply (interrupt_wakes_listener 10 registered_sched 33 {| irq_thread := 100; irq_lock := false; irq_threads := [] |}
    {| state := THREAD_STATE_RUNNING; event := 0; data := 0 |}); try done.
  - exact registered_listener.
  - vm_compute. lia.
Defined.

Lemma sys_interrupt_register_steals_witness :
  wp (sys_interrupt_register 33) blocked_sched (fun err s1 => err = - EEXIST /\
    wp (interrupt_dispatch 33) s1 (fun _ s2 =>
      queue s2 = queue blocked_sched /\ threads s2 = threads blocked_sched /\
      registered (intr_s s2) 100 0 /\ ~ has_fired (intr_s s2) 100 0)).
Proof.
  destruct blocked_sched_ok as (Hok & Hreg & Hnf & Hr).
  by apply (sys_interrupt_register_steals blocked_sched 33 100 parked_irq no_flags).
Defined.

End Interrupt.
