(* ===== verification/Process.v ===== *)
(** Processes and threads: kernel/core/proc/process.c (file descriptors are in
    File.v), thread.c, wait.c and kthread.c, with kernel/arch/i386/thread.c.

    A process and a thread are known by the address of their structures.  The
    fields of [struct thread] that the scheduler uses are in the state of
    Scheduler.v, its field [interrupts] in that of Interrupt.v and the others in
    [tstruct]; the lists of threads and children are kept as lists, the newest
    first as [klist_add] puts it.

    The rest of the kernel is reached through the class [ProcOps]: the heap, the
    address spaces, the pages of kernel stacks, the file tables (the part of
    [struct process] that File.v models), the ELF loader and timers.  What
    processes rely on is the class [ProcEnv].

    thread_destroy is the operation the scheduler calls on zombie threads; it is
    shown to satisfy the interface [Reaper] of the scheduler. *)

From S2P Require Import Prelude Scheduler Interrupt.

Module Process.
Export Interrupt.

Definition THREAD_STACK_BASE : Z := 0xBFFFE000.
(** [(PAGE_SIZE - 4) & 0xFFFFFFF0] *)
Definition STACK_TOP : Z := Z.land (PAGE_SIZE - 4) 0xFFFFFFF0.
Definition THREAD_MAX_STACK_SIZE : Z := 0x10 * PAGE_SIZE.
Definition PROCESS_MAX_PID : Z := 255.
Definition THREAD_MAX_PER_PROCESS : Z := 10.
Definition PROCESS_TYPE_KERNEL : Z := 0.
Definition PROCESS_TYPE_USER : Z := Z.shiftl 1 1.
Definition PROCESS_FLAG_LOAD : Z := Z.shiftl 1 1.
Definition PROCESS_STATE_ALIVE : Z := 0.
Definition PROCESS_STATE_ZOMBIE : Z := 1.
Definition THREAD_CREATEF_NOSTART_THREAD : Z := Z.shiftl 1 0.
Definition THREAD_CREATEF_DEEP_ARGV_COPY : Z := Z.shiftl 1 1.
Definition KERNEL_CS : Z := 8.
Definition KERNEL_DS : Z := 16.
Definition USER_CS : Z := 27.
Definition USER_DS : Z := 35.

(** state, parent, uid, gid, tid, cpu, event, interrupts (padded), kstack, 17
    registers and four lists. *)
Definition sizeof_thread : Z := 148.
(** Without the files, which have their own model, the size does not matter to the
    code; with 256 files of 32 bytes it is this. *)
Definition sizeof_process : Z := 8256.
Definition sizeof_as : Z := 36.

Record thread_regs := {
  gs : Z; fs : Z; es : Z; ds : Z;
  edi : Z; esi : Z; ebp : Z; kesp : Z; ebx : Z; edx : Z; ecx : Z; eax : Z;
  eip : Z; cs : Z; eflags : Z; esp : Z; ss : Z;
}.

(** [struct irq_regs]; [r_at] is its address. *)
Record irq_regs := {
  r_at : Z;
  r_gs : Z; r_fs : Z; r_es : Z; r_ds : Z;
  r_edi : Z; r_esi : Z; r_ebp : Z; r_ebx : Z; r_edx : Z; r_ecx : Z; r_eax : Z;
  r_eip : Z; r_cs : Z; r_eflags : Z; r_user_esp : Z; r_user_ss : Z;
}.
Definition sizeof_irq_regs : Z := 76.

Record tstruct := {
  t_parent : Z;
  tid : Z;
  uid : Z;
  gid : Z;
  kstack : Z;
  regs : thread_regs;
}.

Record process := {
  pid : Z;
  parent : Z;
  p_state : Z;
  exit_state : Z;
  ptype : Z;
  p_as : Z;
  thread_count : Z;
  plock : bool;
  p_threads : list Z;
  children : list Z;
}.

Definition with_pid (v : Z) (p : process) : process :=
  {| pid := v; parent := parent p; p_state := p_state p; exit_state := exit_state p; ptype := ptype p;
     p_as := p_as p; thread_count := thread_count p; plock := plock p; p_threads := p_threads p; children := children p |}.
Definition with_exit (st code : Z) (p : process) : process :=
  {| pid := pid p; parent := parent p; p_state := st; exit_state := code; ptype := ptype p;
     p_as := p_as p; thread_count := thread_count p; plock := plock p; p_threads := p_threads p; children := children p |}.
Definition with_plock (b : bool) (p : process) : process :=
  {| pid := pid p; parent := parent p; p_state := p_state p; exit_state := exit_state p; ptype := ptype p;
     p_as := p_as p; thread_count := thread_count p; plock := b; p_threads := p_threads p; children := children p |}.
Definition with_p_threads (n : Z) (l : list Z) (p : process) : process :=
  {| pid := pid p; parent := parent p; p_state := p_state p; exit_state := exit_state p; ptype := ptype p;
     p_as := p_as p; thread_count := n; plock := plock p; p_threads := l; children := children p |}.
Definition with_children (l : list Z) (p : process) : process :=
  {| pid := pid p; parent := parent p; p_state := p_state p; exit_state := exit_state p; ptype := ptype p;
     p_as := p_as p; thread_count := thread_count p; plock := plock p; p_threads := p_threads p; children := l |}.
Definition with_regs (r : thread_regs) (t : tstruct) : tstruct :=
  {| t_parent := t_parent t; tid := tid t; uid := uid t; gid := gid t; kstack := kstack t; regs := r |}.
Definition with_tid (n : Z) (t : tstruct) : tstruct :=
  {| t_parent := t_parent t; tid := n; uid := uid t; gid := gid t; kstack := kstack t; regs := regs t |}.
Definition with_kstack (a : Z) (t : tstruct) : tstruct :=
  {| t_parent := t_parent t; tid := tid t; uid := uid t; gid := gid t; kstack := a; regs := regs t |}.

(** The rest of the kernel.  Address spaces are known by their address, results 0
    are failures.  [map_kstack] is [as_map(&kernel_as, 0, 0, PAGE_SIZE,
    AS_MAP_WRITE)] and [unmap_kernel] is [as_unmap(&kernel_as, .., AS_UNMAP_RELEASE)];
    [stale] and [stale_event] are what a page so mapped holds where the fields
    [interrupts] and [event] of a new thread are.  [region_reserve_page] is
    [region_reserve(.., .., 1)], [segment_alloc_page] is [segment_alloc_address(1)],
    [as_map_user] maps one page for writing by the user and [setup_stack] is
    i386_setup_stack, which Stack.v models. *)
Class ProcOps (X : Type) := {
  mem_kmalloc : Z -> M X Z;
  mem_kfree : Z -> M X unit;
  kernel_as : Z;
  as_initialize : Z -> M X Z;
  as_duplicate : Z -> M X Z;
  as_destroy : Z -> M X unit;
  map_kstack : M X Z;
  unmap_kernel : Z -> M X unit;
  stale : X -> list Z;
  stale_event : X -> Z * Z;
  region_reserve_page : Z -> Z -> M X Z;
  segment_alloc_page : M X Z;
  as_map_user : Z -> Z -> Z -> M X Z;
  as_unmap_at : Z -> Z -> M X unit;
  setup_stack : Z -> Z -> Z -> option (list (list Z)) -> bool -> M X Z;
  load_elf : bool -> Z -> Z -> M X Z;
  files_clear : Z -> M X unit;
  files_inherit : Z -> Z -> M X unit;
  timer_oneshot : Z -> Z -> M X unit;
}.

Section ops.
Context {X : Type} `{!ProcOps X}.

Record kernel := {
  intrs : intr;
  processes : list Z;
  procs : gmap Z process;
  tstructs : gmap Z tstruct;
  rest : X;
}.
End ops.
Arguments kernel : clear implicits.

#[export] Instance kernel_intr {X} : HasIntr (kernel X).
Proof.
  refine {| intr_of := @intrs X;
            set_intr := fun i k => {| intrs := i; processes := processes k; procs := procs k;
                                      tstructs := tstructs k; rest := rest k |} |};
    [done|by intros []|done].
Defined.

Section code.
Context {X : Type} `{!ProcOps X}.
#[local] Abbreviation K := (sched (kernel X)).

Definition upd_kernel (f : kernel X -> kernel X) (s : K) : K := set_world (f (world s)) s.
Definition set_processes (l : list Z) (k : kernel X) : kernel X :=
  {| intrs := intrs k; processes := l; procs := procs k; tstructs := tstructs k; rest := rest k |}.
Definition set_procs (m : gmap Z process) (k : kernel X) : kernel X :=
  {| intrs := intrs k; processes := processes k; procs := m; tstructs := tstructs k; rest := rest k |}.
Definition set_tstructs (m : gmap Z tstruct) (k : kernel X) : kernel X :=
  {| intrs := intrs k; processes := processes k; procs := procs k; tstructs := m; rest := rest k |}.
Definition set_rest (x : X) (k : kernel X) : kernel X :=
  {| intrs := intrs k; processes := processes k; procs := procs k; tstructs := tstructs k; rest := x |}.

Definition on_rest {A} (m : M X A) : M K A :=
  zoom (fun s => rest (world s)) (fun x => upd_kernel (set_rest x)) m.

Definition proc_at (a : Z) : M K process := fun s =>
  match procs (world s) !! a with Some p => Done (p, s) | None => Undef end.
Definition update_proc (a : Z) (f : process -> process) : M K unit :=
  let! p := proc_at a in
  modify (upd_kernel (fun k => set_procs (<[a := f p]> (procs k)) k)).
Definition tstruct_at (t : Z) : M K tstruct := fun s =>
  match tstructs (world s) !! t with Some x => Done (x, s) | None => Undef end.
Definition update_tstruct (t : Z) (f : tstruct -> tstruct) : M K unit :=
  let! x := tstruct_at t in
  modify (upd_kernel (fun k => set_tstructs (<[t := f x]> (tstructs k)) k)).

Definition lock_proc (a : Z) : M K unit :=
  let! p := proc_at a in
  if plock p then (fun _ => Spin) else update_proc a (with_plock true).
Definition unlock_proc (a : Z) : M K unit := update_proc a (with_plock false).

(** [thread_current()] *)
Definition thread_current : M K Z := let! s := get in ret (running s).

(** The identifiers of the nodes of a list. *)
Fixpoint ids {A} (at_ : Z -> M K A) (id : A -> Z) (l : list Z) : M K (list Z) :=
  match l with
  | [] => ret []
  | a :: l =>
      let! x := at_ a in
      let! r := ids at_ id l in
      ret (id x :: r)
  end.

(** The loop of [thread_new_tid] and [process_new_pid]: the first of the [n]
    numbers from [id] on that is not in the list. *)
Fixpoint new_id (n : nat) (id : Z) (used : list Z) : Z :=
  match n with
  | O => -1
  | S n => if decide (id ∈ used) then new_id n (id + 1) used else id
  end.

(** ** kernel/arch/i386/thread.c *)

(** The user stack of thread [n], from the reservation of its region to
    i386_setup_stack: whether it succeeded, and [esp].  The page is unmapped at the
    address as_map returned, which is 0. *)
Definition user_stack (space n argc : Z) (argv : option (list (list Z))) (deep : bool) : M X (bool * Z) :=
  let! esp := region_reserve_page space (u32 (THREAD_STACK_BASE - n * THREAD_MAX_STACK_SIZE)) in
  if esp =? 0 then ret (false, 0)
  else
    let! phy_stack := segment_alloc_page in
    if phy_stack =? 0 then ret (false, esp)
    else
      let! esp := as_map_user space esp phy_stack in
      if esp =? 0 then
        as_unmap_at space esp ;;;
        ret (false, 0)
      else
        let esp := u32 (esp + STACK_TOP) in
        let! size := setup_stack esp phy_stack argc argv deep in
        ret (true, u32 (esp - size)).

(** The result and the registers. *)
Definition i386_thread_create (p : process) (t : tstruct) (entry argc : Z)
    (argv : option (list (list Z))) (deep : bool) : M K (bool * thread_regs) :=
  let set c d sp := let r := regs t in
    {| gs := d; fs := d; es := d; ds := d; edi := edi r; esi := esi r; ebp := ebp r; kesp := kesp r; ebx := ebx r;
       edx := edx r; ecx := ecx r; eax := eax r; eip := eip r; cs := c; eflags := eflags r; esp := sp; ss := d |} in
  let! x :=
    (if ptype p =? PROCESS_TYPE_KERNEL then ret (true, set KERNEL_CS KERNEL_DS (kstack t))
     else
       let! y := on_rest (user_stack (p_as p) (tid t) argc argv deep) in
       ret (y.1, set USER_CS USER_DS y.2)) in
  if negb x.1 then ret (false, x.2)
  else
    let r := x.2 in
    ret (true,
      {| gs := gs r; fs := fs r; es := es r; ds := ds r; edi := 0; esi := 0; ebp := 0; kesp := 0; ebx := 0; edx := 0;
         ecx := 0; eax := 0; eip := entry; cs := cs r; eflags := 0x200; esp := esp r; ss := ss r |}).

(** It returns 1, or panics. *)
Definition i386_thread_duplicate (r : irq_regs) : M K thread_regs :=
  if r_eip r >? KERNEL_BEGIN then kernel_panic "Fork new process eip is in kernel land... Humm ... :("
  else if r_cs r =? KERNEL_CS then kernel_panic "Forking kernel process... Funny :)"
  else ret
    {| gs := r_gs r; fs := r_fs r; es := r_es r; ds := r_ds r; edi := r_edi r; esi := r_esi r; ebp := r_ebp r;
       kesp := 0; ebx := r_ebx r; edx := r_edx r; ecx := r_ecx r; eax := 0; eip := r_eip r; cs := r_cs r;
       eflags := r_eflags r; esp := r_user_esp r; ss := r_user_ss r |}.

(** The saved value of [esp] in the frame is not copied ([kesp]). *)
Definition i386_thread_save_state (r : irq_regs) (old : thread_regs) : thread_regs :=
  {| gs := r_gs r; fs := r_fs r; es := r_es r; ds := r_ds r; edi := r_edi r; esi := r_esi r; ebp := r_ebp r;
     kesp := kesp old; ebx := r_ebx r; edx := r_edx r; ecx := r_ecx r; eax := r_eax r; eip := r_eip r; cs := r_cs r;
     eflags := r_eflags r;
     esp := if r_cs r =? KERNEL_CS then u32 (r_at r + sizeof_irq_regs - 8) else r_user_esp r;
     ss := if r_cs r =? KERNEL_CS then KERNEL_DS else r_user_ss r |}.

(** ** thread.c *)

Definition thread_new_tid (pa : Z) : M K Z :=
  let! p := proc_at pa in
  let! used := ids tstruct_at tid (p_threads p) in
  ret (new_id (Z.to_nat THREAD_MAX_PER_PROCESS) 0 used).

(** The structure of a new thread on the page [page], and its place. *)
Definition thread_place (page : Z) : Z := page + PAGE_SIZE - sizeof_thread.

(** The fields of the new thread are written through a pointer into the page. *)
Definition write_thread (t : Z) (x : tstruct) (ev : Z * Z) (flags : list Z) : M K unit :=
  modify (fun s =>
    set_threads (<[t := {| state := THREAD_STATE_RUNNING; event := ev.1; data := ev.2 |}]> (threads s)) s) ;;;
  modify (upd_kernel (fun k => set_tstructs (<[t := x]> (tstructs k)) k)) ;;;
  on_intr (modify (fun i => set_thread_interrupts (<[t := flags]> (thread_interrupts i)) i)).

(** The page of the thread is unmapped, and the thread with it. *)
Definition drop_thread (t addr : Z) : M K unit :=
  on_rest (unmap_kernel addr) ;;;
  modify (fun s => set_threads (delete t (threads s)) s) ;;;
  modify (upd_kernel (fun k => set_tstructs (delete t (tstructs k)) k)) ;;;
  on_intr (modify (fun i => set_thread_interrupts (delete t (thread_interrupts i)) i)).

(** Registers of a thread that has not run. *)
Definition no_regs : thread_regs :=
  {| gs := 0; fs := 0; es := 0; ds := 0; edi := 0; esi := 0; ebp := 0; kesp := 0; ebx := 0; edx := 0;
     ecx := 0; eax := 0; eip := 0; cs := 0; eflags := 0; esp := 0; ss := 0 |}.

(** The thread joins its process. *)
Definition join_process (pa t : Z) : M K unit :=
  update_proc pa (fun p => with_p_threads (u32 (thread_count p + 1)) (t :: p_threads p) p).

Definition thread_create (pa code argc : Z) (argv : option (list (list Z))) (flags : Z) : M K Z :=
  if code =? 0 then ret (-1)
  else
    let! n := thread_new_tid pa in
    if n <? 0 then ret (-1)
    else
      let! page := on_rest map_kstack in
      if page =? 0 then ret (-1)
      else
        let t := thread_place page in
        let x := {| t_parent := pa; tid := n; uid := 0; gid := 0; kstack := t - 4; regs := no_regs |} in
        write_thread t x (0, 0) no_flags ;;;
        let! p := proc_at pa in
        let! r := i386_thread_create p x code argc argv (negb (Z.land flags THREAD_CREATEF_DEEP_ARGV_COPY =? 0)) in
        update_tstruct t (with_regs r.2) ;;;
        if negb r.1 then drop_thread t t ;;; ret (-1)
        else
          join_process pa t ;;;
          (if Z.land flags THREAD_CREATEF_NOSTART_THREAD =? 0 then cpu_add_thread t else ret tt) ;;;
          ret n.

Fixpoint find_tid (l : list Z) (n : Z) : M K Z :=
  match l with
  | [] => ret 0
  | t :: l => let! x := tstruct_at t in if tid x =? n then ret t else find_tid l n
  end.

Definition thread_get (pa n : Z) : M K Z :=
  lock_proc pa ;;;
  let! p := proc_at pa in
  let! t := find_tid (p_threads p) n in
  unlock_proc pa ;;;
  ret t.

Definition thread_update_exec (t entry : Z) (argv : option (list (list Z))) : M K Z :=
  update_tstruct t (with_tid 0) ;;;
  let! x := tstruct_at t in
  let! p := proc_at (t_parent x) in
  let! r := i386_thread_create p x entry (Z.of_nat (length (default [] argv))) argv true in
  update_tstruct t (with_regs r.2) ;;;
  if negb r.1 then ret (-1) else ret 0.

(** The interrupts and the event of the thread that is duplicated are cleared, not
    those of the new one. *)
Definition thread_duplicate (pa t : Z) (r : irq_regs) : M K Z :=
  let! n := thread_new_tid pa in
  if n <? 0 then ret 0
  else
    let! page := on_rest map_kstack in
    if page =? 0 then ret 0
    else
      let new := thread_place page in
      let! old := tstruct_at t in
      let! s := get in
      write_thread new {| t_parent := pa; tid := n; uid := uid old; gid := gid old; kstack := new - 4;
                          regs := no_regs |} (stale_event (rest (world s))) (stale (rest (world s))) ;;;
      on_intr (flag_at t 0) ;;;
      on_intr (modify (fun i => set_thread_interrupts (<[t := no_flags]> (thread_interrupts i)) i)) ;;;
      update_thread (set_event 0 0) t ;;;
      let! r := i386_thread_duplicate r in
      update_tstruct new (with_regs r) ;;;
      join_process pa new ;;;
      cpu_add_thread new ;;;
      ret 1.

Definition thread_save_state (t : Z) (r : irq_regs) : M K unit :=
  update_tstruct t (fun x => with_regs (i386_thread_save_state r (regs x)) x).

(** The loop of [thread_exit], from interrupt [i] on. *)
Fixpoint release_interrupts (n : nat) (i t : Z) : M K unit :=
  match n with
  | O => ret tt
  | S n =>
      let! v := on_intr (flag_at t i) in
      (if Z.land v INTERRUPT_REGISTERED =? 0 then ret tt
       else on_intr (interrupt_unregister (i + IRQ_USER_BEGIN))) ;;;
      on_intr (set_flag t i 0) ;;;
      release_interrupts n (i + 1) t
  end.

Definition thread_exit (t : Z) : M K unit :=
  update_thread (set_state THREAD_STATE_ZOMBIE) t ;;;
  release_interrupts (Z.to_nat IRQ_USER_SIZE) 0 t.

(** [align(a, PAGE_SIZE)] *)
Definition align_page (a : Z) : Z := Z.land (u32 (a + PAGE_SIZE - 1)) (u32 (- PAGE_SIZE)).

(** ** process.c *)

Definition process_initialize : M K unit := modify (upd_kernel (set_processes [])).

Definition process_destroy (a : Z) : M K unit :=
  let! p := proc_at a in
  if pid p =? 1 then kernel_panic "Init has been killed"
  else
    on_rest (as_destroy (p_as p)) ;;;
    on_rest (mem_kfree (p_as p)) ;;;
    lock_proc a ;;;
    scheduler_event_notify SCHED_EV_PEXIT (pid p) ;;;
    let! q := proc_at (parent p) in
    scheduler_event_notify SCHED_EV_PEXIT_PARENT (pid q) ;;;
    unlock_proc a.

(** [thread_destroy] of thread.c. *)
Definition thread_destroy (t : Z) : M K unit :=
  update_tstruct t (fun x => with_kstack (u32 (align_page (kstack x) - PAGE_SIZE)) x) ;;;
  let! x := tstruct_at t in
  update_proc (t_parent x) (fun p => with_p_threads (u32 (thread_count p - 1))
    (filter (fun y => y <> t) (p_threads p)) p) ;;;
  let! p := proc_at (t_parent x) in
  (if thread_count p =? 0 then process_destroy (t_parent x) else ret tt) ;;;
  drop_thread t (kstack x).

End code.

#[export] Instance kernel_reaper_op {X} `{!ProcOps X} : ReaperOp (kernel X) := {| Scheduler.thread_destroy := thread_destroy |}.

Section life.
Context {X : Type} `{!ProcOps X}.
#[local] Abbreviation K := (sched (kernel X)).

(** The fields [init_process] does not set are kept. *)
Definition init_process (n ty par : Z) (p : process) : process :=
  {| pid := n; parent := par; p_state := PROCESS_STATE_ALIVE; exit_state := exit_state p; ptype := ty;
     p_as := p_as p; thread_count := 0; plock := false; p_threads := []; children := [] |}.

(** A [struct process] as [kmalloc] returns it; its fields are set before they are
    read. *)
Definition raw_process (space : Z) : process :=
  {| pid := 0; parent := 0; p_state := 0; exit_state := 0; ptype := 0; p_as := space;
     thread_count := 0; plock := false; p_threads := []; children := [] |}.

Definition put_proc (a : Z) (p : process) : M K unit :=
  modify (upd_kernel (fun k => set_procs (<[a := p]> (procs k)) k)).
Definition free_proc (a : Z) : M K unit :=
  on_rest (mem_kfree a) ;;;
  modify (upd_kernel (fun k => set_procs (delete a (procs k)) k)).

Definition process_new_pid : M K Z :=
  let! s := get in
  let! used := ids proc_at pid (processes (world s)) in
  ret (new_id (Z.to_nat PROCESS_MAX_PID) 0 used).

Fixpoint find_pid (l : list Z) (n : Z) : M K Z :=
  match l with
  | [] => ret 0
  | a :: l => let! p := proc_at a in if pid p =? n then ret a else find_pid l n
  end.
Definition process_get (n : Z) : M K Z :=
  let! s := get in find_pid (processes (world s)) n.

(** [klist_add(&processes, &process->list)] *)
Definition add_process (a : Z) : M K unit :=
  modify (upd_kernel (fun k => set_processes (a :: processes k) k)).

(** The label [error] of [process_create]. *)
Definition create_error (a : Z) : M K Z :=
  let! p := proc_at a in
  (if p_as p =? kernel_as then ret tt else on_rest (as_destroy (p_as p))) ;;;
  free_proc a ;;;
  ret 0.

Definition process_create (ty code flags : Z) (argv : option (list (list Z))) : M K Z :=
  let! n := process_new_pid in
  if n <? 0 then ret 0
  else
    let! a := on_rest (mem_kmalloc sizeof_process) in
    if a =? 0 then ret 0
    else
      let! ok :=
        (if Z.land ty PROCESS_TYPE_USER =? 0 then
           put_proc a (raw_process kernel_as) ;;; ret true
         else
           let! space := on_rest (mem_kmalloc sizeof_as) in
           put_proc a (raw_process space) ;;;
           let! r := on_rest (as_initialize space) in
           ret (negb (r =? 0))) in
      if negb ok then create_error a
      else
        let! init := process_get 1 in
        update_proc a (init_process n ty init) ;;;
        on_rest (files_clear a) ;;;
        let! entry :=
          (if Z.land flags PROCESS_FLAG_LOAD =? 0 then ret (Some code)
           else
             let! t := thread_current in
             let! p := proc_at a in
             let! need_kernel :=
               (if t =? 0 then ret true
                else let! x := tstruct_at t in
                     let! q := proc_at (t_parent x) in
                     ret (negb (p_as q =? p_as p))) in
             let! e := on_rest (load_elf need_kernel (p_as p) code) in
             ret (if e =? 0 then None else Some e)) in
        match entry with
        | None => create_error a
        | Some code =>
            let! r := (if code =? 0 then ret 0
                       else thread_create a code (Z.of_nat (length (default [] argv))) argv
                              THREAD_CREATEF_DEEP_ARGV_COPY) in
            if r <? 0 then create_error a
            else
              add_process a ;;;
              ret a
        end.

Definition process_fork (a : Z) (r : irq_regs) : M K Z :=
  let! n := process_new_pid in
  if n =? 0 then ret (- EAGAIN)
  else
    let! child := on_rest (mem_kmalloc sizeof_process) in
    if child =? 0 then ret (- ENOMEM)
    else
      let! p := proc_at a in
      let! space := on_rest (as_duplicate (p_as p)) in
      put_proc child (raw_process space) ;;;
      if space =? 0 then
        free_proc child ;;;
        ret (- EAGAIN)
      else
        update_proc child (init_process n (ptype p) a) ;;;
        let! t := thread_current in
        let! ok := thread_duplicate child t r in
        if ok =? 0 then
          on_rest (as_destroy space) ;;;
          free_proc child ;;;
          ret (- ENOMEM)
        else
          on_rest (files_inherit child a) ;;;
          update_proc a (fun p => with_children (child :: children p) p) ;;;
          add_process child ;;;
          ret n.

Fixpoint exit_threads (l : list Z) : M K unit :=
  match l with
  | [] => ret tt
  | t :: l => thread_exit t ;;; exit_threads l
  end.

Definition process_exit (fuel : nat) (a code : Z) : M K (option Z) :=
  lock_proc a ;;;
  update_proc a (with_exit PROCESS_STATE_ZOMBIE code) ;;;
  unlock_proc a ;;;
  let! p := proc_at a in
  exit_threads (p_threads p) ;;;
  modify (set_time 1) ;;;
  scheduler_update fuel true true.

(** ** thread_sleep of thread.c *)

Definition thread_sleep (fuel : nat) (t ms : Z) (r : irq_regs) : M K (option Z) :=
  let! x := tstruct_at t in
  let! p := proc_at (t_parent x) in
  let d := Z.lor (u32 (Z.shiftl (pid p) 16)) (tid x) in
  thread_save_state t r ;;;
  on_rest (timer_oneshot ms d) ;;;
  thread_block fuel t SCHED_EV_TIMER d.

(** ** wait.c *)

(** [klist_del(&child->brothers)]: the field is set by [process_fork] only. *)
Definition remove_process (child : Z) : M K unit :=
  let! c := proc_at child in
  let! p := proc_at (parent c) in
  if decide (child ∈ children p) then
    update_proc (parent c) (fun p => with_children (filter (fun x => x <> child) (children p)) p) ;;;
    modify (upd_kernel (fun k => set_processes (filter (fun x => x <> child) (processes k)) k)) ;;;
    update_proc child (with_pid (-1))
  else undef.

(** What [find_child] does once the child is a zombie: the pid and the status. *)
Definition collect_child (child n : Z) : M K (Z * Z) :=
  let! c := proc_at child in
  remove_process child ;;;
  ret (n, exit_state c).

Inductive waited := Waited (r : Z * Z) | WaitSwitched (next : option Z).

Definition find_child (fuel : nat) (a n : Z) : M K waited :=
  let! child := process_get n in
  if child =? 0 then ret (Waited (- ECHILD, 0))
  else
    let! c := proc_at child in
    if negb (parent c =? a) then ret (Waited (- ECHILD, 0))
    else
      lock_proc child ;;;
      if p_state c =? PROCESS_STATE_ZOMBIE then
        unlock_proc child ;;;
        let! r := collect_child child n in
        ret (Waited r)
      else
        let! t := thread_current in
        thread_block_prepare t SCHED_EV_PEXIT n ;;;
        unlock_proc child ;;;
        let! next := thread_block_commit fuel t in
        ret (WaitSwitched next).

Definition process_waitpid (fuel : nat) (a n : Z) : M K waited := find_child fuel a n.

(** ** kthread.c *)

Definition kthread_initialize : M K Z :=
  let! kproc := process_create PROCESS_TYPE_KERNEL 0 0 None in
  if kproc =? 0 then kernel_panic "Fail to initialize kthreads" else ret kproc.

Definition kthread_create (kproc code argc : Z) (argv : option (list (list Z))) : M K Z :=
  let! n := thread_create kproc code argc argv THREAD_CREATEF_NOSTART_THREAD in
  if n <? 0 then ret 0
  else
    let! t := thread_get kproc n in
    if t =? 0 then kernel_panic "Thread get == NULL after thread_create()" else ret t.

End life.

(** ** What processes rely on

    [mem_ok] is the invariant of the rest of the kernel, [blocks] the blocks of the
    heap that process.c has got and not given back, [spaces] the address spaces in use and
    [pages] the pages mapped for kernel stacks.  kmalloc panics on a full heap, so what
    allocates has a law only while [serves x k] holds with [k > 0]: the heap has room for
    [k] more of these operations.  A block that as_duplicate loses when it fails (as.c:297)
    is in no set; it is paid for by [serves]. *)
Class ProcEnv (X : Type) `{!ProcOps X} := {
  mem_ok : X -> Prop;
  blocks : X -> gset Z;
  spaces : X -> gset Z;
  pages : X -> gset Z;
  serves : X -> nat -> Prop;
  pages_aligned : forall x v, mem_ok x -> v ∈ pages x -> v mod PAGE_SIZE = 0 /\ 0 < v <= 2 ^ 32 - 2 * PAGE_SIZE;
  blocks_pos : forall x a, mem_ok x -> a ∈ blocks x -> 0 < a;
  kmalloc_ok : forall x n k, mem_ok x -> n = sizeof_process \/ n = sizeof_as -> serves x (S k) ->
    wp (mem_kmalloc n) x (fun a x' =>
    mem_ok x' /\ serves x' k /\ spaces x' = spaces x /\ pages x' = pages x /\
    ((a = 0 /\ blocks x' = blocks x) \/ (0 < a /\ (a ∉ blocks x) /\ blocks x' = {[a]} ∪ blocks x)));
  spaces_blocks : forall x v, mem_ok x -> v ∈ spaces x -> v = kernel_as \/ v ∈ blocks x;
  kernel_as_static : forall x, mem_ok x -> kernel_as ∉ blocks x;
  kfree_ok : forall x a, mem_ok x -> a ∈ blocks x -> (a ∉ spaces x) -> wp (mem_kfree a) x (fun _ x' =>
    mem_ok x' /\ spaces x' = spaces x /\ pages x' = pages x /\ blocks x' = blocks x ∖ {[a]});
  as_duplicate_ok : forall x a k, mem_ok x -> a ∈ spaces x -> serves x (S k) -> wp (as_duplicate a) x (fun b x' =>
    mem_ok x' /\ serves x' k /\ pages x' = pages x /\
    ((b = 0 /\ spaces x' = spaces x /\ blocks x' = blocks x) \/
     (0 < b /\ (b ∉ blocks x) /\ (b ∉ spaces x) /\ b <> kernel_as /\
      spaces x' = {[b]} ∪ spaces x /\ blocks x' = {[b]} ∪ blocks x)));
  as_destroy_ok : forall x a, mem_ok x -> a ∈ spaces x -> a <> kernel_as -> wp (as_destroy a) x (fun _ x' =>
    mem_ok x' /\ pages x' = pages x /\ blocks x' = blocks x /\ spaces x' = spaces x ∖ {[a]});
  map_kstack_ok : forall x k, mem_ok x -> serves x (S k) -> wp map_kstack x (fun v x' =>
    mem_ok x' /\ serves x' k /\ spaces x' = spaces x /\ blocks x' = blocks x /\
    ((v = 0 /\ pages x' = pages x) \/ ((v ∉ pages x) /\ v <> 0 /\ pages x' = {[v]} ∪ pages x)));
  unmap_kernel_ok : forall x v a, mem_ok x -> v ∈ pages x -> v <= a < v + PAGE_SIZE ->
    wp (unmap_kernel a) x (fun _ x' =>
      mem_ok x' /\ spaces x' = spaces x /\ blocks x' = blocks x /\ pages x' = pages x ∖ {[v]});
  files_inherit_ok : forall x c p k, mem_ok x -> c ∈ blocks x -> p ∈ blocks x -> serves x (S k) ->
    wp (files_inherit c p) x (fun _ x' =>
    mem_ok x' /\ spaces x' = spaces x /\ blocks x' = blocks x /\ pages x' = pages x);
}.

End Process.
