(* ===== verification/ProcessInv.v ===== *)
(** The invariant of processes and threads, and what the operations of Process.v do
    to it. *)

From S2P Require Import Prelude Scheduler Interrupt Process.

Module ProcessInv.
Export Process.

Section inv.
Context {X : Type} `{!ProcOps X} `{!ProcEnv X}.
#[local] Abbreviation K := (sched (kernel X)).
Implicit Types (s : K) (a t : Z) (p : process) (x : tstruct).

Definition procs_of s : gmap Z process := procs (world s).
Definition tstructs_of s : gmap Z tstruct := tstructs (world s).
Definition rest_of s : X := rest (world s).

(** The page of a thread. *)
Definition page_of t : Z := t + sizeof_thread - PAGE_SIZE.

(** A process and its threads. *)
Record proc_ok s a p : Prop := {
  po_lock : plock p = false;
  po_nodup : NoDup (p_threads p);
  po_count : thread_count p = Z.of_nat (length (p_threads p));
  po_small : Z.of_nat (length (p_threads p)) <= THREAD_MAX_PER_PROCESS;
  po_threads : forall t, t ∈ p_threads p -> exists x, tstructs_of s !! t = Some x /\ t_parent x = a;
  po_block : a ∈ blocks (rest_of s);
  po_space : p_threads p <> [] -> p_as p ∈ spaces (rest_of s);
  po_zombie : p_state p = PROCESS_STATE_ZOMBIE -> p_threads p <> [] ->
    pid p <> 1 /\ p_as p <> kernel_as /\ p_as p ∈ blocks (rest_of s) /\ is_Some (procs_of s !! parent p);
}.

(** A thread, its process and its stack. *)
Record thread_ok s t x : Prop := {
  to_proc : exists p, procs_of s !! t_parent x = Some p /\ t ∈ p_threads p;
  to_thread : is_Some (threads s !! t);
  to_flags : is_Some (thread_interrupts (intr_s s) !! t);
  to_kstack : kstack x = t - 4;
  to_page : page_of t ∈ pages (rest_of s);
  to_zombie : has_state THREAD_STATE_ZOMBIE s t ->
    (forall p, procs_of s !! t_parent x = Some p -> p_state p = PROCESS_STATE_ZOMBIE) /\
    (forall u, user_irq u -> ~ registered (intr_s s) t u);
}.

(** Who waits for the end of a process: blocked threads, which are out of the queue
    when the process is a zombie. *)
Record waiters_ok s : Prop := {
  wo_lists : exists l, waiting s !! 4%nat = Some l /\ waiting s !! 5%nat = Some [] /\ NoDup l /\ (idle s ∉ l) /\
    forall t, t ∈ l -> has_state THREAD_STATE_BLOCKED s t /\ (forall th, threads s !! t = Some th -> 0 <= data th) /\
      forall a p, procs_of s !! a = Some p -> p_state p = PROCESS_STATE_ZOMBIE -> p_threads p <> [] ->
        waits_for s SCHED_EV_PEXIT (pid p) t -> t ∉ queue s;
}.

Record kernel_ok s : Prop := {
  ko_mem : mem_ok (rest_of s);
  ko_intr : intr_ok (intr_s s);
  ko_procs : forall a p, procs_of s !! a = Some p -> proc_ok s a p;
  ko_threads : forall t x, tstructs_of s !! t = Some x -> thread_ok s t x;
  ko_known : forall t, is_Some (threads s !! t) \/ is_Some (thread_interrupts (intr_s s) !! t) -> is_Some (tstructs_of s !! t);
  ko_spaces : forall a b p q, procs_of s !! a = Some p -> procs_of s !! b = Some q ->
    p_threads p <> [] -> p_as p = p_as q -> p_threads q <> [] -> p_as p <> kernel_as -> a = b;
  ko_apart : forall a b p, procs_of s !! a = Some p -> procs_of s !! b <> None -> p_threads p <> [] -> p_as p <> b;
  ko_list : NoDup (processes (world s)) /\ forall a, a ∈ processes (world s) -> is_Some (procs_of s !! a);
  ko_pid : forall a p, a ∈ processes (world s) -> procs_of s !! a = Some p -> 0 <= pid p;
  ko_pids : forall a b p q, a ∈ processes (world s) -> b ∈ processes (world s) ->
    procs_of s !! a = Some p -> procs_of s !! b = Some q -> pid p = pid q -> a = b;
  ko_waiters : waiters_ok s;
}.


(** ** Rules for the parts of the state *)

Definition put_p a p s : K := upd_kernel (fun k => set_procs (<[a := p]> (procs k)) k) s.
Definition put_t t x s : K := upd_kernel (fun k => set_tstructs (<[t := x]> (tstructs k)) k) s.
Definition put_x (r : X) s : K := upd_kernel (set_rest r) s.

Lemma wp_proc_at a p s (Q : process -> K -> Prop) : procs_of s !! a = Some p -> Q p s -> wp (proc_at a) s Q.
Proof. unfold wp, proc_at, procs_of. by intros ->. Qed.
Lemma wp_update_proc a p f s (Q : unit -> K -> Prop) :
  procs_of s !! a = Some p -> Q tt (put_p a (f p) s) -> wp (update_proc a f) s Q.
Proof. intros Hp HQ. unfold update_proc. apply wp_bind. by eapply wp_proc_at. Qed.
Lemma wp_tstruct_at t x s (Q : tstruct -> K -> Prop) : tstructs_of s !! t = Some x -> Q x s -> wp (tstruct_at t) s Q.
Proof. unfold wp, tstruct_at, tstructs_of. by intros ->. Qed.
Lemma wp_update_tstruct t x f s (Q : unit -> K -> Prop) :
  tstructs_of s !! t = Some x -> Q tt (put_t t (f x) s) -> wp (update_tstruct t f) s Q.
Proof. intros Hx HQ. unfold update_tstruct. apply wp_bind. by eapply wp_tstruct_at. Qed.
Lemma wp_on_rest {A} (m : M X A) s (Q : A -> K -> Prop) :
  wp m (rest_of s) (fun r y => Q r (put_x y s)) -> wp (on_rest m) s Q.
Proof. apply wp_zoom. Qed.
Lemma wp_lock_proc a p s (Q : unit -> K -> Prop) :
  procs_of s !! a = Some p -> plock p = false -> Q tt (put_p a (with_plock true p) s) -> wp (lock_proc a) s Q.
Proof.
  intros Hp Hl HQ. unfold lock_proc. apply wp_bind. eapply wp_proc_at; [done|]. rewrite Hl. by eapply wp_update_proc.
Qed.

Lemma put_p_twice a p q s : put_p a p (put_p a q s) = put_p a p s.
Proof. unfold put_p, upd_kernel, set_world. simpl. unfold set_procs. simpl. by rewrite insert_insert_eq. Qed.

(** The invariant depends on the scheduler through the threads and the queues only. *)
Lemma kernel_ok_frame s s' :
  kernel_ok s -> world s' = world s -> threads s' = threads s -> waiting s' = waiting s -> idle s' = idle s ->
  (forall y, y ∈ queue s' -> y ∈ queue s) ->
  (forall y, has_state THREAD_STATE_RUNNING s y -> y ∈ queue s -> y ∈ queue s') -> kernel_ok s'.
Proof.
  intros [Hm Hi Hp Ht Hk Hs Ha Hls Hpp Hpi [Hw]] Hworld Hth Hwt Hid Hq _.
  destruct s as [t1 r1 i1 n1 l1 q1 e1 w1 ths1 k1], s' as [t2 r2 i2 n2 l2 q2 e2 w2 ths2 k2]. simpl in *. subst.
  split; [done|done| | |done|done|done|done|done|done|].
  - intros a p Hap. by destruct (Hp a p Hap).
  - intros t x Htx. by destruct (Ht t x Htx).
  - destruct Hw as (l & H4 & H5 & Hnd & Hil & Hall). split. exists l. split_and!; try done.
    intros t Htl. destruct (Hall t Htl) as (Hb & Hd & Hz). split_and!; [done..|].
    intros a p Hap Hzo Hne Hwf Hin. by apply (Hz a p Hap Hzo Hne Hwf), Hq.
Qed.

Lemma kstack_page t :
  page_of t mod PAGE_SIZE = 0 -> 0 < page_of t <= 2 ^ 32 - 2 * PAGE_SIZE ->
  u32 (align_page (t - 4) - PAGE_SIZE) = page_of t.
Proof.
  unfold page_of, align_page, sizeof_thread, PAGE_SIZE. intros Hm Hb.
  rewrite (u32_small (t - 4 + 4096 - 1)) by lia. change (u32 (- 4096)) with (2 ^ 32 - 2 ^ 12).
  rewrite (land_mask _ 12) by lia. change (2 ^ 12) with 4096.
  assert (t + 148 - 4096 = 4096 * ((t + 148 - 4096) / 4096)) as Hd by (apply Z.div_exact; lia).
  set (q := (t + 148 - 4096) / 4096) in *.
  assert ((t - 4 + 4096 - 1) / 4096 = q + 1) as ->.
  { symmetry. apply (Z.div_unique _ _ _ (t - 4 + 4096 - 1 - 4096 * (q + 1))); lia. }
  rewrite u32_small; lia.
Qed.

(** The address of a thread is not NULL. *)
Lemma thread_addr s t x : kernel_ok s -> tstructs_of s !! t = Some x -> t <> 0.
Proof.
  intros Hok Hx ->. pose proof (to_page _ _ _ (ko_threads s Hok 0 x Hx)) as Hpg.
  destruct (pages_aligned _ _ (ko_mem s Hok) Hpg) as [_ Hpos]. unfold page_of, sizeof_thread, PAGE_SIZE in Hpos. lia.
Qed.

(** ** Destruction *)

Lemma procs_put_x (r : X) s : procs_of (put_x r s) = procs_of s.
Proof. done. Qed.

(** The end of a process whose threads are gone. *)
Lemma process_destroy_ok s a p l :
  procs_of s !! a = Some p -> pid p <> 1 -> plock p = false -> is_Some (procs_of s !! parent p) ->
  mem_ok (rest_of s) -> p_as p ∈ spaces (rest_of s) -> p_as p <> kernel_as -> p_as p ∈ blocks (rest_of s) ->
  sched_lock s = false -> event_lock s = false ->
  waiting s !! 4%nat = Some l -> waiting s !! 5%nat = Some [] -> NoDup l ->
  (forall t, t ∈ l -> is_Some (threads s !! t) /\ (waits_for s SCHED_EV_PEXIT (pid p) t -> t ∉ queue s)) ->
  wp (process_destroy a) s (fun _ s' => exists r',
    let woken := filter (fun t => waits_for s SCHED_EV_PEXIT (pid p) t) l in
    mem_ok r' /\ pages r' = pages (rest_of s) /\ blocks r' = blocks (rest_of s) ∖ {[p_as p]} /\
    spaces r' = spaces (rest_of s) ∖ {[p_as p]} /\
    world s' = set_rest r' (world s) /\ sched_lock s' = false /\ event_lock s' = false /\
    running s' = running s /\ idle s' = idle s /\ queue s' = queue s ++ woken /\
    waiting s' = <[4%nat := filter (fun t => ~ waits_for s SCHED_EV_PEXIT (pid p) t) l]> (waiting s) /\
    (forall y, threads s' !! y = if decide (y ∈ woken)
                                 then set_state THREAD_STATE_RUNNING <$> threads s !! y
                                 else threads s !! y)).
Proof.
  intros Hp Hpid Hlk [q Hq] Hm Hsp Hk Hbl Hsl Hel H4 H5 Hnd Hall. unfold process_destroy.
  apply wp_bind. eapply wp_proc_at; [done|]. rewrite (proj2 (Z.eqb_neq _ 1)) by done.
  apply wp_bind, wp_on_rest. eapply wp_mono; [by apply as_destroy_ok|]. intros _ r1 (Hm1 & Hpg1 & Hbl1 & Hsp1).
  apply wp_bind, wp_on_rest. change (rest_of (put_x r1 s)) with r1.
  eapply wp_mono; [apply kfree_ok; [done|by rewrite Hbl1|rewrite Hsp1; set_solver]|]. intros _ r2 (Hm2 & Hsp2 & Hpg2 & Hbl2).
  change (put_x r2 (put_x r1 s)) with (put_x r2 s).
  apply wp_bind. eapply wp_lock_proc; [exact Hp|done|]. set (s1 := put_p a _ _).
  apply wp_bind. eapply wp_mono; [by apply (scheduler_event_notify_exact s1 SCHED_EV_PEXIT (pid p) l)|].
  change (waits_for s1) with (waits_for s). intros _ s2 (Hl2 & He2 & Hq2 & Hw2 & Hr2 & Hi2 & Hwd2 & Hth2).
  assert (procs_of s2 = <[a := with_plock true p]> (procs_of s)) as Hprocs by (unfold procs_of; by rewrite Hwd2).
  assert (exists q', procs_of s2 !! parent p = Some q') as [q' Hq'].
  { rewrite Hprocs. destruct (decide (parent p = a)) as [->|]; [rewrite lookup_insert_eq; eauto|].
    rewrite lookup_insert_ne by done. eauto. }
  apply wp_bind. eapply wp_proc_at; [exact Hq'|].
  assert (waiting s2 !! 5%nat = Some []) as H5'.
  { rewrite Hw2. change (Z.to_nat (SCHED_EV_PEXIT - 1)) with 4%nat. by rewrite list_lookup_insert_ne. }
  apply wp_bind. eapply wp_mono.
  { apply (scheduler_event_notify_exact s2 SCHED_EV_PEXIT_PARENT (pid q') []); try done; [constructor|].
    intros t Ht. by apply not_elem_of_nil in Ht. }
  rewrite !filter_nil. intros _ s3 (Hl3 & He3 & Hq3 & Hw3 & Hr3 & Hi3 & Hwd3 & Hth3).
  assert (procs_of s3 !! a = Some (with_plock true p)) as Ha3.
  { unfold procs_of in *. rewrite Hwd3, Hprocs. apply lookup_insert_eq. }
  eapply wp_update_proc; [exact Ha3|].
  exists r2. cbv zeta. split_and!; try done.
  - by rewrite Hpg2.
  - by rewrite Hbl2, Hbl1.
  - by rewrite Hsp2.
  - unfold put_p, upd_kernel. simpl. rewrite Hwd3, Hwd2. simpl. unfold set_procs, set_rest. simpl.
    rewrite insert_insert_eq, insert_id; [done|]. simpl. rewrite <-Hlk. by destruct p.
  - simpl. rewrite Hr3, Hr2. done.
  - simpl. by rewrite Hi3, Hi2.
  - simpl. rewrite Hq3, Hq2. by rewrite app_nil_r.
  - simpl. rewrite Hw3. rewrite list_insert_id by done. by rewrite Hw2.
  - intros y. simpl. rewrite Hth3. rewrite decide_False by apply not_elem_of_nil. apply Hth2.
Qed.

(** Process [p] without its thread [t]. *)
Definition without t p : process :=
  with_p_threads (u32 (thread_count p - 1)) (filter (fun y => y <> t) (p_threads p)) p.

(** The threads of [l] that the end of a thread of [p] wakes, and those that go on
    waiting: the last thread of a process takes it with it. *)
Definition wakes s t p (l woken l' : list Z) : Prop :=
  (p_threads (without t p) = [] /\ woken = filter (fun y => waits_for s SCHED_EV_PEXIT (pid p) y) l /\
   l' = filter (fun y => ~ waits_for s SCHED_EV_PEXIT (pid p) y) l) \/
  (p_threads (without t p) <> [] /\ woken = [] /\ l' = l).

(** What [thread_destroy] leaves: thread [t] of process [a] is gone, [woken] are the
    threads that were woken and [l'] those that still wait for a process. *)
Record reaped s s' t a p (woken l' : list Z) : Prop := {
  rp_procs : procs_of s' = <[a := without t p]> (procs_of s);
  rp_list : processes (world s') = processes (world s);
  rp_tstructs : tstructs_of s' = delete t (tstructs_of s);
  rp_intr : intr_s s' = set_thread_interrupts (delete t (thread_interrupts (intr_s s))) (intr_s s);
  rp_mem : mem_ok (rest_of s');
  rp_pages : pages (rest_of s') = pages (rest_of s) ∖ {[page_of t]};
  rp_live : (p_threads (without t p) = [] /\ blocks (rest_of s') = blocks (rest_of s) ∖ {[p_as p]} /\
             spaces (rest_of s') = spaces (rest_of s) ∖ {[p_as p]}) \/
            (p_threads (without t p) <> [] /\ blocks (rest_of s') = blocks (rest_of s) /\
             spaces (rest_of s') = spaces (rest_of s));
  rp_threads : forall y, threads s' !! y = if decide (y = t) then None
                 else if decide (y ∈ woken) then set_state THREAD_STATE_RUNNING <$> threads s !! y
                 else threads s !! y;
  rp_queue : queue s' = queue s ++ woken;
  rp_waiting : waiting s' = <[4%nat := l']> (waiting s);
  rp_locks : sched_lock s' = false /\ event_lock s' = false;
  rp_same : running s' = running s /\ idle s' = idle s;
}.

(** Who is woken and who goes on waiting. *)
Definition parts (l woken l' : list Z) (q : list Z) : Prop :=
  NoDup woken /\ NoDup l' /\ (forall t, t ∈ woken -> t ∈ l /\ (t ∉ q) /\ t ∉ l') /\ (forall t, t ∈ l' -> t ∈ l).

Lemma filter_parts (P : Z -> Prop) `{!forall t, Decision (P t)} l q :
  NoDup l -> (forall t, t ∈ l -> P t -> t ∉ q) -> parts l (filter P l) (filter (fun t => ~ P t) l) q.
Proof.
  intros Hnd Hq. split_and!.
  - by apply NoDup_filter.
  - by apply NoDup_filter.
  - intros t [Ht Hl]%list_elem_of_filter. split_and!; [done|by apply Hq|]. rewrite list_elem_of_filter. tauto.
  - intros t [_ Hl]%list_elem_of_filter. done.
Qed.

Lemma drop_thread_ok s t addr (Q : unit -> K -> Prop) :
  mem_ok (rest_of s) -> page_of t ∈ pages (rest_of s) -> page_of t <= addr < page_of t + PAGE_SIZE ->
  (forall r', mem_ok r' -> spaces r' = spaces (rest_of s) -> blocks r' = blocks (rest_of s) ->
     pages r' = pages (rest_of s) ∖ {[page_of t]} ->
     Q tt (set_intr_s (set_thread_interrupts (delete t (thread_interrupts (intr_s s))) (intr_s s))
       (upd_kernel (fun k => set_tstructs (delete t (tstructs k)) k)
         (set_threads (delete t (threads s)) (put_x r' s))))) ->
  wp (drop_thread t addr) s Q.
Proof.
  intros Hm Hp Ha HQ. unfold drop_thread. apply wp_bind, wp_on_rest.
  eapply wp_mono; [by apply (unmap_kernel_ok _ (page_of t))|]. intros _ r' (Hm' & Hsp & Hbl & Hpg).
  apply wp_bind, wp_modify, wp_bind, wp_modify. apply wp_zoom. apply wp_modify. by apply HQ.
Qed.

Lemma without_count t p :
  NoDup (p_threads p) -> t ∈ p_threads p -> thread_count p = Z.of_nat (length (p_threads p)) ->
  Z.of_nat (length (p_threads p)) <= THREAD_MAX_PER_PROCESS ->
  thread_count (without t p) = Z.of_nat (length (p_threads (without t p))) /\
  length (p_threads p) = S (length (p_threads (without t p))).
Proof.
  intros Hnd Ht Hc Hs. apply list_elem_of_split in Ht as (l1 & l2 & Hl). unfold without. simpl. rewrite Hc.
  rewrite Hl in *. rewrite filter_ne_middle by done. rewrite !length_app in *. simpl in *. unfold THREAD_MAX_PER_PROCESS in *.
  rewrite u32_small by lia. split; lia.
Qed.

Lemma thread_destroy_runs s t :
  kernel_ok s -> sched_lock s = false -> event_lock s = false -> (t ∉ queue s) ->
  has_state THREAD_STATE_ZOMBIE s t ->
  wp (thread_destroy t) s (fun _ s' => exists x p l woken l',
    tstructs_of s !! t = Some x /\ procs_of s !! t_parent x = Some p /\ waiting s !! 4%nat = Some l /\
    parts l woken l' (queue s) /\ wakes s t p l woken l' /\ reaped s s' t (t_parent x) p woken l').
Proof.
  intros Hok Hsl Hel Htq Hz. pose proof Hok as [Hm Hi Hprocs Hths Hknown Hspaces Hapart Hlist Hpidp Hpids [(l & H4 & H5 & Hnd & _ & Hall)]].
  destruct (Hknown t) as [x Hx]. { left. destruct Hz as (th & ? & _). eauto. }
  pose proof (Hths t x Hx) as [(p & Hp & Htp) _ _ Hks Hpage Hzo]. destruct (Hzo Hz) as [Hzp Hquiet].
  specialize (Hzp p Hp). pose proof (Hprocs _ p Hp) as [Hplk Hpnd Hpc Hps Hpt Hpb Hpsp Hpz].
  assert (p_threads p <> []) as Hne by (intros E; rewrite E in Htp; by apply not_elem_of_nil in Htp).
  destruct (Hpz Hzp Hne) as (Hpid & Hkas & Hasb & [q Hq]). set (a := t_parent x) in *.
  destruct (pages_aligned _ _ Hm Hpage) as [Hal Hpos].
  unfold thread_destroy. apply wp_bind. eapply wp_update_tstruct; [exact Hx|].
  rewrite Hks, kstack_page by done. set (x' := with_kstack (page_of t) x). set (s1 := put_t t x' s).
  apply wp_bind. eapply (wp_tstruct_at _ x'); [apply lookup_insert_eq|]. change (t_parent x') with a.
  apply wp_bind. eapply (wp_update_proc a p); [exact Hp|]. set (s2 := put_p a _ s1).
  apply wp_bind. eapply (wp_proc_at a (without t p)); [apply lookup_insert_eq|].
  change (kstack x') with (page_of t). apply wp_bind.
  apply (wp_mono _ _ (fun _ s3 => exists r' woken l', parts l woken l' (queue s) /\ wakes s t p l woken l' /\
    mem_ok r' /\ pages r' = pages (rest_of s) /\
    ((p_threads (without t p) = [] /\ blocks r' = blocks (rest_of s) ∖ {[p_as p]} /\
      spaces r' = spaces (rest_of s) ∖ {[p_as p]}) \/
     (p_threads (without t p) <> [] /\ blocks r' = blocks (rest_of s) /\ spaces r' = spaces (rest_of s))) /\
    world s3 = set_rest r' (world s2) /\ sched_lock s3 = false /\ event_lock s3 = false /\
    running s3 = running s /\ idle s3 = idle s /\ queue s3 = queue s ++ woken /\
    waiting s3 = <[4%nat := l']> (waiting s) /\
    (forall y, threads s3 !! y = if decide (y ∈ woken)
                                 then set_state THREAD_STATE_RUNNING <$> threads s !! y
                                 else threads s !! y))).
  - destruct (without_count t p Hpnd Htp Hpc Hps) as [Hc' Hlen]. rewrite Hc'.
    destruct (Z.eqb_spec (Z.of_nat (length (p_threads (without t p)))) 0) as [Hz0|Hz0].
    + assert (p_threads (without t p) = []) as Hnil by (apply nil_length_inv; lia).
      eapply wp_mono; [apply (process_destroy_ok s2 a (without t p) l); try done|].
      * apply lookup_insert_eq.
      * change (parent (without t p)) with (parent p). unfold procs_of. simpl. apply lookup_insert_is_Some'. right. by exists q.
      * exact (Hpsp Hne).
      * intros t' Ht'. destruct (Hall t' Ht') as [(th & Hth & _) [_ Hw]]. split; [by exists th|]. by apply (Hw a p).
      * intros _ s3 (r' & Hm3 & Hpg3 & Hbl3 & Hsp3 & Hw3 & Hsl3 & Hel3 & Hr3 & Hid3 & Hq3 & Hwt3 & Hth3).
        exists r'. do 2 eexists. split; [|split; [by left|split_and!; try done; by left]].
        apply filter_parts; [done|]. intros t' Ht' Hw'. destruct (Hall t' Ht') as (_ & _ & Hw). by apply (Hw a p).
    + apply wp_ret. exists (rest_of s), [], l. split_and!; try done.
      * split_and!; [constructor|done|intros y Hy; by apply not_elem_of_nil in Hy|done].
      * right. split; [|done]. intros E. rewrite E in Hz0. done.
      * right. split; [|done]. intros E. rewrite E in Hz0. done.
      * simpl. by rewrite app_nil_r.
      * simpl. by rewrite list_insert_id.
  - intros _ s3 (r' & woken & l' & Hparts & Hwk & Hm3 & Hpg3 & Hlive & Hw3 & Hsl3 & Hel3 & Hr3 & Hid3 & Hq3 & Hwt3 & Hth3).
    assert (rest_of s3 = r') as Hrest by (unfold rest_of; by rewrite Hw3).
    apply drop_thread_ok; rewrite ?Hrest; [done|by rewrite Hpg3|unfold PAGE_SIZE; lia|].
    intros r4 Hm4 Hsp4 Hbl4 Hpg4. exists x, p, l, woken, l'. fold a. split_and!; try done. split; try done.
    + unfold procs_of. simpl. rewrite Hw3. done.
    + simpl. rewrite Hw3. done.
    + unfold tstructs_of. simpl. rewrite Hw3. simpl. by rewrite delete_insert_eq.
    + unfold intr_s. simpl. rewrite Hw3. done.
    + change (pages r4 = pages (rest_of s) ∖ {[page_of t]}). by rewrite Hpg4, Hpg3.
    + match goal with |- context [blocks (rest_of ?z)] => change (rest_of z) with r4 end. by rewrite Hbl4, Hsp4.
    + intros y. simpl. destruct (decide (y = t)) as [->|Hne']; [by rewrite lookup_delete_eq|].
      rewrite lookup_delete_ne by done. apply Hth3.
Qed.

(** *** The invariant after a thread is gone *)

Section reaped.
Context {s s' : K} {t : Z} {x : tstruct} {p : process} {l woken l' : list Z}.
Let a := t_parent x.
Hypothesis Hok : kernel_ok s.
Hypothesis Hz : has_state THREAD_STATE_ZOMBIE s t.
Hypothesis Hx : tstructs_of s !! t = Some x.
Hypothesis Hp : procs_of s !! a = Some p.
Hypothesis Hl : waiting s !! 4%nat = Some l.
Hypothesis Hparts : parts l woken l' (queue s).
Hypothesis Hr : reaped s s' t a p woken l'.

Lemma reaped_in : t ∈ p_threads p /\ p_threads p <> [] /\ p_state p = PROCESS_STATE_ZOMBIE.
Proof.
  destruct (ko_threads s Hok t x Hx) as [(q & Hq & Htq) _ _ _ _ Hzo]. destruct (Hzo Hz) as [Hzp _].
  specialize (Hzp p Hp). unfold a in *. simplify_eq. split_and!; [done| |done].
  intros E. rewrite E in Htq. by apply not_elem_of_nil in Htq.
Qed.

(** The waiting threads are blocked, and not the thread that goes. *)
Lemma reaped_waits y : y ∈ l -> has_state THREAD_STATE_BLOCKED s y /\ y <> t.
Proof.
  intros Hy. destruct (ko_waiters s Hok) as [(l0 & H4 & _ & _ & _ & Hall)]. simplify_eq.
  destruct (Hall y Hy) as [Hb _]. split; [done|]. intros ->.
  destruct Hb as (th & Hth & Hb), Hz as (th' & Hth' & Hz'). rewrite Hth in Hth'. injection Hth' as <-.
  rewrite Hb in Hz'. done.
Qed.

(** A live process other than this one does not use its address space, nor its
    block as one. *)
Lemma reaped_other b q : procs_of s !! b = Some q -> b <> a -> p_threads q <> [] -> p_as q <> p_as p.
Proof.
  intros Hb Hne Hq Heq. destruct reaped_in as (_ & Hnp & Hzp).
  destruct (po_zombie _ _ _ (ko_procs s Hok a p Hp) Hzp Hnp) as (_ & Hk & _).
  apply Hne. symmetry. apply (ko_spaces s Hok a b p q); done.
Qed.

Lemma reaped_block b q : procs_of s !! b = Some q -> b ∈ blocks (rest_of s').
Proof.
  intros Hb. destruct reaped_in as (_ & Hnp & _).
  pose proof (po_block _ _ _ (ko_procs s Hok b q Hb)) as Hin.
  assert (p_as p <> b) as Hne by (apply (ko_apart s Hok a b p Hp); [by rewrite Hb|done]).
  destruct (rp_live _ _ _ _ _ _ _ Hr) as [(_ & -> & _)|(_ & -> & _)]; [set_solver|done].
Qed.

(** The process of a lookup in the new table, in the old one. *)
Lemma reaped_proc b q : procs_of s' !! b = Some q ->
  exists q0, procs_of s !! b = Some q0 /\ pid q = pid q0 /\ parent q = parent q0 /\ p_state q = p_state q0 /\
    p_as q = p_as q0 /\ plock q = plock q0 /\
    ((b = a /\ q = without t p /\ q0 = p) \/ (b <> a /\ q = q0)).
Proof.
  rewrite (rp_procs _ _ _ _ _ _ _ Hr). destruct (decide (b = a)) as [->|Hne].
  - rewrite lookup_insert_eq. intros [= <-]. exists p. split_and!; try done. by left.
  - rewrite lookup_insert_ne by done. intros Hq. exists q. split_and!; try done. by right.
Qed.

Lemma reaped_threads_of b q q0 : procs_of s !! b = Some q0 -> 
  ((b = a /\ q = without t p /\ q0 = p) \/ (b <> a /\ q = q0)) ->
  forall y, y ∈ p_threads q -> y ∈ p_threads q0 /\ y <> t.
Proof.
  intros Hb [(-> & -> & ->)|[Hne ->]] y Hy.
  - unfold without in Hy. simpl in Hy. apply list_elem_of_filter in Hy as [? ?]. done.
  - split; [done|]. intros ->. destruct (po_threads _ _ _ (ko_procs s Hok b q0 Hb) t Hy) as (x0 & Hx0 & Hpar).
    rewrite Hx in Hx0. injection Hx0 as <-. done.
Qed.

Lemma reaped_procs_ok b q : procs_of s' !! b = Some q -> proc_ok s' b q.
Proof.
  intros Hq. destruct (reaped_proc b q Hq) as (q0 & Hq0 & Hpid & Hpar & Hst & Has & Hlk & Hcase).
  pose proof (ko_procs s Hok b q0 Hq0) as [Hplk Hpnd Hpc Hps Hpt Hpb Hpsp Hpz].
  pose proof (reaped_threads_of b q q0 Hq0 Hcase) as Hsub. destruct reaped_in as (Htp & Hnp & Hzp).
  assert (p_threads q <> [] -> p_threads q0 <> []) as Hnn.
  { intros Hn E. destruct (p_threads q) as [|y r]; [done|]. destruct (Hsub y) as [Hy _]; [set_solver|].
    rewrite E in Hy. by apply not_elem_of_nil in Hy. }
  assert (p_threads q <> [] -> forall v, (v = p_as q0) -> (v ∈ spaces (rest_of s) -> v ∈ spaces (rest_of s')) /\
    (v ∈ blocks (rest_of s) -> v ∈ blocks (rest_of s'))) as Hkeep.
  { intros Hn v ->. destruct (rp_live _ _ _ _ _ _ _ Hr) as [(Hnil & -> & ->)|(_ & -> & ->)]; [|done].
    destruct Hcase as [(-> & -> & ->)|[Hne ->]]; [by rewrite Hnil in Hn|].
    pose proof (reaped_other b q0 Hq0 Hne Hn). set_solver. }
  split.
  - by rewrite Hlk.
  - destruct Hcase as [(-> & -> & ->)|[Hne ->]]; [by apply NoDup_filter|done].
  - destruct Hcase as [(-> & -> & ->)|[Hne ->]]; [|done]. by apply (without_count t p).
  - destruct Hcase as [(-> & -> & ->)|[Hne ->]]; [|done].
    destruct (without_count t p) as [_ Hlen]; [done..|]. lia.
  - intros y Hy. destruct (Hsub y Hy) as [Hy0 Hyt]. destruct (Hpt y Hy0) as (xy & Hxy & Hpy).
    exists xy. split; [|done]. rewrite (rp_tstructs _ _ _ _ _ _ _ Hr). by rewrite lookup_delete_ne.
  - by eapply reaped_block.
  - intros Hn. rewrite Has. destruct (Hkeep Hn _ eq_refl) as [Hk _]. apply Hk, Hpsp, Hnn, Hn.
  - rewrite Hst, Hpid, Has, Hpar. intros Hzq Hn. destruct (Hpz Hzq (Hnn Hn)) as (H1 & H2 & H3 & H4).
    split_and!; [done|done| |].
    + destruct (Hkeep Hn _ eq_refl) as [_ Hk]. by apply Hk.
    + rewrite (rp_procs _ _ _ _ _ _ _ Hr). apply lookup_insert_is_Some'. by right.
Qed.

(** A thread other than [t] keeps its state, unless it was woken. *)
Lemma reaped_state y v : y <> t -> v <> THREAD_STATE_RUNNING ->
  has_state v s' y <-> has_state v s y /\ y ∉ woken.
Proof.
  intros Hne Hv. unfold has_state. rewrite (rp_threads _ _ _ _ _ _ _ Hr), decide_False by done.
  destruct (decide (y ∈ woken)) as [Hw|Hw]; [|naive_solver]. split; [|naive_solver].
  intros (th & Hth & Hs). destruct (threads s !! y); [|done]. simpl in Hth. injection Hth as <-. done.
Qed.

Lemma reaped_threads_ok y xy : tstructs_of s' !! y = Some xy -> thread_ok s' y xy.
Proof.
  rewrite (rp_tstructs _ _ _ _ _ _ _ Hr). intros [Hne Hy]%lookup_delete_Some. assert (y <> t) as Hyt by done.
  destruct (ko_threads s Hok y xy Hy) as [(q & Hq & Hyq) Hth Hfl Hks Hpg Hzo]. split.
  - rewrite (rp_procs _ _ _ _ _ _ _ Hr). destruct (decide (t_parent xy = a)) as [E|E].
    + exists (without t p). rewrite E, lookup_insert_eq. split; [done|]. rewrite E in Hq. simplify_eq.
      unfold without. simpl. by apply list_elem_of_filter.
    + exists q. by rewrite lookup_insert_ne.
  - rewrite (rp_threads _ _ _ _ _ _ _ Hr), decide_False by done. destruct Hth as [th ->]. destruct (decide _); eauto.
  - rewrite (rp_intr _ _ _ _ _ _ _ Hr). simpl. by rewrite lookup_delete_ne.
  - done.
  - rewrite (rp_pages _ _ _ _ _ _ _ Hr). unfold page_of in *. rewrite elem_of_difference, elem_of_singleton. split; [done|]. lia.
  - intros Hzy. apply reaped_state in Hzy as [Hzy _]; [|done|done]. destruct (Hzo Hzy) as [Hzq Hquiet]. split.
    + intros q' Hq'. destruct (reaped_proc _ _ Hq') as (q0 & Hq0 & _ & _ & -> & _). by apply Hzq.
    + intros u Hu. rewrite (rp_intr _ _ _ _ _ _ _ Hr). intros (v & Hv & Hvr). apply (Hquiet u Hu). exists v.
      split; [|done]. revert Hv. unfold flag. simpl. by rewrite lookup_delete_ne.
Qed.

Lemma reaped_waiters_ok : waiters_ok s'.
Proof.
  destruct Hparts as (Hndw & Hndl & Hwo & Hl'). destruct (ko_waiters s Hok) as [(l0 & H4 & H5 & Hnd & Hid & Hall)].
  rewrite Hl in H4. injection H4 as <-. split. exists l'. rewrite (rp_waiting _ _ _ _ _ _ _ Hr). split_and!.
  - apply list_lookup_insert_eq. by eapply lookup_lt_Some.
  - by rewrite list_lookup_insert_ne.
  - done.
  - destruct (rp_same _ _ _ _ _ _ _ Hr) as [_ ->]. intros Hi. by apply Hid, Hl'.
  - intros y Hy. pose proof (Hl' y Hy) as Hyl. destruct (reaped_waits y Hyl) as [Hb Hyt].
    assert (y ∉ woken) as Hnw by (intros Hw; by apply (Hwo y Hw)). split; [by apply reaped_state|]. split.
    { intros th. rewrite (rp_threads _ _ _ _ _ _ _ Hr), !decide_False by done. destruct (Hall y Hyl) as (_ & Hd & _). apply Hd. }
    intros b q Hq Hzq Hnq Hwf. destruct (reaped_proc b q Hq) as (q0 & Hq0 & Hpid & _ & Hst & _ & _ & Hcase).
    rewrite (rp_queue _ _ _ _ _ _ _ Hr). intros [Hin|Hin]%elem_of_app; [|done].
    destruct (Hall y Hyl) as (_ & _ & Hout). apply (Hout b q0 Hq0); [by rewrite <-Hst| | |done].
    + destruct (p_threads q) as [|z r] eqn:E; [done|]. intros E0.
      destruct (reaped_threads_of b q q0 Hq0 Hcase z) as [Hz0 _]; [rewrite E; set_solver|].
      rewrite E0 in Hz0. by apply not_elem_of_nil in Hz0.
    + revert Hwf. unfold waits_for. rewrite Hpid, (rp_threads _ _ _ _ _ _ _ Hr), !decide_False by done. done.
Qed.

Lemma reaped_ok : kernel_ok s'.
Proof.
  destruct (ko_threads s Hok t x Hx) as [_ _ _ _ _ Hzo]. destruct (Hzo Hz) as [_ Hquiet].
  split.
  - apply (rp_mem _ _ _ _ _ _ _ Hr).
  - rewrite (rp_intr _ _ _ _ _ _ _ Hr). apply gone_thread_ok; [apply (ko_intr s Hok)|done].
  - apply reaped_procs_ok.
  - apply reaped_threads_ok.
  - intros y. rewrite (rp_threads _ _ _ _ _ _ _ Hr), (rp_tstructs _ _ _ _ _ _ _ Hr).
    rewrite (rp_intr _ _ _ _ _ _ _ Hr). simpl. destruct (decide (y = t)) as [->|Hne].
    { rewrite lookup_delete_eq. by intros [[]|[]]. }
    rewrite !lookup_delete_ne by done. intros [Hy|Hy]; apply (ko_known s Hok); [left|by right].
    destruct (decide (y ∈ woken)); [|done]. by apply fmap_is_Some in Hy.
  - intros b c q q' Hb Hc Hnq Heq Hnq' Hk. destruct (reaped_proc b q Hb) as (q0 & Hb0 & _ & _ & _ & Has & _ & Hcb).
    destruct (reaped_proc c q' Hc) as (q1 & Hc0 & _ & _ & _ & Has' & _ & Hcc).
    apply (ko_spaces s Hok b c q0 q1 Hb0 Hc0); try congruence.
    + intros E. destruct Hcb as [(_ & -> & ->)|[_ ->]]; [|done]. unfold without in Hnq. simpl in Hnq. by rewrite E in Hnq.
    + intros E. destruct Hcc as [(_ & -> & ->)|[_ ->]]; [|done]. unfold without in Hnq'. simpl in Hnq'. by rewrite E in Hnq'.
  - intros b c q Hb Hc Hnq. destruct (reaped_proc b q Hb) as (q0 & Hb0 & _ & _ & _ & -> & _ & Hcb).
    apply (ko_apart s Hok b c q0 Hb0).
    + destruct (procs_of s' !! c) as [q'|] eqn:E; [|done]. destruct (reaped_proc c q' E) as (q1 & -> & _). done.
    + intros E. destruct Hcb as [(_ & -> & ->)|[_ ->]]; [|done]. unfold without in Hnq. simpl in Hnq. by rewrite E in Hnq.
  - rewrite (rp_list _ _ _ _ _ _ _ Hr). destruct (ko_list s Hok) as [Hnd Hin]. split; [done|].
    intros b Hb. rewrite (rp_procs _ _ _ _ _ _ _ Hr). apply lookup_insert_is_Some'. right. by apply Hin.
  - rewrite (rp_list _ _ _ _ _ _ _ Hr). intros b q Hbl Hb. destruct (reaped_proc b q Hb) as (q0 & Hb0 & -> & _).
    by apply (ko_pid s Hok b).
  - rewrite (rp_list _ _ _ _ _ _ _ Hr). intros b c q q' Hbl Hcl Hb Hc Hpid.
    destruct (reaped_proc b q Hb) as (q0 & Hb0 & Hp0 & _). destruct (reaped_proc c q' Hc) as (q1 & Hc0 & Hp1 & _).
    apply (ko_pids s Hok b c q0 q1); congruence.
  - apply reaped_waiters_ok.
Qed.

Lemma reaped_queue_wf : queue_wf s -> (t ∉ queue s) -> queue_wf s'.
Proof.
  intros (Hnd & H0 & Hidle & Hth) Htq. destruct Hparts as (Hndw & _ & Hwo & _).
  destruct (ko_waiters s Hok) as [(l0 & H4 & H5 & _ & Hid & Hall)]. rewrite Hl in H4. injection H4 as <-.
  unfold queue_wf. rewrite (rp_queue _ _ _ _ _ _ _ Hr). destruct (rp_same _ _ _ _ _ _ _ Hr) as [_ ->].
  assert (forall y, y ∈ woken -> is_Some (threads s !! y) /\ y <> t /\ y <> 0) as Hw.
  { intros y Hy. destruct (Hwo y Hy) as (Hyl & _). destruct (reaped_waits y Hyl) as [(th & Hyt & _) Hne].
    split; [by exists th|]. split; [done|]. intros ->. destruct (ko_known s Hok 0) as [x0 Hx0]; [left; by exists th|].
    by eapply (thread_addr s 0 x0). }
  split_and!.
  - apply NoDup_app. split_and!; [done| |done]. intros y Hy Hyw. by destruct (Hwo y Hyw) as (_ & ? & _).
  - rewrite elem_of_app. intros [?|Hy]; [done|]. by destruct (Hw 0 Hy) as (_ & _ & ?).
  - rewrite elem_of_app. intros [?|Hy]; [done|]. by apply Hid, (Hwo _ Hy).
  - intros y Hy. rewrite (rp_threads _ _ _ _ _ _ _ Hr). apply elem_of_app in Hy as [Hy|Hy].
    + rewrite decide_False by (by intros ->). destruct (Hth y Hy) as [th ->]. destruct (decide _); eauto.
    + destruct (Hw y Hy) as ([th ->] & Hne & _). rewrite decide_False by done. destruct (decide _); eauto.
Qed.

Lemma reaped_woken : Forall (has_state THREAD_STATE_RUNNING s') woken /\ (nblocked s' + length woken <= nblocked s)%nat.
Proof.
  destruct Hparts as (Hndw & _ & Hwo & _).
  assert (forall y, y ∈ woken -> has_state THREAD_STATE_RUNNING s' y) as Hrun.
  { intros y Hy. destruct (Hwo y Hy) as (Hyl & _). destruct (reaped_waits y Hyl) as [(th & Hyt & _) Hne].
    exists (set_state THREAD_STATE_RUNNING th). rewrite (rp_threads _ _ _ _ _ _ _ Hr), decide_False, decide_True by done.
    by rewrite Hyt. }
  split; [by apply Forall_forall|]. apply nblocked_woken; [done| |].
  - intros y Hy. destruct (Hwo y Hy) as (Hyl & _). destruct (reaped_waits y Hyl) as [Hb _]. split; [done|].
    intros (th & Hth & Hs). destruct (Hrun y Hy) as (th' & Hth' & Hs'). rewrite Hth in Hth'. injection Hth' as <-.
    rewrite Hs in Hs'. done.
  - intros y (th & Hth & Hs). destruct (decide (y = t)) as [->|Hne].
    + by rewrite (rp_threads _ _ _ _ _ _ _ Hr), decide_True in Hth.
    + apply reaped_state; [done|done|]. by exists th.
Qed.

End reaped.

(** What the scheduler relies on. *)
Lemma thread_destroy_reaps s t :
  kernel_ok s ->
  sched_lock s = false -> event_lock s = false -> queue_wf s -> (t ∉ queue s) ->
  has_state THREAD_STATE_ZOMBIE s t ->
  wp (thread_destroy t) s (fun _ s' => exists new,
    kernel_ok s' /\
    sched_lock s' = false /\ event_lock s' = false /\
    running s' = running s /\ idle s' = idle s /\
    queue s' = queue s ++ new /\ queue_wf s' /\
    (forall y, y ∈ queue s -> threads s' !! y = threads s !! y) /\
    (forall y, is_Some (threads s' !! y) -> y <> t /\ is_Some (threads s !! y)) /\
    Forall (has_state THREAD_STATE_RUNNING s') new /\
    (nblocked s' + length new <= nblocked s)%nat).
Proof.
  intros Hok Hsl Hel Hwf Htq Hz. eapply wp_mono; [by apply thread_destroy_runs|].
  intros _ s' (x & p & l & woken & l' & Hx & Hp & Hl & Hparts & _ & Hr). exists woken.
  pose proof (reaped_woken Hok Hz Hl Hparts Hr) as [Hrun Hnb]. destruct (rp_locks _ _ _ _ _ _ _ Hr), (rp_same _ _ _ _ _ _ _ Hr).
  split; [by apply (reaped_ok Hok Hz Hx Hp Hl Hparts Hr)|]. split_and!; try done.
  - apply (rp_queue _ _ _ _ _ _ _ Hr).
  - by apply (reaped_queue_wf Hok Hz Hl Hparts Hr).
  - intros y Hy. rewrite (rp_threads _ _ _ _ _ _ _ Hr), decide_False by (by intros ->).
    rewrite decide_False; [done|]. intros Hw. destruct Hparts as (_ & _ & Hwo & _). by destruct (Hwo y Hw) as (_ & ? & _).
  - intros y. rewrite (rp_threads _ _ _ _ _ _ _ Hr). destruct (decide (y = t)) as [->|Hne]; [by intros []|].
    split; [done|]. destruct (decide (y ∈ woken)); [by eapply fmap_is_Some|done].
Qed.

End inv.

#[export] Instance kernel_reaper {X} `{!ProcOps X} `{!ProcEnv X} : Reaper (kernel X) := {|
  reap_ok := kernel_ok;
  reap_ok_frame := kernel_ok_frame;
  thread_destroy_spec := thread_destroy_reaps;
|}.

(** The same interface with a further invariant, which scheduling and destroying
    threads keep. *)
Record stable {X} `{!ProcOps X} `{!ProcEnv X} (J : sched (kernel X) -> Prop) : Prop := {
  st_frame : forall s s', J s -> world s' = world s -> threads s' = threads s -> waiting s' = waiting s ->
    idle s' = idle s -> (forall y, y ∈ queue s' -> y ∈ queue s) ->
    (forall y, has_state THREAD_STATE_RUNNING s y -> y ∈ queue s -> y ∈ queue s') -> J s';
  st_reaped : forall s s' t x p l woken l', kernel_ok s -> J s -> (t ∉ queue s) ->
    has_state THREAD_STATE_ZOMBIE s t -> tstructs_of s !! t = Some x -> procs_of s !! t_parent x = Some p ->
    waiting s !! 4%nat = Some l -> parts l woken l' (queue s) -> wakes s t p l woken l' ->
    reaped s s' t (t_parent x) p woken l' -> J s';
}.

Definition reaper_with {X} `{!ProcOps X} `{!ProcEnv X} (J : sched (kernel X) -> Prop) (HJ : stable J) :
  Reaper (kernel X).
Proof.
  refine {| reap_ok := fun s => kernel_ok s /\ J s |}.
  - intros s s' [Hok HJs] Hw Hth Hwt Hid Hq Hq'. split; [by eapply kernel_ok_frame|by eapply (st_frame J HJ)].
  - intros s t (Hok & HJs) Hsl Hel Hwf Htq Hz.
    pose proof (thread_destroy_reaps s t Hok Hsl Hel Hwf Htq Hz) as H1.
    pose proof (thread_destroy_runs s t Hok Hsl Hel Htq Hz) as H2.
    apply wp_run in H1 as (u & s' & Hrun & new & Hok' & Hrest). apply wp_run.
    apply wp_run in H2 as (u' & s2 & Hrun2 & x & p & l & woken & l' & Hx & Hp & Hl & Hpt & Hwk & Hr).
    rewrite Hrun in Hrun2. injection Hrun2 as <- <-. exists u, s'. split; [exact Hrun|]. exists new.
    split; [|exact Hrest]. split; [done|]. by eapply (st_reaped J HJ s s' t x p l woken l').
Defined.

(** What is kept of the processes: who they are, their parents and children, and how
    they ended. *)
Definition core (p : process) : Z * Z * Z * Z * list Z :=
  (pid p, parent p, p_state p, exit_state p, children p).

Section keeps.
Context {X : Type} `{!ProcOps X} `{!ProcEnv X}.
#[local] Abbreviation K := (sched (kernel X)).

Definition cores (s : K) : gmap Z (Z * Z * Z * Z * list Z) := core <$> procs_of s.

Lemma reaped_cores s s' t a p woken l' :
  reaped s s' t a p woken l' -> procs_of s !! a = Some p -> cores s' = cores s.
Proof.
  intros Hr Hp. unfold cores. rewrite (rp_procs _ _ _ _ _ _ _ Hr), fmap_insert.
  apply insert_id. rewrite lookup_fmap, Hp. done.
Qed.

Definition keeps (C : gmap Z (Z * Z * Z * Z * list Z)) (L : list Z) (s : K) : Prop :=
  cores s = C /\ processes (world s) = L.

Lemma stable_and (J J' : K -> Prop) : stable J -> stable J' -> stable (fun s => J s /\ J' s).
Proof.
  intros [Hf Hr] [Hf' Hr']. split.
  - intros s s' [H1 H2]. intros. split; [by eapply Hf|by eapply Hf'].
  - intros s s' t x p l woken l' Hok [H1 H2]. intros. split; [by eapply Hr|by eapply Hr'].
Qed.

Lemma stable_keeps C L : stable (keeps C L).
Proof.
  split.
  - intros s s' (HC & HL) Hw Hth Hwt Hid Hq _. unfold keeps, cores, procs_of in *. by rewrite Hw.
  - intros s s' t x p l woken l' Hok (HC & HL) Htq Hz Hx Hp Hl _ _ Hr. split.
    + rewrite <-HC. by eapply reaped_cores.
    + rewrite <-HL. apply (rp_list _ _ _ _ _ _ _ Hr).
Qed.

(** Threads that will not run again. *)
Definition dead (T : list Z) (s : K) : Prop := forall t, t ∈ T ->
  (forall th, threads s !! t = Some th -> state th = THREAD_STATE_ZOMBIE) /\
  (forall l, waiting s !! 4%nat = Some l -> t ∉ l).

Lemma stable_dead T : stable (dead T).
Proof.
  split.
  - intros s s' HT Hw Hth Hwt Hid Hq _ t Ht. rewrite Hth, Hwt. by apply HT.
  - intros s s' t x p l woken l' Hok HT Htq Hz Hx Hp Hl (_ & _ & Hwo & Hl') _ Hr y Hy.
    destruct (HT y Hy) as [Hzy Hwy]. rewrite (rp_threads _ _ _ _ _ _ _ Hr), (rp_waiting _ _ _ _ _ _ _ Hr). split.
    + intros th. destruct (decide (y = t)); [done|]. destruct (decide (y ∈ woken)) as [Hyw|]; [|by apply Hzy].
      destruct (Hwo y Hyw) as [Hyl _]. by destruct (Hwy l Hl).
    + rewrite list_lookup_insert_eq by (by eapply lookup_lt_Some). intros l0 [= <-] Hy0. by apply (Hwy l Hl), Hl'.
Qed.

(** A thread that waits for process [a], of pid [n], or has been woken. *)
Definition awaits (w a n : Z) (s : K) : Prop :=
  (has_state THREAD_STATE_RUNNING s w /\ w ∈ queue s) \/
  (exists p l, procs_of s !! a = Some p /\ pid p = n /\ p_threads p <> [] /\ waiting s !! 4%nat = Some l /\ w ∈ l /\
     waits_for s SCHED_EV_PEXIT n w).

Lemma stable_awaits w a n : stable (awaits w a n).
Proof.
  split.
  - intros s s' HJ Hw Hth Hwt Hid Hq Hq'. destruct HJ as [[Hs Hin]|(p & l & HJ)]; [left|right].
    + split; [|by apply Hq']. unfold has_state in *. by rewrite Hth.
    + exists p, l. unfold procs_of, waits_for in *. by rewrite Hw, Hth, Hwt.
  - intros s s' t x p l woken l' Hok HJ Htq Hz Hx Hp Hl Hparts Hwk Hr. pose proof Hparts as (_ & _ & Hwo & _).
    destruct HJ as [[(th & Hth & Hs) Hin]|(q & l0 & Hq & Hn & Hne & Hl0 & Hwl & Hwf)].
    + left. split; [|rewrite (rp_queue _ _ _ _ _ _ _ Hr); set_solver]. exists th. split; [|done].
      rewrite (rp_threads _ _ _ _ _ _ _ Hr), decide_False by (by intros ->).
      rewrite decide_False; [done|]. intros Hw. by destruct (Hwo w Hw) as (_ & ? & _).
    + rewrite Hl in Hl0. injection Hl0 as <-. destruct (decide (w ∈ woken)) as [Hww|Hww].
      { left. rewrite (rp_queue _ _ _ _ _ _ _ Hr). split; [|set_solver].
        pose proof (reaped_woken Hok Hz Hl Hparts Hr) as [Hrun _]. rewrite Forall_forall in Hrun. by apply Hrun. }
      assert (w <> t) as Hwt by by apply (reaped_waits (l := l) Hok Hz Hl).
      right. rewrite (rp_waiting _ _ _ _ _ _ _ Hr), (rp_procs _ _ _ _ _ _ _ Hr).
      rewrite list_lookup_insert_eq by (by eapply lookup_lt_Some).
      assert (w ∈ l') as Hwl'.
      { destruct Hwk as [(_ & Hk & ->)|(_ & _ & ->)]; [|done]. apply list_elem_of_filter. split; [|done].
        intros Hwf'. apply Hww. rewrite Hk. by apply list_elem_of_filter. }
      assert (waits_for s' SCHED_EV_PEXIT n w) as Hwf'.
      { unfold waits_for. by rewrite (rp_threads _ _ _ _ _ _ _ Hr), !decide_False. }
      destruct (decide (a = t_parent x)) as [->|Hna].
      * rewrite Hp in Hq. injection Hq as ->. exists (without t q), l'. rewrite lookup_insert_eq. split_and!; try done.
        destruct Hwk as [(_ & -> & _)|(Hk & _)]; [|done]. destruct Hww. apply list_elem_of_filter. by rewrite Hn.
      * exists q, l'. by rewrite lookup_insert_ne.
Qed.
(** Process [a] has no thread but those of [T]. *)
Definition within (a : Z) (T : list Z) (s : K) : Prop := forall p t,
  procs_of s !! a = Some p -> t ∈ p_threads p -> t ∈ T.

Lemma stable_within a T : stable (within a T).
Proof.
  split.
  - intros s s' HT Hw _ _ _ _ _ p t. unfold procs_of. rewrite Hw. apply HT.
  - intros s s' t x p l woken l' Hok HT Htq Hz Hx Hp Hl _ _ Hr q y. rewrite (rp_procs _ _ _ _ _ _ _ Hr).
    destruct (decide (a = t_parent x)) as [->|Hne]; [|rewrite lookup_insert_ne by done; apply HT].
    rewrite lookup_insert_eq. intros [= <-] [_ Hy]%list_elem_of_filter. by eapply HT.
Qed.

(** The address space [v] of process [a] goes with its last thread. *)
Definition frees (a v : Z) (s : K) : Prop := forall p,
  procs_of s !! a = Some p -> p_as p = v /\ (p_threads p = [] -> v ∉ spaces (rest_of s)).

Lemma stable_frees a v : stable (frees a v).
Proof.
  split.
  - intros s s' HT Hw _ _ _ _ _ p. unfold procs_of, rest_of. rewrite Hw. apply HT.
  - intros s s' t x p l woken l' Hok HT Htq Hz Hx Hp Hl _ _ Hr q. rewrite (rp_procs _ _ _ _ _ _ _ Hr).
    pose proof (rp_live _ _ _ _ _ _ _ Hr) as Hlive. destruct (decide (a = t_parent x)) as [->|Hne].
    + rewrite lookup_insert_eq. intros [= <-]. destruct (HT p Hp) as [Hv Hf]. split; [done|]. intros Hn.
      destruct Hlive as [(_ & _ & ->)|[? _]]; [set_solver|done].
    + rewrite lookup_insert_ne by done. intros Hq. destruct (HT q Hq) as [Hv Hf]. split; [done|].
      intros Hn. specialize (Hf Hn). destruct Hlive as [(_ & _ & ->)|(_ & _ & ->)]; set_solver.
Qed.

(** The idle thread is there to run. *)
Definition idles (s : K) : Prop := has_state THREAD_STATE_RUNNING s (idle s).

Lemma stable_idles : stable idles.
Proof.
  split.
  - intros s s' HT _ Hth _ Hid _ _. unfold idles, has_state in *. by rewrite Hth, Hid.
  - intros s s' t x p l woken l' Hok (th & Hth & Hs) Htq (th' & Hth' & Hz) Hx Hp Hl _ _ Hr.
    destruct (rp_same _ _ _ _ _ _ _ Hr) as [_ Hid]. unfold idles, has_state. rewrite Hid, (rp_threads _ _ _ _ _ _ _ Hr).
    rewrite decide_False by (intros E; rewrite E, Hth' in Hth; injection Hth as ->; rewrite Hs in Hz; done).
    destruct (decide _); rewrite Hth; simpl; eauto.
Qed.
End keeps.

End ProcessInv.
