(* ===== verification/ProcessLife.v ===== *)
(** Lemmas on the life of processes: [process_exit], [process_waitpid] and
    [process_fork] of Process.v against the invariant of ProcessInv.v. *)

From S2P Require Import Prelude Scheduler Interrupt Process ProcessInv.

Module ProcessLife.
Export ProcessInv.

(** ** Giving up interrupts *)

(** The flags of [t] from [u] on, for [n] interrupts, are cleared; those of others
    stay. *)
Definition cleared (t u : Z) (n : nat) (i i' : intr) : Prop :=
  (forall t' y, user_irq y ->
    flag i' t' y = if decide (t' = t /\ u <= y < u + Z.of_nat n) then Some 0 else flag i t' y) /\
  (forall t', is_Some (thread_interrupts i' !! t') <-> is_Some (thread_interrupts i !! t')).

Lemma upd_at_id {A} (f : Z -> option A) u a : f u = Some a -> upd_at f u (Some a) f.
Proof. intros Hu y Hy. destruct (decide (y = u)) as [->|]; done. Qed.

Lemma put_flag_dom t u v i t' :
  is_Some (thread_interrupts (put_flag t u v i) !! t') <-> is_Some (thread_interrupts i !! t').
Proof. simpl. apply lookup_alter_is_Some. Qed.

Lemma release_step_ok i t l u v r e p :
  intr_ok i -> thread_interrupts i !! t = Some l -> user_irq u -> flag i t u = Some v ->
  Z.land v INTERRUPT_REGISTERED <> 0 -> irq_of i u = Some r -> user_entry_of i u = Some e ->
  lines_ok (set_ports p (set_entries (<[Z.to_nat (u + IRQ_USER_BEGIN) := {| type := INTERRUPT_NONE; callback := callback e |}]>
    (interrupt_entries i)) i)) ->
  intr_ok (put_flag t u 0 (set_ports p (set_entries (<[Z.to_nat (u + IRQ_USER_BEGIN) :=
    {| type := INTERRUPT_NONE; callback := callback e |}]> (interrupt_entries i)) i))).
Proof.
  intros [Hlines [Hs Hf Hw]] Hl Hu Hv Hreg Hr He Hlines'. set (e' := {| type := INTERRUPT_NONE; callback := callback e |}) in *.
  split; [by destruct Hlines'; split|]. split.
  - done.
  - apply (flags_put i t u 0 Hf). by left.
  - apply (owners_drop (E := user_entry_of i) (F := flag i) (R := irq_of i) (t := t) (u := u) Hw e' r); try done.
    + by exists v.
    + by eapply (owners_lock _ _ _ Hw u).
    + apply (upd_at_relined i u e' p e Hu He).
    + apply (upd_flag_put i t u 0); eauto.
    + apply (upd_at_id (irq_of i) u r Hr).
Qed.

Section life.
Context {X : Type} `{!ProcOps X} `{!ProcEnv X}.
#[local] Abbreviation K := (sched (kernel X)).
Implicit Types (s : K) (a t : Z) (p : process) (x : tstruct).

Lemma release_interrupts_ok n : forall u i t l s,
  0 <= u -> u + Z.of_nat n <= IRQ_USER_SIZE ->
  intr_ok i -> thread_interrupts i !! t = Some l ->
  wp (release_interrupts n u t) (set_intr_s i s) (fun _ s' => exists i',
    s' = set_intr_s i' s /\ intr_ok i' /\ cleared t u n i i').
Proof.
  induction n as [|n IH]; intros u i t l s Hu Hn Hok Hl; cbn [release_interrupts].
  { apply wp_ret. exists i. split_and!; [done..|]. split; [|done].
    intros t' y Hy. rewrite decide_False by lia. done. }
  assert (user_irq u) as Huu by (unfold user_irq; lia). pose proof Hok as [Hlines Husers].
  destruct (user_flag i t l u Husers Hl Huu) as (v & Hv & Hvs).
  apply wp_bind, wp_on_intr. eapply wp_flag_at; [done|exact Hv|].
  apply wp_bind. apply (wp_mono _ _ (fun _ s1 => exists i1, s1 = set_intr_s i1 s /\ flag i1 = flag i /\
    thread_interrupts i1 = thread_interrupts i /\ intr_ok (put_flag t u 0 i1))).
  { destruct (Z.eqb_spec (Z.land v INTERRUPT_REGISTERED) 0) as [Hz|Hz].
    - apply wp_ret. exists i. split_and!; try done. rewrite put_flag_same; [done|].
      destruct Hvs as [->|[->| ->]]; done.
    - destruct (user_irq_of i u Husers Huu) as (r & Hr & _).
      assert (0 <= u + IRQ_USER_BEGIN <= MAX_IRQ_NUMBER) as Hirq.
      { unfold user_irq, IRQ_USER_SIZE, IRQ_USER_BEGIN, IRQ_USER_END, MAX_IRQ_NUMBER in *. lia. }
      destruct (entry_exists i _ Hlines Hirq) as [e He].
      apply wp_on_intr. eapply wp_mono; [by apply (interrupt_unregister_ok _ i e)|].
      intros _ i1 [Hlines1 [p ->]]. eexists. split; [done|]. split_and!; try done. by eapply release_step_ok. }
  intros _ s1 (i1 & -> & Hf1 & Ht1 & Hok1).
  apply wp_bind, wp_on_intr. eapply wp_set_flag; [done|by rewrite Hf1|]. change (u8 0) with 0.
  destruct (put_flag_dom t u 0 i1 t) as [_ Hd]. destruct Hd as [l1 Hl1]; [by rewrite Ht1, Hl|].
  eapply wp_mono; [apply (IH (u + 1) _ t l1); [lia|lia|done|exact Hl1]|].
  intros _ s2 (i2 & -> & Hok2 & Hc & Hd). exists i2. split_and!; [done..|]. split.
  - intros t' y Hy. rewrite Hc by done.
    rewrite (flag_put i1 t u 0 t' y) by (done || (unfold user_irq in Hy; lia) || by rewrite Hf1; eexists).
    rewrite Hf1. repeat case_decide; naive_solver lia.
  - intros t'. rewrite Hd, put_flag_dom. by rewrite Ht1.
Qed.

Lemma thread_exit_ok s t th l :
  intr_ok (intr_s s) -> threads s !! t = Some th -> thread_interrupts (intr_s s) !! t = Some l ->
  wp (thread_exit t) s (fun _ s' => exists i',
    s' = set_intr_s i' (set_threads (<[t := set_state THREAD_STATE_ZOMBIE th]> (threads s)) s) /\
    intr_ok i' /\ cleared t 0 (Z.to_nat IRQ_USER_SIZE) (intr_s s) i').
Proof.
  intros Hok Hth Hl. unfold thread_exit. apply wp_bind. eapply wp_update_thread; [exact Hth|].
  set (s1 := set_threads _ s). rewrite <-(set_intr_same s1). change (intr_s s1) with (intr_s s).
  eapply wp_mono; [by apply (release_interrupts_ok _ 0 (intr_s s) t l s1)|].
  intros _ s2 (i' & -> & Hok' & Hc). by exists i'.
Qed.

(** ** The end of a process *)

Definition is_zombie_of (l : list Z) (m m' : gmap Z thread) : Prop :=
  forall y, m' !! y = if decide (y ∈ l) then set_state THREAD_STATE_ZOMBIE <$> m !! y else m !! y.
Definition released (l : list Z) (i i' : intr) : Prop :=
  (forall t u, user_irq u -> flag i' t u = if decide (t ∈ l /\ is_Some (flag i t u)) then Some 0 else flag i t u) /\
  (forall t, is_Some (thread_interrupts i' !! t) <-> is_Some (thread_interrupts i !! t)).

Lemma flag_some i t u : users_ok i -> user_irq u -> is_Some (thread_interrupts i !! t) -> is_Some (flag i t u).
Proof. intros Hok Hu [l Hl]. destruct (user_flag i t l u Hok Hl Hu) as (v & Hv & _). eauto. Qed.

Lemma exit_threads_ok l : forall s,
  intr_ok (intr_s s) ->
  (forall t, t ∈ l -> is_Some (threads s !! t) /\ is_Some (thread_interrupts (intr_s s) !! t)) ->
  wp (exit_threads l) s (fun _ s' => exists i' ths', s' = set_intr_s i' (set_threads ths' s) /\
    intr_ok i' /\ is_zombie_of l (threads s) ths' /\ released l (intr_s s) i').
Proof.
  induction l as [|t l IH]; intros s Hok Hl; cbn [exit_threads].
  { apply wp_ret. exists (intr_s s), (threads s). split_and!; [|done|..].
    - transitivity (set_intr_s (intr_s s) s); [by rewrite set_intr_same|]. by destruct s.
    - intros y. rewrite decide_False by apply not_elem_of_nil. done.
    - split; [|done]. intros y u Hu. rewrite decide_False; [done|]. intros [Hy _]. by apply not_elem_of_nil in Hy. }
  destruct (Hl t) as [[th Hth] [fl Hfl]]; [set_solver|].
  apply wp_bind. eapply wp_mono; [by eapply thread_exit_ok|]. intros _ s1 (i1 & -> & Hok1 & Hc1 & Hd1).
  set (s1 := set_intr_s i1 _). assert (intr_s s1 = i1) as Hi1 by apply intr_set.
  eapply wp_mono; [apply IH|].
  - by rewrite Hi1.
  - intros y Hy. destruct (Hl y) as [Hy1 Hy2]; [set_solver|]. rewrite Hi1, Hd1. split; [|done].
    simpl. destruct (decide (y = t)) as [->|]; [rewrite lookup_insert_eq; eauto|by rewrite lookup_insert_ne].
  - intros _ s2 (i2 & ths2 & -> & Hok2 & Hz2 & Hr2 & Hd2). rewrite Hi1 in Hr2, Hd2. exists i2, ths2. split_and!; [|done|..].
    + unfold s1. change (set_threads ths2 (set_intr_s i1 ?z)) with (set_intr_s i1 (set_threads ths2 z)).
      by rewrite set_intr_twice.
    + intros y. rewrite Hz2. simpl. destruct (decide (y = t)) as [->|Hne].
      * rewrite lookup_insert_eq, Hth. rewrite (decide_True (P := t ∈ t :: l)) by set_solver. by destruct (decide (t ∈ l)).
      * rewrite lookup_insert_ne by done. destruct (decide (y ∈ l)), (decide (y ∈ t :: l)); set_solver.
    + split; [|intros y; by rewrite Hd2, Hd1]. intros y u Hu. rewrite Hr2 by done.
      assert (flag i1 y u = if decide (y = t) then Some 0 else flag (intr_s s) y u) as ->.
      { rewrite Hc1 by done. unfold user_irq in Hu. destruct (decide (y = t)) as [->|Hne].
        - rewrite decide_True; [done|]. split; [done|]. rewrite Z2Nat.id by done. lia.
        - rewrite decide_False by naive_solver. done. }
      destruct (decide (y = t)) as [->|Hne].
      * rewrite (decide_True (P := t ∈ t :: l /\ _)); [by destruct (decide _)|].
        split; [set_solver|]. apply flag_some; [by destruct Hok|done|eauto].
      * destruct (decide (y ∈ l /\ _)), (decide (y ∈ t :: l /\ _)); set_solver.
Qed.

(** A process that may end: not init, with an address space of its own, a parent, and
    no thread that waits for a child; threads that wait are out of the queue. *)
Record exitable s a p : Prop := {
  ex_proc : procs_of s !! a = Some p;
  ex_init : pid p <> 1;
  ex_space : p_as p <> kernel_as /\ p_as p ∈ blocks (rest_of s);
  ex_parent : is_Some (procs_of s !! parent p);
  ex_out : forall l t, waiting s !! 4%nat = Some l -> t ∈ l -> (t ∉ queue s) /\ t ∉ p_threads p;
}.

Section ended.
Context {s : K} {a code : Z} {p : process} {i' : intr} {ths' : gmap Z thread}.
Let p' := with_exit PROCESS_STATE_ZOMBIE code p.
Let s' := set_intr_s i' (set_threads ths' (put_p a p' s)).
Hypothesis Hok : kernel_ok s.
Hypothesis Hex : exitable s a p.
Hypothesis Hi : intr_ok i'.
Hypothesis Hz : is_zombie_of (p_threads p) (threads s) ths'.
Hypothesis Hrel : released (p_threads p) (intr_s s) i'.

Lemma ended_proc b q : procs_of s' !! b = Some q ->
  exists q0, procs_of s !! b = Some q0 /\ ((b = a /\ q = p' /\ q0 = p) \/ (b <> a /\ q = q0)).
Proof.
  unfold s', procs_of. simpl. destruct (decide (b = a)) as [->|Hne].
  - rewrite lookup_insert_eq. intros [= <-]. exists p. split; [apply (ex_proc _ _ _ Hex)|auto].
  - rewrite lookup_insert_ne by done. eauto.
Qed.

(** Fields that do not change. *)
Lemma ended_fields b q : procs_of s' !! b = Some q ->
  exists q0, procs_of s !! b = Some q0 /\ pid q = pid q0 /\ parent q = parent q0 /\ p_as q = p_as q0 /\
    p_threads q = p_threads q0 /\ plock q = plock q0 /\ thread_count q = thread_count q0 /\
    (p_state q = p_state q0 \/ b = a).
Proof. intros Hq. destruct (ended_proc b q Hq) as (q0 & Hq0 & [(-> & -> & ->)|[_ ->]]); exists q0 || exists p; split_and!; auto. Qed.

Lemma ended_some b : is_Some (procs_of s !! b) -> is_Some (procs_of s' !! b).
Proof. unfold s', procs_of. simpl. intros Hb. apply lookup_insert_is_Some'. by right. Qed.

Lemma ended_procs_ok b q : procs_of s' !! b = Some q -> proc_ok s' b q.
Proof.
  intros Hq. destruct (ended_proc b q Hq) as (q0 & Hq0 & Hc).
  pose proof (ko_procs s Hok b q0 Hq0) as [Hplk Hpnd Hpc Hps Hpt Hpb Hpsp Hpz].
  destruct Hc as [(-> & -> & ->)|[Hne ->]]; split; try done.
  - intros _ Hn. destruct (ex_space _ _ _ Hex). split_and!; try done; [apply (ex_init _ _ _ Hex)|].
    apply ended_some, (ex_parent _ _ _ Hex).
  - intros Hzq Hn. destruct (Hpz Hzq Hn) as (? & ? & ? & ?). split_and!; try done. by apply ended_some.
Qed.

Lemma ended_threads_ok t x : tstructs_of s' !! t = Some x -> thread_ok s' t x.
Proof.
  intros Hx. destruct (ko_threads s Hok t x Hx) as [(q & Hq & Htq) [th Hth] Hfl Hks Hpg Hzo]. destruct Hrel as [Hflag Hdom].
  split; try done.
  - unfold s', procs_of. simpl. destruct (decide (t_parent x = a)) as [E|E].
    + exists p'. rewrite E, lookup_insert_eq. split; [done|]. rewrite E, (ex_proc _ _ _ Hex) in Hq. by simplify_eq.
    + exists q. by rewrite lookup_insert_ne.
  - simpl. rewrite Hz, Hth. destruct (decide _); eauto.
  - unfold s'. rewrite intr_set. by apply Hdom.
  - intros (th' & Hth' & Hst). simpl in Hth'. rewrite Hz in Hth'.
    assert (forall u, user_irq u -> registered (intr_s s') t u -> (t ∉ p_threads p) /\ registered (intr_s s) t u) as Hreg.
    { unfold s'. rewrite intr_set. intros u Hu (v & Hv & Hvr). rewrite Hflag in Hv by done.
      destruct (decide (_ /\ _)) as [|Hn]; [injection Hv as <-; by destruct Hvr|]. split; [|by exists v]. intros Hin. apply Hn. split; [done|eauto]. }
    destruct (decide (t ∈ p_threads p)) as [Hin|Hin].
    + destruct (po_threads _ _ _ (ko_procs s Hok a p (ex_proc _ _ _ Hex)) t Hin) as (x0 & Hx0 & Hpar).
      change (tstructs_of s !! t = Some x) in Hx. rewrite Hx in Hx0. injection Hx0 as <-.
      split; [|intros u Hu Hr; by apply (Hreg u Hu Hr)]. intros q'. rewrite Hpar. unfold s', procs_of. simpl.
      rewrite lookup_insert_eq. by intros [= <-].
    + destruct Hzo as [Hzp Hquiet]; [by exists th'|].
      split; [|intros u Hu Hr; by apply (Hquiet u Hu), (Hreg u Hu Hr)].
      intros q' Hq'. destruct (ended_proc _ _ Hq') as (q0 & Hq0 & [(_ & -> & _)|[_ ->]]); [done|]. by apply Hzp.
Qed.

Lemma ended_waiters_ok : waiters_ok s'.
Proof.
  destruct (ko_waiters s Hok) as [(l & H4 & H5 & Hnd & Hid & Hall)]. split. exists l. split_and!; try done.
  intros t Ht. destruct (Hall t Ht) as ((th & Hth & Hb) & Hd & Hout). destruct (ex_out _ _ _ Hex l t H4 Ht) as [Hq Hnp].
  assert (threads s' !! t = threads s !! t) as Hsame by (simpl; rewrite Hz, decide_False; done).
  split_and!.
  - exists th. by rewrite Hsame.
  - intros th'. rewrite Hsame. apply Hd.
  - intros b q _ _ _ _. done.
Qed.

Lemma ended_ok : kernel_ok s'.
Proof.
  pose proof Hok as [Hm _ Hprocs Hths Hknown Hspaces Hapart [Hlnd Hlist] Hpid Hpids Hw]. split.
  - done.
  - unfold s'. by rewrite intr_set.
  - apply ended_procs_ok.
  - apply ended_threads_ok.
  - intros t Ht. apply Hknown. destruct Ht as [Ht|Ht]; [left|right].
    + simpl in Ht. rewrite Hz in Ht. destruct (decide _); [by apply fmap_is_Some in Ht|done].
    + unfold s' in Ht. rewrite intr_set in Ht. by apply Hrel.
  - intros b c q q' Hb Hc Hn Heq Hn' Hk. destruct (ended_fields b q Hb) as (q0 & Hb0 & _ & _ & Ha1 & Ht1 & _).
    destruct (ended_fields c q' Hc) as (q1 & Hc0 & _ & _ & Ha2 & Ht2 & _). apply (Hspaces b c q0 q1); congruence.
  - intros b c q Hb Hc Hn. destruct (ended_fields b q Hb) as (q0 & Hb0 & _ & _ & -> & Ht1 & _).
    apply (Hapart b c q0 Hb0); [|congruence]. destruct (procs_of s' !! c) as [q'|] eqn:E; [|done].
    destruct (ended_proc c q' E) as (q1 & -> & _). done.
  - split; [done|]. intros b Hb. by apply ended_some, Hlist.
  - intros b q Hbl Hb. destruct (ended_fields b q Hb) as (q0 & Hb0 & -> & _). by apply (Hpid b).
  - intros b c q q' Hbl Hcl Hb Hc. destruct (ended_fields b q Hb) as (q0 & Hb0 & -> & _).
    destruct (ended_fields c q' Hc) as (q1 & Hc0 & -> & _). by apply Hpids.
  - apply ended_waiters_ok.
Qed.

Lemma ended_queue_wf : queue_wf s -> queue_wf s'.
Proof using Hz.
  intros (Hnd & H0 & Hid & Hth). split_and!; try done. intros t Ht. simpl. rewrite Hz.
  destruct (Hth t Ht) as [th ->]. destruct (decide _); eauto.
Qed.

Lemma ended_blocked : (nblocked s' <= nblocked s)%nat.
Proof using Hz.
  pose proof (nblocked_woken s s' []) as Hn. rewrite Nat.add_0_r in Hn. apply Hn; [constructor|intros t Ht; by apply not_elem_of_nil in Ht|].
  intros t (th & Hth & Hst). simpl in Hth. rewrite Hz in Hth. destruct (decide _); [|by exists th].
  destruct (threads s !! t); [|done]. simpl in Hth. by simplify_eq.
Qed.

End ended.

(** The thread elected when a change is forced. *)
Lemma elected_forced run idl q t q' :
  NoDup q -> (t, q') = elected true run idl q -> (t = idl \/ (t ∈ q' /\ t <> run)).
Proof.
  intros Hnd He. unfold elected in He. simpl in He. destruct q as [|y q]; [injection He as -> ->; by left|].
  destruct (Z.eqb_spec run y) as [->|Hne].
  - destruct q as [|z q]; injection He as -> ->; [by left|]. right. split; [set_solver|]. intros ->.
    apply NoDup_cons in Hnd as [Hy _]. set_solver.
  - injection He as -> ->. right. split; [set_solver|done].
Qed.

(** What [process_exit] leaves, [J] being any invariant that scheduling keeps. *)
Record exited (J : K -> Prop) s p (s' : K) : Prop := {
  xt_ok : kernel_ok s' /\ J s';
  xt_locks : sched_lock s' = false /\ event_lock s' = false;
  xt_queue : queue_wf s' /\ (length (queue s') + nblocked s' <= length (queue s) + nblocked s)%nat;
  xt_same : idle s' = idle s /\ time s' = SCHEDULER_TIME;
  xt_next : running s' = idle s \/ (running s' ∈ queue s' /\ running s' <> running s);
  xt_from : forall t, t ∈ queue s' -> t ∈ queue s \/ has_state THREAD_STATE_RUNNING s' t;
  xt_gone : forall t, is_Some (threads s' !! t) ->
    is_Some (threads s !! t) /\ (t ∈ p_threads p -> t ∈ queue s -> t = running s /\ t ∈ queue s');
}.

Lemma process_exit_ok (J : K -> Prop) (HJ : stable J) fuel s a p code :
  kernel_ok s -> exitable s a p -> sched_lock s = false -> event_lock s = false -> queue_wf s ->
  (length (queue s) + nblocked s < fuel)%nat ->
  (forall i' ths', is_zombie_of (p_threads p) (threads s) ths' ->
     J (set_time 1 (set_intr_s i' (set_threads ths' (put_p a (with_exit PROCESS_STATE_ZOMBIE code p) s))))) ->
  wp (process_exit fuel a code) s (fun r s' => exited J s p s').
Proof.
  intros Hok Hex Hsl Hel Hwf Hf HJ0. pose proof (ex_proc _ _ _ Hex) as Hp.
  pose proof (ko_procs s Hok a p Hp) as [Hplk _ _ _ Hpt _ _ _]. unfold process_exit.
  apply wp_bind. eapply wp_lock_proc; [done..|].
  apply wp_bind. eapply wp_update_proc; [apply lookup_insert_eq|].
  apply wp_bind. eapply wp_update_proc; [apply lookup_insert_eq|]. rewrite !put_p_twice.
  assert (with_plock false (with_exit PROCESS_STATE_ZOMBIE code (with_plock true p)) =
          with_exit PROCESS_STATE_ZOMBIE code p) as -> by (destruct p; simpl in *; by subst).
  apply wp_bind. eapply wp_proc_at; [apply lookup_insert_eq|].
  change (p_threads (with_exit _ _ p)) with (p_threads p).
  apply wp_bind. eapply wp_mono.
  { apply exit_threads_ok; [apply (ko_intr s Hok)|]. intros t Ht. destruct (Hpt t Ht) as (x & Hx & _).
    destruct (ko_threads s Hok t x Hx) as [_ ? ? _ _ _]. done. }
  intros _ s1 (i' & ths' & -> & Hi & Hz & Hrel).
  change (is_zombie_of (p_threads p) (threads s) ths') in Hz.
  pose proof (ended_ok (code := code) Hok Hex Hi Hz Hrel) as Hok1.
  pose proof (ended_queue_wf (code := code) (i' := i') (a := a) Hz Hwf) as Hwf1.
  pose proof (ended_blocked (code := code) (i' := i') (a := a) Hz) as Hnb1.
  specialize (HJ0 i' ths' Hz). apply wp_bind, wp_modify.
  set (s1 := set_intr_s i' _) in *. set (s2 := set_time 1 s1) in *.
  eapply wp_mono; [apply (scheduler_update_ok (reaper := reaper_with J HJ) fuel s2 true true); try done|].
  { split; [by eapply kernel_ok_frame|done]. }
  { change (queue s2) with (queue s). change (nblocked s2) with (nblocked s1). lia. }
  { by left. }
  intros r s' ([Hok' HJ'] & Hsl' & Hel' & Hid' & Hwf' & He).
  unfold must_elect in He. rewrite !orb_true_r in He. simpl in He.
  destruct He as (t & new & Htm & Hrun & Hel2 & Hnew & Hre & Hld & _).
  change (running s2) with (running s) in *. change (idle s2) with (idle s) in *. change (queue s2) with (queue s) in *.
  set (q := filter (fun t => keep s2 t) (queue s) ++ new) in *.
  assert (queue s' ≡ₚ q) as Hperm.
  { pose proof (elected_perm true (running s) (idle s) q) as Hpm. by rewrite <-Hel2 in Hpm. }
  split; try done.
  - split; [done|]. change (nblocked s2) with (nblocked s1) in Hld. lia.
  - rewrite Hrun. apply (elected_forced _ _ q); [|done]. rewrite <-Hperm. apply Hwf'.
  - intros y. rewrite Hperm. unfold q. intros [[_ Hy]%list_elem_of_filter|Hy]%elem_of_app; [by left|right].
    rewrite Forall_forall in Hnew. by apply Hnew.
  - intros y Hy. destruct (Hre y Hy) as [Hy2 Hyz].
    assert (forall th, threads s !! y = Some th -> y ∈ p_threads p ->
      threads s2 !! y = Some (set_state THREAD_STATE_ZOMBIE th)) as Hzy.
    { intros th Hth Hyp. change (ths' !! y = Some (set_state THREAD_STATE_ZOMBIE th)). by rewrite Hz, Hth, decide_True. }
    assert (is_Some (threads s !! y)) as [th Hth].
    { revert Hy2. change (threads s2) with ths'. rewrite Hz. destruct (decide _); [by intros ?%fmap_is_Some|done]. }
    split; [eauto|]. intros Hyp Hyq. specialize (Hzy th Hth Hyp).
    assert (running s = y) as Hry by (apply Hyz; [done|]; by exists (set_state THREAD_STATE_ZOMBIE th)).
    split; [done|]. rewrite Hperm. unfold q. rewrite elem_of_app, list_elem_of_filter. left. split; [|done].
    unfold keep. rewrite Hzy. cbv beta iota. change (running s2) with (running s). rewrite Hry, (Z.eqb_refl y). by rewrite orb_true_r.
Qed.

(** ** Waiting for a process *)

Lemma find_pid_run n s : forall l, (forall b, b ∈ l -> is_Some (procs_of s !! b)) ->
  exists r, find_pid l n s = Done (r, s) /\
    ((r = 0 /\ forall b q, b ∈ l -> procs_of s !! b = Some q -> pid q <> n) \/
     (r ∈ l /\ exists q, procs_of s !! r = Some q /\ pid q = n)).
Proof.
  induction l as [|b l IH]; intros Hl; cbn [find_pid].
  { exists 0. split; [done|]. left. split; [done|]. by intros b q ?%not_elem_of_nil. }
  destruct (Hl b) as [q Hq]; [set_solver|]. destruct IH as (r & Hrun & Hr); [set_solver|].
  unfold bind, proc_at. change (procs (world s)) with (procs_of s). rewrite Hq.
  destruct (Z.eqb_spec (pid q) n) as [Hn|Hn].
  - exists b. split; [done|]. right. split; [set_solver|eauto].
  - exists r. split; [done|]. destruct Hr as [[-> Hr]|[Hin Hr]]; [left|right; set_solver].
    split; [done|]. intros c q' [->|Hc]%elem_of_cons Hq'; [congruence|by eapply Hr].
Qed.

(** [process_get] finds the process of a pid in use. *)
Lemma process_get_ok s c q (Q : Z -> K -> Prop) :
  kernel_ok s -> c ∈ processes (world s) -> procs_of s !! c = Some q -> Q c s -> wp (process_get (pid q)) s Q.
Proof.
  intros Hok Hc Hq HQ. unfold process_get. apply wp_bind, wp_get.
  destruct (find_pid_run (pid q) s (processes (world s))) as (r & Hrun & Hr); [apply (ko_list s Hok)|].
  unfold wp. rewrite Hrun. destruct Hr as [[-> Hr]|(Hin & q' & Hq' & Hpid)]; [by destruct (Hr c q Hc Hq)|].
  by rewrite (ko_pids s Hok r c q' q).
Qed.

Lemma process_addr s c q : kernel_ok s -> procs_of s !! c = Some q -> 0 < c.
Proof. intros Hok Hq. eapply blocks_pos; [apply (ko_mem s Hok)|]. by eapply po_block, (ko_procs s Hok). Qed.

(** A child [c] of process [a] that has not been waited for, and the state once it has. *)
Definition uncollected s a c p q : Prop :=
  c ∈ processes (world s) /\ procs_of s !! c = Some q /\ parent q = a /\ procs_of s !! a = Some p /\
  c ∈ children p /\ c <> a.

Definition collected a c p q s : K :=
  upd_kernel (fun k => set_processes (filter (fun y => y <> c) (processes k))
    (set_procs (<[c := with_pid (-1) q]> (<[a := with_children (filter (fun y => y <> c) (children p)) p]> (procs k))) k)) s.

Lemma collect_child_ok s a c p q n :
  uncollected s a c p q ->
  wp (collect_child c n) s (fun r s' => r = (n, exit_state q) /\ s' = collected a c p q s).
Proof.
  intros (Hc & Hq & Hpar & Hp & Hch & Hne). unfold collect_child, remove_process.
  apply wp_bind. eapply wp_proc_at; [done|].
  apply wp_bind, wp_bind. eapply wp_proc_at; [done|]. rewrite Hpar.
  apply wp_bind. eapply wp_proc_at; [done|]. rewrite decide_True by done.
  apply wp_bind. eapply wp_update_proc; [done|]. apply wp_bind, wp_modify.
  eapply (wp_update_proc c q); [unfold procs_of; simpl; by rewrite lookup_insert_ne|].
  by apply wp_ret.
Qed.

Lemma find_child_zombie fuel s a c p q :
  kernel_ok s -> uncollected s a c p q -> p_state q = PROCESS_STATE_ZOMBIE ->
  wp (find_child fuel a (pid q)) s (fun r s' => r = Waited (pid q, exit_state q) /\ s' = collected a c p q s).
Proof.
  intros Hok Hun Hz. pose proof Hun as (Hc & Hq & Hpar & _). unfold find_child.
  apply wp_bind. eapply process_get_ok; [done..|]. rewrite (proj2 (Z.eqb_neq c 0)) by (apply process_addr in Hq; [lia|done]).
  apply wp_bind. eapply wp_proc_at; [done|]. rewrite Hpar, Z.eqb_refl. simpl negb. cbv iota.
  pose proof (po_lock _ _ _ (ko_procs s Hok c q Hq)) as Hlk.
  apply wp_bind. eapply wp_lock_proc; [done..|]. rewrite Hz, Z.eqb_refl.
  apply wp_bind. eapply wp_update_proc; [apply lookup_insert_eq|]. rewrite put_p_twice.
  assert (put_p c (with_plock false (with_plock true q)) s = s) as ->.
  { unfold put_p, upd_kernel. destruct s as [? ? ? ? ? ? ? ? ? [? ? ? ? ?]]. unfold procs_of, set_world, set_procs in *. simpl in *.
    do 2 f_equal. apply insert_id. rewrite Hq. by destruct q; simpl in *; subst. }
  apply wp_bind. eapply wp_mono; [by apply (collect_child_ok s a c p q)|]. intros r s' [-> ->]. by apply wp_ret.
Qed.

Section collected.
Context {s : K} {a c : Z} {p q : process}.
Let s' := collected a c p q s.
Hypothesis Hok : kernel_ok s.
Hypothesis Hun : uncollected s a c p q.

Lemma collected_proc b r : procs_of s' !! b = Some r -> exists r0, procs_of s !! b = Some r0 /\
  parent r = parent r0 /\ p_state r = p_state r0 /\ p_as r = p_as r0 /\ thread_count r = thread_count r0 /\
  plock r = plock r0 /\ p_threads r = p_threads r0 /\ (if decide (b = c) then pid r = -1 else pid r = pid r0).
Proof.
  destruct Hun as (_ & Hq & _ & Hp & _ & Hne). unfold s', procs_of. simpl. destruct (decide (b = c)) as [->|Hb].
  { rewrite lookup_insert_eq. intros [= <-]. by exists q. }
  rewrite lookup_insert_ne by done. destruct (decide (b = a)) as [->|Hb'].
  { rewrite lookup_insert_eq. intros [= <-]. by exists p. }
  rewrite lookup_insert_ne by done. intros Hr. by exists r.
Qed.

Lemma collected_some b : is_Some (procs_of s !! b) -> is_Some (procs_of s' !! b).
Proof. intros Hb. unfold s', procs_of. simpl. rewrite !lookup_insert_is_Some'. auto. Qed.

Lemma collected_some' b r : procs_of s !! b = Some r -> exists r', procs_of s' !! b = Some r' /\ 
  p_state r' = p_state r /\ p_threads r' = p_threads r.
Proof.
  intros Hb. destruct (collected_some b) as [r' Hr']; [eauto|]. exists r'. split; [done|].
  destruct (collected_proc b r' Hr') as (r0 & Hr0 & _ & Hs & _ & _ & _ & Ht & _). split; congruence.
Qed.

Lemma collected_procs_ok b r : procs_of s' !! b = Some r -> proc_ok s' b r.
Proof.
  intros Hb. destruct (collected_proc b r Hb) as (r0 & Hr0 & Hpar & Hst & Has & Hct & Hlk & Hth & Hpid).
  pose proof (ko_procs s Hok b r0 Hr0) as [Hplk Hpnd Hpc Hps Hpt Hpb Hpsp Hpz].
  split; rewrite ?Hpar, ?Hst, ?Has, ?Hct, ?Hlk, ?Hth; try done.
  intros Hz Hn. destruct (Hpz Hz Hn) as (Hi & Hk & Hb2 & Hs). split_and!; [|done|done|by apply collected_some].
  destruct (decide (b = c)); [lia|congruence].
Qed.

Lemma collected_threads_ok t x : tstructs_of s' !! t = Some x -> thread_ok s' t x.
Proof.
  intros Hx. destruct (ko_threads s Hok t x Hx) as [(r & Hr & Htr) Hth Hfl Hks Hpg Hzo]. split; try done.
  - destruct (collected_some' _ _ Hr) as (r' & Hr' & _ & Ht'). exists r'. by rewrite Ht'.
  - intros Hz. destruct (Hzo Hz) as [Hzp Hquiet]. split; [|done]. intros r' Hr'.
    destruct (collected_proc _ _ Hr') as (r0 & Hr0 & _ & -> & _). by apply Hzp.
Qed.

Lemma collected_waiters_ok : waiters_ok s'.
Proof.
  destruct (ko_waiters s Hok) as [(l & H4 & H5 & Hnd & Hid & Hall)]. split. exists l. split_and!; try done.
  intros t Ht. destruct (Hall t Ht) as (Hb & Hd & Hout). split_and!; [done..|].
  intros b r Hr Hz Hn Hw. destruct (collected_proc b r Hr) as (r0 & Hr0 & _ & Hst & _ & _ & _ & Hth & Hpid).
  destruct (decide (b = c)) as [->|Hne].
  - rewrite Hpid in Hw. unfold waits_for in Hw. destruct Hb as (th & Hth' & _).
    change (threads s') with (threads s) in Hw. rewrite Hth' in Hw. specialize (Hd th Hth'). cbv beta iota in Hw.
    rewrite (proj2 (Z.eqb_neq (data th) (-1))), andb_false_r in Hw by lia. done.
  - rewrite Hpid in Hw. apply (Hout b r0); congruence || done.
Qed.

Lemma collected_ok : kernel_ok s'.
Proof.
  pose proof Hok as [Hm Hi Hprocs Hths Hknown Hspaces Hapart [Hlnd Hlist] Hpid Hpids Hw].
  assert (forall b, b ∈ processes (world s') -> b ∈ processes (world s) /\ b <> c) as Hin.
  { intros b. unfold s'. simpl. rewrite list_elem_of_filter. tauto. }
  split; try done.
  - apply collected_procs_ok.
  - apply collected_threads_ok.
  - intros b b' r r' Hb Hb' Hn Heq Hn' Hk. destruct (collected_proc b r Hb) as (r0 & Hr0 & _ & _ & Ha & _ & _ & Ht & _).
    destruct (collected_proc b' r' Hb') as (r1 & Hr1 & _ & _ & Ha' & _ & _ & Ht' & _). apply (Hspaces b b' r0 r1); congruence.
  - intros b b' r Hb Hb' Hn. destruct (collected_proc b r Hb) as (r0 & Hr0 & _ & _ & -> & _ & _ & Ht & _).
    apply (Hapart b b' r0 Hr0); [|congruence]. destruct (procs_of s' !! b') as [r'|] eqn:E; [|done].
    destruct (collected_proc b' r' E) as (r1 & -> & _). done.
  - split; [by apply NoDup_filter|]. intros b Hb. apply collected_some, Hlist. by apply Hin.
  - intros b r Hbl Hb. destruct (Hin b Hbl) as [Hbl' Hne]. destruct (collected_proc b r Hb) as (r0 & Hr0 & Hrest).
    rewrite decide_False in Hrest by done. destruct Hrest as (_ & _ & _ & _ & _ & _ & ->). by apply (Hpid b).
  - intros b b' r r' Hbl Hbl' Hb Hb'. destruct (Hin b Hbl) as [Hl Hne], (Hin b' Hbl') as [Hl' Hne'].
    destruct (collected_proc b r Hb) as (r0 & Hr0 & Hrest). rewrite decide_False in Hrest by done.
    destruct (collected_proc b' r' Hb') as (r1 & Hr1 & Hrest'). rewrite decide_False in Hrest' by done.
    destruct Hrest as (_ & _ & _ & _ & _ & _ & ->), Hrest' as (_ & _ & _ & _ & _ & _ & ->). by apply Hpids.
  - apply collected_waiters_ok.
Qed.

End collected.

(** The state of a thread that waits for process [n]. *)
Definition blocked_for n th := set_event SCHED_EV_PEXIT n (set_state THREAD_STATE_BLOCKED th).

(** The state once thread [w] waits for a process, before it leaves the processor. *)
Definition waits w n th l s : K :=
  set_waiting (<[4%nat := w :: l]> (waiting s)) (set_threads (<[w := blocked_for n th]> (threads s)) s).

Section waits.
Context {s : K} {w n : Z} {th : thread} {l q' : list Z} {s' : K}.
Hypothesis Hok : kernel_ok s.
Hypothesis Hth : threads s !! w = Some th.
Hypothesis Hrun : state th = THREAD_STATE_RUNNING.
Hypothesis Hl : waiting s !! 4%nat = Some l.
Hypothesis Hidle : w <> idle s.
Hypothesis Hn : 0 <= n.

Lemma waits_new : w ∉ l.
Proof.
  intros Hin. destruct (ko_waiters s Hok) as [(l0 & H4 & _ & _ & _ & Hall)]. rewrite Hl in H4. injection H4 as <-.
  destruct (Hall w Hin) as ((th' & Hth' & Hb) & _). rewrite Hth in Hth'. injection Hth' as <-. rewrite Hrun in Hb. done.
Qed.

Lemma waits_ok :
  world s' = world s -> threads s' = <[w := blocked_for n th]> (threads s) ->
  waiting s' = <[4%nat := w :: l]> (waiting s) -> idle s' = idle s ->
  (forall y, y ∈ queue s' -> y ∈ queue s) -> (w ∉ queue s') -> kernel_ok s'.
Proof.
  intros Hworld Hths Hwt Hid Hq Hwq. pose proof waits_new as Hnew.
  pose proof Hok as [Hm Hi Hp Ht Hk Hs Ha Hls Hpp Hpi [(l0 & H4 & H5 & Hnd & Hil & Hall)]].
  rewrite Hl in H4. injection H4 as <-.
  assert (forall y, y <> w -> threads s' !! y = threads s !! y) as Hother by (intros y Hy; by rewrite Hths, lookup_insert_ne).
  assert (threads s' !! w = Some (blocked_for n th)) as Hw by (rewrite Hths; apply lookup_insert_eq).
  unfold procs_of, tstructs_of, rest_of, intr_s in *.
  split; unfold procs_of, tstructs_of, rest_of, intr_s; rewrite ?Hworld; try done.
  - intros a p Hap. destruct (Hp a p Hap). split; unfold procs_of, tstructs_of, rest_of in *; by rewrite ?Hworld.
  - intros t x Htx. destruct (Ht t x Htx) as [H1 H2 H3 H6 H7 H8].
    split; unfold procs_of, tstructs_of, rest_of, intr_s in *; rewrite ?Hworld; try done.
    + destruct (decide (t = w)) as [->|Hne]; [rewrite Hw; eauto|by rewrite Hother].
    + intros (th' & Hth' & Hz). apply H8. destruct (decide (t = w)) as [->|Hne].
      * rewrite Hw in Hth'. injection Hth' as <-. done.
      * rewrite Hother in Hth' by done. by exists th'.
  - intros t [Htt|Htt]; apply Hk; [left|by right]. destruct (decide (t = w)) as [->|Hne]; [eauto|by rewrite <-Hother].
  - split. exists (w :: l). rewrite Hwt, Hid. split_and!.
    + apply list_lookup_insert_eq. by eapply lookup_lt_Some.
    + by rewrite list_lookup_insert_ne.
    + by constructor.
    + intros [E|?]%elem_of_cons; [by apply Hidle|done].
    + intros t [->|Htl]%elem_of_cons.
      * split_and!; [by exists (blocked_for n th)|rewrite Hw; by intros th' [= <-]|done].
      * assert (t <> w) as Hne by (by intros ->). destruct (Hall t Htl) as (Hb & Hd & Hz).
        unfold has_state, waits_for, procs_of in *. rewrite Hother, Hworld by done. split_and!; try done.
        intros a p Hap Hzo Hne' Hwf Hin. by apply (Hz a p Hap Hzo Hne' Hwf), Hq.
Qed.

Lemma waits_wf : queue_wf s -> queue_wf (waits w n th l s).
Proof using Hth.
  intros (Hnd & H0 & Hid & Hths). split_and!; try done. intros t Ht. simpl.
  destruct (decide (t = w)) as [->|Hne]; [rewrite lookup_insert_eq; eauto|]. rewrite lookup_insert_ne by done. by apply Hths.
Qed.

End waits.

Lemma find_child_waits fuel s a c p q th l :
  let w := running s in
  kernel_ok s -> uncollected s a c p q -> p_state q <> PROCESS_STATE_ZOMBIE ->
  sched_lock s = false -> event_lock s = false -> queue_wf s -> calm s -> (length (queue s) < fuel)%nat ->
  threads s !! w = Some th -> state th = THREAD_STATE_RUNNING -> w <> idle s -> waiting s !! 4%nat = Some l ->
  wp (find_child fuel a (pid q)) s (fun r s' =>
    let ready := elected false w (idle s) (filter (fun t => t <> w) (filter (fun t => keep s t) (queue s))) in
    r = WaitSwitched (Some ready.1) /\ running s' = ready.1 /\ queue s' = ready.2 /\
    world s' = world s /\ threads s' = <[w := blocked_for (pid q) th]> (threads s) /\
    waiting s' = <[4%nat := w :: l]> (waiting s) /\ idle s' = idle s /\ time s' = SCHEDULER_TIME /\
    sched_lock s' = false /\ event_lock s' = false /\ kernel_ok s').
Proof.
  intros w Hok (Hc & Hq & Hpar & Hp & Hch & Hne) Hz Hsl Hel Hwf Hcalm Hf Hth Hst Hidle Hl. unfold find_child.
  pose proof (ko_pid s Hok c q Hc Hq) as Hpid. pose proof (waits_new Hok Hth Hst Hl) as Hnew.
  apply wp_bind. eapply process_get_ok; [done..|]. rewrite (proj2 (Z.eqb_neq c 0)) by (apply process_addr in Hq; [lia|done]).
  apply wp_bind. eapply wp_proc_at; [done|]. rewrite Hpar, Z.eqb_refl. simpl negb. cbv iota.
  pose proof (po_lock _ _ _ (ko_procs s Hok c q Hq)) as Hlk.
  apply wp_bind. eapply wp_lock_proc; [done..|]. rewrite (proj2 (Z.eqb_neq _ _) Hz).
  apply wp_bind. unfold thread_current. apply wp_bind, wp_get, wp_ret.
  change (running (put_p c _ s)) with w.
  apply wp_bind. unfold thread_block_prepare, scheduler_event_wait.
  apply wp_bind. eapply wp_update_thread; [exact Hth|].
  apply wp_bind, wp_lock; [done|]. apply wp_bind, wp_get.
  change (if SCHED_EV_PEXIT <=? 0 then None else _) with (waiting s !! 4%nat). rewrite Hl.
  rewrite decide_False by done. apply wp_bind, wp_modify, wp_unlock.
  apply wp_bind. eapply (wp_update_proc c (with_plock true q)); [apply lookup_insert_eq|].
  match goal with |- wp _ ?z _ => assert (z = waits w (pid q) th l s) as -> end.
  { destruct s as [? ? ? ? ? ? ? ? ? [? ? ? ? ?]]. unfold waits, blocked_for, put_p, upd_kernel, set_world, set_procs, procs_of in *.
    simpl in *. subst. rewrite insert_insert_eq, (insert_id procs0); [done|].
    rewrite Hq. by destruct q; simpl in *; subst. }
  set (s1 := waits w (pid q) th l s).
  assert (threads s1 !! w = Some (blocked_for (pid q) th)) as Hw1 by apply lookup_insert_eq.
  assert (forall y, y <> w -> threads s1 !! y = threads s !! y) as Hother by (intros y Hy; by apply lookup_insert_ne).
  assert (filter (fun t => keep s1 t) (queue s) = filter (fun t => t <> w) (filter (fun t => keep s t) (queue s))) as Hkeep.
  { rewrite list_filter_filter. apply list_filter_iff. intros y. unfold keep. destruct (decide (y = w)) as [->|Hy].
    - rewrite Hw1. split; [done|tauto].
    - rewrite Hother by done. change (running s1) with w. tauto. }
  apply wp_bind. unfold thread_block_commit. apply wp_bind, wp_lock; [done|].
  apply wp_bind. eapply wp_thread; [exact Hw1|]. change (state (blocked_for _ _)) with THREAD_STATE_BLOCKED. rewrite Z.eqb_refl.
  eapply wp_mono; [apply (block_running_calm fuel (set_lock true s1) (blocked_for (pid q) th)); try done|].
  - by apply (waits_wf (th := th)).
  - intros t th' Ht Hth' Hz'. simpl in Hth'. destruct (decide (t = w)) as [->|Hy]; [by simplify_eq|].
    rewrite lookup_insert_ne in Hth' by done. by apply (Hcalm t th').
  - cbv zeta. change (filter (fun t => keep (set_lock true s1) t) (queue (set_lock true s1))) with (filter (fun t => keep s1 t) (queue s)).
    rewrite Hkeep.
    intros r s' [-> ->]. apply wp_ret. split_and!; try done.
    set (ready := filter _ _). set (e := elected _ _ _ _).
    assert (e.2 ≡ₚ ready) as Hpm by apply elected_perm.
    apply (waits_ok (s := s) (w := w) (n := pid q) (th := th) (l := l)); try done.
    + intros y. change (y ∈ e.2 -> y ∈ queue s). rewrite Hpm. by intros [_ [_ Hy]%list_elem_of_filter]%list_elem_of_filter.
    + change (w ∉ e.2). rewrite Hpm. by intros [Hy _]%list_elem_of_filter.
Qed.

(** ** The passing of time *)

(** [n] timer interrupts. *)
Fixpoint ticks (fuel n : nat) : M K unit :=
  match n with
  | O => ret tt
  | S n => let! _ := scheduler_update fuel false false in ticks fuel n
  end.

Lemma elected_in force run idl q t q' : (t, q') = elected force run idl q -> t = idl \/ t ∈ q'.
Proof.
  unfold elected. destruct q as [|y q]; [intros [= -> ->]; by left|].
  destruct (force && _); [destruct q|]; intros [= -> ->]; set_solver.
Qed.

(** Time does not go wrong, and within a time slice the zombies of the queue are
    gone, unless one is running. *)
Lemma ticks_ok (J : K -> Prop) (HJ : stable J) fuel n : forall s,
  kernel_ok s -> J s -> idles s -> sched_lock s = false -> event_lock s = false -> queue_wf s ->
  (length (queue s) + nblocked s < fuel)%nat -> is_Some (threads s !! running s) -> 1 <= time s < 2 ^ 32 ->
  wp (ticks fuel n) s (fun _ s' => kernel_ok s' /\ J s' /\
    (forall y, is_Some (threads s' !! y) -> is_Some (threads s !! y)) /\
    (time s <= Z.of_nat n -> reaps (queue s) s s')).
Proof.
  pose proof (stable_and _ _ HJ stable_idles) as HJi.
  induction n as [|n IH]; intros s Hok HJs His Hsl Hel Hwf Hf Hrun Htm; cbn [ticks].
  { apply wp_ret. split_and!; try done. lia. }
  apply wp_bind. eapply wp_mono.
  { apply (scheduler_update_ok (reaper := reaper_with _ HJi) fuel s false false); try done. by right. }
  intros r s1 ((Hok1 & HJ1 & Hi1) & Hsl1 & Hel1 & Hid1 & Hwf1 & He). cbv zeta in He.
  destruct (must_elect _ false false) eqn:Em.
  - destruct He as (t & new & Htm1 & Hrun1 & Hel2 & _ & Hre & Hld & _).
    eapply wp_mono; [apply IH; try done|].
    + lia.
    + rewrite Hrun1. apply elected_in in Hel2 as [->|Hin]; [|by apply Hwf1].
      destruct Hi1 as (th & Hth & _). rewrite Hid1 in Hth. eauto.
    + rewrite Htm1. done.
    + intros _ s2 (Hok2 & HJ2 & Hkn & _). split_and!; try done; [intros y Hy; by apply Hre, Hkn|].
      intros _ y Hy. by apply Hre, Hkn.
  - destruct He as [_ ->]. unfold must_elect in Em. simpl in Em.
    assert (u32 (time s - 1) = time s - 1) as Eu by (apply u32_small; lia). rewrite Eu in *. destruct (Z.eqb_spec (time s - 1) 0) as [Hz|Hz]; [done|].
    eapply wp_mono; [apply IH; try done; simpl; lia|].
    intros _ s2 (Hok2 & HJ2 & Hkn & Hre). split_and!; try done. intros Hn. apply Hre. simpl. lia.
Qed.

(** ** Exit and wait *)

(** The invariant of the time after the exit of process [c]. *)
Definition after_exit s c code q (s' : K) : Prop :=
  keeps (<[c := core (with_exit PROCESS_STATE_ZOMBIE code q)]> (cores s)) (processes (world s)) s' /\
  dead (p_threads q) s' /\ within c (p_threads q) s'.

Lemma stable_after_exit s c code q : stable (after_exit s c code q).
Proof. apply stable_and; [apply stable_keeps|]. apply stable_and; [apply stable_dead|apply stable_within]. Qed.

Section after.
Context {s : K} {c code : Z} {q : process} {i' : intr} {ths' : gmap Z thread}.
Let s1 := set_time 1 (set_intr_s i' (set_threads ths' (put_p c (with_exit PROCESS_STATE_ZOMBIE code q) s))).
Hypothesis Hex : exitable s c q.
Hypothesis Hz : is_zombie_of (p_threads q) (threads s) ths'.

Lemma after_exit_start : after_exit s c code q s1.
Proof.
  split_and!.
  - split; [|done]. unfold cores. by rewrite <-fmap_insert.
  - intros t Ht. split.
    + intros th. change (threads s1) with ths'. rewrite Hz, decide_True by done. by destruct (threads s !! t); intros [= <-].
    + intros l Hl Hin. by destruct (ex_out _ _ _ Hex l t Hl Hin) as [_ ?].
  - intros p t. change (procs_of s1) with (<[c := with_exit PROCESS_STATE_ZOMBIE code q]> (procs_of s)).
    rewrite lookup_insert_eq. by intros [= <-].
Qed.

Lemma other_thread t : (t ∉ p_threads q) -> threads s1 !! t = threads s !! t.
Proof. intros Ht. change (threads s1) with ths'. by rewrite Hz, decide_False. Qed.

Lemma awaits_start w l :
  waiting s !! 4%nat = Some l -> w ∈ l -> waits_for s SCHED_EV_PEXIT (pid q) w -> p_threads q <> [] ->
  awaits w c (pid q) s1.
Proof.
  intros Hl Hw Hwf Hne. right. exists (with_exit PROCESS_STATE_ZOMBIE code q), l.
  destruct (ex_out _ _ _ Hex l w Hl Hw) as [_ Hwq]. split_and!; try done.
  - apply lookup_insert_eq.
  - unfold waits_for in *. by rewrite other_thread.
Qed.

Lemma idles_start : (idle s ∉ p_threads q) -> idles s -> idles s1.
Proof. intros Hi (th & Hth & Hs). exists th. change (idle s1) with (idle s). by rewrite (other_thread _ Hi). Qed.

End after.

Lemma cores_lookup s b k : cores s !! b = Some k -> exists p, procs_of s !! b = Some p /\ core p = k.
Proof. unfold cores. rewrite lookup_fmap. destruct (procs_of s !! b); [|done]. intros [= <-]. eauto. Qed.

Lemma after_exit_child s s' a c p q code :
  uncollected s a c p q -> after_exit s c code q s' ->
  exists p' q', uncollected s' a c p' q' /\ pid q' = pid q /\ exit_state q' = code /\ p_state q' = PROCESS_STATE_ZOMBIE.
Proof.
  intros (Hc & Hq & Hpar & Hp & Hch & Hne) ((HC & HL) & _ & _).
  destruct (cores_lookup s' c (core (with_exit PROCESS_STATE_ZOMBIE code q))) as (q' & Hq' & Hcq); [rewrite HC; apply lookup_insert_eq|].
  destruct (cores_lookup s' a (core p)) as (p' & Hp' & Hcp).
  { rewrite HC, lookup_insert_ne by done. unfold cores. by rewrite lookup_fmap, Hp. }
  unfold core in *. simpl in *. injection Hcq as E1 E2 E3 E4 E5. injection Hcp as F1 F2 F3 F4 F5.
  exists p', q'. unfold uncollected. rewrite HL, E2, F5. done.
Qed.

Lemma exit_then_wait_ok fuel s a c p q code :
  kernel_ok s -> exitable s c q -> uncollected s a c p q -> sched_lock s = false -> event_lock s = false -> queue_wf s ->
  (length (queue s) + nblocked s < fuel)%nat -> (idle s ∉ p_threads q) ->
  wp (let! _ := process_exit fuel c code in find_child fuel a (pid q)) s (fun r s' =>
    r = Waited (pid q, code) /\ (running s' ∉ p_threads q) /\ dead (p_threads q) s' /\
    (c ∉ processes (world s')) /\ kernel_ok s').
Proof.
  intros Hok Hex Hun Hsl Hel Hwf Hf Hid. apply wp_bind.
  eapply wp_mono; [apply (process_exit_ok _ (stable_after_exit s c code q) fuel s c q code); try done|].
  { intros i' ths' Hz. by apply after_exit_start. }
  intros _ s1 [[Hok1 HJ1] _ [Hwf1 _] [Hid1 _] Hnext Hfrom Hgone].
  destruct (after_exit_child s s1 a c p q code Hun HJ1) as (p' & q' & Hun' & Hpid & Hcode & Hz').
  rewrite <-Hpid. eapply wp_mono; [by eapply find_child_zombie|]. intros r s2 [-> ->].
  destruct HJ1 as (_ & Hdead & _). rewrite Hcode. split_and!; try done.
  - change (running s1 ∉ p_threads q). destruct Hnext as [->|[Hin Hne]]; [done|]. intros Ht.
    destruct Hwf1 as (_ & _ & _ & Hths). destruct (Hths _ Hin) as [th Hth].
    destruct (Hfrom _ Hin) as [Hq|(th' & Hth' & Hr)].
    + destruct (Hgone (running s1)) as [_ Hg]; [eauto|]. by destruct (Hg Ht Hq).
    + destruct (Hdead _ Ht) as [Hzz _]. specialize (Hzz th' Hth'). rewrite Hr in Hzz. done.
  - unfold collected. simpl. rewrite list_elem_of_filter. tauto.
  - by apply collected_ok.
Qed.

Lemma exit_wakes_ok fuel n s a c p q w l code :
  kernel_ok s -> exitable s c q -> uncollected s a c p q -> sched_lock s = false -> event_lock s = false -> queue_wf s ->
  (length (queue s) + nblocked s < fuel)%nat -> SCHEDULER_TIME <= Z.of_nat n ->
  idles s -> (idle s ∉ p_threads q) -> p_threads q <> [] -> (forall t, t ∈ p_threads q -> t ∈ queue s) ->
  waiting s !! 4%nat = Some l -> w ∈ l -> waits_for s SCHED_EV_PEXIT (pid q) w ->
  wp (let! _ := process_exit fuel c code in ticks fuel n) s (fun _ s' =>
    has_state THREAD_STATE_RUNNING s' w /\ w ∈ queue s' /\ kernel_ok s' /\
    (forall t, t ∈ p_threads q -> threads s' !! t = None) /\ (p_as q ∉ spaces (rest_of s')) /\
    exists p' q', uncollected s' a c p' q' /\ pid q' = pid q /\ exit_state q' = code).
Proof.
  intros Hok Hex Hun Hsl Hel Hwf Hf Hn His Hid Hne Hall Hl Hw Hwf1.
  pose proof (stable_and _ _ (stable_after_exit s c code q)
    (stable_and _ _ (stable_frees c (p_as q)) (stable_awaits w c (pid q)))) as HJ.
  pose proof (stable_and _ _ HJ stable_idles) as HJi.
  apply wp_bind. eapply wp_mono; [apply (process_exit_ok _ HJi fuel s c q code); try done|].
  { intros i' ths' Hz. split_and!; [by apply after_exit_start..| |by eapply awaits_start|by apply idles_start].
    intros p'. unfold procs_of. simpl. rewrite lookup_insert_eq. by intros [= <-]. }
  intros _ s1 [[Hok1 [HJ1 His1]] [Hsl1 Hel1] [Hwfq1 Hld1] [Hid1 Htm1] Hnext Hfrom Hgone].
  eapply wp_mono; [apply (ticks_ok _ HJ fuel n s1); try done|].
  { lia. }
  { destruct Hnext as [E|[Hin _]]; [|by apply Hwfq1]. destruct His1 as (th & Hth & _). rewrite Hid1, <-E in Hth. eauto. }
  { rewrite Htm1. done. }
  intros _ s2 (Hok2 & (Haft & Hfr & Haw) & Hkn & Hre). rewrite Htm1 in Hre. specialize (Hre Hn).
  destruct HJ1 as ((_ & Hdead1 & _) & _).
  assert (forall t, t ∈ p_threads q -> threads s2 !! t = None) as Hnone.
  { intros t Ht. apply eq_None_not_Some. intros Hs. destruct (Hre t Hs) as [Hs1 Hz1].
    destruct (Hgone t Hs1) as [_ Hg]. destruct (Hg Ht (Hall t Ht)) as [Hrun Hin]. destruct Hs1 as [th Hth].
    assert (running s1 = t) as Hr1.
    { apply Hz1; [done|]. exists th. split; [done|]. by apply (Hdead1 t Ht). }
    destruct Hnext as [E|[_ E]]; [|congruence]. rewrite E in Hr1. by rewrite Hr1 in Hid. }
  pose proof (after_exit_child s s2 a c p q code Hun Haft) as (p' & q' & Hun' & Hpid & Hcode & _).
  destruct Haft as (_ & _ & Hwith). pose proof Hun' as (_ & Hq' & _).
  assert (forall r, procs_of s2 !! c = Some r -> p_threads r = []) as Hempty.
  { intros r Hr. destruct (p_threads r) as [|t rest] eqn:E; [done|]. assert (t ∈ p_threads r) as Ht by (rewrite E; set_solver).
    destruct (po_threads _ _ _ (ko_procs s2 Hok2 c r Hr) t Ht) as (x & Hx & _).
    destruct (to_thread _ _ _ (ko_threads s2 Hok2 t x Hx)) as [th Hth]. by rewrite (Hnone t) in Hth by (by eapply Hwith). }
  destruct Haw as [[Hrun Hin]|(r & l' & Hr & _ & Hner & _)]; [|by rewrite (Hempty r Hr) in Hner].
  split_and!; try done; [|by exists p', q'].
  destruct (Hfr q' Hq') as [_ Hf']. by apply Hf', Hempty.
Qed.

End life.

End ProcessLife.
