(* ===== verification/ProcessFork.v ===== *)
(** Lemmas on the birth of processes: [process_fork] of Process.v against the
    invariant of ProcessInv.v. *)

From S2P Require Import Prelude Scheduler Interrupt Process ProcessInv ProcessLife.

Module ProcessFork.
Export ProcessLife.

(** [new_id] gives the least number that is free, or -1. *)
Lemma new_id_spec n : forall id used,
  (new_id n id used = -1 /\ forall k, id <= k < id + Z.of_nat n -> k ∈ used) \/
  (id <= new_id n id used < id + Z.of_nat n /\ (new_id n id used ∉ used) /\
   forall k, id <= k < new_id n id used -> k ∈ used).
Proof.
  induction n as [|n IH]; intros id used; cbn [new_id]; [left; split; [done|lia]|].
  case_decide as Hin; [|right; split_and!; [lia|lia|done|lia]].
  destruct (IH (id + 1) used) as [[-> Hall]|(Hr & Hnin & Hall)]; [left|right].
  - split; [done|]. intros k Hk. destruct (decide (k = id)) as [->|]; [done|]. apply Hall. lia.
  - split; [lia|]. split; [done|]. intros k Hk. destruct (decide (k = id)) as [->|]; [done|]. apply Hall. lia.
Qed.

Section fork.
Context {X : Type} `{!ProcOps X} `{!ProcEnv X}.
#[local] Abbreviation K := (sched (kernel X)).
Implicit Types (s : K) (a t : Z) (p : process) (x : tstruct).

(** The pids in use. *)
Definition pids s : list Z := omap (fun a => pid <$> procs_of s !! a) (processes (world s)).

Lemma ids_run s (at_ : Z -> M K process) : (forall a, at_ a s = proc_at a s) -> forall l,
  (forall a, a ∈ l -> is_Some (procs_of s !! a)) ->
  ids at_ pid l s = Done (omap (fun a => pid <$> procs_of s !! a) l, s).
Proof.
  intros Hat. induction l as [|a l IH]; intros Hl; [done|]. cbn [ids]. unfold bind. rewrite Hat. unfold proc_at.
  change (procs (world s)) with (procs_of s). destruct (Hl a) as [p Hp]; [set_solver|]. rewrite Hp, IH by set_solver.
  simpl. by rewrite Hp.
Qed.

Lemma process_new_pid_ok s (Q : Z -> K -> Prop) :
  kernel_ok s -> Q (new_id (Z.to_nat PROCESS_MAX_PID) 0 (pids s)) s -> wp process_new_pid s Q.
Proof.
  intros Hok HQ. unfold process_new_pid. apply wp_bind, wp_get, wp_bind. unfold wp at 1.
  rewrite (ids_run s proc_at); [|done|apply (ko_list s Hok)]. by apply wp_ret.
Qed.

Lemma page_of_place page : page_of (thread_place page) = page.
Proof. unfold page_of, thread_place. lia. Qed.

(** The thread [thread_duplicate] makes. *)
Definition user_regs (r : irq_regs) : thread_regs :=
  {| gs := r_gs r; fs := r_fs r; es := r_es r; ds := r_ds r; edi := r_edi r; esi := r_esi r; ebp := r_ebp r;
     kesp := 0; ebx := r_ebx r; edx := r_edx r; ecx := r_ecx r; eax := 0; eip := r_eip r; cs := r_cs r;
     eflags := r_eflags r; esp := r_user_esp r; ss := r_user_ss r |}.
Definition new_tstruct (pa new : Z) old r : tstruct :=
  {| t_parent := pa; tid := 0; uid := uid old; gid := gid old; kstack := new - 4; regs := user_regs r |}.

(** What [thread_duplicate] leaves when it succeeds: thread [new] of process [pa]. *)
Record duplicated s s' pa t new c x th : Prop := {
  du_page : exists page, new = thread_place page /\ (page ∉ pages (rest_of s)) /\ page <> 0 /\
    pages (rest_of s') = {[page]} ∪ pages (rest_of s);
  du_mem : mem_ok (rest_of s') /\ serves (rest_of s') 1 /\ blocks (rest_of s') = blocks (rest_of s) /\ spaces (rest_of s') = spaces (rest_of s);
  du_procs : procs_of s' = <[pa := with_p_threads 1 [new] c]> (procs_of s);
  du_list : processes (world s') = processes (world s);
  du_tstructs : tstructs_of s' = <[new := x]> (tstructs_of s);
  du_threads : exists ev, threads s' = <[t := set_event 0 0 th]>
    (<[new := {| state := THREAD_STATE_RUNNING; event := ev.1; data := ev.2 |}]> (threads s));
  du_intr : intr_s s' = set_thread_interrupts (<[t := no_flags]> (<[new := no_flags]> (thread_interrupts (intr_s s)))) (intr_s s);
  du_queue : queue s' = queue s ++ [new];
  du_same : waiting s' = waiting s /\ running s' = running s /\ idle s' = idle s /\ sched_lock s' = false /\
    event_lock s' = event_lock s;
}.

Hypothesis stale_zero : forall y, mem_ok y -> stale y = no_flags.

Lemma thread_duplicate_ok s pa t c old th r fl f0 :
  procs_of s !! pa = Some c -> p_threads c = [] -> thread_count c = 0 -> mem_ok (rest_of s) -> serves (rest_of s) 2 ->
  tstructs_of s !! t = Some old -> threads s !! t = Some th -> thread_interrupts (intr_s s) !! t = Some (f0 :: fl) ->
  r_eip r <= KERNEL_BEGIN -> r_cs r <> KERNEL_CS -> sched_lock s = false ->
  (forall y, is_Some (tstructs_of s !! y) -> page_of y ∈ pages (rest_of s)) ->
  (forall y, y ∈ queue s -> is_Some (tstructs_of s !! y)) ->
  wp (thread_duplicate pa t r) s (fun ok s' =>
    (ok = 0 /\ exists r', s' = put_x r' s /\ mem_ok r' /\ blocks r' = blocks (rest_of s) /\
       spaces r' = spaces (rest_of s) /\ pages r' = pages (rest_of s)) \/
    (ok = 1 /\ exists new, duplicated s s' pa t new c (new_tstruct pa new old r) th)).
Proof.
  intros Hc Hct Hcnt Hm Hsv Hold Hth Hfl Heip Hcs Hsl Hpages Hq. unfold thread_duplicate, thread_new_tid.
  apply wp_bind, wp_bind. eapply wp_proc_at; [done|]. rewrite Hct. apply wp_bind, wp_ret, wp_ret.
  change (new_id _ 0 []) with 0. simpl (0 <? 0). cbv iota.
  apply wp_bind, wp_on_rest. eapply wp_mono; [by apply map_kstack_ok|].
  intros page r1 (Hm1 & Hsv1 & Hsp1 & Hbl1 & Hpg1). destruct (Z.eqb_spec page 0) as [->|Hpage].
  { apply wp_ret. left. split; [done|]. exists r1. destruct Hpg1 as [[_ ?]|(_ & ? & _)]; done. }
  destruct Hpg1 as [[? _]|(Hfresh & _ & Hpg1)]; [done|]. set (new := thread_place page).
  assert (new <> t) as Hnt.
  { intros E. apply Hfresh. rewrite <-(page_of_place page). fold new. rewrite E. apply Hpages. eauto. }
  apply wp_bind. eapply (wp_tstruct_at t old); [done|]. apply wp_bind, wp_get.
  apply wp_bind. unfold write_thread. apply wp_bind, wp_modify, wp_bind, wp_modify.
  apply wp_zoom, wp_modify. apply wp_bind, wp_zoom. rewrite intr_set.
  eapply (wp_flag_at _ t 0 f0); [lia| |].
  { unfold flag. simpl. rewrite lookup_insert_ne by done. change (thread_interrupts (intrs (world s))) with (thread_interrupts (intr_s s)).
    by rewrite Hfl. }
  apply wp_bind, wp_zoom, wp_modify. rewrite intr_set, !set_intr_twice.
  set (ev := stale_event (rest (world (put_x r1 s)))).
  match goal with |- wp _ (set_intr_s ?i ?z) _ => set (i2 := i); set (s2 := z) end.
  assert (i2 = set_thread_interrupts (<[t := no_flags]> (<[new := no_flags]> (thread_interrupts (intr_s s)))) (intr_s s)) as Hi2.
  { unfold i2. change (rest (world (put_x r1 s))) with r1. by rewrite stale_zero. }
  assert (threads s2 !! t = Some th) as Hth2 by (unfold s2; simpl; by rewrite lookup_insert_ne).
  apply wp_bind. eapply wp_update_thread; [exact Hth2|]. unfold i386_thread_duplicate.
  destruct (Z.gtb_spec (r_eip r) KERNEL_BEGIN) as [?|_]; [lia|]. rewrite (proj2 (Z.eqb_neq _ _) Hcs).
  apply wp_bind, wp_ret, wp_bind. eapply wp_update_tstruct; [apply lookup_insert_eq|].
  apply wp_bind. eapply (wp_update_proc pa c); [exact Hc|]. rewrite Hct, Hcnt. change (u32 (0 + 1)) with 1.
  apply wp_bind. eapply wp_mono; [apply scheduler_add_thread_ok; [done|]|].
  { intros Hin. apply Hfresh. rewrite <-(page_of_place page). apply Hpages, Hq, Hin. }
  intros _ s3 (Hsl3 & Hel3 & Hq3 & Hth3 & Hr3 & Hid3 & Hwt3 & _ & Hw3 & _). apply wp_ret. right. split; [done|].
  exists new. unfold procs_of, tstructs_of, rest_of, intr_s. split; unfold procs_of, tstructs_of, rest_of, intr_s; rewrite ?Hw3, ?Hth3; try done.
  - by exists page.
  - simpl. by rewrite insert_insert_eq.
  - by exists ev.
Qed.
(** ** The new process *)

(** The process [process_fork] makes for [p], at address [a]. *)
Definition child_of a p (n space new : Z) : process :=
  {| pid := n; parent := a; p_state := PROCESS_STATE_ALIVE; exit_state := 0; ptype := ptype p; p_as := space;
     thread_count := 1; plock := false; p_threads := [new]; children := [] |}.

(** What [process_fork] leaves when it succeeds: process [child], with pid [n], a copy
    [space] of the address space and a thread [new] that starts where the parent
    is, with 0 in [eax]. *)
Record forked s s' a p (n child space new : Z) old r th : Prop := {
  fk_child : 0 < child /\ (child ∉ blocks (rest_of s));
  fk_space : (space ∉ blocks (rest_of s)) /\ (space ∉ spaces (rest_of s)) /\ space <> child /\ space <> kernel_as;
  fk_page : (page_of new ∉ pages (rest_of s)) /\ pages (rest_of s') = {[page_of new]} ∪ pages (rest_of s);
  fk_mem : mem_ok (rest_of s') /\ blocks (rest_of s') = {[space; child]} ∪ blocks (rest_of s) /\
    spaces (rest_of s') = {[space]} ∪ spaces (rest_of s);
  fk_procs : procs_of s' = <[a := with_children (child :: children p) p]>
    (<[child := child_of a p n space new]> (procs_of s));
  fk_list : processes (world s') = child :: processes (world s);
  fk_tstructs : tstructs_of s' = <[new := new_tstruct child new old r]> (tstructs_of s);
  fk_threads : exists ev, threads s' = <[running s := set_event 0 0 th]>
    (<[new := {| state := THREAD_STATE_RUNNING; event := ev.1; data := ev.2 |}]> (threads s));
  fk_intr : intr_s s' =
    set_thread_interrupts (<[running s := no_flags]> (<[new := no_flags]> (thread_interrupts (intr_s s)))) (intr_s s);
  fk_queue : queue s' = queue s ++ [new];
  fk_same : waiting s' = waiting s /\ running s' = running s /\ idle s' = idle s /\ sched_lock s' = false /\
    event_lock s' = event_lock s;
}.

Section forked.
Context {s s' : K} {a n child space new : Z} {p : process} {old : tstruct} {r : irq_regs} {th : thread}.
Hypothesis Hok : kernel_ok s.
Hypothesis Hp : procs_of s !! a = Some p.
Hypothesis Hth : threads s !! running s = Some th.
Hypothesis Hrun : state th = THREAD_STATE_RUNNING.
Hypothesis Hn : 0 <= n.
Hypothesis Hfresh : n ∉ pids s.
Hypothesis Hquietp : thread_interrupts (intr_s s) !! running s = Some no_flags.
Hypothesis Hf : forked s s' a p n child space new old r th.

Lemma forked_new_proc : procs_of s !! child = None /\ child <> a.
Proof.
  destruct (fk_child _ _ _ _ _ _ _ _ _ _ _ Hf) as [_ Hc]. assert (procs_of s !! child = None) as Hnone.
  { destruct (procs_of s !! child) as [q|] eqn:E; [|done]. destruct Hc. by eapply po_block, (ko_procs s Hok). }
  split; [done|]. intros ->. by rewrite Hp in Hnone.
Qed.

Lemma forked_new_thread : tstructs_of s !! new = None /\ threads s !! new = None /\ new <> running s.
Proof.
  destruct (fk_page _ _ _ _ _ _ _ _ _ _ _ Hf) as [Hc _]. assert (tstructs_of s !! new = None) as Hnone.
  { destruct (tstructs_of s !! new) as [x|] eqn:E; [|done]. destruct Hc. by eapply to_page, (ko_threads s Hok). }
  assert (threads s !! new = None) as Hnone'.
  { destruct (threads s !! new) as [y|] eqn:E; [|done]. destruct (ko_known s Hok new) as [x Hx]; [eauto|]. by rewrite Hx in Hnone. }
  split_and!; try done. intros E. by rewrite E, Hth in Hnone'.
Qed.

(** The processes after the fork. *)
Lemma forked_proc b q : procs_of s' !! b = Some q ->
  (b = child /\ q = child_of a p n space new) \/
  (b <> child /\ exists q0, procs_of s !! b = Some q0 /\ pid q = pid q0 /\ parent q = parent q0 /\
     p_state q = p_state q0 /\ p_as q = p_as q0 /\ thread_count q = thread_count q0 /\ plock q = plock q0 /\
     p_threads q = p_threads q0).
Proof.
  destruct forked_new_proc as [_ Hne]. rewrite (fk_procs _ _ _ _ _ _ _ _ _ _ _ Hf). destruct (decide (b = a)) as [->|Hb].
  { rewrite lookup_insert_eq. intros [= <-]. right. split; [done|]. by exists p. }
  rewrite lookup_insert_ne by done. destruct (decide (b = child)) as [->|Hb'].
  { rewrite lookup_insert_eq. intros [= <-]. by left. }
  rewrite lookup_insert_ne by done. intros Hq. right. split; [done|]. by exists q.
Qed.

Lemma forked_some b q : procs_of s !! b = Some q -> exists q', procs_of s' !! b = Some q' /\
  p_threads q' = p_threads q /\ p_state q' = p_state q.
Proof.
  intros Hq. destruct forked_new_proc as [Hnone _]. rewrite (fk_procs _ _ _ _ _ _ _ _ _ _ _ Hf).
  destruct (decide (b = a)) as [->|Hb].
  { rewrite lookup_insert_eq. eexists. split; [done|]. rewrite Hp in Hq. by injection Hq as ->. }
  exists q. rewrite !lookup_insert_ne; [done| |done]. intros ->. by rewrite Hnone in Hq.
Qed.

(** The threads after the fork. *)
Lemma forked_thread y :
  (y = new /\ has_state THREAD_STATE_RUNNING s' y) \/
  (y <> new /\ (threads s' !! y = threads s !! y \/
     (y = running s /\ threads s' !! y = Some (set_event 0 0 th)))).
Proof.
  destruct forked_new_thread as (_ & _ & Hne). destruct (fk_threads _ _ _ _ _ _ _ _ _ _ _ Hf) as [ev Hths].
  unfold has_state. rewrite Hths. destruct (decide (y = new)) as [->|Hy].
  - left. split; [done|]. rewrite lookup_insert_ne, lookup_insert_eq by done. eexists. split; [done|done].
  - right. split; [done|]. destruct (decide (y = running s)) as [->|Hy'].
    + right. by rewrite lookup_insert_eq.
    + left. by rewrite !lookup_insert_ne.
Qed.

Lemma forked_state y v : v <> THREAD_STATE_RUNNING -> has_state v s' y <-> has_state v s y.
Proof.
  intros Hv. unfold has_state. destruct forked_new_thread as (_ & Hnone & _).
  destruct (forked_thread y) as [[-> (th' & Hth' & Hs')]|(Hne & [->|[-> Hy]])]; [|done|].
  - rewrite Hth', Hnone. split; [|naive_solver]. intros (z & [= <-] & Hz). by rewrite Hs' in Hz.
  - rewrite Hy, Hth. split; intros (z & [= <-] & Hz); simpl in Hz; by rewrite Hrun in Hz.
Qed.

Lemma forked_intr : intr_s s' = set_thread_interrupts (<[new := no_flags]> (thread_interrupts (intr_s s))) (intr_s s).
Proof.
  destruct forked_new_thread as (_ & _ & Hne). rewrite (fk_intr _ _ _ _ _ _ _ _ _ _ _ Hf). f_equal.
  apply insert_id. by rewrite lookup_insert_ne, Hquietp.
Qed.

Lemma forked_procs_ok b q : procs_of s' !! b = Some q -> proc_ok s' b q.
Proof.
  intros Hq. destruct (fk_mem _ _ _ _ _ _ _ _ _ _ _ Hf) as (_ & Hbl & Hsp). destruct forked_new_thread as (Hnone & _).
  destruct (forked_proc b q Hq) as [[-> ->]|(Hne & q0 & Hq0 & Hpid & Hpar & Hst & Has & Hct & Hlk & Hts)].
  - split; try done; simpl.
    + apply NoDup_singleton.
    + intros t ->%list_elem_of_singleton. rewrite (fk_tstructs _ _ _ _ _ _ _ _ _ _ _ Hf), lookup_insert_eq. eauto.
    + rewrite Hbl. set_solver.
    + rewrite Hsp. set_solver.
  - pose proof (ko_procs s Hok b q0 Hq0) as [Hplk Hpnd Hpc Hps Hpt Hpb Hpsp Hpz].
    split; rewrite ?Hpid, ?Hpar, ?Hst, ?Has, ?Hct, ?Hlk, ?Hts, ?Hbl, ?Hsp; try done.
    + intros t Ht. destruct (Hpt t Ht) as (x & Hx & Hxp). exists x. split; [|done].
      rewrite (fk_tstructs _ _ _ _ _ _ _ _ _ _ _ Hf), lookup_insert_ne; [done|]. intros <-. by rewrite Hx in Hnone.
    + set_solver.
    + intros Hz. apply Hpsp in Hz. set_solver.
    + intros Hz Hnn. destruct (Hpz Hz Hnn) as (? & ? & ? & q1 & Hq1). split_and!; [done|done|set_solver|].
      destruct (forked_some _ _ Hq1) as (q2 & ? & _). eauto.
Qed.

Lemma forked_flags u t : registered (intr_s s') t u -> registered (intr_s s) t u.
Proof.
  rewrite forked_intr. intros (v & Hv & Hr). exists v. split; [|done]. revert Hv. unfold flag. simpl.
  destruct (decide (t = new)) as [->|Hne]; [|by rewrite lookup_insert_ne].
  rewrite lookup_insert_eq. simpl. intros [-> _]%lookup_replicate_1. done.
Qed.

Lemma forked_threads_ok t x : tstructs_of s' !! t = Some x -> thread_ok s' t x.
Proof.
  destruct (fk_page _ _ _ _ _ _ _ _ _ _ _ Hf) as [_ Hpages]. destruct forked_new_proc as [_ Hca].
  rewrite (fk_tstructs _ _ _ _ _ _ _ _ _ _ _ Hf). destruct (decide (t = new)) as [->|Hne].
  - rewrite lookup_insert_eq. intros [= <-]. split; try done.
    + exists (child_of a p n space new). change (t_parent _) with child. rewrite (fk_procs _ _ _ _ _ _ _ _ _ _ _ Hf).
      rewrite lookup_insert_ne, lookup_insert_eq by done. split; [done|]. simpl. set_solver.
    + destruct (forked_thread new) as [[_ (y & Hy & _)]|[? _]]; [eauto|done].
    + rewrite forked_intr. simpl. rewrite lookup_insert_eq. eauto.
    + rewrite Hpages. set_solver.
    + intros Hz. destruct (forked_new_thread) as (_ & Hnone & _).
      apply forked_state in Hz as (y & Hy & _); [|done]. by rewrite Hnone in Hy.
  - rewrite lookup_insert_ne by done. intros Hx. destruct (ko_threads s Hok t x Hx) as [(q & Hq & Htq) [y Hy] Hfl Hks Hpg Hzo].
    split; try done.
    + destruct (forked_some _ _ Hq) as (q' & Hq' & Ht' & _). exists q'. by rewrite Ht'.
    + destruct (forked_thread t) as [[? _]|(_ & [->|[_ ->]])]; [done|eauto..].
    + rewrite forked_intr. simpl. by rewrite lookup_insert_ne.
    + rewrite Hpages. set_solver.
    + intros Hz. apply forked_state in Hz; [|done]. destruct (Hzo Hz) as [Hzp Hquiet]. split.
      * intros q' Hq'. destruct (forked_some _ _ Hq) as (q2 & Hq2 & _ & Hst). rewrite Hq' in Hq2. injection Hq2 as <-.
        rewrite Hst. by apply Hzp.
      * intros u Hu Hr. by apply (Hquiet u Hu), forked_flags.
Qed.

Lemma forked_waiters_ok : waiters_ok s'.
Proof.
  destruct (ko_waiters s Hok) as [(l & H4 & H5 & Hnd & Hid & Hall)].
  destruct (fk_same _ _ _ _ _ _ _ _ _ _ _ Hf) as (Hwt & _ & Hidl & _). destruct forked_new_thread as (_ & Hnone & _).
  split. exists l. rewrite Hwt, Hidl. split_and!; try done. intros t Ht. destruct (Hall t Ht) as (Hb & Hd & Hout).
  assert (threads s' !! t = threads s !! t) as Hsame.
  { destruct Hb as (y & Hy & Hb). destruct (forked_thread t) as [[-> _]|(_ & [?|[-> _]])]; [|done|].
    - by rewrite Hnone in Hy.
    - rewrite Hth in Hy. injection Hy as <-. rewrite Hrun in Hb. done. }
  split_and!; [by apply forked_state|by rewrite Hsame|].
  intros b q Hq Hz Hn' Hw. destruct (forked_proc b q Hq) as [[-> ->]|(_ & q0 & Hq0 & Hpid & _ & Hst & _ & _ & _ & Hts)]; [done|].
  rewrite (fk_queue _ _ _ _ _ _ _ _ _ _ _ Hf). intros [Hin| ->%list_elem_of_singleton]%elem_of_app.
  - apply (Hout b q0); try congruence. unfold waits_for in *. by rewrite <-Hsame, <-Hpid.
  - destruct Hb as (y & Hy & _). by rewrite Hnone in Hy.
Qed.

Lemma pids_in b q : b ∈ processes (world s) -> procs_of s !! b = Some q -> pid q ∈ pids s.
Proof. intros Hb Hq. apply list_elem_of_omap. exists b. by rewrite Hq. Qed.

Lemma forked_ok : kernel_ok s'.
Proof.
  pose proof Hok as [Hm Hi Hprocs Hths Hknown Hspaces Hapart [Hlnd Hlist] Hpid Hpids Hw].
  destruct (fk_mem _ _ _ _ _ _ _ _ _ _ _ Hf) as (Hm' & Hbl & Hsp). destruct (fk_child _ _ _ _ _ _ _ _ _ _ _ Hf) as [Hc0 Hcb].
  destruct (fk_space _ _ _ _ _ _ _ _ _ _ _ Hf) as (Hsb & Hss & Hsc & Hsk). destruct forked_new_proc as [Hnone Hca].
  destruct forked_new_thread as (Hnt & Hnt' & _).
  assert (forall b q, procs_of s !! b = Some q -> b <> space) as Hbs.
  { intros b q Hq ->. apply Hsb. by eapply po_block, Hprocs. }
  assert (forall b q, procs_of s !! b = Some q -> p_threads q <> [] -> p_as q <> space /\ p_as q <> child) as Hold.
  { intros b q Hq Hne. pose proof (po_space _ _ _ (Hprocs b q Hq) Hne) as Hin. split; intros E; rewrite E in Hin; [done|].
    destruct (spaces_blocks _ _ Hm Hin) as [Ek|?]; [|done]. rewrite Ek in *. apply (kernel_as_static _ Hm'). rewrite Hbl. set_solver. }
  split.
  - done.
  - rewrite forked_intr. apply new_thread_ok; [done|].
    destruct (thread_interrupts (intr_s s) !! new) eqn:E; [|done]. destruct (Hknown new) as [x Hx]; [eauto|]. by rewrite Hx in Hnt.
  - apply forked_procs_ok.
  - apply forked_threads_ok.
  - intros t. rewrite forked_intr, (fk_tstructs _ _ _ _ _ _ _ _ _ _ _ Hf). simpl.
    destruct (decide (t = new)) as [->|Hne]; [rewrite !lookup_insert_eq; eauto|]. rewrite !lookup_insert_ne by done.
    intros Ht. apply Hknown. destruct Ht as [Ht|Ht]; [left|by right].
    destruct (forked_thread t) as [[? _]|(_ & [<-|[-> _]])]; [done|done|eauto].
  - intros b c q q' Hb Hc Hnq Heq Hnq' Hk.
    destruct (forked_proc b q Hb) as [[-> ->]|(_ & q0 & Hq0 & _ & _ & _ & Has & _ & _ & Hts)],
      (forked_proc c q' Hc) as [[-> ->]|(_ & q1 & Hq1 & _ & _ & _ & Has' & _ & _ & Hts')]; [done|..].
    + destruct (Hold c q1 Hq1) as [E _]; [congruence|]. simpl in Heq. congruence.
    + destruct (Hold b q0 Hq0) as [E _]; [congruence|]. simpl in Heq. congruence.
    + apply (Hspaces b c q0 q1); congruence.
  - intros b c q Hb Hc Hnq. destruct (procs_of s' !! c) as [q'|] eqn:Eq; [|done].
    destruct (forked_proc b q Hb) as [[-> ->]|(_ & q0 & Hq0 & _ & _ & _ & Has & _ & _ & Hts)],
      (forked_proc c q' Eq) as [[-> ->]|(_ & q1 & Hq1 & _)]; simpl; [done|..].
    + intros E. by apply (Hbs c q1).
    + rewrite Has. apply (Hold b q0 Hq0). congruence.
    + rewrite Has. apply (Hapart b c q0 Hq0); [by rewrite Hq1|congruence].
  - rewrite (fk_list _ _ _ _ _ _ _ _ _ _ _ Hf). split.
    + constructor; [|done]. intros [q Hq]%Hlist. by rewrite Hnone in Hq.
    + intros b [->|[q Hq]%Hlist]%elem_of_cons; [|destruct (forked_some b q Hq) as (? & ? & _); eauto].
      rewrite (fk_procs _ _ _ _ _ _ _ _ _ _ _ Hf), lookup_insert_ne, lookup_insert_eq by done. eauto.
  - rewrite (fk_list _ _ _ _ _ _ _ _ _ _ _ Hf). intros b q Hbin Hb.
    destruct (forked_proc b q Hb) as [[-> ->]|(Hne & q0 & Hq0 & -> & _)]; [done|]. apply (Hpid b); [|done]. set_solver.
  - rewrite (fk_list _ _ _ _ _ _ _ _ _ _ _ Hf). intros b c q q' Hbin Hcin Hb Hc Heq.
    destruct (forked_proc b q Hb) as [[-> ->]|(Hne & q0 & Hq0 & Hp0 & _)],
      (forked_proc c q' Hc) as [[-> ->]|(Hne' & q1 & Hq1 & Hp1 & _)]; [done|..].
    + destruct Hfresh. simpl in Heq. rewrite Heq, Hp1. apply (pids_in c); [set_solver|done].
    + destruct Hfresh. simpl in Heq. rewrite <-Heq, Hp0. apply (pids_in b); [set_solver|done].
    + apply (Hpids b c q0 q1); [set_solver|set_solver|done|done|congruence].
  - apply forked_waiters_ok.
Qed.

Lemma forked_queue_wf : queue_wf s -> is_Some (threads s !! idle s) -> queue_wf s'.
Proof.
  intros (Hnd & H0 & Hid & Hths) [y Hy]. destruct forked_new_thread as (_ & Hnone & _).
  destruct (fk_same _ _ _ _ _ _ _ _ _ _ _ Hf) as (_ & _ & Hidl & _). destruct (fk_page _ _ _ _ _ _ _ _ _ _ _ Hf) as [_ Hpg].
  assert (new <> 0) as Hn0.
  { destruct (pages_aligned (rest_of s') (page_of new)) as [_ Hpos]; [by destruct (fk_mem _ _ _ _ _ _ _ _ _ _ _ Hf)|set_solver|].
    unfold page_of, sizeof_thread, PAGE_SIZE in Hpos. lia. }
  unfold queue_wf. rewrite (fk_queue _ _ _ _ _ _ _ _ _ _ _ Hf), Hidl. split_and!.
  - apply NoDup_app. split_and!; [done| |apply NoDup_singleton]. intros t Ht ->%list_elem_of_singleton.
    destruct (Hths new Ht) as [z Hz]. by rewrite Hnone in Hz.
  - set_solver.
  - rewrite elem_of_app, list_elem_of_singleton. intros [?|E]; [done|]. by rewrite E, Hnone in Hy.
  - intros t [Ht| ->%list_elem_of_singleton]%elem_of_app.
    + destruct (Hths t Ht) as [z Hz]. destruct (forked_thread t) as [[-> _]|(_ & [->|[_ ->]])]; [|eauto..]. by rewrite Hnone in Hz.
    + destruct (forked_thread new) as [[_ (z & Hz & _)]|[? _]]; [eauto|done].
Qed.

Lemma forked_blocked : nblocked s' = nblocked s.
Proof.
  apply Nat.le_antisymm; [pose proof (nblocked_woken s s' []) as E|pose proof (nblocked_woken s' s []) as E];
    rewrite Nat.add_0_r in E; (apply E; [apply NoDup_nil_2|intros t Ht; by apply not_elem_of_nil in Ht|intros t; by apply forked_state]).
Qed.

(** The child may end and be waited for. *)
Lemma forked_child :
  n <> 1 -> (forall l t, waiting s !! 4%nat = Some l -> t ∈ l -> t ∉ queue s) ->
  exitable s' child (child_of a p n space new) /\
  uncollected s' a child (with_children (child :: children p) p) (child_of a p n space new).
Proof.
  intros Hn1 Hout. destruct forked_new_proc as [Hnone Hca]. destruct forked_new_thread as (_ & Hnt & _).
  destruct (fk_space _ _ _ _ _ _ _ _ _ _ _ Hf) as (_ & _ & _ & Hsk). destruct (fk_mem _ _ _ _ _ _ _ _ _ _ _ Hf) as (_ & Hbl & _).
  destruct (fk_same _ _ _ _ _ _ _ _ _ _ _ Hf) as (Hwt & _).
  assert (procs_of s' !! child = Some (child_of a p n space new)) as Hc.
  { rewrite (fk_procs _ _ _ _ _ _ _ _ _ _ _ Hf), lookup_insert_ne by done. apply lookup_insert_eq. }
  assert (procs_of s' !! a = Some (with_children (child :: children p) p)) as Ha.
  { rewrite (fk_procs _ _ _ _ _ _ _ _ _ _ _ Hf). apply lookup_insert_eq. }
  split; [split|].
  - done.
  - done.
  - split; [done|]. simpl. rewrite Hbl. set_solver.
  - simpl. eauto.
  - intros l t Hl Ht. rewrite Hwt in Hl. rewrite (fk_queue _ _ _ _ _ _ _ _ _ _ _ Hf). simpl.
    assert (t <> new) as Hne.
    { intros ->. destruct (ko_waiters s Hok) as [(l0 & H4 & _ & _ & _ & Hall)]. rewrite Hl in H4. injection H4 as <-.
      destruct (Hall new Ht) as ((z & Hz & _) & _). by rewrite Hnt in Hz. }
    pose proof (Hout l t Hl Ht). set_solver.
  - split_and!; try done; [rewrite (fk_list _ _ _ _ _ _ _ _ _ _ _ Hf); set_solver|]. simpl. set_solver.
Qed.

End forked.

(** ** [process_fork] *)

(** The invariant does not mind more memory in use. *)
Lemma kernel_ok_mem s (r' : X) :
  kernel_ok s -> mem_ok r' -> pages r' = pages (rest_of s) -> spaces r' = spaces (rest_of s) ->
  blocks (rest_of s) ⊆ blocks r' -> kernel_ok (put_x r' s).
Proof.
  intros [Hm Hi Hp Ht Hk Hs Ha Hls Hpp Hpi [Hw]] Hm' Hpg Hsp Hbl. split; try done.
  - intros a p Hap. destruct (Hp a p Hap) as [H1 H2 H3 H4 H5 H6 H7 H8].
    split; try done; change (rest_of (put_x r' s)) with r'; rewrite ?Hsp; [set_solver|done|].
    intros Hz Hn. destruct (H8 Hz Hn) as (? & ? & ? & ?). split_and!; try done. set_solver.
  - intros t x Htx. destruct (Ht t x Htx) as [H1 H2 H3 H4 H5 H6].
    split; try done. change (rest_of (put_x r' s)) with r'. by rewrite Hpg.
Qed.

(** What [process_fork] leaves when it fails: at most the block of an address space is
    lost. *)
Definition unforked s (s' : K) : Prop := exists r' lost, s' = put_x r' s /\ mem_ok r' /\
  pages r' = pages (rest_of s) /\ spaces r' = spaces (rest_of s) /\ blocks r' = lost ∪ blocks (rest_of s) /\
  (size lost <= 1)%nat.

Lemma unforked_ok s s' : kernel_ok s -> unforked s s' -> kernel_ok s'.
Proof. intros Hok (r' & lost & -> & Hm & Hpg & Hsp & Hbl & _). apply kernel_ok_mem; try done. set_solver. Qed.

(** A new entry of the table of processes that is taken back. *)
Lemma free_proc_ok s r0 child c :
  procs_of s !! child = None -> mem_ok r0 -> child ∈ blocks r0 -> (child ∉ spaces r0) ->
  wp (free_proc child) (put_p child c (put_x r0 s)) (fun _ s' => exists r', s' = put_x r' s /\ mem_ok r' /\
    spaces r' = spaces r0 /\ pages r' = pages r0 /\ blocks r' = blocks r0 ∖ {[child]}).
Proof.
  intros Hnone Hm Hb Hs. unfold free_proc. apply wp_bind, wp_on_rest.
  eapply wp_mono; [by apply kfree_ok|]. intros _ r1 (Hm1 & Hsp1 & Hpg1 & Hbl1). apply wp_modify.
  exists r1. split_and!; try done. unfold put_p, put_x, upd_kernel, set_world. simpl. unfold set_rest, set_procs. simpl.
  rewrite delete_insert_eq, delete_id by done. by destruct s as [? ? ? ? ? ? ? ? ? [? ? ? ? ?]].
Qed.

Lemma put_px child c r0 s : put_x r0 (put_p child c s) = put_p child c (put_x r0 s).
Proof. done. Qed.
Lemma put_xx r0 r1 s : put_x r0 (put_x r1 s) = put_x r0 s.
Proof. done. Qed.

(** The end of [process_fork]. *)
Lemma fork_finish s s2 a p x th r n child space new r2 :
  let c := init_process n (ptype p) a (raw_process space) in
  kernel_ok s -> procs_of s !! a = Some p -> mem_ok r2 -> 
  0 < child -> (child ∉ blocks (rest_of s)) -> child <> a ->
  (space ∉ blocks (rest_of s)) -> (space ∉ spaces (rest_of s)) -> space <> child -> space <> kernel_as ->
  pages r2 = pages (rest_of s) -> blocks r2 = {[space; child]} ∪ blocks (rest_of s) ->
  spaces r2 = {[space]} ∪ spaces (rest_of s) ->
  duplicated (put_p child c (put_x r2 s)) s2 child (running s) new c (new_tstruct child new x r) th ->
  wp (on_rest (files_inherit child a) ;;;
      update_proc a (fun p => with_children (child :: children p) p) ;;;
      add_process child ;;;
      ret n) s2 (fun v s' => v = n /\ forked s s' a p n child space new x r th).
Proof.
  intros c Hok Hp Hm2 Hc0 Hcb Hca Hsb Hss Hsc Hsk Hpg2 Hbl2 Hsp2 Hd.
  destruct Hd as [(page & -> & Hpf & Hp0 & Hpg3) (Hm3 & Hsv3 & Hbl3 & Hsp3) Hpr3 Hls3 Hts3 Hth3 Hi3 Hq3 Hsm3].
  change (rest_of (put_p child c (put_x r2 s))) with r2 in *.
  assert (a ∈ blocks (rest_of s)) as Hab by by eapply po_block, (ko_procs s Hok).
  apply wp_bind, wp_on_rest. eapply wp_mono; [apply (files_inherit_ok _ _ _ 0); [done|rewrite Hbl3; set_solver..|done]|].
  intros _ r4 (Hm4 & Hsp4 & Hbl4 & Hpg4). apply wp_bind. eapply (wp_update_proc a p).
  { change (procs_of (put_x r4 s2)) with (procs_of s2). rewrite Hpr3, lookup_insert_ne by done.
    change (<[child := c]> (procs_of s) !! a = Some p). by rewrite lookup_insert_ne. }
  apply wp_bind, wp_modify, wp_ret. split; [done|]. 
  match goal with |- forked _ ?z _ _ _ _ _ _ _ _ _ => assert (rest_of z = r4) as Hr4 by done end.
  split; rewrite ?Hr4, ?page_of_place; try done.
  - by rewrite Hpg4, Hpg3, <-Hpg2.
  - by rewrite Hbl4, Hbl3, Hsp4, Hsp3.
  - unfold procs_of in *. simpl. rewrite Hpr3. simpl. by rewrite insert_insert_eq.
  - simpl. by rewrite Hls3.
Qed.

Lemma process_fork_ok s a p x th r :
  let n := new_id (Z.to_nat PROCESS_MAX_PID) 0 (pids s) in
  kernel_ok s -> procs_of s !! a = Some p -> p_as p ∈ spaces (rest_of s) ->
  sched_lock s = false -> queue_wf s -> 
  tstructs_of s !! running s = Some x -> threads s !! running s = Some th -> state th = THREAD_STATE_RUNNING ->
  is_Some (thread_interrupts (intr_s s) !! running s) ->
  r_eip r <= KERNEL_BEGIN -> r_cs r <> KERNEL_CS -> n <> 0 -> serves (rest_of s) 4 ->
  wp (process_fork a r) s (fun v s' =>
    (v = n /\ exists child space new, forked s s' a p n child space new x r th) \/
    ((v = - EAGAIN \/ v = - ENOMEM) /\ unforked s s')).
Proof.
  intros n Hok Hp Hsp Hsl Hwf Hx Hth Hrun [fls Hfl] Heip Hcs Hn Hsv. pose proof (ko_mem s Hok) as Hm.
  destruct (user_flag (intr_s s) (running s) fls 0) as (f0 & Hf0 & _); [apply (ko_intr s Hok)|done|done|].
  unfold flag in Hf0. rewrite Hfl in Hf0. destruct fls as [|f1 fls]; [done|]. clear f0 Hf0.
  unfold process_fork. apply wp_bind, process_new_pid_ok; [done|]. fold n. rewrite (proj2 (Z.eqb_neq n 0)) by lia.
  apply wp_bind, wp_on_rest. eapply wp_mono; [apply (kmalloc_ok _ _ 3); [done|by left|done]|]. intros child r1 (Hm1 & Hsv1 & Hsp1 & Hpg1 & Hbl1).
  destruct (Z.eqb_spec child 0) as [->|Hc0].
  { apply wp_ret. right. split; [by right|]. exists r1, ∅. destruct Hbl1 as [[_ Hbl1]|[? _]]; [|lia]. split_and!; try done.
    - rewrite Hbl1. set_solver.
    - rewrite size_empty; lia. }
  destruct Hbl1 as [[? _]|(Hcpos & Hcb & Hbl1)]; [lia|].
  assert (procs_of s !! child = None) as Hnone.
  { destruct (procs_of s !! child) as [q|] eqn:E; [|done]. destruct Hcb. by eapply po_block, (ko_procs s Hok). }
  assert (child ∉ spaces (rest_of s)) as Hcs1.
  { intros Hin. destruct (spaces_blocks _ _ Hm Hin) as [->|?]; [|done]. apply (kernel_as_static _ Hm1). rewrite Hbl1. set_solver. }
  apply wp_bind. eapply (wp_proc_at a p); [done|].
  apply wp_bind, wp_on_rest. change (rest_of (put_x r1 s)) with r1.
  eapply wp_mono; [apply (as_duplicate_ok _ _ 2); [done|by rewrite Hsp1|done]|].
  intros space r2 (Hm2 & Hsv2 & Hpg2 & Hcase). rewrite put_xx. apply wp_bind, wp_modify.
  match goal with |- wp _ ?z _ => change z with (put_p child (raw_process space) (put_x r2 s)) end.
  destruct (Z.eqb_spec space 0) as [->|Hs0].
  { destruct Hcase as [(_ & Hsp2 & Hbl2)|[? _]]; [|lia]. apply wp_bind.
    eapply wp_mono; [apply free_proc_ok; [done|done|set_solver|set_solver]|].
    intros _ s' (r3 & -> & Hm3 & Hsp3 & Hpg3 & Hbl3). apply wp_ret. right. split; [by left|].
    exists r3, ∅. split_and!; [done|done|congruence|congruence| |rewrite size_empty; lia]. rewrite Hbl3, Hbl2, Hbl1. set_solver. }
  destruct Hcase as [(? & _)|(Hspos & Hsb & Hss & Hsk & Hsp2 & Hbl2)]; [done|].
  apply wp_bind. eapply wp_update_proc; [apply lookup_insert_eq|]. rewrite put_p_twice.
  set (c := init_process n (ptype p) a (raw_process space)). set (s1 := put_p child c (put_x r2 s)).
  apply wp_bind. unfold thread_current. apply wp_bind, wp_get, wp_ret. change (running s1) with (running s).
  assert (procs_of s1 !! child = Some c) as Hc by apply lookup_insert_eq.
  assert (child <> a) as Hca by (intros ->; by rewrite Hp in Hnone).
  apply wp_bind. eapply wp_mono.
  { apply (thread_duplicate_ok s1 child (running s) c x th r fls f1); try done.
    - intros y [z Hz]. change (page_of y ∈ pages r2). rewrite Hpg2, Hpg1. by eapply to_page, (ko_threads s Hok).
    - intros y Hy. apply (ko_known s Hok). left. destruct Hwf as (_ & _ & _ & Hths). by apply Hths. }
  change (rest_of s1) with r2. intros ok s2 [(-> & r3 & -> & Hm3 & Hbl3 & Hsp3 & Hpg3)|(-> & new & Hdup)].
  - change (0 =? 0) with true. cbv iota. apply wp_bind, wp_on_rest. change (rest_of (put_x r3 s1)) with r3.
    eapply wp_mono; [apply as_destroy_ok; [done|rewrite Hsp3, Hsp2; set_solver|done]|].
    intros _ r4 (Hm4 & Hpg4 & Hbl4 & Hsp4). change (put_x r4 (put_x r3 s1)) with (put_p child c (put_x r4 s)).
    apply wp_bind. eapply wp_mono; [apply free_proc_ok; [done|done|set_solver|rewrite Hsp4, Hsp3, Hsp2; set_solver]|].
    intros _ s' (r5 & -> & Hm5 & Hsp5 & Hpg5 & Hbl5). apply wp_ret. right. split; [by right|].
    exists r5, {[space]}. split_and!; [done|done|congruence| | |by rewrite size_singleton].
    + rewrite Hsp5, Hsp4, Hsp3, Hsp2, Hsp1. rewrite Hsp1 in Hss. set_solver.
    + rewrite Hbl5, Hbl4, Hbl3, Hbl2, Hbl1. set_solver.
  - change (1 =? 0) with false. cbv iota. eapply wp_mono.
    { apply (fork_finish s s2 a p x th r n child space new r2); try done; rewrite ?Hpg2, ?Hsp2, ?Hbl2, ?Hsp1, ?Hbl1; try done; set_solver. }
    intros v s' [-> Hf]. left. split; [done|]. by exists child, space, new.
Qed.

End fork.

End ProcessFork.
