(* ===== verification/ProcessWait.v ===== *)
(** A fork, a wait and an exit as they follow one another in two processes: the system
    calls of kernel/core/syscall/process.c, and the turns of the scheduler in between. *)

From S2P Require Import Prelude Scheduler Interrupt Process ProcessInv ProcessLife ProcessFork.

Module ProcessWait.
Export ProcessFork.

(** ** syscall/process.c *)

Section calls.
Context {X : Type} `{!ProcOps X}.
#[local] Abbreviation K := (sched (kernel X)).

(** [thread_current()->parent] *)
Definition current_process : M K Z :=
  let! t := thread_current in
  let! x := tstruct_at t in
  ret (t_parent x).

Definition sys_exit (fuel : nat) (code : Z) : M K (option Z) :=
  let! a := current_process in process_exit fuel a code.
Definition sys_fork (r : irq_regs) : M K Z :=
  let! a := current_process in process_fork a r.
Definition sys_waitpid (fuel : nat) (n : Z) : M K waited :=
  let! a := current_process in process_waitpid fuel a n.

End calls.

(** ** Turns *)

Section turns.
Context {X : Type} `{!ProcOps X} `{!ProcEnv X}.
#[local] Abbreviation K := (sched (kernel X)).
Implicit Types (s : K) (a t : Z) (p : process) (x : tstruct).

(** All that is in the queue can run. *)
Definition ready s : Prop := forall t, t ∈ queue s -> has_state THREAD_STATE_RUNNING s t.

(** [s] with another thread on the processor. *)
Definition turned (n t : Z) (q : list Z) s : K := set_time n (set_running t (set_queue q s)).

Lemma ready_calm s : ready s -> calm s.
Proof. intros Hr t th Ht Hth Hz. destruct (Hr t Ht) as (th' & Hth' & Hs). rewrite Hth in Hth'. injection Hth' as <-. by rewrite Hs in Hz. Qed.

Lemma ready_keep s : ready s -> filter (fun t => keep s t) (queue s) = queue s.
Proof.
  intros Hr. apply filter_all. intros t Ht. destruct (Hr t Ht) as (th & Hth & Hs). unfold keep. by rewrite Hth, Hs.
Qed.

(** A tick within the time slice. *)
Lemma tick_counts fuel s :
  sched_lock s = false -> ready s -> queue_wf s -> running s ∈ queue s -> 1 < time s < 2 ^ 32 ->
  wp (scheduler_update fuel false false) s (fun _ s' => s' = set_time (time s - 1) s).
Proof.
  intros Hlk Hr (_ & _ & Hid & _) Hin Ht. destruct (Hr _ Hin) as (th & Hth & Hs). unfold scheduler_update.
  step. apply wp_lock; [done|]. step. step. step. step. simpl. rewrite u32_small by lia.
  rewrite (proj2 (Z.eqb_neq (time s - 1) 0)) by lia. step. step. eapply wp_thread; [exact Hth|]. step. rewrite Hs.
  change (negb (THREAD_STATE_RUNNING =? THREAD_STATE_RUNNING)) with false.
  rewrite (proj2 (Z.eqb_neq (running s) (idle s))) by (intros E; by rewrite E in Hin). cbn [orb andb].
  step. step. step. destruct s; simpl in *. by subst.
Qed.

(** The tick that ends it. *)
Lemma tick_turns fuel s t q :
  sched_lock s = false -> ready s -> queue_wf s -> queue s = t :: q -> time s = 1 -> (length (queue s) < fuel)%nat ->
  wp (scheduler_update fuel false false) s (fun _ s' => s' = turned SCHEDULER_TIME t (q ++ [t]) s).
Proof.
  intros Hlk Hr Hwf Hq Ht Hf. unfold scheduler_update. step. apply wp_lock; [done|]. step. step. step. step.
  change (time (set_lock true s)) with (time s). rewrite Ht. change (u32 (1 - 1)) with 0.
  change (time (set_time 0 (set_lock true s)) =? 0) with true. cbv iota. apply wp_ret, wp_bind.
  set (s1 := set_time 0 (set_lock true s)).
  assert (queue_wf s1 /\ calm s1) as [Hwf1 Hc1] by (split; [done|]; by apply ready_calm).
  unfold wp at 1. rewrite clean_calm by done.
  change (filter (fun t => keep s1 t) (queue s1)) with (filter (fun t => keep s t) (queue s)). rewrite (ready_keep s Hr).
  change (set_queue (queue s) s1) with (set_queue (queue s1) s1). replace (set_queue (queue s1) s1) with s1 by done.
  apply wp_bind. eapply wp_mono; [by apply scheduler_elect_ok|]. intros t' s3 [Hel Hs3].
  change (queue s1) with (queue s) in Hel. rewrite Hq in Hel. injection Hel as -> Hq3. rewrite Hq3 in Hs3. subst s3.
  step. step. change (running (set_queue (q ++ [t]) s1)) with (running s).
  destruct (Z.eqb_spec t (running s)) as [E|E]; cbn [negb].
  - step. step. step. step. unfold turned, s1. rewrite E. destruct s; simpl in *; by subst.
  - unfold scheduler_switch. repeat step. unfold turned, s1. destruct s; simpl in *; by subst.
Qed.

Lemma ticks_app fuel m n s (Q : unit -> K -> Prop) :
  wp (ticks fuel m) s (fun _ s' => wp (ticks fuel n) s' Q) -> wp (ticks fuel (m + n)) s Q.
Proof.
  revert s. induction m as [|m IH]; intros s Hm; [exact Hm|]. cbn [Nat.add ticks] in *.
  apply wp_bind_inv in Hm. apply wp_bind. eapply wp_mono; [exact Hm|]. intros r s' Hs'. by apply IH.
Qed.

(** The first of the queue runs when the time slice is over. *)
Lemma slice_turns fuel t q m : forall s,
  sched_lock s = false -> ready s -> queue_wf s -> running s ∈ queue s -> queue s = t :: q ->
  time s = Z.of_nat (S m) -> time s < 2 ^ 32 -> (length (queue s) < fuel)%nat ->
  wp (ticks fuel (S m)) s (fun _ s' => s' = turned SCHEDULER_TIME t (q ++ [t]) s).
Proof.
  induction m as [|m IH]; intros s Hlk Hr Hwf Hin Hq Ht Hb Hf; cbn [ticks]; apply wp_bind.
  - eapply wp_mono; [by apply tick_turns|]. intros _ s' ->. by apply wp_ret.
  - eapply wp_mono; [apply tick_counts; [done..|lia]|]. intros _ s' ->.
    eapply wp_mono; [apply IH; try done; simpl; lia|]. by intros _ s' ->.
Qed.

Lemma turned_ready n t q s : q ≡ₚ queue s -> ready s -> ready (turned n t q s).
Proof. intros Hq Hr y Hy. change (y ∈ q) in Hy. rewrite Hq in Hy. by apply Hr. Qed.

Lemma turned_wf n t q s : q ≡ₚ queue s -> queue_wf s -> queue_wf (turned n t q s).
Proof.
  intros Hq (H1 & H2 & H3 & H4). unfold queue_wf, turned. simpl. rewrite Hq. split_and!; try done.
  intros y. rewrite Hq. apply H4.
Qed.

(** Every thread of the queue has its turn. *)
Lemma turns_come fuel t j : forall s,
  sched_lock s = false -> ready s -> queue_wf s -> running s ∈ queue s -> queue s !! j = Some t ->
  1 <= time s < 2 ^ 32 -> (length (queue s) < fuel)%nat ->
  wp (ticks fuel (Z.to_nat (time s + Z.of_nat j * SCHEDULER_TIME))) s (fun _ s' =>
    exists q, q ≡ₚ queue s /\ s' = turned SCHEDULER_TIME t q s).
Proof.
  induction j as [|j IH]; intros s Hlk Hr Hwf Hin Hj Ht Hf; destruct (queue s) as [|t0 q0] eqn:Hq; try done.
  - injection Hj as ->. replace (Z.to_nat _) with (S (Z.to_nat (time s - 1))) by lia.
    eapply wp_mono; [apply (slice_turns fuel t q0); rewrite ?Hq; try done; lia|]. intros _ s' ->.
    exists (q0 ++ [t]). split; [solve_Permutation|done].
  - simpl in Hj. replace (Z.to_nat _) with (S (Z.to_nat (time s - 1)) + Z.to_nat (SCHEDULER_TIME + Z.of_nat j * SCHEDULER_TIME))%nat
      by (unfold SCHEDULER_TIME; lia).
    apply ticks_app. eapply wp_mono; [apply (slice_turns fuel t0 q0); rewrite ?Hq; try done; lia|]. intros _ s' ->.
    assert (q0 ++ [t0] ≡ₚ queue s) as Hp by (rewrite Hq; solve_Permutation).
    eapply wp_mono; [apply (IH (turned SCHEDULER_TIME t0 (q0 ++ [t0]) s)); try done|].
    + by apply turned_ready.
    + by apply turned_wf.
    + simpl. set_solver.
    + simpl. by apply lookup_app_l_Some.
    + simpl. rewrite length_app. simpl in *. lia.
    + intros _ s' (q & Hqp & ->). exists q. split; [|done]. rewrite Hqp. simpl. by rewrite Hp, Hq.
Qed.

End turns.

(** ** Fork, wait and exit *)

Section sequence.
Context {X : Type} `{!ProcOps X} `{!ProcEnv X}.
#[local] Abbreviation K := (sched (kernel X)).
Implicit Types (s : K) (a t : Z) (p : process) (x : tstruct).
Context (stale_zero : forall y : X, mem_ok y -> stale y = no_flags).

Lemma wp_current {A} s x (k : Z -> M K A) (Q : A -> K -> Prop) :
  tstructs_of s !! running s = Some x -> wp (k (t_parent x)) s Q -> wp (let! a := current_process in k a) s Q.
Proof.
  intros Hx HQ. unfold current_process, thread_current. apply wp_bind, wp_bind, wp_bind, wp_get, wp_ret, wp_bind.
  eapply wp_tstruct_at; [exact Hx|]. by apply wp_ret.
Qed.

(** A thread that blocks is one more blocked thread. *)
Lemma nblocked_insert s s' w th :
  threads s' = <[w := th]> (threads s) -> (nblocked s' <= S (nblocked s))%nat.
Proof.
  intros E. unfold nblocked. rewrite E, <-!size_dom.
  set (B := fun m : gmap Z thread => dom (filter (fun '(_, th) => state th = THREAD_STATE_BLOCKED) m)).
  change (size (B (<[w := th]> (threads s))) <= S (size (B (threads s))))%nat.
  transitivity (size ({[w]} ∪ B (threads s))).
  - apply subseteq_size. intros y. unfold B. rewrite elem_of_union, elem_of_singleton, !elem_of_dom. intros [z Hz].
    apply map_lookup_filter_Some in Hz as [Hz Hb]. destruct (decide (y = w)) as [->|Hne]; [by left|right].
    rewrite lookup_insert_ne in Hz by done. exists z. by apply map_lookup_filter_Some.
  - rewrite size_union_alt, size_singleton. apply le_n_S, subseteq_size. set_solver.
Qed.

(** What the fork leaves for the wait. *)
Lemma forked_ready s s' a p n child space new x r th :
  kernel_ok s -> threads s !! running s = Some th -> state th = THREAD_STATE_RUNNING ->
  forked s s' a p n child space new x r th -> ready s -> ready s'.
Proof.
  intros Hok Hth Hrun Hf Hr t. rewrite (fk_queue _ _ _ _ _ _ _ _ _ _ _ Hf). intros Ht.
  destruct (forked_thread (s := s) (s' := s') Hok Hth Hf t) as [[-> ?]|(Hne & [Heq|[-> Heq]])]; [done| |].
  - unfold has_state. rewrite Heq. apply Hr. set_solver.
  - exists (set_event 0 0 th). by rewrite Heq.
Qed.

(** The child, with the thread [new], has its turn and exits with [code]: then the
    parent's thread [w] is runnable again and gets the status of the child. *)
Definition child_turn fuel (k n : nat) (code c v new w : Z) s : Prop :=
  wp (ticks fuel k) s (fun _ s1 => running s1 = new /\
    wp (let! _ := sys_exit fuel code in ticks fuel n) s1 (fun _ s2 =>
      has_state THREAD_STATE_RUNNING s2 w /\ w ∈ queue s2 /\ threads s2 !! new = None /\ kernel_ok s2 /\
      wp (collect_child c v) s2 (fun res s3 => res = (v, code) /\ kernel_ok s3))).

Lemma child_turn_ok fuel n s a c p q w l new y code :
  kernel_ok s -> exitable s c q -> uncollected s a c p q -> p_threads q = [new] ->
  tstructs_of s !! new = Some y -> t_parent y = c ->
  sched_lock s = false -> event_lock s = false -> queue_wf s -> ready s -> idles s ->
  running s ∈ queue s -> new ∈ queue s -> time s = SCHEDULER_TIME ->
  waiting s !! 4%nat = Some l -> w ∈ l -> waits_for s SCHED_EV_PEXIT (pid q) w ->
  (length (queue s) + nblocked s < fuel)%nat -> SCHEDULER_TIME <= Z.of_nat n ->
  exists k, Z.of_nat k <= SCHEDULER_TIME * Z.of_nat (length (queue s)) /\
    child_turn fuel k n code c (pid q) new w s.
Proof.
  intros Hok Hex Hun Hts Hy Hyc Hsl Hel Hwf Hr His Hin Hnew Htm Hl Hw Hwt Hf Hn.
  apply list_elem_of_lookup_1 in Hnew as [j Hj]. pose proof (lookup_lt_Some _ _ _ Hj).
  exists (Z.to_nat (time s + Z.of_nat j * SCHEDULER_TIME)). split; [rewrite Htm; unfold SCHEDULER_TIME; lia|].
  unfold child_turn. eapply wp_mono; [apply turns_come; try done; [by rewrite Htm|lia]|].
  intros _ s3 (q3 & Hq3 & ->). split; [done|].
  set (s3 := turned SCHEDULER_TIME new q3 s).
  assert (queue s3 ≡ₚ queue s) as Hq by done.
  assert (idle s3 <> new) as Hid.
  { intros E. destruct Hwf as (_ & _ & Hni & _). change (idle s = new) in E. apply Hni. rewrite E. by eapply list_elem_of_lookup_2. }
  assert (kernel_ok s3) as Hok3.
  { eapply (kernel_ok_frame s); try done; intros z Hz; [by rewrite <-Hq|]. intros Hz'. by rewrite Hq. }
  assert (exitable s3 c q) as Hex3.
  { destruct Hex as [E1 E2 E3 E4 E5]. split; try done. intros l' t Hl' Ht. rewrite Hq. by apply (E5 l'). }
  apply wp_bind, (wp_current s3 y (fun a => process_exit fuel a code)); [done|]. rewrite Hyc.
  assert (wp (let! _ := process_exit fuel c code in ticks fuel n) s3 (fun _ s' =>
    has_state THREAD_STATE_RUNNING s' w /\ w ∈ queue s' /\ kernel_ok s' /\
    (forall t, t ∈ p_threads q -> threads s' !! t = None) /\ (p_as q ∉ spaces (rest_of s')) /\
    exists p' q', uncollected s' a c p' q' /\ pid q' = pid q /\ exit_state q' = code)) as Hexit%wp_bind_inv.
  { apply (exit_wakes_ok fuel n s3 a c p q w l code); try done.
    - by apply turned_wf.
    - by rewrite Hq.
    - rewrite Hts. by rewrite list_elem_of_singleton.
    - by rewrite Hts.
    - intros t. rewrite Hts, list_elem_of_singleton, Hq. intros ->. by eapply list_elem_of_lookup_2. }
  eapply wp_mono; [exact Hexit|]. intros o s4 Hs4. eapply wp_mono; [exact Hs4|].
  intros _ s5 (Hrun & Hwq & Hok5 & Hgone & _ & p' & q' & Hun' & Hpid & Hcode). split_and!; try done.
  { apply Hgone. rewrite Hts. by apply list_elem_of_singleton. }
  eapply wp_mono; [by apply (collect_child_ok s5 a c p' q')|]. intros res s6 [-> ->]. rewrite Hcode.
  split; [done|]. by apply collected_ok.
Qed.

(** The parent waits for its new child: it blocks, another thread runs, and the child
    has its turn. *)
Lemma wait_then_exit_ok fuel n s a c p q w th l new y z code :
  w = running s -> kernel_ok s -> exitable s c q -> uncollected s a c p q -> p_state q <> PROCESS_STATE_ZOMBIE ->
  p_threads q = [new] -> tstructs_of s !! new = Some y -> t_parent y = c ->
  tstructs_of s !! w = Some z -> t_parent z = a ->
  sched_lock s = false -> event_lock s = false -> queue_wf s -> ready s -> idles s ->
  threads s !! w = Some th -> w ∈ queue s -> new ∈ queue s -> new <> w ->
  waiting s !! 4%nat = Some l -> (length (queue s) + nblocked s + 1 < fuel)%nat -> SCHEDULER_TIME <= Z.of_nat n ->
  wp (sys_waitpid fuel (pid q)) s (fun r s1 =>
    (exists next, r = WaitSwitched (Some next) /\ running s1 = next) /\
    has_state THREAD_STATE_BLOCKED s1 w /\ (w ∉ queue s1) /\ new ∈ queue s1 /\
    exists k, Z.of_nat k <= SCHEDULER_TIME * Z.of_nat (length (queue s)) /\
      child_turn fuel k n code c (pid q) new w s1).
Proof.
  intros -> Hok Hex Hun Hz Hts Hy Hyc Hzz Hza Hsl Hel Hwf Hr His Hth Hwq Hnew Hne Hl Hf Hn.
  pose proof (Hr _ Hwq) as (th' & Hth' & Hrun). rewrite Hth in Hth'. injection Hth' as <-.
  assert (running s <> idle s) as Hwi by (destruct Hwf as (_ & _ & Hni & _); intros E; by rewrite E in Hwq).
  unfold sys_waitpid. apply (wp_current s z (fun a => process_waitpid fuel a (pid q))); [done|]. rewrite Hza.
  eapply wp_mono; [apply (find_child_waits fuel s a c p q th l); try done; [by apply ready_calm|lia]|].
  cbv zeta. rewrite (ready_keep s Hr). set (rest := filter (fun t => t <> running s) (queue s)).
  intros r s1 (-> & Hr1 & Hq1 & Hw1 & Hth1 & Hwt1 & Hid1 & Htm1 & Hsl1 & Hel1 & Hok1).
  set (e := elected false (running s) (idle s) rest) in *.
  assert (queue s1 ≡ₚ rest) as Hq by (rewrite Hq1; apply elected_perm).
  assert (new ∈ rest) as Hnr by (by apply list_elem_of_filter).
  assert (running s1 ∈ queue s1) as Hin1.
  { rewrite Hr1, Hq1. unfold e, elected. destruct rest as [|t0 rest0]; [by apply not_elem_of_nil in Hnr|]. simpl. set_solver. }
  assert (forall t, t ∈ queue s1 -> t ∈ queue s /\ t <> running s) as Hsub.
  { intros t. rewrite Hq. intros [? ?]%list_elem_of_filter. done. }
  assert (threads s1 !! running s = Some (blocked_for (pid q) th)) as Hb by (rewrite Hth1; apply lookup_insert_eq).
  assert (forall t, t <> running s -> threads s1 !! t = threads s !! t) as Hoth by (intros t Ht; by rewrite Hth1, lookup_insert_ne).
  assert (length (queue s1) <= length (queue s))%nat as Hlen by (rewrite Hq; apply length_filter).
  pose proof (nblocked_insert s s1 _ _ Hth1) as Hnb.
  split_and!; [by eexists|by eexists|intros Hin%Hsub; by destruct Hin|by rewrite Hq|].
  destruct (child_turn_ok fuel n s1 a c p q (running s) (running s :: l) new y code) as (k & Hk & Hturn); try done.
  - destruct Hex as [E1 E2 E3 E4 E5]. unfold procs_of, rest_of in *. split; unfold procs_of, rest_of; rewrite ?Hw1; try done.
    intros l' t. rewrite Hwt1, list_lookup_insert_eq by (by eapply lookup_lt_Some). intros [= <-] [->|Ht]%elem_of_cons.
    + split; [intros Hin%Hsub; by destruct Hin|]. rewrite Hts, list_elem_of_singleton. congruence.
    + destruct (E5 l t Hl Ht) as [E6 E7]. split; [|done]. intros Hin%Hsub. by destruct Hin.
  - unfold uncollected, procs_of. by rewrite Hw1.
  - unfold tstructs_of. by rewrite Hw1.
  - destruct Hwf as (H1 & H2 & H3 & H4). unfold queue_wf. rewrite Hid1, Hq. unfold rest. split_and!.
    + by apply NoDup_filter.
    + by intros [_ ?]%list_elem_of_filter.
    + by intros [_ ?]%list_elem_of_filter.
    + intros t [? ?]%Hsub. rewrite Hoth by done. by apply H4.
  - intros t [Hts' Hnt]%Hsub. unfold has_state. rewrite Hoth by done. by apply Hr.
  - unfold idles, has_state. by rewrite Hid1, Hoth by done.
  - by rewrite Hq.
  - rewrite Hwt1. apply list_lookup_insert_eq. by eapply lookup_lt_Some.
  - by apply list_elem_of_here.
  - unfold waits_for. rewrite Hb. simpl. by rewrite !Z.eqb_refl.
  - lia.
  - exists k. split; [|done]. unfold SCHEDULER_TIME in *. lia.
Qed.

Lemma fork_wait_exit_ok fuel n s p x th r l code :
  let w := running s in let v := new_id (Z.to_nat PROCESS_MAX_PID) 0 (pids s) in
  kernel_ok s -> tstructs_of s !! w = Some x -> procs_of s !! t_parent x = Some p -> p_as p ∈ spaces (rest_of s) ->
  sched_lock s = false -> event_lock s = false -> queue_wf s -> ready s -> w ∈ queue s -> idles s ->
  threads s !! w = Some th -> thread_interrupts (intr_s s) !! w = Some no_flags -> waiting s !! 4%nat = Some l ->
  r_eip r <= KERNEL_BEGIN -> r_cs r <> KERNEL_CS -> 0 < v -> v <> 1 -> serves (rest_of s) 4 ->
  (length (queue s) + nblocked s + 2 < fuel)%nat -> SCHEDULER_TIME <= Z.of_nat n ->
  wp (sys_fork r) s (fun res s1 =>
    ((res = - EAGAIN \/ res = - ENOMEM) /\ unforked s s1 /\ kernel_ok s1) \/
    (res = v /\ exists c new, w <> new /\ wp (sys_waitpid fuel v) s1 (fun wt s2 =>
      (exists next, wt = WaitSwitched (Some next) /\ running s2 = next) /\
      has_state THREAD_STATE_BLOCKED s2 w /\ (w ∉ queue s2) /\ new ∈ queue s2 /\
      exists k, Z.of_nat k <= SCHEDULER_TIME * Z.of_nat (S (length (queue s))) /\
        child_turn fuel k n code c v new w s2))).
Proof.
  intros w v Hok Hx Hp Hsp Hsl Hel Hwf Hr Hwq His Hth Hfl Hl Heip Hcs Hv Hv1 Hsv Hf Hn.
  pose proof (Hr _ Hwq) as (th' & Hth' & Hrun). rewrite Hth in Hth'. injection Hth' as <-.
  assert (is_Some (threads s !! idle s)) as Hidle by (destruct His as (z & Hz & _); eauto).
  assert (forall l t, waiting s !! 4%nat = Some l -> t ∈ l -> t ∉ queue s) as Hout.
  { intros l' t Hl' Ht Hin. destruct (ko_waiters s Hok) as [(l0 & H4 & _ & _ & _ & Hall)]. rewrite Hl' in H4. injection H4 as <-.
    destruct (Hall t Ht) as ((z & Hz & Hb) & _). destruct (Hr t Hin) as (z' & Hz' & Hb'). rewrite Hz in Hz'. injection Hz' as <-.
    by rewrite Hb in Hb'. }
  unfold sys_fork. apply (wp_current s x (fun a => process_fork a r)); [done|]. set (a := t_parent x) in *.
  eapply wp_mono; [apply (process_fork_ok stale_zero s a p x th r); try done; first [by eexists|fold v; lia]|]. fold v.
  intros res s1 [(-> & child & space & new & Hk)|(Hres & Hun)]; [right|left; split_and!; [done..|by eapply unforked_ok]].
  split; [done|].
  assert (v ∉ pids s) as Hfresh.
  { unfold v. destruct (new_id_spec (Z.to_nat PROCESS_MAX_PID) 0 (pids s)) as [[E _]|(_ & ? & _)]; [|done]. fold v in E. lia. }
  assert (0 <= v) as Hv0 by lia. set (q := child_of a p v space new) in *.
  assert (exitable s1 child q /\ uncollected s1 a child (with_children (child :: children p) p) q) as [Hex Hunc]
    by (eapply forked_child; done).
  assert (threads s !! new = None /\ new <> w) as [Hnth Hnw] by (eapply forked_new_thread; done).
  destruct (fk_same _ _ _ _ _ _ _ _ _ _ _ Hk) as (Hwt & Hr1 & Hid1 & Hsl1 & Hel1). fold w in Hr1.
  pose proof (fk_queue _ _ _ _ _ _ _ _ _ _ _ Hk) as Hq1.
  assert (threads s1 !! w = Some (set_event 0 0 th)) as Hthw.
  { destruct (fk_threads _ _ _ _ _ _ _ _ _ _ _ Hk) as [ev ->]. apply lookup_insert_eq. }
  assert (nblocked s1 = nblocked s) as Hnb by (eapply forked_blocked; done).
  exists child, new. split; [congruence|].
  change v with (pid q). eapply wp_mono; [eapply (wait_then_exit_ok fuel n s1 a child _ q w (set_event 0 0 th) l new _ x code)|].
  - done.
  - eapply forked_ok; done.
  - exact Hex.
  - exact Hunc.
  - done.
  - done.
  - rewrite (fk_tstructs _ _ _ _ _ _ _ _ _ _ _ Hk). apply lookup_insert_eq.
  - done.
  - rewrite (fk_tstructs _ _ _ _ _ _ _ _ _ _ _ Hk), lookup_insert_ne by done. exact Hx.
  - done.
  - done.
  - by rewrite Hel1.
  - eapply forked_queue_wf; done.
  - by eapply (forked_ready s).
  - unfold idles, has_state. rewrite Hid1. destruct His as (z & Hz & Hzs).
    destruct (forked_thread (s := s) (s' := s1) Hok Hth Hk (idle s)) as [[E _]|(_ & [->|[E _]])].
    + by rewrite E, Hnth in Hz.
    + by exists z.
    + destruct Hwf as (_ & _ & Hni & _). rewrite E in Hni. by destruct Hni.
  - exact Hthw.
  - rewrite Hq1. set_solver.
  - rewrite Hq1. set_solver.
  - done.
  - by rewrite Hwt.
  - rewrite Hq1, length_app, Hnb. simpl. lia.
  - done.
  - intros wt s2 (H1 & H2 & H3 & H4 & k & Hkb & Hturn). split_and!; try done. exists k. split; [|done].
    rewrite Hq1, length_app in Hkb. simpl in Hkb. by rewrite Nat.add_1_r in Hkb.
Qed.

End sequence.

End ProcessWait.
