(* ===== verification/ProcessSpec.v ===== *)
(** The properties of processes and threads, and an instance of the rest of the
    kernel that keeps what they rely on. *)

From S2P Require Import Prelude KHeap Kmalloc Scheduler Interrupt Process ProcessInv ProcessLife ProcessFork ProcessWait.

Module ProcessSpec.
Export ProcessWait.

(** ** Properties *)

Section props.
Context {X : Type} `{!ProcOps X} `{!ProcEnv X}.
#[local] Abbreviation K := (sched (kernel X)).
Implicit Types (s : K) (a t : Z) (p : process) (x : tstruct).

(** Destroying a zombie thread does what the scheduler relies on: the invariant of
    the kernel (every thread belongs to a process that counts it, has its stack page
    and its interrupt flags, address spaces are not shared, pids are distinct, who
    waits for a process is blocked) is kept, the locks are free again, the threads
    that waited for the process are appended to the queue as runnable ones, queued
    threads are left alone and the zombie is gone. *)
Theorem thread_destroy_keeps_kernel s t :
  kernel_ok s -> sched_lock s = false -> event_lock s = false -> queue_wf s -> (t ∉ queue s) ->
  has_state THREAD_STATE_ZOMBIE s t ->
  wp (thread_destroy t) s (fun _ s' => exists new,
    kernel_ok s' /\ sched_lock s' = false /\ event_lock s' = false /\
    running s' = running s /\ idle s' = idle s /\ queue s' = queue s ++ new /\ queue_wf s' /\
    (forall y, y ∈ queue s -> threads s' !! y = threads s !! y) /\
    (forall y, is_Some (threads s' !! y) -> y <> t /\ is_Some (threads s !! y)) /\
    Forall (has_state THREAD_STATE_RUNNING s') new /\
    (nblocked s' + length new <= nblocked s)%nat).
Proof. apply thread_destroy_reaps. Qed.

(** A thread that waits for a live child blocks: it is moved from the queue to the
    list of those that wait for the end of a process, under the pid of the child, the
    processor goes to the next runnable thread, nothing else changes and the
    invariant of the kernel is kept. *)
Theorem waitpid_blocks fuel s a c p q th l :
  let w := running s in
  kernel_ok s -> uncollected s a c p q -> p_state q <> PROCESS_STATE_ZOMBIE ->
  sched_lock s = false -> event_lock s = false -> queue_wf s -> calm s -> (length (queue s) < fuel)%nat ->
  threads s !! w = Some th -> state th = THREAD_STATE_RUNNING -> w <> idle s -> waiting s !! 4%nat = Some l ->
  wp (process_waitpid fuel a (pid q)) s (fun r s' =>
    let ready := elected false w (idle s) (filter (fun t => t <> w) (filter (fun t => keep s t) (queue s))) in
    r = WaitSwitched (Some ready.1) /\ running s' = ready.1 /\ queue s' = ready.2 /\
    world s' = world s /\ threads s' = <[w := blocked_for (pid q) th]> (threads s) /\
    waiting s' = <[4%nat := w :: l]> (waiting s) /\ idle s' = idle s /\ time s' = SCHEDULER_TIME /\
    sched_lock s' = false /\ event_lock s' = false /\ kernel_ok s').
Proof. apply find_child_waits. Qed.


End props.

Section fork_props.
Context {X : Type} `{!ProcOps X} `{!ProcEnv X}.
#[local] Abbreviation K := (sched (kernel X)).
Implicit Types (s : K) (a t : Z) (p : process) (x : tstruct).
Context (stale_zero : forall y : X, mem_ok y -> stale y = no_flags).


(** A fork that succeeds clears the interrupts of the parent instead of those of the
    new thread: an interrupt the parent had registered, and which is still the
    parent's in the table of interrupts, is not registered any more according to its
    flags, so it cannot be listened to and is not released when the thread exits. *)
Theorem process_fork_drops_interrupts s a p x th r u i :
  let n := new_id (Z.to_nat PROCESS_MAX_PID) 0 (pids s) in
  kernel_ok s -> procs_of s !! a = Some p -> p_as p ∈ spaces (rest_of s) ->
  sched_lock s = false -> queue_wf s ->
  tstructs_of s !! running s = Some x -> threads s !! running s = Some th -> state th = THREAD_STATE_RUNNING ->
  user_irq u -> registered (intr_s s) (running s) u -> irq_of (intr_s s) u = Some i -> irq_thread i = running s ->
  r_eip r <= KERNEL_BEGIN -> r_cs r <> KERNEL_CS -> n <> 0 -> serves (rest_of s) 4 ->
  wp (process_fork a r) s (fun v s' =>
    ((v = - EAGAIN \/ v = - ENOMEM) /\ unforked s s') \/
    (v = n /\ irq_of (intr_s s') u = Some i /\ ~ registered (intr_s s') (running s') u /\ ~ intr_ok (intr_s s'))).
Proof.
  intros n Hok Hp Hsp Hsl Hwf Hx Hth Hrun Hu Hreg Hi Hit Heip Hcs Hn Hsv.
  eapply wp_mono; [apply (process_fork_ok stale_zero s a p x th r); try done|].
  { destruct Hreg as (v & Hv & _). unfold flag in Hv. destruct (thread_interrupts _ !! _); [eauto|done]. }
  fold n. intros v s' [(-> & child & space & new & Hk)|(Hv & Hun)]; [right|by left]. split; [done|].
  destruct (fk_same _ _ _ _ _ _ _ _ _ _ _ Hk) as (_ & Hr' & _). rewrite Hr'.
  assert (irq_of (intr_s s') u = Some i) as Hi' by (by rewrite (fk_intr _ _ _ _ _ _ _ _ _ _ _ Hk)).
  assert (~ registered (intr_s s') (running s) u) as Hnr.
  { intros (v & Hv & Hvr). rewrite (fk_intr _ _ _ _ _ _ _ _ _ _ _ Hk) in Hv. unfold flag in Hv. simpl in Hv.
    rewrite lookup_insert_eq in Hv. simpl in Hv. apply lookup_replicate_1 in Hv as [-> _]. done. }
  split_and!; try done. intros [_ [_ _ Hown]].
  assert (running s <> 0) as Hr0 by by eapply (thread_addr s).
  destruct (ko_intr s Hok) as [_ [_ _ Hown0]]. pose proof (owners_entry _ _ _ Hown0 (running s) u Hu Hreg) as He.
  destruct (owners_target _ _ _ Hown u i Hu) as [[E _]|(_ & Hf & _)]; [|done|congruence|].
  - unfold user_entry_of, entry in *. by rewrite (fk_intr _ _ _ _ _ _ _ _ _ _ _ Hk).
  - apply Hnr. by rewrite <-Hit.
Qed.


End fork_props.

(** ** An instance of [ProcEnv]

    The heap is that of kernel/core/mem/kmalloc.c (Kmalloc.v), with its panic when it is
    full.  Pages are taken in order and never again, until there are none; as_duplicate
    fails then, and loses the structure it has allocated as as.c:297 does. *)
#[local] Existing Instance Kmalloc.kmalloc_kheap.

Record kmem := {
  m_heap : Kmalloc.heap;
  m_page : Z;
  m_blocks : gset Z;
  m_spaces : gset Z;
  m_pages : gset Z;
}.

Definition set_m_heap (h : Kmalloc.heap) (y : kmem) : kmem :=
  {| m_heap := h; m_page := m_page y; m_blocks := m_blocks y; m_spaces := m_spaces y; m_pages := m_pages y |}.
Definition set_m_sets (b sp : gset Z) (y : kmem) : kmem :=
  {| m_heap := m_heap y; m_page := m_page y; m_blocks := b; m_spaces := sp; m_pages := m_pages y |}.

Definition LAST_PAGE : Z := 2 ^ 32 - 2 * PAGE_SIZE.

Definition m_kmalloc (n : Z) : M kmem Z :=
  let! a := zoom m_heap set_m_heap (kmalloc n) in
  modify (fun y => set_m_sets ({[a]} ∪ m_blocks y) (m_spaces y) y) ;;;
  ret a.
Definition m_kfree (a : Z) : M kmem unit :=
  zoom m_heap set_m_heap (kfree a) ;;;
  modify (fun y => set_m_sets (m_blocks y ∖ {[a]}) (m_spaces y) y).
Definition m_duplicate : M kmem Z :=
  let! a := zoom m_heap set_m_heap (kmalloc Process.sizeof_as) in
  let! y := get in
  if m_page y <=? LAST_PAGE then
    put (set_m_sets ({[a]} ∪ m_blocks y) ({[a]} ∪ m_spaces y) y) ;;;
    ret a
  else ret 0.
Definition m_destroy (a : Z) : M kmem unit :=
  modify (fun y => set_m_sets (m_blocks y) (m_spaces y ∖ {[a]}) y).
Definition m_map : M kmem Z :=
  let! y := get in
  if m_page y <=? LAST_PAGE then
    put {| m_heap := m_heap y; m_page := m_page y + PAGE_SIZE; m_blocks := m_blocks y;
           m_spaces := m_spaces y; m_pages := {[m_page y]} ∪ m_pages y |} ;;;
    ret (m_page y)
  else ret 0.
Definition m_unmap (a : Z) : M kmem unit :=
  modify (fun y => {| m_heap := m_heap y; m_page := m_page y; m_blocks := m_blocks y;
                      m_spaces := m_spaces y; m_pages := m_pages y ∖ {[a - a mod PAGE_SIZE]} |}).

#[local] Instance kmem_ops : ProcOps kmem := {|
  mem_kmalloc := m_kmalloc;
  mem_kfree := m_kfree;
  kernel_as := 1;
  as_initialize := fun _ => ret 1;
  as_duplicate := fun _ => m_duplicate;
  as_destroy := m_destroy;
  map_kstack := m_map;
  unmap_kernel := m_unmap;
  stale := fun _ => no_flags;
  stale_event := fun _ => (0, 0);
  region_reserve_page := fun _ v => ret v;
  segment_alloc_page := ret 4096;
  as_map_user := fun _ v _ => ret v;
  as_unmap_at := fun _ _ => ret tt;
  setup_stack := fun _ _ _ _ _ => ret 32;
  load_elf := fun _ _ _ => ret 4096;
  files_clear := fun _ => ret tt;
  files_inherit := fun _ _ => ret tt;
  timer_oneshot := fun _ _ => ret tt;
|}.

Record kmem_ok (y : kmem) : Prop := {
  km_heap : heap_ok (m_heap y);
  km_page : 0 < m_page y /\ m_page y mod PAGE_SIZE = 0;
  km_blocks : forall a, a ∈ m_blocks y -> is_Some (live (m_heap y) !! a);
  km_spaces : forall v, v ∈ m_spaces y -> v = 1 \/ v ∈ m_blocks y;
  km_pages : forall v, v ∈ m_pages y -> v mod PAGE_SIZE = 0 /\ 0 < v <= LAST_PAGE /\ v < m_page y;
}.

(** What one of the operations that allocate takes at most. *)
Definition fork_room : Z := Process.sizeof_process + KMALLOC_OVERHEAD.
Definition kmem_serves (y : kmem) (k : nat) : Prop := room (m_heap y) (Z.of_nat k * fork_room).

Lemma live_high (h : Kmalloc.heap) a : heap_ok h -> is_Some (live h !! a) -> 1 < a.
Proof.
  intros (lo & hi & Hi) [n Hn]. destruct (Kmalloc.live_range lo hi h a n Hi Hn) as [Hlo _].
  destruct Hi as (_ & _ & _ & _ & Hpos & _). change Kmalloc.sizeof_blk with 20 in Hlo. lia.
Qed.

(** A block of the heap is a new one, and [serves] counts it. *)
Lemma m_alloc y n k (Q : Z -> kmem -> Prop) :
  kmem_ok y -> 0 <= n <= Process.sizeof_process -> kmem_serves y (S k) ->
  (forall a h, let y' := set_m_heap h y in kmem_ok y' -> kmem_serves y' k -> 1 < a -> (a ∉ m_blocks y) ->
     is_Some (live h !! a) -> Q a y') ->
  wp (zoom m_heap set_m_heap (kmalloc n)) y Q.
Proof.
  intros Hok Hn Hs HQ. pose proof Hok as [Hh Hp Hb Hsp Hpg].
  apply (wp_kmalloc_live m_heap set_m_heap y n (Z.of_nat k * fork_room)); [done|unfold Process.sizeof_process in *; lia| | |].
  - unfold fork_room, Process.sizeof_process, KMALLOC_OVERHEAD. lia.
  - eapply room_mono; [exact Hs|]. unfold fork_room. lia.
  - intros a h Hh' Ha Hnone (m & _ & Hl) Hr. assert (is_Some (live h !! a)) as Hla by (rewrite Hl, lookup_insert_eq; eauto).
    apply HQ; try done; [|by apply (live_high h)|intros Hin; destruct (Hb a Hin); congruence].
    split; try done. intros b Hin. change (is_Some (live h !! b)). rewrite Hl. apply lookup_insert_is_Some'. right. by apply Hb.
Qed.

Lemma m_less y k : kmem_serves y (S k) -> kmem_serves y k.
Proof. intros Hs. eapply room_mono; [exact Hs|]. unfold fork_room, Process.sizeof_process, KMALLOC_OVERHEAD. lia. Qed.

Lemma m_page_of v a : v mod PAGE_SIZE = 0 -> v <= a < v + PAGE_SIZE -> a - a mod PAGE_SIZE = v.
Proof.
  intros Hmod Ha. unfold PAGE_SIZE in *. pose proof (Z.div_mod a 4096). pose proof (Z.div_mod v 4096). rewrite Hmod in *.
  pose proof (Z.mod_pos_bound a 4096). assert (a / 4096 = v / 4096); nia.
Qed.

#[local] Instance kmem_env : ProcEnv kmem.
Proof.
  refine {| mem_ok := kmem_ok; blocks := m_blocks; spaces := m_spaces; pages := m_pages; serves := kmem_serves |}.
  - intros y v Hok Hv. destruct (km_pages y Hok v Hv) as (? & ? & _). done.
  - intros y a Hok Ha. pose proof (live_high _ a (km_heap y Hok) (km_blocks y Hok a Ha)). lia.
  - intros y n k Hok Hn Hs. apply wp_bind, (m_alloc y n k); [done| |done|].
    { unfold Process.sizeof_process, Process.sizeof_as in *. lia. }
    intros a h y' [Hh Hp Hb Hsp Hpg] Hs' Ha Hni Hla. apply wp_bind, wp_modify, wp_ret. split_and!; try done.
    + split; try done; simpl in *; [|set_solver]. intros b [->%elem_of_singleton|Hin]%elem_of_union; [done|by apply Hb].
    + right. split_and!; [lia|done|done].
  - intros y v Hok Hv. apply (km_spaces y Hok v Hv).
  - intros y Hok Hin. pose proof (live_high _ _ (km_heap y Hok) (km_blocks y Hok _ Hin)). simpl in *. lia.
  - intros y a [Hh Hp Hb Hsp Hpg] Ha Hns. apply wp_bind, (wp_kfree_live m_heap set_m_heap y a); [done|by apply Hb|].
    intros h Hh' Hl Hr. apply wp_modify. split_and!; try done. split; try done; simpl; [|set_solver].
    intros b [Hin Hne]%elem_of_difference. change (is_Some (live h !! b)). rewrite Hl, lookup_delete_ne by set_solver. by apply Hb.
  - intros y a k Hok Ha Hs. apply wp_bind, (m_alloc y Process.sizeof_as k); [done|done|done|].
    intros b h y' [Hh Hp Hb Hsp Hpg] Hs' Hb1 Hni Hla. apply wp_bind, wp_get.
    destruct (m_page y' <=? LAST_PAGE); [|apply wp_ret; split_and!; [done..|by left]].
    apply wp_bind, wp_put, wp_ret. split_and!; try done.
    + split; try done; simpl in *; [|set_solver]. intros c [->%elem_of_singleton|Hin]%elem_of_union; [done|by apply Hb].
    + right. split_and!; try done; simpl; [lia| |lia]. intros Hin. destruct (Hsp _ Hin); [lia|done].
  - intros y a [Hh Hp Hb Hsp Hpg] Ha Hk. split_and!; try done. split; try done; simpl; set_solver.
  - intros y k Hok Hs. pose proof Hok as [Hh [Hp Hpm] Hb Hsp Hpg]. unfold map_kstack, kmem_ops, m_map. apply wp_bind, wp_get.
    pose proof (m_less y k Hs) as Hs'.
    destruct (Z.leb_spec (m_page y) LAST_PAGE) as [Hle|Hle]; [|apply wp_ret; split_and!; try done; by left].
    assert (m_page y ∉ m_pages y) as Hnew by (intros Hin; destruct (Hpg _ Hin) as (_ & _ & ?); lia).
    apply wp_bind, wp_put, wp_ret. split_and!; try done; [|right; split_and!; [done|lia|done]].
    split; try done; simpl.
    + split; [unfold PAGE_SIZE; lia|]. by rewrite <-Z.add_mod_idemp_r, Z_mod_same_full, Z.add_0_r by done.
    + intros v [->%elem_of_singleton|Hv]%elem_of_union; [unfold PAGE_SIZE in *; lia|].
      destruct (Hpg v Hv) as (? & ? & ?). unfold PAGE_SIZE in *. lia.
  - intros y v a [Hh Hp Hb Hsp Hpg] Hv Ha. destruct (Hpg v Hv) as (Hmod & _). pose proof (m_page_of v a Hmod Ha) as E.
    split_and!; try done; simpl; [|by rewrite E]. split; try done; simpl. set_solver.
  - intros y c p k Hok _ _ _. done.
Defined.

Lemma kmem_stale (y : kmem) : mem_ok y -> stale y = no_flags.
Proof. done. Qed.

(** ** A kernel with a parent and a child

    The kernel process has the idle thread, init has none, the parent has one child,
    and each of the two one thread.  With [z] the child is a zombie, with [b] the
    parent waits for it. *)
Definition idle_t : Z := 8044.
Definition parent_t : Z := 12140.
Definition child_t : Z := 16236.

Definition kernel_p : Z := 65556.
Definition init_p : Z := 75556.
Definition parent_p : Z := 85556.
Definition child_p : Z := 95556.
Definition init_s : Z := 105556.
Definition parent_s : Z := 115556.
Definition child_s : Z := 125556.

(** Seven blocks and 100000 free bytes. *)
Definition sample_block (i : Z) : Kmalloc.kmalloc_blk :=
  {| Kmalloc.bk_addr := 65536 + i * 10000; Kmalloc.bk_ptr := 65556 + i * 10000; Kmalloc.bk_size := 9980;
     Kmalloc.bk_free := false |}.
Definition sample_kheap : Kmalloc.heap := {|
  Kmalloc.kmalloc_lock := false;
  Kmalloc.kmalloc_head := (sample_block <$> [0; 1; 2; 3; 4; 5; 6]) ++
    [ {| Kmalloc.bk_addr := 135536; Kmalloc.bk_ptr := 135556; Kmalloc.bk_size := 100000; Kmalloc.bk_free := true |} ];
  Kmalloc.mem := ∅ |}.

Lemma sample_kheap_ok : heap_ok sample_kheap.
Proof.
  exists 65536, 235556. split_and!; try done.
  repeat (constructor; [split; simpl; Kmalloc.blk_arith|]). constructor.
Qed.

Lemma sample_kheap_room b : b <= 100000 -> room sample_kheap b.
Proof.
  intros Hb. right. exists {| Kmalloc.bk_addr := 135536; Kmalloc.bk_ptr := 135556; Kmalloc.bk_size := 100000; Kmalloc.bk_free := true |}.
  split_and!; [apply elem_of_app; right; apply list_elem_of_here|done|]. change Kmalloc.sizeof_blk with 20. simpl. lia.
Qed.

Definition running_thread : thread := {| state := THREAD_STATE_RUNNING; event := 0; data := 0 |}.
Definition parent_thread (b : bool) : thread :=
  if b then {| state := THREAD_STATE_BLOCKED; event := SCHED_EV_PEXIT; data := 3 |} else running_thread.
Definition child_thread (z : bool) : thread :=
  if z then {| state := THREAD_STATE_ZOMBIE; event := 0; data := 0 |} else running_thread.

Definition sample_proc (n par ty space : Z) (ts ch : list Z) : process :=
  {| pid := n; parent := par; p_state := PROCESS_STATE_ALIVE; exit_state := 0; ptype := ty; p_as := space;
     thread_count := Z.of_nat (length ts); plock := false; p_threads := ts; children := ch |}.
Definition parent_proc : process := sample_proc 2 init_p PROCESS_TYPE_USER parent_s [parent_t] [child_p].
Definition child_proc (z : bool) : process :=
  let p := sample_proc 3 parent_p PROCESS_TYPE_USER child_s [child_t] [] in
  if z then with_exit PROCESS_STATE_ZOMBIE 0 p else p.
Definition sample_tstruct (par t : Z) : tstruct :=
  {| t_parent := par; tid := 0; uid := 0; gid := 0; kstack := t - 4; regs := no_regs |}.

Definition sample (i : intr) (z b : bool) (run : Z) (q : list Z) : sched (kernel kmem) := {|
  time := 5; running := run; idle := idle_t; thread_num := 2;
  sched_lock := false; queue := q; event_lock := false;
  waiting := [[]; []; []; []; if b then [parent_t] else []; []];
  threads := <[idle_t := running_thread]> (<[parent_t := parent_thread b]> (<[child_t := child_thread z]> ∅));
  world := {|
    intrs := i;
    processes := [child_p; parent_p; init_p; kernel_p];
    procs := <[kernel_p := sample_proc 0 0 PROCESS_TYPE_KERNEL 1 [idle_t] []]>
      (<[init_p := sample_proc 1 0 PROCESS_TYPE_USER init_s [] []]> (<[parent_p := parent_proc]> (<[child_p := child_proc z]> ∅)));
    tstructs := <[idle_t := sample_tstruct kernel_p idle_t]> (<[parent_t := sample_tstruct parent_p parent_t]>
      (<[child_t := sample_tstruct child_p child_t]> ∅));
    rest := {| m_heap := sample_kheap; m_page := 16384;
               m_blocks := {[kernel_p; init_p; parent_p; child_p; init_s; parent_s; child_s]};
               m_spaces := {[1; parent_s; child_s]}; m_pages := {[4096; 8192; 12288]} |} |} |}.

Ltac lookup_cases H :=
  repeat (apply lookup_insert_Some in H as [[<- <-]|[_ H]]); try by rewrite lookup_empty in H.

(** What a table of interrupts must be for the sample. *)
Record sample_intr (i : intr) : Prop := {
  si_ok : intr_ok i;
  si_flags : forall t, is_Some (thread_interrupts i !! t) <-> t = idle_t \/ t = parent_t \/ t = child_t;
  si_quiet : forall u, user_irq u -> ~ registered i child_t u;
}.

Lemma sample_mem_ok i z b run q : mem_ok (rest_of (sample i z b run q)).
Proof.
  split; simpl; [apply sample_kheap_ok|done|intros v Hv..]; set_unfold in Hv.
  - destruct Hv as [[[[[[->| ->]| ->]| ->]| ->]| ->]| ->]; by eexists.
  - destruct Hv as [[->| ->]| ->]; set_solver.
  - destruct Hv as [[->| ->]| ->]; (split; [done|]; unfold LAST_PAGE, PAGE_SIZE; lia).
Qed.

Lemma sample_procs_ok i z b run q a p :
  procs_of (sample i z b run q) !! a = Some p -> proc_ok (sample i z b run q) a p.
Proof.
  intros H. unfold procs_of in H. simpl in H. lookup_cases H.
  - split; try done; simpl; first [apply NoDup_singleton|intros t ->%list_elem_of_singleton; by eexists|set_solver].
  - split; try done; simpl; first [apply NoDup_nil_2|intros t Ht; by apply not_elem_of_nil in Ht|set_solver].
  - split; try done; simpl; first [apply NoDup_singleton|intros t ->%list_elem_of_singleton; by eexists|set_solver].
  - unfold child_proc. split; [by destruct z|destruct z; apply NoDup_singleton|by destruct z|by destruct z| | | |].
    + intros t Ht. assert (t = child_t) as -> by (destruct z; by apply list_elem_of_singleton in Ht).
      exists (sample_tstruct child_p child_t). done.
    + simpl. set_solver.
    + intros _. destruct z; simpl; set_solver.
    + intros _ _. destruct z; simpl; (split_and!; [done|done|set_solver|by exists parent_proc]).
Qed.

Lemma sample_threads_ok i z b run q t x :
  sample_intr i ->
  tstructs_of (sample i z b run q) !! t = Some x -> thread_ok (sample i z b run q) t x.
Proof.
  intros [Hi Hfl Hq] H. unfold tstructs_of in H. simpl in H. lookup_cases H.
  - split; try done.
    + exists (sample_proc 0 0 PROCESS_TYPE_KERNEL 1 [idle_t] []). split; [done|]. simpl. set_solver.
    + apply Hfl. auto.
    + intros (th & [= <-] & ?). done.
  - split; try done.
    + exists parent_proc. split; [done|]. simpl. set_solver.
    + apply Hfl. auto.
    + intros (th & [= <-] & Hz). by destruct b.
  - split; try done.
    + exists (child_proc z). split; [done|]. destruct z; simpl; set_solver.
    + apply Hfl. auto.
    + intros (th & [= <-] & Hz). split; [|exact Hq]. intros p [= <-]. by destruct z.
Qed.

Lemma sample_waiters_ok i z b run q : (b = true -> parent_t ∉ q) -> waiters_ok (sample i z b run q).
Proof.
  intros Hb. split. exists (if b then [parent_t] else []). split_and!; try done.
  - destruct b; [apply NoDup_singleton|apply NoDup_nil_2].
  - destruct b; simpl; set_solver.
  - destruct b; intros t Ht; [|by apply not_elem_of_nil in Ht]. apply list_elem_of_singleton in Ht as ->. split_and!.
    + by exists (parent_thread true).
    + by intros th [= <-].
    + intros. by apply Hb.
Qed.

Lemma kernel_sample_ok i z b run q :
  sample_intr i -> (b = true -> parent_t ∉ q) -> kernel_ok (sample i z b run q).
Proof.
  intros Hi Hb. pose proof Hi as [Hio Hfl Hq]. split.
  - apply sample_mem_ok.
  - done.
  - apply sample_procs_ok.
  - intros t x. by apply sample_threads_ok.
  - intros t [Ht|Ht%Hfl].
    + destruct Ht as [th Ht]. simpl in Ht. lookup_cases Ht; by eexists.
    + destruct Ht as [->|[->| ->]]; by eexists.
  - intros a a' p p' Ha Ha'. unfold procs_of in *. simpl in *. lookup_cases Ha; lookup_cases Ha'; try done; destruct z; done.
  - intros a a' p Ha Ha'. destruct (procs_of _ !! a') as [p'|] eqn:E; [|done]. unfold procs_of in *. simpl in *.
    lookup_cases Ha; lookup_cases E; try done; destruct z; done.
  - split; [by apply (bool_decide_unpack _)|]. intros a Ha. simpl in Ha. rewrite !elem_of_cons, elem_of_nil in Ha.
    destruct Ha as [->|[->|[->|[->|[]]]]]; by eexists.
  - intros a p _ Ha. unfold procs_of in Ha. simpl in Ha. lookup_cases Ha; try done. by destruct z.
  - intros a a' p p' _ _ Ha Ha'. unfold procs_of in *. simpl in *. lookup_cases Ha; lookup_cases Ha'; try done; destruct z; done.
  - by apply sample_waiters_ok.
Qed.

Definition sample_i : intr := add_flags idle_t (add_flags parent_t (add_flags child_t boot_intr)).

Lemma boot_flags : thread_interrupts boot_intr = ∅.
Proof. by vm_compute. Qed.

Lemma sample_i_flags t : is_Some (thread_interrupts sample_i !! t) <-> t = idle_t \/ t = parent_t \/ t = child_t.
Proof.
  change (thread_interrupts sample_i) with
    (<[idle_t := no_flags]> (<[parent_t := no_flags]> (<[child_t := no_flags]> (thread_interrupts boot_intr)))).
  rewrite boot_flags, !lookup_insert_is_Some', lookup_empty.
  unfold is_Some. naive_solver.
Qed.

Lemma sample_i_ok : sample_intr sample_i.
Proof.
  split.
  - destruct (wp_run_state _ _ _ (interrupt_initialize_ok 5000 blank_intr eq_refl eq_refl)) as (? & _ & Hok).
    apply new_thread_ok; [apply new_thread_ok; [apply new_thread_ok; [exact Hok|]|]|]; by vm_compute.
  - apply sample_i_flags.
  - intros u Hu (v & Hv & Hr). unfold flag in Hv.
    change (thread_interrupts sample_i !! child_t) with (Some no_flags) in Hv. simpl in Hv.
    apply lookup_replicate_1 in Hv as [-> _]. done.
Qed.

Definition run_sample := sample sample_i false false parent_t [child_t; parent_t].
Definition wait_sample := sample sample_i false true child_t [child_t].
Definition zombie_sample := sample sample_i true false parent_t [parent_t].

Lemma sample_wf i z b run q :
  bool_decide (NoDup q) -> bool_decide (0 ∉ q) -> bool_decide (idle_t ∉ q) ->
  bool_decide (Forall (fun t => t = parent_t \/ t = child_t) q) -> queue_wf (sample i z b run q).
Proof.
  intros H1%bool_decide_unpack H2%bool_decide_unpack H3%bool_decide_unpack H4%bool_decide_unpack. split_and!; try done.
  intros t Ht. rewrite Forall_forall in H4. destruct (H4 t Ht) as [-> | ->]; by eexists.
Qed.

Lemma run_sample_ok : kernel_ok run_sample.
Proof. by apply kernel_sample_ok; [apply sample_i_ok|]. Qed.

Lemma sample_uncollected i z b run q : uncollected (sample i z b run q) parent_p child_p parent_proc (child_proc z).
Proof. split_and!; try done; [set_solver|by destruct z|]. simpl. set_solver. Qed.

(** ** The theorems apply *)

Lemma thread_destroy_keeps_kernel_witness :
  wp (thread_destroy child_t) zombie_sample (fun _ s' => exists new,
    kernel_ok s' /\ sched_lock s' = false /\ event_lock s' = false /\
    running s' = parent_t /\ idle s' = idle_t /\ queue s' = [parent_t] ++ new /\ queue_wf s' /\
    (forall y, y ∈ [parent_t] -> threads s' !! y = threads zombie_sample !! y) /\
    (forall y, is_Some (threads s' !! y) -> y <> child_t /\ is_Some (threads zombie_sample !! y)) /\
    Forall (has_state THREAD_STATE_RUNNING s') new /\
    (nblocked s' + length new <= nblocked zombie_sample)%nat).
Proof.
  apply (thread_destroy_keeps_kernel zombie_sample child_t); try done.
  - by apply kernel_sample_ok; [apply sample_i_ok|].
  - by apply sample_wf.
  - simpl. by apply (bool_decide_unpack _).
  - by exists (child_thread true).
Defined.

Lemma waitpid_blocks_witness :
  wp (process_waitpid 5 parent_p 3) run_sample (fun r s' =>
    let ready := elected false parent_t idle_t
      (filter (fun t => t <> parent_t) (filter (fun t => keep run_sample t) [child_t; parent_t])) in
    r = WaitSwitched (Some ready.1) /\ running s' = ready.1 /\ queue s' = ready.2 /\
    world s' = world run_sample /\ threads s' = <[parent_t := blocked_for 3 running_thread]> (threads run_sample) /\
    waiting s' = <[4%nat := [parent_t]]> (waiting run_sample) /\ idle s' = idle_t /\ time s' = SCHEDULER_TIME /\
    sched_lock s' = false /\ event_lock s' = false /\ kernel_ok s').
Proof.
  apply (waitpid_blocks 5 run_sample parent_p child_p parent_proc (child_proc false) running_thread []); try done.
  - exact run_sample_ok.
  - apply sample_uncollected.
  - by apply sample_wf.
  - intros t th Ht Hth Hz. simpl in Hth. lookup_cases Hth; done.
  - simpl. lia.
Defined.


(** A trap from the program of the parent. *)
Definition user_trap : irq_regs :=
  {| r_at := 0; r_gs := 35; r_fs := 35; r_es := 35; r_ds := 35; r_edi := 1; r_esi := 2; r_ebp := 3; r_ebx := 4; r_edx := 5;
     r_ecx := 6; r_eax := 7; r_eip := 134512640; r_cs := 27; r_eflags := 514; r_user_esp := 268435456; r_user_ss := 35 |}.

Lemma sample_serves i z b run q : serves (rest_of (sample i z b run q)) 4.
Proof. apply sample_kheap_room. vm_compute. done. Qed.



(** The parent has registered interrupt 33. *)
Definition reg_i : intr := intr_s (run_state (sys_interrupt_register 33) run_sample).
Definition reg_sample := sample reg_i false false parent_t [child_t; parent_t].

Lemma reg_i_ok : sample_intr reg_i /\ claimed parent_t 0 sample_i reg_i.
Proof.
  assert (thread_interrupts (intr_s run_sample) !! parent_t = Some no_flags) as Hl by by vm_compute.
  destruct (wp_run_state _ _ _ (sys_interrupt_register_ok run_sample 33 no_flags (ko_intr _ run_sample_ok) ltac:(done) Hl))
    as (r & Hr & i' & Hs & Hok & Hcases).
  assert (intr_s (run_state (sys_interrupt_register 33) run_sample) = i') as Hi' by (rewrite Hs; apply intr_set).
  fold reg_i in Hi'. subst i'. split; [split|].
  - done.
  - intros t. rewrite <-sample_i_flags.
    assert (thread_interrupts reg_i = alter (fun l => <[0%nat := 1]> l) parent_t (thread_interrupts sample_i)) as -> by by vm_compute.
    apply lookup_alter_is_Some.
  - intros u Hu (v & Hv & Hreg). unfold flag in Hv.
    assert (thread_interrupts reg_i !! child_t = Some no_flags) as E by by vm_compute. rewrite E in Hv. simpl in Hv.
    apply lookup_replicate_1 in Hv as [-> _]. done.
  - assert (r = 0) as -> by (vm_compute in Hr; congruence).
    destruct Hcases as [(_ & H & _)|[(_ & _ & H & _)|[(_ & _ & _ & H & _)|(_ & _ & _ & H)]]]; done.
Qed.

Lemma process_fork_drops_interrupts_witness :
  wp (process_fork parent_p user_trap) reg_sample (fun v s' =>
    ((v = - EAGAIN \/ v = - ENOMEM) /\ unforked reg_sample s') \/
    (v = 4 /\ irq_of (intr_s s') 0 = Some {| irq_thread := parent_t; irq_lock := false; irq_threads := [] |} /\
     ~ registered (intr_s s') (running s') 0 /\ ~ intr_ok (intr_s s'))).
Proof.
  destruct reg_i_ok as [Hi (_ & Hreg & _ & Hirq)].
  apply (process_fork_drops_interrupts kmem_stale reg_sample parent_p parent_proc (sample_tstruct parent_p parent_t) running_thread
    user_trap 0 {| irq_thread := parent_t; irq_lock := false; irq_threads := [] |}); try done.
  - by apply kernel_sample_ok.
  - by apply sample_wf.
  - apply sample_serves.
Defined.

End ProcessSpec.
