(* ===== verification/Channel.v ===== *)
(** Channels, the kernel's message passing: kernel/core/fs/channel.c and the wait
    queues of include/kernel/proc/wait_queue.h.

    Channels and slaves are structures known by their address; a freed one is no
    longer in the map, so a later dereference is [Undef].  A channel and a slave
    both have an input queue with its wait queue and locks, an [endpoint].  A
    read on an empty queue blocks: the thread joins the wait queue and the call
    gives [None]; it starts over when the thread is woken.  [woken] lists the
    threads handed back to the scheduler, in order.  Names are C strings without
    their terminator; the contents of messages are lists of bytes. *)

From S2P Require Import Prelude KHeap KString Kmalloc.

Module Channel.

Definition CHANNEL_NAME_MAXL : Z := 20.
Definition sizeof_channel : Z := 76.
Definition sizeof_channel_slave : Z := 52.
Definition sizeof_channel_message : Z := 20.
Definition sizeof_msg_header : Z := 4.

Record channel_message := {
  msg_addr : Z;
  cid : Z;
  size : Z;
  off : Z;
  payload : list Z;
}.

(** [wait], [lock] and [input] of a channel or of a slave. *)
Record endpoint := {
  wait_lock : bool;
  wait_threads : list Z;
  lock : bool;
  input : list channel_message;
}.

Definition endpoint_init : endpoint :=
  {| wait_lock := false; wait_threads := []; lock := false; input := [] |}.

Record channel := {
  name : list Z;
  slave_id : Z;
  proc : Z;
  ep : endpoint;
  slaves : list Z;
}.

Record channel_slave := {
  id : Z;
  parent : Z;
  slave_proc : Z;
  slave_ep : endpoint;
}.

(** [MIN] *)
Definition MIN (x y : Z) : Z := if x <? y then x else y.

(** [!strncmp(a, b, CHANNEL_NAME_MAXL)] *)
Definition same_name (a b : list Z) : bool :=
  cmp_chars (take 20 (a ++ [0])) (take 20 (b ++ [0])) =? 0.

Inductive endpoint_ref := Master (a : Z) | Slave (a : Z).

(** An open file, as far as channels fill it in. *)
Inductive file_ops := channel_slave_f_ops | channel_master_f_ops | other_f_ops.
Record file := { inode : Z; private : Z; f_ops : file_ops; mount : Z }.

#[global] Instance file_ops_eq_dec : EqDecision file_ops.
Proof. solve_decision. Defined.

Section ops.
Context {H : Type} `{KHeap H}.

Record state := {
  clock : bool;
  channels : list Z;
  chans : gmap Z channel;
  slavs : gmap Z channel_slave;
  woken : list Z;
  kheap : H;
}.

Definition set_clock (b : bool) (s : state) : state :=
  {| clock := b; channels := channels s; chans := chans s; slavs := slavs s; woken := woken s; kheap := kheap s |}.
Definition set_channels (l : list Z) (s : state) : state :=
  {| clock := clock s; channels := l; chans := chans s; slavs := slavs s; woken := woken s; kheap := kheap s |}.
Definition set_chans (m : gmap Z channel) (s : state) : state :=
  {| clock := clock s; channels := channels s; chans := m; slavs := slavs s; woken := woken s; kheap := kheap s |}.
Definition set_slavs (m : gmap Z channel_slave) (s : state) : state :=
  {| clock := clock s; channels := channels s; chans := chans s; slavs := m; woken := woken s; kheap := kheap s |}.
Definition set_woken (l : list Z) (s : state) : state :=
  {| clock := clock s; channels := channels s; chans := chans s; slavs := slavs s; woken := l; kheap := kheap s |}.
Definition set_kheap (h : H) (s : state) : state :=
  {| clock := clock s; channels := channels s; chans := chans s; slavs := slavs s; woken := woken s; kheap := h |}.

Definition deref_channel (a : Z) : M state channel := fun s =>
  match chans s !! a with Some c => Done (c, s) | None => Undef end.
Definition deref_slave (a : Z) : M state channel_slave := fun s =>
  match slavs s !! a with Some c => Done (c, s) | None => Undef end.

Definition with_ep (c : channel) (e : endpoint) : channel :=
  {| name := name c; slave_id := slave_id c; proc := proc c; ep := e; slaves := slaves c |}.
Definition with_slave_ep (c : channel_slave) (e : endpoint) : channel_slave :=
  {| id := id c; parent := parent c; slave_proc := slave_proc c; slave_ep := e |}.

Definition endpoint_of (r : endpoint_ref) (s : state) : option endpoint :=
  match r with
  | Master a => ep <$> chans s !! a
  | Slave a => slave_ep <$> slavs s !! a
  end.
Definition set_endpoint (r : endpoint_ref) (e : endpoint) (s : state) : state :=
  match r with
  | Master a => set_chans (alter (fun c => with_ep c e) a (chans s)) s
  | Slave a => set_slavs (alter (fun c => with_slave_ep c e) a (slavs s)) s
  end.

(** Run code on an endpoint. *)
Definition on_endpoint {A} (r : endpoint_ref) (m : M endpoint A) : M state A := fun s =>
  match endpoint_of r s with
  | None => Undef
  | Some e => match m e with
              | Done (a, e') => Done (a, set_endpoint r e' s)
              | Panic w => Panic w
              | Spin => Spin
              | Undef => Undef
              end
  end.

Definition set_wait_lock (b : bool) (e : endpoint) : endpoint :=
  {| wait_lock := b; wait_threads := wait_threads e; lock := lock e; input := input e |}.
Definition set_wait_threads (l : list Z) (e : endpoint) : endpoint :=
  {| wait_lock := wait_lock e; wait_threads := l; lock := lock e; input := input e |}.
Definition set_lock (b : bool) (e : endpoint) : endpoint :=
  {| wait_lock := wait_lock e; wait_threads := wait_threads e; lock := b; input := input e |}.
Definition set_input (l : list channel_message) (e : endpoint) : endpoint :=
  {| wait_lock := wait_lock e; wait_threads := wait_threads e; lock := lock e; input := l |}.

(** [wait_queue_wait(queue, thread, !klist_empty(input))] up to the point where
    the thread leaves the processor: false means that it has joined the queue. *)
Definition wait_queue_wait (thread : Z) : M endpoint bool :=
  spinlock_lock wait_lock set_wait_lock ;;;
  let! e := get in
  match input e with
  | [] =>
      modify (set_wait_threads (wait_threads e ++ [thread])) ;;;
      spinlock_unlock set_wait_lock ;;;
      ret false
  | _ :: _ =>
      spinlock_unlock set_wait_lock ;;;
      ret true
  end.

(** The thread woken, if any, is given to the scheduler. *)
Definition wait_queue_notify : M endpoint (option Z) :=
  spinlock_lock wait_lock set_wait_lock ;;;
  let! e := get in
  match wait_threads e with
  | [] =>
      spinlock_unlock set_wait_lock ;;;
      ret None
  | t :: rest =>
      modify (set_wait_threads rest) ;;;
      spinlock_unlock set_wait_lock ;;;
      ret (Some t)
  end.

Definition take_message : M endpoint (option channel_message) :=
  spinlock_lock lock set_lock ;;;
  let! e := get in
  match input e with
  | [] =>
      spinlock_unlock set_lock ;;;
      ret None
  | m :: rest =>
      modify (set_input rest) ;;;
      spinlock_unlock set_lock ;;;
      ret (Some m)
  end.

Definition put_front (m : channel_message) : M endpoint unit :=
  spinlock_lock lock set_lock ;;;
  modify (fun e => set_input (m :: input e) e) ;;;
  spinlock_unlock set_lock.

Definition put_back (m : channel_message) : M endpoint unit :=
  spinlock_lock lock set_lock ;;;
  modify (fun e => set_input (input e ++ [m]) e) ;;;
  spinlock_unlock set_lock.

(** The number of bytes read and the bytes, or [None] when the thread blocks. *)
Definition channel_read_message (r : endpoint_ref) (thread rsize : Z)
    : M state (option (Z * list Z)) :=
  let! ready := on_endpoint r (wait_queue_wait thread) in
  if negb ready then ret None
  else
    let! message := on_endpoint r take_message in
    match message with
    | None => ret None
    | Some m =>
        let to_read := MIN (u32 (size m - off m)) rsize in
        let data := take (Z.to_nat to_read) (drop (Z.to_nat (off m)) (payload m)) in
        (if rsize <? size m then
           on_endpoint r (put_front {| msg_addr := msg_addr m; cid := cid m; size := size m;
                                       off := size m; payload := payload m |})
         else zoom kheap set_kheap (kfree (msg_addr m))) ;;;
        ret (Some (s32 to_read, data))
    end.

Definition channel_write_message (r : endpoint_ref) (c wsize : Z) (buf : list Z)
    : M state Z :=
  let! message := zoom kheap set_kheap (kmalloc (u32 (sizeof_channel_message + wsize))) in
  if message =? 0 then ret (- ENOMEM)
  else
    on_endpoint r (put_back {| msg_addr := message; cid := c; size := wsize; off := 0;
                               payload := take (Z.to_nat wsize) buf |}) ;;;
    let! t := on_endpoint r wait_queue_notify in
    match t with
    | None => ret tt
    | Some t => modify (fun s => set_woken (woken s ++ [t]) s)
    end ;;;
    ret (s32 wsize).

(** The slaves of a channel, in list order, looked up by id. *)
Fixpoint find_slave (l : list Z) (i : Z) : M state Z :=
  match l with
  | [] => ret 0
  | a :: l =>
      let! sl := deref_slave a in
      if id sl =? i then ret a else find_slave l i
  end.
Definition channel_get_slave (c i : Z) : M state Z :=
  let! ch := deref_channel c in find_slave (slaves ch) i.

Fixpoint find_channel (l : list Z) (nm : list Z) : M state Z :=
  match l with
  | [] => ret 0
  | a :: l =>
      let! ch := deref_channel a in
      if same_name (name ch) nm then ret a else find_channel l nm
  end.

(** It releases the lock its callers hold when it finds the channel. *)
Definition channel_from_name_nolock (nm : list Z) : M state Z :=
  let! s := get in
  let! c := find_channel (channels s) nm in
  (if c =? 0 then ret tt else spinlock_unlock set_clock) ;;;
  ret c.

Definition channel_from_name (nm : list Z) : M state Z :=
  spinlock_lock clock set_clock ;;;
  let! c := channel_from_name_nolock nm in
  spinlock_unlock set_clock ;;;
  ret c.

Definition channel_initialize : M state Z :=
  modify (set_channels []) ;;;
  spinlock_unlock set_clock ;;;
  ret 0.

(** The result, the file and the new channel; [p] is the process of the running
    thread. *)
Definition channel_create (nm : list Z) (f : file) (p : Z) : M state (Z * file * Z) :=
  let! new_channel := zoom kheap set_kheap (kmalloc sizeof_channel) in
  if new_channel =? 0 then ret (- ENOMEM, f, 0)
  else
    spinlock_lock clock set_clock ;;;
    let! s := get in
    let! tmp := find_channel (channels s) nm in
    if negb (tmp =? 0) then
      spinlock_unlock set_clock ;;;
      zoom kheap set_kheap (kfree new_channel) ;;;
      ret (- EEXIST, f, 0)
    else
      modify (fun s => set_channels (new_channel :: channels s) s) ;;;
      spinlock_unlock set_clock ;;;
      modify (fun s => set_chans (<[new_channel :=
        {| name := take (Z.to_nat (CHANNEL_NAME_MAXL - 1)) nm; slave_id := 0; proc := p;
           ep := endpoint_init; slaves := [] |}]> (chans s)) s) ;;;
      ret (0, {| inode := 0; private := new_channel; f_ops := channel_master_f_ops; mount := 0 |},
           new_channel).

Definition channel_master_read (c thread rsize : Z) : M state (option (Z * list Z)) :=
  channel_read_message (Master c) thread rsize.

(** [hdr->slave_id], the second 16-bit word of the buffer. *)
Definition header_slave_id (buf : list Z) : Z :=
  match buf with
  | _ :: _ :: b2 :: b3 :: _ => u8 b2 + 256 * u8 b3
  | _ => 0
  end.

Definition channel_master_write (c : Z) (buf : list Z) (wsize : Z) : M state Z :=
  if wsize <? sizeof_msg_header then ret (- EINVAL)
  else
    let! slave := channel_get_slave c (header_slave_id buf) in
    if slave =? 0 then ret (- EINVAL)
    else
      let! sl := deref_slave slave in
      channel_write_message (Slave slave) (id sl) (wsize - sizeof_msg_header) (drop 4 buf).

(** [klist_del] and [kfree] of every message of a queue. *)
Fixpoint free_messages (l : list channel_message) : M state unit :=
  match l with
  | [] => ret tt
  | m :: l => zoom kheap set_kheap (kfree (msg_addr m)) ;;; free_messages l
  end.

Definition channel_master_close (c : Z) : M state Z :=
  spinlock_lock clock set_clock ;;;
  modify (fun s => set_channels (filter (fun x => x <> c) (channels s)) s) ;;;
  spinlock_unlock set_clock ;;;
  let! ch := deref_channel c in
  free_messages (input (ep ch)) ;;;
  zoom kheap set_kheap (kfree c) ;;;
  modify (fun s => set_chans (delete c (chans s)) s) ;;;
  ret 0.

Definition channel_open (c : Z) (f : file) (p : Z) : M state (Z * file * Z) :=
  let! new_slave := zoom kheap set_kheap (kmalloc sizeof_channel_slave) in
  if new_slave =? 0 then ret (- ENOMEM, f, 0)
  else
    spinlock_lock clock set_clock ;;;
    let! ch := deref_channel c in
    modify (fun s => set_chans (<[c := {| name := name ch; slave_id := u16 (slave_id ch + 1);
                                          proc := proc ch; ep := ep ch;
                                          slaves := new_slave :: slaves ch |}]> (chans s)) s) ;;;
    spinlock_unlock set_clock ;;;
    modify (fun s => set_slavs (<[new_slave := {| id := slave_id ch; parent := c; slave_proc := p;
                                                  slave_ep := endpoint_init |}]> (slavs s)) s) ;;;
    ret (0, {| inode := inode f; private := new_slave; f_ops := channel_slave_f_ops; mount := 0 |},
         new_slave).

(** The slave allocated first is only released when the channel is not found. *)
Definition channel_open_from_name (nm : list Z) (f : file) (p : Z) : M state (Z * file * Z) :=
  let! new_slave := zoom kheap set_kheap (kmalloc sizeof_channel_slave) in
  if new_slave =? 0 then ret (- ENOMEM, f, 0)
  else
    spinlock_lock clock set_clock ;;;
    let! tmp := channel_from_name_nolock nm in
    if tmp =? 0 then
      spinlock_unlock set_clock ;;;
      zoom kheap set_kheap (kfree new_slave) ;;;
      ret (- ENOENT, f, 0)
    else
      spinlock_unlock set_clock ;;;
      channel_open tmp f p.

Definition channel_slave_read (sl thread rsize : Z) : M state (option (Z * list Z)) :=
  channel_read_message (Slave sl) thread rsize.

Definition channel_slave_write (sl : Z) (buf : list Z) (wsize : Z) : M state Z :=
  let! slave := deref_slave sl in
  let cparent := parent slave in
  channel_write_message (Master cparent) (id slave) wsize buf.

(** Unlinking the slave needs the list head, in the channel. *)
Definition channel_slave_close (sl : Z) : M state Z :=
  spinlock_lock clock set_clock ;;;
  let! slave := deref_slave sl in
  let! c := deref_channel (parent slave) in
  modify (fun s => set_chans
    (<[parent slave := {| name := name c; slave_id := slave_id c; proc := proc c; ep := ep c;
                          slaves := filter (fun x => x <> sl) (slaves c) |}]> (chans s)) s) ;;;
  spinlock_unlock set_clock ;;;
  free_messages (input (slave_ep slave)) ;;;
  zoom kheap set_kheap (kfree sl) ;;;
  modify (fun s => set_slavs (delete sl (slavs s)) s) ;;;
  ret 0.

(** *** The file operations *)

Definition file_slave_read (f : file) (thread rsize : Z) : M state (option (Z * list Z)) :=
  if decide (f_ops f = channel_slave_f_ops) then channel_slave_read (private f) thread rsize
  else ret (Some (- EBADF, [])).
Definition file_slave_write (f : file) (buf : list Z) (wsize : Z) : M state Z :=
  if decide (f_ops f = channel_slave_f_ops) then channel_slave_write (private f) buf wsize
  else ret (- EBADF).
Definition file_slave_close (f : file) : M state Z :=
  if decide (f_ops f = channel_slave_f_ops) then channel_slave_close (private f)
  else ret (- EBADF).
Definition file_master_read (f : file) (thread rsize : Z) : M state (option (Z * list Z)) :=
  if decide (f_ops f = channel_master_f_ops) then channel_master_read (private f) thread rsize
  else ret (Some (- EBADF, [])).
Definition file_master_write (f : file) (buf : list Z) (wsize : Z) : M state Z :=
  if decide (f_ops f = channel_master_f_ops) then channel_master_write (private f) buf wsize
  else ret (- EBADF).
Definition file_master_close (f : file) : M state Z :=
  if decide (f_ops f = channel_master_f_ops) then channel_master_close (private f)
  else ret (- EBADF).

(** ** Properties of the pieces *)

Implicit Types (s : state) (e : endpoint) (r : endpoint_ref).

Lemma wp_on_endpoint {A} r (m : M endpoint A) s e Q :
  endpoint_of r s = Some e ->
  wp m e (fun a e' => Q a (set_endpoint r e' s)) ->
  wp (on_endpoint r m) s Q.
Proof. unfold wp, on_endpoint. intros ->. by destruct (m e) as [[??]| | |]. Qed.

Lemma endpoint_of_set r e e0 s :
  endpoint_of r s = Some e0 -> endpoint_of r (set_endpoint r e s) = Some e.
Proof.
  destruct r as [a|a]; simpl; rewrite lookup_alter_eq.
  - by destruct (chans s !! a).
  - by destruct (slavs s !! a).
Qed.

Lemma endpoint_of_set_ne r r' e s :
  r <> r' -> endpoint_of r' (set_endpoint r e s) = endpoint_of r' s.
Proof.
  destruct r as [a|a], r' as [b|b]; simpl; intros Hne; try done;
    by rewrite lookup_alter_ne by congruence.
Qed.

Lemma set_endpoint_twice r e e' s :
  set_endpoint r e' (set_endpoint r e s) = set_endpoint r e' s.
Proof.
  destruct r as [a|a]; unfold set_endpoint, set_chans, set_slavs; simpl; f_equal;
    apply map_eq; intros i; destruct (decide (i = a)) as [->|];
    rewrite ?lookup_alter_eq, ?lookup_alter_ne by done; try done.
  - by destruct (chans s !! a).
  - by destruct (slavs s !! a).
Qed.

Lemma endpoint_of_set_kheap r h s : endpoint_of r (set_kheap h s) = endpoint_of r s.
Proof. by destruct r. Qed.
Lemma endpoint_of_set_woken r l s : endpoint_of r (set_woken l s) = endpoint_of r s.
Proof. by destruct r. Qed.
Lemma kheap_set_endpoint r e s : kheap (set_endpoint r e s) = kheap s.
Proof. by destruct r. Qed.
Lemma woken_set_endpoint r e s : woken (set_endpoint r e s) = woken s.
Proof. by destruct r. Qed.
Lemma parent_set_endpoint r e s sl :
  parent <$> slavs (set_endpoint r e s) !! sl = parent <$> slavs s !! sl.
Proof.
  destruct r as [a|a]; simpl; [done|]. destruct (decide (sl = a)) as [->|].
  - rewrite lookup_alter_eq. by destruct (slavs s !! a).
  - by rewrite lookup_alter_ne.
Qed.

(** Nobody is inside a critical section of the endpoint. *)
Definition unlocked e : Prop := wait_lock e = false /\ lock e = false.

(** The two lists of an endpoint whose locks are free. *)
Definition idle (ws : list Z) (inp : list channel_message) : endpoint :=
  {| wait_lock := false; wait_threads := ws; lock := false; input := inp |}.

Lemma unlocked_idle e : unlocked e -> e = idle (wait_threads e) (input e).
Proof. destruct e as [???]. by intros [[= ->] [= ->]]. Qed.

(** Writing appends the message and wakes the first waiting thread. *)
Lemma write_message_ok s r c wsize buf ws inp b :
  endpoint_of r s = Some (idle ws inp) -> heap_ok (kheap s) ->
  0 <= wsize < 2 ^ 31 -> b = 0 \/ KMALLOC_OVERHEAD < b ->
  room (kheap s) (sizeof_channel_message + wsize + KMALLOC_OVERHEAD + b) ->
  wp (channel_write_message r c wsize buf) s (fun n s' => n = wsize /\
    exists p h', 0 < p /\ heap_ok h' /\ room h' b /\
      live (kheap s) !! p = None /\ (exists n, live h' = <[p := n]> (live (kheap s))) /\
      s' = set_woken (woken s ++ take 1 ws) (set_kheap h' (set_endpoint r
             (idle (drop 1 ws) (inp ++ [{| msg_addr := p; cid := c; size := wsize; off := 0;
                                           payload := take (Z.to_nat wsize) buf |}])) s))).
Proof.
  intros He Hok Hsize Hb Hroom. unfold channel_write_message.
  assert (u32 (sizeof_channel_message + wsize) = sizeof_channel_message + wsize) as Hu
    by (apply u32_small; unfold sizeof_channel_message; lia).
  apply wp_bind, wp_zoom. rewrite Hu. eapply wp_mono.
  { apply (kmalloc_spec _ _ b); [done|unfold sizeof_channel_message; lia|done|done]. }
  intros p h' (Hok' & Hp & Hnone & (n & Hn & Hlive) & Hroom').
  destruct (Z.eqb_spec p 0) as [|_]; [lia|].
  step. eapply wp_on_endpoint; [by rewrite endpoint_of_set_kheap|].
  steps. eapply wp_on_endpoint.
  { eapply endpoint_of_set. by rewrite endpoint_of_set_kheap. }
  steps. rewrite s32_small by lia. destruct ws as [|t ws]; steps.
  all: split; [done|]; exists p, h'; do 4 (split; [first [done|lia]|]); split; [by eauto|].
  - rewrite app_nil_r, set_endpoint_twice. by destruct r.
  - rewrite set_endpoint_twice. by destruct r.
Qed.

(** A read on an empty queue blocks. *)
Lemma read_blocks s r t rsize ws :
  endpoint_of r s = Some (idle ws []) ->
  wp (channel_read_message r t rsize) s (fun o s' =>
    o = None /\ s' = set_endpoint r (idle (ws ++ [t]) []) s).
Proof.
  intros He. unfold channel_read_message. apply wp_bind.
  eapply wp_on_endpoint; [done|]. steps. done.
Qed.

(** A read large enough for the first message takes it and frees it. *)
Lemma read_message_ok s r t rsize ws m inp :
  endpoint_of r s = Some (idle ws (m :: inp)) -> heap_ok (kheap s) ->
  is_Some (live (kheap s) !! msg_addr m) -> 0 <= off m <= size m -> size m < 2 ^ 31 ->
  size m <= rsize ->
  wp (channel_read_message r t rsize) s (fun o s' =>
    o = Some (size m - off m,
              take (Z.to_nat (size m - off m)) (drop (Z.to_nat (off m)) (payload m))) /\
    exists h', heap_ok h' /\ live h' = delete (msg_addr m) (live (kheap s)) /\
      (forall b, room (kheap s) b -> room h' b) /\
      s' = set_kheap h' (set_endpoint r (idle ws inp) s)).
Proof.
  intros He Hok Hlive Hoff Hsize Hr. unfold channel_read_message. apply wp_bind.
  eapply wp_on_endpoint; [done|]. steps. eapply wp_on_endpoint; [by eapply endpoint_of_set|].
  steps. rewrite set_endpoint_twice. unfold MIN.
  rewrite u32_small by lia. assert ((rsize <? size m) = false) as -> by lia.
  apply wp_zoom. rewrite kheap_set_endpoint. eapply wp_mono; [by apply kfree_spec|].
  intros [] h' (Hok' & Hl' & Hroom). steps.
  destruct (Z.ltb_spec (size m - off m) rsize).
  all: rewrite s32_small by lia.
  - split; [done|]. by exists h'.
  - replace rsize with (size m - off m) by lia. split; [done|]. by exists h'.
Qed.

(** A shorter read takes what fits and leaves the message in front, marked as
    entirely read. *)
Lemma read_short s r t rsize ws m inp :
  endpoint_of r s = Some (idle ws (m :: inp)) ->
  0 <= off m <= size m -> size m < 2 ^ 31 -> 0 <= rsize < size m ->
  wp (channel_read_message r t rsize) s (fun o s' =>
    o = Some (Z.min (size m - off m) rsize,
              take (Z.to_nat (Z.min (size m - off m) rsize))
                   (drop (Z.to_nat (off m)) (payload m))) /\
    s' = set_endpoint r (idle ws ({| msg_addr := msg_addr m; cid := cid m; size := size m;
                                     off := size m; payload := payload m |} :: inp)) s).
Proof.
  intros He Hoff Hsize Hr. unfold channel_read_message. apply wp_bind.
  eapply wp_on_endpoint; [done|]. steps. eapply wp_on_endpoint; [by eapply endpoint_of_set|].
  steps. rewrite set_endpoint_twice.
  assert (MIN (u32 (size m - off m)) rsize = Z.min (size m - off m) rsize) as ->.
  { unfold MIN. rewrite u32_small by lia. destruct (Z.ltb_spec (size m - off m) rsize); lia. }
  assert ((rsize <? size m) = true) as -> by lia.
  eapply wp_on_endpoint; [by eapply endpoint_of_set|]. steps.
  rewrite s32_small by lia. split; [done|]. by rewrite set_endpoint_twice.
Qed.

(** ** A channel as a queue

    What the processes at both ends see: the messages in transit, the threads
    waiting for one and the threads already woken. *)

(** A message, or what a read that was too short for one of [n] bytes has left of it:
    nothing but its size. *)
Inductive letter := Whole (b : list Z) | Spent (n : Z).

Record queue := { msgs : list letter; waiting : list Z; roused : list Z }.

Inductive op :=
  | Post (sl : Z) (buf : list Z)     (* a slave writes *)
  | Fetch (thread : Z) (rsize : Z).  (* the master reads *)

(** What an operation returns: a count for a write; a message, or the caller
    blocks, for a read. *)
Inductive answer := Sent (n : Z) | Got (n : Z) (buf : list Z) | Blocked.

Definition spec_op (o : op) (q : queue) : answer * queue :=
  match o with
  | Post _ buf =>
      (Sent (Z.of_nat (length buf)),
       {| msgs := msgs q ++ [Whole buf]; waiting := drop 1 (waiting q);
          roused := roused q ++ take 1 (waiting q) |})
  | Fetch t rsize =>
      match msgs q with
      | [] => (Blocked, {| msgs := []; waiting := waiting q ++ [t]; roused := roused q |})
      | Whole b :: rest =>
          if rsize <? Z.of_nat (length b) then
            (Got rsize (take (Z.to_nat rsize) b),
             {| msgs := Spent (Z.of_nat (length b)) :: rest; waiting := waiting q; roused := roused q |})
          else
            (Got (Z.of_nat (length b)) b,
             {| msgs := rest; waiting := waiting q; roused := roused q |})
      | Spent n :: rest =>
          (Got 0 [], {| msgs := if rsize <? n then Spent n :: rest else rest;
                        waiting := waiting q; roused := roused q |})
      end
  end.

Fixpoint spec_ops (l : list op) (q : queue) : list answer * queue :=
  match l with
  | [] => ([], q)
  | o :: l =>
      let (a, q1) := spec_op o q in
      let (out, q2) := spec_ops l q1 in (a :: out, q2)
  end.

Definition run_op (c : Z) (o : op) : M state answer :=
  match o with
  | Post sl buf =>
      let! n := channel_slave_write sl buf (Z.of_nat (length buf)) in ret (Sent n)
  | Fetch t rsize =>
      let! x := channel_master_read c t rsize in
      ret (match x with Some (n, b) => Got n b | None => Blocked end)
  end.

Fixpoint run_ops (c : Z) (l : list op) : M state (list answer) :=
  match l with
  | [] => ret []
  | o :: l =>
      let! a := run_op c o in
      let! out := run_ops c l in
      ret (a :: out)
  end.

(** The slaves that write are slaves of the channel, and their messages have a size that
    an int can tell; a read has any size. *)
Definition op_ok (c : Z) s (o : op) : Prop :=
  match o with
  | Post sl buf => parent <$> slavs s !! sl = Some c /\ Z.of_nat (length buf) < 2 ^ 31
  | Fetch _ rsize => 0 <= rsize
  end.

(** The heap the writes of a sequence need. *)
Fixpoint need (l : list op) : Z :=
  match l with
  | [] => 0
  | Post _ buf :: l => sizeof_channel_message + Z.of_nat (length buf) + KMALLOC_OVERHEAD + need l
  | Fetch _ _ :: l => need l
  end.

Definition intact (n : Z) (m : channel_message) : Prop :=
  size m = Z.of_nat (length (payload m)) /\ off m = 0 /\ size m <= n.

Definition shows (m : channel_message) (x : letter) : Prop :=
  match x with
  | Whole b => payload m = b /\ size m = Z.of_nat (length b) /\ off m = 0 /\ size m < 2 ^ 31
  | Spent n => size m = n /\ off m = n /\ 0 <= n < 2 ^ 31
  end.

(** The channel at [c] holds the queue [q]. *)
Definition holds (c : Z) (q : queue) s : Prop :=
  heap_ok (kheap s) /\ woken s = roused q /\
  exists inp, endpoint_of (Master c) s = Some (idle (waiting q) inp) /\
    Forall2 shows inp (msgs q) /\
    owned (kheap s) (msg_addr <$> inp).

Lemma post_refines c q s sl buf b :
  holds c q s -> op_ok c s (Post sl buf) -> b = 0 \/ KMALLOC_OVERHEAD < b ->
  room (kheap s) (sizeof_channel_message + Z.of_nat (length buf) + KMALLOC_OVERHEAD + b) ->
  wp (run_op c (Post sl buf)) s (fun a s' =>
    a = (spec_op (Post sl buf) q).1 /\ holds c (spec_op (Post sl buf) q).2 s' /\
    slavs s' = slavs s /\ room (kheap s') b).
Proof.
  intros (Hok & Hw & inp & He & Hm & Ho) [Hpar Hlen] Hb Hroom. cbn [run_op].
  unfold channel_slave_write, deref_slave.
  destruct (slavs s !! sl) as [x|] eqn:Hx; simpl in Hpar; [|done]. injection Hpar as Hpar.
  apply wp_bind, wp_bind. unfold wp at 1. rewrite Hx, Hpar. eapply wp_mono.
  { eapply write_message_ok; [done|done|lia|done|done]. }
  intros k s' (-> & p & h' & Hp & Hok' & Hr' & Hnone & (sz & Hl) & ->). step.
  split; [done|]. split; [|done]. split; [done|]. split; [simpl; congruence|].
  eexists. split; [apply (endpoint_of_set (Master c) _ _ s He)|]. simpl.
  rewrite Nat2Z.id, firstn_all, !fmap_app. simpl. split.
  - apply Forall2_app; [done|]. constructor; [by split_and!|constructor].
  - eapply owned_perm; [|by eapply owned_kmalloc]. by rewrite Permutation_app_comm.
Qed.

Lemma fetch_refines c q s t rsize b :
  holds c q s -> 0 <= rsize -> room (kheap s) b ->
  wp (run_op c (Fetch t rsize)) s (fun a s' =>
    a = (spec_op (Fetch t rsize) q).1 /\ holds c (spec_op (Fetch t rsize) q).2 s' /\
    slavs s' = slavs s /\ room (kheap s') b).
Proof.
  intros (Hok & Hw & inp & He & Hm & Ho) Hr Hroom. cbn [run_op].
  unfold channel_master_read. apply wp_bind. destruct q as [ms ws rs]. simpl in *. destruct Hm as [|m x inp ms Hx Hm].
  { eapply wp_mono; [by apply read_blocks|]. intros o s' [-> ->]. step.
    split; [done|]. split; [|done]. split; [done|]. split; [done|]. exists [].
    split; [by apply (endpoint_of_set (Master c) _ _ s He)|]. by split; [constructor|]. }
  assert (0 <= off m <= size m /\ size m < 2 ^ 31) as [Hoff Hsize] by (destruct x; simpl in Hx; lia).
  destruct (Z.ltb_spec rsize (size m)) as [Hlt|Hge].
  - eapply wp_mono; [by eapply read_short|]. intros o s' [-> ->]. step. cbn [spec_op msgs].
    assert (forall y, shows {| msg_addr := msg_addr m; cid := cid m; size := size m; off := size m; payload := payload m |} y ->
      holds c {| msgs := y :: ms; waiting := ws; roused := rs |} (set_endpoint (Master c) (idle ws
        ({| msg_addr := msg_addr m; cid := cid m; size := size m; off := size m; payload := payload m |} :: inp)) s)) as Hh.
    { intros y Hy. split; [by rewrite kheap_set_endpoint|]. split; [done|]. eexists.
      split; [apply (endpoint_of_set (Master c) _ _ s He)|]. split; [by constructor|]. by rewrite kheap_set_endpoint. }
    destruct x as [bs|k]; simpl in Hx.
    + destruct Hx as (<- & Hs & Hz & _). rewrite (proj2 (Z.ltb_lt _ _)) by lia. rewrite Hz, Z.sub_0_r, Z.min_r, drop_0 by lia.
      split; [done|]. split; [|by rewrite kheap_set_endpoint]. apply Hh. simpl. lia.
    + destruct Hx as (Hs & Hz & _). rewrite (proj2 (Z.ltb_lt _ _)) by lia. rewrite Hz, Hs, Z.sub_diag, Z.min_l by lia.
      split; [done|]. split; [|by rewrite kheap_set_endpoint]. rewrite <-Hs. apply Hh. simpl. lia.
  - eapply wp_mono.
    { eapply read_message_ok; [done|done| |lia..]. eapply owned_live; [done|]. by left. }
    intros o s' (-> & h' & Hok' & Hl & Hmono & ->). step. cbn [spec_op msgs].
    assert (holds c {| msgs := ms; waiting := ws; roused := rs |} (set_kheap h' (set_endpoint (Master c) (idle ws inp) s))) as Hh.
    { split; [done|]. split; [done|]. exists inp. split; [by apply (endpoint_of_set (Master c) _ _ s He)|].
      split; [done|]. by eapply owned_kfree. }
    destruct x as [bs|k]; simpl in Hx.
    + destruct Hx as (<- & Hs & Hz & _). rewrite (proj2 (Z.ltb_ge _ _)) by lia. rewrite Hz, Z.sub_0_r, Hs, Nat2Z.id, drop_0, firstn_all.
      split; [done|]. split; [done|by auto].
    + destruct Hx as (Hs & Hz & _). rewrite (proj2 (Z.ltb_ge _ _)) by lia. rewrite Hz, Hs, Z.sub_diag. split; [done|]. split; [done|by auto].
Qed.

Lemma need_room l : need l = 0 \/ KMALLOC_OVERHEAD < need l.
Proof.
  induction l as [|[sl buf|t k] l IH]; [by left| |done]. right. simpl.
  unfold sizeof_channel_message, KMALLOC_OVERHEAD in *. lia.
Qed.

Lemma run_ops_refines c l : forall q s,
  holds c q s -> Forall (op_ok c s) l -> room (kheap s) (need l) ->
  wp (run_ops c l) s (fun out s' =>
    out = (spec_ops l q).1 /\ holds c (spec_ops l q).2 s').
Proof.
  induction l as [|o l IH]; intros q s Hq Hl Hroom; [done|].
  apply Forall_cons in Hl as [Ho Hl]. cbn [run_ops]. apply wp_bind.
  eapply (wp_mono _ _ (fun a s' => a = (spec_op o q).1 /\ holds c (spec_op o q).2 s' /\
    slavs s' = slavs s /\ room (kheap s') (need l))).
  { destruct o; [apply post_refines|apply fetch_refines]; try done. apply need_room. }
  intros a s' (-> & Hq' & Hsl & Hroom'). apply wp_bind. eapply wp_mono.
  { apply (IH (spec_op o q).2); [done| |done].
    eapply Forall_impl; [done|]. intros [] Hop; [|done]. unfold op_ok in *. by rewrite Hsl. }
  intros out s'' [-> Hq'']. step. cbn [spec_ops]. destruct (spec_op o q) as [a q1].
  simpl in *. by destruct (spec_ops l q1).
Qed.

(** ** Routing *)

(** The slaves of a list whose id is [i], in order. *)
Definition with_id s (i : Z) (l : list Z) : list Z :=
  filter (fun a => id <$> slavs s !! a = Some i) l.

Lemma find_slave_ok s i l :
  (forall a, a ∈ l -> is_Some (slavs s !! a)) ->
  wp (find_slave l i) s (fun a s' => s' = s /\ a = default 0 (head (with_id s i l))).
Proof.
  induction l as [|a l IH]; intros Hl; [done|]. cbn [find_slave]. apply wp_bind.
  destruct (Hl a) as [x Hx]; [by left|]. unfold wp at 1, deref_slave. rewrite Hx.
  unfold with_id. rewrite filter_cons. destruct (Z.eqb_spec (id x) i) as [He|Hne].
  - step. rewrite decide_True; [done|]. by rewrite Hx; simpl; congruence.
  - rewrite decide_False; [|by rewrite Hx; simpl; congruence].
    apply IH. intros b Hb. apply Hl. by right.
Qed.

Definition slaves_ok c s : Prop :=
  exists ch, chans s !! c = Some ch /\ NoDup (slaves ch) /\
    forall a, a ∈ slaves ch -> a <> 0 /\ exists sl, slavs s !! a = Some sl /\ unlocked (slave_ep sl).

Lemma get_slave_ok s c ch i :
  slaves_ok c s -> chans s !! c = Some ch ->
  wp (channel_get_slave c i) s (fun a s' => s' = s /\
    match with_id s i (slaves ch) with [] => a = 0 | b :: _ => a = b end).
Proof.
  intros (ch' & Hch & Hnd & Hsl) Hc. unfold channel_get_slave, deref_channel. apply wp_bind.
  unfold wp at 1. rewrite Hc. simplify_eq.
  eapply wp_mono; [apply find_slave_ok|].
  - intros a Ha. destruct (Hsl a Ha) as (_ & sl & -> & _). eauto.
  - intros a s' [-> ->]. split; [done|]. by destruct (with_id s i (slaves ch')).
Qed.

(** ** Names *)

(** A name [channel_create] keeps entirely. *)
Definition short_name (nm : list Z) : Prop :=
  Forall (fun x => is_char x /\ x <> 0) nm /\ Z.of_nat (length nm) < CHANNEL_NAME_MAXL.

Lemma same_name_short a b : short_name a -> short_name b -> same_name a b = true <-> a = b.
Proof.
  intros [Ha Hla] [Hb Hlb]. unfold same_name, CHANNEL_NAME_MAXL in *.
  rewrite !take_ge by (rewrite length_app; simpl; lia).
  rewrite Z.eqb_eq. by apply cmp_chars_eq.
Qed.

Definition name_of s (a : Z) : option (list Z) := name <$> chans s !! a.

(** Every registered channel is allocated, with a name of its own. *)
Definition names_ok s : Prop :=
  clock s = false /\ heap_ok (kheap s) /\ owned (kheap s) (channels s) /\
  (forall a, a ∈ channels s -> exists nm, name_of s a = Some nm /\ short_name nm) /\
  (forall a b nm, a ∈ channels s -> b ∈ channels s ->
     name_of s a = Some nm -> name_of s b = Some nm -> a = b).

Lemma find_channel_ok s nm l :
  short_name nm ->
  (forall a, a ∈ l -> exists nm', name_of s a = Some nm' /\ short_name nm') ->
  (forall a, a ∈ l -> a <> 0) ->
  wp (find_channel l nm) s (fun a s' => s' = s /\
    ((a = 0 /\ forall b, b ∈ l -> name_of s b <> Some nm) \/
     (a <> 0 /\ a ∈ l /\ name_of s a = Some nm))).
Proof.
  intros Hnm. induction l as [|a l IH]; intros Hl Hnz.
  { split; [done|]. left. split; [done|]. intros b Hb. by apply not_elem_of_nil in Hb. }
  cbn [find_channel]. apply wp_bind.
  destruct (Hl a) as (nm' & Ha & Hs); [by left|]. pose proof Ha as Hch. unfold name_of in Hch.
  destruct (chans s !! a) as [ch|] eqn:Hc; simpl in Hch; [|done]. injection Hch as Hch.
  unfold wp at 1, deref_channel. rewrite Hc, Hch.
  destruct (same_name nm' nm) eqn:Hsame.
  - apply same_name_short in Hsame; [|done..]. subst nm'. step. split; [done|]. right.
    split; [apply Hnz; by left|]. split; [by left|congruence].
  - eapply wp_mono; [apply IH|]; [intros; apply Hl; by right|intros; apply Hnz; by right|].
    intros b s' [-> Hb]. split; [done|]. destruct Hb as [[-> Hb]|(Hz & Hb & Hn)].
    + left. split; [done|]. intros b' [->|Hb']%elem_of_cons; [|by apply Hb].
      rewrite Ha. intros [= ->]. by rewrite (proj2 (same_name_short nm nm Hs Hs)) in Hsame.
    + right. split; [done|]. by split; [right|].
Qed.

(** A heap with more blocks still owns the channels. *)
Lemma owned_more h h' l p n :
  owned h l -> live h !! p = None -> live h' = <[p := n]> (live h) -> owned h' l.
Proof.
  intros [Hnd Ho] Hp Hl. split; [done|]. intros a Ha. destruct (Ho a Ha) as [Hpos [k Hk]].
  split; [done|]. rewrite Hl, lookup_insert_ne by congruence. eauto.
Qed.

Lemma registered_nonzero s a : names_ok s -> a ∈ channels s -> a <> 0.
Proof. intros (_ & _ & [_ Ho] & _) Ha. destruct (Ho a Ha). lia. Qed.

(** The state [channel_create] leaves when the name is new. *)
Definition registered s (c : Z) (nm : list Z) (p : Z) (h' : H) : state :=
  set_chans (<[c := {| name := nm; slave_id := 0; proc := p; ep := endpoint_init; slaves := [] |}]>
             (chans s)) (set_channels (c :: channels s) (set_clock false (set_kheap h' s))).

Lemma registered_names_ok s c nm p h' k :
  names_ok s -> short_name nm -> heap_ok h' -> 0 < c -> live (kheap s) !! c = None ->
  live h' = <[c := k]> (live (kheap s)) ->
  (forall b, b ∈ channels s -> name_of s b <> Some nm) ->
  names_ok (registered s c nm p h').
Proof.
  intros Hs Hnm Hok Hc Hnone Hl Hnew. pose proof Hs as (Hcl & _ & Ho & Hnames & Huniq).
  assert (c ∉ channels s) as Hfresh.
  { intros Hin. destruct Ho as [_ Ho]. destruct (Ho c Hin) as [_ [? ?]]. congruence. }
  assert (forall b, b ∈ channels s -> name_of (registered s c nm p h') b = name_of s b) as Hold.
  { intros b Hb. unfold name_of, registered. simpl. rewrite lookup_insert_ne; [done|congruence]. }
  assert (name_of (registered s c nm p h') c = Some nm) as Hself.
  { unfold name_of, registered. simpl. by rewrite lookup_insert_eq. }
  split; [done|]. split; [done|]. split; [by eapply owned_kmalloc|]. split.
  - intros a [->|Ha]%elem_of_cons; [by exists nm|]. rewrite Hold by done. by apply Hnames.
  - intros a b nm' [->|Ha]%elem_of_cons [->|Hb]%elem_of_cons; [done|..].
    + rewrite Hself, Hold by done. intros [= <-] Hx. by destruct (Hnew b).
    + rewrite Hself, Hold by done. intros Hx [= <-]. by destruct (Hnew a).
    + rewrite !Hold by done. by apply Huniq.
Qed.

Lemma find_in_names s s' nm :
  names_ok s -> short_name nm -> chans s' = chans s ->
  wp (find_channel (channels s) nm) s' (fun a s1 => s1 = s' /\
    ((a = 0 /\ forall b, b ∈ channels s -> name_of s b <> Some nm) \/
     (a <> 0 /\ a ∈ channels s /\ name_of s a = Some nm))).
Proof.
  intros Hs Hnm Hc. assert (forall a, name_of s' a = name_of s a) as He.
  { intros a. unfold name_of. by rewrite Hc. }
  eapply wp_mono; [apply (find_channel_ok s' nm (channels s)); [done|..]|].
  - intros a Ha. rewrite He. by apply Hs.
  - intros a Ha. by eapply registered_nonzero.
  - intros a s1 [-> Ha]. split; [done|]. setoid_rewrite He in Ha. done.
Qed.

(** ** The properties *)

(** C3: a channel is a first-in first-out queue of messages.  Whatever sequence
    of writes by its slaves and reads by its master is run, each operation
    returns what the queue specification gives: a write its length; a read the
    oldest message whole when it is large enough for it; the reader blocks when there
    is none; a write wakes the thread that has been waiting longest.  A read that is too
    short for the oldest message gives the start of it, and leaves in its place a message
    without bytes, which later reads get instead of the rest: also this is in the
    specification.  Writes find memory and have a size that fits in an int. *)
Theorem channel_fifo c l q s :
  holds c q s -> Forall (op_ok c s) l -> room (kheap s) (need l) ->
  wp (run_ops c l) s (fun out s' =>
    out = (spec_ops l q).1 /\ holds c (spec_ops l q).2 s').
Proof. apply run_ops_refines. Qed.

(** A read shorter than the first message returns the beginning of it, and
    the rest is lost: the following read returns no byte at all, whatever its
    size, before any other message. *)
Theorem channel_short_read r t rsize rsize' ws m inp s :
  endpoint_of r s = Some (idle ws (m :: inp)) -> intact (2 ^ 31 - 1) m ->
  0 <= rsize < size m -> 0 <= rsize' ->
  heap_ok (kheap s) -> is_Some (live (kheap s) !! msg_addr m) ->
  wp (let! a := channel_read_message r t rsize in
      let! b := channel_read_message r t rsize' in
      ret (a, b)) s (fun ab _ =>
    ab = (Some (rsize, take (Z.to_nat rsize) (payload m)), Some (0, []))).
Proof.
  intros He (Hs & Hoff & Hlt) Hr Hr' Hok Hl. apply wp_bind.
  eapply wp_mono; [eapply read_short; [done|lia..]|].
  intros a s1 [-> ->]. rewrite Hoff, Z.sub_0_r, Z.min_r by lia. simpl. rewrite drop_0.
  apply wp_bind. destruct (Z.ltb_spec rsize' (size m)).
  - eapply wp_mono; [eapply read_short; [by eapply endpoint_of_set|simpl; lia..]|].
    simpl. intros b s2 [-> _]. step. rewrite Z.sub_diag, Z.min_l by lia. done.
  - eapply wp_mono.
    { eapply read_message_ok; [by eapply endpoint_of_set|..]; rewrite ?kheap_set_endpoint;
        simpl; try done; lia. }
    simpl. intros b s2 [-> _]. step. rewrite Z.sub_diag. done.
Qed.

(** The master's write goes to the slave named in the header and to nobody
    else.  It fails with EINVAL, changing nothing, when the buffer is shorter
    than a header or no slave has that id; otherwise the bytes after the header
    are appended to the queue of the slave opened last among those with the id,
    and every other endpoint is as before. *)
Theorem channel_master_write_routes c ch buf wsize s :
  chans s !! c = Some ch -> slaves_ok c s -> heap_ok (kheap s) -> 0 <= wsize < 2 ^ 31 ->
  room (kheap s) (sizeof_channel_message + wsize + KMALLOC_OVERHEAD) ->
  wp (channel_master_write c buf wsize) s (fun n s' =>
    match decide (wsize < sizeof_msg_header), with_id s (header_slave_id buf) (slaves ch) with
    | left _, _ | _, [] => n = - EINVAL /\ s' = s
    | right _, sl :: _ => n = wsize - sizeof_msg_header /\
        (exists e e' p, endpoint_of (Slave sl) s = Some e /\ endpoint_of (Slave sl) s' = Some e' /\
           input e' = input e ++ [{| msg_addr := p; cid := header_slave_id buf;
                                     size := wsize - sizeof_msg_header; off := 0;
                                     payload := take (Z.to_nat (wsize - 4)) (drop 4 buf) |}] /\
           wait_threads e' = drop 1 (wait_threads e) /\
           woken s' = woken s ++ take 1 (wait_threads e)) /\
        (forall r, r <> Slave sl -> endpoint_of r s' = endpoint_of r s)
    end).
Proof.
  intros Hc Hsl Hok Hw Hroom. unfold channel_master_write.
  destruct (Z.ltb_spec wsize sizeof_msg_header), (decide (wsize < sizeof_msg_header)); try lia;
    [done|]. unfold sizeof_msg_header in *. apply wp_bind.
  eapply wp_mono; [by eapply get_slave_ok|]. intros a s' [-> Ha].
  destruct (with_id s (header_slave_id buf) (slaves ch)) as [|sl rest] eqn:Hid; subst a; [done|].
  assert (sl ∈ with_id s (header_slave_id buf) (slaves ch)) as Hin by (rewrite Hid; by left).
  apply list_elem_of_filter in Hin as [Hi Hin].
  destruct Hsl as (ch' & Hc' & _ & Hall). simplify_eq.
  destruct (Hall sl Hin) as (Hz & x & Hx & Hu). destruct (Z.eqb_spec sl 0) as [|_]; [lia|].
  apply wp_bind. unfold wp at 1, deref_slave. rewrite Hx. rewrite Hx in Hi. simpl in Hi.
  injection Hi as Hi.
  assert (endpoint_of (Slave sl) s = Some (slave_ep x)) as He by (simpl; by rewrite Hx).
  rewrite (unlocked_idle _ Hu) in He.
  eapply wp_mono.
  { eapply (write_message_ok _ _ _ _ _ _ _ 0); [done|done|lia|by left|].
    eapply room_mono; [done|lia]. }
  intros k s' (-> & p & h' & _ & _ & _ & _ & _ & ->). split; [done|]. rewrite Hi. split.
  - eexists _, _, p. split; [done|].
    split; [exact (endpoint_of_set (Slave sl) _ _ s He)|]. done.
  - intros r Hr. rewrite endpoint_of_set_woken, endpoint_of_set_kheap.
    by apply endpoint_of_set_ne.
Qed.

(** Channel names identify channels.  [channel_create] fails with EEXIST
    exactly when a registered channel has the name, and then leaves channels and
    allocated blocks as they were; otherwise the new channel is registered under
    the name, the file refers to it, and names stay unique.  Names have fewer
    than CHANNEL_NAME_MAXL characters; see [channel_long_names]. *)
Theorem channel_create_registers nm f p s :
  names_ok s -> short_name nm -> room (kheap s) (sizeof_channel + KMALLOC_OVERHEAD) ->
  wp (channel_create nm f p) s (fun '(n, f', c) s' => names_ok s' /\
    ((n = - EEXIST /\ f' = f /\ (exists a, a ∈ channels s /\ name_of s a = Some nm) /\
      channels s' = channels s /\ chans s' = chans s /\ live (kheap s') = live (kheap s)) \/
     (n = 0 /\ (forall b, b ∈ channels s -> name_of s b <> Some nm) /\
      f_ops f' = channel_master_f_ops /\ private f' = c /\
      channels s' = c :: channels s /\
      chans s' = <[c := {| name := nm; slave_id := 0; proc := p; ep := endpoint_init;
                           slaves := [] |}]> (chans s)))).
Proof.
  intros Hs Hnm Hroom. pose proof Hs as (Hcl & Hok & Ho & Hnames & Huniq).
  unfold channel_create. apply wp_bind, (wp_kmalloc_live _ _ _ _ 0); [done|unfold sizeof_channel; lia|by left| |].
  { by rewrite Z.add_0_r. }
  intros c h' Hok' Hc Hnone (k & _ & Hl) _. destruct (Z.eqb_spec c 0) as [|_]; [lia|].
  apply wp_bind, wp_lock; [exact Hcl|]. apply wp_bind, wp_get. apply wp_bind. eapply wp_mono; [by apply (find_in_names s)|].
  intros a s1 [-> [[-> Hnew]|(Hz & Ha & Hn)]].
  - simpl. steps. rewrite take_ge by (destruct Hnm; unfold CHANNEL_NAME_MAXL in *; simpl; lia).
    split; [|by right]. by eapply (registered_names_ok s c nm p h').
  - destruct (Z.eqb_spec a 0) as [|_]; [lia|]. cbn [negb]. apply wp_bind, wp_unlock.
    apply wp_bind, wp_kfree_live; [done|simpl; rewrite Hl, lookup_insert_eq; eauto|].
    simpl. intros h2 Hok2 Hl2 _. rewrite Hl, delete_insert_id in Hl2 by done. steps. split.
    + split; [done|]. split; [done|]. split; [|by split].
      destruct Ho as [Hnd Ho]. split; [done|]. intros b Hb. simpl; rewrite Hl2. by apply Ho.
    + left. by eauto 10.
Qed.

(** [channel_open_from_name] finds the channel by its name, or fails with
    ENOENT and keeps every allocated block.  On success the file refers to a new
    slave of the channel with the next id, first in the channel's list; but two
    blocks have been allocated, and the first of them is neither the slave nor
    released: it is lost. *)
Theorem channel_open_from_name_finds nm f p s :
  names_ok s -> short_name nm ->
  room (kheap s) (2 * (sizeof_channel_slave + KMALLOC_OVERHEAD)) ->
  wp (channel_open_from_name nm f p) s (fun '(n, f', sl) s' =>
    (n = - ENOENT /\ f' = f /\ (forall b, b ∈ channels s -> name_of s b <> Some nm) /\
     chans s' = chans s /\ slavs s' = slavs s /\ live (kheap s') = live (kheap s)) \/
    (n = 0 /\ f_ops f' = channel_slave_f_ops /\ private f' = sl /\
     exists c ch, c ∈ channels s /\ chans s !! c = Some ch /\ name ch = nm /\
       chans s' = <[c := {| name := nm; slave_id := u16 (slave_id ch + 1); proc := proc ch;
                            ep := ep ch; slaves := sl :: slaves ch |}]> (chans s) /\
       slavs s' = <[sl := {| id := slave_id ch; parent := c; slave_proc := p;
                             slave_ep := endpoint_init |}]> (slavs s) /\
       exists lost k k', lost <> sl /\ sizeof_channel_slave <= k /\ live (kheap s) !! lost = None /\
         live (kheap s') = <[sl := k']> (<[lost := k]> (live (kheap s))))).
Proof.
  intros Hs Hnm Hroom. pose proof Hs as (Hcl & Hok & Ho & Hnames & Huniq).
  unfold channel_open_from_name, channel_from_name_nolock.
  apply wp_bind, (wp_kmalloc_live _ _ _ _ (sizeof_channel_slave + KMALLOC_OVERHEAD));
    [done|unfold sizeof_channel_slave; lia|right; unfold sizeof_channel_slave; lia| |].
  { eapply room_mono; [done|]. lia. }
  intros lost h' Hok' Hc Hnone (k & Hk & Hl) Hroom'. destruct (Z.eqb_spec lost 0) as [|_]; [lia|].
  apply wp_bind, wp_lock; [exact Hcl|]. apply wp_bind, wp_bind, wp_get. apply wp_bind.
  eapply wp_mono; [by apply (find_in_names s)|]. intros c s1 [-> [[-> Hnew]|(Hz & Hin & Hn)]].
  - apply wp_bind, wp_ret, wp_ret. cbn [Z.eqb]. apply wp_bind, wp_unlock.
    apply wp_bind, wp_kfree_live; [done|simpl; rewrite Hl, lookup_insert_eq; eauto|].
    simpl. intros h2 Hok2 Hl2 _. rewrite Hl, delete_insert_id in Hl2 by done. steps. left. by eauto 10.
  - destruct (Z.eqb_spec c 0) as [|_]; [lia|]. apply wp_bind, wp_unlock, wp_ret.
    destruct (Z.eqb_spec c 0) as [|_]; [lia|]. apply wp_bind, wp_unlock.
    unfold channel_open. apply wp_bind, (wp_kmalloc_live _ _ _ _ 0);
      [done|unfold sizeof_channel_slave; lia|by left|simpl; by rewrite Z.add_0_r|].
    simpl. intros sl h2 Hok2 Hsl Hnone2 (k2 & _ & Hl2) _.
    destruct (Z.eqb_spec sl 0) as [|_]; [lia|]. apply wp_bind, wp_lock; [done|].
    unfold name_of in Hn. destruct (chans s !! c) as [ch|] eqn:Hch; simpl in Hn; [|done].
    injection Hn as Hn. apply wp_bind. unfold wp at 1, deref_channel. simpl. rewrite Hch.
    steps. right. split; [done|]. split; [done|]. split; [done|].
    exists c, ch. split; [done|]. split; [done|]. split; [done|].
    rewrite Hn. split; [done|]. split; [done|]. exists lost, k, k2.
    split; [|by rewrite Hl2, Hl]. intros ->. by rewrite Hl, lookup_insert_eq in Hnone2.
Qed.

End ops.
Arguments state : clear implicits.

(** ** Examples *)

#[local] Existing Instance Kmalloc.kmalloc_kheap.

(** A channel at 2020, its slave at 2116, a message of five bytes at 2188, and
    4000 free bytes. *)
Definition chan_heap : Kmalloc.heap := {|
  Kmalloc.kmalloc_lock := false;
  Kmalloc.kmalloc_head :=
    [ {| Kmalloc.bk_addr := 2000; Kmalloc.bk_ptr := 2020; Kmalloc.bk_size := 76; Kmalloc.bk_free := false |};
      {| Kmalloc.bk_addr := 2096; Kmalloc.bk_ptr := 2116; Kmalloc.bk_size := 52; Kmalloc.bk_free := false |};
      {| Kmalloc.bk_addr := 2168; Kmalloc.bk_ptr := 2188; Kmalloc.bk_size := 25; Kmalloc.bk_free := false |};
      {| Kmalloc.bk_addr := 2213; Kmalloc.bk_ptr := 2233; Kmalloc.bk_size := 4000; Kmalloc.bk_free := true |} ];
  Kmalloc.mem := ∅ |}.

Lemma chan_heap_ok : heap_ok chan_heap.
Proof.
  exists 2000, 6233. split_and!; try done.
  repeat (constructor; [split; simpl; Kmalloc.blk_arith|]). constructor.
Qed.

Lemma chan_heap_room b : b <= 4020 -> room chan_heap b.
Proof.
  intros. right. eexists. split_and!;
    [do 3 apply list_elem_of_further; apply list_elem_of_here|done|Kmalloc.blk_arith].
Qed.

Definition hello : channel_message :=
  {| msg_addr := 2188; cid := 0; size := 5; off := 0; payload := [104; 101; 108; 108; 111] |}.

Definition sample_chan : channel :=
  {| name := [116; 116; 121]; slave_id := 1; proc := 1; ep := idle [] [hello]; slaves := [2116] |}.
Definition sample_slave : channel_slave :=
  {| id := 0; parent := 2020; slave_proc := 2; slave_ep := idle [77] [] |}.

Definition sample_state : state Kmalloc.heap := {|
  clock := false;
  channels := [2020];
  chans := {[ 2020 := sample_chan ]};
  slavs := {[ 2116 := sample_slave ]};
  woken := [];
  kheap := chan_heap |}.

Definition sample_queue : queue :=
  {| msgs := [Whole (payload hello)]; waiting := []; roused := [] |}.

Lemma chan_owned l : l = [2020] \/ l = [2188] -> owned chan_heap l.
Proof.
  intros [-> | ->]; (split; [apply NoDup_singleton|]); intros a ->%list_elem_of_singleton;
    (split; [lia|]); vm_compute; eauto.
Qed.

Lemma sample_holds : holds 2020 sample_queue sample_state.
Proof.
  split; [apply chan_heap_ok|]. split; [done|]. exists [hello]. split; [by vm_compute|].
  split; [by repeat constructor|]. apply chan_owned. by right.
Qed.

Lemma tty_short : short_name [116; 116; 121].
Proof. split; [|done]. repeat (constructor; [unfold is_char; lia|]). constructor. Qed.

Lemma sample_names_ok : names_ok sample_state.
Proof.
  split; [done|]. split; [apply chan_heap_ok|]. split; [apply chan_owned; by left|]. split.
  - intros a ->%list_elem_of_singleton. exists [116; 116; 121]. split; [by vm_compute|apply tty_short].
  - by intros a b nm ->%list_elem_of_singleton ->%list_elem_of_singleton.
Qed.

Lemma sample_slaves_ok : slaves_ok 2020 sample_state.
Proof.
  exists sample_chan. split; [by vm_compute|]. split; [apply NoDup_singleton|].
  intros a ->%list_elem_of_singleton. split; [lia|]. exists sample_slave. by split; [vm_compute|].
Qed.

(** A thread reads the start of the message and then nothing, a second one blocks, and the write of the slave
    wakes it; it then gets the message. *)
Definition sample_ops : list op :=
  [Fetch 50 2; Fetch 50 100; Fetch 51 100; Post 2116 [1; 2; 3]; Fetch 51 200].

Lemma channel_fifo_witness :
  wp (run_ops 2020 sample_ops) sample_state (fun out s' =>
    out = [Got 2 [104; 101]; Got 0 []; Blocked; Sent 3; Got 3 [1; 2; 3]] /\
    holds 2020 {| msgs := []; waiting := []; roused := [51] |} s').
Proof.
  apply (channel_fifo 2020 sample_ops sample_queue sample_state).
  - apply sample_holds.
  - repeat (constructor; [by vm_compute|]). constructor.
  - by apply chan_heap_room.
Defined.

Lemma channel_short_read_witness :
  wp (let! a := channel_read_message (Master 2020) 50 2 in
      let! b := channel_read_message (Master 2020) 50 100 in
      ret (a, b)) sample_state (fun ab _ =>
    ab = (Some (2, [104; 101]), Some (0, []))).
Proof.
  apply (channel_short_read (Master 2020) 50 2 100 [] hello [] sample_state);
    [by vm_compute|by vm_compute|by vm_compute|lia|apply chan_heap_ok|vm_compute; eauto].
Defined.

Lemma channel_master_write_routes_witness :
  wp (channel_master_write 2020 [9; 0; 0; 0; 42] 5) sample_state (fun n s' =>
    n = 1 /\
    (exists e e' p, endpoint_of (Slave 2116) sample_state = Some e /\
       endpoint_of (Slave 2116) s' = Some e' /\
       input e' = input e ++ [{| msg_addr := p; cid := 0; size := 1; off := 0; payload := [42] |}] /\
       wait_threads e' = drop 1 (wait_threads e) /\
       woken s' = [] ++ take 1 (wait_threads e)) /\
    (forall r, r <> Slave 2116 -> endpoint_of r s' = endpoint_of r sample_state)).
Proof.
  apply (channel_master_write_routes 2020 sample_chan [9; 0; 0; 0; 42] 5 sample_state);
    [by vm_compute|apply sample_slaves_ok|apply chan_heap_ok|lia|by apply chan_heap_room].
Defined.

Definition sample_file : file := {| inode := 7; private := 0; f_ops := other_f_ops; mount := 3 |}.

Lemma channel_create_registers_witness :
  wp (channel_create [116; 116; 121] sample_file 4) sample_state (fun '(n, f', c) s' =>
    names_ok s' /\
    ((n = - EEXIST /\ f' = sample_file /\
      (exists a, a ∈ channels sample_state /\ name_of sample_state a = Some [116; 116; 121]) /\
      channels s' = channels sample_state /\ chans s' = chans sample_state /\
      live (kheap s') = live (kheap sample_state)) \/
     (n = 0 /\ (forall b, b ∈ channels sample_state -> name_of sample_state b <> Some [116; 116; 121]) /\
      f_ops f' = channel_master_f_ops /\ private f' = c /\ channels s' = c :: channels sample_state /\
      chans s' = <[c := {| name := [116; 116; 121]; slave_id := 0; proc := 4; ep := endpoint_init;
                           slaves := [] |}]> (chans sample_state)))).
Proof.
  apply (channel_create_registers [116; 116; 121] sample_file 4 sample_state);
    [apply sample_names_ok|apply tty_short|by apply chan_heap_room].
Defined.

Lemma channel_open_from_name_finds_witness :
  wp (channel_open_from_name [116; 116; 121] sample_file 4) sample_state (fun '(n, f', sl) s' =>
    (n = - ENOENT /\ f' = sample_file /\
     (forall b, b ∈ channels sample_state -> name_of sample_state b <> Some [116; 116; 121]) /\
     chans s' = chans sample_state /\ slavs s' = slavs sample_state /\
     live (kheap s') = live (kheap sample_state)) \/
    (n = 0 /\ f_ops f' = channel_slave_f_ops /\ private f' = sl /\
     exists c ch, c ∈ channels sample_state /\ chans sample_state !! c = Some ch /\
       name ch = [116; 116; 121] /\
       chans s' = <[c := {| name := [116; 116; 121]; slave_id := u16 (slave_id ch + 1); proc := proc ch;
                            ep := ep ch; slaves := sl :: slaves ch |}]> (chans sample_state) /\
       slavs s' = <[sl := {| id := slave_id ch; parent := c; slave_proc := 4;
                             slave_ep := endpoint_init |}]> (slavs sample_state) /\
       exists lost k k', lost <> sl /\ sizeof_channel_slave <= k /\
         live (kheap sample_state) !! lost = None /\
         live (kheap s') = <[sl := k']> (<[lost := k]> (live (kheap sample_state))))).
Proof.
  apply (channel_open_from_name_finds [116; 116; 121] sample_file 4 sample_state);
    [apply sample_names_ok|apply tty_short|by apply chan_heap_room].
Defined.

(** A name of 20 characters is stored without its last one, so it is not found
    again: it can be registered twice, and it cannot be opened. *)
Lemma channel_long_names :
  let nm := replicate 20 97 in
  wp (let! a := channel_create nm sample_file 4 in
      let! b := channel_create nm sample_file 4 in
      let! c := channel_open_from_name nm sample_file 4 in
      ret (a.1.1, b.1.1, c.1.1)) sample_state (fun r _ => r = (0, 0, - ENOENT)).
Proof. cbv zeta. by wp_eval. Qed.

(** Closing the master frees the channel its slaves still point to. *)
Lemma channel_write_after_close :
  (channel_master_close 2020 ;;; channel_slave_write 2116 [1] 1) sample_state = Undef.
Proof. by vm_compute. Qed.

End Channel.
