(* ===== verification/Device.v ===== *)
(** The table of devices and the file system that lists them:
    kernel/core/fs/vfs/device.c and kernel/core/fs/devfs.c.

    A device is a slot of a fixed table, and its id is the index of the slot.
    Strings are lists of characters without their terminator. *)

From S2P Require Import Prelude KString.

Module Device.

Definition VFS_MAX_DEVICE : Z := 255.
Definition VFS_DEV_MAX_NAMEL : Z := 15.
Definition VFS_OPS_OPEN : Z := Z.shiftl 1 0.
Definition VFS_OPS_CLOSE : Z := Z.shiftl 1 3.
Definition VFS_FTYPE_DEV : Z := 8192.
Definition VFS_FTYPE_DIR : Z := 16384.
Definition RES_OK : Z := 0.
Definition RES_ENTER_MOUNT : Z := 1.
Definition RES_KO : Z := 2.

Record device := {
  name : list Z;
  active : bool;
  id : Z;
  pid : Z;
  ops : Z;
  f_ops : Z;
  private : Z;
}.

(** The device table, and the [struct devfs] behind the file system. *)
Record devs := {
  device_lock : bool;
  devices : list device;
  devfs_lock : bool;
  mounted : bool;
}.

Definition set_device_lock (b : bool) (s : devs) : devs :=
  {| device_lock := b; devices := devices s; devfs_lock := devfs_lock s; mounted := mounted s |}.
Definition set_devices (l : list device) (s : devs) : devs :=
  {| device_lock := device_lock s; devices := l; devfs_lock := devfs_lock s; mounted := mounted s |}.
Definition set_devfs_lock (b : bool) (s : devs) : devs :=
  {| device_lock := device_lock s; devices := devices s; devfs_lock := b; mounted := mounted s |}.
Definition set_mounted (b : bool) (s : devs) : devs :=
  {| device_lock := device_lock s; devices := devices s; devfs_lock := devfs_lock s; mounted := b |}.

Fixpoint find_free_loop (l : list device) (i dev_id : Z) (nm : list Z) : Z :=
  match l with
  | [] => if dev_id =? -1 then - EBUSY else dev_id
  | d :: l =>
      let dev_id := if (dev_id =? -1) && negb (active d) then i else dev_id in
      if active d && streq (name d) nm then - EEXIST
      else find_free_loop l (i + 1) dev_id nm
  end.
Definition find_free_device (nm : list Z) : M devs Z :=
  let! s := get in ret (find_free_loop (devices s) 0 (-1) nm).

Definition device_create (p : Z) (nm : list Z) (vops fops priv : Z) : M devs Z :=
  if (Z.land vops VFS_OPS_OPEN =? 0) || (Z.land vops VFS_OPS_CLOSE =? 0) then ret (- EINVAL)
  else
    spinlock_lock device_lock set_device_lock ;;;
    let! dev_id := find_free_device nm in
    if dev_id <? 0 then
      spinlock_unlock set_device_lock ;;;
      ret dev_id
    else
      modify (fun s => set_devices (alter (fun d =>
        {| name := take (Z.to_nat (VFS_DEV_MAX_NAMEL - 1)) nm; active := true; id := id d;
           pid := pid d; ops := ops d; f_ops := f_ops d; private := private d |})
        (Z.to_nat dev_id) (devices s)) s) ;;;
      spinlock_unlock set_device_lock ;;;
      modify (fun s => set_devices (alter (fun d =>
        {| name := name d; active := active d; id := dev_id; pid := p; ops := vops;
           f_ops := fops; private := priv |}) (Z.to_nat dev_id) (devices s)) s) ;;;
      ret dev_id.

Definition vfs_device_create (nm : list Z) (p perm vops fops priv : Z) : M devs Z :=
  device_create p nm (u32 vops) fops priv.

(** The device, or [None] for the null pointer. *)
Definition device_get (dev : Z) : M devs (option device) :=
  if (dev <? 0) || (dev >=? VFS_MAX_DEVICE) then ret None
  else
    let! s := get in
    match devices s !! Z.to_nat dev with
    | None => undef
    | Some d => ret (if negb (active d) then None else Some d)
    end.

Definition device_get_from_name (nm : list Z) : M devs Z :=
  let! s := get in
  match list_break (fun d => active d && streq (name d) nm) (devices s) with
  | Some (_, d, _) => ret (id d)
  | None => ret (- ENODEV)
  end.

Fixpoint nth_active (l : list device) (index : Z) : option device :=
  match l with
  | [] => None
  | d :: l =>
      if active d then if index =? 0 then Some d else nth_active l (index - 1)
      else nth_active l index
  end.

Definition device_get_from_index (index : Z) : M devs (option device) :=
  if (index <? 0) || (index >? VFS_MAX_DEVICE) then ret None
  else
    spinlock_lock device_lock set_device_lock ;;;
    let! s := get in
    let d := nth_active (devices s) index in
    spinlock_unlock set_device_lock ;;;
    ret d.

Definition device_exists (nm : list Z) : M devs Z :=
  let! s := get in
  match list_break (fun d => active d && streq (name d) nm) (devices s) with
  | Some _ => ret 1
  | None => ret 0
  end.

Definition device_destroy (p dev : Z) : M devs Z :=
  if (dev <? 0) || (dev >=? VFS_MAX_DEVICE) then ret (- EINVAL)
  else
    let! s := get in
    match devices s !! Z.to_nat dev with
    | None => undef
    | Some d =>
        if negb (active d) then ret (- ENODEV)
        else if negb (pid d =? p) then ret (- EINVAL)
        else
          spinlock_lock device_lock set_device_lock ;;;
          modify (fun s => set_devices (<[Z.to_nat dev :=
            {| name := name d; active := false; id := id d; pid := pid d; ops := ops d;
               f_ops := f_ops d; private := private d |}]> (devices s)) s) ;;;
          spinlock_unlock set_device_lock ;;;
          ret 0
    end.

(** ** The devfs file system *)

Definition DEVFS_INODE_ROOT : Z := VFS_MAX_DEVICE + 1.

(** The fields of [struct resp_lookup] the callers use. *)
Record resp_lookup := {
  res_ret : Z;
  processed : Z;
  res_dev : Z;
  res_inode : Z;
}.

Definition no_answer : resp_lookup :=
  {| res_ret := 0; processed := 0; res_dev := 0; res_inode := 0 |}.

Record stat := { st_dev : Z; st_ino : Z; st_mode : Z }.
Record dirent := { d_ino : Z; d_name : list Z }.

Definition devfs_open (inode : Z) : M devs Z :=
  if negb (inode =? DEVFS_INODE_ROOT) then ret (- EINVAL) else ret DEVFS_INODE_ROOT.

Definition devfs_close : M devs Z := ret 0.

(** The result and what the response holds; 47 is the slash. *)
Definition devfs_lookup (path : list Z) (resp : resp_lookup) : M devs (Z * resp_lookup) :=
  let '(path, n) := match path with
                    | c :: rest => if c =? 47 then (rest, 1) else (path, 0)
                    | [] => (path, 0)
                    end in
  if streq path [] || streq path [47] then
    ret (0, {| res_ret := RES_OK; processed := n; res_dev := -1; res_inode := DEVFS_INODE_ROOT |})
  else
    let path_len := Z.of_nat (length path) in
    if path_len >? VFS_DEV_MAX_NAMEL then
      ret (- ENOENT, {| res_ret := res_ret resp; processed := n; res_dev := res_dev resp;
                        res_inode := res_inode resp |})
    else
      let! dev := device_get_from_name path in
      if dev <? 0 then
        ret (- ENOENT, {| res_ret := res_ret resp; processed := n; res_dev := dev;
                          res_inode := res_inode resp |})
      else
        ret (0, {| res_ret := RES_OK; processed := n + path_len; res_dev := dev;
                   res_inode := u32 dev |}).

(** The other fields of the structure are set to 0. *)
Definition devfs_stat (inode : Z) : M devs (Z * option stat) :=
  if inode =? DEVFS_INODE_ROOT then
    ret (0, Some {| st_dev := -1; st_ino := DEVFS_INODE_ROOT; st_mode := VFS_FTYPE_DIR |})
  else
    let! d := device_get (s32 inode) in
    match d with
    | None => ret (- EINVAL, None)
    | Some d => ret (0, Some {| st_dev := id d; st_ino := u32 (id d); st_mode := VFS_FTYPE_DEV |})
    end.

Definition devfs_getdirent (inode index : Z) : M devs (Z * option dirent) :=
  if negb (inode =? DEVFS_INODE_ROOT) then ret (- EINVAL, None)
  else
    let! d := device_get_from_index index in
    match d with
    | None => ret (0, None)
    | Some d => ret (1, Some {| d_ino := u32 (id d);
                                d_name := take (Z.to_nat (VFS_DEV_MAX_NAMEL - 1)) (name d) |})
    end.

Definition devfs_create : M devs Z :=
  spinlock_lock devfs_lock set_devfs_lock ;;;
  let! s := get in
  if mounted s then
    spinlock_unlock set_devfs_lock ;;;
    ret (- EBUSY)
  else
    modify (set_mounted true) ;;;
    spinlock_unlock set_devfs_lock ;;;
    ret 0.

(** ** The invariant *)

Definition short_name (nm : list Z) : Prop :=
  is_string nm /\ Z.of_nat (length nm) < VFS_DEV_MAX_NAMEL.

(** The active device [d] in slot [i]. *)
Definition in_slot (s : devs) (i : nat) (d : device) : Prop :=
  devices s !! i = Some d /\ active d = true.

Definition dev_inv (s : devs) : Prop :=
  device_lock s = false /\ devfs_lock s = false /\ length (devices s) = 255%nat /\
  (forall i d, in_slot s i d -> id d = Z.of_nat i /\ short_name (name d)) /\
  (forall i j d e, in_slot s i d -> in_slot s j e -> name d = name e -> i = j).

(** ** Lookup by name *)

Definition named (s : devs) (nm : list Z) (i : nat) (d : device) : Prop :=
  in_slot s i d /\ name d = nm.

Lemma test_name s nm i d :
  dev_inv s -> is_string nm -> devices s !! i = Some d ->
  active d && streq (name d) nm = true <-> named s nm i d.
Proof.
  intros (_ & _ & _ & Hid & _) Hnm Hd. unfold named, in_slot. rewrite andb_true_iff. split.
  - intros [Ha He]. destruct (Hid i d) as [_ [Hs _]]; [done|].
    apply streq_spec in He; [|done..]. done.
  - intros [[_ Ha] <-]. split; [done|]. destruct (Hid i d) as [_ [Hs _]]; [done|].
    by apply streq_spec.
Qed.

Lemma list_break_lookup {A} (p : A -> bool) l a x b :
  list_break p l = Some (a, x, b) -> l !! length a = Some x /\ p x = true.
Proof. intros (-> & Hp & _)%list_break_Some. split; [|done]. by apply list_lookup_middle. Qed.

Lemma list_break_None_lookup {A} (p : A -> bool) l i x :
  list_break p l = None -> l !! i = Some x -> p x = false.
Proof.
  intros Hl Hx. rewrite list_break_None in Hl. rewrite Forall_forall in Hl.
  apply Hl. by eapply list_elem_of_lookup_2.
Qed.

Lemma get_from_name_ok s nm :
  dev_inv s -> is_string nm ->
  wp (device_get_from_name nm) s (fun r s' => s' = s /\
    ((exists i d, named s nm i d /\ r = Z.of_nat i) \/
     ((forall i d, ~ named s nm i d) /\ r = - ENODEV))).
Proof.
  intros Hs Hnm. unfold device_get_from_name. step. step.
  destruct (list_break _ (devices s)) as [[[a d] b]|] eqn:Hb; step; (split; [done|]).
  - apply list_break_lookup in Hb as [Hl Hp]. apply (test_name s nm (length a)) in Hp; [|done..].
    left. exists (length a), d. split; [done|].
    destruct Hs as (_ & _ & _ & Hid & _). apply Hid, Hp.
  - right. split; [|done]. intros i d Hn. pose proof Hn as [[Hl _] _].
    apply (test_name s nm i d) in Hn; [|done..].
    by rewrite (list_break_None_lookup _ _ i d Hb Hl) in Hn.
Qed.

(** ** Allocation of a slot *)

(** The first slot that is not active. *)
Definition first_free (l : list device) (k : nat) : Prop :=
  (exists d, l !! k = Some d /\ active d = false) /\
  forall j d, (j < k)%nat -> l !! j = Some d -> active d = true.

Lemma first_free_cons d l k :
  active d = true -> first_free l k -> first_free (d :: l) (S k).
Proof.
  intros Hd [Hk Hj]. split; [done|]. intros [|j] e Hlt He; [by simplify_eq/=|].
  apply (Hj j); [lia|done].
Qed.

Lemma find_free_loop_ok nm l : forall i dev_id,
  0 <= i -> dev_id = -1 \/ 0 <= dev_id ->
  let r := find_free_loop l i dev_id nm in
  ((exists k d, l !! k = Some d /\ active d && streq (name d) nm = true) /\ r = - EEXIST) \/
  ((forall k d, l !! k = Some d -> active d && streq (name d) nm = false) /\
   ((dev_id <> -1 /\ r = dev_id) \/
    (dev_id = -1 /\ exists k, first_free l k /\ r = i + Z.of_nat k) \/
    (dev_id = -1 /\ (forall k d, l !! k = Some d -> active d = true) /\ r = - EBUSY))).
Proof.
  induction l as [|d l IH]; intros i dev_id Hi Hid; cbn [find_free_loop].
  { right. split; [done|]. destruct (Z.eqb_spec dev_id (-1)); [right; right|left]; done. }
  destruct (active d && streq (name d) nm) eqn:Hd.
  { left. split; [|done]. by exists 0%nat, d. }
  destruct (IH (i + 1) (if (dev_id =? -1) && negb (active d) then i else dev_id))
    as [[(k & e & He & Hn) Hr]|[Hall Hr]]; [lia|destruct ((dev_id =? -1) && negb (active d)); lia|..].
  { left. split; [|done]. by exists (S k), e. }
  right. split; [intros [|k] e He; [by simplify_eq/=|by eapply Hall]|].
  destruct (Z.eqb_spec dev_id (-1)) as [->|Hne]; simpl in Hr |- *.
  2: { destruct Hr as [[_ Hr]|[[? _]|[? _]]]; [by left|done..]. }
  right. destruct (active d) eqn:Ha; simpl in Hr |- *.
  - destruct Hr as [[? _]|[(_ & k & Hk & Hr)|(_ & Hact & Hr)]]; [done|left|right].
    + split; [done|]. exists (S k). split; [by apply first_free_cons|]. rewrite Hr. lia.
    + split; [done|]. split; [|done]. intros [|k] e He; [by simplify_eq/=|by eapply Hact].
  - destruct Hr as [[_ Hr]|[[? _]|[? _]]]; [|lia..]. left. split; [done|]. exists 0%nat.
    split; [|rewrite Hr; lia]. split; [by exists d|]. intros j e Hj. lia.
Qed.

Definition new_device (p : Z) (nm : list Z) (vops fops priv : Z) (i : nat) : device :=
  {| name := nm; active := true; id := Z.of_nat i; pid := p; ops := vops; f_ops := fops;
     private := priv |}.

Lemma insert_device_inv s i p nm vops fops priv d :
  dev_inv s -> short_name nm -> devices s !! i = Some d -> active d = false ->
  (forall j e, ~ named s nm j e) ->
  dev_inv (set_devices (<[i := new_device p nm vops fops priv i]> (devices s)) s).
Proof.
  intros (Hl1 & Hl2 & Hlen & Hid & Huniq) Hnm Hi Hd Hnone.
  set (s' := set_devices _ s).
  assert (forall j e, in_slot s' j e ->
    (j = i /\ e = new_device p nm vops fops priv i) \/ (j <> i /\ in_slot s j e)) as Hslot.
  { intros j e [Hj Ha]. unfold s' in Hj. simpl in Hj. destruct (decide (j = i)) as [->|Hne].
    - rewrite list_lookup_insert_eq in Hj by (by eapply lookup_lt_Some). left. by simplify_eq.
    - rewrite list_lookup_insert_ne in Hj by done. by right. }
  repeat (split; [done|]). split; [simpl; by rewrite length_insert|]. split.
  - intros j e [[-> ->]|[_ He]]%Hslot; [done|by apply Hid].
  - intros j k e f [[-> ->]|[Hj He]]%Hslot [[-> ->]|[Hk Hf]]%Hslot Hn; [done|..].
    + by destruct (Hnone k f).
    + by destruct (Hnone j e).
    + by eapply Huniq.
Qed.

(** Two updates of the same slot. *)
Lemma alter_slot (f g : device -> device) (l : list device) (i : nat) d :
  l !! i = Some d -> alter g i (alter f i l) = <[i := g (f d)]> l.
Proof.
  intros Hi. apply list_eq. intros j. destruct (decide (i = j)) as [<-|Hne].
  - rewrite !list_lookup_alter_eq, Hi. simpl.
    by rewrite list_lookup_insert_eq by (by eapply lookup_lt_Some).
  - by rewrite !list_lookup_alter_ne, list_lookup_insert_ne.
Qed.

(** ** Enumeration *)

Definition actives (s : devs) : list device := filter (fun d => active d = true) (devices s).

Lemma nth_active_ok l : forall k, 0 <= k ->
  nth_active l k = filter (fun d => active d = true) l !! Z.to_nat k.
Proof.
  induction l as [|d l IH]; intros k Hk; [done|]. cbn [nth_active]. rewrite filter_cons.
  destruct (active d) eqn:Ha.
  - rewrite decide_True by done. destruct (Z.eqb_spec k 0) as [->|Hne]; [done|].
    rewrite IH by lia. replace (Z.to_nat k) with (S (Z.to_nat (k - 1))) by lia. done.
  - rewrite decide_False by done. by apply IH.
Qed.

Lemma actives_slot s d : d ∈ actives s -> exists i, in_slot s i d.
Proof.
  intros [Ha Hd]%list_elem_of_filter. apply list_elem_of_lookup in Hd as [i Hi]. by exists i.
Qed.

(** ** The properties *)

(** [device_create] needs the open and close capabilities (EINVAL), a name
    that no active device has (EEXIST) and a free slot (EBUSY), and changes
    nothing when one is missing; otherwise the device takes the lowest free
    slot and its id is the index of the slot.  Active devices keep distinct
    names.  Names fit in the name field; see [device_long_names]. *)
Theorem device_create_registers p nm vops fops priv s :
  dev_inv s -> short_name nm ->
  wp (device_create p nm vops fops priv) s (fun r s' => dev_inv s' /\
    if (Z.land vops VFS_OPS_OPEN =? 0) || (Z.land vops VFS_OPS_CLOSE =? 0)
    then r = - EINVAL /\ s' = s
    else ((exists i d, named s nm i d) /\ r = - EEXIST /\ s' = s) \/
         ((forall i d, ~ named s nm i d) /\
          (((forall i d, devices s !! i = Some d -> active d = true) /\ r = - EBUSY /\ s' = s) \/
           (exists i, first_free (devices s) i /\ r = Z.of_nat i /\
              s' = set_devices (<[i := new_device p nm vops fops priv i]> (devices s)) s)))).
Proof.
  intros Hs Hnm. unfold device_create. destruct (_ || _); [by step|].
  pose proof Hs as (Hlock & _). apply wp_bind, wp_lock; [done|].
  assert (set_device_lock false (set_device_lock true s) = s) as Hrel by (destruct s; simpl in *; by subst).
  unfold find_free_device. apply wp_bind, wp_bind, wp_get, wp_ret. simpl.
  destruct (find_free_loop_ok nm (devices s) 0 (-1)) as [[(k & d & Hd & Hn) ->]|[Hall Hr]]; [lia..| |].
  - simpl. steps. rewrite Hrel. split; [done|]. left. split; [|done].
    exists k, d. destruct Hnm. by apply test_name.
  - assert (forall i d, ~ named s nm i d) as Hnone.
    { intros i d Hn. pose proof Hn as [[Hl _] _]. destruct Hnm.
      apply (test_name s) in Hn; [|done..]. by rewrite (Hall i d Hl) in Hn. }
    destruct Hr as [[? _]|[(_ & k & Hk & ->)|(_ & Hact & ->)]]; [lia| |].
    + rewrite Z.add_0_l. destruct (Z.ltb_spec (Z.of_nat k) 0); [lia|]. steps. rewrite Nat2Z.id.
      destruct Hk as [(d & Hkd & Had) Hlt].
      rewrite (alter_slot _ _ _ _ d Hkd). simpl. rewrite (take_ge nm) by
        (destruct Hnm; unfold VFS_DEV_MAX_NAMEL in *; simpl; lia).
      assert (forall l, set_devices l (set_device_lock false (set_device_lock true s)) =
        set_devices l s) as Hset by (intros l; by rewrite Hrel).
      match goal with |- dev_inv ?x /\ _ =>
        change x with (set_devices (<[k := new_device p nm vops fops priv k]> (devices s))
                         (set_device_lock false (set_device_lock true s))) end.
      rewrite Hset. split; [by eapply insert_device_inv|]. right. split; [done|]. right.
      exists k. by repeat split; eauto.
    + simpl. steps. rewrite Hrel. split; [done|]. right. split; [done|]. by left.
Qed.

(** What devfs lists it also finds.  [devfs_getdirent] gives the active
    devices in the order of their slots and 0 past the last one; looking the
    listed name up in the root directory consumes the whole path and gives the
    listed inode.  The names [""] and ["/"] denote the root itself. *)
Theorem devfs_lists_devices s k resp :
  dev_inv s -> 0 <= k ->
  wp (devfs_getdirent DEVFS_INODE_ROOT k) s (fun '(r, e) s' => s' = s /\
    match actives s !! Z.to_nat k with
    | None => r = 0 /\ e = None
    | Some d => r = 1 /\ e = Some {| d_ino := id d; d_name := name d |} /\
        (name d <> [] -> name d <> [47] ->
         wp (devfs_lookup (47 :: name d) resp) s (fun '(r', res) s'' => s'' = s /\ r' = 0 /\
           res = {| res_ret := RES_OK; processed := 1 + Z.of_nat (length (name d));
                    res_dev := id d; res_inode := id d |}))
    end).
Proof.
  intros Hs Hk. pose proof Hs as (Hlock & _ & Hlen & Hid & Huniq).
  unfold devfs_getdirent, device_get_from_index. cbn [Z.eqb negb].
  assert (length (actives s) <= 255)%nat as Hmax.
  { rewrite <-Hlen. apply length_filter. }
  destruct (Z.gtb_spec k VFS_MAX_DEVICE) as [Hbig|Hsmall]; rewrite ?orb_true_r, ?orb_false_r.
  { rewrite (lookup_ge_None_2 (actives s)) by (unfold VFS_MAX_DEVICE in *; lia). by steps. }
  destruct (Z.ltb_spec k 0); [lia|]. apply wp_bind, wp_bind, wp_lock; [done|].
  apply wp_bind, wp_get, wp_bind, wp_unlock, wp_ret. simpl. rewrite nth_active_ok by done.
  assert (set_device_lock false (set_device_lock true s) = s) as -> by (destruct s; simpl in *; by subst).
  change (filter _ (devices s)) with (actives s).
  destruct (actives s !! Z.to_nat k) as [d|] eqn:Hd; [|by step]. step. split; [done|].
  split; [done|]. destruct (actives_slot s d) as [i Hi]; [by eapply list_elem_of_lookup_2|].
  destruct (Hid i d Hi) as [Hidd [Hstr Hshort]].
  assert (i < 255)%nat as Hi255 by (rewrite <-Hlen; eapply lookup_lt_Some, Hi).
  rewrite u32_small by lia. rewrite take_ge by (unfold VFS_DEV_MAX_NAMEL in *; simpl; lia).
  split; [done|]. intros Hne1 Hne2. unfold devfs_lookup. simpl.
  destruct (streq (name d) []) eqn:He1; [apply streq_spec in He1; [done|done|constructor]|].
  destruct (streq (name d) [47]) eqn:He2.
  { apply streq_spec in He2; [done|done|]. repeat constructor; unfold is_char; lia. }
  simpl. destruct (Z.gtb_spec (Z.of_nat (length (name d))) VFS_DEV_MAX_NAMEL); [lia|].
  apply wp_bind. eapply wp_mono; [by apply get_from_name_ok|].
  intros r s' [-> [(j & e & [Hj Hnj] & ->)|[Hno _]]]; [|by destruct (Hno i d)].
  assert (j = i) as -> by (eapply Huniq; [done|exact Hi|done]).
  destruct (Z.ltb_spec (Z.of_nat i) 0); [lia|]. step. split; [done|]. split; [done|].
  rewrite u32_small by lia. by rewrite Hidd.
Qed.

(** [device_destroy] frees the slot of the caller's own device. *)
Lemma device_destroy_frees s p i d :
  dev_inv s -> in_slot s i d ->
  wp (device_destroy p (Z.of_nat i)) s (fun r s' => dev_inv s' /\
    if pid d =? p then r = 0 /\ (forall j e, in_slot s' j e <-> j <> i /\ in_slot s j e)
    else r = - EINVAL /\ s' = s).
Proof.
  intros Hs Hi. pose proof Hs as (Hlock & Hlock' & Hlen & Hid & Huniq). destruct Hi as [Hi Ha].
  assert (i < 255)%nat by (rewrite <-Hlen; by eapply lookup_lt_Some).
  unfold device_destroy. destruct (Z.ltb_spec (Z.of_nat i) 0); [lia|].
  rewrite Z.geb_leb. destruct (Z.leb_spec VFS_MAX_DEVICE (Z.of_nat i)); [unfold VFS_MAX_DEVICE in *; lia|].
  apply wp_bind, wp_get. rewrite Nat2Z.id, Hi, Ha. destruct (pid d =? p); simpl; [|by step].
  apply wp_bind, wp_lock; [done|]. steps.
  match goal with |- dev_inv ?x /\ _ => set (s' := x) end.
  assert (forall j e, in_slot s' j e <-> j <> i /\ in_slot s j e) as Hslot.
  { intros j e. unfold in_slot, s'. simpl. destruct (decide (j = i)) as [->|Hne].
    - rewrite list_lookup_insert_eq by (by eapply lookup_lt_Some).
      split; [intros [? ?]; by simplify_eq/=|by intros []].
    - rewrite list_lookup_insert_ne by done. split; [done|by intros []]. }
  split; [|done]. split; [done|]. split; [done|]. split; [simpl; by rewrite length_insert|]. split.
  - intros j e [_ He]%Hslot. by apply Hid.
  - intros j k e f [_ He]%Hslot [_ Hf]%Hslot. by apply Huniq.
Qed.

(** ** Examples *)

Definition free_slot : device :=
  {| name := []; active := false; id := 0; pid := 0; ops := 0; f_ops := 0; private := 0 |}.
Definition tty0 : device := new_device 3 [116; 116; 121; 48] 9 500 0 1.

(** Only slot 1 is taken, by the device tty0. *)
Definition sample_devs : devs := {|
  device_lock := false;
  devices := free_slot :: tty0 :: replicate 253 free_slot;
  devfs_lock := false;
  mounted := false |}.

Lemma sample_slot i d : in_slot sample_devs i d -> i = 1%nat /\ d = tty0.
Proof.
  intros [Hi Ha]. destruct i as [|[|i]]; cbn [sample_devs devices lookup list_lookup] in Hi.
  - by simplify_eq.
  - by simplify_eq.
  - change (replicate 253 free_slot !! i = Some d) in Hi.
    apply lookup_replicate in Hi as [-> _]. done.
Qed.

Lemma sample_devs_inv : dev_inv sample_devs.
Proof.
  repeat (split; [done|]). split.
  - intros i d [-> ->]%sample_slot. split; [done|]. split; [|done].
    repeat constructor; unfold is_char; lia.
  - by intros i j d e [-> ->]%sample_slot [-> ->]%sample_slot.
Qed.

Lemma device_create_registers_witness :
  wp (device_create 4 [107; 98; 100] 9 600 0) sample_devs (fun r s' => dev_inv s' /\
    (((exists i d, named sample_devs [107; 98; 100] i d) /\ r = - EEXIST /\ s' = sample_devs) \/
     ((forall i d, ~ named sample_devs [107; 98; 100] i d) /\
      (((forall i d, devices sample_devs !! i = Some d -> active d = true) /\
        r = - EBUSY /\ s' = sample_devs) \/
       (exists i, first_free (devices sample_devs) i /\ r = Z.of_nat i /\
          s' = set_devices (<[i := new_device 4 [107; 98; 100] 9 600 0 i]> (devices sample_devs))
                 sample_devs))))).
Proof.
  apply (device_create_registers 4 [107; 98; 100] 9 600 0 sample_devs); [apply sample_devs_inv|].
  split; [|done]. repeat constructor; unfold is_char; lia.
Defined.

Lemma devfs_lists_devices_witness :
  wp (devfs_getdirent DEVFS_INODE_ROOT 0) sample_devs (fun '(r, e) s' => s' = sample_devs /\
    r = 1 /\ e = Some {| d_ino := 1; d_name := [116; 116; 121; 48] |} /\
    ([116; 116; 121; 48] <> [] -> [116; 116; 121; 48] <> [47] ->
     wp (devfs_lookup [47; 116; 116; 121; 48]
           no_answer) sample_devs
       (fun '(r', res) s'' => s'' = sample_devs /\ r' = 0 /\
          res = {| res_ret := RES_OK; processed := 5; res_dev := 1; res_inode := 1 |}))).
Proof.
  apply (devfs_lists_devices sample_devs 0 no_answer);
    [apply sample_devs_inv|lia].
Defined.

(** A name of 15 characters loses its last one, so it can be registered twice and
    is not found. *)
Lemma device_long_names :
  let nm := replicate 15 97 in
  wp (let! a := device_create 4 nm 9 600 0 in
      let! b := device_create 4 nm 9 600 0 in
      let! c := device_get_from_name nm in
      ret (a, b, c)) sample_devs (fun r _ => r = (0, 2, - ENODEV)).
Proof. cbv zeta. by wp_eval. Qed.

End Device.
