(* ===== verification/Fs.v ===== *)
(** File system types, mounts and path lookup: kernel/core/fs/vfs/fs.c,
    kernel/core/fs/vfs/mount.c and kernel/core/fs/ops/ (lookup.c, mkdir.c,
    mknod.c, stat.c).

    A file system driver is known through tables of callbacks.  [FsDriver] gives
    the tables behind the table pointers; a callback acts on the driver's own
    state [W], which the kernel does not look at.  File systems and their
    instances are structures known by their address, a mount entry is known by
    its index.  Strings are lists of characters without their terminator. *)

From S2P Require Import Prelude KHeap KString Kmalloc Device.

Module Fs.
Import Device.

Definition VFS_FS_MAX_NAMEL : Z := 15.
Definition MAX_MOUNTED_PATH : nat := 5.
Definition sizeof_fs : Z := 60.
Definition sizeof_fs_instance : Z := 16.

(** Conversion to [int16_t]. *)
Definition s16 (x : Z) : Z := (x + 2 ^ 15) mod 2 ^ 16 - 2 ^ 15.
Lemma s16_small x : - 2 ^ 15 <= x < 2 ^ 15 -> s16 x = x.
Proof. intros Hx. unfold s16. rewrite Z.mod_small; lia. Qed.

(** [struct fs_operation]; callbacks get the index of the mount entry. *)
Record fs_operation (W : Type) := {
  fo_lookup : option (nat -> list Z -> Z -> Z -> resp_lookup -> M W (Z * resp_lookup));
  fo_mkdir : option (nat -> list Z -> Z -> Z -> Z -> Z -> M W Z);
  fo_mknod : option (nat -> list Z -> Z -> Z -> Z -> Z -> Z -> M W Z);
  fo_stat : option (nat -> Z -> Z -> Z -> M W (Z * option stat));
  fo_mount : option (nat -> Z -> Z -> M W Z);
  fo_getdirent : option (nat -> Z -> Z -> M W (Z * option dirent));
}.
Arguments fo_lookup {W}. Arguments fo_mkdir {W}. Arguments fo_mknod {W}.
Arguments fo_stat {W}. Arguments fo_mount {W}. Arguments fo_getdirent {W}.

(** [struct fs_super_operation]: [create] gets the private data of the file
    system, the device and the mount point, and gives the private data of the
    new instance. *)
Record fs_super_operation (W : Type) := {
  so_create : option (Z -> list Z -> list Z -> M W (Z * Z));
}.
Arguments so_create {W}.

Class FsDriver (W : Type) := {
  super_ops_at : Z -> option (fs_super_operation W);
  fs_ops_at : Z -> option (fs_operation W);
}.

Record fs := {
  fs_name : list Z;
  fs_pid : Z;
  fs_super_ops : Z;
  fs_ops : Z;
  fs_f_ops : Z;
  fs_private : Z;
  fs_inst_lock : bool;
  instances : list Z;
}.

Record fs_instance := { parent : Z; fi_private : Z }.

(** [path] is [None] for the null pointer. *)
Record mount_entry := { used : bool; path : option (list Z); fi : Z }.

(** The calling thread; no thread for a request of the kernel. *)
Record thread_ids := { t_uid : Z; t_gid : Z }.
Definition uid_of (t : option thread_ids) : Z := match t with None => 0 | Some t => t_uid t end.
Definition gid_of (t : option thread_ids) : Z := match t with None => 0 | Some t => t_gid t end.

(** [!strncmp(a, b, VFS_FS_MAX_NAMEL)] *)
Definition same_fs_name (a b : list Z) : bool :=
  cmp_chars (take 15 (a ++ [0])) (take 15 (b ++ [0])) =? 0.

Section ops.
Context {H : Type} `{KHeap H} {W : Type} `{FsDriver W}.

Record fsys := {
  fs_lock : bool;
  fs_list : list Z;
  fss : gmap Z fs;
  insts : gmap Z fs_instance;
  mount_lock : bool;
  mounts : list mount_entry;
  kheap : H;
  world : W;
}.

Definition set_fs_lock (b : bool) (s : fsys) : fsys :=
  {| fs_lock := b; fs_list := fs_list s; fss := fss s; insts := insts s;
     mount_lock := mount_lock s; mounts := mounts s; kheap := kheap s; world := world s |}.
Definition set_fs_list (l : list Z) (s : fsys) : fsys :=
  {| fs_lock := fs_lock s; fs_list := l; fss := fss s; insts := insts s;
     mount_lock := mount_lock s; mounts := mounts s; kheap := kheap s; world := world s |}.
Definition set_fss (m : gmap Z fs) (s : fsys) : fsys :=
  {| fs_lock := fs_lock s; fs_list := fs_list s; fss := m; insts := insts s;
     mount_lock := mount_lock s; mounts := mounts s; kheap := kheap s; world := world s |}.
Definition set_insts (m : gmap Z fs_instance) (s : fsys) : fsys :=
  {| fs_lock := fs_lock s; fs_list := fs_list s; fss := fss s; insts := m;
     mount_lock := mount_lock s; mounts := mounts s; kheap := kheap s; world := world s |}.
Definition set_mount_lock (b : bool) (s : fsys) : fsys :=
  {| fs_lock := fs_lock s; fs_list := fs_list s; fss := fss s; insts := insts s;
     mount_lock := b; mounts := mounts s; kheap := kheap s; world := world s |}.
Definition set_mounts (l : list mount_entry) (s : fsys) : fsys :=
  {| fs_lock := fs_lock s; fs_list := fs_list s; fss := fss s; insts := insts s;
     mount_lock := mount_lock s; mounts := l; kheap := kheap s; world := world s |}.
Definition set_kheap (h : H) (s : fsys) : fsys :=
  {| fs_lock := fs_lock s; fs_list := fs_list s; fss := fss s; insts := insts s;
     mount_lock := mount_lock s; mounts := mounts s; kheap := h; world := world s |}.
Definition set_world (w : W) (s : fsys) : fsys :=
  {| fs_lock := fs_lock s; fs_list := fs_list s; fss := fss s; insts := insts s;
     mount_lock := mount_lock s; mounts := mounts s; kheap := kheap s; world := w |}.

(** Dereference through a pointer. *)
Definition deref {A} (o : fsys -> option A) : M fsys A := fun s =>
  match o s with Some a => Done (a, s) | None => Undef end.

(** ** File systems *)

Definition fs_initialize : M fsys Z :=
  spinlock_unlock set_fs_lock ;;;
  modify (set_fs_list []) ;;;
  ret 0.

Fixpoint find_fs (l : list Z) (nm : list Z) : M fsys Z :=
  match l with
  | [] => ret 0
  | a :: l =>
      let! f := deref (fun s => fss s !! a) in
      if same_fs_name (fs_name f) nm then ret a else find_fs l nm
  end.
Definition fs_from_name_nolock (nm : list Z) : M fsys Z :=
  let! s := get in find_fs (fs_list s) nm.

Definition fs_from_name (nm : list Z) : M fsys Z :=
  spinlock_lock fs_lock set_fs_lock ;;;
  let! f := fs_from_name_nolock nm in
  spinlock_unlock set_fs_lock ;;;
  ret f.

Definition fs_register (nm : list Z) (p sup_ops ops f_ops priv : Z) : M fsys Z :=
  let! so := deref (fun _ => super_ops_at sup_ops) in
  match so_create so with
  | None => ret (- EINVAL)
  | Some _ =>
      let! f := zoom kheap set_kheap (kmalloc sizeof_fs) in
      if f =? 0 then ret (- ENOMEM)
      else
        modify (fun s => set_fss (<[f :=
          {| fs_name := take (Z.to_nat (VFS_FS_MAX_NAMEL - 1)) nm; fs_pid := p;
             fs_super_ops := sup_ops; fs_ops := ops; fs_f_ops := f_ops; fs_private := priv;
             fs_inst_lock := false; instances := [] |}]> (fss s)) s) ;;;
        spinlock_lock fs_lock set_fs_lock ;;;
        let! other := fs_from_name_nolock nm in
        if negb (other =? 0) then
          zoom kheap set_kheap (kfree f) ;;;
          modify (fun s => set_fss (delete f (fss s)) s) ;;;
          spinlock_unlock set_fs_lock ;;;
          ret (- EEXIST)
        else
          modify (fun s => set_fs_list (f :: fs_list s) s) ;;;
          spinlock_unlock set_fs_lock ;;;
          ret 0
  end.

Definition fs_unregister (nm : list Z) (p : Z) : M fsys Z :=
  spinlock_lock fs_lock set_fs_lock ;;;
  let! a := fs_from_name_nolock nm in
  if a =? 0 then
    spinlock_unlock set_fs_lock ;;;
    ret (- ENOENT)
  else
    let! f := deref (fun s => fss s !! a) in
    if negb (fs_pid f =? p) then
      spinlock_unlock set_fs_lock ;;;
      ret (- EPERM)
    else
      modify (fun s => set_fs_list (filter (fun x => x <> a) (fs_list s)) s) ;;;
      spinlock_unlock set_fs_lock ;;;
      zoom kheap set_kheap (kfree a) ;;;
      modify (fun s => set_fss (delete a (fss s)) s) ;;;
      ret 0.

Definition with_instances (l : list Z) (f : fs) : fs :=
  {| fs_name := fs_name f; fs_pid := fs_pid f; fs_super_ops := fs_super_ops f; fs_ops := fs_ops f;
     fs_f_ops := fs_f_ops f; fs_private := fs_private f; fs_inst_lock := fs_inst_lock f;
     instances := l |}.
Definition with_inst_lock (b : bool) (f : fs) : fs :=
  {| fs_name := fs_name f; fs_pid := fs_pid f; fs_super_ops := fs_super_ops f; fs_ops := fs_ops f;
     fs_f_ops := fs_f_ops f; fs_private := fs_private f; fs_inst_lock := b;
     instances := instances f |}.

(** [spinlock_lock(&fs->lock)] and [spinlock_unlock(&fs->lock)] *)
Definition lock_fs (a : Z) : M fsys unit :=
  let! f := deref (fun s => fss s !! a) in
  if fs_inst_lock f then (fun _ => Spin)
  else modify (fun s => set_fss (<[a := with_inst_lock true f]> (fss s)) s).
Definition unlock_fs (a : Z) : M fsys unit :=
  let! f := deref (fun s => fss s !! a) in
  modify (fun s => set_fss (<[a := with_inst_lock false f]> (fss s)) s).

(** The result and the new instance. *)
Definition fs_new_instance (nm device mount_pt : list Z) : M fsys (Z * Z) :=
  let! a := fs_from_name nm in
  if a =? 0 then ret (- ENOENT, 0)
  else
    let! instance := zoom kheap set_kheap (kmalloc sizeof_fs_instance) in
    if instance =? 0 then ret (- ENOMEM, 0)
    else
      let! f := deref (fun s => fss s !! a) in
      let! so := deref (fun _ => super_ops_at (fs_super_ops f)) in
      let! create := deref (fun _ => so_create so) in
      let! x := zoom world set_world (create (fs_private f) device mount_pt) in
      if x.1 <? 0 then
        zoom kheap set_kheap (kfree instance) ;;;
        ret (x.1, 0)
      else
        modify (fun s => set_insts (<[instance := {| parent := a; fi_private := x.2 |}]> (insts s)) s) ;;;
        lock_fs a ;;;
        let! f := deref (fun s => fss s !! a) in
        modify (fun s => set_fss (<[a := with_instances (instance :: instances f) f]> (fss s)) s) ;;;
        unlock_fs a ;;;
        ret (0, instance).

Definition fs_del_instance (instance : Z) : M fsys unit :=
  let! i := deref (fun s => insts s !! instance) in
  lock_fs (parent i) ;;;
  let! f := deref (fun s => fss s !! parent i) in
  modify (fun s => set_fss (<[parent i :=
    with_instances (filter (fun x => x <> instance) (instances f)) f]> (fss s)) s) ;;;
  unlock_fs (parent i) ;;;
  zoom kheap set_kheap (kfree instance) ;;;
  modify (fun s => set_insts (delete instance (insts s)) s).

(** ** Mounts *)

(** [!strcmp(mounts[i].path, p)]; the path of a used entry may not be null. *)
Fixpoint check_loop (l : list mount_entry) (i mount_nb : Z) (p : list Z) : M fsys Z :=
  match l with
  | [] => ret (if mount_nb =? -1 then - ENOMEM else mount_nb)
  | m :: l =>
      if negb (used m) then check_loop l (i + 1) (if mount_nb =? -1 then i else mount_nb) p
      else
        match path m with
        | None => undef
        | Some q => if streq q p then ret (- EBUSY) else check_loop l (i + 1) mount_nb p
        end
  end.

Definition set_entry_used (b : bool) (nb : nat) (s : fsys) : fsys :=
  set_mounts (alter (fun m => {| used := b; path := path m; fi := fi m |}) nb (mounts s)) s.

Definition vfs_check_mounts (mount_path : list Z) : M fsys Z :=
  spinlock_lock mount_lock set_mount_lock ;;;
  let! s := get in
  let! r := check_loop (mounts s) 0 (-1) mount_path in
  if r <? 0 then
    spinlock_unlock set_mount_lock ;;;
    ret r
  else
    modify (set_entry_used true (Z.to_nat r)) ;;;
    spinlock_unlock set_mount_lock ;;;
    ret r.

(** The entries are known by their index. *)
Definition vfs_root_get : nat := 0.

Fixpoint mount_pt_loop (l : list mount_entry) (i : nat) (p : list Z) : M fsys (option nat) :=
  match l with
  | [] => ret None
  | m :: l =>
      if used m then
        match path m with
        | None => undef
        | Some q => if streq p q then ret (Some i) else mount_pt_loop l (S i) p
        end
      else mount_pt_loop l (S i) p
  end.
Definition vfs_mount_pt_get (p : list Z) : M fsys (option nat) :=
  let! s := get in mount_pt_loop (mounts s) 0 p.

(** [mount_pt->fi->parent->fs_ops] *)
Definition fs_ops_of_mount (i : nat) : M fsys (fs_operation W) :=
  let! m := deref (fun s => mounts s !! i) in
  let! x := deref (fun s => insts s !! fi m) in
  let! f := deref (fun s => fss s !! parent x) in
  deref (fun _ => fs_ops_at (fs_ops f)).

(** ** Lookup *)

(** [int path_len = strlen(path)] *)
Definition path_len (p : list Z) : Z := s32 (Z.of_nat (length p)).

(** The loop of [vfs_lookup] without the copy of the path: the result, the
    response and the mount entry. *)
Fixpoint lookup_loop (fuel : nat) (p : list Z) (u g : Z) (root : option nat) (done : Z)
    (res : resp_lookup) : M fsys (Z * resp_lookup * option nat) :=
  match fuel with
  | O => fun _ => Spin
  | S fuel =>
      match root with
      | None => ret (- ENOENT, res, None)
      | Some i =>
          let! m := deref (fun s => mounts s !! i) in
          if negb (used m) then ret (- ENOENT, res, None)
          else
            let! ops := fs_ops_of_mount i in
            match fo_lookup ops with
            | None => ret (- ENOSYS, res, None)
            | Some lookup =>
                let! x := zoom world set_world (lookup i (drop (Z.to_nat done) p) u g res) in
                let r := x.1 in
                let res := x.2 in
                if r <? 0 then ret (r, res, None)
                else
                  let done := s32 (done + processed res) in
                  if (done =? 0) || (done >? path_len p) then ret (- EBADE, res, None)
                  else if (res_ret res =? RES_OK) || (res_ret res =? RES_KO) then
                    ret (done, {| res_ret := res_ret res; processed := s16 done; res_dev := res_dev res;
                                  res_inode := res_inode res |}, Some i)
                  else if processed res <? 0 then undef
                  else
                    let! root := vfs_mount_pt_get (take (Z.to_nat (processed res)) p) in
                    lookup_loop fuel p u g root done res
            end
      end
  end.

Definition vfs_lookup (fuel : nat) (t : option thread_ids) (p : list Z) (res : resp_lookup)
    : M fsys (Z * resp_lookup * option nat) :=
  let! copied_path := zoom kheap set_kheap (kmalloc (u32 (s32 (path_len p + 1)))) in
  if copied_path =? 0 then ret (- ENOMEM, res, None)
  else
    let! x := lookup_loop fuel p (uid_of t) (gid_of t) (Some vfs_root_get) 0 res in
    zoom kheap set_kheap (kfree copied_path) ;;;
    ret x.

(** An uninitialised [struct resp_lookup] on the stack. *)
Variable garbage : resp_lookup.

Definition do_mount (fuel : nat) (t : option thread_ids) (mount_path : list Z) (mount_nb : Z)
    : M fsys Z :=
  let! x := vfs_lookup fuel t mount_path garbage in
  let '(r, res, mount_pt) := x in
  if r <? 0 then ret r
  else
    let! i := deref (fun _ => mount_pt) in
    let! ops := fs_ops_of_mount i in
    match fo_mount ops with
    | None => ret (- ENOSYS)
    | Some mount =>
        if negb (r =? Z.of_nat (length mount_path)) then ret (- ENOENT)
        else zoom world set_world (mount i (res_inode res) mount_nb)
    end.

Definition set_entry_path (p : list Z) (nb : nat) (s : fsys) : fsys :=
  set_mounts (alter (fun m => {| used := used m; path := Some p; fi := fi m |}) nb (mounts s)) s.
Definition set_entry_fi (a : Z) (nb : nat) (s : fsys) : fsys :=
  set_mounts (alter (fun m => {| used := used m; path := path m; fi := a |}) nb (mounts s)) s.

Definition vfs_mount (fuel : nat) (t : option thread_ids) (nm device mount_pt : list Z) : M fsys Z :=
  let! f := fs_from_name nm in
  if f =? 0 then ret (- EINVAL)
  else
    let! mount_nb := vfs_check_mounts mount_pt in
    if mount_nb <? 0 then ret mount_nb
    else
      let nb := Z.to_nat mount_nb in
      let! x := fs_new_instance nm device mount_pt in
      if x.1 <? 0 then
        modify (set_entry_used false nb) ;;;
        ret x.1
      else
        let! r := if negb (mount_nb =? 0) then do_mount fuel t mount_pt mount_nb else ret 0 in
        if r <? 0 then
          modify (set_entry_used false nb) ;;;
          ret r
        else
          let! q := zoom kheap set_kheap (kmalloc (u32 (Z.of_nat (length mount_pt) + 1))) in
          if q =? 0 then
            modify (set_entry_used false nb) ;;;
            ret (- ENOMEM)
          else
            modify (set_entry_path mount_pt nb) ;;;
            modify (set_entry_fi x.2 nb) ;;;
            ret 0.

(** ** Operations on paths *)

Definition vfs_mkdir (fuel : nat) (t : option thread_ids) (p : list Z) (mode : Z) : M fsys Z :=
  let! x := vfs_lookup fuel t p garbage in
  let '(r, res, mount_pt) := x in
  if r <? 0 then ret r
  else
    let! i := deref (fun _ => mount_pt) in
    let! ops := fs_ops_of_mount i in
    match fo_mkdir ops with
    | None => ret (- ENOSYS)
    | Some mkdir =>
        if r =? Z.of_nat (length p) then ret (- EEXIST)
        else zoom world set_world (mkdir i (drop (Z.to_nat r) p) (res_inode res) (uid_of t) (gid_of t) mode)
    end.

Definition vfs_mknod (fuel : nat) (t : option thread_ids) (p : list Z) (mode dev : Z) : M fsys Z :=
  let! x := vfs_lookup fuel t p garbage in
  let '(r, res, mount_pt) := x in
  if r <? 0 then ret r
  else
    let! i := deref (fun _ => mount_pt) in
    let! ops := fs_ops_of_mount i in
    match fo_mknod ops with
    | None => ret (- ENOSYS)
    | Some mknod =>
        if r =? Z.of_nat (length p) then ret (- EEXIST)
        else zoom world set_world
               (mknod i (drop (Z.to_nat r) p) (res_inode res) (uid_of t) (gid_of t) mode (u16 dev))
    end.

Definition vfs_stat (fuel : nat) (t : option thread_ids) (p : list Z) : M fsys (Z * option stat) :=
  let! x := vfs_lookup fuel t p garbage in
  let '(r, res, mount_pt) := x in
  if r <? 0 then ret (r, None)
  else if negb (Z.of_nat (length p) =? processed res) then ret (- ENOENT, None)
  else
    let! i := deref (fun _ => mount_pt) in
    let! ops := fs_ops_of_mount i in
    match fo_stat ops with
    | None => ret (- ENOSYS, None)
    | Some stat => zoom world set_world (stat i (uid_of t) (gid_of t) (res_inode res))
    end.

(** ** Lookup always returns *)

Implicit Types s : fsys.

(** A mount entry that is not in use, or complete: its path is not empty, and it
    leads to a table of operations. *)
Definition entry_ok s (m : mount_entry) : Prop :=
  used m = true ->
  (exists q, path m = Some q /\ is_string q /\ q <> []) /\
  exists x f ops, insts s !! fi m = Some x /\ fss s !! parent x = Some f /\
    fs_ops_at (fs_ops f) = Some ops.

Definition mounts_ok s : Prop :=
  (0 < length (mounts s))%nat /\ Forall (entry_ok s) (mounts s).

(** The answer sends the lookup on to a mount point. *)
Definition enters (x : Z * resp_lookup) : Prop :=
  0 <= x.1 /\ res_ret x.2 <> RES_OK /\ res_ret x.2 <> RES_KO.

(** What the kernel relies on in a driver, in the states [I] it keeps itself in:
    [lookup] returns, does not count less than nothing when it stops at a mount point
    (the kernel uses the count as an index then), and on success gives a device and an
    inode of which [P] holds. *)
Definition driver_counts (I : W -> Prop) (P : Z -> Z -> W -> Prop) : Prop :=
  forall a ops lookup, fs_ops_at a = Some ops -> fo_lookup ops = Some lookup ->
  forall i p u g res w, I w -> is_string p -> wp (lookup i p u g res) w (fun x w' => I w' /\
    - 2 ^ 15 <= processed x.2 < 2 ^ 15 /\ (enters x -> 0 <= processed x.2) /\ (0 <= x.1 -> P (res_dev x.2) (res_inode x.2) w')).

Lemma entry_ok_world s w m : entry_ok s m -> entry_ok (set_world w s) m.
Proof. done. Qed.

Lemma mounts_ok_world s w : mounts_ok s -> mounts_ok (set_world w s).
Proof. done. Qed.

Lemma wp_fs_deref {A B} (o : fsys -> option A) (k : A -> M fsys B) s a Q :
  o s = Some a -> wp (k a) s Q -> wp (bind (deref o) k) s Q.
Proof. intros Ho Hk. apply wp_bind. unfold wp, deref. by rewrite Ho. Qed.

Lemma fs_ops_of_mount_ok s i m :
  mounts_ok s -> mounts s !! i = Some m -> used m = true ->
  exists a ops, fs_ops_at a = Some ops /\
    wp (fs_ops_of_mount i) s (fun o s' => o = ops /\ s' = s).
Proof.
  intros [_ Hall] Hm Hu. rewrite Forall_forall in Hall.
  destruct (Hall m) as (_ & x & f & ops & Hx & Hf & Ho);
    [by eapply list_elem_of_lookup_2|done|].
  exists (fs_ops f), ops. split; [done|]. unfold fs_ops_of_mount.
  eapply wp_fs_deref; [done|]. eapply wp_fs_deref; [done|]. eapply wp_fs_deref; [done|].
  unfold wp, deref. by rewrite Ho.
Qed.

(** The first entry in use whose path is [p]. *)
Definition mounted_at (l : list mount_entry) (p : list Z) (r : option nat) : Prop :=
  match r with
  | None => forall k m, l !! k = Some m -> used m = true -> path m <> Some p
  | Some j => (exists m, l !! j = Some m /\ used m = true /\ path m = Some p) /\
      forall k m, (k < j)%nat -> l !! k = Some m -> used m = true -> path m <> Some p
  end.

Lemma mounted_at_cons l p r m :
  (used m = true -> path m <> Some p) -> mounted_at l p r -> mounted_at (m :: l) p (S <$> r).
Proof.
  intros Hm Hr. destruct r as [j|]; simpl in *.
  - destruct Hr as [Hj Hmin]. split; [done|].
    intros [|k] m' Hlt Hk; [by simplify_eq/=|apply (Hmin k); [lia|done]].
  - intros [|k] m' Hk; [by simplify_eq/=|by apply (Hr k)].
Qed.

Lemma mount_pt_loop_ok s p l : forall i,
  Forall (entry_ok s) l -> is_string p ->
  wp (mount_pt_loop l i p) s (fun r s' => s' = s /\
    exists r', r = Nat.add i <$> r' /\ mounted_at l p r').
Proof.
  induction l as [|m l IH]; intros i Hl Hp; [split; [done|]; by exists None|].
  apply Forall_cons in Hl as [Hm Hl]. cbn [mount_pt_loop].
  assert ((used m = true -> path m <> Some p) ->
    wp (mount_pt_loop l (S i) p) s (fun r s' => s' = s /\
      exists r', r = Nat.add i <$> r' /\ mounted_at (m :: l) p r')) as Hskip.
  { intros Hne. eapply wp_mono; [by apply IH|]. intros r s' [-> (r' & -> & Hr')]. split; [done|].
    exists (S <$> r'). split; [|by apply mounted_at_cons]. destruct r'; simpl; f_equal; lia. }
  destruct (used m) eqn:Hu; [|by apply Hskip].
  destruct (Hm Hu) as [(q & Hq & Hsq & _) _]. rewrite Hq in *. destruct (streq p q) eqn:Heq.
  - apply streq_spec in Heq; [subst q|done..]. step. split; [done|].
    exists (Some 0%nat). split; [simpl; f_equal; lia|]. split; [by exists m|]. intros k m'. lia.
  - apply Hskip. intros _ [= ->]. by rewrite (proj2 (streq_spec p p Hp Hp)) in Heq.
Qed.

Lemma mount_pt_get_ok s p :
  mounts_ok s -> is_string p ->
  wp (vfs_mount_pt_get p) s (fun r s' => s' = s /\ mounted_at (mounts s) p r).
Proof.
  intros [_ Hs] Hp. unfold vfs_mount_pt_get. step. step.
  eapply wp_mono; [by apply mount_pt_loop_ok|]. intros r s' [-> (r' & -> & Hr)].
  split; [done|]. by destruct r'.
Qed.

Lemma mounted_at_unique l p r r' : mounted_at l p r -> mounted_at l p r' -> r = r'.
Proof.
  destruct r as [i|], r' as [j|]; simpl; intros Hi Hj; [|exfalso..|done].
  - destruct Hi as [(m & Hm & Hu & Hp) Hi], Hj as [(m' & Hm' & Hu' & Hp') Hj]. f_equal.
    destruct (Nat.lt_trichotomy i j) as [Hlt|[->|Hlt]]; [|done|].
    + by destruct (Hj i m).
    + by destruct (Hi j m').
  - destruct Hi as [(m & Hm & Hu & Hp) _]. by destruct (Hj i m).
  - destruct Hj as [(m & Hm & Hu & Hp) _]. by destruct (Hi j m).
Qed.

(** The entry [i] is in use, and [lookup] is the callback of its file system. *)
Definition answers s (i : nat)
    (lookup : nat -> list Z -> Z -> Z -> resp_lookup -> M W (Z * resp_lookup)) : Prop :=
  exists m x f ops, mounts s !! i = Some m /\ used m = true /\ insts s !! fi m = Some x /\
    fss s !! parent x = Some f /\ fs_ops_at (fs_ops f) = Some ops /\ fo_lookup ops = Some lookup.

(** One round of the loop in which the file system accepts characters. *)
Lemma lookup_loop_round fuel p u g i k res s lookup r res' w Q :
  answers s i lookup ->
  lookup i (drop (Z.to_nat k) p) u g res (world s) = Done (r, res', w) -> 0 <= r ->
  0 < k + processed res' <= Z.of_nat (length p) -> 0 <= processed res' -> Z.of_nat (length p) < 2 ^ 31 ->
  wp (if (res_ret res' =? RES_OK) || (res_ret res' =? RES_KO) then
        ret (k + processed res', {| res_ret := res_ret res'; processed := s16 (k + processed res');
                                    res_dev := res_dev res'; res_inode := res_inode res' |}, Some i)
      else let! root := vfs_mount_pt_get (take (Z.to_nat (processed res')) p) in
           lookup_loop fuel p u g root (k + processed res') res') (set_world w s) Q ->
  wp (lookup_loop (S fuel) p u g (Some i) k res) s Q.
Proof.
  intros (m & x & f & ops & Hm & Hu & Hx & Hfs & Ho & Hl) Hc Hr Hk Hp Hlen HQ. cbn [lookup_loop].
  eapply wp_fs_deref; [done|]. rewrite Hu. cbn [negb]. unfold fs_ops_of_mount.
  apply wp_bind. eapply wp_fs_deref; [done|]. eapply wp_fs_deref; [done|]. eapply wp_fs_deref; [done|].
  unfold wp at 1, deref. rewrite Ho, Hl. apply wp_bind, wp_zoom. unfold wp at 1. rewrite Hc.
  cbn [fst snd]. destruct (Z.ltb_spec r 0); [lia|]. unfold path_len. rewrite !s32_small by lia.
  destruct (Z.eqb_spec (k + processed res') 0); [lia|].
  destruct (Z.gtb_spec (k + processed res') (Z.of_nat (length p))); [lia|]. cbn [orb].
  destruct (Z.ltb_spec (processed res') 0); [lia|]. done.
Qed.

Lemma is_string_take n p : is_string p -> is_string (take n p).
Proof. apply Forall_take. Qed.

(** What the loop leaves: a failure, or the number of characters consumed and
    the entry in use that accepted the last of them. *)
Definition lookup_post (P : Z -> Z -> W -> Prop) s (p : list Z) (x : Z * resp_lookup * option nat) s'
    : Prop :=
  (exists w, s' = set_world w s) /\
  (x.1.1 < 0 \/
   (0 < x.1.1 <= Z.of_nat (length p) /\ processed x.1.2 = s16 x.1.1 /\
    P (res_dev x.1.2) (res_inode x.1.2) (world s') /\
    exists i m, x.2 = Some i /\ mounts s !! i = Some m /\ used m = true)).

Lemma lookup_post_world P s w p x s' :
  lookup_post P (set_world w s) p x s' -> lookup_post P s p x s'.
Proof. intros [[w' ->] Hr]. split; [|done]. by exists w'. Qed.

(** One more iteration than there are characters left, and one to notice that
    no entry has an empty path. *)
Lemma lookup_loop_returns I P p u g fuel : forall root k res s,
  driver_counts I P -> I (world s) -> mounts_ok s -> is_string p -> Z.of_nat (length p) < 2 ^ 31 - 2 ^ 15 ->
  0 <= k <= Z.of_nat (length p) ->
  (forall i, root = Some i -> is_Some (mounts s !! i)) ->
  Z.of_nat (length p) - k + 1 < Z.of_nat fuel \/ (root = None /\ (0 < fuel)%nat) ->
  wp (lookup_loop fuel p u g root k res) s (lookup_post P s p).
Proof.
  induction fuel as [|fuel IH]; intros root k res s Hd HI Hs Hp Hlen Hk Hroot Hf; [lia|].
  assert (forall x, x.1.1 < 0 -> lookup_post P s p x s) as Hfail.
  { intros x Hx. split; [by exists (world s); destruct s|by left]. }
  cbn [lookup_loop]. destruct root as [i|]; [|by apply Hfail].
  destruct (Hroot i eq_refl) as [m Hm]. destruct Hf as [Hf|[? _]]; [|done].
  eapply wp_fs_deref; [done|]. destruct (used m) eqn:Hu; simpl; [|by apply Hfail].
  destruct (fs_ops_of_mount_ok s i m Hs Hm Hu) as (a & ops & Ha & Hops).
  apply wp_bind. eapply wp_mono; [done|]. intros o s1 [-> ->].
  destruct (fo_lookup ops) as [lookup|] eqn:Hl; [|by apply Hfail].
  apply wp_bind, wp_zoom. eapply wp_mono; [eapply Hd; [done|done|done|by apply Forall_drop]|].
  intros [r res'] w (HI' & Hcount & Hent & HP). simpl in Hcount, HP |- *.
  destruct (Z.ltb_spec r 0); [split; [by exists w|by left]|]. unfold path_len. rewrite !s32_small by lia.
  destruct (Z.eqb_spec (k + processed res') 0); simpl; [split; [by exists w|by left]|].
  destruct (Z.gtb_spec (k + processed res') (Z.of_nat (length p))); [split; [by exists w|by left]|].
  destruct (_ || _) eqn:Hret.
  { split; [by exists w|]. destruct (Z.ltb_spec (k + processed res') 0); [by left|]. right. simpl. split; [lia|]. split; [done|]. split; [by apply HP|].
    by exists i, m. }
  apply orb_false_elim in Hret as [Hr1%Z.eqb_neq Hr2%Z.eqb_neq]. assert (0 <= processed res') as Hpos by (by apply Hent).
  destruct (Z.ltb_spec (processed res') 0); [lia|]. apply wp_bind.
  eapply wp_mono; [apply mount_pt_get_ok; [done|by apply is_string_take]|].
  intros r' s' [-> Hr']. eapply wp_mono.
  { apply IH; [done|done|done|done|done|lia| |].
    - intros j ->. simpl in Hr'. destruct Hr' as [(m' & Hm' & _) _]. by exists m'.
    - destruct r' as [j|]; [left|right; split; [done|lia]].
      destruct (Z.eq_dec (processed res') 0) as [Hz|]; [|lia].
      rewrite Hz in Hr'. destruct Hr' as [(m' & Hm' & Hu' & Hpath) _]. simpl in Hm', Hpath.
      destruct Hs as [_ Hs]. rewrite Forall_forall in Hs.
      destruct (Hs m') as [(q & Hq & _ & Hne) _]; [by eapply list_elem_of_lookup_2|done|].
      rewrite take_0 in Hpath; congruence. }
  intros x s'. apply lookup_post_world.
Qed.

(** The copy of the path is released whatever the loop gives. *)
Lemma wp_lookup fuel t p res s b Q :
  heap_ok (kheap s) -> b = 0 \/ KMALLOC_OVERHEAD < b ->
  room (kheap s) (Z.of_nat (length p) + 1 + KMALLOC_OVERHEAD + b) ->
  Z.of_nat (length p) < 2 ^ 31 - 2 ^ 15 ->
  (forall h', wp (lookup_loop fuel p (uid_of t) (gid_of t) (Some vfs_root_get) 0 res)
     (set_kheap h' s) (fun x s' => kheap s' = h' /\
       forall h2, heap_ok h2 -> live h2 = live (kheap s) -> room h2 b -> Q x (set_kheap h2 s'))) ->
  wp (vfs_lookup fuel t p res) s Q.
Proof.
  intros Hok Hb Hroom Hlen HQ. unfold vfs_lookup, path_len. rewrite !s32_small, u32_small by (rewrite ?s32_small by lia; lia).
  apply wp_bind, (wp_kmalloc_live _ _ _ _ b); [done|lia|done|done|].
  intros c h' Hok' Hc Hnone (k & _ & Hl) Hroom'. destruct (Z.eqb_spec c 0) as [|_]; [lia|].
  apply wp_bind. eapply wp_mono; [apply HQ|]. intros x s' [Hk HQ'].
  apply wp_bind, wp_kfree_live; rewrite Hk; [done|rewrite Hl, lookup_insert_eq; eauto|].
  intros h2 Hok2 Hl2 Hmono. rewrite Hl, delete_insert_id in Hl2 by done.
  apply wp_ret. apply HQ'; auto.
Qed.

(** ** Reserving a mount entry *)

Definition first_unused (l : list mount_entry) (k : nat) : Prop :=
  (exists m, l !! k = Some m /\ used m = false) /\
  forall j m, (j < k)%nat -> l !! j = Some m -> used m = true.

Lemma first_unused_cons m l k :
  used m = true -> first_unused l k -> first_unused (m :: l) (S k).
Proof.
  intros Hm [Hk Hj]. split; [done|]. intros [|j] e Hlt He; [by simplify_eq/=|].
  apply (Hj j); [lia|done].
Qed.

Lemma check_loop_ok s p l : forall i nb,
  Forall (entry_ok s) l -> is_string p -> 0 <= i -> nb = -1 \/ 0 <= nb ->
  wp (check_loop l i nb p) s (fun r s' => s' = s /\
    ((exists j, mounted_at l p (Some j) /\ r = - EBUSY) \/
     (mounted_at l p None /\
      ((nb <> -1 /\ r = nb) \/
       (nb = -1 /\ exists k, first_unused l k /\ r = i + Z.of_nat k) \/
       (nb = -1 /\ (forall k m, l !! k = Some m -> used m = true) /\ r = - ENOMEM))))).
Proof.
  induction l as [|m l IH]; intros i nb Hl Hp Hi Hnb; cbn [check_loop].
  { step. split; [done|]. right. split; [done|]. destruct (Z.eqb_spec nb (-1)); [right; right|left]; done. }
  apply Forall_cons in Hl as [Hm Hl]. destruct (used m) eqn:Hu; simpl.
  - destruct (Hm Hu) as [(q & Hq & Hsq & _) _]. rewrite Hq. destruct (streq q p) eqn:Heq.
    + apply streq_spec in Heq; [subst q|done..]. step. split; [done|]. left. exists 0%nat.
      split; [|done]. split; [by exists m|]. intros k m'. lia.
    + assert (used m = true -> path m <> Some p) as Hne.
      { intros _ Hx. rewrite Hq in Hx. injection Hx as ->. by rewrite (proj2 (streq_spec p p Hp Hp)) in Heq. }
      eapply wp_mono; [apply (IH (i + 1) nb); [done|done|lia|done]|]. intros r s' [-> Hr].
      split; [done|]. destruct Hr as [(j & Hj & ->)|[Hn Hr]].
      { left. exists (S j). split; [by apply (mounted_at_cons _ _ (Some j))|done]. }
      right. split; [by apply (mounted_at_cons _ _ None)|].
      destruct Hr as [Hr|[(-> & k & Hk & ->)|(-> & Hall & ->)]]; [by left|right; left|right; right].
      * split; [done|]. exists (S k). split; [by apply first_unused_cons|lia].
      * repeat (split; [done|]). split; [|done]. intros [|k] m' Hk; [by simplify_eq/=|by eapply Hall].
  - eapply wp_mono; [apply (IH (i + 1) (if nb =? -1 then i else nb));
      [done|done|lia|destruct (nb =? -1); lia]|].
    intros r s' [-> Hr]. split; [done|]. destruct Hr as [(j & Hj & ->)|[Hn Hr]].
    { left. exists (S j). split; [apply (mounted_at_cons _ _ (Some j)); [congruence|done]|done]. }
    right. split; [apply (mounted_at_cons _ _ None); [congruence|done]|].
    destruct (Z.eqb_spec nb (-1)) as [->|Hne].
    + destruct Hr as [[_ ->]|[[? _]|[? _]]]; [|lia..]. right. left. split; [done|].
      exists 0%nat. split; [|lia]. split; [by exists m|]. intros j m'. lia.
    + destruct Hr as [[_ ->]|[[? _]|[? _]]]; [|done..]. by left.
Qed.

(** ** The properties *)

(** The copy of the path is freed, and nothing but the state of the drivers has
    changed. *)
Lemma lookup_returns_ok I P fuel t p res s b :
  driver_counts I P -> I (world s) -> mounts_ok s -> is_string p -> Z.of_nat (length p) < 2 ^ 31 - 2 ^ 15 ->
  (length p + 1 < fuel)%nat -> heap_ok (kheap s) -> b = 0 \/ KMALLOC_OVERHEAD < b ->
  room (kheap s) (Z.of_nat (length p) + 1 + KMALLOC_OVERHEAD + b) ->
  wp (vfs_lookup fuel t p res) s (fun x s' =>
    (exists w h, s' = set_kheap h (set_world w s) /\ heap_ok h /\ live h = live (kheap s) /\
       room h b) /\
    (x.1.1 < 0 \/
     (0 < x.1.1 <= Z.of_nat (length p) /\ processed x.1.2 = s16 x.1.1 /\
      P (res_dev x.1.2) (res_inode x.1.2) (world s') /\
      exists i m, x.2 = Some i /\ mounts s !! i = Some m /\ used m = true))).
Proof.
  intros Hd HI Hs Hp Hlen Hf Hok Hb Hroom. apply (wp_lookup _ _ _ _ _ b); [done..|]. intros h'.
  eapply wp_mono; [apply (lookup_loop_returns I P); [done|done|exact Hs|done|done|lia| |left; lia]|].
  - intros i [= <-]. destruct Hs as [Hs _]. by apply lookup_lt_is_Some_2.
  - intros x s' [[w ->] Hr]. split; [done|]. intros h2 Hok2 Hl2 Hr2. split; [|done].
    by exists w, h2.
Qed.


(** A path that crosses one mount point is resolved by the file system
    mounted there: if the root file system stops at the prefix where another one
    is mounted, the rest of the path is given to that one, and its answer, with
    the characters counted from the start of the path, is the result. *)
Theorem vfs_lookup_crosses fuel t p res s j lookup0 lookup1 r0 r1 res0 res1 w0 w1 :
  heap_ok (kheap s) -> room (kheap s) (Z.of_nat (length p) + 1 + KMALLOC_OVERHEAD) ->
  Z.of_nat (length p) < 2 ^ 31 - 2 ^ 15 -> is_string p -> mounts_ok s -> (1 < fuel)%nat ->
  answers s 0 lookup0 -> answers s j lookup1 ->
  lookup0 0%nat p (uid_of t) (gid_of t) res (world s) = Done (r0, res0, w0) ->
  0 <= r0 -> res_ret res0 = RES_ENTER_MOUNT -> 0 < processed res0 ->
  mounted_at (mounts s) (take (Z.to_nat (processed res0)) p) (Some j) ->
  lookup1 j (drop (Z.to_nat (processed res0)) p) (uid_of t) (gid_of t) res0 w0 = Done (r1, res1, w1) ->
  0 <= r1 -> res_ret res1 = RES_OK -> 0 <= processed res1 ->
  processed res0 + processed res1 <= Z.of_nat (length p) ->
  wp (vfs_lookup fuel t p res) s (fun x s' =>
    x.1.1 = processed res0 + processed res1 /\ res_dev x.1.2 = res_dev res1 /\
    res_inode x.1.2 = res_inode res1 /\ x.2 = Some j /\ world s' = w1).
Proof.
  intros Hok Hroom Hlen Hp Hs Hf Ha0 Ha1 Hc0 Hr0 Hret0 Hp0 Hat Hc1 Hr1 Hret1 Hp1 Hle.
  apply (wp_lookup _ _ _ _ _ 0); [done|by left|by rewrite Z.add_0_r|done|].
  intros h'. destruct fuel as [|[|fuel]]; [lia..|].
  eapply lookup_loop_round; [exact Ha0|exact Hc0|lia..|]. rewrite Hret0. cbn [orb Z.eqb RES_OK RES_KO RES_ENTER_MOUNT].
  apply wp_bind. eapply wp_mono; [apply mount_pt_get_ok; [exact Hs|by apply is_string_take]|].
  intros r s' [-> Hr]. assert (r = Some j) as -> by (by eapply mounted_at_unique).
  eapply lookup_loop_round; [exact Ha1|exact Hc1|lia..|]. rewrite Hret1. cbn. done.
Qed.

(** [vfs_check_mounts] fails with EBUSY exactly when something is mounted at
    the path, with ENOMEM exactly when the table is full, and changes nothing
    then; otherwise it marks the first unused entry as used and returns its
    index. *)
Theorem vfs_check_mounts_reserves p s :
  mounts_ok s -> is_string p -> mount_lock s = false ->
  wp (vfs_check_mounts p) s (fun r s' =>
    ((exists j, mounted_at (mounts s) p (Some j)) /\ r = - EBUSY /\ s' = s) \/
    (mounted_at (mounts s) p None /\
     (((forall k m, mounts s !! k = Some m -> used m = true) /\ r = - ENOMEM /\ s' = s) \/
      (exists k, first_unused (mounts s) k /\ r = Z.of_nat k /\
         s' = set_entry_used true k s)))).
Proof.
  intros Hs Hp Hlock. unfold vfs_check_mounts. apply wp_bind, wp_lock; [done|].
  assert (set_mount_lock false (set_mount_lock true s) = s) as Hrel by (destruct s; simpl in *; by subst).
  apply wp_bind, wp_get, wp_bind. cbn [mounts set_mount_lock].
  eapply wp_mono; [apply (check_loop_ok (set_mount_lock true s)); [apply Hs|done|lia|by left]|].
  intros r s' [-> [(j & Hj & ->)|[Hn Hr]]].
  - simpl. steps. rewrite Hrel. left. by eauto.
  - destruct Hr as [[? _]|[(_ & k & Hk & ->)|(_ & Hall & ->)]]; [done| |].
    + rewrite Z.add_0_l. destruct (Z.ltb_spec (Z.of_nat k) 0); [lia|]. steps. rewrite Nat2Z.id.
      right. split; [done|]. right. exists k. split; [done|]. split; [done|].
      unfold set_entry_used. destruct s; simpl in *; by subst.
    + simpl. steps. rewrite Hrel. right. split; [done|]. by left.
Qed.

End ops.
Arguments fsys : clear implicits.

(** ** Examples *)

#[local] Existing Instance Kmalloc.kmalloc_kheap.

(** Three file systems mounted at [/], [/a] and [/a/b].  The first two stop at
    the mount points below them; both of the others have a file [c]. *)
Definition slash_a : list Z := [47; 97].
Definition slash_b : list Z := [47; 98].
Definition slash_c : list Z := [47; 99].

Definition sample_lookup (i : nat) (p : list Z) (u g : Z) (res : resp_lookup)
    : M unit (Z * resp_lookup) :=
  let enter := {| res_ret := RES_ENTER_MOUNT; processed := 2; res_dev := -1; res_inode := 0 |} in
  let found n := {| res_ret := RES_OK; processed := 2; res_dev := -1; res_inode := n |} in
  let none := {| res_ret := RES_KO; processed := 0; res_dev := -1; res_inode := 0 |} in
  ret match i with
      | O => if streq (take 2 p) slash_a then (0, enter) else (0, none)
      | S O => if streq (take 2 p) slash_b then (0, enter)
               else if streq (take 2 p) slash_c then (0, found 111) else (0, none)
      | _ => if streq (take 2 p) slash_c then (0, found 222) else (0, none)
      end.

Definition sample_ops : fs_operation unit :=
  {| fo_lookup := Some sample_lookup; fo_mkdir := None; fo_mknod := None; fo_stat := None;
     fo_mount := None; fo_getdirent := None |}.

#[local] Instance sample_driver : FsDriver unit := {
  super_ops_at _ := None;
  fs_ops_at a := if a =? 700 then Some sample_ops else None;
}.

Definition sample_fs : fs :=
  {| fs_name := [101; 120; 116; 50]; fs_pid := 2; fs_super_ops := 0; fs_ops := 700; fs_f_ops := 0;
     fs_private := 0; fs_inst_lock := false; instances := [501] |}.

Definition sample_entry (p : list Z) : mount_entry := {| used := true; path := Some p; fi := 501 |}.
Definition no_entry : mount_entry := {| used := false; path := None; fi := 0 |}.

Definition fs_heap : Kmalloc.heap := {|
  Kmalloc.kmalloc_lock := false;
  Kmalloc.kmalloc_head :=
    [ {| Kmalloc.bk_addr := 2000; Kmalloc.bk_ptr := 2020; Kmalloc.bk_size := 4000; Kmalloc.bk_free := true |} ];
  Kmalloc.mem := ∅ |}.

Definition sample_fsys : fsys Kmalloc.heap unit := {|
  fs_lock := false;
  fs_list := [400];
  fss := {[ 400 := sample_fs ]};
  insts := {[ 501 := {| parent := 400; fi_private := 0 |} ]};
  mount_lock := false;
  mounts := [ sample_entry [47]; sample_entry slash_a; sample_entry (slash_a ++ slash_b);
              no_entry; no_entry ];
  kheap := fs_heap;
  world := tt |}.

Lemma fs_heap_ok : heap_ok fs_heap.
Proof.
  exists 2000, 6020. split_and!; try done.
  repeat (constructor; [split; simpl; Kmalloc.blk_arith|]). constructor.
Qed.

Lemma fs_heap_room b : b <= 4000 -> room fs_heap b.
Proof. intros. right. eexists. split_and!; [apply list_elem_of_here|done|Kmalloc.blk_arith]. Qed.

Ltac string_of := repeat (constructor; [unfold is_char; lia|]); constructor.

Lemma sample_mounts_ok : mounts_ok sample_fsys.
Proof.
  split; [simpl; lia|]. repeat apply Forall_cons_2; try apply Forall_nil_2.
  all: intros Hu; try done; (split; [eexists; split; [done|split; [string_of|done]]|]).
  all: exists {| parent := 400; fi_private := 0 |}, sample_fs, sample_ops; by vm_compute.
Qed.

Lemma sample_answers i p : mounts sample_fsys !! i = Some (sample_entry p) ->
  answers sample_fsys i sample_lookup.
Proof.
  intros Hi. exists (sample_entry p), {| parent := 400; fi_private := 0 |}, sample_fs, sample_ops.
  split; [done|]. by vm_compute.
Qed.

Lemma sample_counts : driver_counts (fun _ => True) (fun d _ _ => d = -1).
Proof.
  intros a ops lookup Ha Hl. simpl in Ha. destruct (a =? 700); [|done]. simplify_eq/=.
  intros i p u g res w _ _. unfold sample_lookup, wp, ret.
  destruct i as [|[|i]]; repeat destruct (streq _ _); simpl; (split; [done|split; [lia|done]]).
Qed.


Lemma vfs_lookup_crosses_witness :
  wp (vfs_lookup 8 None (slash_a ++ slash_c) no_answer) sample_fsys (fun x s' =>
    x.1.1 = 4 /\ res_dev x.1.2 = -1 /\ res_inode x.1.2 = 111 /\ x.2 = Some 1%nat /\ world s' = tt).
Proof.
  apply (vfs_lookup_crosses 8 None (slash_a ++ slash_c) no_answer sample_fsys 1 sample_lookup sample_lookup
    0 0 {| res_ret := RES_ENTER_MOUNT; processed := 2; res_dev := -1; res_inode := 0 |}
    {| res_ret := RES_OK; processed := 2; res_dev := -1; res_inode := 111 |} tt tt).
  - apply fs_heap_ok.
  - by apply fs_heap_room.
  - simpl. lia.
  - string_of.
  - apply sample_mounts_ok.
  - lia.
  - by apply (sample_answers _ [47]).
  - by apply (sample_answers _ slash_a).
  - by vm_compute.
  - lia.
  - done.
  - simpl. lia.
  - split; [by eexists|]. intros [|k] m Hk Hm; [|lia]. by simplify_eq/=.
  - by vm_compute.
  - lia.
  - done.
  - simpl. lia.
  - simpl. lia.
Defined.

Lemma vfs_check_mounts_reserves_witness :
  wp (vfs_check_mounts slash_b) sample_fsys (fun r s' =>
    ((exists j, mounted_at (mounts sample_fsys) slash_b (Some j)) /\ r = - EBUSY /\ s' = sample_fsys) \/
    (mounted_at (mounts sample_fsys) slash_b None /\
     (((forall k m, mounts sample_fsys !! k = Some m -> used m = true) /\ r = - ENOMEM /\ s' = sample_fsys) \/
      (exists k, first_unused (mounts sample_fsys) k /\ r = Z.of_nat k /\
         s' = set_entry_used true k sample_fsys)))).
Proof.
  apply (vfs_check_mounts_reserves slash_b sample_fsys); [apply sample_mounts_ok|string_of|done].
Defined.

(** A path through two mount points is resolved by the wrong file system.
    The second mount point is searched with the characters the last file system
    consumed counted from the start of the path: [/a/b/c] gives the file [c] of
    the file system at [/a], and the one at [/a/b] is never asked. *)
Theorem vfs_lookup_nested_mounts :
  wp (vfs_lookup 8 None (slash_a ++ slash_b ++ slash_c) no_answer) sample_fsys (fun x _ =>
    x.1.1 = 6 /\ x.2 = Some 1%nat /\ res_inode x.1.2 = 111) /\
  mounted_at (mounts sample_fsys) (slash_a ++ slash_b) (Some 2%nat) /\
  sample_lookup 2 slash_c 0 0 no_answer tt =
    Done (0, {| res_ret := RES_OK; processed := 2; res_dev := -1; res_inode := 222 |}, tt).
Proof.
  split; [by wp_eval|]. split; [|by vm_compute]. split; [by eexists|].
  intros [|[|k]] m Hk Hm; [by simplify_eq/=..|lia].
Qed.

End Fs.
