(* ===== verification/File.v ===== *)
(** Open files: the file descriptors of kernel/core/proc/process.c, the inodes of
    kernel/core/fs/vfs/inode.c and kernel/core/fs/ops/ (open.c, open_device.c,
    close.c, read.c, write.c, dup.c, lseek.c, ioctl.c, getdirent.c, vfs_fstat of
    stat.c).

    The files of a process are the slots of a fixed table; a file is known by its
    process and its slot.  Inodes are counted references known by their address.
    A driver is known through its table of file operations ([FileDriver]), whose
    callbacks act on the drivers' own state; the table of devices is a part of
    that state. *)

From S2P Require Import Prelude KHeap KString Kmalloc Device Fs.

Module File.

Definition PROCESS_MAX_OPEN_FD : Z := 255.
Definition sizeof_inode : Z := 40.
Definition VFS_SEEK_SET : Z := Z.shiftl 1 0.
Definition VFS_SEEK_CUR : Z := Z.shiftl 1 1.
Definition VFS_SEEK_END : Z := Z.shiftl 1 2.

(** Null pointers are 0, a null mount entry is [None]. *)
Record file := {
  used : bool;
  f_inode : Z;
  offset : Z;
  f_ops : Z;
  private : Z;
  mount : option nat;
}.

(** The three times of an inode, set to 0 and never read, are left out. *)
Record inode := {
  mode : Z;
  uid : Z;
  gid : Z;
  ino : Z;
  dev : Z;
  isize : Z;
  ref : Z;
}.

(** The part of [struct process] that concerns files. *)
Record process := { pid : Z; files_lock : bool; files : list file }.

(** The calling thread; no thread for a request of the kernel. *)
Record thread := { t_parent : Z; t_ids : Fs.thread_ids }.
Definition uid_of (t : option thread) : Z := Fs.uid_of (t_ids <$> t).
Definition gid_of (t : option thread) : Z := Fs.gid_of (t_ids <$> t).

(** [struct req_rdwr]: inode, size and offset. *)
Record req_rdwr := { rq_inode : Z; rq_size : Z; rq_off : Z }.

(** [struct file_operation].  [open] and [dup] give the private data of the file
    with their result; [read] gives the new offset and the bytes, [write] the new
    offset, [ioctl] the new argument. *)
Record file_operation (W : Type) := {
  op_open : option (file -> Z -> Z -> Z -> Z -> Z -> Z -> M W (Z * Z));
  op_read : option (file -> Z -> req_rdwr -> M W (Z * Z * list Z));
  op_write : option (file -> Z -> req_rdwr -> list Z -> M W (Z * Z));
  op_ioctl : option (file -> Z -> Z -> option Z -> M W (Z * option Z));
  op_dup : option (file -> file -> M W (Z * Z));
  op_close : option (file -> Z -> M W Z);
}.
Arguments op_open {W}. Arguments op_read {W}. Arguments op_write {W}.
Arguments op_ioctl {W}. Arguments op_dup {W}. Arguments op_close {W}.

Class FileDriver (W : Type) := {
  f_ops_at : Z -> option (file_operation W);
  devices_of : W -> Device.devs;
  set_devices_of : Device.devs -> W -> W;
}.

Section ops.
Context {H : Type} `{KHeap H} {W : Type} `{!Fs.FsDriver W} `{!FileDriver W}.

Record state := {
  processes : list Z;
  procs : gmap Z process;
  inodes : gmap Z inode;
  fsys : Fs.fsys H W;
}.

Definition set_procs (m : gmap Z process) (s : state) : state :=
  {| processes := processes s; procs := m; inodes := inodes s; fsys := fsys s |}.
Definition set_inodes (m : gmap Z inode) (s : state) : state :=
  {| processes := processes s; procs := procs s; inodes := m; fsys := fsys s |}.
Definition set_fsys (f : Fs.fsys H W) (s : state) : state :=
  {| processes := processes s; procs := procs s; inodes := inodes s; fsys := f |}.

Definition kheap (s : state) : H := Fs.kheap (fsys s).
Definition set_kheap (h : H) (s : state) : state := set_fsys (Fs.set_kheap h (fsys s)) s.
Definition world (s : state) : W := Fs.world (fsys s).
Definition set_world (w : W) (s : state) : state := set_fsys (Fs.set_world w (fsys s)) s.

Definition deref {A} (o : state -> option A) : M state A := fun s =>
  match o s with Some a => Done (a, s) | None => Undef end.

(** Code on the devices, and the callbacks of drivers. *)
Definition on_devices {A} (m : M Device.devs A) : M state A :=
  zoom (fun s => devices_of (world s)) (fun d s => set_world (set_devices_of d (world s)) s) m.
Definition call {A} (m : M W A) : M state A := zoom world set_world m.

(** ** Inodes *)

Definition inode_new (m : Z) : M state Z :=
  let! a := zoom kheap set_kheap (kmalloc sizeof_inode) in
  if a =? 0 then ret 0
  else
    modify (fun s => set_inodes (<[a := {| mode := m; uid := 0; gid := 0; ino := 0; dev := 0;
                                           isize := 0; ref := 1 |}]> (inodes s)) s) ;;;
    ret a.

Definition with_ref (r : Z) (i : inode) : inode :=
  {| mode := mode i; uid := uid i; gid := gid i; ino := ino i; dev := dev i; isize := isize i; ref := r |}.
Definition with_ino (n : Z) (i : inode) : inode :=
  {| mode := mode i; uid := uid i; gid := gid i; ino := n; dev := dev i; isize := isize i; ref := ref i |}.
Definition with_dev (d : Z) (i : inode) : inode :=
  {| mode := mode i; uid := uid i; gid := gid i; ino := ino i; dev := d; isize := isize i; ref := ref i |}.

Definition set_inode (a : Z) (f : inode -> inode) : M state unit :=
  let! i := deref (fun s => inodes s !! a) in
  modify (fun s => set_inodes (<[a := f i]> (inodes s)) s).

Definition inode_inc (a : Z) : M state unit := set_inode a (fun i => with_ref (s32 (ref i + 1)) i).

Definition inode_del (a : Z) : M state unit :=
  set_inode a (fun i => with_ref (s32 (ref i - 1)) i) ;;;
  let! i := deref (fun s => inodes s !! a) in
  if ref i =? 0 then
    zoom kheap set_kheap (kfree a) ;;;
    modify (fun s => set_inodes (delete a (inodes s)) s)
  else ret tt.

(** ** File descriptors *)

Definition fref : Type := Z * nat.

(** Read and write through [&process->files[fd]]. *)
Definition file_at (r : fref) (s : state) : option file :=
  p ← procs s !! r.1; files p !! r.2.
Definition rd (r : fref) : M state file := deref (file_at r).
Definition with_files (l : list file) (p : process) : process :=
  {| pid := pid p; files_lock := files_lock p; files := l |}.
Definition set_file (r : fref) (f : file) (s : state) : state :=
  set_procs (alter (fun p => with_files (<[r.2 := f]> (files p)) p) r.1 (procs s)) s.
Definition wr (r : fref) (f : file -> file) : M state unit :=
  let! x := rd r in modify (set_file r (f x)).

Definition with_used (b : bool) (f : file) : file :=
  {| used := b; f_inode := f_inode f; offset := offset f; f_ops := f_ops f; private := private f; mount := mount f |}.
Definition with_inode (a : Z) (f : file) : file :=
  {| used := used f; f_inode := a; offset := offset f; f_ops := f_ops f; private := private f; mount := mount f |}.
Definition with_offset (o : Z) (f : file) : file :=
  {| used := used f; f_inode := f_inode f; offset := o; f_ops := f_ops f; private := private f; mount := mount f |}.
Definition with_f_ops (o : Z) (f : file) : file :=
  {| used := used f; f_inode := f_inode f; offset := offset f; f_ops := o; private := private f; mount := mount f |}.
Definition with_private (x : Z) (f : file) : file :=
  {| used := used f; f_inode := f_inode f; offset := offset f; f_ops := f_ops f; private := x; mount := mount f |}.
Definition with_mount (m : option nat) (f : file) : file :=
  {| used := used f; f_inode := f_inode f; offset := offset f; f_ops := f_ops f; private := private f; mount := m |}.

Definition with_lock (b : bool) (p : process) : process :=
  {| pid := pid p; files_lock := b; files := files p |}.
Definition lock_files (pa : Z) : M state unit :=
  let! p := deref (fun s => procs s !! pa) in
  if files_lock p then (fun _ => Spin)
  else modify (fun s => set_procs (<[pa := with_lock true p]> (procs s)) s).
Definition unlock_files (pa : Z) : M state unit :=
  let! p := deref (fun s => procs s !! pa) in
  modify (fun s => set_procs (<[pa := with_lock false p]> (procs s)) s).

Definition in_range (fd : Z) : bool := negb ((fd <? 0) || (fd >=? PROCESS_MAX_OPEN_FD)).

Definition process_new_fd (pa : Z) : M state Z :=
  lock_files pa ;;;
  let! p := deref (fun s => procs s !! pa) in
  match list_break (fun f => negb (used f)) (take (Z.to_nat PROCESS_MAX_OPEN_FD) (files p)) with
  | Some (before, _, _) =>
      wr (pa, length before) (with_used true) ;;;
      unlock_files pa ;;;
      ret (Z.of_nat (length before))
  | None =>
      unlock_files pa ;;;
      ret (- EMFILE)
  end.

Definition process_fd_exist (pa fd : Z) : M state bool :=
  if negb (in_range fd) then ret false
  else
    lock_files pa ;;;
    let! f := rd (pa, Z.to_nat fd) in
    unlock_files pa ;;;
    ret (used f).

(** The result and the pointer to the file. *)
Definition process_file_from_fd (pa fd : Z) : M state (Z * fref) :=
  if negb (in_range fd) then ret (- EINVAL, (pa, 0%nat))
  else
    let! f := rd (pa, Z.to_nat fd) in
    if negb (used f) then ret (- EBADF, (pa, 0%nat)) else ret (0, (pa, Z.to_nat fd)).

Definition process_free_fd (pa fd : Z) : M state unit :=
  if negb (in_range fd) then ret tt
  else
    lock_files pa ;;;
    wr (pa, Z.to_nat fd) (with_used false) ;;;
    unlock_files pa.

(** The two files may be the same slot. *)
Definition process_dup_file (f_new f_old : fref) : M state Z :=
  let! o := rd f_old in
  wr f_new (with_used (used o)) ;;;
  let! n := rd f_new in
  if negb (used n) then ret 0
  else
    wr f_new (with_inode 0) ;;;
    let! o := rd f_old in
    (if f_inode o =? 0 then ret tt
     else
       inode_inc (f_inode o) ;;;
       wr f_new (with_inode (f_inode o))) ;;;
    wr f_new (with_offset (offset o)) ;;;
    wr f_new (with_f_ops (f_ops o)) ;;;
    wr f_new (with_private (private o)) ;;;
    wr f_new (with_mount (mount o)) ;;;
    let! n := rd f_new in
    let! ops := deref (fun _ => f_ops_at (f_ops n)) in
    match op_dup ops with
    | None => ret 0
    | Some dup =>
        let! o := rd f_old in
        let! x := call (dup n o) in
        wr f_new (with_private x.2) ;;;
        if x.1 <? 0 then
          let! n := rd f_new in
          inode_del (f_inode n) ;;;
          ret x.1
        else ret 0
    end.

(** The files of a new process in [process_fork]. *)
Fixpoint inherit_files (n : nat) (child parent : Z) : M state unit :=
  match n with
  | O => ret tt
  | S n =>
      inherit_files n child parent ;;;
      process_dup_file (child, n) (parent, n) ;;;
      ret tt
  end.

(** [process_get] *)
Fixpoint find_pid (l : list Z) (n : Z) : M state Z :=
  match l with
  | [] => ret 0
  | a :: l =>
      let! p := deref (fun s => procs s !! a) in
      if pid p =? n then ret a else find_pid l n
  end.
Definition process_get (n : Z) : M state Z :=
  let! s := get in find_pid (processes s) n.

Definition get_parent (t : option thread) : M state Z :=
  match t with
  | Some t => ret (t_parent t)
  | None => process_get 0
  end.

(** ** The operations *)

(** An uninitialised [struct resp_lookup] on the stack. *)
Variable garbage : Device.resp_lookup.

Definition with_proc {A} (pa : Z) (k : process -> M state A) : M state A :=
  let! p := deref (fun s => procs s !! pa) in k p.

(** The operations of the file: those of the file system, or those of the device
    the path denotes; gives the inode to open. *)
Definition open_target (file : fref) (a : Z) (res : Device.resp_lookup) (mount_pt : option nat)
    : M state Z :=
  if Device.res_dev res <? 0 then
    wr file (with_mount mount_pt) ;;;
    let! i := deref (fun _ => mount_pt) in
    let! e := deref (fun s => Fs.mounts (fsys s) !! i) in
    let! fi := deref (fun s => Fs.insts (fsys s) !! Fs.fi e) in
    let! f := deref (fun s => Fs.fss (fsys s) !! Fs.parent fi) in
    wr file (with_f_ops (Fs.fs_f_ops f)) ;;;
    set_inode a (with_dev 0) ;;;
    ret (Device.res_inode res)
  else
    let! d := on_devices (Device.device_get (Device.res_dev res)) in
    wr file (with_mount None) ;;;
    let! d := deref (fun _ => d) in
    wr file (with_f_ops (Device.f_ops d)) ;;;
    set_inode a (with_dev (Device.res_dev res)) ;;;
    ret (u32 (-1)).

(** The call of the driver's [open]. *)
Definition open_call (file : fref) (t : option thread) (inode_open flags m : Z) : M state Z :=
  let! f := rd file in
  let! ops := deref (fun _ => f_ops_at (f_ops f)) in
  match op_open ops with
  | None => ret (- ENOSYS)
  | Some open =>
      let! p := deref (fun s => procs s !! file.1) in
      let! x := call (open f inode_open (pid p) (uid_of t) (gid_of t) flags m) in
      wr file (with_private x.2) ;;;
      ret x.1
  end.

Definition vfs_open (fuel : nat) (t : option thread) (path : list Z) (flags m : Z) : M state Z :=
  let! pa := get_parent t in
  let! x := zoom fsys set_fsys (Fs.vfs_lookup fuel (t_ids <$> t) path garbage) in
  let '(r, res, mount_pt) := x in
  if r <? 0 then ret r
  else if negb (r =? Z.of_nat (length path)) then ret (- ENOENT)
  else
    let! a := inode_new m in
    if a =? 0 then ret (- ENOMEM)
    else
      let! fd := process_new_fd pa in
      if fd <? 0 then
        zoom kheap set_kheap (kfree a) ;;;
        modify (fun s => set_inodes (delete a (inodes s)) s) ;;;
        ret fd
      else
        let file := (pa, Z.to_nat fd) in
        wr file (with_inode a) ;;;
        wr file (with_offset 0) ;;;
        let! inode_open := open_target file a res mount_pt in
        let! r := open_call file t inode_open flags m in
        if r <? 0 then
          process_free_fd pa fd ;;;
          inode_del a ;;;
          ret r
        else
          set_inode a (with_ino (u32 r)) ;;;
          ret fd.

Definition vfs_open_device (t : option thread) (device_name : list Z) (flags m : Z) : M state Z :=
  let! pa := get_parent t in
  let! dev_id := on_devices (Device.device_get_from_name device_name) in
  if dev_id <? 0 then ret dev_id
  else
    let! device := on_devices (Device.device_get dev_id) in
    match device with
    | None => ret (- ENODEV)
    | Some d =>
        let! ops := deref (fun _ => f_ops_at (Device.f_ops d)) in
        match op_open ops with
        | None => ret (- ENOSYS)
        | Some _ =>
            let! fd := process_new_fd pa in
            if fd <? 0 then ret fd
            else
              let file := (pa, Z.to_nat fd) in
              let! a := inode_new m in
              wr file (with_inode a) ;;;
              if a =? 0 then
                process_free_fd pa fd ;;;
                ret (- ENOMEM)
              else
                wr file (with_offset 0) ;;;
                wr file (with_mount None) ;;;
                set_inode a (with_dev dev_id) ;;;
                wr file (with_f_ops (Device.f_ops d)) ;;;
                let! r := open_call file t (u32 (-1)) flags m in
                if r <? 0 then
                  inode_del a ;;;
                  process_free_fd pa fd ;;;
                  ret r
                else
                  set_inode a (with_ino (u32 r)) ;;;
                  ret fd
        end
    end.

(** For a thread it is the running process that counts. *)
Definition vfs_close (current : Z) (t : option thread) (fd : Z) : M state Z :=
  let! pa := match t with None => process_get 0 | Some _ => ret current end in
  let! x := process_file_from_fd pa fd in
  if x.1 <? 0 then ret x.1
  else
    let! f := rd x.2 in
    let! ops := deref (fun _ => f_ops_at (f_ops f)) in
    let! r :=
      match op_close ops with
      | None => ret 0
      | Some close =>
          let! i := deref (fun s => inodes s !! f_inode f) in
          call (close f (ino i))
      end in
    if r <? 0 then ret r
    else
      inode_del (f_inode f) ;;;
      process_free_fd pa fd ;;;
      ret 0.

Definition vfs_dup (t : option thread) (oldfd : Z) : M state Z :=
  let! pa := get_parent t in
  let! b := process_fd_exist pa oldfd in
  if negb b then ret (- EBADF)
  else
    let! newfd := process_new_fd pa in
    if newfd <? 0 then ret newfd
    else
      let! r := process_dup_file (pa, Z.to_nat newfd) (pa, Z.to_nat oldfd) in
      if r <? 0 then
        process_free_fd pa newfd ;;;
        ret r
      else ret newfd.

Definition vfs_dup2 (current : Z) (t : option thread) (oldfd newfd : Z) : M state Z :=
  let! pa := get_parent t in
  let! b := process_fd_exist pa oldfd in
  if negb b then ret (- EBADF)
  else if negb (in_range newfd) then ret (- EBADF)
  else
    let! f := rd (pa, Z.to_nat newfd) in
    let! r := if used f then vfs_close current t newfd else ret 0 in
    if r <? 0 then ret r
    else
      lock_files pa ;;;
      wr (pa, Z.to_nat newfd) (with_used true) ;;;
      unlock_files pa ;;;
      let! r := process_dup_file (pa, Z.to_nat newfd) (pa, Z.to_nat oldfd) in
      if r <? 0 then
        process_free_fd pa newfd ;;;
        ret r
      else ret newfd.

(** [req.inode]: 0 for a file without inode. *)
Definition req_inode (f : file) : M state Z :=
  if f_inode f =? 0 then ret 0
  else let! i := deref (fun s => inodes s !! f_inode f) in ret (ino i).

(** The result and the bytes read. *)
Definition vfs_read (t : option thread) (fd count : Z) : M state (Z * list Z) :=
  let! pa := get_parent t in
  let! x := process_file_from_fd pa fd in
  if x.1 <? 0 then ret (x.1, [])
  else
    let! f := rd x.2 in
    let! ops := deref (fun _ => f_ops_at (f_ops f)) in
    match op_read ops with
    | None => ret (- ENOSYS, [])
    | Some read =>
        let! n := req_inode f in
        let! y := call (read f pa {| rq_inode := n; rq_size := count; rq_off := u64 (offset f) |}) in
        let '(r, off, data) := y in
        if r <? 0 then ret (r, data)
        else
          wr x.2 (with_offset off) ;;;
          ret (r, data)
    end.

Definition vfs_write (t : option thread) (fd : Z) (buf : list Z) (count : Z) : M state Z :=
  let! pa := get_parent t in
  let! x := process_file_from_fd pa fd in
  if x.1 <? 0 then ret x.1
  else
    let! f := rd x.2 in
    let! ops := deref (fun _ => f_ops_at (f_ops f)) in
    match op_write ops with
    | None => ret (- ENOSYS)
    | Some write =>
        let! n := req_inode f in
        let! y := call (write f pa {| rq_inode := n; rq_size := count; rq_off := u64 (offset f) |} buf) in
        if y.1 <? 0 then ret y.1
        else
          wr x.2 (with_offset y.2) ;;;
          ret y.1
    end.

Definition vfs_ioctl (t : option thread) (fd request : Z) (argp : option Z) : M state (Z * option Z) :=
  let! pa := get_parent t in
  let! x := process_file_from_fd pa fd in
  if x.1 <? 0 then ret (x.1, argp)
  else
    let! f := rd x.2 in
    let! ops := deref (fun _ => f_ops_at (f_ops f)) in
    match op_ioctl ops with
    | None => ret (- ENOSYS, argp)
    | Some ioctl =>
        let! n := req_inode f in
        call (ioctl f n request argp)
    end.

(** [fs_ops] of the file system of a file; a file without mount entry has none. *)
Definition file_fs_ops (f : file) : M state (nat * Fs.fs_operation W) :=
  let! i := deref (fun _ => mount f) in
  let! ops := zoom fsys set_fsys (Fs.fs_ops_of_mount i) in
  ret (i, ops).

Definition vfs_getdirent (t : option thread) (fd index : Z) : M state (Z * option Device.dirent) :=
  let! pa := get_parent t in
  let! x := process_file_from_fd pa fd in
  if x.1 <? 0 then ret (x.1, None)
  else
    let! f := rd (pa, Z.to_nat fd) in
    if negb (used f) then ret (- EBADF, None)
    else
      let! o := file_fs_ops f in
      match Fs.fo_getdirent o.2 with
      | None => ret (- ENOSYS, None)
      | Some getdirent =>
          let! i := deref (fun s => inodes s !! f_inode f) in
          call (getdirent o.1 (ino i) index)
      end.

Definition vfs_fstat (t : option thread) (fd : Z) : M state (Z * option Device.stat) :=
  let! pa := get_parent t in
  let! x := process_file_from_fd pa fd in
  if x.1 <? 0 then ret (x.1, None)
  else
    let! f := rd x.2 in
    match mount f with
    | None => ret (- EBADF, None)
    | Some _ =>
        let! o := file_fs_ops f in
        match Fs.fo_stat o.2 with
        | None => ret (- ENOSYS, None)
        | Some stat =>
            let! i := deref (fun s => inodes s !! f_inode f) in
            call (stat o.1 (uid_of t) (gid_of t) (ino i))
        end
    end.

(** Addition of [off_t]: 64 bits, signed. *)
Definition off_add (x y : Z) : M state Z :=
  if (- 2 ^ 63 <=? x + y) && (x + y <? 2 ^ 63) then ret (x + y) else undef.

(** The seek itself, on the open file [f]. *)
Definition seek_file (r : fref) (f : file) (off whence : Z) : M state Z :=
  if negb (Z.land whence VFS_SEEK_SET =? 0) then
    if off <? 0 then ret (- EINVAL)
    else wr r (with_offset off) ;;; ret 0
  else if negb (Z.land whence VFS_SEEK_CUR =? 0) then
    let old_off := u32 (offset f) in
    let! n := off_add (offset f) off in
    wr r (with_offset n) ;;;
    if (off <? 0) && (n >? old_off) then
      wr r (with_offset old_off) ;;; ret (- EINVAL)
    else if (off >? 0) && (n <? old_off) then
      wr r (with_offset old_off) ;;; ret (- EINVAL)
    else ret 0
  else kernel_panic "VFS_SEEK_END not implemented yet".

Definition vfs_lseek (t : option thread) (fd off whence : Z) : M state Z :=
  let! pa := get_parent t in
  if (Z.land whence VFS_SEEK_SET =? 0) && (Z.land whence VFS_SEEK_CUR =? 0) &&
     (Z.land whence VFS_SEEK_END =? 0) then ret (- EINVAL)
  else if (fd <? 0) || (fd >? PROCESS_MAX_OPEN_FD) then ret (- EINVAL)
  else
    let file := (pa, Z.to_nat fd) in
    let! f := rd file in
    if negb (used f) then ret (- EINVAL) else seek_file file f off whence.

(** ** Slots *)

Implicit Types (s : state) (r : fref) (f : file).

(** Every file of every process. *)
Definition all_files s : list file := map_to_list (procs s) ≫= (fun x => files x.2).

Lemma file_at_set r f f0 s : file_at r s = Some f0 -> file_at r (set_file r f s) = Some f.
Proof.
  destruct r as [pa k]. unfold file_at, set_file. simpl. rewrite lookup_alter_eq.
  destruct (procs s !! pa) as [p|]; [|done]. simpl. intros Hk.
  by rewrite list_lookup_insert_eq by (by eapply lookup_lt_Some).
Qed.

Lemma file_at_set_ne r r' f s : r <> r' -> file_at r' (set_file r f s) = file_at r' s.
Proof.
  destruct r as [pa k], r' as [pa' k']. unfold file_at, set_file. simpl. intros Hne.
  destruct (decide (pa = pa')) as [->|]; [|by rewrite lookup_alter_ne].
  rewrite lookup_alter_eq. destruct (procs s !! pa') as [p|]; [|done]. simpl.
  rewrite list_lookup_insert_ne; [done|congruence].
Qed.

Lemma set_file_twice r f f' s : set_file r f' (set_file r f s) = set_file r f' s.
Proof.
  unfold set_file, set_procs. simpl. f_equal. apply map_eq. intros i.
  destruct (decide (i = r.1)) as [->|]; [|by rewrite !lookup_alter_ne].
  rewrite !lookup_alter_eq. destruct (procs s !! r.1) as [p|]; [|done]. simpl. f_equal.
  unfold with_files. simpl. by rewrite list_insert_insert_eq.
Qed.

Lemma delete_insert_list {A} (l : list A) k x : delete k (<[k := x]> l) = delete k l.
Proof.
  revert k. induction l as [|y l IH]; intros [|k]; [done..|].
  change (y :: delete k (<[k := x]> l) = y :: delete k l). by rewrite IH.
Qed.

Lemma all_files_set r f f' s :
  file_at r s = Some f ->
  exists rest, all_files s ≡ₚ f :: rest /\ all_files (set_file r f' s) ≡ₚ f' :: rest.
Proof.
  destruct r as [pa k]. unfold file_at, all_files, set_file. simpl.
  destruct (procs s !! pa) as [p|] eqn:Hp; simpl; [|done]. intros Hk.
  exists (delete k (files p) ++ (map_to_list (delete pa (procs s)) ≫= (fun x => files x.2))). split.
  - rewrite <-(insert_delete_id (procs s) pa p Hp) at 1.
    rewrite map_to_list_insert by apply lookup_delete_eq. simpl.
    rewrite (delete_Permutation (files p) k f Hk) at 1. done.
  - assert (alter (fun p => with_files (<[k := f']> (files p)) p) pa (procs s) =
      <[pa := with_files (<[k := f']> (files p)) p]> (delete pa (procs s))) as ->.
    { apply map_eq. intros i. destruct (decide (i = pa)) as [->|].
      - by rewrite lookup_alter_eq, lookup_insert_eq, Hp.
      - by rewrite lookup_alter_ne, lookup_insert_ne, lookup_delete_ne by done. }
    rewrite map_to_list_insert by apply lookup_delete_eq. simpl.
    rewrite (delete_Permutation (<[k := f']> (files p)) k f').
    + simpl. by rewrite delete_insert_list.
    + by rewrite list_lookup_insert_eq by (by eapply lookup_lt_Some).
Qed.

(** Every table has its 256 slots and nobody holds its lock. *)
Definition procs_ok s : Prop :=
  forall pa p, procs s !! pa = Some p -> files_lock p = false /\ length (files p) = 256%nat.

Lemma procs_ok_set r f s : procs_ok s -> procs_ok (set_file r f s).
Proof.
  intros Hs pa p. unfold set_file. simpl. destruct (decide (pa = r.1)) as [->|].
  - rewrite lookup_alter_eq. destruct (procs s !! r.1) as [q|] eqn:Hq; [|done].
    simpl. intros [= <-]. simpl. rewrite length_insert. by apply (Hs r.1).
  - rewrite lookup_alter_ne by done. apply Hs.
Qed.

Lemma procs_set r f s pa : is_Some (procs (set_file r f s) !! pa) <-> is_Some (procs s !! pa).
Proof.
  unfold set_file. simpl. destruct (decide (pa = r.1)) as [->|].
  - rewrite lookup_alter_eq. by rewrite fmap_is_Some.
  - by rewrite lookup_alter_ne.
Qed.

Lemma wp_rd r s f Q : file_at r s = Some f -> Q f s -> wp (rd r) s Q.
Proof. unfold wp, rd, deref. by intros ->. Qed.

Lemma wp_wr r g s f Q : file_at r s = Some f -> Q tt (set_file r (g f) s) -> wp (wr r g) s Q.
Proof. intros Hf HQ. unfold wr. apply wp_bind. by apply wp_rd with f. Qed.

Lemma wp_deref_at {A} (o : state -> option A) s a Q : o s = Some a -> Q a s -> wp (deref o) s Q.
Proof. unfold wp, deref. by intros ->. Qed.

(** A table with its lock held, and the same one with another lock state. *)
Definition held (pa : Z) (b : bool) s : state :=
  set_procs (alter (with_lock b) pa (procs s)) s.

Lemma file_at_held r pa b s : file_at r (held pa b s) = file_at r s.
Proof.
  unfold file_at, held. simpl. destruct (decide (r.1 = pa)) as [->|].
  - rewrite lookup_alter_eq. by destruct (procs s !! pa).
  - by rewrite lookup_alter_ne.
Qed.

Lemma held_set_file pa b r f s : held pa b (set_file r f s) = set_file r f (held pa b s).
Proof.
  unfold held, set_file, set_procs. simpl. f_equal. apply map_eq. intros i.
  rewrite !lookup_alter. repeat case_decide; simplify_eq; try done;
    match goal with |- context [procs s !! ?k] => by destruct (procs s !! k) end.
Qed.

Lemma held_twice pa b b' s : held pa b' (held pa b s) = held pa b' s.
Proof.
  unfold held, set_procs. simpl. f_equal. apply map_eq. intros i.
  destruct (decide (i = pa)) as [->|]; [|by rewrite !lookup_alter_ne].
  rewrite !lookup_alter_eq. by destruct (procs s !! pa).
Qed.

Lemma held_free pa p s : procs s !! pa = Some p -> files_lock p = false -> held pa false s = s.
Proof.
  intros Hp Hl. unfold held, set_procs. destruct s as [l m i fs]. simpl in *. f_equal.
  apply map_eq. intros j. destruct (decide (j = pa)) as [->|]; [|by rewrite lookup_alter_ne].
  rewrite lookup_alter_eq, Hp. simpl. destruct p; simpl in *; by subst.
Qed.

Lemma wp_lock_files pa p s Q :
  procs s !! pa = Some p -> files_lock p = false -> Q tt (held pa true s) -> wp (lock_files pa) s Q.
Proof.
  intros Hp Hl HQ. unfold lock_files. apply wp_bind. eapply wp_deref_at; [done|]. rewrite Hl. step.
  replace (<[pa := with_lock true p]> (procs s)) with (alter (with_lock true) pa (procs s)); [done|].
  apply map_eq. intros i. destruct (decide (i = pa)) as [->|].
  - by rewrite lookup_alter_eq, lookup_insert_eq, Hp.
  - by rewrite lookup_alter_ne, lookup_insert_ne.
Qed.

Lemma wp_unlock_files pa s Q :
  is_Some (procs s !! pa) -> Q tt (held pa false s) -> wp (unlock_files pa) s Q.
Proof.
  intros [p Hp] HQ. unfold unlock_files. apply wp_bind. eapply wp_deref_at; [done|]. step.
  replace (<[pa := with_lock false p]> (procs s)) with (alter (with_lock false) pa (procs s)); [done|].
  apply map_eq. intros i. destruct (decide (i = pa)) as [->|].
  - by rewrite lookup_alter_eq, lookup_insert_eq, Hp.
  - by rewrite lookup_alter_ne, lookup_insert_ne.
Qed.

Lemma procs_held pa b s pb : is_Some (procs (held pa b s) !! pb) <-> is_Some (procs s !! pb).
Proof. unfold held. simpl. apply lookup_alter_is_Some. Qed.

(** Updating a slot under the lock. *)
Lemma release_held pa k f p s :
  procs s !! pa = Some p -> files_lock p = false ->
  held pa false (set_file (pa, k) f (held pa true s)) = set_file (pa, k) f s.
Proof.
  intros Hp Hl. rewrite held_set_file, held_twice. by rewrite (held_free pa p).
Qed.

Definition lowest_free (p : process) (k : nat) (f : file) : Prop :=
  (k < 255)%nat /\ files p !! k = Some f /\ used f = false /\
  forall j g, (j < k)%nat -> files p !! j = Some g -> used g = true.

Lemma new_fd_ok pa p s :
  procs_ok s -> procs s !! pa = Some p ->
  wp (process_new_fd pa) s (fun fd s' =>
    (fd = - EMFILE /\ s' = s /\
     forall j f, (j < 255)%nat -> files p !! j = Some f -> used f = true) \/
    (exists k f, lowest_free p k f /\ fd = Z.of_nat k /\
       s' = set_file (pa, k) (with_used true f) s)).
Proof.
  intros Hs Hp. destruct (Hs pa p Hp) as [Hl Hlen]. unfold process_new_fd.
  apply wp_bind. eapply wp_lock_files; [done..|]. apply wp_bind.
  apply (wp_deref_at _ _ (with_lock true p)).
  { unfold held. simpl. by rewrite lookup_alter_eq, Hp. }
  change (Z.to_nat PROCESS_MAX_OPEN_FD) with 255%nat. simpl.
  destruct (list_break _ (take 255 (files p))) as [[[a f] b]|] eqn:Hb.
  - apply list_break_Some in Hb as (Hsplit & Hf & Hbefore).
    assert (length a < 255)%nat as Hk.
    { assert (length (take 255 (files p)) <= 255)%nat as Hle by (rewrite length_take; lia).
      rewrite Hsplit, length_app in Hle. simpl in Hle. lia. }
    assert (forall j, (j < 255)%nat -> files p !! j = (a ++ f :: b) !! j) as Hget.
    { intros j Hj. rewrite <-Hsplit, lookup_take_lt; done. }
    assert (files p !! length a = Some f) as Hfa.
    { rewrite Hget by done. by apply list_lookup_middle. }
    assert (file_at (pa, length a) s = Some f) as Hat by (unfold file_at; simpl; by rewrite Hp).
    apply wp_bind. eapply wp_wr; [by rewrite file_at_held|].
    apply wp_bind. apply wp_unlock_files.
    { apply procs_set, procs_held. by exists p. }
    step. right. exists (length a), f. rewrite (release_held pa (length a) _ p s Hp Hl).
    split; [|done]. split; [done|]. split; [done|]. split; [by destruct (used f)|].
    intros j g Hj Hg. rewrite Hget in Hg by lia. rewrite lookup_app_l in Hg by lia.
    rewrite Forall_forall in Hbefore. specialize (Hbefore g (list_elem_of_lookup_2 _ _ _ Hg)).
    by destruct (used g).
  - apply list_break_None in Hb. apply wp_bind, wp_unlock_files; [apply procs_held; by exists p|].
    step. left. rewrite held_twice, (held_free pa p) by done. split; [done|]. split; [done|].
    intros j f Hj Hf. rewrite Forall_forall in Hb. specialize (Hb f).
    destruct (used f); [done|]. discriminate Hb. apply (list_elem_of_lookup_2 _ j).
    by rewrite lookup_take_lt.
Qed.

Lemma in_range_nat k : (k < 255)%nat -> in_range (Z.of_nat k) = true.
Proof.
  intros Hk. unfold in_range, PROCESS_MAX_OPEN_FD. rewrite Z.geb_leb.
  destruct (Z.ltb_spec (Z.of_nat k) 0), (Z.leb_spec 255 (Z.of_nat k)); done || lia.
Qed.

Lemma free_fd_ok pa p k f s :
  procs_ok s -> procs s !! pa = Some p -> (k < 255)%nat -> file_at (pa, k) s = Some f ->
  wp (process_free_fd pa (Z.of_nat k)) s (fun _ s' => s' = set_file (pa, k) (with_used false f) s).
Proof.
  intros Hs Hp Hk Hf. destruct (Hs pa p Hp) as [Hl _]. unfold process_free_fd.
  rewrite in_range_nat by done. simpl. apply wp_bind. eapply wp_lock_files; [done..|].
  rewrite Nat2Z.id. apply wp_bind. eapply wp_wr; [by rewrite file_at_held|].
  apply wp_unlock_files; [apply procs_set, procs_held; by exists p|]. by eapply release_held.
Qed.

Lemma file_from_fd_ok pa p fd s :
  procs_ok s -> procs s !! pa = Some p ->
  wp (process_file_from_fd pa fd) s (fun x s' => s' = s /\
    ((x.1 = - EINVAL /\ in_range fd = false) \/
     (exists k f, fd = Z.of_nat k /\ (k < 255)%nat /\ file_at (pa, k) s = Some f /\
        ((x.1 = - EBADF /\ used f = false) \/ (x = (0, (pa, k)) /\ used f = true))))).
Proof.
  intros Hs Hp. destruct (Hs pa p Hp) as [Hl Hlen]. unfold process_file_from_fd.
  destruct (in_range fd) eqn:Hr; simpl; [|step; split; [done|by left]].
  unfold in_range, PROCESS_MAX_OPEN_FD in Hr. rewrite Z.geb_leb in Hr.
  destruct (Z.ltb_spec fd 0), (Z.leb_spec 255 fd); try done.
  destruct (files p !! Z.to_nat fd) as [f|] eqn:Hf.
  2: { apply lookup_ge_None_1 in Hf. lia. }
  assert (file_at (pa, Z.to_nat fd) s = Some f) as Hat by (unfold file_at; simpl; by rewrite Hp).
  apply wp_bind. eapply wp_rd; [done|].
  destruct (used f) eqn:Hu; step; (split; [done|]); right; exists (Z.to_nat fd), f;
    (split; [lia|]); (split; [lia|]); (split; [done|]); auto.
Qed.

(** ** Inodes *)

Lemma wp_set_inode a g i s Q :
  inodes s !! a = Some i -> Q tt (set_inodes (<[a := g i]> (inodes s)) s) -> wp (set_inode a g) s Q.
Proof. intros Hi HQ. unfold set_inode. apply wp_bind. by eapply wp_deref_at. Qed.

(** [inode_del] gives up one reference, and the inode with the last one. *)
Definition dropped (a : Z) (i : inode) (m : gmap Z inode) : gmap Z inode :=
  if ref i =? 1 then delete a m else <[a := with_ref (ref i - 1) i]> m.

Lemma inode_del_ok a i s :
  heap_ok (kheap s) -> is_Some (live (kheap s) !! a) -> inodes s !! a = Some i -> 0 < ref i < 2 ^ 31 ->
  wp (inode_del a) s (fun _ s' => exists h,
    s' = set_kheap h (set_inodes (dropped a i (inodes s)) s) /\ heap_ok h /\
    live h = if ref i =? 1 then delete a (live (kheap s)) else live (kheap s)).
Proof.
  intros Hok Hl Hi Hb. unfold inode_del. apply wp_bind. eapply wp_set_inode; [done|].
  apply wp_bind. eapply wp_deref_at; [apply lookup_insert_eq|]. simpl. unfold dropped.
  rewrite s32_small by lia.
  destruct (Z.eqb_spec (ref i - 1) 0), (Z.eqb_spec (ref i) 1); try lia.
  - apply wp_bind, wp_zoom. eapply wp_mono; [by apply kfree_spec|].
    intros [] h (Hok' & Hl' & _). step. exists h. split; [|done].
    unfold set_inodes, set_kheap. simpl. by rewrite delete_insert_eq.
  - step. exists (kheap s). by destruct s as [??? []].
Qed.

(** ** Reference counts *)

(** How many references to the inode [a] the file holds: one or none.  The files of
    channels have no inode, a null pointer. *)
Definition holds (a : Z) f : Z :=
  if decide (used f = true /\ f_inode f = a /\ a <> 0) then 1 else 0.

Definition count (a : Z) (l : list file) : Z := foldr (fun f n => holds a f + n) 0 l.

#[global] Instance count_proper a : Proper (Permutation ==> eq) (count a).
Proof.
  intros l l' Hl. unfold count. induction Hl; simpl; lia.
Qed.

(** The references to the inode [a] in all processes. *)
Definition refs s (a : Z) : Z := count a (all_files s).

(** The count of every inode is the number of open files that refer to it; an
    inode that no open file refers to does not exist.  There are fewer slots for files
    than an int can count. *)
Definition ref_inv s : Prop :=
  procs_ok s /\ heap_ok (kheap s) /\
  (forall a i, inodes s !! a = Some i -> 0 < a /\ 0 < ref i /\ is_Some (live (kheap s) !! a)) /\
  (forall a, refs s a = default 0 (ref <$> inodes s !! a)) /\
  (forall f, f ∈ all_files s -> used f = true -> is_Some (f_ops_at (f_ops f))) /\
  Z.of_nat (length (all_files s)) < 2 ^ 31.

Lemma count_bound a l : 0 <= count a l <= Z.of_nat (length l).
Proof.
  induction l as [|f l IH]; simpl; [lia|]. unfold holds. case_decide; lia.
Qed.

Lemma refs_set r f f' s a :
  file_at r s = Some f -> refs (set_file r f' s) a = refs s a - holds a f + holds a f'.
Proof.
  intros Hf. destruct (all_files_set r f f' s Hf) as (rest & Ha1 & Ha2).
  unfold refs. rewrite Ha1, Ha2. simpl. lia.
Qed.

Lemma file_at_elem r f s : file_at r s = Some f -> f ∈ all_files s.
Proof.
  intros Hf. destruct (all_files_set r f f s Hf) as (rest & Ha1 & _). rewrite Ha1. by left.
Qed.

(** An open file with an inode refers to one that exists, and its count can take as many
    more references as there are slots that do not hold one. *)
Lemma used_inode r f s :
  ref_inv s -> file_at r s = Some f -> used f = true -> f_inode f <> 0 ->
  exists i, inodes s !! f_inode f = Some i /\ 0 < f_inode f /\ 0 < ref i < 2 ^ 31 /\
    is_Some (live (kheap s) !! f_inode f) /\
    (forall r' g, file_at r' s = Some g -> used g = false -> ref i + 1 < 2 ^ 31).
Proof.
  intros (_ & _ & Hi & Hr & _ & Hlen) Hf Hu Hn. specialize (Hr (f_inode f)). unfold refs in Hr.
  assert (0 < count (f_inode f) (all_files s)) as Hpos.
  { destruct (all_files_set r f f s Hf) as (rest & Ha1 & _). rewrite Ha1. simpl.
    unfold holds at 1. rewrite decide_True by done. pose proof (count_bound (f_inode f) rest). lia. }
  destruct (inodes s !! f_inode f) as [i|] eqn:Hin; simpl in Hr; [|lia].
  pose proof (count_bound (f_inode f) (all_files s)). destruct (Hi _ i Hin) as (? & ? & ?).
  exists i. split; [done|]. split; [done|]. split; [lia|]. split; [done|]. intros r' g Hg Hug.
  destruct (all_files_set r' g g s Hg) as (rest & Ha1 & _). rewrite Ha1 in Hr, Hlen. simpl in Hr, Hlen.
  unfold holds at 1 in Hr. rewrite decide_False in Hr by (rewrite Hug; by intros [? _]).
  pose proof (count_bound (f_inode f) rest). lia.
Qed.

(** A state that differs from [s] in one slot, in the inodes, and outside the
    tables of files. *)
Definition mk s r f (m : gmap Z inode) (F : Fs.fsys H W) : state :=
  {| processes := processes s; procs := procs (set_file r f s); inodes := m; fsys := F |}.

Lemma mk_id s r f : file_at r s = Some f -> s = mk s r f (inodes s) (fsys s).
Proof.
  intros Hf. destruct s as [l m i F]. unfold mk, set_file. simpl. f_equal.
  apply map_eq. intros j. destruct (decide (j = r.1)) as [->|]; [|by rewrite lookup_alter_ne].
  rewrite lookup_alter_eq. unfold file_at in Hf. simpl in Hf.
  destruct (m !! r.1) as [p|]; [|done]. simpl in *. f_equal. destruct p; unfold with_files; simpl in *.
  by rewrite list_insert_id.
Qed.

Lemma set_file_mk s r f f' m F : set_file r f' (mk s r f m F) = mk s r f' m F.
Proof.
  pose proof (set_file_twice r f f' s) as He. unfold mk, set_file, set_procs in *. simpl in *.
  injection He as He. by rewrite He.
Qed.

Lemma file_at_mk s r f0 f m F : file_at r s = Some f0 -> file_at r (mk s r f m F) = Some f.
Proof. intros Hf. exact (file_at_set r f f0 s Hf). Qed.

Lemma file_at_mk_ne s r r' f m F : r <> r' -> file_at r' (mk s r f m F) = file_at r' s.
Proof. intros Hne. exact (file_at_set_ne r r' f s Hne). Qed.

Lemma procs_ok_mk s r f m F : procs_ok s -> procs_ok (mk s r f m F).
Proof. intros Hs. exact (procs_ok_set r f s Hs). Qed.

Lemma procs_mk s r f m F pa p :
  procs s !! pa = Some p -> exists p', procs (mk s r f m F) !! pa = Some p' /\ pid p' = pid p.
Proof.
  intros Hp. unfold mk, set_file. simpl. destruct (decide (pa = r.1)) as [->|].
  - rewrite lookup_alter_eq, Hp. simpl. eauto.
  - rewrite lookup_alter_ne by done. eauto.
Qed.

(** The invariant of such a state. *)
Lemma ref_inv_mk s r f f' m F :
  ref_inv s -> file_at r s = Some f -> heap_ok (Fs.kheap F) ->
  (forall a i, m !! a = Some i -> 0 < a /\ 0 < ref i /\ is_Some (live (Fs.kheap F) !! a)) ->
  (forall a, default 0 (ref <$> m !! a) =
             default 0 (ref <$> inodes s !! a) - holds a f + holds a f') ->
  (used f' = true -> is_Some (f_ops_at (f_ops f'))) ->
  ref_inv (mk s r f' m F).
Proof.
  intros (Hp & _ & _ & Hr & Ho & Hlen) Hf Hok Hm Hcount Hops.
  split; [by apply procs_ok_mk|]. split; [done|]. split; [done|].
  destruct (all_files_set r f f' s Hf) as (rest & Ha1 & Ha2). split; [|split].
  - intros a. change (refs (mk s r f' m F) a) with (refs (set_file r f' s) a).
    rewrite (refs_set r f), Hr by done. simpl. by rewrite Hcount.
  - intros g Hg. change (all_files (mk s r f' m F)) with (all_files (set_file r f' s)) in Hg.
    rewrite Ha2 in Hg. apply elem_of_cons in Hg as [->|Hg]; [done|].
    apply Ho. rewrite Ha1. by right.
  - change (all_files (mk s r f' m F)) with (all_files (set_file r f' s)).
    rewrite Ha2. by rewrite Ha1 in Hlen.
Qed.

(** *** Running code on such a state *)

Lemma wp_rd_mk s r f0 f m F (Q : file -> state -> Prop) :
  file_at r s = Some f0 -> Q f (mk s r f m F) -> wp (rd r) (mk s r f m F) Q.
Proof. intros Hf HQ. eapply wp_rd; [by eapply file_at_mk|done]. Qed.

Lemma wp_wr_mk s r f0 f m F g (Q : unit -> state -> Prop) :
  file_at r s = Some f0 -> Q tt (mk s r (g f) m F) -> wp (wr r g) (mk s r f m F) Q.
Proof. intros Hf HQ. eapply wp_wr; [by eapply file_at_mk|]. by rewrite set_file_mk. Qed.

Lemma wp_set_inode_mk s r f m F a i g (Q : unit -> state -> Prop) :
  m !! a = Some i -> Q tt (mk s r f (<[a := g i]> m) F) -> wp (set_inode a g) (mk s r f m F) Q.
Proof. intros Hi HQ. by eapply wp_set_inode. Qed.

Lemma wp_free_fd_mk s pa k f0 f m F (Q : unit -> state -> Prop) :
  procs_ok s -> (k < 255)%nat -> file_at (pa, k) s = Some f0 ->
  Q tt (mk s (pa, k) (with_used false f) m F) ->
  wp (process_free_fd pa (Z.of_nat k)) (mk s (pa, k) f m F) Q.
Proof.
  intros Hs Hk Hf HQ. pose proof Hf as Hp. unfold file_at in Hp. simpl in Hp.
  destruct (procs s !! pa) as [p|] eqn:Hpa; [|done].
  destruct (procs_mk s (pa, k) f m F pa p Hpa) as (p' & Hp' & _).
  eapply wp_mono; [eapply free_fd_ok; [by apply procs_ok_mk|done|done|by eapply file_at_mk]|].
  intros [] s' ->. by rewrite set_file_mk.
Qed.

Lemma wp_inode_del_mk s r f m F a i (Q : unit -> state -> Prop) :
  heap_ok (Fs.kheap F) -> is_Some (live (Fs.kheap F) !! a) -> m !! a = Some i ->
  0 < ref i < 2 ^ 31 ->
  (forall h, heap_ok h ->
     live h = (if ref i =? 1 then delete a (live (Fs.kheap F)) else live (Fs.kheap F)) ->
     Q tt (mk s r f (dropped a i m) (Fs.set_kheap h F))) ->
  wp (inode_del a) (mk s r f m F) Q.
Proof.
  intros Hok Hl Hi Hb HQ. eapply wp_mono; [by apply inode_del_ok|].
  intros [] s' (h & -> & Hok' & Hl'). by apply HQ.
Qed.

(** A callback that returns. *)
Definition returns {A} (m : M W A) : Prop := forall w, wp m w (fun _ _ => True).

Lemma wp_call {A} (m : M W A) s (Q : A -> state -> Prop) :
  returns m -> (forall x w, Q x (set_world w s)) -> wp (call m) s Q.
Proof. intros Hm HQ. apply wp_zoom. eapply wp_mono; [apply Hm|]. intros x w _. apply HQ. Qed.

(** What the kernel relies on in the file operations of the drivers. *)
Definition drivers_return : Prop :=
  forall o ops, f_ops_at o = Some ops ->
  (forall g, op_open ops = Some g -> forall f a b c d e h, returns (g f a b c d e h)) /\
  (forall g, op_close ops = Some g -> forall f a, returns (g f a)) /\
  (forall g, op_dup ops = Some g -> forall f f', returns (g f f')).

(** The process a request of [t] is about. *)
Definition caller s (t : option thread) (pa : Z) : Prop :=
  is_Some (procs s !! pa) /\ wp (get_parent t) s (fun a s' => a = pa /\ s' = s).

(** The counts are right, at most one slot has changed, and the file systems and
    the mounts are as before. *)
Definition kept s s' : Prop :=
  ref_inv s' /\
  (exists r, forall r', r' <> r -> file_at r' s' = file_at r' s) /\
  (exists w h, fsys s' = Fs.set_kheap h (Fs.set_world w (fsys s))).

Lemma kept_refl s : ref_inv s -> kept s s.
Proof.
  intros Hs. split; [done|]. split; [by exists (0, 0%nat)|].
  exists (world s), (kheap s). by destruct s as [??? []].
Qed.

Lemma kept_mk s r f f' m w h :
  ref_inv s -> file_at r s = Some f -> heap_ok h ->
  (forall a i, m !! a = Some i -> 0 < a /\ 0 < ref i /\ is_Some (live h !! a)) ->
  (forall a, default 0 (ref <$> m !! a) =
             default 0 (ref <$> inodes s !! a) - holds a f + holds a f') ->
  (used f' = true -> is_Some (f_ops_at (f_ops f'))) ->
  kept s (mk s r f' m (Fs.set_kheap h (Fs.set_world w (fsys s)))).
Proof.
  intros Hs Hf Hok Hm Hc Ho. split; [by eapply ref_inv_mk|]. split; [|by exists w, h].
  exists r. intros r' Hr. by apply file_at_mk_ne.
Qed.

Lemma holds_unused a f : used f = false -> holds a f = 0.
Proof. intros Hu. unfold holds. rewrite decide_False; [done|]. by rewrite Hu; intros []. Qed.

Lemma holds_used a f :
  used f = true -> f_inode f <> 0 -> holds a f = if decide (f_inode f = a) then 1 else 0.
Proof. intros Hu Hn. unfold holds. rewrite Hu. repeat case_decide; naive_solver. Qed.

(** Giving up a reference: the counts, and what the heap still has. *)
Lemma dropped_count m a i b :
  m !! a = Some i -> 0 < ref i ->
  default 0 (ref <$> dropped a i m !! b) =
  default 0 (ref <$> m !! b) - (if decide (a = b) then 1 else 0).
Proof.
  intros Hi Hr. unfold dropped. destruct (Z.eqb_spec (ref i) 1), (decide (a = b)) as [<-|Hne].
  - rewrite lookup_delete_eq, Hi. simpl. lia.
  - rewrite lookup_delete_ne by done. lia.
  - rewrite lookup_insert_eq, Hi. simpl. lia.
  - rewrite lookup_insert_ne by done. lia.
Qed.

Lemma dropped_live (m : gmap Z inode) a i (l l' : gmap Z Z) :
  m !! a = Some i -> 0 < ref i ->
  (forall b j, m !! b = Some j -> 0 < b /\ 0 < ref j /\ is_Some (l !! b)) ->
  l' = (if ref i =? 1 then delete a l else l) ->
  forall b j, dropped a i m !! b = Some j -> 0 < b /\ 0 < ref j /\ is_Some (l' !! b).
Proof.
  intros Hi Hr Hm -> b j. unfold dropped. destruct (Z.eqb_spec (ref i) 1).
  - intros [Hne Hb]%lookup_delete_Some. rewrite lookup_delete_ne by done. by apply Hm.
  - intros [[<- <-]|[Hne Hb]]%lookup_insert_Some; [|by apply Hm].
    destruct (Hm a i Hi) as (? & ? & ?). simpl. split; [done|]. split; [lia|done].
Qed.

(** The file at the descriptor, when it is open, has an inode. *)
Definition has_inode s (pa fd : Z) : Prop :=
  forall f, file_at (pa, Z.to_nat fd) s = Some f -> used f = true -> f_inode f <> 0.

Lemma close_ok t pa fd s :
  ref_inv s -> drivers_return -> caller s t pa -> has_inode s pa fd ->
  wp (vfs_close pa t fd) s (fun n s' => kept s s' /\
    (0 <= n -> exists f, file_at (pa, Z.to_nat fd) s' = Some f /\ used f = false /\
       forall r', r' <> (pa, Z.to_nat fd) -> file_at r' s' = file_at r' s)).
Proof.
  intros Hs Hd [[p Hp] Hc] Hnn. unfold vfs_close. apply wp_bind.
  eapply (wp_mono _ _ (fun a s' => a = pa /\ s' = s)); [by destruct t|]. intros a s' [-> ->].
  pose proof Hs as (Hpo & Hok & Hin & Hrefs & Hops & _). apply wp_bind.
  eapply wp_mono; [by eapply file_from_fd_ok|]. intros [r x] s' [-> Hx]. simpl in Hx |- *.
  destruct Hx as [[-> _]|(k & f & -> & Hk & Hf & [[-> Hu]|[[= -> ->] Hu]])];
    [step; split; [by apply kept_refl|unfold EINVAL, EBADF; lia]..|].
  simpl. apply wp_bind. eapply wp_rd; [done|]. destruct (Hops f) as [ops Ho];
    [by eapply file_at_elem|done|]. destruct (Hd _ _ Ho) as (_ & Hclose & _).
  assert (f_inode f <> 0) as Hnz by (apply Hnn; [by rewrite Nat2Z.id|done]).
  destruct (used_inode _ _ _ Hs Hf Hu Hnz) as (i & Hi & Hpos & Href & Hlive & _).
  apply wp_bind. eapply wp_deref_at; [done|]. apply wp_bind.
  eapply (wp_mono _ _ (fun _ s' => exists w, s' = set_world w s)).
  { destruct (op_close ops) as [close|] eqn:Hcl.
    - apply wp_bind. eapply wp_deref_at; [done|]. apply wp_call; [by apply Hclose|]. eauto.
    - step. exists (world s). by destruct s as [??? []]. }
  intros r s' [w ->]. destruct (Z.ltb_spec r 0).
  { step. split; [|lia]. split; [done|]. split; [by exists (0, 0%nat)|]. by exists w, (kheap s). }
  rewrite (mk_id (set_world w s) (pa, k) f Hf).
  change (mk (set_world w s) (pa, k) f (inodes (set_world w s)) (fsys (set_world w s)))
    with (mk s (pa, k) f (inodes s) (Fs.set_world w (fsys s))).
  apply wp_bind. eapply wp_inode_del_mk; [done|done|done|done|]. intros h Hok' Hl'.
  apply wp_bind. eapply wp_free_fd_mk; [done|done|done|]. step.
  split.
  2: { intros _. rewrite Nat2Z.id. exists (with_used false f).
       split; [by eapply file_at_mk|]. split; [done|]. intros r' Hr'. by apply file_at_mk_ne. }
  eapply kept_mk; [done|done|done|by eapply dropped_live; [|lia|..]| |done].
  intros b. rewrite (dropped_count _ _ i) by (done || lia).
  rewrite (holds_used b f Hu Hnz), (holds_unused b (with_used false f) eq_refl). lia.
Qed.

Lemma fsys_id (F : Fs.fsys H W) : Fs.set_kheap (Fs.kheap F) (Fs.set_world (Fs.world F) F) = F.
Proof. by destruct F. Qed.

(** Duplicating a file into another slot takes one more reference to its inode,
    or leaves the inodes as they were. *)
Lemma dup_file_ok s r_new r_old g0 g o i F :
  r_new <> r_old -> drivers_return ->
  file_at r_new s = Some g0 -> file_at r_old s = Some o -> used o = true ->
  inodes s !! f_inode o = Some i -> 0 < f_inode o -> 0 < ref i -> ref i + 1 < 2 ^ 31 -> heap_ok (Fs.kheap F) ->
  is_Some (live (Fs.kheap F) !! f_inode o) -> is_Some (f_ops_at (f_ops o)) ->
  wp (process_dup_file r_new r_old) (mk s r_new g (inodes s) F) (fun n s' =>
    exists g' w h, heap_ok h /\ live h = live (Fs.kheap F) /\
      ((n = 0 /\ used g' = true /\ f_inode g' = f_inode o /\ f_ops g' = f_ops o /\
        s' = mk s r_new g' (<[f_inode o := with_ref (ref i + 1) i]> (inodes s))
               (Fs.set_kheap h (Fs.set_world w F))) \/
       (n < 0 /\ s' = mk s r_new g' (inodes s) (Fs.set_kheap h (Fs.set_world w F))))).
Proof.
  intros Hne Hd Hn Ho Hu Hi Hpos Hr Hlt Hok Hl [ops Hops]. unfold process_dup_file.
  assert (forall g m G, file_at r_old (mk s r_new g m G) = Some o) as Hold.
  { intros g' m G. by rewrite file_at_mk_ne. }
  apply wp_bind. eapply wp_rd; [apply Hold|]. apply wp_bind. eapply wp_wr_mk; [done|].
  apply wp_bind. eapply wp_rd_mk; [done|]. cbn [used with_used]. rewrite Hu. cbn [negb].
  apply wp_bind. eapply wp_wr_mk; [done|]. apply wp_bind. eapply wp_rd; [apply Hold|].
  destruct (Z.eqb_spec (f_inode o) 0) as [|_]; [lia|].
  apply wp_bind, wp_bind. eapply wp_set_inode_mk; [done|]. rewrite s32_small by lia. eapply wp_wr_mk; [done|].
  do 4 (apply wp_bind; eapply wp_wr_mk; [done|]). apply wp_bind. eapply wp_rd_mk; [done|].
  apply wp_bind. eapply wp_deref_at; [done|]. destruct (Hd _ _ Hops) as (_ & _ & Hdup).
  destruct (op_dup ops) as [dup|].
  - apply wp_bind. eapply wp_rd; [apply Hold|]. apply wp_bind. apply wp_call; [by apply Hdup|].
    intros x w.
    match goal with |- wp _ (set_world w (mk _ _ ?c ?d _)) _ =>
      change (set_world w (mk s r_new c d F)) with (mk s r_new c d (Fs.set_world w F)) end.
    apply wp_bind. eapply wp_wr_mk; [done|]. destruct (Z.ltb_spec x.1 0).
    + apply wp_bind. eapply wp_rd_mk; [done|]. apply wp_bind.
      eapply wp_inode_del_mk; [done|done|apply lookup_insert_eq|simpl; lia|]. simpl. intros h Hok' Hl'.
      destruct (Z.eqb_spec (ref i + 1) 1) as [|_]; [lia|]. step.
      eexists _, w, h. split; [done|]. split; [done|]. right. split; [done|].
      unfold dropped. simpl. destruct (Z.eqb_spec (ref i + 1) 1) as [|_]; [lia|].
      rewrite insert_insert_eq. f_equal. rewrite Z.add_simpl_r.
      apply insert_id. rewrite Hi. by destruct i.
    + step. eexists _, w, (Fs.kheap F). split; [done|]. split; [done|]. left.
      by (split; [|split; [|split; [|split; [|reflexivity]]]]).
  - step. eexists _, (Fs.world F), (Fs.kheap F). rewrite fsys_id.
    split; [done|]. split; [done|]. left.
      by (split; [|split; [|split; [|split; [|reflexivity]]]]).
Qed.

(** The end of [vfs_dup] and [vfs_dup2], once the new slot is marked. *)
Lemma dup_into_ok s pa k k_old f0 g o fd :
  ref_inv s -> drivers_return -> (k < 255)%nat -> k <> k_old ->
  file_at (pa, k) s = Some f0 -> used f0 = false ->
  file_at (pa, k_old) s = Some o -> used o = true -> f_inode o <> 0 ->
  wp (let! n := process_dup_file (pa, k) (pa, k_old) in
      if n <? 0 then process_free_fd pa (Z.of_nat k) ;;; ret n else ret fd)
     (mk s (pa, k) g (inodes s) (fsys s)) (fun _ => kept s).
Proof.
  intros Hs Hd Hk Hne Hf Hu0 Ho Hu Hnz. pose proof Hs as (Hpo & Hok & Hin & _ & Hops & _).
  destruct (used_inode _ _ _ Hs Ho Hu Hnz) as (i & Hi & Hpos & Href & Hlive & Hmore).
  apply wp_bind. eapply wp_mono.
  { eapply dup_file_ok; [congruence|done|done|done|done|done|done|lia|by apply (Hmore (pa, k) f0)|done|done|].
    apply Hops; [by eapply file_at_elem|done]. }
  intros n s' (g' & w & h & Hok' & Hl & [(-> & Hug & Hig & Hog & ->)|[Hneg ->]]).
  - step. eapply kept_mk; [done|done|done| | |].
    + rewrite Hl. intros a j [[<- <-]|[_ Ha]]%lookup_insert_Some; [|by apply Hin].
      simpl. split; [done|]. by split; [lia|].
    + intros a. rewrite (holds_unused a f0 Hu0), (holds_used a g' Hug), Hig by congruence.
      destruct (decide (f_inode o = a)) as [<-|Hna].
      * rewrite lookup_insert_eq, Hi. simpl. lia.
      * rewrite lookup_insert_ne by done. lia.
    + intros _. rewrite Hog. apply Hops; [by eapply file_at_elem|done].
  - destruct (Z.ltb_spec n 0); [|lia]. apply wp_bind. eapply wp_free_fd_mk; [done..|]. step.
    eapply kept_mk; [done|done|done| | |done].
    + by rewrite Hl.
    + intros a. rewrite (holds_unused a f0 Hu0), (holds_unused a (with_used false g') eq_refl). lia.
Qed.

Lemma fd_exist_ok pa p fd s :
  procs_ok s -> procs s !! pa = Some p ->
  wp (process_fd_exist pa fd) s (fun b s' => s' = s /\
    (b = true -> exists k f, fd = Z.of_nat k /\ (k < 255)%nat /\ file_at (pa, k) s = Some f /\
       used f = true)).
Proof.
  intros Hs Hp. destruct (Hs pa p Hp) as [Hl Hlen]. unfold process_fd_exist.
  destruct (in_range fd) eqn:Hr; simpl; [|by step].
  unfold in_range, PROCESS_MAX_OPEN_FD in Hr. rewrite Z.geb_leb in Hr.
  destruct (Z.ltb_spec fd 0), (Z.leb_spec 255 fd); try done.
  destruct (files p !! Z.to_nat fd) as [f|] eqn:Hf.
  2: { apply lookup_ge_None_1 in Hf. lia. }
  assert (file_at (pa, Z.to_nat fd) s = Some f) as Hat by (unfold file_at; simpl; by rewrite Hp).
  apply wp_bind. eapply wp_lock_files; [done..|]. apply wp_bind.
  eapply wp_rd; [by rewrite file_at_held|]. apply wp_bind.
  apply wp_unlock_files; [apply procs_held; by exists p|]. step.
  rewrite held_twice, (held_free pa p) by done. split; [done|]. intros Hu.
  exists (Z.to_nat fd), f. split; [lia|]. by split; [lia|].
Qed.

Lemma set_file_mk_id s r f : set_file r f s = mk s r f (inodes s) (fsys s).
Proof. done. Qed.

Lemma dup_ok t pa oldfd s :
  ref_inv s -> drivers_return -> caller s t pa -> has_inode s pa oldfd ->
  wp (vfs_dup t oldfd) s (fun _ => kept s).
Proof.
  intros Hs Hd [[p Hp] Hc] Hnn. pose proof Hs as (Hpo & _). unfold vfs_dup. apply wp_bind.
  eapply wp_mono; [exact Hc|]. intros a s' [-> ->]. apply wp_bind.
  eapply wp_mono; [by eapply fd_exist_ok|]. intros [|] s' [-> Hx]; simpl;
    [|step; by apply kept_refl].
  destruct (Hx eq_refl) as (k_old & o & -> & Hko & Ho & Huo). apply wp_bind.
  eapply wp_mono; [by eapply new_fd_ok|].
  intros fd s' [(-> & -> & _)|(k & f & (Hk & Hf & Hu & _) & -> & ->)];
    [step; by apply kept_refl|].
  destruct (Z.ltb_spec (Z.of_nat k) 0); [lia|]. rewrite !Nat2Z.id, set_file_mk_id.
  assert (file_at (pa, k) s = Some f) as Hat by (unfold file_at; simpl; by rewrite Hp).
  eapply dup_into_ok; try done; [intros ->; congruence|]. apply Hnn; [by rewrite Nat2Z.id|done].
Qed.

Lemma dup2_ok t pa oldfd newfd s :
  ref_inv s -> drivers_return -> caller s t pa -> oldfd <> newfd ->
  has_inode s pa oldfd -> has_inode s pa newfd ->
  wp (vfs_dup2 pa t oldfd newfd) s (fun _ s' => exists s1, kept s s1 /\ kept s1 s').
Proof.
  intros Hs Hd Hcall Hne Hnn Hnn2. pose proof Hcall as [[p Hp] Hc]. pose proof Hs as (Hpo & _).
  unfold vfs_dup2. apply wp_bind. eapply wp_mono; [exact Hc|]. intros a s' [-> ->]. apply wp_bind.
  eapply wp_mono; [by eapply fd_exist_ok|].
  assert (exists s1, kept s s1 /\ kept s1 s) as Hrefl by (exists s; by split; apply kept_refl).
  intros [|] s' [-> Hx]; simpl; [|by step].
  destruct (Hx eq_refl) as (k_old & o & -> & Hko & Ho & Huo).
  destruct (in_range newfd) eqn:Hr; simpl; [|by step].
  unfold in_range, PROCESS_MAX_OPEN_FD in Hr. rewrite Z.geb_leb in Hr.
  destruct (Z.ltb_spec newfd 0), (Z.leb_spec 255 newfd); try done.
  set (k := Z.to_nat newfd). assert (newfd = Z.of_nat k) as Hnk by (unfold k; lia).
  destruct (Hpo pa p Hp) as [_ Hlen]. destruct (files p !! k) as [f|] eqn:Hf.
  2: { apply lookup_ge_None_1 in Hf. lia. }
  assert (file_at (pa, k) s = Some f) as Hat by (unfold file_at; simpl; by rewrite Hp).
  apply wp_bind. eapply wp_rd; [done|]. apply wp_bind.
  eapply (wp_mono _ _ (fun n s1 => kept s s1 /\ (0 <= n -> exists f1, file_at (pa, k) s1 = Some f1 /\
    used f1 = false /\ forall r', r' <> (pa, k) -> file_at r' s1 = file_at r' s))).
  { destruct (used f) eqn:Hu; [by apply close_ok|]. step. split; [by apply kept_refl|]. by exists f. }
  intros n s1 [Hk1 Hn]. destruct (Z.ltb_spec n 0).
  { step. exists s1. split; [done|]. apply kept_refl. apply Hk1. }
  destruct Hn as (f1 & Hf1 & Hu1 & Hsame); [done|]. pose proof Hk1 as [Hs1 _].
  pose proof Hs1 as (Hpo1 & _). pose proof Hf1 as Hp1. unfold file_at in Hp1. simpl in Hp1.
  destruct (procs s1 !! pa) as [p1|] eqn:Hpa; [|done]. destruct (Hpo1 pa p1 Hpa) as [Hl1 _].
  apply wp_bind. eapply wp_lock_files; [done..|]. apply wp_bind.
  eapply wp_wr; [by rewrite file_at_held|]. apply wp_bind.
  apply wp_unlock_files; [apply procs_set, procs_held; by exists p1|].
  rewrite (release_held pa k _ p1 s1) by done. rewrite set_file_mk_id, Nat2Z.id.
  eapply wp_mono; [|intros x s2 Hk2; exists s1; split; [exact Hk1|exact Hk2]].
  rewrite Hnk. eapply (dup_into_ok s1 pa k k_old f1 _ o); try done; [lia|unfold k; lia| |].
  - rewrite Hsame; [done|]. unfold k. intros [= ?]. lia.
  - apply Hnn; [by rewrite Nat2Z.id|done].
Qed.

(** ** Opening *)

(** The inodes of [s] and one more, at [a], with one reference. *)
Definition one_more (a : Z) (m m' : gmap Z inode) : Prop :=
  0 < a /\ m !! a = None /\ (exists i, m' !! a = Some i /\ ref i = 1) /\
  forall b, b <> a -> m' !! b = m !! b.

Lemma one_more_set a m m' i g :
  one_more a m m' -> m' !! a = Some i -> ref (g i) = ref i -> one_more a m (<[a := g i]> m').
Proof.
  intros (Ha & Hn & (j & Hj & Hr) & Hb) Hi Hg. split; [done|]. split; [done|]. split.
  - exists (g i). rewrite lookup_insert_eq. split; [done|]. congruence.
  - intros b Hne. by rewrite lookup_insert_ne, Hb.
Qed.

(** The blocks of the inodes are allocated. *)
Definition backed (m : gmap Z inode) (l : gmap Z Z) : Prop :=
  forall a i, m !! a = Some i -> 0 < a /\ 0 < ref i /\ is_Some (l !! a).

Lemma one_more_backed a m m' l n :
  one_more a m m' -> backed m l -> backed m' (<[a := n]> l).
Proof.
  intros (Ha & Hn & (i & Hi & Hr) & Hb) Hm b j Hj. destruct (decide (b = a)) as [->|Hne].
  - rewrite lookup_insert_eq. simplify_eq. split; [done|]. split; [lia|by eauto].
  - rewrite Hb in Hj by done. rewrite lookup_insert_ne by done. by apply Hm.
Qed.

Lemma inode_new_ok m s :
  heap_ok (kheap s) -> backed (inodes s) (live (kheap s)) ->
  room (kheap s) (sizeof_inode + KMALLOC_OVERHEAD) ->
  wp (inode_new m) s (fun a s' => exists h n m', one_more a (inodes s) m' /\ heap_ok h /\
    live h = <[a := n]> (live (kheap s)) /\ live (kheap s) !! a = None /\
    s' = set_kheap h (set_inodes m' s)).
Proof.
  intros Hok Hb Hroom. unfold inode_new. apply wp_bind, wp_zoom.
  eapply wp_mono; [apply (kmalloc_spec _ _ 0); [done|unfold sizeof_inode; lia|by left|by rewrite Z.add_0_r]|].
  intros a h (Hok' & Ha & Hnone & (n & _ & Hl) & _). destruct (Z.eqb_spec a 0); [lia|].
  apply wp_bind, wp_modify, wp_ret.
  exists h, n, (<[a := {| mode := m; uid := 0; gid := 0; ino := 0; dev := 0; isize := 0; ref := 1 |}]>
                (inodes s)). split; [|done].
  split; [lia|]. split.
  - destruct (inodes s !! a) as [i|] eqn:Hi; [|done].
    destruct (Hb a i Hi) as (_ & _ & [? ?]). congruence.
  - split; [eexists; split; [apply lookup_insert_eq|done]|].
    intros b Hne. simpl. by rewrite lookup_insert_ne.
Qed.

Lemma opened_kept s r f f' m' a w h n :
  ref_inv s -> file_at r s = Some f -> used f = false -> one_more a (inodes s) m' -> heap_ok h ->
  live h = <[a := n]> (live (kheap s)) ->
  used f' = true -> f_inode f' = a -> is_Some (f_ops_at (f_ops f')) ->
  kept s (mk s r f' m' (Fs.set_kheap h (Fs.set_world w (fsys s)))).
Proof.
  intros Hs Hf Hu Hm Hok Hl Hu' Ha Ho. pose proof Hs as (_ & _ & Hb & _).
  eapply kept_mk; [done|done|done| | |done].
  - rewrite Hl. by eapply one_more_backed.
  - intros b. destruct Hm as (Hpos & Hn & (i & Hi & Hr) & Hsame).
    rewrite (holds_unused b f Hu), (holds_used b f' Hu'), Ha by lia.
    destruct (decide (a = b)) as [<-|Hne]; [rewrite Hi, Hn; simpl; lia|].
    rewrite Hsame by done. lia.
Qed.

(** Giving the new inode back. *)
Lemma failed_kept s r f f' m' a i w h h' n :
  ref_inv s -> file_at r s = Some f -> used f = false -> used f' = false ->
  one_more a (inodes s) m' -> m' !! a = Some i -> live (kheap s) !! a = None ->
  live h = <[a := n]> (live (kheap s)) -> heap_ok h' ->
  live h' = (if ref i =? 1 then delete a (live h) else live h) ->
  kept s (mk s r f' (dropped a i m') (Fs.set_kheap h' (Fs.set_world w (fsys s)))).
Proof.
  intros Hs Hf Hu Hu' Hm Hi Hnone Hl Hok' Hl'. pose proof Hs as (_ & _ & Hb & _).
  destruct Hm as (Ha & Hn & (j & Hj & Hr) & Hsame). simplify_eq.
  assert (forall b, dropped a j m' !! b = inodes s !! b) as Hd.
  { intros b. unfold dropped. rewrite Hr. simpl. destruct (decide (b = a)) as [->|Hne].
    - by rewrite lookup_delete_eq.
    - by rewrite lookup_delete_ne, Hsame. }
  rewrite Hr in Hl'. simpl in Hl'. rewrite Hl, delete_insert_id in Hl' by done.
  eapply kept_mk; [done|done|done| | |congruence].
  - intros b x. rewrite Hd, Hl'. apply Hb.
  - intros b. rewrite Hd, (holds_unused b f Hu), (holds_unused b f' Hu'). lia.
Qed.

(** An active device whose operations exist. *)
Definition device_ok (w : W) (d : Z) : Prop :=
  0 <= d < Device.VFS_MAX_DEVICE /\
  exists x, Device.devices (devices_of w) !! Z.to_nat d = Some x /\ Device.active x = true /\
    is_Some (f_ops_at (Device.f_ops x)).

Lemma wp_device_get s d x Q :
  0 <= d < Device.VFS_MAX_DEVICE ->
  Device.devices (devices_of (world s)) !! Z.to_nat d = Some x -> Device.active x = true ->
  (forall w, Q (Some x) (set_world w s)) ->
  wp (on_devices (Device.device_get d)) s Q.
Proof.
  intros Hd Hx Ha HQ. apply wp_zoom. unfold Device.device_get. rewrite Z.geb_leb.
  destruct (Z.ltb_spec d 0); [lia|]. destruct (Z.leb_spec Device.VFS_MAX_DEVICE d); [lia|].
  apply wp_bind, wp_get. rewrite Hx, Ha. apply wp_ret. apply HQ.
Qed.

Lemma set_world_mk w s r f m F : set_world w (mk s r f m F) = mk s r f m (Fs.set_world w F).
Proof. done. Qed.

(** What a slot that is being opened looks like. *)
Definition opening (a : Z) f : Prop := used f = true /\ f_inode f = a.

Lemma open_target_ok s r f0 g m' F a res mount_pt (Q : Z -> state -> Prop) :
  file_at r s = Some f0 -> opening a g -> one_more a (inodes s) m' ->
  Fs.mounts_ok F ->
  (forall b x, Fs.fss F !! b = Some x -> is_Some (f_ops_at (Fs.fs_f_ops x))) ->
  Device.res_dev res < 0 \/ device_ok (Fs.world F) (Device.res_dev res) ->
  (exists i e, mount_pt = Some i /\ Fs.mounts F !! i = Some e /\ Fs.used e = true) ->
  (forall n g' m'' w, opening a g' -> is_Some (f_ops_at (f_ops g')) -> one_more a (inodes s) m'' ->
     Q n (mk s r g' m'' (Fs.set_world w F))) ->
  wp (open_target r a res mount_pt) (mk s r g m' F) Q.
Proof.
  intros Hf Hg Hm [_ HF] Hfss Hdev (i & e & -> & He & Hue) HQ. unfold open_target.
  pose proof Hm as (_ & _ & (j & Hj & _) & _).
  destruct (Z.ltb_spec (Device.res_dev res) 0) as [Hneg|Hpos].
  - apply wp_bind. eapply wp_wr_mk; [done|]. apply wp_bind. eapply wp_deref_at; [done|].
    apply wp_bind. eapply wp_deref_at; [done|]. rewrite Forall_forall in HF.
    destruct (HF e) as (_ & x & f & ops & Hx & Hfs & _); [by eapply list_elem_of_lookup_2|done|].
    apply wp_bind. eapply wp_deref_at; [done|]. apply wp_bind. eapply wp_deref_at; [done|].
    apply wp_bind. eapply wp_wr_mk; [done|]. apply wp_bind. eapply wp_set_inode_mk; [done|]. step.
    replace F with (Fs.set_world (Fs.world F) F) at 1 by (by destruct F).
    apply HQ; [done|by eapply Hfss|by apply one_more_set].
  - destruct Hdev as [?|(Hd & x & Hx & Ha & Ho)]; [lia|]. apply wp_bind.
    eapply wp_device_get; [done|done|done|]. intros w. rewrite set_world_mk.
    apply wp_bind. eapply wp_wr_mk; [done|]. apply wp_bind. eapply wp_deref_at; [done|].
    apply wp_bind. eapply wp_wr_mk; [done|]. apply wp_bind. eapply wp_set_inode_mk; [done|]. step.
    apply HQ; [done|done|by apply one_more_set].
Qed.

Lemma open_call_ok s r f0 g m' F t n flags m (Q : Z -> state -> Prop) a :
  drivers_return -> file_at r s = Some f0 -> opening a g -> is_Some (f_ops_at (f_ops g)) ->
  (forall x g' w, opening a g' -> is_Some (f_ops_at (f_ops g')) ->
     Q x (mk s r g' m' (Fs.set_world w F))) ->
  wp (open_call r t n flags m) (mk s r g m' F) Q.
Proof.
  intros Hd Hf Hg [ops Ho] HQ. unfold open_call. apply wp_bind. eapply wp_rd_mk; [done|].
  apply wp_bind. eapply wp_deref_at; [done|]. destruct (Hd _ _ Ho) as (Hopen & _).
  destruct (op_open ops) as [open|].
  - pose proof Hf as Hp. unfold file_at in Hp. destruct (procs s !! r.1) as [p|] eqn:Hpa; [|done].
    destruct (procs_mk s r g m' F r.1 p Hpa) as (p' & Hp' & _).
    apply wp_bind. eapply wp_deref_at; [done|]. apply wp_bind. apply wp_call; [by apply Hopen|].
    intros x w. rewrite set_world_mk. apply wp_bind. eapply wp_wr_mk; [done|]. step.
    apply HQ; [done|by exists ops].
  - step. replace F with (Fs.set_world (Fs.world F) F) at 1 by (by destruct F).
    apply HQ; [done|by exists ops].
Qed.

(** What lookups promise of the devices they give. *)
Definition gives_devices (d i : Z) (w : W) : Prop := d < 0 \/ device_ok w d.

(** The file systems have file operations. *)
Definition fss_ok (F : Fs.fsys H W) : Prop :=
  forall b x, Fs.fss F !! b = Some x -> is_Some (f_ops_at (Fs.fs_f_ops x)).

(** Nothing has been opened: the inodes and the blocks are the old ones. *)
Lemma same_kept s m' w h :
  ref_inv s -> (forall b, m' !! b = inodes s !! b) -> heap_ok h -> live h = live (kheap s) ->
  kept s (set_fsys (Fs.set_kheap h (Fs.set_world w (fsys s))) (set_inodes m' s)).
Proof.
  intros (? & _ & Hb & Hr & ?) Hm Hok Hl.
  split; [|split; [by exists (0, 0%nat)|by exists w, h]].
  split; [done|]. split; [done|]. split; [|split; [|done]].
  - intros b x. simpl. rewrite Hm. unfold kheap. simpl. rewrite Hl. apply Hb.
  - intros b. simpl. rewrite Hm. apply Hr.
Qed.

(** The part of [vfs_open] that fills in the new slot. *)
Lemma open_tail_ok s t pa k f a m' w h n res mp flags m :
  ref_inv s -> drivers_return -> Fs.mounts_ok (fsys s) -> fss_ok (fsys s) ->
  (k < 255)%nat -> file_at (pa, k) s = Some f -> used f = false ->
  one_more a (inodes s) m' -> heap_ok h -> live (kheap s) !! a = None ->
  live h = <[a := n]> (live (kheap s)) ->
  gives_devices (Device.res_dev res) (Device.res_inode res) w ->
  (exists i e, mp = Some i /\ Fs.mounts (fsys s) !! i = Some e /\ Fs.used e = true) ->
  wp (wr (pa, k) (with_inode a) ;;;
      wr (pa, k) (with_offset 0) ;;;
      let! inode_open := open_target (pa, k) a res mp in
      let! c := open_call (pa, k) t inode_open flags m in
      if c <? 0 then
        process_free_fd pa (Z.of_nat k) ;;;
        inode_del a ;;;
        ret c
      else
        set_inode a (with_ino (u32 c)) ;;;
        ret (Z.of_nat k))
    (mk s (pa, k) (with_used true f) m' (Fs.set_kheap h (Fs.set_world w (fsys s))))
    (fun _ => kept s).
Proof.
  intros Hs Hd Hmnt Hfss Hk Hat Hu Hm Hok Ha Hl HP Hmp. pose proof Hs as (Hpo & _).
  apply wp_bind. eapply wp_wr_mk; [done|]. apply wp_bind. eapply wp_wr_mk; [done|].
  apply wp_bind. eapply (open_target_ok _ _ _ _ _ _ a);
    [done|done|done|exact Hmnt|exact Hfss|exact HP|exact Hmp|].
  intros n2 g2 m2 w2 Hg2 Ho2 Hm2. apply wp_bind.
  eapply (open_call_ok _ _ _ _ _ _ _ _ _ _ _ a); [done..|]. intros x g3 w3 [Hg3 Hi3] Ho3.
  pose proof Hm2 as (_ & _ & (i2 & Hi2 & Hone) & _).
  change (Fs.set_world w3 _) with (Fs.set_kheap h (Fs.set_world w3 (fsys s))).
  destruct (Z.ltb_spec x 0).
  - apply wp_bind. eapply wp_free_fd_mk; [done..|]. apply wp_bind.
    eapply wp_inode_del_mk; [done|simpl; rewrite Hl, lookup_insert_eq; eauto|done|lia|].
    intros h3 Hok3 Hl3. step. by eapply failed_kept.
  - apply wp_bind. eapply wp_set_inode_mk; [done|]. step.
    eapply opened_kept; try done. by apply one_more_set.
Qed.

Lemma open_ok I fuel t pa path flags m s :
  ref_inv s -> drivers_return -> Fs.driver_counts I gives_devices -> I (world s) -> caller s t pa ->
  Fs.mounts_ok (fsys s) -> fss_ok (fsys s) -> is_string path ->
  Z.of_nat (length path) < 2 ^ 31 - 2 ^ 15 -> (length path + 1 < fuel)%nat ->
  room (kheap s) (Z.of_nat (length path) + 1 + KMALLOC_OVERHEAD + (sizeof_inode + KMALLOC_OVERHEAD)) ->
  wp (vfs_open fuel t path flags m) s (fun _ => kept s).
Proof.
  intros Hs Hd Hlk HI [[p Hp] Hc] Hmnt Hfss Hstr Hlen Hfuel Hroom. pose proof Hs as (Hpo & Hok & Hb & _).
  unfold vfs_open. apply wp_bind. eapply wp_mono; [exact Hc|]. intros a0 s' [-> ->].
  apply wp_bind, wp_zoom. eapply wp_mono.
  { apply (Fs.lookup_returns_ok I gives_devices _ _ _ _ _ (sizeof_inode + KMALLOC_OVERHEAD));
      [done..|unfold sizeof_inode, KMALLOC_OVERHEAD; lia|done]. }
  intros [[n res] mp] F [(w & h & -> & Hok' & Hl & Hr) Hpost]. cbn [fst snd] in Hpost |- *.
  pose proof (same_kept s (inodes s) w h Hs (fun _ => eq_refl) Hok' Hl) as Hnone.
  destruct (Z.ltb_spec n 0); [by step|]. destruct Hpost as [?|(Hn & _ & HP & Hmp)]; [lia|].
  destruct (Z.eqb_spec n (Z.of_nat (length path))); [|by step]. cbn [negb]. apply wp_bind.
  eapply wp_mono; [apply inode_new_ok; [done| |done]; unfold kheap; simpl; by rewrite Hl|].
  intros a s' (h2 & k2 & m' & Hm & Hok2 & Hl2 & Ha & ->). unfold kheap in Hl2, Ha. simpl in Hl2, Ha.
  rewrite Hl in Hl2, Ha.
  destruct (Z.eqb_spec a 0) as [->|_]; [by destruct Hm|]. apply wp_bind.
  eapply wp_mono; [eapply (new_fd_ok pa p); done|].
  intros fd s' [(-> & -> & _)|(k & f & (Hk & Hf & Hu & _) & -> & ->)].
  - simpl. apply wp_bind, wp_zoom. eapply wp_mono.
    { apply kfree_spec; [done|]. unfold kheap. simpl. rewrite Hl2, lookup_insert_eq. eauto. }
    unfold kheap. simpl. intros [] h3 (Hok3 & Hl3 & _). rewrite Hl2, delete_insert_id in Hl3 by done.
    steps. destruct Hm as (_ & Hmn & _ & Hsame). apply (same_kept s (delete a m') w h3); try done.
    intros b. destruct (decide (b = a)) as [->|]; [by rewrite lookup_delete_eq|].
    by rewrite lookup_delete_ne, Hsame.
  - destruct (Z.ltb_spec (Z.of_nat k) 0); [lia|]. rewrite Nat2Z.id.
    change (set_file (pa, k) _ _) with
      (mk s (pa, k) (with_used true f) m' (Fs.set_kheap h2 (Fs.set_world w (fsys s)))).
    eapply open_tail_ok; try done. unfold file_at. simpl. by rewrite Hp.
Qed.

(** A name lookup in the table of devices leaves the table. *)
Lemma device_from_name_ok nm s (Q : Z -> state -> Prop) :
  Device.dev_inv (devices_of (world s)) -> is_string nm ->
  (forall w, Q (- ENODEV) (set_world w s)) ->
  (forall i d, Device.in_slot (devices_of (world s)) i d ->
     Q (Z.of_nat i) (set_world (set_devices_of (devices_of (world s)) (world s)) s)) ->
  wp (on_devices (Device.device_get_from_name nm)) s Q.
Proof.
  intros Hd Hnm Hno Hyes. apply wp_zoom. eapply wp_mono; [by apply Device.get_from_name_ok|].
  intros r d [-> [(i & x & [Hx _] & ->)|[_ ->]]]; [by eapply Hyes|apply Hno].
Qed.

(** What [vfs_open_device] relies on: a well-formed table whose active devices
    have file operations, and storing the table back changes nothing. *)
Definition devices_ok (w : W) : Prop :=
  Device.dev_inv (devices_of w) /\ devices_of (set_devices_of (devices_of w) w) = devices_of w /\
  forall i d, Device.in_slot (devices_of w) i d -> is_Some (f_ops_at (Device.f_ops d)).

Lemma open_device_ok t pa nm flags m s :
  ref_inv s -> drivers_return -> caller s t pa -> devices_ok (world s) -> is_string nm ->
  room (kheap s) (sizeof_inode + KMALLOC_OVERHEAD) ->
  wp (vfs_open_device t nm flags m) s (fun _ => kept s).
Proof.
  intros Hs Hd [[p Hp] Hc] (Hdev & Hput & Hfo) Hnm Hroom. pose proof Hs as (Hpo & Hok & Hb & _).
  assert (forall w, kept s (set_world w s)) as Hnone.
  { intros w. by apply (same_kept s (inodes s) w (kheap s)). }
  unfold vfs_open_device. apply wp_bind. eapply wp_mono; [exact Hc|]. intros a0 s' [-> ->].
  apply wp_bind. apply device_from_name_ok; [done|done|intros w; step; apply Hnone|].
  intros i d Hi. destruct (Z.ltb_spec (Z.of_nat i) 0); [lia|].
  assert (i < 255)%nat as Hi255.
  { destruct Hdev as (_ & _ & Hlen & _). rewrite <-Hlen. eapply lookup_lt_Some, Hi. }
  apply wp_bind. eapply wp_device_get; [unfold Device.VFS_MAX_DEVICE; lia| |apply Hi|].
  { rewrite Nat2Z.id.
    change (devices_of _) with (devices_of (set_devices_of (devices_of (world s)) (world s))).
    rewrite Hput. apply Hi. }
  intros w. destruct (Hfo i d Hi) as [ops Ho]. apply wp_bind. eapply wp_deref_at; [done|].
  destruct (op_open ops); [|step; apply Hnone]. apply wp_bind.
  eapply wp_mono; [eapply (new_fd_ok pa p); done|].
  intros fd s' [(-> & -> & _)|(k & f & (Hk & Hf & Hu & _) & -> & ->)]; [step; apply Hnone|].
  destruct (Z.ltb_spec (Z.of_nat k) 0); [lia|]. rewrite Nat2Z.id.
  assert (file_at (pa, k) s = Some f) as Hat by (unfold file_at; simpl; by rewrite Hp).
  apply wp_bind. eapply wp_mono; [by apply inode_new_ok|].
  intros a s' (h & n & m' & Hm & Hok' & Hl & Ha & ->).
  change (kheap _) with (kheap s) in Hl, Ha.
  change (set_kheap h _) with (mk s (pa, k) (with_used true f) m' (Fs.set_kheap h (Fs.set_world w (fsys s)))).
  apply wp_bind. eapply wp_wr_mk; [done|]. destruct (Z.eqb_spec a 0) as [->|_]; [by destruct Hm|].
  pose proof Hm as (_ & _ & (j & Hj & _) & _).
  apply wp_bind. eapply wp_wr_mk; [done|]. apply wp_bind. eapply wp_wr_mk; [done|].
  apply wp_bind. eapply wp_set_inode_mk; [done|]. apply wp_bind. eapply wp_wr_mk; [done|].
  apply wp_bind. eapply (open_call_ok _ _ _ _ _ _ _ _ _ _ _ a); [done|done|done|by exists ops|].
  intros x g w3 [Hg Hi3] Ho3.
  change (Fs.set_world w3 _) with (Fs.set_kheap h (Fs.set_world w3 (fsys s))).
  assert (one_more a (inodes s) (<[a := with_dev (Z.of_nat i) j]> m')) as Hm2 by (by apply one_more_set).
  pose proof Hm2 as (_ & _ & (i2 & Hi2 & Hone) & _). destruct (Z.ltb_spec x 0).
  - apply wp_bind. eapply wp_inode_del_mk; [done|simpl; rewrite Hl, lookup_insert_eq; eauto|done|lia|].
    intros h3 Hok3 Hl3. apply wp_bind. eapply wp_free_fd_mk; [done..|]. step. by eapply failed_kept.
  - apply wp_bind. eapply wp_set_inode_mk; [done|]. step.
    eapply opened_kept; try done. by apply one_more_set.
Qed.

(** ** The properties *)

Inductive request :=
  | Open (path : list Z) (flags m : Z)
  | OpenDevice (nm : list Z) (flags m : Z)
  | Close (fd : Z)
  | Dup (fd : Z)
  | Dup2 (oldfd newfd : Z).

Definition serve (fuel : nat) (t : option thread) (pa : Z) (q : request) : M state Z :=
  match q with
  | Open path flags m => vfs_open fuel t path flags m
  | OpenDevice nm flags m => vfs_open_device t nm flags m
  | Close fd => vfs_close pa t fd
  | Dup fd => vfs_dup t fd
  | Dup2 oldfd newfd => vfs_dup2 pa t oldfd newfd
  end.

(** Strings are C strings and there is memory for the path and an inode.  A file that is
    closed or duplicated has an inode, and is not duplicated onto itself: the code
    dereferences a null pointer in the first case ([vfs_close_no_inode]) and closes the
    file in the second ([vfs_dup2_same]). *)
Definition request_ok (fuel : nat) s (pa : Z) (q : request) : Prop :=
  match q with
  | Open path _ _ => is_string path /\ Z.of_nat (length path) < 2 ^ 31 - 2 ^ 15 /\
      (length path + 1 < fuel)%nat /\
      room (kheap s) (Z.of_nat (length path) + 1 + KMALLOC_OVERHEAD + (sizeof_inode + KMALLOC_OVERHEAD))
  | OpenDevice nm _ _ => is_string nm /\ room (kheap s) (sizeof_inode + KMALLOC_OVERHEAD)
  | Close fd | Dup fd => has_inode s pa fd
  | Dup2 oldfd newfd => oldfd <> newfd /\ has_inode s pa oldfd /\ has_inode s pa newfd
  end.


Lemma lseek_seeks t pa fd off whence f s Q :
  caller s t pa -> 0 <= fd <= 255 -> file_at (pa, Z.to_nat fd) s = Some f -> used f = true ->
  whence = VFS_SEEK_SET \/ whence = VFS_SEEK_CUR ->
  wp (seek_file (pa, Z.to_nat fd) f off whence) s Q -> wp (vfs_lseek t fd off whence) s Q.
Proof.
  intros [_ Hc] Hfd Hf Hu Hw HQ. unfold vfs_lseek. apply wp_bind. eapply wp_mono; [exact Hc|].
  intros a s' [-> ->]. assert (_ && _ = false) as -> by by destruct Hw as [-> | ->].
  unfold PROCESS_MAX_OPEN_FD. destruct (Z.ltb_spec fd 0), (Z.gtb_spec fd 255); try lia. cbn [orb].
  apply wp_bind. eapply wp_rd; [done|]. rewrite Hu. exact HQ.
Qed.

Lemma seek_cur_adds r f off s Q :
  file_at r s = Some f -> - 2 ^ 63 <= offset f + off < 2 ^ 63 ->
  let n := offset f + off in
  let old := u32 (offset f) in
  (if decide (off < 0 /\ old < n \/ 0 < off /\ n < old)
   then Q (- EINVAL) (set_file r (with_offset old f) s)
   else Q 0 (set_file r (with_offset n f) s)) ->
  wp (seek_file r f off VFS_SEEK_CUR) s Q.
Proof.
  intros Hf Hn n old HQ. unfold seek_file.
  change (negb (Z.land VFS_SEEK_CUR VFS_SEEK_SET =? 0)) with false.
  change (negb (Z.land VFS_SEEK_CUR VFS_SEEK_CUR =? 0)) with true. cbv iota. fold old. unfold off_add.
  destruct (Z.leb_spec (- 2 ^ 63) (offset f + off)); [|lia].
  destruct (Z.ltb_spec (offset f + off) (2 ^ 63)); [|lia]. cbn [andb]. fold n.
  apply wp_bind, wp_ret, wp_bind. eapply wp_wr; [done|].
  assert (Q (- EINVAL) (set_file r (with_offset old f) s) ->
    wp (wr r (with_offset old) ;;; ret (- EINVAL)) (set_file r (with_offset n f) s) Q) as Hback.
  { intros Hq. apply wp_bind. eapply wp_wr; [by eapply file_at_set|]. step.
    by rewrite set_file_twice. }
  destruct (Z.ltb_spec off 0), (Z.gtb_spec off 0), (Z.gtb_spec n old), (Z.ltb_spec n old);
    cbn [andb]; case_decide; try lia; auto; by step.
Qed.

(** [vfs_lseek] on an open file.  An absolute seek sets any non-negative
    offset and refuses the others.  A relative seek from an offset below 2^32
    always succeeds and adds the distance, also when the sum is negative.  From
    an offset of 2^32 or more, a backward seek that stays above the offset
    modulo 2^32 fails, and leaves the file at the offset modulo 2^32. *)
Theorem vfs_lseek_moves t pa fd off f s :
  caller s t pa -> 0 <= fd <= 255 -> file_at (pa, Z.to_nat fd) s = Some f -> used f = true ->
  let at_offset o s' := s' = set_file (pa, Z.to_nat fd) (with_offset o f) s in
  (0 <= off -> wp (vfs_lseek t fd off VFS_SEEK_SET) s (fun n s' => n = 0 /\ at_offset off s')) /\
  (off < 0 -> wp (vfs_lseek t fd off VFS_SEEK_SET) s (fun n s' => n = - EINVAL /\ s' = s)) /\
  (0 <= offset f < 2 ^ 32 -> - 2 ^ 63 <= offset f + off < 2 ^ 63 ->
   wp (vfs_lseek t fd off VFS_SEEK_CUR) s (fun n s' => n = 0 /\ at_offset (offset f + off) s')) /\
  (2 ^ 32 <= offset f < 2 ^ 63 -> off < 0 -> u32 (offset f) < offset f + off ->
   wp (vfs_lseek t fd off VFS_SEEK_CUR) s (fun n s' =>
     n = - EINVAL /\ at_offset (u32 (offset f)) s')).
Proof.
  intros Hc Hfd Hf Hu at_offset. unfold at_offset. repeat split; intros.
  - eapply lseek_seeks; [done..|by left|]. unfold seek_file.
    change (negb (Z.land VFS_SEEK_SET VFS_SEEK_SET =? 0)) with true. cbv iota.
    destruct (Z.ltb_spec off 0); [lia|]. apply wp_bind. eapply wp_wr; [done|]. by step.
  - eapply lseek_seeks; [done..|by left|]. unfold seek_file.
    change (negb (Z.land VFS_SEEK_SET VFS_SEEK_SET =? 0)) with true. cbv iota.
    destruct (Z.ltb_spec off 0); [|lia]. by step.
  - eapply lseek_seeks; [done..|by right|]. apply seek_cur_adds; [done|done|].
    rewrite u32_small by lia. rewrite decide_False by lia. done.
  - pose proof (u32_range (offset f)). eapply lseek_seeks; [done..|by right|].
    apply seek_cur_adds; [done|lia|]. rewrite decide_True by lia. done.
Qed.

End ops.
Arguments state : clear implicits.

(** ** Examples

    The device file system is mounted at the root, and the table of devices is
    the only state of the drivers.  The device tty0 answers any request. *)

#[local] Existing Instance Kmalloc.kmalloc_kheap.

Definition devfs_ops : Fs.fs_operation Device.devs :=
  {| Fs.fo_lookup := Some (fun _ path _ _ res => Device.devfs_lookup path res);
     Fs.fo_mkdir := None; Fs.fo_mknod := None;
     Fs.fo_stat := Some (fun _ _ _ n => Device.devfs_stat n);
     Fs.fo_mount := None;
     Fs.fo_getdirent := Some (fun _ n index => Device.devfs_getdirent n index) |}.

Definition devfs_sup_ops : Fs.fs_super_operation Device.devs :=
  {| Fs.so_create := Some (fun _ _ _ => let! r := Device.devfs_create in ret (r, 0)) |}.

#[local] Instance devfs_driver : Fs.FsDriver Device.devs := {
  Fs.super_ops_at a := if a =? 710 then Some devfs_sup_ops else None;
  Fs.fs_ops_at a := if a =? 700 then Some devfs_ops else None;
}.

Definition devfs_f_ops : file_operation Device.devs :=
  {| op_open := Some (fun f n _ _ _ _ _ => let! r := Device.devfs_open n in ret (r, private f));
     op_read := None; op_write := None; op_ioctl := None; op_dup := None;
     op_close := Some (fun _ _ => Device.devfs_close) |}.

Definition tty_f_ops : file_operation Device.devs :=
  {| op_open := Some (fun _ _ _ _ _ _ _ => ret (3, 0));
     op_read := Some (fun _ _ q => ret (2, rq_off q + 2, [104; 105]));
     op_write := None; op_ioctl := None; op_dup := None;
     op_close := Some (fun _ _ => ret 0) |}.

#[local] Instance devfs_files : FileDriver Device.devs := {
  f_ops_at a := if a =? 800 then Some devfs_f_ops else if a =? 500 then Some tty_f_ops else None;
  devices_of w := w;
  set_devices_of d _ := d;
}.

Definition devfs_fs : Fs.fs :=
  {| Fs.fs_name := [100; 101; 118; 102; 115]; Fs.fs_pid := 0; Fs.fs_super_ops := 710; Fs.fs_ops := 700;
     Fs.fs_f_ops := 800; Fs.fs_private := 0; Fs.fs_inst_lock := false; Fs.instances := [501] |}.

(** One inode, at 2020, and 4000 free bytes. *)
Definition file_heap : Kmalloc.heap := {|
  Kmalloc.kmalloc_lock := false;
  Kmalloc.kmalloc_head :=
    [ {| Kmalloc.bk_addr := 2000; Kmalloc.bk_ptr := 2020; Kmalloc.bk_size := 40; Kmalloc.bk_free := false |};
      {| Kmalloc.bk_addr := 2060; Kmalloc.bk_ptr := 2080; Kmalloc.bk_size := 4000; Kmalloc.bk_free := true |} ];
  Kmalloc.mem := ∅ |}.

Definition sample_fsys : Fs.fsys Kmalloc.heap Device.devs := {|
  Fs.fs_lock := false;
  Fs.fs_list := [400];
  Fs.fss := {[ 400 := devfs_fs ]};
  Fs.insts := {[ 501 := {| Fs.parent := 400; Fs.fi_private := 0 |} ]};
  Fs.mount_lock := false;
  Fs.mounts := {| Fs.used := true; Fs.path := Some [47]; Fs.fi := 501 |} :: replicate 4 Fs.no_entry;
  Fs.kheap := file_heap;
  Fs.world := Device.sample_devs |}.

Definition closed_file : file :=
  {| used := false; f_inode := 0; offset := 0; f_ops := 0; private := 0; mount := None |}.
Definition tty_file : file :=
  {| used := true; f_inode := 2020; offset := 2 ^ 32 + 50; f_ops := 500; private := 0; mount := None |}.

Definition sample_files : state Kmalloc.heap Device.devs := {|
  processes := [900];
  procs := {[ 900 := {| pid := 0; files_lock := false; files := tty_file :: replicate 255 closed_file |} ]};
  inodes := {[ 2020 := {| mode := 0; uid := 0; gid := 0; ino := 3; dev := 1; isize := 0; ref := 1 |} ]};
  fsys := sample_fsys |}.

Definition sample_thread : option thread :=
  Some {| t_parent := 900; t_ids := {| Fs.t_uid := 5; Fs.t_gid := 6 |} |}.

Lemma file_heap_ok : heap_ok file_heap.
Proof.
  exists 2000, 6080. split_and!; try done.
  repeat (constructor; [split; simpl; Kmalloc.blk_arith|]). constructor.
Qed.

Lemma file_heap_room b : b <= 4000 -> room file_heap b.
Proof.
  intros. right. eexists.
  split_and!; [apply list_elem_of_further, list_elem_of_here|done|Kmalloc.blk_arith].
Qed.

Lemma sample_all_files : all_files sample_files = tty_file :: replicate 255 closed_file.
Proof. by vm_compute. Qed.

Lemma count_closed a n : count a (replicate n closed_file) = 0.
Proof. induction n as [|n IH]; [done|]. simpl. rewrite IH. unfold holds. by rewrite decide_False by (by intros []). Qed.

Lemma sample_ref_inv : ref_inv sample_files.
Proof.
  split; [|split; [apply file_heap_ok|split; [|split; [|split]]]].
  - intros pa p Hp. simpl in Hp. apply lookup_singleton_Some in Hp as [<- <-].
    by split.
  - intros a i Hi. simpl in Hi. apply lookup_singleton_Some in Hi as [<- <-]. split; [lia|]. split; [simpl; lia|]. vm_compute. eauto.
  - intros a. unfold refs. rewrite sample_all_files.
    change (holds a tty_file + count a (replicate 255 closed_file) =
      default 0 (ref <$> inodes sample_files !! a)). rewrite count_closed. rewrite holds_used by done. simpl.
    destruct (decide (2020 = a)) as [<-|Hne]; [by vm_compute|]. by rewrite lookup_singleton_ne.
  - intros f. rewrite sample_all_files. intros [->|[-> _]%elem_of_replicate]%elem_of_cons Hu; [|done].
    vm_compute. eauto.
  - rewrite sample_all_files. simpl. lia.
Qed.

Lemma sample_drivers_return : drivers_return.
Proof.
  intros o ops Ho. simpl in Ho. destruct (o =? 800); [|destruct (o =? 500); [|done]];
    simplify_eq/=; (split; [|split]); intros g Hg; simplify_eq/=; intros; intros w; try done.
  unfold Device.devfs_open. by destruct (negb _).
Qed.

Lemma sample_devices_ok : devices_ok Device.sample_devs.
Proof.
  split; [apply Device.sample_devs_inv|]. split; [done|].
  intros i d [-> ->]%Device.sample_slot. vm_compute. eauto.
Qed.

(** The devices found by the device file system are active, and have operations
    when all active devices have. *)
Lemma devfs_counts : Fs.driver_counts devices_ok gives_devices.
Proof.
  intros a ops lookup Ha Hl. simpl in Ha. destruct (a =? 700); [|done]. simplify_eq/=.
  intros _ path _ _ res w Hw Hp. pose proof Hw as (Hdev & _ & Hfo). unfold Device.devfs_lookup.
  destruct (match path with [] => (path, 0) | c :: rest => if c =? 47 then (rest, 1) else (path, 0) end)
    as [q n] eqn:Hq.
  assert (is_string q /\ 0 <= n <= 1) as [Hqs Hn].
  { destruct path as [|c rest]; [by simplify_eq|]. apply Forall_cons in Hp as [Hc Hrest].
    destruct (c =? 47); simplify_eq; (split; [|lia]); [done|by constructor]. }
  destruct (_ || _); [step; split; [done|]; split; [simpl; lia|]; split; [simpl; lia|]; by left|].
  destruct (Z.gtb_spec (Z.of_nat (length q)) Device.VFS_DEV_MAX_NAMEL) as [|Hlen].
  { step. split; [done|]. split; [simpl; lia|]. split; [simpl; lia|]. by intros []. }
  apply wp_bind. eapply wp_mono; [by apply Device.get_from_name_ok|].
  intros r d [-> [(i & x & [Hx _] & ->)|[_ ->]]].
  - destruct (Z.ltb_spec (Z.of_nat i) 0); [lia|]. step. split; [done|].
    unfold Device.VFS_DEV_MAX_NAMEL in Hlen. split; [simpl; lia|]. split; [simpl; lia|]. intros _. right.
    destruct Hdev as (_ & _ & Hlen' & _).
    assert (i < 255)%nat by (rewrite <-Hlen'; eapply lookup_lt_Some, Hx).
    split; [unfold Device.VFS_MAX_DEVICE; simpl; lia|]. exists x. simpl. rewrite Nat2Z.id.
    destruct Hx as [Hx Hact]. split; [done|]. split; [done|]. by apply (Hfo i).
  - simpl. step. split; [done|]. split; [simpl; lia|]. split; [simpl; lia|]. by intros [].
Qed.

Lemma devfs_mounts_ok : Fs.mounts_ok sample_fsys.
Proof.
  split; [simpl; lia|]. apply Forall_cons. split.
  - intros _. split; [exists [47]; split; [done|]; split; [repeat constructor; unfold is_char; lia|done]|].
    exists {| Fs.parent := 400; Fs.fi_private := 0 |}, devfs_fs, devfs_ops. by split_and!.
  - by apply Forall_replicate.
Qed.

Lemma sample_fss_ok : fss_ok sample_fsys.
Proof. intros b x Hb. simpl in Hb. apply lookup_singleton_Some in Hb as [<- <-]. by eexists. Qed.

Lemma sample_caller : caller sample_files sample_thread 900.
Proof. split; [vm_compute; eauto|done]. Qed.

(** Opening [/tty0]. *)
Definition sample_request : request := Open [47; 116; 116; 121; 48] 0 0.


Lemma vfs_lseek_moves_witness :
  let at_offset o s' := s' = set_file (900, 0%nat) (with_offset o tty_file) sample_files in
  (0 <= -5 -> wp (vfs_lseek sample_thread 0 (-5) VFS_SEEK_SET) sample_files (fun n s' =>
     n = 0 /\ at_offset (-5) s')) /\
  (-5 < 0 -> wp (vfs_lseek sample_thread 0 (-5) VFS_SEEK_SET) sample_files (fun n s' =>
     n = - EINVAL /\ s' = sample_files)) /\
  (0 <= offset tty_file < 2 ^ 32 -> - 2 ^ 63 <= offset tty_file + -5 < 2 ^ 63 ->
   wp (vfs_lseek sample_thread 0 (-5) VFS_SEEK_CUR) sample_files (fun n s' =>
     n = 0 /\ at_offset (offset tty_file + -5) s')) /\
  (2 ^ 32 <= offset tty_file < 2 ^ 63 -> -5 < 0 -> u32 (offset tty_file) < offset tty_file + -5 ->
   wp (vfs_lseek sample_thread 0 (-5) VFS_SEEK_CUR) sample_files (fun n s' =>
     n = - EINVAL /\ at_offset (u32 (offset tty_file)) s')).
Proof.
  apply (vfs_lseek_moves sample_thread 900 0 (-5) tty_file sample_files);
    [apply sample_caller|lia|by vm_compute|done].
Defined.

(** Duplicating a descriptor onto itself closes the file and keeps the
    descriptor: [vfs_dup2] closes the new descriptor first, and then copies from
    the closed file, whose inode it has just cleared.  The inode is freed, and
    the descriptor stays in use without one. *)
Theorem vfs_dup2_same :
  wp (vfs_dup2 900 sample_thread 0 0) sample_files (fun n s' =>
    n = 0 /\ inodes s' = ∅ /\
    file_at (900, 0%nat) s' =
      Some {| used := true; f_inode := 0; offset := 2 ^ 32 + 50; f_ops := 500; private := 0; mount := None |}).
Proof. wp_eval. by split_and!. Qed.

(** Closing a file without inode, as those of channels are, dereferences the null
    pointer. *)
Lemma vfs_close_no_inode :
  let f := with_inode 0 tty_file in
  vfs_close 900 sample_thread 0 (set_file (900, 0%nat) f sample_files) = Undef.
Proof. by vm_compute. Qed.

End File.
