(* ===== verification/Malloc.v ===== *)
(** The heap of a process: userland/lib/libc/src/stdlib/malloc.c.

    The chunks are a list in the order of the [next] pointers, each with the
    address of its header.  Memory comes from [mmap], a system call: [Pages]
    states what it promises.  [UHeap] states what the programs rely on; the
    allocator is an instance.  [bytes] is the contents of the memory, for
    [realloc]. *)

From S2P Require Import Prelude KString.

(** ** Pages from the kernel

    [mmap] returns a range of whole pages that were not mapped before, or 0. *)

Definition in_range (p n x : Z) : Prop := p <= x < p + n.

Class Pages (P : Type) := {
  mmap : Z -> M P Z;
  mapped : P -> Z -> Prop;
  (** What a page holds when it is mapped. *)
  fresh_byte : P -> Z -> Z;
  fresh_byte_char : forall p x, is_char (fresh_byte p x);
  mmap_spec : forall p size, 0 < size < 2 ^ 32 -> size mod 4096 = 0 ->
    wp (mmap size) p (fun r p' =>
      (r = 0 /\ forall x, mapped p' x <-> mapped p x) \/
      (0 < r /\ r mod 4096 = 0 /\ r + size <= 2 ^ 32 /\
       (forall x, in_range r size x -> ~ mapped p x) /\
       forall x, mapped p' x <-> mapped p x \/ in_range r size x));
}.

(** ** What a program relies on

    [ulive h] gives the size of the block at every allocated address.  Blocks do
    not overlap.  Requests above [MALLOC_MAX] wrap around in the computation of
    the number of pages. *)

Definition MALLOC_MAX : Z := 2 ^ 32 - 8192.

Class UHeap (H : Type) := {
  malloc : Z -> M H Z;
  free : Z -> M H unit;
  uheap_ok : H -> Prop;
  ulive : H -> gmap Z Z;
  ulive_range : forall h p n, uheap_ok h -> ulive h !! p = Some n -> 0 < p /\ 0 < n /\ p + n <= 2 ^ 32;
  ulive_apart : forall h p n q k, uheap_ok h -> ulive h !! p = Some n -> ulive h !! q = Some k ->
    p <> q -> p + n <= q \/ q + k <= p;
  malloc_spec : forall h size, uheap_ok h -> 0 < size <= MALLOC_MAX ->
    wp (malloc size) h (fun p h' => uheap_ok h' /\
      ((p = 0 /\ ulive h' = ulive h) \/
       (p <> 0 /\ ulive h !! p = None /\ exists n, size <= n /\ ulive h' = <[p := n]> (ulive h))));
  free_spec : forall h p, uheap_ok h -> is_Some (ulive h !! p) ->
    wp (free p) h (fun _ h' => uheap_ok h' /\ ulive h' = delete p (ulive h));
}.

Module Malloc.

Record malloc_chunk := {
  ch_addr : Z;
  ch_size : Z;
  ch_free : bool;
}.

Definition set_ch_free (b : bool) (c : malloc_chunk) : malloc_chunk :=
  {| ch_addr := ch_addr c; ch_size := ch_size c; ch_free := b |}.
Definition set_ch_size (n : Z) (c : malloc_chunk) : malloc_chunk :=
  {| ch_addr := ch_addr c; ch_size := n; ch_free := ch_free c |}.

Definition PAGE_SIZE : Z := 4096.
Definition MALLOC_WASTE_THRESHOLD : Z := 4.
(** size, free, next and prev. *)
Definition sizeof_chunk : Z := 16.

Definition ALIGN_UP (x size : Z) : Z := Z.land (u32 (x + size - 1)) (u32 (Z.lnot (size - 1))).

Section ops.
Context {P : Type} `{Pages P}.

Record heap := {
  malloc_lock : bool;
  chunks : list malloc_chunk;
  bytes : bmem;
  pages : P;
}.

Definition set_lock (b : bool) (h : heap) : heap :=
  {| malloc_lock := b; chunks := chunks h; bytes := bytes h; pages := pages h |}.
Definition set_chunks (l : list malloc_chunk) (h : heap) : heap :=
  {| malloc_lock := malloc_lock h; chunks := l; bytes := bytes h; pages := pages h |}.
Definition set_bytes (m : bmem) (h : heap) : heap :=
  {| malloc_lock := malloc_lock h; chunks := chunks h; bytes := m; pages := pages h |}.
Definition set_pages (p : P) (h : heap) : heap :=
  {| malloc_lock := malloc_lock h; chunks := chunks h; bytes := bytes h; pages := p |}.

Definition request_memory (size : Z) : M heap (option malloc_chunk) :=
  let size := ALIGN_UP (u32 (size + sizeof_chunk)) PAGE_SIZE in
  let! chunk := zoom pages set_pages (mmap size) in
  if chunk =? 0 then ret None
  else
    modify (fun h => set_bytes (store_bytes chunk
      (fresh_byte (pages h) <$> seqZ chunk size) (bytes h)) h) ;;;
    ret (Some {| ch_addr := chunk; ch_size := u32 (size - sizeof_chunk); ch_free := true |}).

(** The chunk as it is left, with the new one behind it when it is cut. *)
Definition malloc_split_block (chunk : malloc_chunk) (size : Z) : list malloc_chunk :=
  if ch_size chunk >=? u32 (size + sizeof_chunk + MALLOC_WASTE_THRESHOLD) then
    [set_ch_free false (set_ch_size size chunk);
     {| ch_addr := u32 (ch_addr chunk + sizeof_chunk + size);
        ch_size := u32 (ch_size chunk - size - sizeof_chunk); ch_free := true |}]
  else [set_ch_free false chunk].

Definition malloc_initialize : M heap Z :=
  let! c := request_memory PAGE_SIZE in
  match c with
  | None => modify (set_chunks []) ;;; ret (-1)
  | Some c =>
      modify (set_chunks [c]) ;;;
      modify (set_lock false) ;;;
      ret 0
  end.

Definition malloc (size : Z) : M heap Z :=
  if size =? 0 then ret 0
  else
    let size := ALIGN_UP size 4 in
    spinlock_lock malloc_lock set_lock ;;;
    let! h := get in
    match list_break (fun c => ch_free c && (ch_size c >=? size)) (chunks h) with
    | Some (before, c, after) =>
        modify (set_chunks (before ++ malloc_split_block c size ++ after)) ;;;
        spinlock_unlock set_lock ;;;
        ret (u32 (ch_addr c + sizeof_chunk))
    | None =>
        spinlock_unlock set_lock ;;;
        let! c := request_memory size in
        match c with
        | None => ret 0
        | Some c =>
            spinlock_lock malloc_lock set_lock ;;;
            let! h := get in
            match chunks h with
            | [] => undef
            | l =>
                modify (set_chunks (malloc_split_block c size ++ l)) ;;;
                spinlock_unlock set_lock ;;;
                ret (u32 (ch_addr c + sizeof_chunk))
            end
        end
    end.

(** The chunk whose header is at [a]. *)
Definition chunk_at (a : Z) (h : heap) :=
  list_break (fun c => ch_addr c =? a) (chunks h).

Definition free (ptr : Z) : M heap unit :=
  if ptr =? 0 then ret tt
  else
    spinlock_lock malloc_lock set_lock ;;;
    let! h := get in
    match chunk_at (u32 (ptr - sizeof_chunk)) h with
    | None => undef
    | Some (before, c, after) =>
        modify (set_chunks (before ++ set_ch_free true c :: after)) ;;;
        spinlock_unlock set_lock
    end.

Definition realloc (ptr size : Z) : M heap Z :=
  if ptr =? 0 then malloc size
  else
    let! h := get in
    match chunk_at (u32 (ptr - sizeof_chunk)) h with
    | None => undef
    | Some (_, tmp, _) =>
        let copy_size := if ch_size tmp <? size then ch_size tmp else size in
        let! new_block := malloc size in
        if new_block =? 0 then ret 0
        else
          let! _ := zoom bytes set_bytes (LibcString.memcpy new_block ptr copy_size) in
          free ptr ;;;
          ret new_block
    end.
End ops.
Arguments heap : clear implicits.

(** ** Invariant *)

Definition ch_stop (c : malloc_chunk) : Z := ch_addr c + sizeof_chunk + ch_size c.
Definition ch_ptr (c : malloc_chunk) : Z := ch_addr c + sizeof_chunk.
Definition ch_ok (c : malloc_chunk) : Prop :=
  4096 <= ch_addr c /\ ch_addr c mod 4 = 0 /\ 0 < ch_size c /\ ch_size c mod 4 = 0 /\ ch_stop c <= 2 ^ 32.
Definition ch_apart (c d : malloc_chunk) : Prop := ch_stop c <= ch_addr d \/ ch_stop d <= ch_addr c.

(** No two chunks overlap. *)
Fixpoint scattered (l : list malloc_chunk) : Prop :=
  match l with
  | [] => True
  | c :: l => Forall (ch_apart c) l /\ scattered l
  end.

Definition used (c : malloc_chunk) : option (Z * Z) :=
  if ch_free c then None else Some (ch_ptr c, ch_size c).
Section inv.
Context {P : Type} `{Pages P}.
Implicit Types (h : heap P) (c d : malloc_chunk) (l : list malloc_chunk).

(** The chunks do not overlap and are in pages of the process. *)
Record chunks_ok (p : P) l : Prop := {
  co_ok : Forall ch_ok l;
  co_scattered : scattered l;
  co_mapped : forall c x, c ∈ l -> ch_addr c <= x < ch_stop c -> mapped p x;
}.

Definition heap_inv h : Prop :=
  malloc_lock h = false /\ chunks h <> [] /\ chunks_ok (pages h) (chunks h) /\
  forall x, mapped (pages h) x -> is_Some (bytes h !! x).

(** The memory that was mapped is as it was. *)
Definition bytes_kept h h' : Prop :=
  forall x, mapped (pages h) x -> mapped (pages h') x /\ bytes h' !! x = bytes h !! x.

Definition areas l : gmap Z Z := list_to_map (omap used l).
Definition live h : gmap Z Z := areas (chunks h).

(** *** Lists of chunks that do not overlap *)

Lemma ch_apart_sym c d : ch_apart c d -> ch_apart d c.
Proof. unfold ch_apart. tauto. Qed.

#[export] Instance scattered_perm : Proper ((≡ₚ) ==> iff) scattered.
Proof.
  assert (forall l l', l ≡ₚ l' -> scattered l -> scattered l') as Hp.
  { induction 1 as [|c l l' Hp IH|c d l|l1 l2 l3 _ IH1 _ IH2]; simpl; auto.
    - intros [Hc Hs]. split; [by rewrite <-Hp|auto].
    - rewrite !Forall_cons. intros [[Hcd Hc] [Hd Hs]]. auto using ch_apart_sym. }
  intros l l' Hl. split; apply Hp; [done|by symmetry].
Qed.

Lemma scattered_replace l1 c l2 new :
  scattered (l1 ++ c :: l2) -> scattered new ->
  Forall (fun d => ch_addr c <= ch_addr d /\ ch_stop d <= ch_stop c) new ->
  scattered (l1 ++ new ++ l2).
Proof.
  intros Hs Hn Hin. rewrite <-Permutation_middle in Hs. rewrite Permutation_app_swap_app.
  destruct Hs as [Hc Hs]. induction new as [|d new IH]; simpl; [done|].
  apply Forall_cons in Hin as [Hd Hin]. destruct Hn as [Hdn Hn]. split; [|by apply IH].
  apply Forall_app. split; [done|]. eapply Forall_impl; [done|]. unfold ch_apart. simpl. lia.
Qed.

Lemma scattered_NoDup l : Forall ch_ok l -> scattered l -> NoDup (ch_addr <$> l).
Proof.
  induction l as [|c l IH]; simpl; intros Hok Hs; [constructor|].
  apply Forall_cons in Hok as [Hc Hok]. destruct Hs as [Ha Hs]. constructor; [|auto].
  intros (d & Heq & Hd)%list_elem_of_fmap. rewrite Forall_forall in Ha, Hok.
  specialize (Ha d Hd). specialize (Hok d Hd). unfold ch_apart, ch_ok, ch_stop, sizeof_chunk in *. lia.
Qed.

Lemma chunk_unique l c d :
  Forall ch_ok l -> scattered l -> c ∈ l -> d ∈ l -> ch_addr c = ch_addr d -> c = d.
Proof.
  intros Hok Hs Hc Hd Heq. pose proof (scattered_NoDup l Hok Hs) as Hnd.
  destruct (list_break_key ch_addr l c Hnd Hc) as (? & ? & E1 & _).
  destruct (list_break_key ch_addr l d Hnd Hd) as (? & ? & E2 & _). rewrite <-Heq in E2. congruence.
Qed.

Lemma used_NoDup l : Forall ch_ok l -> scattered l -> NoDup (omap used l).*1.
Proof.
  induction l as [|c l IH]; intros Hok Hs; [constructor|].
  apply Forall_cons in Hok as [Hc Hok]. destruct Hs as [Ha Hs]. simpl. unfold used at 1.
  destruct (ch_free c); simpl; [auto|]. constructor; [|auto].
  intros ([q n] & Heq & Hq)%list_elem_of_fmap. apply list_elem_of_omap in Hq as (d & Hd & Hu).
  unfold used in Hu. destruct (ch_free d); simplify_eq/=. rewrite Forall_forall in Ha, Hok.
  specialize (Ha d Hd). specialize (Hok d Hd). unfold ch_apart, ch_ok, ch_ptr, ch_stop, sizeof_chunk in *. lia.
Qed.

Lemma areas_lookup l p n :
  Forall ch_ok l -> scattered l ->
  areas l !! p = Some n <-> exists c, c ∈ l /\ ch_free c = false /\ ch_ptr c = p /\ ch_size c = n.
Proof.
  intros Hok Hs. unfold areas. rewrite <-elem_of_list_to_map by by apply used_NoDup.
  rewrite list_elem_of_omap. unfold used. split.
  - intros (c & Hc & Hu). exists c. destruct (ch_free c); [done|]. by simplify_eq.
  - intros (c & Hc & Hf & <- & <-). exists c. by rewrite Hf.
Qed.

Lemma align_word x : 0 < x <= 2 ^ 32 - 4 ->
  exists n, ALIGN_UP x 4 = n /\ x <= n < x + 4 /\ n mod 4 = 0.
Proof.
  intros Hx. unfold ALIGN_UP. rewrite u32_small by lia. change (u32 _) with (2 ^ 32 - 2 ^ 2).
  rewrite land_mask by lia. exists ((x + 4 - 1) / 4 * 4). split; [done|]. Z.div_mod_to_equations. lia.
Qed.

Lemma align_page x : 0 < x <= 2 ^ 32 - 4096 ->
  exists n, ALIGN_UP x PAGE_SIZE = n /\ x <= n < x + 4096 /\ n mod 4096 = 0.
Proof.
  intros Hx. unfold ALIGN_UP, PAGE_SIZE. rewrite u32_small by lia. change (u32 _) with (2 ^ 32 - 2 ^ 12).
  rewrite land_mask by lia. exists ((x + 4096 - 1) / 4096 * 4096). split; [done|].
  change (2 ^ 12) with 4096. Z.div_mod_to_equations. lia.
Qed.

(** What [malloc_split_block] makes of a free chunk. *)
Lemma split_block c size :
  ch_ok c -> 0 < size -> size mod 4 = 0 -> size <= ch_size c ->
  exists d rest, malloc_split_block c size = d :: rest /\ ch_addr d = ch_addr c /\ size <= ch_size d /\
    ch_free d = false /\ Forall (fun e => ch_free e = true) rest /\ Forall ch_ok (d :: rest) /\
    scattered (d :: rest) /\ Forall (fun e => ch_addr c <= ch_addr e /\ ch_stop e <= ch_stop c) (d :: rest).
Proof.
  intros (H1 & H2 & H3 & H4 & H5) Hs Hm Hle. unfold malloc_split_block, ch_stop, sizeof_chunk, MALLOC_WASTE_THRESHOLD in *.
  destruct (Z.geb_spec (ch_size c) (u32 (size + 16 + 4))) as [Hge|Hlt].
  - assert (size + 16 + 4 <= ch_size c) as Hge'.
    { destruct (decide (size + 16 + 4 < 2 ^ 32)); [by rewrite u32_small in Hge by lia|lia]. }
    u32_norm. eexists _, _. split; [done|].
    split_and!; try done; repeat constructor; unfold ch_ok, ch_apart, ch_stop, sizeof_chunk; simpl;
      try lia; Z.div_mod_to_equations; lia.
  - eexists _, []. split; [done|].
    split_and!; try done; repeat constructor; unfold ch_ok, ch_apart, ch_stop, sizeof_chunk; simpl; lia.
Qed.

(** Taking a free chunk of the list. *)
Lemma chunks_ok_split p l1 c l2 size :
  chunks_ok p (l1 ++ c :: l2) -> ch_free c = true -> 0 < size -> size mod 4 = 0 -> size <= ch_size c ->
  let l := l1 ++ malloc_split_block c size ++ l2 in
  chunks_ok p l /\ areas (l1 ++ c :: l2) !! ch_ptr c = None /\
  exists n, size <= n /\ areas l = <[ch_ptr c := n]> (areas (l1 ++ c :: l2)).
Proof.
  intros [Hok Hs Hm] Hf Hsz Hmod Hle l.
  assert (ch_ok c) as Hc by (rewrite Forall_forall in Hok; apply Hok; set_solver).
  destruct (split_block c size Hc Hsz Hmod Hle) as (d & rest & Hsp & Hd & Hds & Hdf & Hrf & Hnok & Hns & Hnin).
  subst l. rewrite Hsp.
  assert (Forall ch_ok (l1 ++ (d :: rest) ++ l2)) as Hok'.
  { apply Forall_app in Hok as [? [??]%Forall_cons]. rewrite !Forall_app. auto. }
  pose proof (scattered_replace l1 c l2 (d :: rest) Hs Hns Hnin) as Hs'.
  assert (ch_ptr d = ch_ptr c) as Hp by (unfold ch_ptr; congruence).
  assert (forall e, e ∈ l1 ++ c :: l2 -> ch_free e = false -> ch_ptr e <> ch_ptr c) as Hne.
  { intros e He Hef Hep. assert (e = c) as -> by
      (eapply (chunk_unique _ e c Hok Hs); [done|set_solver|unfold ch_ptr in *; lia]). congruence. }
  assert (areas (l1 ++ c :: l2) !! ch_ptr c = None) as Hnone.
  { destruct (areas _ !! _) eqn:E; [|done].
    apply areas_lookup in E as (e & He & Hef & Hep & _); [|done..]. by destruct (Hne e). }
  split_and!; [split; [done..|]|done|].
  - intros e x He Hx. rewrite !elem_of_app in He. rewrite Forall_forall in Hnin.
    destruct He as [He|[He|He]]; [apply (Hm e x); set_solver|..|apply (Hm e x); set_solver].
    apply (Hm c x); [set_solver|]. specialize (Hnin e He). lia.
  - exists (ch_size d). split; [done|]. apply map_eq. intros q. apply option_eq. intros n.
    rewrite areas_lookup by done. rewrite lookup_insert_Some, areas_lookup by done. rewrite Forall_forall in Hrf.
    setoid_rewrite elem_of_app. setoid_rewrite elem_of_app. setoid_rewrite elem_of_cons. split.
    + intros (e & [He|[[->|He]|He]] & Hef & <- & <-).
      * right. split; [|exists e; tauto]. apply not_eq_sym, Hne; [set_solver|done].
      * left. by rewrite Hp.
      * specialize (Hrf e He). congruence.
      * right. split; [|exists e; tauto]. apply not_eq_sym, Hne; [set_solver|done].
    + intros [[<- <-]|[_ (e & [He|[->|He]] & Hef & Heq & <-)]]; [exists d|exists e|congruence|exists e]; auto 10.
Qed.

(** A chunk made of new pages. *)
Lemma request_memory_ok h size :
  chunks_ok (pages h) (chunks h) -> (forall x, mapped (pages h) x -> is_Some (bytes h !! x)) ->
  0 < size <= MALLOC_MAX ->
  wp (request_memory size) h (fun r h' =>
    malloc_lock h' = malloc_lock h /\ chunks h' = chunks h /\ bytes_kept h h' /\
    (forall x, mapped (pages h') x -> is_Some (bytes h' !! x)) /\
    match r with
    | None => chunks_ok (pages h') (chunks h)
    | Some c => chunks_ok (pages h') (c :: chunks h) /\ ch_free c = true /\ size <= ch_size c
    end).
Proof.
  intros [Hok Hs Hm] Hb Hsz. unfold MALLOC_MAX in Hsz. unfold request_memory.
  rewrite (u32_small (size + _)) by (unfold sizeof_chunk; lia).
  destruct (align_page (size + sizeof_chunk)) as (n & -> & Hn & Hn4); [unfold sizeof_chunk; lia|].
  unfold sizeof_chunk in Hn. apply wp_bind, wp_zoom.
  eapply wp_mono; [apply (mmap_spec (pages h) n); lia|]. intros r p [(-> & Hp)|(Hr & Hr4 & Hrn & Hfresh & Hp)]; simpl.
  { apply wp_ret. simpl. split_and!; try done.
    - intros x Hx. split; [by apply Hp|done].
    - intros x Hx. by apply Hb, Hp.
    - split; [done..|]. intros c x Hc Hx. apply Hp. eauto. }
  rewrite (proj2 (Z.eqb_neq r 0)) by lia. apply wp_bind, wp_modify, wp_ret. simpl.
  rewrite (u32_small (n - _)) by (unfold sizeof_chunk; lia).
  assert (Z.of_nat (length (fresh_byte p <$> seqZ r n)) = n) as Hlen by (rewrite length_fmap, length_seqZ; lia).
  split_and!; [done|done|..|split; simpl|done|simpl; unfold sizeof_chunk; lia].
  - intros x Hx. simpl. split; [apply Hp; by left|]. apply lookup_store_bytes_ne.
    destruct (decide (r <= x < r + n)); [|lia]. by destruct (Hfresh x).
  - intros x [Hx|Hx]%Hp; [|apply lookup_store_bytes_in; unfold in_range in Hx; lia].
    rewrite lookup_store_bytes_ne; [by apply Hb|]. destruct (decide (r <= x < r + n)); [|lia]. by destruct (Hfresh x).
  - constructor; [|done]. unfold ch_ok, ch_stop, sizeof_chunk. simpl. Z.div_mod_to_equations; lia.
  - split; [|done]. rewrite Forall_forall in Hok |- *. intros c Hc. specialize (Hok c Hc).
    unfold ch_apart, ch_stop, sizeof_chunk, ch_ok, ch_stop, in_range, sizeof_chunk in *. simpl.
    destruct (decide (r + n <= ch_addr c)); [lia|].
    destruct (decide (ch_addr c + 16 + ch_size c <= r)); [lia|]. exfalso.
    apply (Hfresh (Z.max r (ch_addr c))); [lia|]. apply (Hm c); [done|unfold ch_stop, sizeof_chunk; lia].
  - intros c x Hc Hx. apply Hp. apply elem_of_cons in Hc as [->|Hc]; [|left; by apply (Hm c)].
    right. unfold ch_stop, sizeof_chunk, in_range in *. simpl in Hx. lia.
Qed.

Lemma ch_ptr_u32 p l c : chunks_ok p l -> c ∈ l -> u32 (ch_addr c + sizeof_chunk) = ch_ptr c /\
  u32 (ch_ptr c - sizeof_chunk) = ch_addr c /\ ch_ptr c <> 0 /\ ch_ptr c mod 4 = 0.
Proof.
  intros [Hok _ _] Hc. rewrite Forall_forall in Hok. destruct (Hok c Hc) as (H1 & H2 & H3 & H4 & H5).
  unfold ch_ptr, ch_stop, sizeof_chunk in *. u32_norm. split_and!; try lia. Z.div_mod_to_equations; lia.
Qed.

Lemma split_nonempty c n l : malloc_split_block c n ++ l <> [].
Proof. unfold malloc_split_block. by case_match. Qed.

Lemma malloc_ok h size :
  heap_inv h -> 0 < size <= MALLOC_MAX ->
  wp (malloc size) h (fun p h' => heap_inv h' /\ bytes_kept h h' /\
    ((p = 0 /\ live h' = live h /\ Forall (fun c => ch_free c = true -> ch_size c < size + 4) (chunks h)) \/
     (p <> 0 /\ p mod 4 = 0 /\ live h !! p = None /\ exists n, size <= n /\ live h' = <[p := n]> (live h)))).
Proof.
  intros (Hl & Hne & Hco & Hb) Hsz. unfold malloc. rewrite (proj2 (Z.eqb_neq size 0)) by lia.
  destruct (align_word size) as (n & -> & Hn & Hn4); [unfold MALLOC_MAX in Hsz; lia|].
  steps. destruct (list_break _ _) as [[[l1 c] l2]|] eqn:E.
  - apply list_break_Some in E as (El & Hc & _). apply andb_prop in Hc as [Hf Hge].
    rewrite El in Hco.
    destruct (ch_ptr_u32 _ _ c Hco) as (-> & _ & Hp0 & Hp4); [set_solver|].
    destruct (chunks_ok_split _ _ _ _ n Hco Hf) as (Hco' & Hnone & k & Hk & Hlive); [lia..|].
    steps. split_and!; [split_and!; simpl; [done| |done..]|done|].
    { destruct l1; [apply split_nonempty|done]. }
    right. unfold live. rewrite El. simpl. split_and!; [done..|]. exists k. split; [lia|done].
  - apply list_break_None in E. apply wp_bind, wp_unlock. simpl.
    apply wp_bind. eapply wp_mono; [apply (request_memory_ok _ n); [done..|unfold MALLOC_MAX in *; Z.div_mod_to_equations; lia]|].
    intros [c|] h1 (Hl1 & Hc1 & Hb1 & Hp1 & Hr); simpl in *.
    + destruct Hr as (Hco' & Hf & Hle). destruct (ch_ptr_u32 _ _ c Hco') as (-> & _ & Hp0 & Hp4); [set_solver|].
      destruct (chunks_ok_split (pages h1) [] c (chunks h) n Hco' Hf) as (Hsp & Hnone & k & Hk & Hlive); [lia..|].
      assert (areas (c :: chunks h) = live h) as Ea.
      { unfold live, areas. simpl. unfold used at 1. by rewrite Hf. }
      simpl in Hnone, Hlive, Hsp. rewrite Ea in Hnone, Hlive.
      steps. rewrite Hc1. destruct (chunks h) as [|c' l'] eqn:El; [done|].
      steps. split_and!; [split_and!; simpl; [done| |done..]|done|].
      { apply split_nonempty. }
      right. split_and!; [done..|]. exists k. split; [lia|done].
    + apply wp_ret. split_and!; [split_and!; try done; congruence|done|]. left. split_and!; [done|by unfold live; rewrite Hc1|].
      eapply Forall_impl; [done|]. simpl. intros c Hc Hf. rewrite Hf in Hc. simpl in Hc. lia.
Qed.

Lemma malloc_null h : malloc 0 h = Done (0, h).
Proof. done. Qed.

Lemma chunks_ok_free p l1 c l2 :
  chunks_ok p (l1 ++ c :: l2) -> ch_free c = false ->
  chunks_ok p (l1 ++ set_ch_free true c :: l2) /\
  areas (l1 ++ set_ch_free true c :: l2) = delete (ch_ptr c) (areas (l1 ++ c :: l2)).
Proof.
  intros [Hok Hs Hm] Hf.
  assert (Forall ch_ok (l1 ++ set_ch_free true c :: l2)) as Hok' by (by rewrite !Forall_app, !Forall_cons in *).
  assert (scattered (l1 ++ set_ch_free true c :: l2)) as Hs'.
  { apply (scattered_replace l1 c l2 [set_ch_free true c]); [done|simpl; auto|]. by repeat constructor. }
  split; [split; [done..|]|].
  - intros e x He Hx. apply elem_of_app in He as [He|[->|He]%elem_of_cons]; [|apply (Hm c); [set_solver|done]|];
      apply (Hm e); set_solver.
  - apply map_eq. intros q. apply option_eq. intros n.
    rewrite areas_lookup, lookup_delete_Some, areas_lookup by done. split.
    + intros (e & He & Hef & <- & <-).
      assert (e ∈ l1 ++ l2) as He' by (apply elem_of_app in He as [?|[->|?]%elem_of_cons]; [set_solver|done|set_solver]).
      split; [|exists e; set_solver]. intros Heq.
      assert (e = c) as -> by (eapply (chunk_unique _ e c Hok Hs); [set_solver|set_solver|unfold ch_ptr in *; lia]).
      pose proof (scattered_NoDup _ Hok Hs) as Hnd. rewrite fmap_app, fmap_cons in Hnd.
      apply NoDup_app in Hnd as (_ & Hd & [Hni _]%NoDup_cons).
      apply elem_of_app in He' as [Hc|Hc]; [apply (Hd (ch_addr c)); set_solver|apply Hni; set_solver].
    + intros [Hne (e & He & Hef & <- & <-)]. exists e. split_and!; try done.
      apply elem_of_app in He as [?|[->|?]%elem_of_cons]; [set_solver|done|set_solver].
Qed.

Lemma user_free_ok h p :
  heap_inv h -> is_Some (live h !! p) ->
  wp (free p) h (fun _ h' => heap_inv h' /\ bytes h' = bytes h /\ pages h' = pages h /\
    live h' = delete p (live h)).
Proof.
  intros (Hl & Hne & Hco & Hb) [n Hp]. pose proof Hco as [Hok Hs _].
  apply areas_lookup in Hp as (c & Hc & Hf & <- & _); [|done..].
  destruct (ch_ptr_u32 _ _ c Hco Hc) as (_ & Ha & Hp0 & _).
  unfold free. rewrite (proj2 (Z.eqb_neq _ 0)) by done. steps. unfold chunk_at. simpl. rewrite Ha.
  destruct (list_break_key ch_addr (chunks h) c) as (l1 & l2 & -> & El); [by apply scattered_NoDup|done|].
  rewrite El in Hco. destruct (chunks_ok_free _ _ _ _ Hco Hf) as [Hco' Hlive].
  steps. split_and!; [split_and!; simpl; [done| |done..]|done|done|].
  - by destruct l1.
  - unfold live. simpl. by rewrite El.
Qed.

Lemma user_live_range h p n : heap_inv h -> live h !! p = Some n -> 0 < p /\ 0 < n /\ p + n <= 2 ^ 32.
Proof.
  intros (_ & _ & [Hok Hs _] & _) (c & Hc & _ & <- & <-)%areas_lookup; [|done..].
  rewrite Forall_forall in Hok. specialize (Hok c Hc). unfold ch_ok, ch_stop, ch_ptr, sizeof_chunk in *. lia.
Qed.

Lemma live_apart h p n q k :
  heap_inv h -> live h !! p = Some n -> live h !! q = Some k -> p <> q -> p + n <= q \/ q + k <= p.
Proof.
  intros (_ & _ & [Hok Hs _] & _) (c & Hc & _ & <- & <-)%areas_lookup (d & Hd & _ & <- & <-)%areas_lookup Hne; [|done..].
  apply list_elem_of_split in Hc as (l1 & l2 & E). rewrite E in *. rewrite <-Permutation_middle in Hs.
  destruct Hs as [Ha _]. rewrite Forall_forall in Ha.
  assert (d ∈ l1 ++ l2) as Hd' by set_solver. specialize (Ha d Hd').
  unfold ch_apart, ch_stop, ch_ptr, sizeof_chunk in *. lia.
Qed.

Lemma malloc_spec_heap h size :
  heap_inv h -> 0 < size <= MALLOC_MAX ->
  wp (malloc size) h (fun p h' => heap_inv h' /\
    ((p = 0 /\ live h' = live h) \/
     (p <> 0 /\ live h !! p = None /\ exists n, size <= n /\ live h' = <[p := n]> (live h)))).
Proof. intros Hi Hs. eapply wp_mono; [by apply malloc_ok|]. intros p h' (? & _ & [(? & ? & _)|(? & _ & ? & ?)]); eauto. Qed.

Lemma free_spec_heap h p :
  heap_inv h -> is_Some (live h !! p) ->
  wp (free p) h (fun _ h' => heap_inv h' /\ live h' = delete p (live h)).
Proof. intros Hi Hp. eapply wp_mono; [by apply user_free_ok|]. intros _ h' (? & _ & _ & ?). auto. Qed.

#[export] Instance malloc_uheap : UHeap (heap P) := {
  malloc := malloc;
  free := free;
  uheap_ok := heap_inv;
  ulive := live;
  ulive_range := user_live_range;
  ulive_apart := live_apart;
  malloc_spec := malloc_spec_heap;
  free_spec := free_spec_heap;
}.

(** ** Theorems *)

(** C21: [malloc], of at most [MALLOC_MAX] bytes, returns a block of at least the size
    asked for, aligned to a word
    and apart from every block in use, or 0; it returns 0 only when no free chunk
    is large enough and the kernel gives no pages.  The blocks in use stay as they
    are.  In any later state in which the block is still in use, [free] takes it, and no
    other, out of use and changes no byte. *)
Theorem malloc_allocates h size :
  heap_inv h -> 0 < size <= MALLOC_MAX ->
  wp (malloc size) h (fun p h' => heap_inv h' /\ bytes_kept h h' /\
    ((p = 0 /\ live h' = live h /\ Forall (fun c => ch_free c = true -> ch_size c < size + 4) (chunks h)) \/
     (p <> 0 /\ p mod 4 = 0 /\ exists n, size <= n /\ p + n <= 2 ^ 32 /\ live h' = <[p := n]> (live h) /\
        (forall q k, live h !! q = Some k -> p + n <= q \/ q + k <= p) /\
        forall h1, heap_inv h1 -> live h1 !! p = Some n -> wp (free p) h1 (fun _ h2 =>
          heap_inv h2 /\ bytes h2 = bytes h1 /\ pages h2 = pages h1 /\ live h2 = delete p (live h1))))).
Proof.
  intros Hi Hs. eapply wp_mono; [by apply malloc_ok|].
  intros p h' (Hi' & Hb & [?|(Hp & Hp4 & Hn & n & Hle & Hl)]); [by auto|].
  assert (live h' !! p = Some n) as Hpn by (rewrite Hl; apply lookup_insert_eq).
  split_and!; [done..|]. right. split_and!; [done..|]. exists n. split_and!; [done|by apply (user_live_range h')|done| |].
  - intros q k Hq. assert (p <> q) as Hne by congruence. apply (live_apart h' p n q k Hi' Hpn); [|done].
    by rewrite Hl, lookup_insert_ne.
  - intros h1 Hi1 Hp1. eapply wp_mono; [apply user_free_ok; [done|by exists n]|]. naive_solver.
Qed.

Lemma live_mapped h p n x :
  heap_inv h -> live h !! p = Some n -> p <= x < p + n -> mapped (pages h) x.
Proof.
  intros (_ & _ & [Hok Hs Hm] & _) (c & Hc & _ & <- & <-)%areas_lookup Hx; [|done..].
  apply (Hm c); [done|]. unfold ch_ptr, ch_stop, sizeof_chunk in *. lia.
Qed.

Lemma heap_inv_store h a (l : list Z) :
  heap_inv h -> heap_inv (set_bytes (store_bytes a l (bytes h)) h).
Proof.
  intros (Hl & Hne & Hco & Hb). split_and!; try done. intros x Hx.
  destruct (decide (a <= x < a + Z.of_nat (length l))); [by apply lookup_store_bytes_in|].
  simpl. rewrite lookup_store_bytes_ne by lia. by apply Hb.
Qed.

Lemma chunk_at_live h p n :
  heap_inv h -> live h !! p = Some n ->
  p <> 0 /\ exists l1 c l2, chunk_at (u32 (p - sizeof_chunk)) h = Some (l1, c, l2) /\ ch_size c = n.
Proof.
  intros (_ & _ & Hco & _) Hp. pose proof Hco as [Hok Hs _].
  apply areas_lookup in Hp as (c & Hc & Hf & <- & <-); [|done..].
  destruct (ch_ptr_u32 _ _ c Hco Hc) as (_ & Ha & Hp0 & _). split; [done|].
  unfold chunk_at. rewrite Ha.
  destruct (list_break_key ch_addr (chunks h) c) as (l1 & l2 & -> & _); [by apply scattered_NoDup|done|eauto].
Qed.

(** [realloc] returns 0 and changes nothing, or moves the block: the first
    bytes of the new block, up to the smaller of the two sizes, are those of the
    old one, which is free. *)
Theorem realloc_moves h p n size (l : list Z) :
  heap_inv h -> live h !! p = Some n -> 0 < size <= MALLOC_MAX ->
  bytes_at (bytes h) p l -> Forall is_char l -> Z.of_nat (length l) = Z.min n size ->
  wp (realloc p size) h (fun r h' => heap_inv h' /\
    ((r = 0 /\ live h' = live h /\ bytes_kept h h') \/
     (r <> 0 /\ bytes_at (bytes h') r l /\
      exists k, size <= k /\ live h' = delete p (<[r := k]> (live h))))).
Proof.
  intros Hi Hp Hs Hl Hc Hlen. destruct (chunk_at_live h p n Hi Hp) as (Hp0 & l1 & c & l2 & Hat & Hn).
  unfold realloc. rewrite (proj2 (Z.eqb_neq p 0)) by done. apply wp_bind, wp_get. simpl. rewrite Hat, Hn.
  replace (if n <? size then n else size) with (Z.of_nat (length l)) by (destruct (Z.ltb_spec n size); lia).
  apply wp_bind. eapply wp_mono; [by apply malloc_ok|].
  intros r h1 (Hi1 & Hk & [(-> & Hl1 & _)|(Hr & _ & Hnone & k & Hsk & Hl1)]).
  { simpl. apply wp_ret. auto. }
  rewrite (proj2 (Z.eqb_neq r 0)) by done.
  assert (live h1 !! r = Some k) as Hrk by (rewrite Hl1; apply lookup_insert_eq).
  assert (live h1 !! p = Some n) as Hpn by (rewrite Hl1, lookup_insert_ne by congruence; done).
  pose proof (user_live_range h p n Hi Hp) as Hpr.
  assert (bytes_at (bytes h1) p l) as Hl'.
  { apply (bytes_at_kept (bytes h)); [done|]. intros x Hx. apply Hk, (live_mapped h p n); [done..|lia]. }
  apply wp_bind, wp_zoom. unfold LibcString.memcpy. rewrite u32_small, Nat2Z.id by lia.
  apply wp_bind. eapply wp_mono; [apply memcpy_loop_spec; try done|].
  - intros x Hx. apply Hi1, (live_mapped h1 r k); [done..|lia].
  - destruct (live_apart h1 r k p n) as [?|?]; [done..|congruence| |]; lia.
  - intros _ m' [_ ->]. apply wp_ret. apply wp_bind.
    pose proof (heap_inv_store h1 r l Hi1) as Hi2. set (h2 := set_bytes _ h1) in *.
    eapply wp_mono; [apply (user_free_ok h2 p Hi2); unfold live in *; simpl; by eexists|].
    intros _ h3 (Hi3 & Hb3 & _ & Hl3). apply wp_ret. split; [done|]. right. split_and!; [done|..].
    + rewrite Hb3. simpl. apply bytes_at_store_bytes.
    + exists k. split; [done|]. rewrite Hl3. change (live h2) with (live h1). by rewrite Hl1.
Qed.

Lemma malloc_initialize_ok h :
  chunks h = [] -> (forall x, mapped (pages h) x -> is_Some (bytes h !! x)) ->
  wp malloc_initialize h (fun r h' =>
    (r = -1 /\ chunks h' = []) \/ (r = 0 /\ heap_inv h' /\ live h' = ∅)).
Proof.
  intros Hc Hb. unfold malloc_initialize. apply wp_bind.
  eapply wp_mono; [apply (request_memory_ok h PAGE_SIZE); [|done|unfold MALLOC_MAX, PAGE_SIZE; lia]|].
  { rewrite Hc. split; [constructor|done|]. intros c x Hx. by apply not_elem_of_nil in Hx. }
  intros [c|] h1 (Hl & Hc1 & Hk & Hb1 & Hr).
  - rewrite Hc in Hr. destruct Hr as (Hco & Hf & _). apply wp_bind, wp_modify, wp_bind, wp_modify, wp_ret.
    right. split_and!; [done|split_and!; done|]. unfold live, areas. simpl. unfold used. by rewrite Hf.
  - apply wp_bind, wp_modify, wp_ret. auto.
Qed.
End inv.

(** ** A kernel that hands out pages one after the other *)

Definition bump_mmap (size : Z) : M Z Z := fun p =>
  if (65536 <=? p) && (p mod 4096 =? 0) && (p + size <=? 2 ^ 32) then Done (p, p + size) else Done (0, p).

Lemma bump_spec p size : 0 < size < 2 ^ 32 -> size mod 4096 = 0 ->
  wp (bump_mmap size) p (fun r p' =>
    (r = 0 /\ forall x, 65536 <= x < p' <-> 65536 <= x < p) \/
    (0 < r /\ r mod 4096 = 0 /\ r + size <= 2 ^ 32 /\
     (forall x, in_range r size x -> ~ 65536 <= x < p) /\
     forall x, 65536 <= x < p' <-> 65536 <= x < p \/ in_range r size x)).
Proof.
  intros Hs Hm. unfold wp, bump_mmap, in_range. destruct (_ && _) eqn:E; [right|by left].
  rewrite !andb_true_iff in E. split_and!; lia.
Qed.

Lemma zero_char (p x : Z) : is_char ((fun _ _ => 0) p x).
Proof. split; simpl; lia. Qed.

#[export] Instance bump_pages : Pages Z := {
  mmap := bump_mmap;
  mapped p x := 65536 <= x < p;
  fresh_byte _ _ := 0;
  fresh_byte_char := zero_char;
  mmap_spec := bump_spec;
}.

Definition no_heap : heap Z :=
  {| malloc_lock := false; chunks := []; bytes := ∅; pages := 65536 |}.

(** The heap after [malloc_initialize]. *)
Definition first_heap : heap Z :=
  match malloc_initialize no_heap with Done (_, h) => h | _ => no_heap end.

Lemma first_heap_inv : heap_inv first_heap /\ live first_heap = ∅.
Proof.
  assert (wp malloc_initialize no_heap (fun r h' =>
    (r = -1 /\ chunks h' = []) \/ (r = 0 /\ heap_inv h' /\ live h' = ∅))) as Hw.
  { apply malloc_initialize_ok; [done|]. simpl. intros x Hx. lia. }
  assert (wp malloc_initialize no_heap (fun r _ => r = 0)) as H0 by (unfold wp; by vm_compute).
  unfold first_heap, wp in *. destruct (malloc_initialize no_heap) as [[r h]| | |]; try done.
  destruct Hw as [[-> _]|(_ & ? & ?)]; done.
Qed.

Lemma malloc_allocates_witness :
  wp (malloc 10) first_heap (fun p h' => heap_inv h' /\ p = 65552 /\ exists n, 10 <= n /\ live h' !! p = Some n).
Proof.
  assert (wp (malloc 10) first_heap (fun p _ => p = 65552)) as Hp by (unfold wp; by vm_compute).
  pose proof (malloc_allocates first_heap 10 (proj1 first_heap_inv) ltac:(unfold MALLOC_MAX; lia)) as Hw.
  unfold wp in *. destruct (malloc 10 first_heap) as [[p h']| | |]; try done.
  destruct Hw as (Hi & _ & [[-> _]|(_ & _ & n & Hn & _ & Hl & _)]); [done|].
  split_and!; [done..|]. exists n. split; [done|]. rewrite Hl. apply lookup_insert_eq.
Defined.

(** The size is rounded up in 32 bits: a request for 2^32 - 1 bytes succeeds
    with a block of no bytes, and so does every one for more than 2^32 - 4. *)
Theorem malloc_wraps :
  wp (malloc (2 ^ 32 - 1)) first_heap (fun p h' => p <> 0 /\ live h' !! p = Some 0) /\
  wp (malloc (2 ^ 32 - 3)) first_heap (fun p h' => p <> 0 /\ live h' !! p = Some 0).
Proof. split; unfold wp; by vm_compute. Qed.

Lemma realloc_moves_witness :
  wp (let! p := malloc 4 in realloc p 8) first_heap (fun r h' =>
    heap_inv h' /\ (r <> 0 -> bytes_at (bytes h') r [0; 0; 0; 0])).
Proof.
  assert (wp (malloc 4) first_heap (fun p h => live h !! p = Some 4 /\ bytes_at (bytes h) p [0; 0; 0; 0])) as Hp
    by (unfold wp; by vm_compute).
  pose proof (malloc_ok first_heap 4 (proj1 first_heap_inv) ltac:(unfold MALLOC_MAX; lia)) as Hw.
  apply wp_bind. unfold wp in Hw, Hp. unfold wp at 1.
  destruct (malloc 4 first_heap) as [[p h1]| | |]; try done. destruct Hw as [Hi _], Hp as [Hl Hb].
  eapply wp_mono.
  - apply (realloc_moves h1 p 4 8 [0; 0; 0; 0]); try done.
    repeat constructor; simpl; lia.
  - intros r h' (Hi' & [(-> & _)|(_ & Hb' & _)]); done.
Defined.
End Malloc.
