(* ===== verification/Numbers.v ===== *)
(** Numbers as text: userland/lib/libc/src/stdlib/strtol.c and
    userland/lib/libc/src/stdio/vsprintf.c.

    [strtol] and [vsprintf] work on strings in memory.  [digits] and [value] are the
    digits of a number and the number of a list of digits; [render] is what
    [vsprintf] should write for a format. *)

From S2P Require Import Prelude KString.

Module Numbers.

(** ** Parsing: strtol.c *)

Definition isalpha (c : Z) : bool := ((c >=? 97) && (c <=? 122)) || ((c >=? 65) && (c <=? 90)).
Definition isupper (c : Z) : bool := (c >=? 65) && (c <=? 90).
Definition isdigit (c : Z) : bool := (c >=? 48) && (c <=? 57).
Definition isspace (c : Z) : bool := (c =? 32) || (c =? 9) || (c =? 10).

Fixpoint skip_space (fuel : nat) (nptr : Z) : M bmem Z :=
  match fuel with
  | O => undef
  | S fuel => let! c := load nptr in if isspace c then skip_space fuel (nptr + 1) else ret nptr
  end.

(** The value of a character, [None] where the loop stops. *)
Definition digit_of (c : Z) : option Z :=
  if isdigit c then Some (c - 48)
  else if isalpha c then Some (c - (if isupper c then 55 else 87))
  else None.

(** The loop over the digits; the result is the number and where it ends. *)
Fixpoint strtol_loop (fuel : nat) (nptr base result : Z) : M bmem (Z * Z) :=
  match fuel with
  | O => undef
  | S fuel =>
      let! c := load nptr in
      if c =? 0 then ret (result, nptr)
      else match digit_of c with
      | None => ret (result, nptr)
      | Some digit =>
          if digit >=? base then ret (result, nptr)
          else strtol_loop fuel (nptr + 1) base (s32 (s32 (result * base) + digit))
      end
  end.

(** The base and where the digits start. *)
Definition strtol_base (nptr base : Z) : M bmem (Z * Z) :=
  let! c := load nptr in
  let! hex :=
    (if ((base =? 0) || (base =? 16)) && (c =? 48) then
       let! x := load (nptr + 1) in ret ((x =? 120) || (x =? 88))
     else ret false) in
  if hex then ret (nptr + 2, 16)
  else if (base =? 0) && (c =? 48) then ret (nptr + 1, 8)
  else ret (nptr, if base =? 0 then 10 else base).

(** The result is the number and what is stored to [*endptr]. *)
Definition strtol (fuel : nat) (nptr base : Z) : M bmem (Z * Z) :=
  let! nptr := skip_space fuel nptr in
  let! c := load nptr in
  let sign := if c =? 45 then -1 else 1 in
  let nptr := if (c =? 45) || (c =? 43) then nptr + 1 else nptr in
  let! '(nptr, base) := strtol_base nptr base in
  let! '(result, nptr) := strtol_loop fuel nptr base 0 in
  ret (s32 (sign * result), nptr).

(** ** Printing: vsprintf.c

    The functions return the advanced [*str]. *)

Definition put (str c : Z) : M bmem Z := store str c ;;; ret (str + 1).

(** A number has at most 32 digits. *)
Fixpoint rec_print_u32 (fuel : nat) (str num base : Z) : M bmem Z :=
  match fuel with
  | O => undef
  | S fuel =>
      let digit := s8 (num mod base) in
      let! str := (if num >=? base then rec_print_u32 fuel str (num / base) base else ret str) in
      if digit <? 10 then put str (48 + digit) else put str (65 + (digit - 10))
  end.

Definition print_u32 (str num base : Z) : M bmem Z :=
  if num =? 0 then put str 48 else rec_print_u32 32 str num base.

Definition print_int (str num base : Z) : M bmem Z :=
  if num <? 0 then
    let! buf := put str 45 in
    print_u32 buf (u32 (s32 (- num))) base
  else print_u32 str (u32 num) base.

(** The arguments of a call. *)
Inductive va_arg := VInt (n : Z) | VStr (a : Z).

(** [while ( *s) *(str++) = *(s++);] *)
Fixpoint put_string (fuel : nat) (str s : Z) : M bmem Z :=
  match fuel with
  | O => undef
  | S fuel =>
      let! c := load s in
      if c =? 0 then ret str else let! str := put str c in put_string fuel str (s + 1)
  end.

Fixpoint vsprintf_loop (fuel : nat) (str format : Z) (ap : list va_arg) : M bmem Z :=
  match fuel with
  | O => undef
  | S fuel =>
      let! c := load format in
      if c =? 0 then ret str
      else if c =? 37 then
        let format := format + 1 in
        let! c := load format in
        if (c =? 105) || (c =? 100) then
          match ap with
          | VInt n :: ap => let! str := print_int str (s32 n) 10 in vsprintf_loop fuel str (format + 1) ap
          | _ => undef
          end
        else if c =? 120 then
          match ap with
          | VInt n :: ap => let! str := print_int str (s32 n) 16 in vsprintf_loop fuel str (format + 1) ap
          | _ => undef
          end
        else if c =? 115 then
          match ap with
          | VStr s :: ap =>
              let! m := get in
              let! str := put_string (S (size m)) str s in
              vsprintf_loop fuel str (format + 1) ap
          | _ => undef
          end
        else let! str := put str c in vsprintf_loop fuel str (format + 1) ap
      else let! str := put str c in vsprintf_loop fuel str (format + 1) ap
  end.

Definition vsprintf (fuel : nat) (str format : Z) (ap : list va_arg) : M bmem Z :=
  let! e := vsprintf_loop fuel str format ap in
  store e 0 ;;;
  ret (s32 (e - str)).

(** ** Digits *)

(** The digits of [n], most significant first. *)
Fixpoint digits (fuel : nat) (base n : Z) : list Z :=
  match fuel with
  | O => []
  | S fuel => (if n >=? base then digits fuel base (n / base) else []) ++ [n mod base]
  end.

Definition value (base : Z) (ds : list Z) : Z := fold_left (fun v d => v * base + d) ds 0.

Definition digit_char (d : Z) : Z := if d <? 10 then 48 + d else 55 + d.

Lemma value_snoc base ds d : value base (ds ++ [d]) = value base ds * base + d.
Proof. unfold value. by rewrite fold_left_app. Qed.

Lemma value_digits base fuel : forall n, 2 <= base -> 0 <= n < 2 ^ Z.of_nat fuel -> value base (digits fuel base n) = n.
Proof.
  induction fuel as [|fuel IH]; intros n Hb Hn; simpl; [simpl in Hn; by replace n with 0 by lia|].
  rewrite value_snoc, Z.geb_leb. pose proof (Z.div_mod n base ltac:(lia)) as E.
  destruct (Z.leb_spec base n).
  - rewrite IH; [lia|done|]. split; [apply Z.div_pos; lia|]. apply Z.div_lt_upper_bound; [lia|].
    rewrite Nat2Z.inj_succ, Z.pow_succ_r in Hn by lia. nia.
  - rewrite Z.mod_small by lia. done.
Qed.

Lemma digits_range base fuel : forall n, 2 <= base -> 0 <= n -> Forall (fun d => 0 <= d < base) (digits fuel base n).
Proof.
  induction fuel as [|fuel IH]; intros n Hb Hn; simpl; [constructor|]. apply Forall_app. split.
  - destruct (n >=? base); [|constructor]. apply IH; [done|]. apply Z.div_pos; lia.
  - repeat constructor; apply Z.mod_pos_bound; lia.
Qed.

(** The text of a number. *)
Definition unsigned_text (base n : Z) : list Z := if n =? 0 then [48] else digit_char <$> digits 32 base n.
Definition int_text (base n : Z) : list Z :=
  if n <? 0 then 45 :: unsigned_text base (- n) else unsigned_text base n.

(** What a format should give; a string argument is given by its characters. *)
Inductive arg := RInt (n : Z) | RStr (s : list Z).

Fixpoint render (f : list Z) (args : list arg) : option (list Z) :=
  match f with
  | [] => Some []
  | c :: f =>
      if c =? 37 then
        match f with
        | [] => None
        | c :: f =>
            if (c =? 105) || (c =? 100) then
              match args with RInt n :: args => app (int_text 10 (s32 n)) <$> render f args | _ => None end
            else if c =? 120 then
              match args with RInt n :: args => app (unsigned_text 16 (u32 n)) <$> render f args | _ => None end
            else if c =? 115 then
              match args with RStr s :: args => app s <$> render f args | _ => None end
            else app [c] <$> render f args
        end
      else app [c] <$> render f args
  end.

(** What [vsprintf] makes of it: the argument of [%x] is taken for a signed number. *)
Fixpoint shown (f : list Z) (args : list arg) : option (list Z) :=
  match f with
  | [] => Some []
  | c :: f =>
      if c =? 37 then
        match f with
        | [] => None
        | c :: f =>
            if (c =? 105) || (c =? 100) then
              match args with RInt n :: args => app (int_text 10 (s32 n)) <$> shown f args | _ => None end
            else if c =? 120 then
              match args with RInt n :: args => app (int_text 16 (s32 n)) <$> shown f args | _ => None end
            else if c =? 115 then
              match args with RStr s :: args => app s <$> shown f args | _ => None end
            else app [c] <$> shown f args
        end
      else app [c] <$> shown f args
  end.

(** The arguments of [%x] are below 2^31, where the two agree. *)
Fixpoint hex_small (f : list Z) (args : list arg) : Prop :=
  match f with
  | [] => True
  | c :: f =>
      if c =? 37 then
        match f with
        | [] => True
        | c :: f =>
            if (c =? 105) || (c =? 100) then
              match args with RInt n :: args => hex_small f args | _ => True end
            else if c =? 120 then
              match args with RInt n :: args => u32 n < 2 ^ 31 /\ hex_small f args | _ => True end
            else if c =? 115 then
              match args with RStr s :: args => hex_small f args | _ => True end
            else hex_small f args
        end
      else hex_small f args
  end.

Lemma s32_of_small n : u32 n < 2 ^ 31 -> s32 n = u32 n.
Proof.
  intros Hn. pose proof (u32_range n). unfold s32, u32 in *. rewrite (Z.div_mod n (2 ^ 32)) at 1 by lia.
  replace (2 ^ 32 * (n / 2 ^ 32) + n mod 2 ^ 32 + 2 ^ 31) with (n mod 2 ^ 32 + 2 ^ 31 + n / 2 ^ 32 * 2 ^ 32) by lia.
  rewrite Z.mod_add, Z.mod_small by lia. lia.
Qed.

Lemma text_of_small base n : u32 n < 2 ^ 31 -> int_text base (s32 n) = unsigned_text base (u32 n).
Proof.
  intros Hn. rewrite s32_of_small by done. pose proof (u32_range n). unfold int_text.
  by rewrite (proj2 (Z.ltb_ge _ 0)) by lia.
Qed.

Lemma shown_render n : forall f args, (length f <= n)%nat -> hex_small f args -> shown f args = render f args.
Proof.
  induction n as [|n IH]; intros [|c f] args Hl Hx; simpl in Hl; try done; [lia|].
  cbn [shown render hex_small] in *. destruct (c =? 37); [|by rewrite IH by (done || lia)].
  destruct f as [|d f]; [done|]. simpl in Hl. destruct ((d =? 105) || (d =? 100)).
  { destruct args as [|[k|] args]; try done. by rewrite IH by (done || lia). }
  destruct (d =? 120).
  { destruct args as [|[k|] args]; try done. destruct Hx as [Hk Hx]. rewrite IH by (done || lia). by rewrite text_of_small. }
  destruct (d =? 115); [destruct args as [|[|t] args]; try done|]; by rewrite IH by (done || lia).
Qed.

(** ** Writing text *)

Lemma store_bytes_app a l1 l2 m : store_bytes a (l1 ++ l2) m = store_bytes (a + Z.of_nat (length l1)) l2 (store_bytes a l1 m).
Proof.
  revert a m. induction l1 as [|c l1 IH]; intros a m; simpl; [by rewrite Z.add_0_r|]. rewrite IH. f_equal. lia.
Qed.

Lemma writable_store_bytes m a n b l : writable m a n -> writable (store_bytes b l m) a n.
Proof. revert b m. induction l as [|c l IH]; intros b m Hw; simpl; [done|]. by apply IH, writable_insert. Qed.

Lemma writable_sub m a n b k : writable m a n -> a <= b -> b + Z.of_nat k <= a + Z.of_nat n -> writable m b k.
Proof. intros Hw Ha Hb x Hx. apply Hw. lia. Qed.

(** [m] writes [l] at [str] and returns the end. *)
Definition appends (str : Z) (l : list Z) (c : M bmem Z) (m : bmem) : Prop :=
  wp c m (fun r m' => r = str + Z.of_nat (length l) /\ m' = store_bytes str l m).

Lemma appends_bind str l1 l2 c (k : Z -> M bmem Z) m :
  appends str l1 c m -> appends (str + Z.of_nat (length l1)) l2 (k (str + Z.of_nat (length l1))) (store_bytes str l1 m) ->
  appends str (l1 ++ l2) (let! e := c in k e) m.
Proof.
  intros H1 H2. apply wp_bind. eapply wp_mono; [exact H1|]. intros r m' [-> ->].
  eapply wp_mono; [exact H2|]. intros r m' [-> ->]. rewrite length_app, store_bytes_app. split; [lia|done].
Qed.

Lemma put_ok str c m : writable m str 1 -> is_char c -> appends str [c] (put str c) m.
Proof.
  intros Hw Hc. apply wp_bind, wp_store; [apply Hw; lia|done|]. apply wp_ret. done.
Qed.

Lemma digit_char_range d : 0 <= d < 16 -> is_char (digit_char d).
Proof. unfold digit_char, is_char. case_match; lia. Qed.

Lemma rec_print_ok base fuel : forall str num m,
  2 <= base <= 16 -> 0 < num < 2 ^ Z.of_nat fuel -> writable m str (length (digits fuel base num)) ->
  appends str (digit_char <$> digits fuel base num) (rec_print_u32 fuel str num base) m.
Proof.
  induction fuel as [|fuel IH]; intros str num m Hb Hn Hw; [simpl in Hn; lia|]. cbn [digits rec_print_u32] in *.
  pose proof (Z.mod_pos_bound num base ltac:(lia)) as Hmod.
  rewrite length_app in Hw. rewrite fmap_app. apply appends_bind.
  - destruct (num >=? base) eqn:E; [|by apply wp_ret; rewrite Z.add_0_r]. apply IH; [done| |].
    + rewrite Z.geb_leb in E. split; [apply Z.div_str_pos; lia|]. apply Z.div_lt_upper_bound; [lia|].
      rewrite Nat2Z.inj_succ, Z.pow_succ_r in Hn by lia. nia.
    + eapply writable_sub; [done|lia|lia].
  - rewrite s8_char by (unfold is_char; lia). rewrite length_fmap. simpl.
    set (pre := if num >=? base then _ else _) in *.
    assert (appends (str + Z.of_nat (length pre)) [digit_char (num mod base)]
      (put (str + Z.of_nat (length pre)) (digit_char (num mod base))) (store_bytes str (digit_char <$> pre) m)) as Hp.
    { apply put_ok; [|apply digit_char_range; lia]. apply writable_store_bytes.
      eapply writable_sub; [done|lia|simpl; lia]. }
    unfold digit_char at 2 in Hp. replace (65 + (num mod base - 10)) with (55 + num mod base) by lia. by destruct (_ <? 10).
Qed.

Lemma print_u32_ok base str n m :
  2 <= base <= 16 -> 0 <= n < 2 ^ 32 -> writable m str (length (unsigned_text base n)) ->
  appends str (unsigned_text base n) (print_u32 str n base) m.
Proof.
  intros Hb Hn Hw. unfold print_u32, unsigned_text in *. destruct (Z.eqb_spec n 0).
  - by apply put_ok.
  - apply rec_print_ok; [done|simpl; lia|by rewrite length_fmap in Hw].
Qed.

Lemma print_int_ok base str n m :
  2 <= base <= 16 -> - 2 ^ 31 < n < 2 ^ 31 -> writable m str (length (int_text base n)) ->
  appends str (int_text base n) (print_int str n base) m.
Proof.
  intros Hb Hn Hw. unfold print_int, int_text in *. destruct (Z.ltb_spec n 0).
  - rewrite s32_small, u32_small by lia. apply (appends_bind str [45]).
    + apply put_ok; [|done]. eapply writable_sub; [done|lia|simpl; lia].
    + apply print_u32_ok; [done|lia|]. apply writable_store_bytes. eapply writable_sub; [done|simpl; lia|simpl; lia].
  - rewrite u32_small by lia. apply print_u32_ok; [done|lia|done].
Qed.

Lemma put_string_ok s : forall fuel str a m,
  cstr m a s -> (length s < fuel)%nat -> writable m str (length s) ->
  str + Z.of_nat (length s) <= a \/ a + Z.of_nat (length s) < str ->
  appends str s (put_string fuel str a) m.
Proof.
  induction s as [|c s IH]; intros [|fuel] str a m Hs Hf Hw Hd; simpl in Hf; try lia.
  - apply cstr_nil in Hs. apply wp_bind. eapply wp_load; [done|]. apply wp_ret. by rewrite Z.add_0_r.
  - apply cstr_cons in Hs as (Ha & Hc & Hc0 & Hs). apply wp_bind. eapply wp_load; [done|].
    rewrite (proj2 (Z.eqb_neq c 0)) by done. apply (appends_bind str [c] s).
    + apply put_ok; [|done]. eapply writable_sub; [done|lia|simpl; lia].
    + simpl in *. apply IH; [by apply cstr_frame; [|lia]|lia| |lia].
      apply writable_insert. eapply writable_sub; [done|lia|simpl; lia].
Qed.
(** ** Formats *)

(** The argument of a call, with the text it stands for; strings are apart from the
    buffer, which is from [lo] to [hi].  The smallest number has no positive. *)
Definition arg_ok (lo hi : Z) (m : bmem) (v : va_arg) (r : arg) : Prop :=
  match v, r with
  | VInt n, RInt n' => n' = n /\ s32 n <> - 2 ^ 31
  | VStr a, RStr s => cstr m a s /\ (a + Z.of_nat (length s) < lo \/ hi <= a)
  | _, _ => False
  end.

Lemma cstr_store_bytes m a s b l :
  cstr m a s -> a + Z.of_nat (length s) < b \/ b + Z.of_nat (length l) <= a -> cstr (store_bytes b l m) a s.
Proof.
  intros [Hb Hf] Hd. split; [|done]. apply bytes_at_store_bytes_ne; [done|]. rewrite length_app. simpl. lia.
Qed.

Lemma args_ok_store lo hi m ap args b l :
  Forall2 (arg_ok lo hi m) ap args -> lo <= b -> b + Z.of_nat (length l) <= hi ->
  Forall2 (arg_ok lo hi (store_bytes b l m)) ap args.
Proof.
  intros Ha Hb Hl. eapply Forall2_impl; [done|]. intros [n|a] [n'|s] Hv; try done.
  destruct Hv as [Hs Hd]. split; [|done]. apply cstr_store_bytes; [done|lia].
Qed.

Lemma app_shown x f args out : app x <$> shown f args = Some out ->
  exists out', shown f args = Some out' /\ out = x ++ out'.
Proof. intros Hr. apply fmap_Some in Hr as (o & Ho & ->). eauto. Qed.

Lemma put_string_run s m str a lo hi :
  cstr m a s -> a + Z.of_nat (length s) < lo \/ hi <= a -> writable m str (length s) ->
  lo <= str -> str + Z.of_nat (length s) <= hi -> appends str s (let! m := get in put_string (S (size m)) str a) m.
Proof.
  intros Hs Hd Hw Hlo Hhi. apply wp_bind, wp_get. apply put_string_ok; [done| |done|lia].
  destruct Hs as [Hs _]. apply bytes_at_size in Hs. rewrite length_app in Hs. simpl in Hs. lia.
Qed.

Lemma vsprintf_loop_ok lo hi n : forall f fuel str fmt ap args out m,
  (length f <= n)%nat -> cstr m fmt f -> fmt + Z.of_nat (length f) < lo \/ hi <= fmt ->
  Forall2 (arg_ok lo hi m) ap args -> shown f args = Some out -> lo <= str -> str + Z.of_nat (length out) < hi ->
  writable m lo (Z.to_nat (hi - lo)) -> (length f < fuel)%nat ->
  appends str out (vsprintf_loop fuel str fmt ap) m.
Proof.
  induction n as [|n IH]; intros f [|fuel] str fmt ap args out m Hn Hf Hfd Hargs Hr Hlo Hhi Hw Hfuel; try lia.
  all: destruct f as [|c f]; [apply cstr_nil in Hf; simplify_eq/=; apply wp_bind; (eapply wp_load; [done|]);
    apply wp_ret; by rewrite Z.add_0_r|simpl in Hn; try lia].
  simpl in Hfuel, Hfd. pose proof Hf as (Hc & Hch & Hc0 & Hf1)%cstr_cons.
  cbn [vsprintf_loop]. apply wp_bind. eapply wp_load; [done|]. rewrite (proj2 (Z.eqb_neq c 0)) by done.
  (* One conversion writes [x]; the rest follows. *)
  assert (forall x f' fmt' ap' args' out' (c : M bmem Z),
    (length f' <= length f)%nat -> cstr m fmt' f' -> fmt' + Z.of_nat (length f') < lo \/ hi <= fmt' ->
    Forall2 (arg_ok lo hi m) ap' args' -> shown f' args' = Some out' -> out = x ++ out' ->
    (writable m str (length x) -> appends str x c m) ->
    appends str out (let! e := c in vsprintf_loop fuel e fmt' ap') m) as Hgo.
  { intros x f' fmt' ap' args' out' cc Hn' Hf' Hfd' Hargs' Hr' -> Hx. rewrite length_app in Hhi.
    apply appends_bind; [apply Hx; eapply writable_sub; [done|lia..]|].
    apply (IH f' fuel _ fmt' ap' args'); try done; try lia.
    - apply cstr_store_bytes; [done|lia].
    - apply args_ok_store; [done|lia..].
    - by apply writable_store_bytes. }
  cbn [shown] in Hr. destruct (Z.eqb_spec c 37) as [->|_].
  2: { apply app_shown in Hr as (o & Hr & ->). apply (Hgo [c] f _ ap args o); try done; [lia|]. intros. by apply put_ok. }
  destruct f as [|d f]; [done|]. simpl in Hfd, Hgo. pose proof Hf1 as (Hd & Hdh & Hd0 & Hf2)%cstr_cons.
  assert (fmt + 1 + 1 + Z.of_nat (length f) < lo \/ hi <= fmt + 1 + 1) as Hfd2 by lia.
  apply wp_bind. eapply wp_load; [done|]. destruct ((d =? 105) || (d =? 100)).
  { destruct args as [|[k|] args]; [done| |done]. inversion Hargs as [|[k'|] ? ? ? Hv Hargs']; subst; [|done].
    destruct Hv as [-> Hk]. pose proof (s32_range k'). apply app_shown in Hr as (o & Hr & ->).
    eapply Hgo; try done; [lia|]. intros. apply print_int_ok; [lia|lia|done]. }
  destruct (d =? 120).
  { destruct args as [|[k|] args]; [done| |done]. inversion Hargs as [|[k'|] ? ? ? Hv Hargs']; subst; [|done].
    destruct Hv as [-> Hk]. pose proof (s32_range k'). apply app_shown in Hr as (o & Hr & ->).
    eapply Hgo; try done; [lia|]. intros. apply print_int_ok; [lia|lia|done]. }
  destruct (d =? 115).
  - destruct args as [|[|t] args]; [done|done|]. inversion Hargs as [|[|a] ? ? ? Hv Hargs']; subst; [done|].
    destruct Hv as [Ht Htd]. apply app_shown in Hr as (o & Hr & ->).
    eapply (Hgo _ _ _ _ _ _ (let! m := get in put_string (S (size m)) str a)); try done; [lia|].
    intros. rewrite length_app in Hhi. eapply put_string_run; try done. lia.
  - apply app_shown in Hr as (o & Hr & ->). eapply (Hgo [d]); try done; [lia|]. intros. by apply put_ok.
Qed.
(** ** Reading a number back *)

Lemma unsigned_text_digits base n : 2 <= base -> 0 <= n < 2 ^ 32 ->
  exists d ds, unsigned_text base n = digit_char <$> d :: ds /\ value base (d :: ds) = n /\
    Forall (fun d => 0 <= d < base) (d :: ds).
Proof.
  intros Hb Hn. unfold unsigned_text. destruct (Z.eqb_spec n 0) as [->|Hn0].
  - exists 0, []. split_and!; [done|done|]. repeat constructor; lia.
  - assert (exists d ds, digits 32 base n = d :: ds) as (d & ds & E).
    { destruct (digits 32 base n) eqn:E; [|by eauto]. cbn [digits] in E. by apply app_nil in E as [_ ?]. }
    exists d, ds. rewrite <-E. split_and!; [done|by apply value_digits|apply digits_range; lia].
Qed.

Lemma digit_of_char d : 0 <= d < 16 -> digit_of (digit_char d) = Some d /\ 48 <= digit_char d <= 70.
Proof.
  intros Hd. assert (In d (seqZ 0 16)) as Hin by (apply list_elem_of_In, elem_of_seqZ; lia).
  vm_compute in Hin. repeat destruct Hin as [<-|Hin]; done.
Qed.

Lemma fold_digits_le base ds : forall acc,
  1 <= base -> 0 <= acc -> Forall (fun d => 0 <= d < base) ds -> acc <= fold_left (fun v d => v * base + d) ds acc.
Proof.
  induction ds as [|d ds IH]; intros acc Hb Ha Hds; simpl; [done|]. apply Forall_cons in Hds as [Hd Hds].
  etrans; [|apply IH; [done|nia|done]]. nia.
Qed.

(** A character that cannot continue a number. *)
Definition stops (base c : Z) : Prop :=
  c = 0 \/ c <> 120 /\ c <> 88 /\ match digit_of c with None => True | Some d => base <= d end.

Lemma strtol_loop_ok base ds c : forall acc a fuel m, stops base c ->
  2 <= base <= 16 -> 0 <= acc -> Forall (fun d => 0 <= d < base) ds ->
  fold_left (fun v d => v * base + d) ds acc < 2 ^ 31 ->
  bytes_at m a ((digit_char <$> ds) ++ [c]) -> (length ds < fuel)%nat ->
  wp (strtol_loop fuel a base acc) m (fun r m' =>
    m' = m /\ r = (fold_left (fun v d => v * base + d) ds acc, a + Z.of_nat (length ds))).
Proof.
  induction ds as [|d ds IH]; intros acc a [|fuel] m Hstop Hb Ha Hds Hlt Hm Hf; simpl in Hf; try lia; destruct Hm as [Hc Hm].
  - apply wp_bind. eapply wp_load; [done|]. simpl length. rewrite Z.add_0_r. destruct Hstop as [->|(_ & _ & Hstop)]; [by apply wp_ret|].
    destruct (c =? 0); [by apply wp_ret|]. destruct (digit_of c); [|by apply wp_ret].
    rewrite Z.geb_leb, (proj2 (Z.leb_le _ _)) by done. by apply wp_ret.
  - apply Forall_cons in Hds as [Hd Hds]. destruct (digit_of_char d ltac:(lia)) as [Ed Hdc].
    apply wp_bind. eapply wp_load; [done|]. rewrite (proj2 (Z.eqb_neq _ 0)), Ed by lia.
    rewrite Z.geb_leb, (proj2 (Z.leb_gt _ _)) by lia. simpl in Hlt.
    pose proof (fold_digits_le base ds (acc * base + d) ltac:(lia) ltac:(nia) Hds).
    rewrite (s32_small (acc * base)), s32_small by nia.
    eapply wp_mono; [apply IH; [done..|nia|done|done|done|lia]|]. intros r m' [-> ->]. simpl. split; [done|]. f_equal. lia.
Qed.

(** The digits, without a prefix for the base. *)
Lemma strtol_base_ok base d ds c a m : stops base c ->
  2 <= base <= 16 -> Forall (fun d => 0 <= d < base) (d :: ds) ->
  bytes_at m a ((digit_char <$> d :: ds) ++ [c]) ->
  wp (strtol_base a base) m (fun r m' => m' = m /\ r = (a, base)).
Proof.
  intros Hstop Hb Hds Hm. simpl in Hm. destruct Hm as [Hc Hm]. unfold strtol_base. apply wp_bind. eapply wp_load; [done|].
  rewrite (proj2 (Z.eqb_neq base 0)) by lia. simpl. apply wp_bind.
  destruct ((base =? 16) && (digit_char d =? 48)); [|by apply wp_ret, wp_ret].
  apply Forall_cons in Hds as [_ Hds]. destruct ds as [|e ds]; simpl in Hm; destruct Hm as [Hx _];
    apply wp_bind; (eapply wp_load; [done|]); apply wp_ret.
  - destruct Hstop as [->|(H1 & H2 & _)]; [by apply wp_ret|].
    rewrite (proj2 (Z.eqb_neq _ 120)), (proj2 (Z.eqb_neq _ 88)) by done. by apply wp_ret.
  - apply Forall_cons in Hds as [He _]. destruct (digit_of_char e ltac:(lia)) as [_ Hec].
    rewrite (proj2 (Z.eqb_neq _ 120)), (proj2 (Z.eqb_neq _ 88)) by lia. by apply wp_ret.
Qed.

Lemma strtol_stops base n c a fuel m : stops base c ->
  2 <= base <= 16 -> - 2 ^ 31 < n < 2 ^ 31 -> bytes_at m a (int_text base n ++ [c]) ->
  (length (int_text base n) < fuel)%nat ->
  wp (strtol fuel a base) m (fun r m' => m' = m /\ r = (n, a + Z.of_nat (length (int_text base n)))).
Proof.
  intros Hstop Hb Hn Hm Hf. destruct (unsigned_text_digits base (Z.abs n) ltac:(lia) ltac:(lia)) as (d & ds & Et & Ev & Hds).
  pose proof Hds as [Hd _]%Forall_cons. destruct (digit_of_char d ltac:(lia)) as [_ Hdc].
  destruct fuel as [|fuel]; [lia|]. unfold strtol. cbn [skip_space].
  assert (forall sign b, (length (d :: ds) <= fuel)%nat -> bytes_at m b ((digit_char <$> d :: ds) ++ [c]) -> sign = 1 \/ sign = -1 ->
    wp (let! '(nptr, base) := strtol_base b base in
        let! '(result, nptr) := strtol_loop (S fuel) nptr base 0 in
        ret (s32 (sign * result), nptr)) m
      (fun r m' => m' = m /\ r = (sign * Z.abs n, b + Z.of_nat (length (d :: ds))))) as Hgo.
  { intros sign b Hk Hmb Hs. apply wp_bind. eapply wp_mono; [by eapply strtol_base_ok|]. intros r m' [-> ->].
    apply wp_bind. eapply wp_mono; [apply (strtol_loop_ok base (d :: ds) c); [done|done|lia|done|fold (value base (d :: ds)); lia|done|lia]|].
    intros r m' [-> ->]. apply wp_ret. split; [done|]. fold (value base (d :: ds)). rewrite Ev, s32_small by lia. done. }
  unfold int_text in *. destruct (Z.ltb_spec n 0) as [Hneg|Hpos].
  - rewrite Z.abs_neq in * by lia. rewrite Et in *. simpl in Hm. destruct Hm as [Hc Hm].
    apply wp_bind, wp_bind. eapply wp_load; [done|]. apply wp_ret, wp_bind. eapply wp_load; [done|]. simpl.
    eapply wp_mono; [apply (Hgo (-1) (a + 1)); [simpl in *; rewrite length_fmap in Hf; lia|done|by right]|].
    intros r m' [-> ->]. split; [done|]. simpl. rewrite length_fmap. f_equal; lia.
  - rewrite Z.abs_eq in * by lia. rewrite Et in *. pose proof Hm as [Hc _].
    apply wp_bind, wp_bind. eapply wp_load; [done|]. unfold isspace.
    rewrite (proj2 (Z.eqb_neq _ 32)), (proj2 (Z.eqb_neq _ 9)), (proj2 (Z.eqb_neq _ 10)) by lia.
    apply wp_ret, wp_bind. eapply wp_load; [done|].
    rewrite (proj2 (Z.eqb_neq _ 45)), (proj2 (Z.eqb_neq _ 43)) by lia.
    eapply wp_mono; [apply (Hgo 1 a); [simpl in *; rewrite length_fmap in Hf; lia|done|by left]|].
    intros r m' [-> ->]. split; [done|]. simpl. rewrite length_fmap. f_equal; lia.
Qed.

Lemma strtol_ok base n a fuel m :
  2 <= base <= 16 -> - 2 ^ 31 < n < 2 ^ 31 -> bytes_at m a (int_text base n ++ [0]) ->
  (length (int_text base n) < fuel)%nat ->
  wp (strtol fuel a base) m (fun r m' => m' = m /\ r = (n, a + Z.of_nat (length (int_text base n)))).
Proof. intros. eapply strtol_stops; try done. by left. Qed.
Lemma digits_length base fuel : forall n (k : nat), 2 <= base -> 0 <= n < base ^ Z.of_nat k -> (0 < k)%nat ->
  (length (digits fuel base n) <= k)%nat.
Proof.
  induction fuel as [|fuel IH]; intros n k Hb Hn Hk; simpl; [lia|]. rewrite length_app. simpl. rewrite Z.geb_leb.
  destruct (Z.leb_spec base n); simpl; [|lia]. destruct k as [|k]; [lia|].
  rewrite Nat2Z.inj_succ, Z.pow_succ_r in Hn by lia. assert (0 < k)%nat by (destruct k; simpl in Hn; lia).
  enough (length (digits fuel base (n / base)) <= k)%nat by lia. apply IH; [done| |done].
  split; [apply Z.div_pos; lia|]. apply Z.div_lt_upper_bound; lia.
Qed.

Lemma int_text_length base n : base = 10 \/ base = 16 -> - 2 ^ 31 < n < 2 ^ 31 -> (length (int_text base n) <= 11)%nat.
Proof.
  intros Hb Hn. assert (forall x, 0 <= x < 2 ^ 31 -> (length (unsigned_text base x) <= 10)%nat) as Hu.
  { intros x Hx. unfold unsigned_text. destruct (x =? 0); [simpl; lia|]. rewrite length_fmap.
    apply digits_length; [lia| |lia]. destruct Hb as [->| ->]; simpl; lia. }
  unfold int_text. destruct (Z.ltb_spec n 0); simpl; [specialize (Hu (- n) ltac:(lia))|specialize (Hu n ltac:(lia))]; lia.
Qed.

Lemma vsprintf_ok m str n fmt f ap args out fuel :
  cstr m fmt f -> fmt + Z.of_nat (length f) < str \/ str + Z.of_nat n <= fmt ->
  Forall2 (arg_ok str (str + Z.of_nat n) m) ap args -> shown f args = Some out ->
  (length out < n)%nat -> Z.of_nat (length out) < 2 ^ 31 -> writable m str n -> (length f < fuel)%nat ->
  wp (vsprintf fuel str fmt ap) m (fun r m' => r = Z.of_nat (length out) /\ m' = store_bytes str (out ++ [0]) m).
Proof.
  intros Hf Hfd Ha Hr Hl Hl31 Hw Hfuel. apply wp_bind. eapply wp_mono; [eapply (vsprintf_loop_ok str (str + Z.of_nat n)); try done; try lia|].
  { by replace (Z.to_nat (str + Z.of_nat n - str)) with n by lia. }
  intros r m' [-> ->]. apply wp_bind, wp_store; [apply writable_store_bytes with (a := str) (n := n); [done|lia]|done|].
  apply wp_ret. rewrite s32_small by lia. rewrite store_bytes_app. split; [lia|done].
Qed.

(** ** Theorems *)


(** A number printed by [sprintf] in base 10 or 16 is read back by [strtol],
    which stops at the end of the text. *)
Theorem strtol_vsprintf m str fmt conv base n fuel :
  (conv, base) ∈ [(105, 10); (100, 10); (120, 16)] ->
  cstr m fmt [37; conv] -> fmt + 2 < str \/ str + 12 <= fmt -> writable m str 12 -> s32 n <> - 2 ^ 31 ->
  (12 < fuel)%nat ->
  wp (let! len := vsprintf fuel str fmt [VInt n] in
      let! '(v, e) := strtol fuel str base in
      ret (len, v, e)) m (fun r _ => r.1.2 = s32 n /\ r.2 = str + r.1.1).
Proof.
  intros Hcb Hf Hd Hw Hn Hfuel. pose proof (s32_range n).
  assert (base = 10 \/ base = 16) as Hb by set_solver.
  pose proof (int_text_length base (s32 n) Hb ltac:(lia)) as Hl. set (out := int_text base (s32 n)) in *.
  assert (shown [37; conv] [RInt n] = Some (out ++ [])) as Hr.
  { rewrite !elem_of_cons in Hcb. by destruct Hcb as [[= -> ->]|[[= -> ->]|[[= -> ->]|Hx%elem_of_nil]]]. }
  rewrite app_nil_r in Hr. apply wp_bind. unfold vsprintf. apply wp_bind.
  eapply wp_mono; [eapply (vsprintf_loop_ok str (str + 12) 2 [37; conv] fuel str fmt [VInt n] [RInt n] out)|];
    try done; try (simpl; lia); [by repeat constructor| |].
  { by replace (Z.to_nat (str + 12 - str)) with 12%nat by lia. }
  intros r m' [-> ->]. apply wp_bind, wp_store; [apply writable_store_bytes with (a := str) (n := 12%nat); [done|lia]|done|].
  apply wp_ret, wp_bind. eapply wp_mono; [apply (strtol_ok base (s32 n)); [lia|lia| |fold out; lia]|].
  - fold out. change (<[?a := 0]> ?m) with (store_bytes a [0] m). rewrite <-store_bytes_app. apply bytes_at_store_bytes.
  - intros r m' [-> ->]. apply wp_ret. simpl. rewrite (s32_small (str + _ - str)) by lia. split; [done|]. fold out. lia.
Qed.
(** ** Samples *)

Definition text_memory : bmem :=
  store_bytes 100 [37; 115; 61; 37; 100; 0] (store_bytes 110 [37; 120; 0]
    (store_bytes 120 [97; 98; 0] (store_bytes 200 (replicate 16 0) ∅))).

Lemma text_writable (n : nat) : (n <= 16)%nat -> writable text_memory 200 n.
Proof. intros Hn. do 3 apply writable_store_bytes. intros p Hp. apply lookup_store_bytes_in. rewrite length_replicate. lia. Qed.


Lemma strtol_vsprintf_witness :
  wp (let! len := vsprintf 13 200 110 [VInt (-255)] in
      let! '(v, e) := strtol 13 200 16 in
      ret (len, v, e)) text_memory (fun r _ => r.1.2 = -255 /\ r.2 = 200 + r.1.1).
Proof.
  apply (strtol_vsprintf text_memory 200 110 120 16 (-255) 13).
  - set_solver.
  - split; [by vm_compute|]. repeat constructor; by unfold is_char.
  - lia.
  - apply text_writable. lia.
  - by vm_compute.
  - lia.
Defined.
End Numbers.
