(* ===== verification/Stdio.v ===== *)
(** Streams of the libc: userland/lib/libc/src/stdio and init.c.

    A stream has a buffer for reading and one for writing.  The buffers belong to the
    stream, so they are kept as their contents: the characters between
    [_io_read_ptr] and [_io_read_end], and those between [_io_write_base] and
    [_io_write_ptr].  The streams are in a list linked in both directions.  Strings
    and the bytes of system calls are lists. *)

From S2P Require Import Prelude KString Malloc Numbers.

(** ** System calls

    [sent w fd] is what was written to a descriptor, [incoming w fd] what reads of it
    have not yet given.  A write may be short. *)

Class Posix (W : Type) := {
  os_write : Z -> list Z -> M W Z;
  os_read : Z -> Z -> M W (Z * list Z);
  os_open : list Z -> Z -> M W Z;
  os_close : Z -> M W Z;
  sent : W -> Z -> list Z;
  incoming : W -> Z -> list Z;
  os_write_spec : forall w fd b, wp (os_write fd b) w (fun r w' =>
    incoming w' = incoming w /\ (forall f, f <> fd -> sent w' f = sent w f) /\
    ((r < 0 /\ sent w' fd = sent w fd) \/
     (0 <= r <= Z.of_nat (length b) /\ sent w' fd = sent w fd ++ take (Z.to_nat r) b)));
  os_read_spec : forall w fd n, 0 < n < 2 ^ 31 -> wp (os_read fd n) w (fun r w' =>
    sent w' = sent w /\ (forall f, f <> fd -> incoming w' f = incoming w f) /\
    ((r.1 < 0 /\ incoming w' fd = incoming w fd) \/
     (r.1 = Z.of_nat (length r.2) /\ r.1 <= n /\ incoming w fd = r.2 ++ incoming w' fd /\
      (r.1 = 0 -> incoming w fd = []))));
}.

Module Stdio.
Import Numbers.

Definition IO_BUFSIZE_READ : Z := 1024.
Definition IO_BUFSIZE_WRITE : Z := 1024.
Definition sizeof_file : Z := 48.
Definition O_RDONLY : Z := 1.
Definition O_WRONLY : Z := 2.
Definition IOFBF : Z := 1.
Definition IOLBF : Z := 2.
Definition IONBF : Z := 3.

Record IO_FILE := {
  fd : Z;
  flags : Z;
  read_base : Z;
  read_buf : list Z;
  write_base : Z;
  write_buf : list Z;
  next : Z;
  prev : Z;
}.

Definition set_fd (v : Z) (f : IO_FILE) : IO_FILE :=
  {| fd := v; flags := flags f; read_base := read_base f; read_buf := read_buf f;
     write_base := write_base f; write_buf := write_buf f; next := next f; prev := prev f |}.
Definition set_read_buf (l : list Z) (f : IO_FILE) : IO_FILE :=
  {| fd := fd f; flags := flags f; read_base := read_base f; read_buf := l;
     write_base := write_base f; write_buf := write_buf f; next := next f; prev := prev f |}.
Definition set_write_buf (l : list Z) (f : IO_FILE) : IO_FILE :=
  {| fd := fd f; flags := flags f; read_base := read_base f; read_buf := read_buf f;
     write_base := write_base f; write_buf := l; next := next f; prev := prev f |}.
Definition set_next (v : Z) (f : IO_FILE) : IO_FILE :=
  {| fd := fd f; flags := flags f; read_base := read_base f; read_buf := read_buf f;
     write_base := write_base f; write_buf := write_buf f; next := v; prev := prev f |}.
Definition set_prev (v : Z) (f : IO_FILE) : IO_FILE :=
  {| fd := fd f; flags := flags f; read_base := read_base f; read_buf := read_buf f;
     write_base := write_base f; write_buf := write_buf f; next := next f; prev := v |}.

(** [(flags >> 8) & 3] and [flags & O_WRONLY] *)
Definition buffering (f : IO_FILE) : Z := Z.land (Z.shiftr (flags f) 8) 3.
Definition writes_file (f : IO_FILE) : bool := negb (Z.land (flags f) O_WRONLY =? 0).

Section ops.
Context {W U : Type} `{Posix W} `{UHeap U}.

Record stdio := {
  files : gmap Z IO_FILE;
  IO_files : Z;
  IO_lock : bool;
  uheap : U;
  os : W;
}.

Definition set_files (v : gmap Z IO_FILE) (s : stdio) : stdio :=
  {| files := v; IO_files := IO_files s; IO_lock := IO_lock s; uheap := uheap s; os := os s |}.
Definition set_IO_files (v : Z) (s : stdio) : stdio :=
  {| files := files s; IO_files := v; IO_lock := IO_lock s; uheap := uheap s; os := os s |}.
Definition set_lock (v : bool) (s : stdio) : stdio :=
  {| files := files s; IO_files := IO_files s; IO_lock := v; uheap := uheap s; os := os s |}.
Definition set_uheap (v : U) (s : stdio) : stdio :=
  {| files := files s; IO_files := IO_files s; IO_lock := IO_lock s; uheap := v; os := os s |}.
Definition set_os (v : W) (s : stdio) : stdio :=
  {| files := files s; IO_files := IO_files s; IO_lock := IO_lock s; uheap := uheap s; os := v |}.

Definition heap {A} (m : M U A) : M stdio A := zoom uheap set_uheap m.
Definition syscall {A} (m : M W A) : M stdio A := zoom os set_os m.
(** [free(NULL)] does nothing. *)
Definition free_ptr (p : Z) : M stdio unit := if p =? 0 then ret tt else heap (free p).

Definition file (a : Z) : M stdio IO_FILE :=
  let! s := get in match files s !! a with Some f => ret f | None => undef end.
Definition update (a : Z) (g : IO_FILE -> IO_FILE) : M stdio unit :=
  let! f := file a in modify (fun s => set_files (<[a := g f]> (files s)) s).

(** ** The list of streams *)

Definition iob_add (a : Z) : M stdio unit :=
  spinlock_lock IO_lock set_lock ;;;
  let! s := get in
  (if IO_files s =? 0 then
     modify (set_IO_files a) ;;;
     update a (set_prev 0) ;;;
     update a (set_next 0)
   else
     update a (set_next (IO_files s)) ;;;
     update a (set_prev 0) ;;;
     update (IO_files s) (set_prev a) ;;;
     modify (set_IO_files a)) ;;;
  spinlock_unlock set_lock.

Definition iob_create (fd flags : Z) : M stdio Z :=
  let! a := heap (malloc sizeof_file) in
  if a =? 0 then ret 0
  else
    let! rb := (if Z.land flags O_RDONLY =? 0 then ret (Some 0)
                else let! p := heap (malloc IO_BUFSIZE_READ) in ret (if p =? 0 then None else Some p)) in
    match rb with
    | None => heap (free a) ;;; ret 0
    | Some rb =>
        let! wb := (if Z.land flags O_WRONLY =? 0 then ret (Some 0)
                    else let! p := heap (malloc IO_BUFSIZE_WRITE) in ret (if p =? 0 then None else Some p)) in
        match wb with
        | None => free_ptr rb ;;; heap (free a) ;;; ret 0
        | Some wb =>
            modify (fun s => set_files (<[a := {| fd := fd; flags := flags; read_base := rb; read_buf := [];
              write_base := wb; write_buf := []; next := 0; prev := 0 |}]> (files s)) s) ;;;
            iob_add a ;;;
            ret a
        end
    end.

Definition iob_destroy (a : Z) : M stdio unit :=
  let! f := file a in
  (if fd f >=? 0 then syscall (os_close (fd f)) ;;; update a (set_fd (-1)) else ret tt) ;;;
  let! f := file a in
  free_ptr (read_base f) ;;;
  free_ptr (write_base f).

Definition iob_remove (a : Z) : M stdio unit :=
  spinlock_lock IO_lock set_lock ;;;
  let! f := file a in
  (if next f =? prev f then modify (set_IO_files 0)
   else
     (if next f =? 0 then ret tt else update (next f) (set_prev (prev f))) ;;;
     (if prev f =? 0 then ret tt else update (prev f) (set_next (next f))) ;;;
     let! s := get in
     if IO_files s =? a then modify (set_IO_files (next f)) else ret tt) ;;;
  spinlock_unlock set_lock ;;;
  heap (free a) ;;;
  modify (fun s => set_files (delete a (files s)) s).

(** ** Writing *)

(** [iob_flush] of one stream. *)
Definition flush_file (a : Z) : M stdio Z :=
  let! f := file a in
  if (fd f >=? 0) && writes_file f then
    match write_buf f with
    | [] => ret 0
    | b =>
        let! r := syscall (os_write (fd f) b) in
        update a (set_write_buf []) ;;;
        ret r
    end
  else ret (-1).

Fixpoint flush_all (fuel : nat) (tmp : Z) : M stdio unit :=
  if tmp =? 0 then ret tt
  else match fuel with
  | O => undef
  | S fuel =>
      let! f := file tmp in
      (if (fd f >=? 0) && writes_file f then flush_file tmp ;;; ret tt else ret tt) ;;;
      let! f := file tmp in
      flush_all fuel (next f)
  end.

Definition iob_flush (a : Z) : M stdio Z :=
  if a =? 0 then
    spinlock_lock IO_lock set_lock ;;;
    let! s := get in
    flush_all (size (files s)) (IO_files s) ;;;
    spinlock_unlock set_lock ;;;
    ret 0
  else flush_file a.

(** A character is stored behind the buffer when it is full. *)
Definition iob_putc (c a : Z) : M stdio Z :=
  if a =? 0 then ret (-1)
  else
    let! f := file a in
    if buffering f =? IONBF then syscall (os_write (fd f) [s8 c]) ;;; ret c
    else if (write_base f =? 0) || (Z.of_nat (length (write_buf f)) >=? IO_BUFSIZE_WRITE) then undef
    else
      let b := write_buf f ++ [s8 c] in
      update a (set_write_buf b) ;;;
      (if (Z.of_nat (length b) =? IO_BUFSIZE_WRITE) || ((buffering f =? IOLBF) && (c =? 10))
       then iob_flush a ;;; ret tt else ret tt) ;;;
      ret c.

Fixpoint iob_putu (fuel : nat) (a num base : Z) : M stdio Z :=
  match fuel with
  | O => undef
  | S fuel =>
      if num =? 0 then iob_putc 48 a ;;; ret 1
      else
        let c := s8 (num mod base) in
        (if num >=? base then iob_putu fuel a (num / base) base ;;; ret tt else ret tt) ;;;
        (if c <? 10 then iob_putc (c + 48) a else iob_putc (c + 65) a) ;;;
        ret 1
  end.

Definition iob_puti (a num base : Z) : M stdio Z :=
  if num <? 0 then
    iob_putc 45 a ;;;
    let! r := iob_putu 32 a (u32 (s32 (- num))) base in
    ret (1 + r)
  else iob_putu 32 a (u32 num) base.

Fixpoint fputs (s : list Z) (a : Z) : M stdio Z :=
  match s with
  | [] => ret 0
  | c :: s => iob_putc c a ;;; let! r := fputs s a in ret (r + 1)
  end.

(** The value is the [ret] that is added up; a [%] at the end of the format reads
    behind it. *)
Fixpoint vfprintf (a : Z) (format : list Z) (ap : list arg) : M stdio Z :=
  match format with
  | [] => ret 0
  | c :: format =>
      if c =? 37 then
        match format with
        | [] => undef
        | c :: format =>
            let! '(r, ap) :=
              (if (c =? 105) || (c =? 100) then
                 match ap with RInt n :: ap => let! r := iob_puti a (s32 n) 10 in ret (r, ap) | _ => undef end
               else if c =? 117 then
                 match ap with RInt n :: ap => let! r := iob_putu 32 a (u32 n) 10 in ret (r, ap) | _ => undef end
               else if c =? 120 then
                 match ap with RInt n :: ap => let! r := iob_putu 32 a (u32 n) 16 in ret (r, ap) | _ => undef end
               else if c =? 112 then
                 match ap with
                 | RInt n :: ap =>
                     iob_putc 48 a ;;; iob_putc 120 a ;;;
                     let! r := iob_putu 32 a (u32 n) 16 in ret (2 + r, ap)
                 | _ => undef
                 end
               else if c =? 111 then
                 match ap with RInt n :: ap => let! r := iob_puti a (s32 n) 8 in ret (r, ap) | _ => undef end
               else if c =? 115 then
                 match ap with RStr s :: ap => let! r := fputs s a in ret (r, ap) | _ => undef end
               else iob_putc c a ;;; ret (1, ap)) in
            let! k := vfprintf a format ap in
            ret (r + k)
        end
      else
        iob_putc c a ;;;
        let! k := vfprintf a format ap in
        ret (1 + k)
  end.

(** ** Reading *)

(** At most [size] characters from the buffer. *)
Definition read_iob (size a : Z) : M stdio (list Z) :=
  let! f := file a in
  update a (set_read_buf (drop (Z.to_nat size) (read_buf f))) ;;;
  ret (take (Z.to_nat size) (read_buf f)).

(** The characters that are stored to [ptr]; their number is the result.  A stream
    without a buffer would store to a null pointer. *)
Definition iob_read (size a : Z) : M stdio (list Z) :=
  if size =? 0 then ret []
  else
    let! f := file a in
    let! got := (match read_buf f with [] => ret [] | _ => read_iob size a end) in
    let size := size - Z.of_nat (length got) in
    if size =? 0 then ret got
    else if size >=? IO_BUFSIZE_READ then
      let! '(r, b) := syscall (os_read (fd f) size) in
      ret (if r <? 0 then got else got ++ b)
    else if read_base f =? 0 then undef
    else
      update a (set_read_buf []) ;;;
      let! '(r, b) := syscall (os_read (fd f) IO_BUFSIZE_READ) in
      if r <=? 0 then ret got
      else
        update a (set_read_buf b) ;;;
        let! more := read_iob size a in
        ret (got ++ more).

Definition fread (size nmemb a : Z) : M stdio (list Z) :=
  iob_flush a ;;;
  iob_read (u32 (size * nmemb)) a.

(** ** Opening and closing *)

(** The flags of a mode; [None] for another character. *)
Fixpoint mode_flags (mode : list Z) (acc : Z) : option Z :=
  match mode with
  | [] => Some acc
  | c :: mode =>
      if c =? 114 then mode_flags mode (Z.lor acc O_RDONLY)
      else if c =? 119 then mode_flags mode (Z.lor acc O_WRONLY)
      else None
  end.

Definition fopen (filename mode : list Z) : M stdio Z :=
  match mode_flags mode 0 with
  | None => ret 0
  | Some flags =>
      let! d := syscall (os_open filename (Z.lor flags (Z.shiftl IOFBF 8))) in
      if d <? 0 then ret 0 else iob_create d flags
  end.

Definition fclose (a : Z) : M stdio Z :=
  if a =? 0 then ret (-1)
  else iob_flush a ;;; iob_destroy a ;;; iob_remove a ;;; ret 0.

(** [__libc_init] after the heap is set up; the three standard streams. *)
Definition libc_init : M stdio (Z * Z * Z) :=
  let! stdin := iob_create 0 (Z.lor O_RDONLY (Z.shiftl IONBF 8)) in
  let! stdout := iob_create 1 (Z.lor O_WRONLY (Z.shiftl IOLBF 8)) in
  let! stderr := iob_create 2 (Z.lor O_WRONLY (Z.shiftl IONBF 8)) in
  ret (stdin, stdout, stderr).

Definition puts (stdout : Z) (s : list Z) : M stdio Z :=
  let! r := fputs s stdout in
  iob_putc 10 stdout ;;;
  ret (r + 1).
End ops.
Arguments stdio : clear implicits.

(** ** What a stream has written *)

Section text.
Context {W U : Type} `{Posix W} `{UHeap U}.
Implicit Types (s : stdio W U) (f : IO_FILE).

(** No write fails or is short. *)
Definition writes_complete : Prop := forall (w : W) d b, wp (os_write d b) w (fun r _ => r = Z.of_nat (length b)).

(** A write sends a beginning of what it is given. *)
Lemma os_write_ok w d b : wp (os_write d b) w (fun r w' =>
  incoming w' = incoming w /\ (forall e, e <> d -> sent w' e = sent w e) /\
  exists t, sent w' d = sent w d ++ t /\ t `prefix_of` b /\ (writes_complete -> t = b)).
Proof.
  pose proof (os_write_spec w d b) as Hs. unfold wp in *. destruct (os_write d b w) as [[r w']| | |] eqn:E; try done.
  simpl in *. destruct Hs as (Hi & Ho & Hw). split_and!; [done..|].
  assert (writes_complete -> r = Z.of_nat (length b)) as Hr.
  { intros Hc. specialize (Hc w d b). unfold wp in Hc. by rewrite E in Hc. }
  destruct Hw as [[? ->]|[? ->]].
  - exists []. rewrite app_nil_r. split_and!; [done|apply prefix_nil|]. intros Hc. specialize (Hr Hc). lia.
  - exists (take (Z.to_nat r) b). split_and!; [done|apply prefix_take|]. intros Hc. rewrite (Hr Hc), Nat2Z.id. by apply take_ge.
Qed.

(** A stream for writing.  What is in the buffer of a line buffered stream is the
    current line. *)
Record out_ok f : Prop := {
  oo_base : buffering f <> IONBF -> write_base f <> 0;
  oo_fd : 0 <= fd f;
  oo_writes : writes_file f = true;
  oo_room : Z.of_nat (length (write_buf f)) < IO_BUFSIZE_WRITE;
  oo_none : buffering f = IONBF -> write_buf f = [];
  oo_line : buffering f = IOLBF -> 10 ∉ write_buf f;
}.

Definition stream_at s (a : Z) f : Prop := a <> 0 /\ files s !! a = Some f /\ out_ok f.

(** What was written to a stream, whether it was sent or not. *)
Definition text s f : list Z := sent (os s) (fd f) ++ write_buf f.

(** From [s] to [s'] the characters [cs] were written to the stream at [a].  What was
    sent remains.  A write that fails or is short loses characters, but none is sent
    twice or in another order. *)
Definition wrote (a : Z) (cs : list Z) s s' : Prop :=
  forall f, stream_at s a f -> exists b, let f' := set_write_buf b f in
    stream_at s' a f' /\ text s' f' `sublist_of` text s f ++ cs /\ (writes_complete -> text s' f' = text s f ++ cs) /\
    sent (os s) (fd f) `prefix_of` sent (os s') (fd f) /\
    (exists w, s' = set_files (<[a := f']> (files s)) (set_os w s)) /\
    incoming (os s') = incoming (os s) /\ forall d, d <> fd f -> sent (os s') d = sent (os s) d.

Lemma wrote_nil a s : wrote a [] s s.
Proof.
  intros f Hf. exists (write_buf f). simpl. replace (set_write_buf (write_buf f) f) with f by (by destruct f).
  rewrite app_nil_r. split_and!; try done. exists (os s). destruct Hf as (_ & Hf & _). rewrite insert_id by done. by destruct s.
Qed.

Lemma wrote_app a cs1 cs2 s1 s2 s3 : wrote a cs1 s1 s2 -> wrote a cs2 s2 s3 -> wrote a (cs1 ++ cs2) s1 s3.
Proof.
  intros H1 H2 f Hf. destruct (H1 f Hf) as (b1 & Hf1 & Hl1 & Ht1 & Hp1 & (w1 & ->) & Hi1 & Ho1). simpl in *.
  destruct (H2 _ Hf1) as (b2 & Hf2 & Hl2 & Ht2 & Hp2 & (w2 & ->) & Hi2 & Ho2). exists b2. simpl in *. split_and!.
  - done.
  - rewrite app_assoc. etrans; [exact Hl2|]. by apply sublist_app.
  - intros Hc. rewrite app_assoc, <-(Ht1 Hc). exact (Ht2 Hc).
  - by etrans.
  - exists w2. unfold set_files, set_os. simpl. by rewrite insert_insert_eq.
  - by rewrite Hi2.
  - intros d Hd. rewrite Ho2, Ho1 by done. done.
Qed.

Lemma wrote_bind {A B} a cs1 cs2 s (m : M (stdio W U) A) (k : A -> M (stdio W U) B) :
  wp m s (fun _ s1 => wrote a cs1 s s1) -> (forall r s1, wrote a cs1 s s1 -> wp (k r) s1 (fun _ s2 => wrote a cs2 s1 s2)) ->
  wp (let! r := m in k r) s (fun _ s2 => wrote a (cs1 ++ cs2) s s2).
Proof.
  intros Hm Hk. apply wp_bind. eapply wp_mono; [exact Hm|]. intros r s1 H1. eapply wp_mono; [by apply Hk|].
  intros ? s2 H2. exact (wrote_app _ _ _ _ _ _ H1 H2).
Qed.

Lemma wrote_then {A B} a cs s (m : M (stdio W U) A) (r : A -> B) :
  wp m s (fun _ s1 => wrote a cs s s1) -> wp (let! x := m in ret (r x)) s (fun _ s1 => wrote a cs s s1).
Proof. intros Hm. apply wp_bind. eapply wp_mono; [exact Hm|]. intros x s1 Hw. by apply wp_ret. Qed.

Lemma wp_file s a f Q : files s !! a = Some f -> Q f s -> wp (file a) s Q.
Proof. intros Hf HQ. unfold file. apply wp_bind, wp_get. by rewrite Hf. Qed.

Lemma wp_update_file s a f g Q :
  files s !! a = Some f -> Q tt (set_files (<[a := g f]> (files s)) s) -> wp (update a g) s Q.
Proof. intros Hf HQ. unfold update. apply wp_bind. eapply wp_file; [done|]. by apply wp_modify. Qed.

(** A flush sends the buffer. *)
Lemma flush_file_ok s a f :
  files s !! a = Some f -> 0 <= fd f -> writes_file f = true ->
  wp (flush_file a) s (fun _ s' => exists w, s' = set_files (<[a := set_write_buf [] f]> (files s)) (set_os w s) /\
    sent (os s) (fd f) `prefix_of` sent w (fd f) /\
    sent w (fd f) `sublist_of` text s f /\ (writes_complete -> sent w (fd f) = text s f) /\
    incoming w = incoming (os s) /\ forall d, d <> fd f -> sent w d = sent (os s) d).
Proof.
  intros Hl Hfd Hw. unfold flush_file, text. apply wp_bind. eapply wp_file; [done|].
  rewrite Z.geb_leb, (proj2 (Z.leb_le 0 _)), Hw by done. simpl. destruct (write_buf f) as [|c b] eqn:Eb.
  - apply wp_ret. exists (os s). rewrite <-Eb.
    replace (set_write_buf (write_buf f) f) with f by (by destruct f). rewrite insert_id by done.
    rewrite Eb, app_nil_r. split_and!; try done. by destruct s.
  - apply wp_bind, wp_zoom. eapply wp_mono; [apply os_write_ok|]. intros r w (Hi & Ho & t & Hs & Ht & Hc).
    apply wp_bind. eapply wp_update_file; [done|]. apply wp_ret. exists w. rewrite Hs. split_and!; try done.
    + by apply prefix_app_r.
    + destruct Ht as [k ->]. rewrite app_assoc. by apply sublist_inserts_r.
    + intros Hall. by rewrite (Hc Hall).
Qed.

Lemma out_ok_empty f : out_ok f -> out_ok (set_write_buf [] f).
Proof. intros [? ? ? ? ? ?]. split; try done. intros _. apply not_elem_of_nil. Qed.

Lemma iob_putc_ok s a c : is_char c -> (exists f, stream_at s a f) -> wp (iob_putc c a) s (fun _ s' => wrote a [c] s s').
Proof.
  intros Hc [f Hf]. pose proof Hf as (Ha & Hl & [Hb Hfd Hw Hroom Hnone Hline]). unfold iob_putc.
  rewrite (proj2 (Z.eqb_neq a 0)) by done. apply wp_bind. eapply wp_file; [done|]. rewrite s8_char by done.
  destruct (Z.eqb_spec (buffering f) IONBF) as [Hnb|Hnb].
  - apply wp_bind, wp_zoom. eapply wp_mono; [apply os_write_ok|]. intros r w (Hi & Ho & t & Hs & Ht & Hwc). apply wp_ret.
    intros f' (_ & Hl' & _). assert (f' = f) as -> by congruence. exists (write_buf f). simpl.
    replace (set_write_buf (write_buf f) f) with f by (by destruct f). unfold text. simpl.
    rewrite Hs, (Hnone Hnb), !app_nil_r. split_and!; try done.
    + destruct Ht as [k ->]. rewrite app_assoc. by apply sublist_inserts_r.
    + intros H'. by rewrite (Hwc H').
    + by apply prefix_app_r.
    + exists w. by rewrite insert_id.
  - rewrite (proj2 (Z.eqb_neq _ 0)) by auto. rewrite Z.geb_leb, (proj2 (Z.leb_gt _ _)) by done. simpl.
    apply wp_bind. eapply wp_update_file; [done|]. apply wp_bind.
    destruct ((_ =? IO_BUFSIZE_WRITE) || _) eqn:Efl.
    + unfold iob_flush. rewrite (proj2 (Z.eqb_neq a 0)) by done. apply wp_bind.
      eapply wp_mono; [by apply flush_file_ok; [apply lookup_insert_eq|..]|].
      intros r s' (w & -> & Hp & Hs & Hwc & Hi & Ho). apply wp_ret, wp_ret.
      intros f' (_ & Hl' & Hok). assert (f' = f) as -> by congruence. exists []. unfold text in *. simpl in *.
      rewrite app_nil_r, <-app_assoc. split_and!; try done.
      * split_and!; [done|apply lookup_insert_eq|by apply out_ok_empty].
      * exists w. unfold set_files, set_os. simpl. by rewrite insert_insert_eq.
    + apply orb_false_iff in Efl as [Elen Eline]. apply wp_ret, wp_ret.
      intros f' (_ & Hl' & _). assert (f' = f) as -> by congruence. exists (write_buf f ++ [c]).
      unfold text. simpl. rewrite app_assoc. split_and!; try done.
      * rewrite length_app in Elen. apply Z.eqb_neq in Elen. simpl in Elen. split_and!; [done|apply lookup_insert_eq|]. split; simpl; try done.
        -- rewrite length_app. simpl. unfold IO_BUFSIZE_WRITE in *. lia.
        -- intros Hlb. rewrite not_elem_of_app. split; [by apply Hline|].
           apply not_elem_of_cons. split; [|apply not_elem_of_nil]. intros <-.
           change (buffering f = IOLBF) in Hlb. by rewrite Hlb in Eline.
      * exists (os s). by destruct s.
Qed.

Definition open_out s (a : Z) : Prop := exists f, stream_at s a f.

Lemma wrote_open a cs s s' : wrote a cs s s' -> open_out s a -> open_out s' a.
Proof. intros Hw [f Hf]. destruct (Hw f Hf) as (b & Hf' & _). eexists. exact Hf'. Qed.

(** The digits as [iob_putu] writes them: from 10 on they are letters, but from K on. *)
Definition put_char (d : Z) : Z := if d <? 10 then d + 48 else d + 65.

Lemma put_char_range d : 0 <= d < 16 -> is_char (put_char d).
Proof. unfold put_char, is_char. case_match; lia. Qed.

Lemma iob_putu_ok base fuel : forall s a num,
  2 <= base <= 16 -> 0 < num < 2 ^ Z.of_nat fuel -> open_out s a ->
  wp (iob_putu fuel a num base) s (fun _ s' => wrote a (put_char <$> digits fuel base num) s s').
Proof.
  induction fuel as [|fuel IH]; intros s a num Hb Hn Ho; [simpl in Hn; lia|]. cbn [iob_putu digits].
  rewrite (proj2 (Z.eqb_neq num 0)) by lia. pose proof (Z.mod_pos_bound num base ltac:(lia)) as Hmod.
  rewrite s8_char by (unfold is_char; lia). rewrite fmap_app. apply wrote_bind.
  - destruct (num >=? base) eqn:E; [|apply wp_ret, wrote_nil]. apply (wrote_then _ _ _ _ (fun _ => tt)). apply IH; [done| |done].
    rewrite Z.geb_leb in E. split; [apply Z.div_str_pos; lia|]. apply Z.div_lt_upper_bound; [lia|].
    rewrite Nat2Z.inj_succ, Z.pow_succ_r in Hn by lia. nia.
  - intros _ s1 Hw. apply (wrote_open _ _ _ _ Hw) in Ho. apply (wrote_then _ _ _ _ (fun _ => 1)).
    pose proof (iob_putc_ok s1 a (put_char (num mod base)) (put_char_range (num mod base) ltac:(lia)) Ho) as Hp.
    unfold put_char at 1 in Hp. by destruct (_ <? 10).
Qed.

(** Digits below 10 are written as they should be. *)
Definition decimal (base n : Z) : Prop := Forall (fun d => d < 10) (digits 32 base n).

Lemma decimal_10 base n : 2 <= base <= 10 -> 0 <= n -> decimal base n.
Proof.
  intros Hb Hn. pose proof (digits_range base 32 n ltac:(lia) Hn) as Hr. eapply Forall_impl; [exact Hr|]. simpl. lia.
Qed.

Lemma iob_putu_text s a num base :
  2 <= base <= 16 -> 0 <= num < 2 ^ 32 -> decimal base num -> open_out s a ->
  wp (iob_putu 32 a num base) s (fun _ s' => wrote a (unsigned_text base num) s s').
Proof.
  intros Hb Hn Hd Ho. unfold unsigned_text. destruct (Z.eqb_spec num 0) as [->|Hn0].
  - apply (wrote_then _ _ _ _ (fun _ => 1)). by apply iob_putc_ok.
  - assert (digit_char <$> digits 32 base num = put_char <$> digits 32 base num) as ->.
    { apply list_fmap_ext. intros i d Hi. pose proof (proj1 (Forall_lookup _ _) Hd _ _ Hi) as Hlt. simpl in Hlt. unfold put_char, digit_char.
      rewrite (proj2 (Z.ltb_lt d 10)) by lia. lia. }
    apply iob_putu_ok; [lia|simpl; lia|done].
Qed.

Lemma iob_puti_text s a num base :
  2 <= base <= 10 -> - 2 ^ 31 < num < 2 ^ 31 -> open_out s a ->
  wp (iob_puti a num base) s (fun _ s' => wrote a (int_text base num) s s').
Proof.
  intros Hb Hn Ho. unfold iob_puti, int_text. destruct (Z.ltb_spec num 0).
  - rewrite s32_small, u32_small by lia. apply (wrote_bind a [45]); [by apply iob_putc_ok|].
    intros _ s1 Hw. apply (wrote_then _ _ _ _ (fun r => 1 + r)).
    apply iob_putu_text; [lia|lia|apply decimal_10; lia|by eapply wrote_open].
  - rewrite u32_small by lia. apply iob_putu_text; [lia|lia|apply decimal_10; lia|done].
Qed.

Lemma fputs_ok cs : forall s a, Forall is_char cs -> open_out s a -> wp (fputs cs a) s (fun _ s' => wrote a cs s s').
Proof.
  induction cs as [|c cs IH]; intros s a Hc Ho; simpl; [apply wp_ret, wrote_nil|]. apply Forall_cons in Hc as [Hc Hcs].
  apply (wrote_bind a [c]); [by apply iob_putc_ok|]. intros _ s1 Hw. apply (wrote_then _ _ _ _ (fun r => r + 1)).
  apply IH; [done|by eapply wrote_open].
Qed.

(** What a format should give. *)
Fixpoint frender (f : list Z) (args : list arg) : option (list Z) :=
  match f with
  | [] => Some []
  | c :: f =>
      if c =? 37 then
        match f with
        | [] => None
        | c :: f =>
            if (c =? 105) || (c =? 100) then
              match args with RInt n :: args => app (int_text 10 (s32 n)) <$> frender f args | _ => None end
            else if c =? 117 then
              match args with RInt n :: args => app (unsigned_text 10 (u32 n)) <$> frender f args | _ => None end
            else if c =? 120 then
              match args with RInt n :: args => app (unsigned_text 16 (u32 n)) <$> frender f args | _ => None end
            else if c =? 112 then
              match args with RInt n :: args => app ([48; 120] ++ unsigned_text 16 (u32 n)) <$> frender f args | _ => None end
            else if c =? 111 then
              match args with RInt n :: args => app (unsigned_text 8 (u32 n)) <$> frender f args | _ => None end
            else if c =? 115 then
              match args with RStr s :: args => app s <$> frender f args | _ => None end
            else app [c] <$> frender f args
        end
      else app [c] <$> frender f args
  end.

(** The arguments that are printed as they should be: no smallest number for [%d] and
    [%i], no digit above 9 for [%x] and [%p], a number below 2^31 for [%o]. *)
Fixpoint printable (f : list Z) (args : list arg) : Prop :=
  match f with
  | [] => True
  | c :: f =>
      if c =? 37 then
        match f with
        | [] => True
        | c :: f =>
            if (c =? 105) || (c =? 100) then
              match args with RInt n :: args => s32 n <> - 2 ^ 31 /\ printable f args | _ => True end
            else if c =? 117 then
              match args with RInt n :: args => printable f args | _ => True end
            else if (c =? 120) || (c =? 112) then
              match args with RInt n :: args => decimal 16 (u32 n) /\ printable f args | _ => True end
            else if c =? 111 then
              match args with RInt n :: args => u32 n < 2 ^ 31 /\ printable f args | _ => True end
            else if c =? 115 then
              match args with RStr s :: args => Forall is_char s /\ printable f args | _ => True end
            else printable f args
        end
      else printable f args
  end.

Lemma app_frender (x fm : list Z) args out : app x <$> frender fm args = Some out ->
  exists out', frender fm args = Some out' /\ out = x ++ out'.
Proof. intros Hr. apply fmap_Some in Hr as (o & Ho & ->). eauto. Qed.

(** A conversion that takes the next argument. *)
Lemma wrote_conv {A B} a cs s (m : M (stdio W U) A) (g : A -> B) (ap : list arg) :
  wp m s (fun _ s1 => wrote a cs s s1) ->
  wp (let! r := m in ret (g r, ap)) s (fun r s1 => wrote a cs s s1 /\ r.2 = ap).
Proof. intros Hm. apply wp_bind. eapply wp_mono; [exact Hm|]. intros r s1 Hw. by apply wp_ret. Qed.

Lemma wrote_pointer a s n (ap : list arg) :
  decimal 16 (u32 n) -> open_out s a ->
  wp (iob_putc 48 a ;;; iob_putc 120 a ;;; let! r := iob_putu 32 a (u32 n) 16 in ret (2 + r, ap)) s
    (fun r s1 => wrote a ([48] ++ [120] ++ unsigned_text 16 (u32 n)) s s1 /\ r.2 = ap).
Proof.
  intros Hd Ho. pose proof (u32_range n). apply wp_bind. eapply wp_mono; [by apply iob_putc_ok|]. intros ? s1 Hw1.
  apply (wrote_open _ _ _ _ Hw1) in Ho. apply wp_bind. eapply wp_mono; [by apply iob_putc_ok|]. intros ? s2 Hw2.
  apply (wrote_open _ _ _ _ Hw2) in Ho. eapply wp_mono; [apply (wrote_conv a (unsigned_text 16 (u32 n)) s2 _ (fun r => 2 + r)), iob_putu_text; done || lia|].
  intros r s3 [Hw3 Hr]. split; [|done]. exact (wrote_app _ _ _ _ _ _ Hw1 (wrote_app _ _ _ _ _ _ Hw2 Hw3)).
Qed.

(** What is written for one conversion, then the rest. *)
Lemma vfprintf_conv a x fm args out s (m : M (stdio W U) (Z * list arg)) :
  wp m s (fun r s1 => wrote a x s s1 /\ r.2 = args) -> app x <$> frender fm args = Some out -> open_out s a ->
  (forall o s1, frender fm args = Some o -> open_out s1 a -> wp (vfprintf a fm args) s1 (fun _ s2 => wrote a o s1 s2)) ->
  wp (let! '(r, ap) := m in let! k := vfprintf a fm ap in ret (r + k)) s (fun _ s' => wrote a out s s').
Proof.
  intros Hm Hr Ho Hk. apply app_frender in Hr as (o & Hr & ->). apply wp_bind.
  eapply wp_mono; [exact Hm|]. intros [r ap] s1 [Hw Hap]. simpl in Hap. subst ap.
  eapply wp_mono; [apply (wrote_then a o s1 _ (fun k => r + k)), Hk; [done|by eapply wrote_open]|].
  intros ? s2 Hw2. exact (wrote_app _ _ _ _ _ _ Hw Hw2).
Qed.

Lemma vfprintf_ok n : forall fm args out s a,
  (length fm <= n)%nat -> Forall is_char fm -> printable fm args -> frender fm args = Some out -> open_out s a ->
  wp (vfprintf a fm args) s (fun _ s' => wrote a out s s').
Proof.
  induction n as [|n IH]; intros [|c fm] args out s a Hn Hfm Hx Hr Ho; simpl in Hn; try lia.
  1-2: simplify_eq/=; apply wp_ret, wrote_nil.
  apply Forall_cons in Hfm as [Hc Hfm]. cbn [vfprintf frender printable] in *. destruct (c =? 37).
  2: { apply app_frender in Hr as (o & Hr & ->). apply wrote_bind; [by apply iob_putc_ok|].
       intros _ s1 Hw. apply (wrote_then _ _ _ _ (fun k => 1 + k)). eapply IH; try done; [lia|by eapply wrote_open]. }
  destruct fm as [|d fm]; [done|]. apply Forall_cons in Hfm as [Hd Hfm]. simpl in Hn.
  assert (forall ap, printable fm ap -> forall o s1, frender fm ap = Some o -> open_out s1 a ->
    wp (vfprintf a fm ap) s1 (fun _ s2 => wrote a o s1 s2)) as Hk by (intros; eapply IH; try done; lia).
  destruct ((d =? 105) || (d =? 100)).
  { destruct args as [|[k|] args]; [done| |done]. destruct Hx as [Hs Hx]. pose proof (s32_range k).
    eapply vfprintf_conv; [apply (wrote_conv _ _ _ _ (fun r => r)), iob_puti_text; [lia|lia|done]|done|done|by apply Hk]. }
  destruct (d =? 117).
  { destruct args as [|[k|] args]; [done| |done]. pose proof (u32_range k).
    eapply vfprintf_conv; [apply (wrote_conv _ _ _ _ (fun r => r)), iob_putu_text; [lia|lia|apply decimal_10; lia|done]|done|done|by apply Hk]. }
  destruct (d =? 120); simpl in Hx.
  { destruct args as [|[k|] args]; [done| |done]. destruct Hx as [Hs Hx]. pose proof (u32_range k).
    eapply vfprintf_conv; [apply (wrote_conv _ _ _ _ (fun r => r)), iob_putu_text; [lia|lia|done|done]|done|done|by apply Hk]. }
  destruct (d =? 112).
  { destruct args as [|[k|] args]; [done| |done]. destruct Hx as [Hs Hx]. pose proof (u32_range k).
    eapply (vfprintf_conv a ([48] ++ [120] ++ unsigned_text 16 (u32 k))); [|done|done|by apply Hk]. apply wrote_pointer; done. }
  destruct (d =? 111).
  { destruct args as [|[k|] args]; [done| |done]. destruct Hx as [Hs Hx]. pose proof (u32_range k).
    rewrite <-(text_of_small 8 k) in Hr by done. pose proof (s32_range k). pose proof (s32_of_small k Hs).
    eapply vfprintf_conv; [apply (wrote_conv _ _ _ _ (fun r => r)), iob_puti_text; [lia|lia|done]|done|done|by apply Hk]. }
  destruct (d =? 115).
  - destruct args as [|[|t] args]; [done|done|]. destruct Hx as [Ht Hx].
    eapply vfprintf_conv; [by apply (wrote_conv _ _ _ _ (fun r => r)), fputs_ok|done|done|by apply Hk].
  - eapply vfprintf_conv; [by apply (wrote_conv _ _ _ _ (fun _ => 1)), iob_putc_ok|done|done|by apply Hk].
Qed.

(** ** Reading *)

(** What a stream will still give. *)
Definition unread s f : list Z := read_buf f ++ incoming (os s) (fd f).

(** From [s] to [s'] the characters [got] were read from the stream at [a]. *)
Definition got_from (a : Z) f (got : list Z) s s' : Prop :=
  exists l w, let f' := set_read_buf l f in
    s' = set_files (<[a := f']> (files s)) (set_os w s) /\ unread s f = got ++ unread s' f' /\
    sent w = sent (os s) /\ forall d, d <> fd f -> incoming w d = incoming (os s) d.

Lemma read_iob_ok size s a f :
  files s !! a = Some f -> 0 <= size ->
  wp (read_iob size a) s (fun got s' => got = take (Z.to_nat size) (read_buf f) /\
    s' = set_files (<[a := set_read_buf (drop (Z.to_nat size) (read_buf f)) f]> (files s)) s).
Proof.
  intros Hf Hs. unfold read_iob. apply wp_bind. eapply wp_file; [done|]. apply wp_bind. eapply wp_update_file; [done|].
  by apply wp_ret.
Qed.

(** No read fails. *)
Definition reads_succeed : Prop := forall (w : W) d n, wp (os_read d n) w (fun r _ => 0 <= r.1).

Lemma os_read_ok w d n : 0 < n < 2 ^ 31 -> wp (os_read d n) w (fun r w' =>
  sent w' = sent w /\ (forall e, e <> d -> incoming w' e = incoming w e) /\
  incoming w d = (if r.1 <? 0 then [] else r.2) ++ incoming w' d /\
  (0 <= r.1 -> r.1 = Z.of_nat (length r.2) /\ r.1 <= n) /\
  (reads_succeed -> 0 <= r.1) /\ (r.1 = 0 -> incoming w d = [])).
Proof.
  intros Hn. pose proof (os_read_spec w d n Hn) as Hr. unfold wp in *.
  destruct (os_read d n w) as [[[r b] w']| | |] eqn:E; try done. simpl in *. destruct Hr as (Hs & Ho & Hc).
  split_and!; try done.
  - destruct (Z.ltb_spec r 0); destruct Hc as [[? ?]|(? & ? & ? & _)]; [done|lia|lia|done].
  - intros. destruct Hc as [[? _]|(? & ? & _)]; [lia|done].
  - intros Hok. specialize (Hok w d n). unfold wp in Hok. by rewrite E in Hok.
  - intros ->. destruct Hc as [[? _]|(_ & _ & _ & He)]; [lia|by apply He].
Qed.

(** A request when the buffer is empty, after [got] was taken from it. *)
Lemma refill_ok s a f got size :
  files s !! a = Some f -> read_buf f = [] -> 0 < size < 2 ^ 31 -> read_base f <> 0 ->
  wp (if size >=? IO_BUFSIZE_READ then
        let! '(r, b) := syscall (os_read (fd f) size) in ret (if r <? 0 then got else got ++ b)
      else if read_base f =? 0 then undef
      else
        update a (set_read_buf []) ;;;
        let! '(r, b) := syscall (os_read (fd f) IO_BUFSIZE_READ) in
        if r <=? 0 then ret got
        else
          update a (set_read_buf b) ;;;
          let! more := read_iob size a in
          ret (got ++ more)) s
    (fun res s' => exists more, res = got ++ more /\ Z.of_nat (length more) <= size /\ got_from a f more s s' /\
      (reads_succeed -> more = [] -> unread s f = [])).
Proof.
  intros Hf Hb Hs Hrb. assert (set_read_buf [] f = f) as Ef by (rewrite <-Hb; by destruct f).
  assert (forall w, set_files (<[a := f]> (files s)) (set_os w s) = set_os w s) as Es by (intros w; by rewrite insert_id; destruct s).
  destruct (Z.geb_spec size IO_BUFSIZE_READ).
  - apply wp_bind, wp_zoom. eapply wp_mono; [apply os_read_ok; lia|]. intros [r b] w (Hsent & Ho & Hi & Hl & Hok & Hend).
    simpl in *. apply wp_ret. exists (if r <? 0 then [] else b). split_and!.
    + destruct (r <? 0); by rewrite ?app_nil_r.
    + destruct (Z.ltb_spec r 0); simpl; lia.
    + exists [], w. simpl. rewrite Ef, Es. split_and!; try done. unfold unread. by rewrite Hb.
    + intros Hrs Hg. specialize (Hok Hrs). rewrite (proj2 (Z.ltb_ge r 0)) in Hg by done. subst b.
      unfold unread. rewrite Hb. apply Hend. simpl in Hl. lia.
  - rewrite (proj2 (Z.eqb_neq _ 0)) by done. apply wp_bind. eapply wp_update_file; [done|]. rewrite Ef, insert_id by done.
    replace (set_files (files s) s) with s by (by destruct s). apply wp_bind, wp_zoom.
    eapply wp_mono; [apply os_read_ok; unfold IO_BUFSIZE_READ; lia|]. intros [r b] w (Hsent & Ho & Hi & Hl & Hok & Hend). simpl in *.
    destruct (Z.leb_spec r 0) as [Hr0|Hr0].
    + apply wp_ret. exists []. rewrite app_nil_r. split_and!; [done|simpl; lia| |].
      * exists [], w. simpl. rewrite Ef, Es. split_and!; try done. unfold unread. rewrite Hb. simpl.
        destruct (Z.ltb_spec r 0); [done|]. assert (r = 0) as -> by lia. destruct b; [done|simpl in Hl; lia].
      * intros Hrs _. specialize (Hok Hrs). unfold unread. rewrite Hb. apply Hend. lia.
    + rewrite (proj2 (Z.ltb_ge r 0)) in Hi by lia. apply wp_bind. eapply wp_update_file; [done|]. apply wp_bind.
      eapply wp_mono; [apply read_iob_ok; [apply lookup_insert_eq|lia]|]. intros more s' [-> ->]. simpl. apply wp_ret.
      eexists. split_and!; [done| | |].
      * rewrite length_take. lia.
      * exists (drop (Z.to_nat size) b), w. simpl. split_and!; [|unfold unread; simpl|done|done].
        -- unfold set_files, set_os. simpl. by rewrite insert_insert_eq.
        -- rewrite Hb, Hi. simpl. by rewrite app_assoc, take_drop.
      * intros _ Hg. destruct b; [simpl in Hl; lia|]. destruct (Z.to_nat size) eqn:En; [lia|done].
Qed.

Lemma got_from_app a f got more s s' :
  files s !! a = Some f -> read_buf f = got ->
  got_from a (set_read_buf [] f) more (set_files (<[a := set_read_buf [] f]> (files s)) s) s' -> got_from a f (got ++ more) s s'.
Proof.
  intros Hf <- (l & w & -> & Hu & Hs & Hi). exists l, w. simpl in *. split_and!; try done.
  - unfold set_files, set_os. simpl. by rewrite insert_insert_eq.
  - unfold unread in *. simpl in *. by rewrite Hu, app_assoc.
Qed.

Lemma iob_read_ok s a f size :
  files s !! a = Some f -> read_base f <> 0 -> 0 <= size < 2 ^ 31 ->
  wp (iob_read size a) s (fun got s' => Z.of_nat (length got) <= size /\ got_from a f got s s' /\
    (reads_succeed -> 0 < size -> got = [] -> unread s f = [])).
Proof.
  intros Hf Hrb Hs. unfold iob_read. destruct (Z.eqb_spec size 0) as [->|Hs0].
  { apply wp_ret. split_and!; [done| |lia]. exists (read_buf f), (os s). simpl.
    replace (set_read_buf (read_buf f) f) with f by (by destruct f). rewrite insert_id by done. split_and!; try done. by destruct s. }
  apply wp_bind. eapply wp_file; [done|]. apply wp_bind. destruct (read_buf f) as [|c b] eqn:Eb.
  - apply wp_ret. simpl. rewrite Z.sub_0_r, (proj2 (Z.eqb_neq size 0)) by done.
    eapply wp_mono; [apply (refill_ok s a f []); [done..|lia|done]|]. intros res s' (more & -> & Hl & Hg & Hz). split_and!; auto.
  - eapply wp_mono; [apply read_iob_ok; [done|lia]|]. intros got s1 [-> ->]. rewrite length_take.
    destruct (Z.eqb_spec (size - Z.of_nat (Nat.min (Z.to_nat size) (length (read_buf f)))) 0) as [Hz|Hz].
    + apply wp_ret. rewrite length_take. split_and!; [lia| |].
      * exists (drop (Z.to_nat size) (read_buf f)), (os s). simpl. split_and!; try done.
        unfold unread. simpl. by rewrite app_assoc, take_drop.
      * intros _ _ Hg. rewrite Eb in Hg. destruct (Z.to_nat size) eqn:En; [lia|done].
    + rewrite take_ge, drop_ge by lia. set (f1 := set_read_buf [] f).
      eapply wp_mono; [apply (refill_ok _ a f1 (read_buf f)); [apply lookup_insert_eq|done|lia|done]|].
      intros res s' (more & -> & Hl & Hg & _). split_and!.
      * rewrite length_app. lia.
      * by eapply got_from_app.
      * rewrite Eb. done.
Qed.


(** C25: Reads of a stream give the characters of the file in order, each of them once,
    however the requests are split between the buffer and the system: what was left
    is what is returned followed by what is left.  At most [size] characters are
    returned, and none only at the end of the file or when the system fails. *)
Theorem iob_read_reads s a f size :
  files s !! a = Some f -> read_base f <> 0 -> 0 <= size < 2 ^ 31 ->
  wp (iob_read size a) s (fun got s' => Z.of_nat (length got) <= size /\ got_from a f got s s' /\
    (reads_succeed -> 0 < size -> got = [] -> unread s f = [])).
Proof. apply iob_read_ok. Qed.
End text.

(** ** A system with descriptors that take everything *)

Record toy_os := { t_sent : gmap Z (list Z); t_in : gmap Z (list Z) }.

Definition toy_write (d : Z) (b : list Z) : M toy_os Z := fun w =>
  Done (Z.of_nat (length b), {| t_sent := <[d := default [] (t_sent w !! d) ++ b]> (t_sent w); t_in := t_in w |}).
Definition toy_read (d n : Z) : M toy_os (Z * list Z) := fun w =>
  let l := default [] (t_in w !! d) in
  let b := take (Z.to_nat n) l in
  Done ((Z.of_nat (length b), b), {| t_sent := t_sent w; t_in := <[d := drop (Z.to_nat n) l]> (t_in w) |}).

#[export] Instance toy_posix : Posix toy_os.
Proof.
  refine {| os_write := toy_write; os_read := toy_read; os_open _ _ := ret 3; os_close _ := ret 0;
            sent w d := default [] (t_sent w !! d); incoming w d := default [] (t_in w !! d) |}.
  - intros w d b. unfold wp, toy_write. simpl. split_and!; [done|intros e He; by rewrite lookup_insert_ne|].
    right. rewrite lookup_insert_eq, Nat2Z.id, take_ge by lia. simpl. split; [lia|done].
  - intros w d n Hn. unfold wp, toy_read. simpl. split_and!; [done|intros e He; by rewrite lookup_insert_ne|].
    right. rewrite lookup_insert_eq. simpl. rewrite take_drop. split_and!; [done|rewrite length_take; lia|done|].
    intros Hz. destruct (default [] (t_in w !! d)); [done|]. rewrite length_take in Hz. simpl in Hz. lia.
Defined.

Lemma toy_full : writes_complete (W := toy_os).
Proof. done. Qed.

(** A line buffered stream with an unfinished line, and a stream for reading. *)
Definition toy_file (d fl : Z) (rd wr : list Z) (nx pv : Z) : IO_FILE :=
  {| fd := d; flags := fl; read_base := 500; read_buf := rd; write_base := 600; write_buf := wr; next := nx; prev := pv |}.

Definition toy_stdio : stdio toy_os unit := {|
  files := {[100 := toy_file 1 514 [] [62] 200 0; 200 := toy_file 3 1 [97] [] 0 100]};
  IO_files := 100; IO_lock := false; uheap := tt;
  os := {| t_sent := ∅; t_in := {[3 := [98; 99]]} |} |}.

Lemma toy_stream : stream_at toy_stdio 100 (toy_file 1 514 [] [62] 200 0).
Proof. split_and!; [done|done|]. split; try done. intros _. set_solver. Qed.


Lemma iob_read_reads_witness :
  wp (iob_read 2 200) toy_stdio (fun got s' => Z.of_nat (length got) <= 2 /\
    exists f', files s' !! 200 = Some f' /\ [97; 98; 99] = got ++ unread s' f').
Proof.
  eapply wp_mono; [by apply (iob_read_reads toy_stdio 200 (toy_file 3 1 [97] [] 0 100) 2)|].
  intros got s' (Hl & (l & w & -> & Hu & _) & _). split; [done|]. eexists. split; [apply lookup_insert_eq|exact Hu].
Defined.

(** The letters of [%x] are not those of hexadecimal digits: [printf] of 171 with
    [%x] writes KL, where [sprintf] writes AB. *)
Theorem iob_putu_letters :
  wp (vfprintf 100 [37; 120] [RInt 171]) toy_stdio (fun _ s' =>
    write_buf <$> files s' !! 100 = Some [62; 75; 76]) /\
  render [37; 120] [RInt 171] = Some [65; 66].
Proof. unfold wp. by vm_compute. Qed.
End Stdio.
