(* ===== verification/BlockCache.v ===== *)
(** The block cache of file systems in user space:
    userland/lib/libfiu/src/block_cache.c.

    The cache is a fixed number of blocks in a list from [blocks_head] to
    [blocks_tail], linked in both directions; the blocks in use are counted, and
    a block that is no longer used goes to the end of the list, so the first
    unused block is the one that was released first.  The list is kept as the
    code has it, as nodes by their address; [dll] relates it to a list of slots.

    The file system gives a function that fetches a block into memory; [Fetch]
    states what the cache relies on. *)

From S2P Require Import Prelude KString Malloc.

(** ** Fetching a block

    [fetch buffer num] reads block [num] into the [len] bytes at [buffer], or fails
    with a negative result; [content d num] is what the block holds.  A block
    of [readable d] is read without failure.  Only the buffer is written. *)

Class FetchOp (D : Type) := fetch : Z -> Z -> M (bmem * D) Z.

Class Fetch (D : Type) (len : Z) `{FetchOp D} := {
  content : D -> Z -> list Z;
  readable : D -> Z -> Prop;
  (** The two states of the device hold the same. *)
  same : D -> D -> Prop;
  same_refl : forall d, same d d;
  same_content : forall d d', same d d' -> content d' = content d /\ readable d' = readable d;
  content_length : forall d num, Z.of_nat (length (content d num)) = len;
  content_char : forall d num, Forall is_char (content d num);
  fetch_spec : forall m d buffer num, 0 <= num < 2 ^ 32 -> writable m buffer (Z.to_nat len) ->
    wp (fetch buffer num) (m, d) (fun r s' =>
      same d (s'.2) /\
      ((0 <= r /\ s'.1 = store_bytes buffer (content d num) m) \/
       (r < 0 /\ ~ readable d num /\ exists l, Z.of_nat (length l) <= len /\ s'.1 = store_bytes buffer l m)));
}.

Module BlockCache.

Record fiu_block := {
  block_num : Z;
  ref_count : Z;
  block : Z;
  next : Z;
  prev : Z;
}.

Definition NO_BLOCK : Z := 4294967295.
(** block_num, ref_count, block, next and prev. *)
Definition sizeof_fiu_block : Z := 20.
Definition sizeof_fiu_cache : Z := 28.

Definition set_block_num (v : Z) (b : fiu_block) : fiu_block :=
  {| block_num := v; ref_count := ref_count b; block := block b; next := next b; prev := prev b |}.
Definition set_ref_count (v : Z) (b : fiu_block) : fiu_block :=
  {| block_num := block_num b; ref_count := v; block := block b; next := next b; prev := prev b |}.
Definition set_next (v : Z) (b : fiu_block) : fiu_block :=
  {| block_num := block_num b; ref_count := ref_count b; block := block b; next := v; prev := prev b |}.
Definition set_prev (v : Z) (b : fiu_block) : fiu_block :=
  {| block_num := block_num b; ref_count := ref_count b; block := block b; next := next b; prev := v |}.

Section ops.
Context {D : Type} `{FetchOp D}.

(** The cache of an instance, its nodes, the memory of the process and the device. *)
Record cache := {
  cache_size : Z;
  block_size : Z;
  blocks_head : Z;
  blocks_tail : Z;
  cache_lock : bool;
  nodes : gmap Z fiu_block;
  mem : bmem;
  dev : D;
}.

Definition set_head (v : Z) (s : cache) : cache :=
  {| cache_size := cache_size s; block_size := block_size s; blocks_head := v; blocks_tail := blocks_tail s;
     cache_lock := cache_lock s; nodes := nodes s; mem := mem s; dev := dev s |}.
Definition set_tail (v : Z) (s : cache) : cache :=
  {| cache_size := cache_size s; block_size := block_size s; blocks_head := blocks_head s; blocks_tail := v;
     cache_lock := cache_lock s; nodes := nodes s; mem := mem s; dev := dev s |}.
Definition set_lock (v : bool) (s : cache) : cache :=
  {| cache_size := cache_size s; block_size := block_size s; blocks_head := blocks_head s; blocks_tail := blocks_tail s;
     cache_lock := v; nodes := nodes s; mem := mem s; dev := dev s |}.
Definition set_nodes (v : gmap Z fiu_block) (s : cache) : cache :=
  {| cache_size := cache_size s; block_size := block_size s; blocks_head := blocks_head s; blocks_tail := blocks_tail s;
     cache_lock := cache_lock s; nodes := v; mem := mem s; dev := dev s |}.
Definition set_md (v : bmem * D) (s : cache) : cache :=
  {| cache_size := cache_size s; block_size := block_size s; blocks_head := blocks_head s; blocks_tail := blocks_tail s;
     cache_lock := cache_lock s; nodes := nodes s; mem := v.1; dev := v.2 |}.
Definition md (s : cache) : bmem * D := (mem s, dev s).

(** Access through a pointer to a node. *)
Definition node (a : Z) : M cache fiu_block :=
  let! s := get in match nodes s !! a with Some b => ret b | None => undef end.
Definition update (a : Z) (f : fiu_block -> fiu_block) : M cache unit :=
  let! b := node a in modify (fun s => set_nodes (<[a := f b]> (nodes s)) s).

(** The loop of [fiu_cache_initialize]: [n] blocks are left, the next one at [a]. *)
Fixpoint init_loop (n : nat) (a bsize : Z) : M cache unit :=
  match n with
  | O => ret tt
  | S n =>
      let next := u32 (a + sizeof_fiu_block + bsize) in
      let! s := get in
      modify (fun s => set_nodes (<[a := {| block_num := NO_BLOCK; ref_count := 0;
        block := u32 (a + sizeof_fiu_block); next := next; prev := blocks_tail s |}]> (nodes s)) s) ;;;
      modify (set_tail a) ;;;
      init_loop n next bsize
  end.

(** [fiu_cache_initialize] after its two allocations, the second one at [a]. *)
Definition cache_setup (a csize bsize : Z) : M cache Z :=
  modify (fun s => {| cache_size := csize; block_size := bsize; blocks_head := a; blocks_tail := 0;
                      cache_lock := false; nodes := nodes s; mem := mem s; dev := dev s |}) ;;;
  init_loop (Z.to_nat csize) a bsize ;;;
  let! s := get in
  update (blocks_tail s) (set_next 0) ;;;
  ret 0.

(** The search of [fiu_cache_request]: [n] blocks are left, from [fblock] on.  The
    result is the block that was found, if any, and the first unused one. *)
Fixpoint request_loop (n : nat) (num free fblock : Z) : M cache (Z * Z) :=
  match n with
  | O => ret (0, free)
  | S n =>
      let! b := node fblock in
      if block_num b =? num then ret (fblock, free)
      else
        let free := if (free =? 0) && (ref_count b <=? 0) then fblock else free in
        request_loop n num free (next b)
  end.

Definition fiu_cache_request (num : Z) : M cache Z :=
  spinlock_lock cache_lock set_lock ;;;
  let! s := get in
  let! '(found, free) := request_loop (Z.to_nat (cache_size s)) num 0 (blocks_head s) in
  if negb (found =? 0) then
    update found (fun b => set_ref_count (s32 (ref_count b + 1)) b) ;;;
    spinlock_unlock set_lock ;;;
    let! b := node found in
    ret (block b)
  else if free =? 0 then
    spinlock_unlock set_lock ;;;
    ret 0
  else
    let! b := node free in
    let! r := zoom md set_md (fetch (block b) num) in
    if r <? 0 then
      spinlock_unlock set_lock ;;;
      ret 0
    else
      update free (set_block_num num) ;;;
      update free (set_ref_count 1) ;;;
      spinlock_unlock set_lock ;;;
      let! b := node free in
      ret (block b).

Definition fiu_cache_put_back (a : Z) : M cache unit :=
  let! b := node a in
  if next b =? 0 then ret tt
  else
    (if prev b =? 0 then
       modify (set_head (next b)) ;;;
       update (next b) (set_prev 0)
     else
       update (prev b) (set_next (next b)) ;;;
       let! b := node a in
       update (next b) (set_prev (prev b))) ;;;
    let! s := get in
    update a (set_prev (blocks_tail s)) ;;;
    update (blocks_tail s) (set_next a) ;;;
    update a (set_next 0) ;;;
    modify (set_tail a).

(** The loop of [fiu_cache_release], with fuel. *)
Fixpoint release_loop (fuel : nat) (num fblock : Z) : M cache unit :=
  if fblock =? 0 then spinlock_unlock set_lock
  else match fuel with
  | O => undef
  | S fuel =>
      let! b := node fblock in
      if block_num b =? num then
        update fblock (fun b => set_ref_count (s32 (ref_count b - 1)) b) ;;;
        let! b := node fblock in
        (if ref_count b =? 0 then fiu_cache_put_back fblock else ret tt) ;;;
        spinlock_unlock set_lock
      else release_loop fuel num (next b)
  end.

(** As many rounds as there are nodes are enough. *)
Definition fiu_cache_release (num : Z) : M cache unit :=
  spinlock_lock cache_lock set_lock ;;;
  let! s := get in
  release_loop (size (nodes s)) num (blocks_head s).

(** [fiu_cache_initialize]; the heap of the process is the first part of the state. *)
Definition fiu_cache_initialize {U} `{UHeap U} (csize bsize : Z) : M (U * cache) Z :=
  let heap {A} (m : M U A) : M (U * cache) A := zoom fst (fun u s => (u, s.2)) m in
  let! p := heap (malloc sizeof_fiu_cache) in
  if p =? 0 then ret (-1)
  else
    let! a := heap (malloc (u32 (u32 (sizeof_fiu_block * csize) + u32 (bsize * csize)))) in
    if a =? 0 then heap (free p) ;;; ret (-1)
    else zoom snd (fun c s => (s.1, c)) (cache_setup a csize bsize).
End ops.
Arguments cache : clear implicits.

(** ** The list of slots *)

Record slot := { num : Z; refs : Z; data : Z }.

Definition hd_addr (q : Z) (l : list (Z * slot)) : Z := match l with (a, _) :: _ => a | [] => q end.
Definition last_addr (p : Z) (l : list (Z * slot)) : Z := match last l with Some (a, _) => a | None => p end.

(** The node of a slot with its two links. *)
Definition link (x : slot) (n p : Z) : fiu_block :=
  {| block_num := num x; ref_count := refs x; block := data x; next := n; prev := p |}.

(** [l] is linked from behind [p] to before [q]. *)
Fixpoint dll (m : gmap Z fiu_block) (p : Z) (l : list (Z * slot)) (q : Z) : Prop :=
  match l with
  | [] => True
  | (a, x) :: l => m !! a = Some (link x (hd_addr q l) p) /\ dll m a l q
  end.

Lemma last_addr_cons p a x l : last_addr p ((a, x) :: l) = last_addr a l.
Proof. unfold last_addr. rewrite last_cons. by destruct (last l). Qed.

Lemma last_addr_snoc p l a x : last_addr p (l ++ [(a, x)]) = a.
Proof. unfold last_addr. by rewrite last_snoc. Qed.

Lemma hd_addr_app q l1 l2 : hd_addr q (l1 ++ l2) = hd_addr (hd_addr q l2) l1.
Proof. by destruct l1 as [|[]]. Qed.

Lemma dll_app m p l1 l2 q :
  dll m p (l1 ++ l2) q <-> dll m p l1 (hd_addr q l2) /\ dll m (last_addr p l1) l2 q.
Proof.
  revert p. induction l1 as [|[a x] l1 IH]; intros p; simpl; [tauto|].
  rewrite IH, hd_addr_app, last_addr_cons. tauto.
Qed.

Lemma dll_insert m p l q a b : a ∉ l.*1 -> dll m p l q -> dll (<[a := b]> m) p l q.
Proof.
  revert p. induction l as [|[c x] l IH]; intros p Hni; simpl in *; [done|].
  intros [Hc Hl]. split; [rewrite lookup_insert_ne by set_solver; done|]. apply IH; [set_solver|done].
Qed.

Lemma dll_lookup m p l1 a x l2 q :
  dll m p (l1 ++ (a, x) :: l2) q -> m !! a = Some (link x (hd_addr q l2) (last_addr p l1)).
Proof. rewrite dll_app. intros [_ [? _]]. done. Qed.

(** The slot of a node in the middle may change. *)
Lemma dll_update m p l1 a x y l2 q n pr :
  NoDup (l1 ++ (a, x) :: l2).*1 -> dll m p (l1 ++ (a, x) :: l2) q ->
  n = hd_addr q l2 -> pr = last_addr p l1 ->
  dll (<[a := link y n pr]> m) p (l1 ++ (a, y) :: l2) q.
Proof.
  rewrite fmap_app, fmap_cons. intros Hnd. apply NoDup_app in Hnd as (_ & Hd & [Hni _]%NoDup_cons). simpl in *.
  rewrite !dll_app. simpl. intros (H1 & _ & H2) -> ->. split_and!.
  - apply dll_insert; [|done]. intros Ha. apply (Hd a Ha). set_solver.
  - apply lookup_insert_eq.
  - by apply dll_insert.
Qed.

(** The last node may be linked to another one, *)
Lemma dll_set_next m p l a x q q' :
  NoDup (l ++ [(a, x)]).*1 -> dll m p (l ++ [(a, x)]) q ->
  dll (<[a := link x q' (last_addr p l)]> m) p (l ++ [(a, x)]) q'.
Proof.
  rewrite fmap_app. intros Hnd. apply NoDup_app in Hnd as (_ & Hd & _). simpl in *.
  rewrite !dll_app. simpl. intros (H1 & _). split_and!; [|apply lookup_insert_eq|done].
  apply dll_insert; [|done]. intros Ha. apply (Hd a Ha). set_solver.
Qed.

(** and the first one too. *)
Lemma dll_set_prev m p p' a x l q :
  NoDup ((a, x) :: l).*1 -> dll m p ((a, x) :: l) q ->
  dll (<[a := link x (hd_addr q l) p']> m) p' ((a, x) :: l) q.
Proof.
  intros Hnd [_ Hl]. apply NoDup_cons in Hnd as [Hni _]. split; [apply lookup_insert_eq|by apply dll_insert].
Qed.

(** ** The operations on the list of slots *)

Definition is_num (n : Z) (p : Z * slot) : bool := num p.2 =? n.
Definition unused (p : Z * slot) : bool := refs p.2 <=? 0.

Definition first_unused (l : list (Z * slot)) : Z :=
  match list_break unused l with Some (_, (a, _), _) => a | None => 0 end.

Section rep.
Context {D : Type} {len : Z} {Op : FetchOp D} {Fe : Fetch D len}.
Implicit Types (s : cache D) (l : list (Z * slot)) (a : Z) (x : slot).

Record cache_rep s l : Prop := {
  cr_head : blocks_head s = hd_addr 0 l;
  cr_tail : blocks_tail s = last_addr 0 l;
  cr_dll : dll (nodes s) 0 l 0;
  cr_NoDup : NoDup l.*1;
  cr_null : 0 ∉ l.*1;
  cr_size : cache_size s = Z.of_nat (length l);
}.

Lemma wp_node a b s Q : nodes s !! a = Some b -> Q b s -> wp (node a) s Q.
Proof. intros Hb HQ. unfold node. apply wp_bind, wp_get. by rewrite Hb. Qed.

Lemma wp_update_node a b f s Q :
  nodes s !! a = Some b -> Q tt (set_nodes (<[a := f b]> (nodes s)) s) -> wp (update a f) s Q.
Proof. intros Hb HQ. unfold update. by apply wp_bind, (wp_node a b), wp_modify. Qed.

Lemma request_loop_ok n s : forall l p free,
  dll (nodes s) p l 0 -> 0 ∉ l.*1 ->
  wp (request_loop (length l) n free (hd_addr 0 l)) s (fun r s' => s' = s /\
    match list_break (is_num n) l with
    | Some (_, (a, _), _) => r.1 = a
    | None => r = (0, if free =? 0 then first_unused l else free)
    end).
Proof.
  induction l as [|[a x] l IH]; intros p free Hd H0; cbn [length request_loop].
  - apply wp_ret. split; [done|]. simpl. unfold first_unused. simpl. by destruct (Z.eqb_spec free 0) as [->|].
  - destruct Hd as [Ha Hd]. simpl in H0. apply wp_bind, (wp_node a (link x (hd_addr 0 l) p)); [done|]. simpl.
    unfold is_num at 1. simpl. destruct (num x =? n); [by apply wp_ret|].
    eapply wp_mono; [apply (IH a); [done|set_solver]|].
    intros [found free'] s' [-> Hr]. split; [done|].
    destruct (list_break (is_num n) l) as [[[? [??]] ?]|]; [done|]. rewrite Hr. f_equal.
    unfold first_unused. simpl. change (unused (a, x)) with (refs x <=? 0).
    destruct (Z.eqb_spec free 0) as [->|]; simpl; [|by rewrite (proj2 (Z.eqb_neq free 0))].
    destruct (refs x <=? 0); simpl; [by rewrite (proj2 (Z.eqb_neq a 0)) by set_solver|].
    by destruct (list_break unused l) as [[[? [??]] ?]|].
Qed.

(** Changing the slot of one node. *)
Lemma cache_rep_update s l1 a x y l2 :
  cache_rep s (l1 ++ (a, x) :: l2) ->
  cache_rep (set_nodes (<[a := link y (hd_addr 0 l2) (last_addr 0 l1)]> (nodes s)) s) (l1 ++ (a, y) :: l2).
Proof.
  intros [Hh Ht Hd Hnd H0 Hs]. split; simpl.
  - rewrite Hh. by destruct l1 as [|[]].
  - rewrite Ht. unfold last_addr. rewrite !last_app. simpl. destruct (last l2) as [[]|] eqn:E;
      rewrite !last_cons, E; done.
  - by eapply dll_update.
  - by rewrite !fmap_app, !fmap_cons in *.
  - by rewrite !fmap_app, !fmap_cons in *.
  - by rewrite Hs, !length_app.
Qed.

Lemma cache_rep_ext s s' l :
  cache_rep s l -> blocks_head s' = blocks_head s -> blocks_tail s' = blocks_tail s ->
  nodes s' = nodes s -> cache_size s' = cache_size s -> cache_rep s' l.
Proof. intros [? ? ? ? ? ?] E1 E2 E3 E4. split; congruence. Qed.

Lemma cache_rep_lookup s l1 a x l2 :
  cache_rep s (l1 ++ (a, x) :: l2) -> nodes s !! a = Some (link x (hd_addr 0 l2) (last_addr 0 l1)).
Proof. intros Hr. eapply dll_lookup, Hr. Qed.

Lemma cache_rep_null s l1 a x l2 : cache_rep s (l1 ++ (a, x) :: l2) -> a <> 0.
Proof. intros Hr ->. apply (cr_null _ _ Hr). rewrite fmap_app, fmap_cons. set_solver. Qed.

Definition set_refs (r : Z) (x : slot) : slot := {| num := num x; refs := r; data := data x |}.

(** What [fiu_cache_request] does to the slots, the memory and the device. *)
Definition requested n s l (r : Z) s' : Prop :=
  match list_break (is_num n) l with
  | Some (l1, (a, x), l2) =>
      r = data x /\ md s' = md s /\ cache_rep s' (l1 ++ (a, set_refs (s32 (refs x + 1)) x) :: l2)
  | None =>
      match list_break unused l with
      | None => r = 0 /\ s' = s
      | Some (l1, (a, x), l2) =>
          same (dev s) (dev s') /\
          ((r = data x /\ cache_rep s' (l1 ++ (a, {| num := n; refs := 1; data := data x |}) :: l2) /\
            mem s' = store_bytes (data x) (content (dev s) n) (mem s)) \/
           (r = 0 /\ cache_rep s' l /\ ~ readable (dev s) n /\
            exists b, Z.of_nat (length b) <= len /\ mem s' = store_bytes (data x) b (mem s)))
      end
  end.

Lemma set_lock_twice b s : cache_lock s = false -> set_lock false (set_lock b s) = s.
Proof. destruct s; simpl; by intros ->. Qed.

Lemma request_rep n s l :
  0 <= n < 2 ^ 32 -> cache_lock s = false -> cache_rep s l ->
  (forall a x, (a, x) ∈ l -> writable (mem s) (data x) (Z.to_nat len)) ->
  wp (fiu_cache_request n) s (fun r s' => cache_lock s' = false /\ requested n s l r s').
Proof.
  intros Hn32 Hlk Hrep Hw. unfold fiu_cache_request. apply wp_bind, wp_lock, wp_bind, wp_get; [done|].
  change (cache_size (set_lock true s)) with (cache_size s).
  change (blocks_head (set_lock true s)) with (blocks_head s).
  rewrite (cr_size _ _ Hrep), (cr_head _ _ Hrep), Nat2Z.id.
  apply wp_bind. eapply wp_mono; [apply (request_loop_ok n (set_lock true s) l 0 0); apply Hrep|].
  intros [found free] s1 [-> Hr]. unfold requested. pose proof (cr_null _ _ Hrep) as H0.
  destruct (list_break (is_num n) l) as [[[l1 [a x]] l2]|] eqn:E.
  - apply list_break_Some in E as (El & Hx & _). subst l. simpl in Hr. subst found.
    rewrite (proj2 (Z.eqb_neq a 0)) by (by eapply cache_rep_null). simpl negb.
    pose proof (cache_rep_lookup _ _ _ _ _ Hrep) as Ha.
    apply wp_bind. eapply wp_update_node; [exact Ha|]. apply wp_bind, wp_unlock, wp_bind. simpl.
    eapply wp_node; [simpl; apply lookup_insert_eq|]. apply wp_ret. split; [done|]. split_and!; [done..|].
    by eapply cache_rep_ext; [apply (cache_rep_update s l1 a x (set_refs (s32 (refs x + 1)) x) l2)|..].
  - injection Hr as -> ->. simpl. unfold first_unused.
    destruct (list_break unused l) as [[[l1 [a x]] l2]|] eqn:E2.
    + apply list_break_Some in E2 as (El & Hx & _). subst l.
      rewrite (proj2 (Z.eqb_neq a 0)) by (by eapply cache_rep_null).
      pose proof (cache_rep_lookup _ _ _ _ _ Hrep) as Ha.
      apply wp_bind. eapply wp_node; [done|]. apply wp_bind, wp_zoom. simpl.
      eapply wp_mono; [apply fetch_spec; [done|apply (Hw a); set_solver]|].
      intros r [m' d'] (Hsame & Hres). simpl in *. destruct Hres as [[Hr ->]|(Hr & Hn & b & Hb & ->)].
      * rewrite (proj2 (Z.ltb_ge r 0)) by done.
        apply wp_bind. eapply wp_update_node; [exact Ha|]. apply wp_bind. simpl.
        eapply wp_update_node; [simpl; apply lookup_insert_eq|].
        apply wp_bind, wp_unlock, wp_bind. simpl.
        eapply wp_node; [simpl; apply lookup_insert_eq|]. apply wp_ret.
        split; [done|]. split_and!; [done..|]. left. split_and!; [done| |done].
        rewrite insert_insert_eq.
        by eapply cache_rep_ext;
          [apply (cache_rep_update s l1 a x {| num := n; refs := 1; data := data x |} l2)|..].
      * rewrite (proj2 (Z.ltb_lt r 0)) by done. apply wp_bind, wp_unlock, wp_ret.
        split; [done|]. split_and!; [done..|]. right. split_and!; [done| |done|by eauto].
        by eapply cache_rep_ext.
    + apply wp_bind, wp_unlock, wp_ret. rewrite set_lock_twice by done. done.
Qed.

(** Everything but the links of the nodes and the ends of the list. *)
Definition same_rest s s' : Prop :=
  cache_size s' = cache_size s /\ cache_lock s' = cache_lock s /\ md s' = md s.

Lemma rep_split s l1 a x c y l2 :
  cache_rep s (l1 ++ (a, x) :: (c, y) :: l2) ->
  NoDup (l1 ++ (c, y) :: l2).*1 /\ (a ∉ (l1 ++ (c, y) :: l2).*1) /\ (0 ∉ (l1 ++ (c, y) :: l2).*1) /\ a <> 0 /\
  dll (nodes s) 0 l1 a /\ nodes s !! a = Some (link x c (last_addr 0 l1)) /\ dll (nodes s) a ((c, y) :: l2) 0.
Proof.
  intros [_ _ Hd Hnd H0 _]. rewrite <-Permutation_middle in Hnd. simpl in Hnd. apply NoDup_cons in Hnd as [Hni Hnd].
  apply dll_app in Hd as (H1 & H2 & H3). rewrite !fmap_app, !fmap_cons in *.
  split_and!; try done; set_solver.
Qed.

(** The first half of [fiu_cache_put_back] takes the node out of the list. *)
Lemma unlink_rep s l1 a x c y l2 :
  cache_rep s (l1 ++ (a, x) :: (c, y) :: l2) ->
  wp (if last_addr 0 l1 =? 0 then (modify (set_head c) ;;; update c (set_prev 0))
      else (update (last_addr 0 l1) (set_next c) ;;; let! b := node a in update (next b) (set_prev (prev b)))) s
    (fun _ s' => same_rest s s' /\ blocks_tail s' = blocks_tail s /\ blocks_head s' = hd_addr 0 (l1 ++ (c, y) :: l2) /\
       dll (nodes s') 0 (l1 ++ (c, y) :: l2) 0 /\ nodes s' !! a = Some (link x c (last_addr 0 l1))).
Proof.
  intros Hrep. destruct (rep_split _ _ _ _ _ _ _ Hrep) as (Hnd & Ha & H0 & Ha0 & H1 & Hna & H2).
  pose proof H2 as [Hc Hl2]. pose proof (cr_head _ _ Hrep) as Hh.
  rewrite fmap_app, fmap_cons in Hnd, Ha, H0. apply NoDup_app in Hnd as (Hnd1 & Hdis & Hnd2).
  pose proof Hnd2 as [Hc2 _]%NoDup_cons. simpl in *.
  destruct l1 as [|[e z] l1 _] using rev_ind.
  - simpl in *. apply wp_bind, wp_modify. eapply wp_update_node; [exact Hc|]. simpl. split_and!; try done.
    + apply lookup_insert_eq.
    + by apply dll_insert.
    + rewrite lookup_insert_ne; [done|]. set_solver.
  - rewrite last_addr_snoc in *. pose proof Hnd1 as Hnd1'. rewrite fmap_app in Ha, H0, Hdis, Hnd1'. simpl in *.
    apply NoDup_app in Hnd1' as (_ & He1 & _).
    assert (e <> c) as Hec.
    { intros ->. apply (Hdis c); [apply elem_of_app; right; apply list_elem_of_here|apply list_elem_of_here]. }
    rewrite !elem_of_app, !elem_of_cons in Ha, H0.
    assert (e <> 0 /\ a <> e /\ a <> c) as (He0 & Hae & Hac) by (split_and!; naive_solver).
    rewrite (proj2 (Z.eqb_neq e 0)) by done.
    pose proof (dll_set_next _ _ _ _ _ _ c Hnd1 H1) as H1'.
    apply dll_app in H1 as [H1 [He _]]. simpl in He.
    apply wp_bind. eapply wp_update_node; [exact He|]. apply wp_bind. eapply wp_node.
    { simpl. rewrite lookup_insert_ne by done. exact Hna. }
    eapply wp_update_node; simpl. { rewrite lookup_insert_ne by done. exact Hc. }
    split_and!; try done.
    + rewrite Hh. by destruct l1 as [|[]].
    + rewrite dll_app, last_addr_snoc. split.
      * apply dll_insert; [|done]. rewrite fmap_app. intros Hin. apply (Hdis c Hin), list_elem_of_here.
      * split; [apply lookup_insert_eq|]. apply dll_insert; [done|]. apply dll_insert; [|done].
        intros He2. apply (Hdis e); [apply elem_of_app; right; apply list_elem_of_here|by apply list_elem_of_further].
    + rewrite !lookup_insert_ne by done. done.
Qed.

Lemma put_back_rep s l1 a x l2 :
  cache_rep s (l1 ++ (a, x) :: l2) ->
  wp (fiu_cache_put_back a) s (fun _ s' => same_rest s s' /\ cache_rep s' (l1 ++ l2 ++ [(a, x)])).
Proof.
  intros Hrep. unfold fiu_cache_put_back. apply wp_bind.
  eapply wp_node; [by apply cache_rep_lookup|]. simpl.
  destruct l2 as [|[c y] l2]; simpl; [by apply wp_ret|].
  destruct (rep_split _ _ _ _ _ _ _ Hrep) as (Hnd & Ha & H0 & Ha0 & _).
  rewrite (proj2 (Z.eqb_neq c 0)) by (rewrite fmap_app, fmap_cons in H0; set_solver).
  apply wp_bind. eapply wp_mono; [by apply unlink_rep|].
  intros _ s1 ((Hsz & Hlk & Hmd) & Ht1 & Hh1 & Hd1 & Hna).
  apply wp_bind, wp_get. rewrite Ht1, (cr_tail _ _ Hrep).
  assert (exists l t w, l1 ++ (c, y) :: l2 = l ++ [(t, w)]) as (l & t & w & El).
  { destruct l2 as [|[t w] l2 _] using rev_ind; [by exists l1, c, y|].
    exists (l1 ++ (c, y) :: l2), t, w. by rewrite <-app_assoc. }
  replace (last_addr 0 (l1 ++ (a, x) :: (c, y) :: l2)) with t.
  2:{ replace (l1 ++ (a, x) :: (c, y) :: l2) with ((l1 ++ [(a, x)]) ++ (c, y) :: l2) by (by rewrite <-app_assoc).
      assert (last (l1 ++ (c, y) :: l2) = Some (t, w)) as Hl by (rewrite El; apply last_snoc).
      unfold last_addr. rewrite last_app in Hl |- *. destruct (last ((c, y) :: l2)) eqn:E; [by simplify_eq|].
      by apply last_None in E. }
  rewrite El in *. pose proof Hd1 as [Hdl [Htn _]]%dll_app. simpl in Htn.
  assert (a <> t) as Hat by (rewrite fmap_app in Ha; set_solver).
  apply wp_bind. eapply wp_update_node; [exact Hna|]. apply wp_bind. eapply wp_update_node; simpl.
  { rewrite lookup_insert_ne by done. exact Htn. }
  apply wp_bind. eapply wp_update_node; simpl.
  { rewrite lookup_insert_ne by done. apply lookup_insert_eq. }
  apply wp_modify. split; [done|].
  replace (l1 ++ (c, y) :: l2 ++ [(a, x)]) with ((l ++ [(t, w)]) ++ [(a, x)]) by (rewrite <-El, <-app_assoc; done).
  split; simpl.
  - rewrite Hh1. by destruct l as [|[]].
  - by rewrite last_addr_snoc.
  - apply dll_app. rewrite last_addr_snoc. split.
    + apply dll_insert; [done|]. apply (dll_set_next (<[a := _]> (nodes s1)) 0 l t w 0 a Hnd).
      by apply dll_insert.
    + split; [|done]. simpl. rewrite lookup_insert_eq. done.
  - rewrite (fmap_app _ (l ++ _)). apply NoDup_app. split_and!; [done| |apply NoDup_singleton].
    intros b Hb ->%list_elem_of_singleton. done.
  - rewrite (fmap_app _ (l ++ _)). intros [Hin|Hin]%elem_of_app; [by apply H0|]. apply list_elem_of_singleton in Hin. by symmetry in Hin.
  - rewrite Hsz, (cr_size _ _ Hrep). rewrite (length_app (l ++ _)), <-El, !length_app. simpl. lia.
Qed.

(** The number of rounds of [fiu_cache_release]. *)
Lemma rep_length s l : cache_rep s l -> (length l <= size (nodes s))%nat.
Proof.
  intros Hrep. pose proof (cr_NoDup _ _ Hrep) as Hnd. pose proof (cr_dll _ _ Hrep) as Hd.
  rewrite <-(length_fmap fst l). rewrite <-(size_list_to_set (C := gset Z) _ Hnd), <-size_dom.
  apply subseteq_size. intros a Ha. apply elem_of_list_to_set in Ha. apply list_elem_of_fmap in Ha as ([b x] & -> & Hb).
  apply list_elem_of_split in Hb as (l1 & l2 & ->). apply elem_of_dom. eexists. by apply (cache_rep_lookup _ _ _ _ _ Hrep).
Qed.

(** What [fiu_cache_release] does to the slots. *)
Definition released (n : Z) l : list (Z * slot) :=
  match list_break (is_num n) l with
  | Some (l1, (a, x), l2) =>
      let y := set_refs (s32 (refs x - 1)) x in
      if refs y =? 0 then l1 ++ l2 ++ [(a, y)] else l1 ++ (a, y) :: l2
  | None => l
  end.

Lemma release_loop_ok n s l : forall l2 l1 fuel,
  cache_rep s l -> l = l1 ++ l2 -> Forall (fun p => is_num n p = false) l1 -> (length l2 <= fuel)%nat ->
  wp (release_loop fuel n (hd_addr 0 l2)) s (fun _ s' =>
    cache_lock s' = false /\ md s' = md s /\ cache_rep s' (released n l)).
Proof.
  induction l2 as [|[a x] l2 IH]; intros l1 fuel Hrep El Hl1 Hf; simpl in Hf.
  - assert (released n l = l) as ->.
    { unfold released. rewrite (proj2 (list_break_None _ _)); [done|]. by rewrite El, app_nil_r. }
    destruct fuel; simpl; apply wp_unlock; split_and!; try done; by eapply cache_rep_ext.
  - destruct fuel as [|fuel]; [lia|]. simpl. rewrite El in Hrep.
    rewrite (proj2 (Z.eqb_neq a 0)) by (by eapply cache_rep_null).
    apply wp_bind. eapply wp_node; [by apply cache_rep_lookup|]. simpl. destruct (num x =? n) eqn:E.
    + assert (list_break (is_num n) l = Some (l1, (a, x), l2)) as Hb by (by apply list_break_Some).
      unfold released. rewrite Hb.
      apply wp_bind. eapply wp_update_node; [by apply cache_rep_lookup|]. apply wp_bind.
      eapply wp_node; [simpl; apply lookup_insert_eq|]. simpl.
      set (y := set_refs (s32 (refs x - 1)) x). set (s1 := set_nodes _ s).
      assert (cache_rep s1 (l1 ++ (a, y) :: l2)) as Hrep1 by by apply (cache_rep_update s l1 a x y l2).
      apply wp_bind. change (s32 (refs x - 1)) with (refs y). destruct (refs y =? 0).
      * eapply wp_mono; [by apply put_back_rep|]. intros _ s2 ((_ & _ & Hm) & Hrep2).
        apply wp_unlock. split_and!; [done|done|by eapply cache_rep_ext].
      * apply wp_ret, wp_unlock. split_and!; [done|done|by eapply cache_rep_ext].
    + rewrite El. rewrite <-El. apply (IH (l1 ++ [(a, x)])); [by rewrite El| |by apply Forall_app; auto|lia].
      by rewrite <-app_assoc.
Qed.

Lemma release_rep n s l :
  cache_lock s = false -> cache_rep s l ->
  wp (fiu_cache_release n) s (fun _ s' =>
    cache_lock s' = false /\ md s' = md s /\ cache_rep s' (released n l)).
Proof.
  intros Hlk Hrep. unfold fiu_cache_release. apply wp_bind, wp_lock, wp_bind, wp_get; [done|].
  assert (cache_rep (set_lock true s) l) as Hrep1 by by eapply cache_rep_ext.
  rewrite (cr_head _ _ Hrep1). eapply wp_mono; [by apply (release_loop_ok n _ l l []); [..|by apply rep_length]|]. done.
Qed.

(** ** The contents of the slots *)

Record slots_ok (m : bmem) (c : Z -> list Z) l : Prop := {
  so_write : forall a x, (a, x) ∈ l -> 0 < data x /\ writable m (data x) (Z.to_nat len);
  so_apart : forall a x b y, (a, x) ∈ l -> (b, y) ∈ l -> a <> b ->
    data x + len <= data y \/ data y + len <= data x;
  so_data : forall a x, (a, x) ∈ l -> num x <> NO_BLOCK -> bytes_at m (data x) (c (num x));
  so_unique : forall a x b y, (a, x) ∈ l -> (b, y) ∈ l -> num x = num y -> num x <> NO_BLOCK -> a = b;
  so_used : forall a x, (a, x) ∈ l -> 0 <= refs x /\ (0 < refs x -> num x <> NO_BLOCK);
}.

Definition cache_ok s l : Prop :=
  cache_lock s = false /\ cache_rep s l /\ slots_ok (mem s) (content (dev s)) l.

Definition pin (p : Z * slot) : option (Z * (Z * Z)) :=
  if 0 <? refs p.2 then Some (num p.2, (data p.2, refs p.2)) else None.

(** The blocks in use: where their data is and how often they were requested. *)
Definition pinned l : gmap Z (Z * Z) := list_to_map (omap pin l).

Lemma pin_NoDup m c l : NoDup l.*1 -> slots_ok m c l -> NoDup (omap pin l).*1.
Proof.
  intros Hnd [_ _ _ Hu Hr]. induction l as [|[a x] l IH]; [constructor|].
  apply NoDup_cons in Hnd as [Hni Hnd]. simpl. unfold pin at 1. simpl.
  assert (NoDup (omap pin l).*1) as Hl.
  { apply IH; [done|..].
    - intros b y b' y' Hb Hb'. apply (Hu b y b' y'); by apply list_elem_of_further.
    - intros b y Hb. apply (Hr b y). by apply list_elem_of_further. }
  destruct (Z.ltb_spec 0 (refs x)) as [Hx|]; [|done]. simpl. constructor; [|done].
  intros ([k v] & Hk & Hp)%list_elem_of_fmap. apply list_elem_of_omap in Hp as ([b y] & Hb & Hp).
  unfold pin in Hp. simpl in *. destruct (0 <? refs y); simplify_eq/=. apply Hni.
  rewrite (Hu a x b y); [|apply list_elem_of_here|by apply list_elem_of_further|done|].
  - apply list_elem_of_fmap. by exists (b, y).
  - apply (Hr a x); [apply list_elem_of_here|done].
Qed.

Lemma pinned_lookup m c l n v :
  NoDup l.*1 -> slots_ok m c l ->
  pinned l !! n = Some v <-> exists a x, (a, x) ∈ l /\ 0 < refs x /\ num x = n /\ (data x, refs x) = v.
Proof.
  intros Hnd Hs. unfold pinned. rewrite <-elem_of_list_to_map by by eapply pin_NoDup.
  rewrite list_elem_of_omap. unfold pin. split.
  - intros ([a x] & Hx & Hp). simpl in Hp. destruct (Z.ltb_spec 0 (refs x)); simplify_eq. eauto 10.
  - intros (a & x & Hx & Hr & <- & <-). exists (a, x). split; [done|]. simpl.
    by rewrite (proj2 (Z.ltb_lt 0 _)).
Qed.

(** A full cache is one whose slots are all in use. *)
Lemma pinned_full m c l :
  NoDup l.*1 -> slots_ok m c l -> Forall (fun p => unused p = false) l -> size (pinned l) = length l.
Proof.
  intros Hnd Hs Hu. unfold pinned.
  assert (omap pin l = (fun p => (num p.2, (data p.2, refs p.2))) <$> l) as Ho.
  { clear Hs Hnd. induction Hu as [|[a x] l Hx Hl IH]; [done|]. unfold unused in Hx. simpl in *. unfold pin at 1. simpl.
    rewrite (proj2 (Z.ltb_lt 0 _)) by lia. f_equal. apply IH. }
  pose proof (pin_NoDup m c l Hnd Hs) as Hp. rewrite Ho in Hp |- *.
  rewrite map_size_list_to_map by done. apply length_fmap.
Qed.

Lemma middle_elem l1 a x l2 b y : (b, y) ∈ l1 ++ (a, x) :: l2 <-> (b, y) = (a, x) \/ (b, y) ∈ l1 ++ l2.
Proof. rewrite !elem_of_app, elem_of_cons. tauto. Qed.

Lemma middle_ne l1 a x l2 b y : NoDup (l1 ++ (a, x) :: l2).*1 -> (b, y) ∈ l1 ++ l2 -> b <> a.
Proof.
  rewrite <-Permutation_middle. intros [Hni _]%NoDup_cons Hb ->. apply Hni, list_elem_of_fmap. by exists (a, y).
Qed.

(** One slot changes, with its data. *)
Lemma slots_ok_set m m' c l1 a x y l2 :
  slots_ok m c (l1 ++ (a, x) :: l2) -> NoDup (l1 ++ (a, x) :: l2).*1 -> data y = data x ->
  0 <= refs y -> num y <> NO_BLOCK -> bytes_at m' (data y) (c (num y)) ->
  (forall b z, (b, z) ∈ l1 ++ l2 -> num z <> num y) ->
  (forall n, Z.of_nat (length (c n)) = len) ->
  (forall p, p < data x \/ data x + len <= p -> m' !! p = m !! p) ->
  (forall p, is_Some (m !! p) -> is_Some (m' !! p)) ->
  slots_ok m' c (l1 ++ (a, y) :: l2).
Proof.
  intros [Hw Ha Hd Hu Hr] Hnd Hdy H0 Hny Hby Hno Hlen Hout Hdom.
  setoid_rewrite middle_elem in Hw. setoid_rewrite middle_elem in Ha. setoid_rewrite middle_elem in Hd.
  setoid_rewrite middle_elem in Hu. setoid_rewrite middle_elem in Hr.
  split; setoid_rewrite middle_elem.
  - intros b z [[= -> ->]|Hz]; [rewrite Hdy|].
    + destruct (Hw a x (or_introl eq_refl)) as [? Hwr]. split; [done|]. intros p Hp. by apply Hdom, Hwr.
    + destruct (Hw b z (or_intror Hz)) as [? Hwr]. split; [done|]. intros p Hp. by apply Hdom, Hwr.
  - intros b z b' z' [[= -> ->]|Hz] [[= -> ->]|Hz'] Hne; rewrite ?Hdy; try done.
    + by apply (Ha a x b' z'); auto.
    + by apply (Ha b z a x); auto.
    + by apply (Ha b z b' z'); auto.
  - intros b z [[= -> ->]|Hz] Hnz; [done|].
    apply (bytes_at_kept m); [by eapply Hd; eauto|]. intros p Hp. rewrite Hlen in Hp. apply Hout.
    destruct (Ha b z a x) as [?|?]; auto; [|lia..]. by eapply middle_ne.
  - intros b z b' z' [[= -> ->]|Hz] [[= -> ->]|Hz'] Heq Hn; try done.
    + by destruct (Hno b' z').
    + by destruct (Hno b z).
    + apply (Hu b z b' z'); auto.
  - intros b z [[= -> ->]|Hz]; [done|]. apply (Hr b z). auto.
Qed.

Lemma slots_ok_perm m c l l' : l ≡ₚ l' -> slots_ok m c l -> slots_ok m c l'.
Proof.
  intros Hp [Hw Ha Hd Hu Hr].
  setoid_rewrite Hp in Hw. setoid_rewrite Hp in Ha. setoid_rewrite Hp in Hd.
  setoid_rewrite Hp in Hu. setoid_rewrite Hp in Hr. by split.
Qed.

Lemma pinned_perm l l' : NoDup (omap pin l).*1 -> l ≡ₚ l' -> pinned l = pinned l'.
Proof. intros Hnd Hp. unfold pinned. apply list_to_map_proper; [done|]. by rewrite Hp. Qed.

(** A slot becomes the one of block [n]. *)
Lemma pinned_set m m' c l1 a x y l2 :
  slots_ok m c (l1 ++ (a, x) :: l2) -> slots_ok m' c (l1 ++ (a, y) :: l2) ->
  NoDup (l1 ++ (a, x) :: l2).*1 -> num x = num y \/ refs x <= 0 -> num y <> NO_BLOCK ->
  pinned (l1 ++ (a, y) :: l2) =
    if 0 <? refs y then <[num y := (data y, refs y)]> (pinned (l1 ++ (a, x) :: l2))
    else delete (num y) (pinned (l1 ++ (a, x) :: l2)).
Proof.
  intros Hs Hs' Hnd Hx Hny.
  assert (NoDup (l1 ++ (a, y) :: l2).*1) as Hnd' by (by rewrite !fmap_app, !fmap_cons in *).
  assert (forall b z, (b, z) ∈ l1 ++ l2 -> num z <> num y) as Hno.
  { intros b z Hz Heq. apply (middle_ne _ _ _ _ _ _ Hnd Hz).
    apply (so_unique _ _ _ Hs' b z a y); rewrite ?middle_elem; auto. congruence. }
  apply map_eq. intros n. apply option_eq. intros v. rewrite (pinned_lookup m' c) by done.
  setoid_rewrite middle_elem. destruct (Z.ltb_spec 0 (refs y)) as [Hr|Hr].
  - rewrite lookup_insert_Some, (pinned_lookup m c) by done. setoid_rewrite middle_elem. split.
    + intros (b & z & [[= -> ->]|Hz] & Hrz & <- & <-); [by left|]. right. split; [by apply not_eq_sym, Hno with b|].
      exists b, z. auto.
    + intros [[<- <-]|[Hne (b & z & [[= -> ->]|Hz] & Hrz & <- & <-)]].
      * exists a, y. auto.
      * destruct Hx; [congruence|lia].
      * exists b, z. auto.
  - rewrite lookup_delete_Some, (pinned_lookup m c) by done. setoid_rewrite middle_elem. split.
    + intros (b & z & [[= -> ->]|Hz] & Hrz & <- & <-); [lia|]. split; [by apply not_eq_sym, Hno with b|].
      exists b, z. auto.
    + intros [Hne (b & z & [[= -> ->]|Hz] & Hrz & <- & <-)]; [destruct Hx; [congruence|lia]|].
      exists b, z. auto.
Qed.

Lemma pinned_data s l n d c :
  cache_ok s l -> pinned l !! n = Some (d, c) -> bytes_at (mem s) d (content (dev s) n).
Proof.
  intros (_ & Hr & Hs) Hp. eapply pinned_lookup in Hp as (a & x & Hx & Hrx & <- & [= <- <-]); [|apply Hr|done].
  apply (so_data _ _ _ Hs a x Hx). by apply (so_used _ _ _ Hs a x).
Qed.

(** The count of a request. *)
Definition pin_count l n : Z := default 0 (snd <$> pinned l !! n).

Lemma pin_count_slot m c l a x :
  NoDup l.*1 -> slots_ok m c l -> (a, x) ∈ l -> num x <> NO_BLOCK -> pin_count l (num x) = refs x.
Proof.
  intros Hnd Hs Hx Hn. unfold pin_count. destruct (pinned l !! num x) as [v|] eqn:E; simpl.
  - eapply pinned_lookup in E as (b & y & Hy & Hry & Heq & <-); [|done..]. simpl.
    assert (b = a) as -> by (by eapply (so_unique _ _ _ Hs b y a x); [..|congruence]).
    apply list_elem_of_split in Hx as (l1 & l2 & ->). apply middle_elem in Hy as [[= ->]|Hy]; [done|].
    by destruct (middle_ne _ _ _ _ _ _ Hnd Hy).
  - destruct (so_used _ _ _ Hs a x Hx) as [H0 _]. destruct (decide (refs x = 0)); [done|].
    assert (pinned l !! num x = Some (data x, refs x)) as Hp; [|congruence].
    eapply pinned_lookup; [done..|]. exists a, x. split_and!; [done|lia|done..].
Qed.

(** The memory of the slots. *)
Definition areas l : list Z := (fun p => data p.2) <$> l.

(** The address is not in a slot. *)
Definition outside l (p : Z) : Prop := forall d, d ∈ areas l -> p < d \/ d + len <= p.

Lemma rep_cache_size s s' l l' :
  cache_rep s l -> cache_rep s' l' -> areas l' ≡ₚ areas l -> cache_size s' = cache_size s.
Proof.
  intros Hr Hr' Hp. rewrite (cr_size _ _ Hr), (cr_size _ _ Hr'). apply Permutation_length in Hp.
  unfold areas in Hp. rewrite !length_fmap in Hp. by rewrite Hp.
Qed.

Lemma same_num m c l1 a x l2 b z :
  slots_ok m c (l1 ++ (a, x) :: l2) -> NoDup (l1 ++ (a, x) :: l2).*1 -> num x <> NO_BLOCK ->
  (b, z) ∈ l1 ++ l2 -> num z <> num x.
Proof.
  intros Hs Hnd Hn Hz Heq. apply (middle_ne _ _ _ _ _ _ Hnd Hz).
  apply (so_unique _ _ _ Hs b z a x); rewrite ?middle_elem; auto. congruence.
Qed.

Lemma slots_ok_refs s l1 a x l2 r :
  slots_ok (mem s) (content (dev s)) (l1 ++ (a, x) :: l2) -> NoDup (l1 ++ (a, x) :: l2).*1 ->
  num x <> NO_BLOCK -> 0 <= r ->
  slots_ok (mem s) (content (dev s)) (l1 ++ (a, set_refs r x) :: l2).
Proof.
  intros Hs Hnd Hn Hr. apply (slots_ok_set (mem s) (mem s) _ l1 a x _ l2 Hs Hnd); try done.
  - apply (so_data _ _ _ Hs a x); [apply middle_elem; auto|done].
  - intros b z Hz. by apply (same_num _ _ _ _ _ _ _ _ Hs Hnd Hn Hz).
  - intros k. apply content_length.
Qed.

Lemma slots_ok_fetched s l1 a x l2 n :
  slots_ok (mem s) (content (dev s)) (l1 ++ (a, x) :: l2) -> NoDup (l1 ++ (a, x) :: l2).*1 ->
  n <> NO_BLOCK -> Forall (fun p => is_num n p = false) (l1 ++ (a, x) :: l2) ->
  slots_ok (store_bytes (data x) (content (dev s) n) (mem s)) (content (dev s))
    (l1 ++ (a, {| num := n; refs := 1; data := data x |}) :: l2).
Proof.
  intros Hs Hnd Hn E. rewrite Forall_forall in E.
  apply (slots_ok_set (mem s) _ _ l1 a x _ l2 Hs Hnd); try done; simpl.
  - apply bytes_at_store_bytes.
  - intros b z Hz Heq. assert ((b, z) ∈ l1 ++ (a, x) :: l2) as Hz' by (apply middle_elem; auto).
    specialize (E _ Hz'). unfold is_num in E. simpl in E. lia.
  - intros k. apply content_length.
  - intros p Hp. apply lookup_store_bytes_ne. rewrite content_length. lia.
  - intros p Hp. destruct (decide (data x <= p < data x + Z.of_nat (length (content (dev s) n)))).
    + by apply lookup_store_bytes_in.
    + rewrite lookup_store_bytes_ne by lia. done.
Qed.

Lemma not_pinned m c l n :
  NoDup l.*1 -> slots_ok m c l -> Forall (fun p => is_num n p = false) l -> pinned l !! n = None.
Proof.
  intros Hnd Hs E. rewrite Forall_forall in E. destruct (pinned l !! n) eqn:Ep; [|done].
  eapply pinned_lookup in Ep as (a & x & Hx & _ & Hxn & _); [|done..].
  specialize (E _ Hx). unfold is_num in E. simpl in E. lia.
Qed.

Lemma request_ok n s l :
  cache_ok s l -> 0 <= n < NO_BLOCK -> readable (dev s) n -> pin_count l n < 2 ^ 31 - 1 ->
  wp (fiu_cache_request n) s (fun r s' =>
    same (dev s) (dev s') /\
    ((r = 0 /\ s' = s /\ pinned l !! n = None /\ Z.of_nat (size (pinned l)) = cache_size s) \/
     (r <> 0 /\ exists l', cache_ok s' l' /\ pinned l' = <[n := (r, pin_count l n + 1)]> (pinned l) /\
        areas l' ≡ₚ areas l /\ cache_size s' = cache_size s /\
        (forall p, outside l p -> mem s' !! p = mem s !! p) /\
        forall d c, pinned l !! n = Some (d, c) -> d = r))).
Proof.
  intros (Hlk & Hrep & Hs) Hn32 Hrd Hc. pose proof (cr_NoDup _ _ Hrep) as Hnd.
  assert (n <> NO_BLOCK) as Hn by lia.
  eapply wp_mono; [apply request_rep; [unfold NO_BLOCK in *; lia|done..|]|]; [intros a x Hx; by apply (so_write _ _ _ Hs a x)|].
  intros r s' (Hlk' & Hreq). unfold requested in Hreq.
  destruct (list_break (is_num n) l) as [[[l1 [a x]] l2]|] eqn:E.
  - apply list_break_Some in E as (-> & Hx & _). apply Z.eqb_eq in Hx. simpl in Hx. subst n.
    destruct Hreq as (-> & [= Hm Hd] & Hrep'). rewrite Hd. split; [apply same_refl|]. right.
    assert ((a, x) ∈ l1 ++ (a, x) :: l2) as Hin by set_solver.
    destruct (so_write _ _ _ Hs a x Hin) as [Hpos _]. destruct (so_used _ _ _ Hs a x Hin) as [H0 _].
    rewrite (pin_count_slot _ _ _ a x Hnd Hs Hin Hn) in Hc |- *. rewrite s32_small in Hrep' by lia.
    pose proof (slots_ok_refs s l1 a x l2 (refs x + 1) Hs Hnd Hn ltac:(lia)) as Hs'.
    split; [lia|]. eexists. split_and!; [split_and!; [done..|by rewrite Hm, Hd]|..].
    + rewrite (pinned_set _ _ _ _ _ _ _ _ Hs Hs' Hnd); simpl; [|by left|done].
      by rewrite (proj2 (Z.ltb_lt 0 _)) by lia.
    + by unfold areas; rewrite !fmap_app.
    + eapply rep_cache_size; [done..|]. by unfold areas; rewrite !fmap_app.
    + by rewrite Hm.
    + intros d c Hp. eapply pinned_lookup in Hp as (b & z & Hz & _ & Hzn & [= <- <-]); [|done..].
      apply middle_elem in Hz as [[= -> ->]|Hz]; [done|]. by destruct (same_num _ _ _ _ _ _ _ _ Hs Hnd Hn Hz).
  - apply list_break_None in E. pose proof (not_pinned _ _ _ _ Hnd Hs E) as Hpn.
    destruct (list_break unused l) as [[[l1 [a x]] l2]|] eqn:E2.
    + apply list_break_Some in E2 as (-> & Hx & _). unfold unused in Hx. simpl in Hx.
      destruct Hreq as (Hsame & [(-> & Hrep' & Hm)|(_ & _ & ? & _)]); [|done]. split; [done|]. right.
      destruct (same_content _ _ Hsame) as [Hcd _].
      destruct (so_write _ _ _ Hs a x) as [Hpos _]; [set_solver|].
      pose proof (slots_ok_fetched s l1 a x l2 n Hs Hnd Hn E) as Hs'.
      split; [lia|]. eexists. split_and!; [split_and!; [done..|by rewrite Hcd, Hm]|..].
      * rewrite (pinned_set _ _ _ _ _ _ _ _ Hs Hs' Hnd); simpl; [|right; lia|done].
        unfold pin_count. by rewrite Hpn.
      * by unfold areas; rewrite !fmap_app.
      * eapply rep_cache_size; [done..|]. by unfold areas; rewrite !fmap_app.
      * intros p Hp. rewrite Hm. apply lookup_store_bytes_ne. rewrite content_length.
        destruct (Hp (data x)); [|lia..]. apply list_elem_of_fmap. exists (a, x). split; [done|set_solver].
      * intros d c Hp. congruence.
    + destruct Hreq as [-> ->]. apply list_break_None in E2. split; [apply same_refl|]. left. split_and!; [done..|].
      rewrite (cr_size _ _ Hrep). f_equal. by eapply pinned_full.
Qed.

Lemma release_ok n s l d c :
  cache_ok s l -> pinned l !! n = Some (d, c) -> c < 2 ^ 31 ->
  wp (fiu_cache_release n) s (fun _ s' => md s' = md s /\ exists l', cache_ok s' l' /\
    pinned l' = (if c =? 1 then delete n (pinned l) else <[n := (d, c - 1)]> (pinned l)) /\
    areas l' ≡ₚ areas l /\ cache_size s' = cache_size s).
Proof.
  intros (Hlk & Hrep & Hs) Hp Hc. pose proof (cr_NoDup _ _ Hrep) as Hnd.
  eapply pinned_lookup in Hp as (a & x & Hx & Hrx & <- & [= <- <-]); [|done..].
  destruct (so_used _ _ _ Hs a x Hx) as [_ Hn]. specialize (Hn Hrx).
  eapply wp_mono; [by apply release_rep|]. intros _ s' (Hlk' & Hmd & Hrep'). split; [done|].
  pose proof Hmd as [= Hm Hd]. exists (released (num x) l). unfold released in *.
  assert (exists l1 l2, list_break (is_num (num x)) l = Some (l1, (a, x), l2) /\ l = l1 ++ (a, x) :: l2)
    as (l1 & l2 & E & ->).
  { destruct (list_break (is_num (num x)) l) as [[[l1 [b y]] l2]|] eqn:E.
    - apply list_break_Some in E as (-> & Hy & _). apply Z.eqb_eq in Hy. simpl in Hy.
      apply middle_elem in Hx as [[= -> ->]|Hx]; [by eauto|].
      destruct (same_num _ _ _ _ _ _ _ _ Hs Hnd ltac:(congruence) Hx). done.
    - apply list_break_None in E. rewrite Forall_forall in E. specialize (E _ Hx).
      unfold is_num in E. simpl in E. lia. }
  rewrite E in *. simpl in *. rewrite s32_small in * by lia.
  pose proof (slots_ok_refs s l1 a x l2 (refs x - 1) Hs Hnd Hn ltac:(lia)) as Hs'.
  pose proof (pinned_set _ _ _ _ _ _ _ _ Hs Hs' Hnd (or_introl eq_refl) Hn) as Hpin. simpl in Hpin.
  assert (refs x - 1 = 0 <-> refs x = 1) as H1 by lia.
  destruct (Z.eqb_spec (refs x - 1) 0) as [H0|H0].
  - rewrite (proj2 (Z.eqb_eq _ 1)) by lia. rewrite (proj2 (Z.ltb_ge 0 _)) in Hpin by lia.
    assert (l1 ++ (a, set_refs (refs x - 1) x) :: l2 ≡ₚ l1 ++ l2 ++ [(a, set_refs (refs x - 1) x)]) as Hpm
      by (rewrite (app_assoc l1 l2), <-Permutation_cons_append; by rewrite <-Permutation_middle).
    assert (areas (l1 ++ l2 ++ [(a, set_refs (refs x - 1) x)]) ≡ₚ areas (l1 ++ (a, x) :: l2)) as Hpa.
    { unfold areas. rewrite <-Hpm. by rewrite !fmap_app. }
    split_and!; [split_and!; [done..|]| |done|by eapply rep_cache_size].
    + rewrite Hm, Hd. by eapply slots_ok_perm.
    + rewrite <-Hpin. symmetry. apply pinned_perm; [|done]. eapply pin_NoDup; [|done].
      by rewrite !fmap_app, !fmap_cons in *.
  - rewrite (proj2 (Z.eqb_neq _ 1)) by lia. rewrite (proj2 (Z.ltb_lt 0 _)) in Hpin by lia.
    assert (areas (l1 ++ (a, set_refs (refs x - 1) x) :: l2) ≡ₚ areas (l1 ++ (a, x) :: l2)) as Hpa
      by (unfold areas; by rewrite !fmap_app).
    split_and!; [split_and!; [done..|by rewrite Hm, Hd]|done|done|by eapply rep_cache_size].
Qed.

(** ** Initialisation *)

(** The empty slots at [a]. *)
Fixpoint fresh_slots (n : nat) (a : Z) : list (Z * slot) :=
  match n with
  | O => []
  | S n => (a, {| num := NO_BLOCK; refs := 0; data := a + sizeof_fiu_block |})
             :: fresh_slots n (a + sizeof_fiu_block + len)
  end.

Definition slot_bytes : Z := sizeof_fiu_block + len.

Lemma fresh_slots_elem n : forall a b x,
  0 <= len -> (b, x) ∈ fresh_slots n a ->
  num x = NO_BLOCK /\ refs x = 0 /\ data x = b + sizeof_fiu_block /\
  a <= b /\ b + slot_bytes <= a + Z.of_nat n * slot_bytes.
Proof.
  unfold slot_bytes, sizeof_fiu_block. induction n as [|n IH]; intros a b x Hl Hb; simpl in Hb; [by apply not_elem_of_nil in Hb|].
  apply elem_of_cons in Hb as [[= -> ->]|Hb]; [unfold sizeof_fiu_block; simpl; lia|].
  destruct (IH _ _ _ Hl Hb) as (? & ? & ? & ? & ?). unfold sizeof_fiu_block in *. split_and!; lia.
Qed.

Lemma fresh_slots_NoDup n a : 0 <= len -> NoDup (fresh_slots n a).*1.
Proof.
  intros Hl. revert a. induction n as [|n IH]; intros a; [constructor|]. simpl. constructor; [|apply IH].
  intros ([b x] & Heq & Hb)%list_elem_of_fmap. destruct (fresh_slots_elem _ _ _ _ Hl Hb) as (_ & _ & _ & ? & _).
  simpl in Heq. unfold sizeof_fiu_block in *. lia.
Qed.

Lemma fresh_slots_apart n : forall a b x c y,
  0 <= len -> (b, x) ∈ fresh_slots n a -> (c, y) ∈ fresh_slots n a -> b <> c ->
  b + slot_bytes <= c \/ c + slot_bytes <= b.
Proof.
  induction n as [|n IH]; intros a b x c y Hl Hb Hc Hne; simpl in *; [by apply not_elem_of_nil in Hb|].
  apply elem_of_cons in Hb as [[= -> ->]|Hb], Hc as [[= -> ->]|Hc]; [done|..|by eauto].
  - left. apply (fresh_slots_elem _ _ _ _ Hl) in Hc. unfold slot_bytes, sizeof_fiu_block in *. lia.
  - right. apply (fresh_slots_elem _ _ _ _ Hl) in Hb. unfold slot_bytes, sizeof_fiu_block in *. lia.
Qed.

Lemma init_loop_ok n : forall s l a,
  dll (nodes s) 0 l a -> blocks_tail s = last_addr 0 l -> 0 <= len -> 0 < a ->
  a + Z.of_nat n * slot_bytes < 2 ^ 32 -> Forall (fun p => p.1 < a) l ->
  wp (init_loop n a len) s (fun _ s' => same_rest s s' /\ blocks_head s' = blocks_head s /\
    dll (nodes s') 0 (l ++ fresh_slots n a) (a + Z.of_nat n * slot_bytes) /\
    blocks_tail s' = last_addr 0 (l ++ fresh_slots n a)).
Proof.
  induction n as [|n IH]; intros s l a Hd Ht Hl Ha Hb Hlt; cbn [init_loop fresh_slots].
  - apply wp_ret. rewrite app_nil_r, Z.add_0_r. done.
  - rewrite !u32_small by (unfold slot_bytes, sizeof_fiu_block in *; lia).
    apply wp_bind, wp_get, wp_bind, wp_modify, wp_bind, wp_modify.
    set (x := {| num := NO_BLOCK; refs := 0; data := a + sizeof_fiu_block |}).
    set (a' := a + sizeof_fiu_block + len).
    eapply wp_mono; [apply (IH _ (l ++ [(a, x)]) a')|]; simpl.
    + apply dll_app. split; [|split; [|done]].
      * apply dll_insert; [|done]. rewrite Forall_forall in Hlt.
        intros ([b y] & -> & Hb')%list_elem_of_fmap. specialize (Hlt _ Hb'). simpl in Hlt. lia.
      * rewrite lookup_insert_eq. by rewrite Ht.
    + by rewrite last_addr_snoc.
    + done.
    + unfold a', sizeof_fiu_block. lia.
    + unfold a', slot_bytes, sizeof_fiu_block in *. lia.
    + apply Forall_app. split; [|repeat constructor; simpl; unfold a', sizeof_fiu_block; lia].
      eapply Forall_impl; [done|]. simpl. unfold a', sizeof_fiu_block. lia.
    + intros _ s' (Hr & Hh & Hd' & Ht'). rewrite <-app_assoc in Hd', Ht'. split_and!; try done.
      replace (a + Z.of_nat (S n) * slot_bytes) with (a' + Z.of_nat n * slot_bytes); [done|].
      unfold a', slot_bytes, sizeof_fiu_block. lia.
Qed.

Lemma fresh_slots_length n a : length (fresh_slots n a) = n.
Proof. revert a. induction n as [|n IH]; intros a; simpl; [done|]. by rewrite IH. Qed.

Lemma fresh_slots_ok m c n a :
  0 <= len -> 0 < a -> writable m a (Z.to_nat (Z.of_nat n * slot_bytes)) -> slots_ok m c (fresh_slots n a).
Proof.
  intros Hl Ha Hw. split.
  - intros b x Hb. destruct (fresh_slots_elem _ _ _ _ Hl Hb) as (_ & _ & -> & H1 & H2).
    unfold slot_bytes, sizeof_fiu_block in *. split; [lia|]. intros p Hp. apply Hw. lia.
  - intros b x b' y Hb Hb' Hne. pose proof (fresh_slots_apart _ _ _ _ _ _ Hl Hb Hb' Hne).
    destruct (fresh_slots_elem _ _ _ _ Hl Hb) as (_ & _ & -> & _), (fresh_slots_elem _ _ _ _ Hl Hb') as (_ & _ & -> & _).
    unfold slot_bytes, sizeof_fiu_block in *. lia.
  - intros b x Hb Hn. by destruct (fresh_slots_elem _ _ _ _ Hl Hb) as (? & _).
  - intros b x b' y Hb Hb' _ Hn. by destruct (fresh_slots_elem _ _ _ _ Hl Hb) as (? & _).
  - intros b x Hb. destruct (fresh_slots_elem _ _ _ _ Hl Hb) as (_ & -> & _). lia.
Qed.

Lemma fresh_slots_pinned n a : 0 <= len -> pinned (fresh_slots n a) = ∅.
Proof.
  intros Hl. unfold pinned. enough (omap pin (fresh_slots n a) = []) as -> by done.
  revert a. induction n as [|n IH]; intros a; [done|]. simpl. apply IH.
Qed.

Lemma cache_setup_ok s a n :
  0 <= len -> 0 < a -> (0 < n)%nat -> a + Z.of_nat n * slot_bytes < 2 ^ 32 ->
  writable (mem s) a (Z.to_nat (Z.of_nat n * slot_bytes)) ->
  wp (cache_setup a (Z.of_nat n) len) s (fun r s' => r = 0 /\ md s' = md s /\
    exists l, cache_ok s' l /\ length l = n /\ pinned l = ∅).
Proof.
  intros Hl Ha Hn Hb Hw. unfold cache_setup. apply wp_bind, wp_modify. rewrite Nat2Z.id.
  apply wp_bind. eapply wp_mono; [by apply (init_loop_ok n _ [] a)|].
  intros _ s1 ((Hsz & Hlk & Hmd) & Hh & Hd & Ht). simpl in *. apply wp_bind, wp_get.
  assert (exists l t x, fresh_slots n a = l ++ [(t, x)]) as (l & t & x & El).
  { destruct (fresh_slots n a) as [|[t x] l _] eqn:E using rev_ind; [|by eauto].
    pose proof (fresh_slots_length n a) as Hlen. rewrite E in Hlen. simpl in Hlen. lia. }
  pose proof (fresh_slots_NoDup n a Hl) as Hnd. pose proof (fresh_slots_length n a) as Hlen.
  assert (forall b y, (b, y) ∈ fresh_slots n a -> 0 < b) as Hpos.
  { intros b y Hin. destruct (fresh_slots_elem _ _ _ _ Hl Hin) as (_ & _ & _ & ? & _). lia. }
  pose proof (fresh_slots_ok (mem s1) (content (dev s1)) n a Hl Ha) as Hs. rewrite El in *.
  pose proof Hd as [_ [Htn _]]%dll_app. rewrite Ht, last_addr_snoc.
  apply wp_bind. eapply wp_update_node; [exact Htn|]. apply wp_ret. simpl. split_and!; [done|done|].
  exists (l ++ [(t, x)]). split_and!; [split_and!; simpl; [done| |]|done|].
  - split; simpl; try done.
    + rewrite Hh. destruct n; [lia|]. simpl in El. by destruct l as [|[]]; simplify_eq/=.
    + by apply (dll_set_next _ _ _ _ _ _ 0 Hnd Hd).
    + intros ([b y] & Heq & Hin)%list_elem_of_fmap. specialize (Hpos _ _ Hin). simpl in Heq. lia.
    + by rewrite Hsz, Hlen.
  - apply Hs. injection Hmd as -> _. done.
  - rewrite <-El. by apply fresh_slots_pinned.
Qed.

(** ** Theorems *)

(** C19: Requests and releases work on the list of slots as a cache that replaces the
    block released first: a request finds the slot of the block and counts it, or
    takes the first slot that is not in use; a release that gives up the last
    reference moves the slot to the end of the list.  The links between the nodes
    are those of the list again. *)
Theorem fiu_cache_refines n s l :
  0 <= n < 2 ^ 32 -> cache_lock s = false -> cache_rep s l ->
  (forall a x, (a, x) ∈ l -> writable (mem s) (data x) (Z.to_nat len)) ->
  wp (fiu_cache_request n) s (fun r s' => cache_lock s' = false /\ requested n s l r s') /\
  wp (fiu_cache_release n) s (fun _ s' =>
    cache_lock s' = false /\ md s' = md s /\ cache_rep s' (released n l)).
Proof. intros Hn Hlk Hr Hw. split; [by apply request_rep|by apply release_rep]. Qed.

(** A request for a block that the device can read returns memory that holds
    the contents of the block, and pins it: as long as it is pinned, no request for
    another block changes this memory.  It fails only when every slot is in use by
    another block, and then changes nothing. *)
Theorem fiu_cache_request_pins n s l :
  cache_ok s l -> 0 <= n < NO_BLOCK -> readable (dev s) n -> pin_count l n < 2 ^ 31 - 1 ->
  wp (fiu_cache_request n) s (fun r s' =>
    same (dev s) (dev s') /\
    ((r = 0 /\ s' = s /\ pinned l !! n = None /\ Z.of_nat (size (pinned l)) = cache_size s) \/
     (r <> 0 /\ bytes_at (mem s') r (content (dev s) n) /\
      exists l', cache_ok s' l' /\ pinned l' = <[n := (r, pin_count l n + 1)]> (pinned l) /\
        forall b d c, pinned l !! b = Some (d, c) ->
          bytes_at (mem s') d (content (dev s) b) /\ (b = n -> d = r)))).
Proof.
  intros Hok Hn Hr Hc. eapply wp_mono; [by apply request_ok|].
  intros r s' (Hsame & [?|(Hr0 & l' & Hok' & Hp & _ & _ & _ & Hd)]); (split; [done|]); [by left|right].
  destruct (same_content _ _ Hsame) as [Hcd _].
  split_and!; [done|..].
  - rewrite <-Hcd. apply (pinned_data s' l' n r (pin_count l n + 1) Hok'). rewrite Hp. apply lookup_insert_eq.
  - exists l'. split_and!; [done..|]. intros b d c Hb. destruct (decide (b = n)) as [->|Hne].
    + rewrite (Hd d c Hb). split; [|done]. rewrite <-Hcd.
      apply (pinned_data s' l' n r (pin_count l n + 1) Hok'). rewrite Hp. apply lookup_insert_eq.
    + split; [|done]. rewrite <-Hcd. apply (pinned_data s' l' b d c Hok'). by rewrite Hp, lookup_insert_ne.
Qed.

(** A release of a block in use undoes one request: the count goes down, the
    block is no longer pinned after the last one, and every other block stays
    pinned where it is. *)
Theorem fiu_cache_release_unpins n s l d c :
  cache_ok s l -> pinned l !! n = Some (d, c) -> c < 2 ^ 31 ->
  wp (fiu_cache_release n) s (fun _ s' => md s' = md s /\ exists l', cache_ok s' l' /\
    pinned l' = if c =? 1 then delete n (pinned l) else <[n := (d, c - 1)]> (pinned l)).
Proof.
  intros Hok Hp Hc. eapply wp_mono; [by apply release_ok|]. intros _ s' (? & l' & ? & ? & _). eauto.
Qed.
End rep.

(** ** A device with ten blocks of two bytes

    A read behind its end is short: it leaves a byte in the buffer and fails. *)

Definition toy_content (_ : unit) (n : Z) : list Z := [n mod 100; 7].

Definition toy_fetch (buffer n : Z) : M (bmem * unit) Z := fun s =>
  if n <? 10 then Done (0, (store_bytes buffer (toy_content tt n) s.1, tt))
  else Done (-1, (store_bytes buffer [99] s.1, tt)).

Lemma toy_content_char d n : Forall is_char (toy_content d n).
Proof. unfold toy_content. pose proof (Z.mod_pos_bound n 100). repeat constructor; lia. Qed.

Lemma toy_fetch_spec m d buffer n : 0 <= n < 2 ^ 32 -> writable m buffer (Z.to_nat 2) ->
  wp (toy_fetch buffer n) (m, d) (fun r s' =>
    True /\
    ((0 <= r /\ s'.1 = store_bytes buffer (toy_content d n) m) \/
     (r < 0 /\ ~ n < 10 /\ exists l, Z.of_nat (length l) <= 2 /\ s'.1 = store_bytes buffer l m))).
Proof.
  intros _ _. unfold wp, toy_fetch. destruct d. destruct (Z.ltb_spec n 10); simpl; split_and!; try done.
  - by left.
  - right. split_and!; [done|lia|]. by exists [99].
Qed.

#[export] Instance toy_fetch_op : FetchOp unit := toy_fetch.
#[export] Instance toy_device : Fetch unit 2 := {
  content := toy_content;
  readable _ n := n < 10;
  same _ _ := True;
  same_refl _ := I;
  same_content _ _ _ := conj eq_refl eq_refl;
  content_length _ _ := eq_refl;
  content_char := toy_content_char;
  fetch_spec := toy_fetch_spec;
}.

Definition toy_cache : cache unit := {|
  cache_size := 0; block_size := 0; blocks_head := 0; blocks_tail := 0; cache_lock := false; nodes := ∅;
  mem := list_to_map ((fun a => (a, 0)) <$> seqZ 100 44); dev := tt |}.

(** Two slots. *)
Lemma toy_setup :
  wp (cache_setup 100 2 2) toy_cache (fun r s' => r = 0 /\ md s' = md toy_cache /\
    exists l, cache_ok s' l /\ length l = 2%nat /\ pinned l = ∅).
Proof.
  apply (cache_setup_ok toy_cache 100 2); [lia|lia|lia|done|].
  intros x Hx. change (Z.of_nat (Z.to_nat (Z.of_nat 2 * slot_bytes))) with 44 in Hx. cbn [mem toy_cache].
  exists 0. apply elem_of_list_to_map_1.
  - apply (bool_decide_unpack _). by vm_compute.
  - apply list_elem_of_fmap. exists x. split; [done|]. apply elem_of_seqZ. lia.
Qed.

Lemma fiu_cache_refines_witness :
  wp (let! _ := cache_setup 100 2 2 in fiu_cache_request 3) toy_cache (fun r s' => r = 120 /\ cache_lock s' = false).
Proof.
  assert (wp (let! _ := cache_setup 100 2 2 in fiu_cache_request 3) toy_cache (fun r _ => r = 120)) as Hr
    by (unfold wp; by vm_compute).
  pose proof toy_setup as Hs. unfold wp, bind in *. destruct (cache_setup 100 2 2 toy_cache) as [[r s]| | |]; try done.
  destruct Hs as (_ & _ & l & (Hlk & Hrep & Hok) & _).
  destruct (fiu_cache_refines 3 s l ltac:(lia) Hlk Hrep) as [Hreq _]; [intros a x Hx; by apply (so_write _ _ _ Hok a x)|].
  unfold wp in Hreq. destruct (fiu_cache_request 3 s) as [[p s']| | |]; try done. split; [done|apply Hreq].
Defined.

Lemma fiu_cache_request_pins_witness :
  wp (let! _ := cache_setup 100 2 2 in fiu_cache_request 3) toy_cache (fun r s' =>
    r <> 0 /\ bytes_at (mem s') r [3; 7]).
Proof.
  apply wp_bind. eapply wp_mono; [apply toy_setup|]. intros _ s (_ & Hm & l & Hok & Hlen & Hp).
  eapply wp_mono; [apply (fiu_cache_request_pins 3 s l Hok); [done|done|unfold pin_count; by rewrite Hp]|].
  intros r s' (_ & [(_ & _ & _ & Hsz)|(Hr & Hb & _)]); [|done].
  destruct Hok as (_ & Hrep & _). rewrite (cr_size _ _ Hrep), Hp, Hlen in Hsz. done.
Defined.

Lemma fiu_cache_release_unpins_witness :
  wp (let! _ := cache_setup 100 2 2 in let! _ := fiu_cache_request 3 in fiu_cache_release 3) toy_cache
    (fun _ s' => exists l, cache_ok s' l /\ pinned l !! 3 = None).
Proof.
  apply wp_bind. eapply wp_mono; [apply toy_setup|]. intros _ s (_ & Hm & l & Hok & Hlen & Hp). apply wp_bind.
  eapply wp_mono; [apply (request_ok 3 s l Hok); [done|done|unfold pin_count; by rewrite Hp]|].
  intros r s1 (_ & [(_ & _ & _ & Hsz)|(Hr & l1 & Hok1 & Hp1 & _ & _)]).
  { destruct Hok as (_ & Hrep & _). rewrite (cr_size _ _ Hrep), Hp, Hlen in Hsz. done. }
  replace (pin_count l 3) with 0 in Hp1 by (unfold pin_count; by rewrite Hp).
  eapply wp_mono; [apply (fiu_cache_release_unpins 3 s1 l1 r 1 Hok1); [rewrite Hp1; apply lookup_insert_eq|lia]|].
  intros _ s2 (_ & l2 & Hok2 & Hp2). exists l2. split; [done|]. simpl in Hp2. rewrite Hp2. apply lookup_delete_eq.
Defined.

(** A failed fetch leaves the old block number on a slot whose data it has
    overwritten: the next request for the old block is served from the cache with
    wrong data. *)
Theorem fiu_cache_poisoned :
  wp (let! _ := cache_setup 100 1 2 in
      let! _ := fiu_cache_request 3 in
      fiu_cache_release 3 ;;;
      let! failed := fiu_cache_request 50 in
      let! p := fiu_cache_request 3 in
      ret (failed, p)) toy_cache (fun r s' =>
    r = (0, 120) /\ bytes_at (mem s') 120 [99; 7] /\ content (dev s') 3 = [3; 7]).
Proof. unfold wp. by vm_compute. Qed.
End BlockCache.
