(* ===== verification/Ext2.v ===== *)
(** The ext2 driver: userland/driver/ext2/src.

    The driver reads the disk with [lseek] and [read] on the descriptor of the
    device ([UDevice]), keeps inodes in a table of its own and blocks in the cache
    of BlockCache.v.  Structures of the disk are kept as the bytes that were read;
    a field is a function of the bytes.  The memory of the process, with the
    blocks of the cache, is the one of the cache.  A pointer to an inode is the
    index of its slot in the table of inodes. *)

From S2P Require Import Prelude KString Malloc BlockCache.

(** ** The device

    [disk d] is what the device holds and [pos d] the offset of the descriptor.
    [lseek] returns 0 when it succeeds, as vfs_lseek does (File.v, [vfs_lseek_moves]).
    [dread n] gives the result of [read] with
    the bytes that were stored in the buffer; a read at the end is short. *)

Definition SEEK_SET : Z := 0.
Definition SEEK_CUR : Z := 1.

Class UDevice (D : Type) := {
  lseek : Z -> Z -> M D Z;
  dread : Z -> M D (Z * list Z);
  disk : D -> list Z;
  pos : D -> Z;
  disk_char : forall d, Forall is_char (disk d);
  disk_size : forall d, Z.of_nat (length (disk d)) < 2 ^ 63;
  lseek_spec : forall d off, 0 <= off < 2 ^ 63 ->
    wp (lseek off SEEK_SET) d (fun r d' => r = 0 /\ disk d' = disk d /\ pos d' = off);
  dread_spec : forall d n, 0 <= n < 2 ^ 31 -> 0 <= pos d ->
    wp (dread n) d (fun r d' => disk d' = disk d /\
      r.2 = take (Z.to_nat n) (drop (Z.to_nat (pos d)) (disk d)) /\ r.1 = Z.of_nat (length r.2) /\
      pos d' = pos d + r.1);
}.

(** ** Fields of structures *)

Definition byte_at (l : list Z) (i : Z) : Z := u8 (default 0 (l !! Z.to_nat i)).
Definition le16 (l : list Z) (i : Z) : Z := byte_at l i + 256 * byte_at l (i + 1).
Definition le32 (l : list Z) (i : Z) : Z := le16 l i + 65536 * le16 l (i + 2).

(** Store a little endian number, as the bytes of [char]s. *)
Definition le_bytes (n : nat) (v : Z) : list Z :=
  (fun i => s8 (v / 256 ^ Z.of_nat i)) <$> seq 0 n.
Definition patch (i : Z) (b l : list Z) : list Z :=
  take (Z.to_nat i) l ++ b ++ drop (Z.to_nat i + length b) l.

Module Ext2.
Import BlockCache.

(** struct ext2_inode *)
Definition sizeof_inode_struct : Z := 128.
Definition type_perm (c : list Z) : Z := le16 c 0.
Definition inode_uid (c : list Z) : Z := le16 c 2.
Definition lower_size (c : list Z) : Z := le32 c 4.
Definition last_access (c : list Z) : Z := le32 c 8.
Definition last_modification (c : list Z) : Z := le32 c 16.
Definition inode_gid (c : list Z) : Z := le16 c 24.
Definition hardlinks_count (c : list Z) : Z := le16 c 26.
Definition disk_sector_size (c : list Z) : Z := le32 c 28.
Definition dbp (c : list Z) (i : Z) : Z := le32 c (40 + 4 * i).
Definition singly_ibp (c : list Z) : Z := le32 c 88.
Definition directory_acl (c : list Z) : Z := le32 c 108.

(** struct ext2_superblock *)
Definition sizeof_superblock : Z := 1024.
Definition total_inodes (b : list Z) : Z := le32 b 0.
Definition total_blocks (b : list Z) : Z := le32 b 4.
Definition sb_block_size (b : list Z) : Z := le32 b 24.
Definition block_per_group (b : list Z) : Z := le32 b 32.
Definition inode_per_group (b : list Z) : Z := le32 b 40.
Definition magic (b : list Z) : Z := le16 b 56.
Definition minor (b : list Z) : Z := le16 b 62.
Definition major (b : list Z) : Z := le32 b 76.
Definition sizeof_inode (b : list Z) : Z := le16 b 88.

(** struct ext2_group_descriptor *)
Definition sizeof_group : Z := 32.
Definition inode_table (t : list Z) (group : Z) : Z := le32 t (group * sizeof_group + 8).

(** struct ext2_dirent *)
Definition sizeof_dirent : Z := 8.

Definition EXT2_TYPE_DIRECTORY : Z := 16384.
Definition EXT2_TYPE_MOUNT_PT : Z := 61440.
Definition EXT2_SB_MAGIC : Z := 61267.
Definition EXT2_INODE_CACHE_SIZE : nat := 32.
Definition EXT2_BAD_INODE : Z := 0.
Definition LOOKUP_RES_OK : Z := 0.
Definition LOOKUP_RES_ENTER_MOUNT : Z := 1.
Definition LOOKUP_RES_KO : Z := 2.
Definition DIR_OK : Z := 1.
Definition DIR_END : Z := 0.

Record ext2_cinode := { ci_inode : Z; ci_refs : Z; ci_raw : list Z }.

Section ops.
Context {D U : Type} `{UDevice D} `{UHeap U}.

Record ext2fs := {
  fcache : cache D;
  block_size : Z;
  inode_cache : list ext2_cinode;
  sb : list Z;
  grp_table : list Z;
  uheap : U;
}.

Definition set_fcache (c : cache D) (s : ext2fs) : ext2fs :=
  {| fcache := c; block_size := block_size s; inode_cache := inode_cache s; sb := sb s;
     grp_table := grp_table s; uheap := uheap s |}.
Definition set_block_size (v : Z) (s : ext2fs) : ext2fs :=
  {| fcache := fcache s; block_size := v; inode_cache := inode_cache s; sb := sb s;
     grp_table := grp_table s; uheap := uheap s |}.
Definition set_inode_cache (l : list ext2_cinode) (s : ext2fs) : ext2fs :=
  {| fcache := fcache s; block_size := block_size s; inode_cache := l; sb := sb s;
     grp_table := grp_table s; uheap := uheap s |}.
Definition set_sb (b : list Z) (s : ext2fs) : ext2fs :=
  {| fcache := fcache s; block_size := block_size s; inode_cache := inode_cache s; sb := b;
     grp_table := grp_table s; uheap := uheap s |}.
Definition set_grp_table (t : list Z) (s : ext2fs) : ext2fs :=
  {| fcache := fcache s; block_size := block_size s; inode_cache := inode_cache s; sb := sb s;
     grp_table := t; uheap := uheap s |}.
Definition set_uheap (u : U) (s : ext2fs) : ext2fs :=
  {| fcache := fcache s; block_size := block_size s; inode_cache := inode_cache s; sb := sb s;
     grp_table := grp_table s; uheap := u |}.

(** Code on the device, on the memory, on the heap and on the cache of blocks. *)
Definition fdev (s : ext2fs) : D := dev (fcache s).
Definition set_fdev (d : D) (s : ext2fs) : ext2fs := set_fcache (set_md (mem (fcache s), d) (fcache s)) s.
Definition fmem (s : ext2fs) : bmem := mem (fcache s).
Definition set_fmem (m : bmem) (s : ext2fs) : ext2fs := set_fcache (set_md (m, dev (fcache s)) (fcache s)) s.
Definition device {A} (m : M D A) : M ext2fs A := zoom fdev set_fdev m.
Definition memory {A} (m : M bmem A) : M ext2fs A := zoom fmem set_fmem m.
Definition heap {A} (m : M U A) : M ext2fs A := zoom uheap set_uheap m.
Definition blocks {A} (m : M (cache D) A) : M ext2fs A := zoom fcache set_fcache m.

(** Numbers in memory. *)
Definition load8 (a : Z) : M bmem Z := let! c := load a in ret (u8 c).
Definition load16 (a : Z) : M bmem Z :=
  let! x := load8 a in let! y := load8 (a + 1) in ret (x + 256 * y).
Definition load32 (a : Z) : M bmem Z :=
  let! x := load16 a in let! y := load16 (a + 2) in ret (x + 65536 * y).

(** ** Blocks: block.c *)

Definition ext2_block_fetch (bs buffer num : Z) : M (bmem * D) Z :=
  let dev {A} (m : M D A) : M (bmem * D) A := zoom snd (fun d s => (s.1, d)) m in
  let! r := dev (lseek (num * bs) SEEK_SET) in
  if r <? 0 then ret r
  else
    let! '(r, b) := dev (dread bs) in
    if r <? 0 then ret r
    else
      modify (fun s => (store_bytes buffer b s.1, s.2)) ;;;
      if negb (u32 r =? bs) then ret (-1) else ret 0.

Definition ext2_block_flush (buffer num : Z) : M (bmem * D) Z := ret 0.

(** The callback of the cache. *)
Definition ext2_fetch_op (bs : Z) : FetchOp D := ext2_block_fetch bs.

Definition fiu_request (num : Z) : M ext2fs Z :=
  let! s := get in
  let _ := ext2_fetch_op (block_size s) in
  blocks (fiu_cache_request num).
Definition fiu_release (num : Z) : M ext2fs unit := blocks (fiu_cache_release num).

(** ** Inodes: inode_cache.c and inode.c *)

(** The first slot that satisfies a test. *)
Fixpoint first_slot (p : ext2_cinode -> bool) (i : nat) (l : list ext2_cinode) : option nat :=
  match l with
  | [] => None
  | c :: l => if p c then Some i else first_slot p (S i) l
  end.

Definition cinode (i : nat) : M ext2fs ext2_cinode :=
  let! s := get in match inode_cache s !! i with Some c => ret c | None => undef end.
Definition set_cinode (i : nat) (c : ext2_cinode) : M ext2fs unit :=
  modify (fun s => set_inode_cache (<[i := c]> (inode_cache s)) s).
(** The bytes of the inode at a pointer. *)
Definition raw (i : nat) : M ext2fs (list Z) := let! c := cinode i in ret (ci_raw c).

Definition ext2_icache_request (inode : Z) : M ext2fs (option nat) :=
  let! s := get in
  match first_slot (fun c => ci_inode c =? inode) 0 (inode_cache s) with
  | Some i =>
      let! c := cinode i in
      set_cinode i {| ci_inode := ci_inode c; ci_refs := s32 (ci_refs c + 1); ci_raw := ci_raw c |} ;;;
      ret (Some i)
  | None =>
      match first_slot (fun c => (ci_inode c =? EXT2_BAD_INODE) || (ci_refs c =? 0)) 0 (inode_cache s) with
      | None => ret None
      | Some i =>
          if inode_per_group (sb s) =? 0 then undef
          else
            let index := u32 (inode - 1) mod inode_per_group (sb s) in
            let group := u32 (inode - 1) / inode_per_group (sb s) in
            if group * sizeof_group + sizeof_group >? Z.of_nat (length (grp_table s)) then undef
            else
              let off := u64 (inode_table (grp_table s) group * block_size s + index * sizeof_inode (sb s)) in
              let! r := device (lseek off SEEK_SET) in
              if r <? 0 then ret None
              else
                let! '(r, b) := device (dread sizeof_inode_struct) in
                if r <? 0 then ret None
                else
                  let! c := cinode i in
                  set_cinode i {| ci_inode := inode; ci_refs := 1; ci_raw := patch 0 b (ci_raw c) |} ;;;
                  ret (Some i)
      end
  end.

Definition ext2_icache_release (inode : Z) : M ext2fs unit :=
  let! s := get in
  match first_slot (fun c => ci_inode c =? inode) 0 (inode_cache s) with
  | Some i =>
      let! c := cinode i in
      set_cinode i {| ci_inode := ci_inode c; ci_refs := s32 (ci_refs c - 1); ci_raw := ci_raw c |}
  | None => ret tt
  end.

(** [junk] is what the allocated memory holds. *)
Definition ext2_icache_initialize (junk : list Z) : M ext2fs Z :=
  let! p := heap (malloc (136 * Z.of_nat EXT2_INODE_CACHE_SIZE)) in
  if p =? 0 then ret (-1)
  else
    modify (set_inode_cache (replicate EXT2_INODE_CACHE_SIZE
      {| ci_inode := EXT2_BAD_INODE; ci_refs := 0; ci_raw := junk |})) ;;;
    let! i := ext2_icache_request 2 in
    match i with None => ret (-1) | Some _ => ret 0 end.

(** [(ext2->sb.minor > 0 || ext2->sb.major > 0) && !(type_perm & EXT2_TYPE_DIRECTORY)] *)
Definition large_size (b c : list Z) : bool :=
  ((minor b >? 0) || (major b >? 0)) && (Z.land (type_perm c) EXT2_TYPE_DIRECTORY =? 0).

(** The size of a file, as [inode_block_data] and [ext2fs_read] compute it. *)
Definition inode_size (b c : list Z) : Z :=
  if large_size b c then Z.lor (lower_size c) (Z.shiftl (directory_acl c) 32) else lower_size c.

(** [None] is -1. *)
Definition inode_block_data (i : nat) (offset : Z) : M ext2fs (option Z) :=
  let! s := get in
  let bs := block_size s in
  let! c := raw i in
  if offset >? inode_size (sb s) c then ret None
  else if offset <? u32 (12 * bs) then ret (Some (dbp c (offset / bs)))
  else
    let offset := u64 (offset - u32 (12 * bs)) in
    if offset <? u32 (bs / 4 * bs) then
      let! blk := fiu_request (singly_ibp c) in
      if blk =? 0 then ret None
      else
        let! b := memory (load32 (blk + 4 * (offset / bs))) in
        fiu_release (singly_ibp c) ;;;
        ret (Some b)
    else ret None.

(** ** Files: file.c *)

(** The result is the [ret] of the response and its inode. *)
Definition ext2fs_open (inode : Z) : M ext2fs (Z * Z) :=
  let! i := ext2_icache_request inode in
  match i with
  | None => ret (-1, 0)
  | Some _ => ext2_icache_release inode ;;; ret (0, inode)
  end.

Definition MIN3 (a b c : Z) : Z := if a <? b then (if a <? c then a else c) else (if b <? c then b else c).

(** The loop of [ext2fs_read], at offset [off] of the file and [data] of the buffer,
    with [size] bytes read.  The result is [ret] and [*size]. *)
Fixpoint read_loop (fuel : nat) (inode : Z) (i : nat) (req_size file_size off data size : Z) : M ext2fs (Z * Z) :=
  if (size <? req_size) && (off <? file_size) then
    match fuel with
    | O => undef
    | S fuel =>
        let! b := inode_block_data i off in
        match b with
        | None => ext2_icache_release inode ;;; ret (-1, size)
        | Some data_block =>
            let! block := fiu_request data_block in
            if block =? 0 then ext2_icache_release inode ;;; ret (-1, size)
            else
              let! s := get in
              let read_size := s32 (MIN3 req_size (u64 (block_size s - off mod block_size s)) (u64 (file_size - off))) in
              let! _ := memory (LibcString.memcpy data block (u32 read_size)) in
              fiu_release data_block ;;;
              read_loop fuel inode i req_size file_size (u64 (off + read_size)) (u32 (data + read_size))
                (u32 (size + read_size))
        end
    end
  else ext2_icache_release inode ;;; ret (0, size).

Definition ext2fs_read (inode req_size off data : Z) : M ext2fs (Z * Z) :=
  let! i := ext2_icache_request inode in
  match i with
  | None => ret (-1, 0)
  | Some i =>
      let! s := get in
      let! c := raw i in
      read_loop (Z.to_nat req_size) inode i req_size (inode_size (sb s) c) off data 0
  end.

(** The loop of [ext2fs_getdirent] at the entry number [n]; [block] is the memory of
    the current block [data_block].  The result is an error, or the entry with the
    block it is in; [None] stands for a block that was given back. *)
Fixpoint getdirent_loop (fuel : nat) (i : nat) (index n dir_offset block_offset block data_block : Z)
    : M ext2fs (Z * option (Z * Z)) :=
  match fuel with
  | O => undef
  | S fuel =>
      let ext2_dir := block + block_offset in
      if n =? index then ret (DIR_OK, Some (data_block, ext2_dir))
      else
        let! sz := memory (load16 (ext2_dir + 4)) in
        let dir_offset := u32 (dir_offset + sz) in
        let block_offset := u32 (block_offset + sz) in
        let! c := raw i in
        if dir_offset >=? lower_size c then ret (DIR_END, Some (data_block, 0))
        else
          let! s := get in
          if block_offset >=? block_size s then
            fiu_release data_block ;;;
            let! b := inode_block_data i dir_offset in
            match b with
            | None => ret (-1, None)
            | Some data_block =>
                let! block := fiu_request data_block in
                if block =? 0 then ret (-1, None)
                else getdirent_loop fuel i index (n + 1) dir_offset (dir_offset mod block_size s) block data_block
            end
          else getdirent_loop fuel i index (n + 1) dir_offset block_offset block data_block
  end.

(** The result is [ret], [d_ino] and the characters of [d_name]. *)
Definition ext2fs_getdirent (fuel : nat) (inode index : Z) : M ext2fs (Z * Z * list Z) :=
  if index <? 0 then ret (-1, 0, [])
  else
    let! i := ext2_icache_request inode in
    match i with
    | None => ret (-1, 0, [])
    | Some i =>
        let! b := inode_block_data i 0 in
        match b with
        | None => ext2_icache_release inode ;;; ret (-1, 0, [])
        | Some data_block =>
            let! block := fiu_request data_block in
            if block =? 0 then ext2_icache_release inode ;;; ret (-1, 0, [])
            else
              let! '(r, e) := getdirent_loop fuel i index 0 0 0 block data_block in
              let! res :=
                match e with
                | Some (data_block, ext2_dir) =>
                    let! res :=
                      (if r =? DIR_OK then
                         let! ino := memory (load32 ext2_dir) in
                         let! n := memory (load8 (ext2_dir + 6)) in
                         let! m := memory get in
                         match mapM (fun k => m !! (ext2_dir + sizeof_dirent + Z.of_nat k)) (seq 0 (Z.to_nat n)) with
                         | Some name => ret (r, ino, name)
                         | None => undef
                         end
                       else ret (r, 0, [])) in
                    fiu_release data_block ;;;
                    ret res
                | None => ret (r, 0, [])
                end in
              ext2_icache_release inode ;;;
              ret res
        end
    end.

Definition ext2fs_close : M ext2fs Z := ret 0.

(** ** The file system: fs.c *)

(** [a / b + (a % b ? 1 : 0)] *)
Definition div_up (a b : Z) : Z := a / b + (if a mod b =? 0 then 0 else 1).

Definition ext2fs_load_group_table : M ext2fs Z :=
  let! s := get in
  if (block_per_group (sb s) =? 0) || (inode_per_group (sb s) =? 0) then undef
  else
    let group_nb := div_up (total_blocks (sb s)) (block_per_group (sb s)) in
    let inode_nb := div_up (total_inodes (sb s)) (inode_per_group (sb s)) in
    let gt_size := if group_nb >? inode_nb then group_nb else inode_nb in
    let n := u32 (sizeof_group * gt_size) in
    let! p := heap (malloc n) in
    if p =? 0 then ret (-1)
    else
      let offset := if block_size s =? 1024 then 2048 else block_size s in
      let! r := device (lseek offset SEEK_SET) in
      if r <? 0 then ret r
      else
        let! '(r, b) := device (dread n) in
        if r <? 0 then ret r
        else
          modify (set_grp_table b) ;;;
          ret (if negb (u32 r =? n) then -1 else 0).

(** The loop that reads the superblock; [n] bytes were read. *)
Fixpoint read_superblock (fuel : nat) (n : Z) : M ext2fs Z :=
  if n =? sizeof_superblock then ret 0
  else match fuel with
  | O => undef
  | S fuel =>
      let! '(r, b) := device (dread (u32 (sizeof_superblock - n))) in
      if r <? 0 then ret r
      else
        modify (fun s => set_sb (patch n b (sb s)) s) ;;;
        read_superblock fuel (n + r)
  end.

Definition ext2fs_initialize (fuel : nat) (junk : list Z) : M ext2fs Z :=
  let! r := device (lseek 1024 SEEK_CUR) in
  if r <? 0 then ret r
  else
    let! r := read_superblock fuel 0 in
    if r <? 0 then ret r
    else
      let! s := get in
      if negb (magic (sb s) =? EXT2_SB_MAGIC) then ret (-1)
      else
        (if sb_block_size (sb s) >? 20 then undef
         else modify (set_block_size (Z.shiftl 1024 (sb_block_size (sb s))))) ;;;
        let! r := ext2fs_load_group_table in
        if r <? 0 then ret r
        else
          let! r := ext2_icache_initialize junk in
          if r <? 0 then ret r
          else
            let! s := get in
            zoom (fun s => (uheap s, fcache s)) (fun p s => set_uheap p.1 (set_fcache p.2 s))
              (fiu_cache_initialize 64 (block_size s)).

(** The loop of [inode_find_in_dir]: [block] is the memory of block [block_num] and
    [name] points to the name.  The results -1 of the code are 2^32 - 1. *)
Fixpoint find_loop (fuel : nat) (i : nat) (name block block_num offset offset_block : Z) : M ext2fs Z :=
  let! c := raw i in
  if offset <? lower_size c then
    match fuel with
    | O => undef
    | S fuel =>
        let dirent := block + offset_block in
        let dirent_name := dirent + sizeof_dirent in
        let! sz := memory (load16 (dirent + 4)) in
        let! s := get in
        if u32 (sz + offset_block) >? block_size s then ret 4294967295
        else
          let! n := memory (load8 (dirent + 6)) in
          let! cmp := memory (LibcString.strncmp dirent_name name n) in
          let! m := memory get in
          let! len := (if cmp =? 0 then memory (LibcString.strlen (S (size m)) name) else ret 0) in
          if (cmp =? 0) && (len =? n) then
            let! res := memory (load32 dirent) in
            fiu_release block_num ;;;
            ret res
          else
            let offset_block := u32 (offset_block + sz) in
            let offset := u32 (offset + sz) in
            if offset_block >=? block_size s then
              fiu_release block_num ;;;
              let! b := inode_block_data i offset in
              match b with
              | None => ret 4294967295
              | Some block_num =>
                  let! block := fiu_request block_num in
                  if block =? 0 then ret 0
                  else find_loop fuel i name block block_num offset (offset mod block_size s)
              end
            else find_loop fuel i name block block_num offset offset_block
    end
  else fiu_release block_num ;;; ret 0.

Definition inode_find_in_dir (fuel : nat) (i : nat) (name : Z) : M ext2fs Z :=
  let! b := inode_block_data i 0 in
  match b with
  | None => ret 4294967295
  | Some block_num =>
      let! block := fiu_request block_num in
      if block =? 0 then ret 4294967295
      else find_loop fuel i name block block_num 0 0
  end.

(** The fields of a response to a lookup that are set. *)
Record resp_lookup := { r_ret : Z; r_processed : Z; r_dev : Z; r_inode : Z }.

Definition is_directory (c : list Z) : bool := Z.land (type_perm c) EXT2_TYPE_DIRECTORY =? EXT2_TYPE_DIRECTORY.
Definition is_mount_pt (c : list Z) : bool := Z.land (type_perm c) EXT2_TYPE_MOUNT_PT =? EXT2_TYPE_MOUNT_PT.

(** [while ( *req->path == '/')] *)
Fixpoint skip_slashes (fuel : nat) (path processed : Z) : M ext2fs (Z * Z) :=
  match fuel with
  | O => undef
  | S fuel =>
      let! c := memory (load path) in
      if c =? 47 then skip_slashes fuel (path + 1) (processed + 1) else ret (path, processed)
  end.

(** [if (path_complete[resp->processed - 1] == '/') --resp->processed] *)
Definition step_back (path_complete processed : Z) : M ext2fs Z :=
  let! c := memory (load (path_complete + processed - 1)) in
  ret (if c =? 47 then processed - 1 else processed).

(** The loop of [ext2fs_lookup]: [i] points to inode [inode_nb], [part] to the current
    component.  The result is [resp->ret], [resp->processed], [resp->inode.dev] and
    [inode_nb]. *)
Fixpoint lookup_loop (fuel : nat) (i : nat) (inode_nb part path_left path_complete delim processed : Z)
    : M ext2fs resp_lookup :=
  match fuel with
  | O => undef
  | S fuel =>
      let ko n := ret {| r_ret := -1; r_processed := processed; r_dev := -1; r_inode := n |} in
      let! c := raw i in
      if negb (is_directory c) then ext2_icache_release inode_nb ;;; ko inode_nb
      else if is_mount_pt c then
        ext2_icache_release inode_nb ;;;
        let! p := step_back path_complete processed in
        ret {| r_ret := LOOKUP_RES_ENTER_MOUNT; r_processed := p; r_dev := s32 (lower_size c); r_inode := inode_nb |}
      else
        let! tmp := inode_find_in_dir fuel i part in
        ext2_icache_release inode_nb ;;;
        if tmp =? 0 then ko inode_nb
        else
          let! i := ext2_icache_request tmp in
          match i with
          | None => ko tmp
          | Some i =>
              let processed := s32 (processed + (path_left - part)) in
              let! m := memory get in
              let! '(part, path_left) := memory (LibcString.strtok_r (S (S (size m))) 0 delim path_left) in
              if part =? 0 then
                let! c := raw i in
                let! res :=
                  (if is_mount_pt c then
                     let! p := step_back path_complete processed in
                     ret {| r_ret := LOOKUP_RES_ENTER_MOUNT; r_processed := p; r_dev := s32 (lower_size c); r_inode := tmp |}
                   else ret {| r_ret := -1; r_processed := processed; r_dev := -1; r_inode := tmp |}) in
                ext2_icache_release tmp ;;;
                ret res
              else lookup_loop fuel i tmp part path_left path_complete delim processed
          end
  end.

(** [ext2fs_lookup] of the [path_size] characters at [path]; [delim] points to the
    literal [/].  The result is the code that is returned with the response. *)
Definition ext2fs_lookup (fuel : nat) (path path_size delim : Z) : M ext2fs (Z * resp_lookup) :=
  let ko := {| r_ret := -1; r_processed := 0; r_dev := -1; r_inode := 0 |} in
  let! i := ext2_icache_request 2 in
  match i with
  | None => ret (LOOKUP_RES_KO, ko)
  | Some i =>
      let! n := memory (LibcString.strlen fuel path) in
      let! path_complete := heap (malloc (u32 (n + 1))) in
      if path_complete =? 0 then ret (LOOKUP_RES_KO, ko)
      else
        let! _ := memory (LibcString.strcpy fuel path_complete path) in
        let! '(path, processed) := skip_slashes fuel path 0 in
        let! m := memory get in
        let! '(part, path_left) := memory (LibcString.strtok_r (S (S (size m))) path delim 0) in
        let! res := lookup_loop fuel i 2 part path_left path_complete delim processed in
        heap (free path_complete) ;;;
        ret (if r_ret res =? -1 then
               (if r_processed res =? path_size then LOOKUP_RES_OK else LOOKUP_RES_KO, res)
             else (r_ret res, res))
  end.

(** st_mode, st_nlink, st_uid, st_gid, st_size, st_blksize, st_blocks, st_atime and
    st_mtime; the other fields are 0, the number of the inode and st_atime again. *)
Record stat := {
  st_ino : Z; st_mode : Z; st_nlink : Z; st_uid : Z; st_gid : Z; st_size : Z;
  st_blksize : Z; st_blocks : Z; st_atime : Z; st_mtime : Z; st_ctime : Z;
}.

Definition ext2fs_stat (inode : Z) : M ext2fs (Z * option stat) :=
  let! i := ext2_icache_request inode in
  match i with
  | None => ret (-1, None)
  | Some i =>
      let! s := get in
      let! c := raw i in
      ext2_icache_release inode ;;;
      ret (0, Some {| st_ino := inode; st_mode := type_perm c; st_nlink := hardlinks_count c;
        st_uid := inode_uid c; st_gid := inode_gid c; st_size := inode_size (sb s) c;
        st_blksize := block_size s; st_blocks := disk_sector_size c; st_atime := last_access c;
        st_mtime := last_modification c; st_ctime := last_access c |})
  end.

Definition ext2fs_mount (inode mount_nb : Z) : M ext2fs Z :=
  let! i := ext2_icache_request inode in
  match i with
  | None => ret (-1)
  | Some i =>
      let! c := cinode i in
      let b := ci_raw c in
      if negb (is_directory b) then ext2_icache_release inode ;;; ret (-1)
      else
        let b := patch 0 (le_bytes 2 (Z.lor (type_perm b) EXT2_TYPE_MOUNT_PT)) b in
        let b := patch 4 (le_bytes 4 (u32 mount_nb)) b in
        set_cinode i {| ci_inode := ci_inode c; ci_refs := ci_refs c; ci_raw := b |} ;;;
        ret 0
  end.
End ops.
Arguments ext2fs : clear implicits.
End Ext2.
