(* ===== verification/Ext2Inv.v ===== *)
(** The ext2 driver against the contents of the disk.

    [disk_block] is a block of the disk, [disk_inode] the bytes of an inode,
    [block_ptr] the block that holds a part of a file and [file_bytes] the bytes of
    a file.  [fs_ok] relates the state of the driver to the disk: the cache of
    blocks holds blocks of the disk, and the table of inodes holds inodes of the
    disk, except those that were made mount points and stay in the table. *)

From S2P Require Import Prelude KString Malloc BlockCache Ext2.

Module Ext2Inv.
Import BlockCache Ext2.

(** ** Numbers in memory *)

Lemma wp_load8 (m : bmem) a l i (Q : Z -> bmem -> Prop) :
  bytes_at m a l -> 0 <= i < Z.of_nat (length l) -> Q (byte_at l i) m -> wp (load8 (a + i)) m Q.
Proof.
  intros Hb Hi HQ. unfold load8. apply wp_bind.
  pose proof (bytes_at_lookup m a l (Z.to_nat i) Hb ltac:(lia)) as Hl. rewrite Z2Nat.id in Hl by lia.
  destruct (lookup_lt_is_Some_2 l (Z.to_nat i)) as [c Hc]; [lia|].
  eapply wp_load; [by rewrite Hl|]. apply wp_ret. unfold byte_at in HQ. by rewrite Hc in HQ.
Qed.

Lemma wp_load16 (m : bmem) a l i (Q : Z -> bmem -> Prop) :
  bytes_at m a l -> 0 <= i -> i + 2 <= Z.of_nat (length l) -> Q (le16 l i) m -> wp (load16 (a + i)) m Q.
Proof.
  intros Hb Hi Hl HQ. unfold load16. apply wp_bind. eapply wp_load8; [done|lia|].
  apply wp_bind. rewrite <-Z.add_assoc. eapply wp_load8; [done|lia|]. by apply wp_ret.
Qed.

Lemma wp_load32 (m : bmem) a l i (Q : Z -> bmem -> Prop) :
  bytes_at m a l -> 0 <= i -> i + 4 <= Z.of_nat (length l) -> Q (le32 l i) m -> wp (load32 (a + i)) m Q.
Proof.
  intros Hb Hi Hl HQ. unfold load32. apply wp_bind. eapply wp_load16; [done|lia|lia|].
  apply wp_bind. rewrite <-Z.add_assoc. eapply wp_load16; [done|lia|lia|]. by apply wp_ret.
Qed.

Lemma byte_at_range l i : 0 <= byte_at l i < 256.
Proof. unfold byte_at, u8. apply Z.mod_pos_bound. lia. Qed.
Lemma le16_range l i : 0 <= le16 l i < 65536.
Proof. unfold le16. pose proof (byte_at_range l i). pose proof (byte_at_range l (i + 1)). lia. Qed.
Lemma le32_range l i : 0 <= le32 l i < 2 ^ 32.
Proof. unfold le32. pose proof (le16_range l i). pose proof (le16_range l (i + 2)). lia. Qed.

(** ** Names in memory *)

Lemma strncmp_prefix (m : bmem) a b s t :
  bytes_at m a s -> is_string s -> cstr m b t ->
  wp (KString.strncmp_loop a b (length s)) m (fun r m' => m' = m /\ (r = 0 <-> s `prefix_of` t)).
Proof.
  revert a b t. induction s as [|c s IH]; intros a b t Hs Hn Ht.
  { apply wp_ret. split; [done|]. split; [intros _; apply prefix_nil|done]. }
  destruct Hs as [Hc Hs]. apply Forall_cons in Hn as [[_ Hc0] Hn].
  destruct t as [|d t]; [apply cstr_nil in Ht|apply cstr_cons in Ht as (Ht & _ & Hd & Htt)];
    cbn [length KString.strncmp_loop]; step; (eapply wp_load; [done|]); step; (eapply wp_load; [done|]); rewrite cmp_step.
  - rewrite (proj2 (Z.eqb_neq c 0)) by done. destruct (c >? 0); apply wp_ret; (split; [done|]); (split; [done|]);
      intros Hp; by apply prefix_nil_not in Hp.
  - destruct (Z.eqb_spec c d) as [->|Hne].
    + rewrite (proj2 (Z.eqb_neq d 0)) by done. eapply wp_mono; [by apply IH|]. intros r m' [-> Hr]. split; [done|].
      rewrite Hr. split; [apply prefix_cons|apply prefix_cons_inv_2].
    + destruct (c >? d); apply wp_ret; (split; [done|]); (split; [done|]); intros Hp; by apply prefix_cons_inv_1 in Hp.
Qed.

Lemma strlen_ok (m : bmem) b t : cstr m b t -> Z.of_nat (length t) < 2 ^ 32 ->
  wp (LibcString.strlen (S (size m)) b) m (fun r m' => r = Z.of_nat (length t) /\ m' = m).
Proof.
  intros Ht Hl. apply wp_bind. eapply wp_mono; [apply (strlen_seek_spec m b t); [done|]|].
  - destruct Ht as [Ht _]. apply bytes_at_size in Ht. rewrite length_app in Ht. simpl in Ht. lia.
  - intros r m' [-> ->]. apply wp_ret. split; [|done]. rewrite u32_small; lia.
Qed.

Lemma prefix_length_eq (s t : list Z) : s `prefix_of` t -> length t = length s -> s = t.
Proof. intros [k ->] Hl. rewrite length_app in Hl. destruct k; [by rewrite app_nil_r|simpl in Hl; lia]. Qed.

Section inv.
Context {D U : Type} `{UDevice D} `{UHeap U} (bs : Z) (Hbs : 4 <= bs <= 65536) (Hbs4 : bs mod 4 = 0).

(** ** The blocks of the disk *)

(** Block [n]; bytes behind the end of the disk are 0. *)
Definition disk_block (b : list Z) (n : Z) : list Z :=
  let x := take (Z.to_nat bs) (drop (Z.to_nat (n * bs)) b) in
  x ++ replicate (Z.to_nat bs - length x) 0.

(** The block is on the disk, and its number is not the one that the cache takes for no
    block. *)
Definition on_disk (b : list Z) (n : Z) : Prop :=
  0 <= n < NO_BLOCK /\ (n + 1) * bs <= Z.of_nat (length b).

Lemma disk_block_length b n : Z.of_nat (length (disk_block b n)) = bs.
Proof using Hbs.
  unfold disk_block. rewrite length_app, length_replicate, length_take. lia.
Qed.

Lemma disk_block_char b n : Forall is_char b -> Forall is_char (disk_block b n).
Proof.
  intros Hb. unfold disk_block. apply Forall_app. split; [by apply Forall_take, Forall_drop|].
  apply Forall_replicate. split; lia.
Qed.

Lemma block_fetch_spec (m : bmem) (d : D) buffer n :
  0 <= n < 2 ^ 32 -> writable m buffer (Z.to_nat bs) ->
  wp (ext2_block_fetch bs buffer n) (m, d) (fun r s' =>
    disk (s'.2) = disk d /\
    ((0 <= r /\ s'.1 = store_bytes buffer (disk_block (disk d) n) m) \/
     (r < 0 /\ ~ on_disk (disk d) n /\ exists l, Z.of_nat (length l) <= bs /\ s'.1 = store_bytes buffer l m))).
Proof using Hbs.
  intros Hn Hw. unfold ext2_block_fetch. apply wp_bind, wp_zoom. simpl.
  eapply wp_mono; [apply (lseek_spec d (n * bs)); nia|]. intros r d1 (-> & Hd1 & Hp1).
  change (0 <? 0) with false. cbv iota.
  apply wp_bind, wp_zoom. simpl. eapply wp_mono; [apply (dread_spec d1 bs); [lia|nia]|].
  intros [r b] d2 (Hd2 & Hb & Hr & _). simpl in *. rewrite Hd1, Hp1 in *. subst r.
  assert (Z.of_nat (length b) <= bs) as Hle by (rewrite Hb, length_take; lia).
  rewrite (proj2 (Z.ltb_ge _ 0)) by lia. apply wp_bind, wp_modify. simpl.
  rewrite u32_small by lia. destruct (Z.eqb_spec (Z.of_nat (length b)) bs) as [Heq|Hne]; simpl; apply wp_ret; simpl.
  - split; [congruence|]. left. split; [lia|]. f_equal. unfold disk_block. rewrite <-Hb.
    replace (Z.to_nat bs - length b)%nat with O by lia. by rewrite app_nil_r.
  - split; [congruence|]. right. split_and!; [lia| |by eauto]. intros (_ & Hlen).
    apply Hne. rewrite Hb, length_take, length_drop. nia.
Qed.

#[local] Instance ext2_fetch : FetchOp D := ext2_fetch_op bs.

#[local] Instance ext2_fetch_laws : Fetch D bs.
Proof using Hbs.
  refine {| content d := disk_block (disk d); readable d := on_disk (disk d);
            same d d' := disk d' = disk d |}.
  - done.
  - by intros d d' ->.
  - intros d n. apply disk_block_length.
  - intros d n. apply disk_block_char, disk_char.
  - intros m d buffer n. apply block_fetch_spec.
Defined.

(** ** Requests for blocks *)

Implicit Types (s : ext2fs D U) (l : list (Z * slot)).

Definition cache_inv s l : Prop :=
  block_size s = bs /\ cache_ok (fcache s) l /\ 0 < cache_size (fcache s).

(** No block is in use; one block is in use, at [r]. *)
Definition idle s l : Prop := cache_inv s l /\ pinned l = ∅.
Definition holding s l (n r : Z) : Prop := cache_inv s l /\ pinned l = {[n := (r, 1)]}.

(** The driver but for the cache of blocks, the contents of the disk and the
    memory outside the cache stay the same. *)
Record evolves s l s' l' : Prop := {
  ev_fs : exists c, s' = set_fcache c s;
  ev_disk : disk (fdev s') = disk (fdev s);
  ev_areas : areas l' ≡ₚ areas l;
  ev_mem : forall p, outside (len := bs) l p -> fmem s' !! p = fmem s !! p;
}.

Lemma evolves_refl s l : evolves s l s l.
Proof. split; try done. exists (fcache s). by destruct s. Qed.

Lemma outside_perm l l' p : areas l' ≡ₚ areas l -> outside (len := bs) l p -> outside (len := bs) l' p.
Proof. intros Hp Ho d Hd. apply Ho. by rewrite <-Hp. Qed.

Lemma evolves_trans s1 l1 s2 l2 s3 l3 : evolves s1 l1 s2 l2 -> evolves s2 l2 s3 l3 -> evolves s1 l1 s3 l3.
Proof.
  intros [[c ->] Hd1 Ha1 Hm1] [[c' ->] Hd2 Ha2 Hm2]. split.
  - by exists c'.
  - by rewrite Hd2.
  - by rewrite Ha2.
  - intros p Hp. rewrite Hm2 by (by eapply outside_perm). by apply Hm1.
Qed.

Lemma on_disk_small b n : on_disk b n -> 0 <= n < NO_BLOCK.
Proof. by intros [? _]. Qed.

Lemma fiu_request_ok s l n :
  idle s l -> on_disk (disk (fdev s)) n ->
  wp (fiu_request n) s (fun r s' => exists l', evolves s l s' l' /\ holding s' l' n r /\ r <> 0 /\
    bytes_at (fmem s') r (disk_block (disk (fdev s)) n) /\ r ∈ areas l').
Proof.
  intros [(Eb & Hok & Hcs) Hp] Hn. unfold fiu_request. apply wp_bind, wp_get. rewrite Eb. apply wp_zoom.
  assert (pin_count l n = 0) as Hpc by (unfold pin_count; by rewrite Hp).
  eapply wp_mono; [apply (request_ok (len := bs) n (fcache s) l Hok); [by apply (on_disk_small (disk (fdev s)))|done|lia]|].
  intros r c (Hsame & [(_ & _ & _ & Hsz)|(Hr & l' & Hok' & Hp' & Ha & Hcs' & Hout & _)]).
  { rewrite Hp in Hsz. change (Z.of_nat (size (∅ : gmap Z (Z * Z)))) with 0 in Hsz. lia. }
  rewrite Hpc, Hp in Hp'. rewrite insert_empty in Hp'.
  assert (pinned l' !! n = Some (r, 1)) as Hpn by (rewrite Hp'; apply lookup_singleton_eq).
  exists l'. split_and!; try done.
  - split; try done. by exists c.
  - unfold holding, cache_inv. split_and!; simpl; try done. lia.
  - simpl in Hsame. unfold fdev. rewrite <-Hsame. by apply (pinned_data c l' n r 1 Hok').
  - destruct Hok' as (_ & Hrep & Hs'). eapply pinned_lookup in Hpn as (a & x & Hx & _ & _ & [= <- _]); [|apply Hrep|done].
    apply list_elem_of_fmap. by exists (a, x).
Qed.

Lemma fiu_release_ok s l n r :
  holding s l n r -> wp (fiu_release n) s (fun _ s' => exists l', evolves s l s' l' /\ idle s' l' /\ fmem s' = fmem s).
Proof.
  intros [(Eb & Hok & Hcs) Hp]. unfold fiu_release. apply wp_zoom.
  eapply wp_mono; [apply (release_ok (len := bs) n (fcache s) l r 1 Hok); [by rewrite Hp, lookup_singleton_eq|lia]|].
  intros _ c' (Hmd & l' & Hok' & Hp' & Ha & Hcs'). injection Hmd as Hm Hd. simpl in Hp'.
  exists l'. split_and!.
  - split; try done; [by exists c'|unfold fdev; simpl; by rewrite Hd|intros p _; unfold fmem; simpl; by rewrite Hm].
  - unfold idle, cache_inv. split_and!; simpl; try done; [lia|]. rewrite Hp', Hp. apply delete_singleton_eq.
  - unfold fmem. simpl. done.
Qed.

(** ** The blocks of a file *)

(** The number of the block that holds the [k]th part of a file. *)
Definition block_ptr (b c : list Z) (k : Z) : Z :=
  if k <? 12 then dbp c k else le32 (disk_block b (singly_ibp c)) (4 * (k - 12)).

(** The largest file the driver can read. *)
Definition max_file : Z := (12 + bs / 4) * bs.

Lemma wp_raw s i x Q : inode_cache s !! i = Some x -> Q (ci_raw x) s -> wp (raw i) s Q.
Proof.
  intros Hx HQ. unfold raw, cinode. apply wp_bind, wp_bind, wp_get. rewrite Hx. by apply wp_ret, wp_ret.
Qed.

Lemma inode_block_data_ok s l i x offset :
  idle s l -> inode_cache s !! i = Some x -> 0 <= offset <= inode_size (sb s) (ci_raw x) -> offset < max_file ->
  (12 * bs <= offset -> on_disk (disk (fdev s)) (singly_ibp (ci_raw x))) ->
  wp (inode_block_data i offset) s (fun r s' => r = Some (block_ptr (disk (fdev s)) (ci_raw x) (offset / bs)) /\
    exists l', evolves s l s' l' /\ idle s' l').
Proof.
  intros Hidle Hx Ho Hmax Hsi. pose proof Hidle as [(Eb & _) _]. unfold max_file in Hmax.
  unfold inode_block_data. apply wp_bind, wp_get, wp_bind. eapply wp_raw; [done|]. rewrite Eb.
  rewrite Z.gtb_ltb, (proj2 (Z.ltb_ge _ _)) by lia.
  assert (0 <= bs / 4 <= 16384) by (Z.div_mod_to_equations; lia).
  rewrite !(u32_small (12 * bs)) by lia. rewrite (u32_small (bs / 4 * bs)) by nia. unfold block_ptr.
  destruct (Z.ltb_spec offset (12 * bs)) as [Hd|Hi].
  - rewrite (proj2 (Z.ltb_lt (offset / bs) 12)) by (apply Z.div_lt_upper_bound; lia).
    apply wp_ret. split; [done|]. exists l. split; [apply evolves_refl|done].
  - assert (12 <= offset / bs) by (apply Z.div_le_lower_bound; lia).
    rewrite (proj2 (Z.ltb_ge (offset / bs) 12)) by done. rewrite u64_small by nia.
    rewrite (proj2 (Z.ltb_lt _ _)) by nia.
    apply wp_bind. eapply wp_mono; [by apply fiu_request_ok, Hsi|].
    intros r s1 (l1 & Hev1 & Hh & Hr & Hb & _). rewrite (proj2 (Z.eqb_neq r 0)) by done.
    assert ((offset - 12 * bs) / bs = offset / bs - 12) as Eq.
    { replace (offset - 12 * bs) with (offset + (-12) * bs) by lia. rewrite Z.div_add by lia. lia. }
    assert (offset / bs < 12 + bs / 4) by (apply Z.div_lt_upper_bound; lia).
    apply wp_bind, wp_zoom. eapply wp_load32; [done|rewrite Eq; lia| |].
    { rewrite disk_block_length, Eq. Z.div_mod_to_equations; lia. }
    replace (set_fmem (fmem s1) s1) with s1 by (by destruct s1 as [[]]).
    apply wp_bind. eapply wp_mono; [by eapply fiu_release_ok|]. intros _ s2 (l2 & Hev2 & Hid2 & _).
    apply wp_ret. rewrite Eq. split; [done|]. exists l2. split; [by eapply evolves_trans|done].
Qed.

(** ** The table of inodes *)

(** Where the inode [n] is on the disk. *)
Definition inode_off s (n : Z) : Z :=
  inode_table (grp_table s) ((n - 1) / inode_per_group (sb s)) * bs +
  (n - 1) mod inode_per_group (sb s) * sizeof_inode (sb s).

Definition disk_inode s (n : Z) : list Z := take 128 (drop (Z.to_nat (inode_off s n)) (disk (fdev s))).

Definition valid_inode s (n : Z) : Prop :=
  1 <= n < 2 ^ 32 /\ 0 < inode_per_group (sb s) /\
  ((n - 1) / inode_per_group (sb s) + 1) * sizeof_group <= Z.of_nat (length (grp_table s)) /\
  inode_off s n + 128 <= Z.of_nat (length (disk (fdev s))).

(** How often inode [n] is in use. *)
Definition irefs (t : list ext2_cinode) (n : Z) : Z :=
  match first_slot (fun x => ci_inode x =? n) 0 t with
  | Some i => default 0 (ci_refs <$> t !! i)
  | None => 0
  end.

(** [view n] is what the driver takes for inode [n]: what the disk holds, unless the
    inode is in use and was changed in memory. *)
Record icache_ok (view : Z -> list Z) s : Prop := {
  ic_view : forall i x, inode_cache s !! i = Some x -> ci_inode x <> 0 -> ci_raw x = view (ci_inode x);
  ic_refs : forall i x, inode_cache s !! i = Some x -> 0 <= ci_refs x /\ length (ci_raw x) = 128%nat;
  ic_unique : forall i j x y, inode_cache s !! i = Some x -> inode_cache s !! j = Some y ->
    ci_inode x = ci_inode y -> ci_inode x <> 0 -> i = j;
  ic_disk : forall n, valid_inode s n -> 0 < irefs (inode_cache s) n \/ view n = disk_inode s n;
}.

Lemma first_slot_Some p t : forall k i, first_slot p k t = Some i ->
  exists j x, i = (k + j)%nat /\ t !! j = Some x /\ p x = true.
Proof.
  induction t as [|y t IH]; intros k i Hf; simpl in Hf; [done|]. destruct (p y) eqn:E.
  - exists O, y. simplify_eq. split_and!; [lia|done..].
  - destruct (IH _ _ Hf) as (j & x & -> & Hj & Hx). exists (S j), x. split_and!; [lia|done..].
Qed.

Lemma first_slot_None p t k : first_slot p k t = None <-> Forall (fun x => p x = false) t.
Proof.
  revert k. induction t as [|y t IH]; intros k; simpl; [split; [constructor|done]|].
  rewrite Forall_cons, <-(IH (S k)). destruct (p y); naive_solver.
Qed.

Lemma irefs_slot view s i x :
  icache_ok view s -> inode_cache s !! i = Some x -> ci_inode x <> 0 ->
  first_slot (fun y => ci_inode y =? ci_inode x) 0 (inode_cache s) = Some i /\
  irefs (inode_cache s) (ci_inode x) = ci_refs x.
Proof.
  intros Hic Hx Hn. unfold irefs. destruct (first_slot _ _ _) as [j|] eqn:E.
  - apply first_slot_Some in E as (j' & y & -> & Hy & Heq). simpl. apply Z.eqb_eq in Heq.
    assert (j' = i) as -> by (eapply (ic_unique _ _ Hic j' i y x); [done..|congruence]). by rewrite Hx.
  - apply first_slot_None in E. rewrite Forall_forall in E.
    specialize (E x ltac:(by eapply list_elem_of_lookup_2)). simpl in E. lia.
Qed.

Lemma irefs_None t n : Forall (fun x => (ci_inode x =? n) = false) t -> irefs t n = 0.
Proof. intros Hf. unfold irefs. by rewrite (proj2 (first_slot_None _ _ 0)). Qed.

Lemma irefs_cases t n :
  (exists i x, t !! i = Some x /\ ci_inode x = n /\ irefs t n = ci_refs x) \/
  ((forall i x, t !! i = Some x -> ci_inode x <> n) /\ irefs t n = 0).
Proof.
  unfold irefs. destruct (first_slot _ _ _) as [j|] eqn:E.
  - apply first_slot_Some in E as (i & x & -> & Hi & Hx). left. exists i, x. simpl. rewrite Hi. split_and!; [done|lia|done].
  - apply first_slot_None in E. rewrite Forall_forall in E. right. split; [|done]. intros i x Hi Hn.
    specialize (E x ltac:(by eapply list_elem_of_lookup_2)). simpl in E. lia.
Qed.

(** One slot changes. *)
Lemma icache_ok_set view s i x y :
  icache_ok view s -> inode_cache s !! i = Some x ->
  ci_inode y <> 0 -> ci_raw y = view (ci_inode y) -> 0 <= ci_refs y -> length (ci_raw y) = 128%nat ->
  (forall j z, j <> i -> inode_cache s !! j = Some z -> ci_inode z <> ci_inode y) ->
  ci_inode x = ci_inode y \/ ci_inode x = 0 \/ ci_refs x = 0 ->
  0 < ci_refs y \/ view (ci_inode y) = disk_inode s (ci_inode y) ->
  let s' := set_inode_cache (<[i := y]> (inode_cache s)) s in
  icache_ok view s' /\ irefs (inode_cache s') (ci_inode y) = ci_refs y /\
  forall m, m <> 0 -> m <> ci_inode y -> irefs (inode_cache s') m = irefs (inode_cache s) m.
Proof.
  intros Hic Hx Hy0 Hyv Hyr Hyl Hno Hxy Hyd s'.
  assert (forall j z, inode_cache s' !! j = Some z ->
    (j = i /\ z = y) \/ (j <> i /\ inode_cache s !! j = Some z)) as Hcase.
  { intros j z Hj. simpl in Hj. apply list_lookup_insert_Some in Hj as [(? & ? & _)|[? ?]]; [left|right]; done. }
  assert (inode_cache s' !! i = Some y) as Hi.
  { apply list_lookup_insert_eq. by eapply lookup_lt_Some. }
  assert (forall m, m <> 0 -> m <> ci_inode y -> irefs (inode_cache s') m = irefs (inode_cache s) m) as Hother.
  { intros m Hm Hmy. destruct (irefs_cases (inode_cache s') m) as [(j & z & Hj & Hz & ->)|[Hnone ->]].
    - destruct (Hcase _ _ Hj) as [[-> ->]|[Hji Hj']]; [congruence|]. rewrite <-Hz.
      symmetry. apply (irefs_slot view s j z Hic Hj'). congruence.
    - destruct (irefs_cases (inode_cache s) m) as [(j & z & Hj & Hz & ->)|[_ ->]]; [|done].
      destruct (decide (j = i)) as [->|Hji].
      + assert (z = x) as -> by congruence. destruct Hxy as [?|[?|?]]; congruence.
      + destruct (Hnone j z); [|done]. simpl. by rewrite list_lookup_insert_ne. }
  assert (irefs (inode_cache s') (ci_inode y) = ci_refs y) as Hyi.
  { destruct (irefs_cases (inode_cache s') (ci_inode y)) as [(j & z & Hj & Hz & ->)|[Hnone _]]; [|by destruct (Hnone i y)].
    destruct (Hcase _ _ Hj) as [[-> ->]|[Hji Hj']]; [done|]. by destruct (Hno j z). }
  split_and!; [split|done|done].
  - intros j z Hj Hz. destruct (Hcase _ _ Hj) as [[-> ->]|[_ Hj']]; [done|]. by apply (ic_view _ _ Hic j).
  - intros j z Hj. destruct (Hcase _ _ Hj) as [[-> ->]|[_ Hj']]; [done|]. by apply (ic_refs _ _ Hic j).
  - intros j k z w Hj Hk Hzw Hz. destruct (Hcase _ _ Hj) as [[-> ->]|[Hji Hj']], (Hcase _ _ Hk) as [[-> ->]|[Hki Hk']].
    + done.
    + by destruct (Hno k w).
    + by destruct (Hno j z).
    + by apply (ic_unique _ _ Hic j k z w).
  - intros n Hn. destruct (decide (n = ci_inode y)) as [->|Hne]; [rewrite Hyi; by destruct Hyd; auto|].
    destruct (ic_disk _ _ Hic n Hn) as [Hr|Hd]; [|by right]. left. rewrite Hother; [done| |done].
    destruct Hn as [? _]. lia.
Qed.

(** The rest of the driver, the disk and the memory stay the same. *)
Definition same_but_icache s s' : Prop :=
  exists t d, s' = set_inode_cache t (set_fdev d s) /\ disk d = disk (fdev s).

Lemma cache_inv_icache s s' l : same_but_icache s s' -> idle s l -> idle s' l.
Proof.
  intros (t & d & -> & Hd) [(Eb & (Hlk & Hrep & Hs) & Hcs) Hp].
  split; [|done]. split_and!; [done| |done]. split_and!; [done| |].
  - by eapply cache_rep_ext.
  - simpl. unfold fdev in Hd. simpl in *. by rewrite Hd.
Qed.

Lemma icache_ok_fcache view s c : disk (dev c) = disk (fdev s) -> icache_ok view s -> icache_ok view (set_fcache c s).
Proof.
  intros Hd [Hv Hr Hu Hdk]. split; try done. intros n Hn. unfold valid_inode, disk_inode in *. simpl in *.
  change (fdev (set_fcache c s)) with (dev c) in *. rewrite Hd in *. by apply Hdk.
Qed.

Lemma icache_ok_dev view s d : disk d = disk (fdev s) -> icache_ok view s -> icache_ok view (set_fdev d s).
Proof. intros Hd. by apply icache_ok_fcache. Qed.

(** What a request for inode [n] leaves. *)
Definition irequested (view : Z -> list Z) s n (r : option nat) s' : Prop :=
  match r with
  | Some i => icache_ok view s' /\
      (exists x, inode_cache s' !! i = Some x /\ ci_inode x = n /\ ci_raw x = view n) /\
      irefs (inode_cache s') n = irefs (inode_cache s) n + 1 /\
      forall m, m <> 0 -> m <> n -> irefs (inode_cache s') m = irefs (inode_cache s) m
  | None => s' = s /\ Forall (fun x => ci_inode x <> n /\ ci_inode x <> 0 /\ ci_refs x <> 0) (inode_cache s)
  end.

Lemma set_fdev_same s : set_fdev (fdev s) s = s.
Proof. by destruct s as [[]]. Qed.

(** The inode is in the table. *)
Lemma icache_hit view s n i :
  icache_ok view s -> 1 <= n -> irefs (inode_cache s) n < 2 ^ 31 - 1 ->
  first_slot (fun c => ci_inode c =? n) 0 (inode_cache s) = Some i ->
  wp (let! c := cinode i in
      set_cinode i {| ci_inode := ci_inode c; ci_refs := s32 (ci_refs c + 1); ci_raw := ci_raw c |} ;;;
      ret (Some i)) s (fun r s' => same_but_icache s s' /\ irequested view s n r s').
Proof.
  intros Hic Hn Hr E. apply first_slot_Some in E as (j & x & -> & Hx & Hxn). apply Z.eqb_eq in Hxn. simpl.
  unfold cinode. apply wp_bind, wp_bind, wp_get. rewrite Hx. apply wp_ret, wp_bind, wp_modify, wp_ret.
  destruct (irefs_slot view s j x Hic Hx) as [_ Hri]; [lia|]. rewrite Hxn in Hri. rewrite Hri in Hr.
  destruct (ic_refs _ _ Hic j x Hx) as [Hr0 Hl]. rewrite s32_small by lia.
  set (y := {| ci_inode := ci_inode x; ci_refs := ci_refs x + 1; ci_raw := ci_raw x |}).
  destruct (icache_ok_set view s j x y Hic Hx) as (Hic' & Hy & Hm); try done; simpl.
  - lia.
  - apply (ic_view _ _ Hic j x Hx). lia.
  - lia.
  - intros k z Hk Hz Heq. apply Hk. eapply (ic_unique _ _ Hic k j z x); [done..|lia].
  - by left.
  - left. lia.
  - split; [exists (<[j := y]> (inode_cache s)), (fdev s); by rewrite set_fdev_same|].
    split_and!; [done| | |].
    + exists y. split_and!; [|done|].
      * apply list_lookup_insert_eq. by eapply lookup_lt_Some.
      * simpl. rewrite <-Hxn. apply (ic_view _ _ Hic j x Hx). lia.
    + rewrite <-Hxn at 1. rewrite Hri. exact Hy.
    + intros m Hm0 Hmn. apply Hm; [done|]. simpl. congruence.
Qed.

Lemma icache_request_ok view s n :
  block_size s = bs -> icache_ok view s -> valid_inode s n -> irefs (inode_cache s) n < 2 ^ 31 - 1 ->
  wp (ext2_icache_request n) s (fun r s' => same_but_icache s s' /\ irequested view s n r s').
Proof.
  intros Eb Hic Hv Hr. pose proof Hv as (Hn & Hpg & Hgrp & Hend). pose proof (disk_size (fdev s)) as Hsize.
  unfold ext2_icache_request. apply wp_bind, wp_get.
  destruct (first_slot (fun c => ci_inode c =? n) _ _) as [i|] eqn:E; [apply icache_hit; [done|lia|done..]|].
  apply first_slot_None in E. pose proof (irefs_None _ _ E) as Hr0. rewrite Forall_forall in E.
  destruct (first_slot _ _ _) as [i|] eqn:E2.
  - apply first_slot_Some in E2 as (j & x & -> & Hx & Hxf). simpl plus.
    rewrite (proj2 (Z.eqb_neq _ 0)) by lia. rewrite u32_small by lia.
    rewrite Z.gtb_ltb, (proj2 (Z.ltb_ge _ _)) by lia. rewrite Eb. fold (inode_off s n).
    assert (0 <= inode_off s n) as Hoff0.
    { unfold inode_off. pose proof (le32_range (grp_table s) ((n - 1) / inode_per_group (sb s) * sizeof_group + 8)).
      pose proof (le16_range (sb s) 88). pose proof (Z.mod_pos_bound (n - 1) (inode_per_group (sb s)) ltac:(lia)).
      unfold inode_table, sizeof_inode. nia. }
    rewrite u64_small by lia.
    apply wp_bind, wp_zoom. eapply wp_mono; [apply (lseek_spec (fdev s)); lia|]. intros r d1 (-> & Hd1 & Hp1).
    change (0 <? 0) with false. cbv iota.
    apply wp_bind, wp_zoom. eapply wp_mono; [apply (dread_spec d1 128); [lia|rewrite Hp1; lia]|].
    intros [r b] d2 (Hd2 & Hb & Hrb & _). simpl in Hb, Hrb. rewrite Hp1, Hd1 in Hb.
    assert (length b = 128%nat) as Hlen by (rewrite Hb, length_take, length_drop; lia).
    rewrite Hrb, (proj2 (Z.ltb_ge _ 0)) by lia.
    unfold cinode. apply wp_bind, wp_bind, wp_get. simpl inode_cache. rewrite Hx. apply wp_ret, wp_bind, wp_modify, wp_ret.
    destruct (ic_refs _ _ Hic j x Hx) as [_ Hxl].
    replace (patch 0 b (ci_raw x)) with b by
      (unfold patch; simpl; rewrite Hlen, drop_ge by lia; by rewrite app_nil_r).
    assert (disk d2 = disk (fdev s)) as Hd by congruence.
    pose proof (icache_ok_dev view s d2 Hd Hic) as Hic2.
    assert (b = view n) as Hbv by (destruct (ic_disk _ _ Hic n Hv) as [?|Hvn]; [lia|by rewrite Hvn]).
    set (y := {| ci_inode := n; ci_refs := 1; ci_raw := b |}).
    destruct (icache_ok_set view (set_fdev d2 s) j x y Hic2 Hx) as (Hic' & Hy & Hm); try done; simpl.
    + lia.
    + intros k z _ Hz Heq. specialize (E z ltac:(by eapply list_elem_of_lookup_2)). simpl in E. lia.
    + right. apply orb_prop in Hxf as [?|?]; unfold EXT2_BAD_INODE in *; [left|right]; lia.
    + by left.
    + split; [by exists (<[j := y]> (inode_cache s)), d2|]. split_and!; [exact Hic'| | |].
      * exists y. split_and!; [|done|done]. apply list_lookup_insert_eq. by eapply lookup_lt_Some.
      * rewrite Hr0. exact Hy.
      * exact Hm.
  - apply wp_ret. split; [exists (inode_cache s), (fdev s); rewrite set_fdev_same; by destruct s|]. split; [done|].
    apply first_slot_None in E2. rewrite Forall_forall in E2 |- *. intros x Hx.
    specialize (E x Hx). specialize (E2 x Hx). simpl in E, E2. apply orb_false_iff in E2. unfold EXT2_BAD_INODE in *. lia.
Qed.

Lemma icache_release_ok view s n :
  icache_ok view s -> 1 <= n -> 0 < irefs (inode_cache s) n < 2 ^ 31 ->
  1 < irefs (inode_cache s) n \/ view n = disk_inode s n ->
  wp (ext2_icache_release n) s (fun _ s' => same_but_icache s s' /\ icache_ok view s' /\
    irefs (inode_cache s') n = irefs (inode_cache s) n - 1 /\
    forall m, m <> 0 -> m <> n -> irefs (inode_cache s') m = irefs (inode_cache s) m).
Proof.
  intros Hic Hn Hr Hd. unfold ext2_icache_release. apply wp_bind, wp_get.
  destruct (irefs_cases (inode_cache s) n) as [(j & x & Hx & Hxn & Hri)|[_ ?]]; [|lia].
  destruct (irefs_slot view s j x Hic Hx) as [Hf _]; [lia|]. rewrite Hxn in Hf. rewrite Hf.
  unfold cinode. apply wp_bind, wp_bind, wp_get. rewrite Hx. apply wp_ret, wp_modify.
  destruct (ic_refs _ _ Hic j x Hx) as [Hr0 Hl]. rewrite s32_small by lia.
  set (y := {| ci_inode := ci_inode x; ci_refs := ci_refs x - 1; ci_raw := ci_raw x |}).
  destruct (icache_ok_set view s j x y Hic Hx) as (Hic' & Hy & Hm); try done; simpl.
  - lia.
  - apply (ic_view _ _ Hic j x Hx). lia.
  - lia.
  - intros k z Hk Hz Heq. apply Hk. eapply (ic_unique _ _ Hic k j z x); [done..|lia].
  - by left.
  - rewrite Hxn. destruct Hd; [left; lia|by right].
  - split; [exists (<[j := y]> (inode_cache s)), (fdev s); by rewrite set_fdev_same|].
    split_and!; [done| |].
    + rewrite Hri, <-Hxn. exact Hy.
    + intros m Hm0 Hmn. apply Hm; [done|]. simpl. congruence.
Qed.

(** ** The contents of files *)

(** The byte at an offset of a file, and [n] bytes from an offset on. *)
Definition file_at (b c : list Z) (o : Z) : Z :=
  default 0 (disk_block b (block_ptr b c (o / bs)) !! Z.to_nat (o mod bs)).
Definition file_range (b c : list Z) (off n : Z) : list Z := file_at b c <$> seqZ off n.

Lemma file_range_length b c off n : length (file_range b c off n) = Z.to_nat n.
Proof. unfold file_range. by rewrite length_fmap, length_seqZ. Qed.

Lemma file_range_app b c off n m : 0 <= n -> 0 <= m ->
  file_range b c off (n + m) = file_range b c off n ++ file_range b c (off + n) m.
Proof. intros. unfold file_range. rewrite seqZ_app by done. by rewrite fmap_app. Qed.

Lemma off_in_block off i : off mod bs = 0 -> 0 <= i < bs -> (off + i) / bs = off / bs /\ (off + i) mod bs = i.
Proof using Hbs.
  intros Ho Hi. assert (off = off / bs * bs) as E by (pose proof (Z.div_mod off bs ltac:(lia)); lia).
  split.
  - rewrite E at 1. rewrite Z.div_add_l, (Z.div_small i) by lia. lia.
  - rewrite E, Z.add_comm, Z.mod_add, Z.mod_small by lia. done.
Qed.

Lemma file_range_block b c off n : off mod bs = 0 -> 0 <= n <= bs ->
  file_range b c off n = take (Z.to_nat n) (disk_block b (block_ptr b c (off / bs))).
Proof using Hbs.
  intros Ho Hn. pose proof (disk_block_length b (block_ptr b c (off / bs))) as Hl.
  apply list_eq. intros i. destruct (decide (Z.of_nat i < n)) as [Hi|Hi].
  - unfold file_range. rewrite list_lookup_fmap, lookup_seqZ_lt by done. rewrite lookup_take_lt by lia. simpl.
    assert ((off + Z.of_nat i) / bs = off / bs /\ (off + Z.of_nat i) mod bs = Z.of_nat i) as [Ed Em]
      by (apply off_in_block; [done|lia]).
    unfold file_at. rewrite Ed, Em, Nat2Z.id.
    destruct (lookup_lt_is_Some_2 (disk_block b (block_ptr b c (off / bs))) i) as [x ->]; [lia|done].
  - rewrite !lookup_ge_None_2; [done| |].
    + rewrite length_take. lia.
    + rewrite file_range_length. lia.
Qed.

(** Every block of the first [size] bytes of a file is on the disk. *)
Definition file_on_disk (b c : list Z) (size : Z) : Prop :=
  (12 * bs < size -> on_disk b (singly_ibp c)) /\
  forall k, 0 <= k -> k * bs < size -> on_disk b (block_ptr b c k).

(** As [evolves], but for [n] bytes of memory from [lo] on. *)
Record writes (lo n : Z) s l s' l' : Prop := {
  wr_fs : exists c, s' = set_fcache c s;
  wr_disk : disk (fdev s') = disk (fdev s);
  wr_areas : areas l' ≡ₚ areas l;
  wr_mem : forall p, outside (len := bs) l p -> ~ lo <= p < lo + n -> fmem s' !! p = fmem s !! p;
}.

Lemma evolves_writes lo n s1 l1 s2 l2 : evolves s1 l1 s2 l2 -> writes lo n s1 l1 s2 l2.
Proof. intros [? ? ? ?]. split; auto. Qed.

Lemma writes_trans lo n m s1 l1 s2 l2 s3 l3 : 0 <= n -> 0 <= m ->
  writes lo n s1 l1 s2 l2 -> writes (lo + n) m s2 l2 s3 l3 -> writes lo (n + m) s1 l1 s3 l3.
Proof.
  intros ? ? [[c ->] Hd1 Ha1 Hm1] [[c' ->] Hd2 Ha2 Hm2]. split.
  - by exists c'.
  - by rewrite Hd2.
  - by rewrite Ha2.
  - intros p Hp Hn. rewrite Hm2; [|by eapply outside_perm|lia]. apply Hm1; [done|lia].
Qed.

(** The [n] bytes from [lo] on are memory apart from the cache. *)
Definition buffer s l (lo n : Z) : Prop :=
  writable (fmem s) lo (Z.to_nat n) /\ forall p, lo <= p < lo + n -> outside (len := bs) l p.

Lemma buffer_writes lo n s l s' l' lo' n' :
  buffer s l lo' n' -> writes lo n s l s' l' -> (n = 0 \/ lo + n <= lo') -> buffer s' l' lo' n'.
Proof.
  intros [Hw Ho] Hwr Hn. split.
  - intros p Hp. rewrite (wr_mem _ _ _ _ _ _ Hwr); [by apply Hw|apply Ho; lia|lia].
  - intros p Hp. eapply outside_perm; [apply Hwr|by apply Ho].
Qed.

(** A write to a buffer keeps the cache. *)
Lemma holding_store s l n r data b :
  holding s l n r -> (forall p, data <= p < data + Z.of_nat (length b) -> outside (len := bs) l p) ->
  holding (set_fmem (store_bytes data b (fmem s)) s) l n r.
Proof using Hbs.
  intros [(Eb & (Hlk & Hrep & Hs) & Hcs) Hp] Ho. split; [|done]. split_and!; [done| |done]. split_and!; [done| |].
  - by eapply cache_rep_ext.
  - simpl in *. fold (fmem s) in *.
    assert (forall a x p, (a, x) ∈ l -> BlockCache.data x <= p < BlockCache.data x + bs ->
      store_bytes data b (fmem s) !! p = fmem s !! p) as Hk.
    { intros a x p Hx Hpx. apply lookup_store_bytes_ne.
      destruct (decide (data <= p < data + Z.of_nat (length b))) as [Hin|]; [|lia].
      destruct (Ho p Hin (BlockCache.data x)); [|lia..]. apply list_elem_of_fmap. by exists (a, x). }
    destruct Hs as [Hw Hap Hd Hu Hus]. split; try done.
    + intros a x Hx. destruct (Hw a x Hx) as [? Hwx]. split; [done|]. intros p Hpx.
      rewrite (Hk a x p Hx) by lia. by apply Hwx.
    + intros a x Hx Hn. apply (bytes_at_kept (fmem s)); [by eapply Hd|]. intros p Hpx.
      apply (Hk a x); [done|]. simpl in Hpx. by rewrite disk_block_length in Hpx.
Qed.

(** Requests that [ext2fs_read] serves: from the start of a block on, and either
    within the block or of whole blocks. *)
Definition whole_blocks (req_size off size : Z) : Prop :=
  off mod bs = 0 /\ ((size = 0 /\ req_size <= bs) \/ (req_size mod bs = 0 /\ size mod bs = 0)).

Lemma MIN3_min a b c : MIN3 a b c = Z.min a (Z.min b c).
Proof. unfold MIN3. repeat case_match; lia. Qed.

(** The bytes one turn of the loop reads. *)
Lemma whole_blocks_step req_size file_size off size :
  whole_blocks req_size off size -> 0 <= size < req_size -> 0 <= off < file_size ->
  let rs := MIN3 req_size (bs - off mod bs) (file_size - off) in
  0 < rs <= bs /\ rs <= Z.min (req_size - size) (file_size - off) /\
  (size + rs < req_size -> off + rs < file_size -> whole_blocks req_size (off + rs) (size + rs)).
Proof using Hbs.
  intros (Ho & Hs) Hsz Hof rs. unfold rs. rewrite MIN3_min, Ho, Z.sub_0_r.
  destruct Hs as [[-> Hr]|[Hr Hs]]; [split_and!; lia|].
  assert (size + bs <= req_size).
  { pose proof (Z.div_mod req_size bs ltac:(lia)). pose proof (Z.div_mod size bs ltac:(lia)).
    assert (size / bs < req_size / bs) by (apply (Z.mul_lt_mono_pos_l bs); lia). nia. }
  split_and!; [lia..|]. intros. assert (Z.min req_size (Z.min bs (file_size - off)) = bs) as -> by lia.
  split; [|right; split; [done|]]; rewrite Zplus_mod, Z_mod_same_full, Z.add_0_r, Z.mod_mod by lia; done.
Qed.

Lemma read_loop_end fuel inode i req_size file_size s off data size Q :
  req_size <= size \/ file_size <= off ->
  wp (ext2_icache_release inode) s (fun _ s' => Q (0, size) s') ->
  wp (read_loop fuel inode i req_size file_size off data size) s Q.
Proof.
  intros Hend HQ. assert ((size <? req_size) && (off <? file_size) = false) as E.
  { apply andb_false_iff. rewrite !Z.ltb_ge. done. }
  destruct fuel; simpl; rewrite E; apply wp_bind; (eapply wp_mono; [exact HQ|]); intros ? s' HQ'; apply wp_ret; exact HQ'.
Qed.

Lemma copy_block {A} s l n r data b k (K : M (ext2fs D U) A) Q :
  holding s l n r -> bytes_at (fmem s) r b -> r ∈ areas l -> Forall is_char b -> Z.of_nat (length b) = bs ->
  0 < k <= bs -> buffer s l data k ->
  (forall s' l', writes data k s l s' l' -> idle s' l' -> bytes_at (fmem s') data (take (Z.to_nat k) b) -> wp K s' Q) ->
  wp (memory (LibcString.memcpy data r k) ;;; fiu_release n ;;; K) s Q.
Proof using Hbs.
  intros Hh Hb Hr Hc Hl Hk [Hw Ho] HQ. set (b' := take (Z.to_nat k) b).
  assert (length b' = Z.to_nat k) as Hl' by (unfold b'; rewrite length_take; lia).
  apply wp_bind, wp_zoom. unfold LibcString.memcpy. rewrite u32_small, <-Hl' by lia.
  apply wp_bind. eapply wp_mono; [apply memcpy_loop_spec|].
  - rewrite <-(take_drop (Z.to_nat k) b) in Hb. apply bytes_at_app in Hb. apply Hb.
  - by apply Forall_take.
  - by rewrite Hl'.
  - destruct (Ho data ltac:(lia) r Hr); lia.
  - intros _ m [_ ->]. apply wp_ret. apply wp_bind. eapply wp_mono; [eapply fiu_release_ok, holding_store; [done|]|].
    { intros p Hp. apply Ho. lia. }
    intros _ s' (l' & Hev & Hid & Hm). apply (HQ s' l'); [|done|rewrite Hm; apply bytes_at_store_bytes].
    destruct Hev as [[c ->] Hd Ha _]. split; [by exists c|done|done|].
    intros p _ Hp. rewrite Hm. apply lookup_store_bytes_ne. lia.
Qed.

Lemma read_loop_ok fuel inode i x req_size file_size : forall s l off data size Q,
  idle s l -> inode_cache s !! i = Some x -> file_size = inode_size (sb s) (ci_raw x) -> file_size <= max_file ->
  file_on_disk (disk (fdev s)) (ci_raw x) file_size ->
  0 <= off -> 0 <= size <= req_size -> req_size < 2 ^ 31 -> req_size - size <= Z.of_nat fuel ->
  (size < req_size -> off < file_size -> whole_blocks req_size off size) ->
  let n := Z.max 0 (Z.min (req_size - size) (file_size - off)) in
  buffer s l data n -> 0 <= data -> data + n < 2 ^ 32 ->
  (forall s1 l1, writes data n s l s1 l1 -> idle s1 l1 ->
    bytes_at (fmem s1) data (file_range (disk (fdev s)) (ci_raw x) off n) ->
    wp (ext2_icache_release inode) s1 (fun _ s' => Q (0, size + n) s')) ->
  wp (read_loop fuel inode i req_size file_size off data size) s Q.
Proof using Hbs Hbs4.
  induction fuel as [|fuel IH]; intros s l off data size Q Hidle Hx Hfs Hmax Hod Ho Hs Hrq Hf Hwb n Hbuf Hd0 Hd HQ;
    destruct (decide (size < req_size /\ off < file_size)) as [[Hlt Hol]|Hend].
  1: lia.
  1, 3: apply read_loop_end; [lia|]; assert (n = 0) as En by lia; rewrite En, Z.add_0_r in HQ;
    apply (HQ s l); [by apply evolves_writes, evolves_refl|done|done].
  simpl. rewrite (proj2 (Z.ltb_lt size _)), (proj2 (Z.ltb_lt off _)) by done. simpl.
  pose proof Hidle as [(Eb & _) _]. specialize (Hwb Hlt Hol).
  destruct (whole_blocks_step _ _ _ _ Hwb (conj (proj1 Hs) Hlt) (conj Ho Hol)) as (Hrs & Hrn & Hwb').
  destruct Hwb as [Hal _]. destruct Hod as [Hsi Hod].
  apply wp_bind. eapply wp_mono; [apply (inode_block_data_ok s l i x off Hidle Hx); [lia..|]|].
  { intros. apply Hsi. lia. }
  intros r s1 (-> & l1 & Hev1 & Hid1). rewrite <-(ev_disk _ _ _ _ Hev1) in *. cbn iota.
  apply wp_bind. eapply wp_mono; [apply (fiu_request_ok s1 l1); [done|]|].
  { apply Hod; [apply Z.div_pos; lia|]. pose proof (Z.mul_div_le off bs ltac:(lia)). lia. }
  intros r s2 (l2 & Hev2 & Hh2 & Hr0 & Hby & Hra). rewrite (proj2 (Z.eqb_neq r 0)) by done.
  assert (block_size s2 = bs) as Eb2 by (by destruct Hh2 as [[? _] _]).
  assert (0 <= bs / 4 <= 16384) by (Z.div_mod_to_equations; lia).
  assert (file_size < 2 ^ 64) by (unfold max_file in Hmax; nia).
  apply wp_bind, wp_get. rewrite Eb2, !u64_small, s32_small by lia.
  set (rs := MIN3 _ _ _) in *. rewrite !(u32_small rs), !(u32_small (_ + rs)) by lia.
  rewrite u64_small by lia.
  apply (copy_block s2 l2 _ r _ _ rs _ Q Hh2 Hby Hra); [apply disk_block_char, disk_char|apply disk_block_length|lia| |].
  { eapply (buffer_writes data 0 s l); [|by eapply evolves_writes, evolves_trans|by left].
    destruct Hbuf as [Hw Hout]. split; [intros p Hp; apply Hw; lia|intros p Hp; apply Hout; lia]. }
  intros s3 l3 Hwr3 Hid3 Hby3.
  assert (writes data rs s l s3 l3) as Hwr.
  { replace rs with (0 + rs) by lia. eapply (writes_trans data 0 rs); [lia..| |].
    - by eapply evolves_writes, evolves_trans.
    - by rewrite Z.add_0_r. }
  destruct (wr_fs _ _ _ _ _ _ Hwr) as [c Ec]. pose proof (wr_disk _ _ _ _ _ _ Hwr) as Hdk.
  set (n' := Z.max 0 (Z.min (req_size - (size + rs)) (file_size - (off + rs)))).
  assert (n = rs + n') as En by lia. rewrite En in *.
  rewrite (ev_disk _ _ _ _ Hev1) in *.
  apply (IH s3 l3 (off + rs) (data + rs) (size + rs)); try lia; try done; fold n'.
  - by rewrite Ec.
  - by rewrite Ec.
  - by rewrite Hdk.
  - eapply (buffer_writes data rs s l); [|done|lia].
    destruct Hbuf as [Hw Hout]. split; intros p Hp; [apply Hw|apply Hout]; lia.
  - intros s4 l4 Hwr4 Hid4 Hby4. rewrite <-Z.add_assoc. apply (HQ s4 l4); [by eapply writes_trans; [lia..| |]|done|].
    rewrite file_range_app by lia. apply bytes_at_app. rewrite file_range_length, Z2Nat.id by lia.
    rewrite Hdk in Hby4. split; [|done]. rewrite file_range_block by (done || lia).
    apply (bytes_at_kept (fmem s3)); [done|]. intros p Hp. rewrite length_take in Hp.
    apply (wr_mem _ _ _ _ _ _ Hwr4); [|lia]. eapply outside_perm; [apply Hwr|]. apply Hbuf. lia.
Qed.

(** The driver between two requests, with no block in use. *)
Definition fs_ok (view : Z -> list Z) s l : Prop := idle s l /\ icache_ok view s.

(** There is no room for the inode in the table. *)
Definition table_full s (n : Z) : Prop :=
  Forall (fun x => ci_inode x <> n /\ ci_inode x <> 0 /\ ci_refs x <> 0) (inode_cache s).

(** The driver works on the same disk with the same inodes in use. *)
Definition served s s' : Prop :=
  disk (fdev s') = disk (fdev s) /\ block_size s' = block_size s /\ sb s' = sb s /\ grp_table s' = grp_table s /\
  forall m, m <> 0 -> irefs (inode_cache s') m = irefs (inode_cache s) m.

(** The inode [n] was taken; it is in slot [i]. *)
Record taken (view : Z -> list Z) s l (n : Z) (i : nat) s' : Prop := {
  tk_idle : idle s' l;
  tk_icache : icache_ok view s';
  tk_mem : fmem s' = fmem s;
  tk_fs : disk (fdev s') = disk (fdev s) /\ sb s' = sb s /\ grp_table s' = grp_table s;
  tk_slot : exists x, inode_cache s' !! i = Some x /\ ci_raw x = view n;
  tk_refs : irefs (inode_cache s') n = irefs (inode_cache s) n + 1;
  tk_others : forall m, m <> 0 -> m <> n -> irefs (inode_cache s') m = irefs (inode_cache s) m;
}.

Lemma take_inode view s l n :
  fs_ok view s l -> valid_inode s n -> irefs (inode_cache s) n < 2 ^ 31 - 1 ->
  wp (ext2_icache_request n) s (fun r s' =>
    match r with None => s' = s /\ table_full s n | Some i => taken view s l n i s' end).
Proof.
  intros [Hidle Hic] Hv Hr. pose proof Hidle as [(Eb & _) _].
  eapply wp_mono; [by apply icache_request_ok|]. intros [i|] s' [Hsame Hq]; [|exact Hq].
  destruct Hq as (Hic' & (x & Hx & _ & Hxr) & Hri & Ho). pose proof (cache_inv_icache _ _ _ Hsame Hidle) as Hidle'.
  destruct Hsame as (t & d & -> & Hd). split; try done. by exists x.
Qed.

Lemma irefs_nonneg view s n : icache_ok view s -> 0 <= irefs (inode_cache s) n.
Proof.
  intros Hic. destruct (irefs_cases (inode_cache s) n) as [(j & y & Hj & _ & ->)|[_ ->]]; [|done].
  apply (ic_refs _ _ Hic j y Hj).
Qed.

Lemma give_back view s l n i s1 c l2 :
  fs_ok view s l -> valid_inode s n -> irefs (inode_cache s) n < 2 ^ 31 - 1 -> taken view s l n i s1 ->
  disk (dev c) = disk (fdev s) -> idle (set_fcache c s1) l2 ->
  wp (ext2_icache_release n) (set_fcache c s1) (fun _ s' =>
    fs_ok view s' l2 /\ served s s' /\ fmem s' = mem c).
Proof.
  intros [Hidle Hic] Hv Hr [Hidle1 Hic1 Hm1 (Hd1 & Hsb1 & Hg1) _ Hri Ho] Hd Hidle2.
  pose proof (irefs_nonneg view s n Hic) as Hr0.
  eapply wp_mono; [apply (icache_release_ok view)|].
  - apply icache_ok_fcache; [congruence|done].
  - destruct Hv as [? _]. lia.
  - simpl. lia.
  - destruct (ic_disk _ _ Hic n Hv) as [?|Hvd]; [left; simpl; lia|right].
    rewrite Hvd. unfold disk_inode, inode_off. simpl. rewrite Hsb1, Hg1.
    change (fdev (set_fcache c s1)) with (dev c). by rewrite Hd.
  - intros _ s' (Hsame & Hic' & Hri' & Ho'). pose proof (cache_inv_icache _ _ _ Hsame Hidle2) as Hidle'.
    destruct Hsame as (t & d & -> & Hd'). split; [done|]. split; [|done].
    destruct Hidle as [[Eb _] _], Hidle1 as [[Eb1 _] _].
    split_and!; [by rewrite <-Hd|simpl; congruence|done..|].
    intros m Hm. destruct (decide (m = n)) as [->|Hne]; [simpl in *; lia|]. rewrite Ho' by done. by apply Ho.
Qed.

(** ** Names in directories *)

Lemma set_fmem_same s : set_fmem (fmem s) s = s.
Proof. by destruct s as [[]]. Qed.

(** The test of a name that is not terminated against a string. *)
Lemma name_test {A} s a b nm t (K : bool -> M (ext2fs D U) A) Q :
  bytes_at (fmem s) a nm -> is_string nm -> cstr (fmem s) b t -> Z.of_nat (length nm) < 2 ^ 32 ->
  Z.of_nat (length t) < 2 ^ 32 -> wp (K (bool_decide (nm = t))) s Q ->
  wp (let! cmp := memory (LibcString.strncmp a b (Z.of_nat (length nm))) in
      let! m := memory get in
      let! len := (if cmp =? 0 then memory (LibcString.strlen (S (size m)) b) else ret 0) in
      K ((cmp =? 0) && (len =? Z.of_nat (length nm)))) s Q.
Proof.
  intros Ha Hs Hb Hn Ht HQ. apply wp_bind, wp_zoom. unfold LibcString.strncmp, KString.strncmp.
  rewrite u32_small, Nat2Z.id by lia. eapply wp_mono; [by apply strncmp_prefix|]. intros r m' [-> Hr].
  rewrite set_fmem_same. apply wp_bind, wp_zoom, wp_get. rewrite set_fmem_same. apply wp_bind.
  destruct (Z.eqb_spec r 0) as [Hz|Hz].
  - apply wp_zoom. eapply wp_mono; [by apply strlen_ok|]. intros n m' [-> ->]. rewrite set_fmem_same. simpl.
    apply Hr in Hz. destruct (Z.eqb_spec (Z.of_nat (length t)) (Z.of_nat (length nm))) as [Hl|Hl].
    + rewrite bool_decide_eq_true_2 in HQ; [done|]. apply prefix_length_eq; [done|lia].
    + rewrite bool_decide_eq_false_2 in HQ; [done|]. congruence.
  - apply wp_ret. simpl. rewrite bool_decide_eq_false_2 in HQ; [done|]. intros ->. apply Hz, Hr. done.
Qed.

(** The entry at [o] of a block. *)
Record entry_at (blk : list Z) (o ino sz : Z) (name : list Z) : Prop := {
  ea_ino : le32 blk o = ino;
  ea_size : le16 blk (o + 4) = sz;
  ea_len : byte_at blk (o + 6) = Z.of_nat (length name);
  ea_name : take (length name) (drop (Z.to_nat (o + 8)) blk) = name;
  ea_string : is_string name;
  ea_fits : 8 + Z.of_nat (length name) <= sz;
  ea_block : o + sz <= Z.of_nat (length blk);
}.

(** The entries of a directory from an offset to its end; no entry crosses the end
    of a block. *)
Inductive directory (b c : list Z) : Z -> list (Z * list Z) -> Prop :=
  | directory_end : directory b c (lower_size c) []
  | directory_entry off ino sz name rest :
      0 <= off ->
      entry_at (disk_block b (block_ptr b c (off / bs))) (off mod bs) ino sz name ->
      directory b c (off + sz) rest ->
      directory b c off ((ino, name) :: rest).

(** The inode of the first entry with a name, 0 if there is none. *)
Fixpoint find_name (name : list Z) (entries : list (Z * list Z)) : Z :=
  match entries with
  | [] => 0
  | (ino, n) :: entries => if bool_decide (n = name) then ino else find_name name entries
  end.

Lemma directory_le b c off es : directory b c off es -> off <= lower_size c /\ (es <> [] -> off < lower_size c).
Proof. induction 1 as [|off ino sz name rest Ho He Hr [IH _]]; [done|]. destruct He. split; lia. Qed.

(** The string [nm] is at [name], apart from the cache. *)
Definition string_at s l (name : Z) (nm : list Z) : Prop :=
  cstr (fmem s) name nm /\ Z.of_nat (length nm) < 2 ^ 32 /\
  forall p, name <= p <= name + Z.of_nat (length nm) -> outside (len := bs) l p.

Lemma string_at_evolves s l s' l' name nm : evolves s l s' l' -> string_at s l name nm -> string_at s' l' name nm.
Proof.
  intros [_ _ Ha Hm] ((Hb & Hs) & Hl & Ho). split_and!; [split; [|done]|done|].
  - apply (bytes_at_kept (fmem s)); [done|]. intros p Hp. rewrite length_app in Hp. simpl in Hp. apply Hm, Ho. lia.
  - intros p Hp. eapply outside_perm; [done|]. apply Ho. lia.
Qed.

(** The offset behind an entry. *)
Lemma next_entry off sz : 0 <= off -> 0 <= sz -> off mod bs + sz <= bs ->
  if off mod bs + sz >=? bs then (off + sz) mod bs = 0
  else (off + sz) / bs = off / bs /\ (off + sz) mod bs = off mod bs + sz.
Proof using Hbs.
  intros Ho Hs Hle. pose proof (Z.div_mod off bs ltac:(lia)) as E. pose proof (Z.mod_pos_bound off bs ltac:(lia)).
  rewrite Z.geb_leb. destruct (Z.leb_spec bs (off mod bs + sz)).
  - replace (off + sz) with ((off / bs + 1) * bs) by lia. by apply Z.mod_mul; lia.
  - replace (off + sz) with (off mod bs + sz + off / bs * bs) by lia. rewrite Z.div_add, Z.mod_add by lia.
    rewrite Z.div_small, (Z.mod_small (_ + sz)) by lia. lia.
Qed.

Lemma bytes_at_sub (m : bmem) a blk k (en : list Z) :
  bytes_at m a blk -> 0 <= k <= Z.of_nat (length blk) -> take (length en) (drop (Z.to_nat k) blk) = en -> bytes_at m (a + k) en.
Proof.
  intros Hb Hk He. rewrite <-(take_drop (Z.to_nat k) blk) in Hb. apply bytes_at_app in Hb as [_ Hb].
  rewrite <-(take_drop (length en) (drop (Z.to_nat k) blk)), He in Hb. apply bytes_at_app in Hb as [Hb _].
  rewrite length_take in Hb. replace (a + k) with (a + Z.of_nat (Z.to_nat k `min` length blk)) by lia. done.
Qed.

(** The directory [c] can be read. *)
Record readable_dir s (c : list Z) : Prop := {
  rd_size : large_size (sb s) c = false;
  rd_max : lower_size c < max_file;
  rd_disk : file_on_disk (disk (fdev s)) c (lower_size c + 1);
}.

Lemma readable_dir_evolves s l s' l' c : evolves s l s' l' -> readable_dir s c -> readable_dir s' c.
Proof. intros [[c' ->] Hd _ _] [? ? ?]. split; try done. by rewrite Hd. Qed.

(** The block of a directory at an offset. *)
Lemma block_at {A} s l i x off (e1 e0 : M (ext2fs D U) A) (K : Z -> Z -> M (ext2fs D U) A) Q :
  idle s l -> inode_cache s !! i = Some x -> readable_dir s (ci_raw x) -> 0 <= off <= lower_size (ci_raw x) ->
  let n := block_ptr (disk (fdev s)) (ci_raw x) (off / bs) in
  (forall s' l' blk, evolves s l s' l' -> holding s' l' n blk -> blk <> 0 ->
    bytes_at (fmem s') blk (disk_block (disk (fdev s)) n) -> wp (K n blk) s' Q) ->
  wp (let! b := inode_block_data i off in
      match b with
      | None => e1
      | Some n => let! blk := fiu_request n in if blk =? 0 then e0 else K n blk
      end) s Q.
Proof using Hbs Hbs4.
  intros Hid Hx [Hls Hmax [Hsi Hod]] Ho n HK. apply wp_bind. eapply wp_mono; [apply (inode_block_data_ok s l i x off Hid Hx)|].
  - unfold inode_size. by rewrite Hls.
  - lia.
  - intros. apply Hsi. lia.
  - intros r s1 (-> & l1 & Hev1 & Hid1). cbn iota. apply wp_bind.
    eapply wp_mono; [apply (fiu_request_ok s1 l1); [done|rewrite (ev_disk _ _ _ _ Hev1)]|].
    { apply Hod; [apply Z.div_pos; lia|]. pose proof (Z.mul_div_le off bs ltac:(lia)). lia. }
    intros blk s2 (l2 & Hev2 & Hh2 & Hb0 & Hby & _). rewrite (proj2 (Z.eqb_neq blk 0)) by done.
    rewrite (ev_disk _ _ _ _ Hev1) in Hby. apply (HK s2 l2); [by eapply evolves_trans|done..].
Qed.

Lemma find_loop_ok i x name nm entries : forall offset fuel s l block num,
  directory (disk (fdev s)) (ci_raw x) offset entries -> (length entries <= fuel)%nat ->
  holding s l num block -> (offset < lower_size (ci_raw x) -> num = block_ptr (disk (fdev s)) (ci_raw x) (offset / bs)) ->
  bytes_at (fmem s) block (disk_block (disk (fdev s)) num) -> string_at s l name nm -> inode_cache s !! i = Some x ->
  readable_dir s (ci_raw x) ->
  wp (find_loop fuel i name block num offset (offset mod bs)) s (fun r s' =>
    r = find_name nm entries /\ exists l', evolves s l s' l' /\ idle s' l').
Proof using Hbs Hbs4.
  induction entries as [|[ino en] es IH]; intros offset fuel s l block num Hdir Hf Hh Hnum Hby Hstr Hx Hrd.
  - inversion Hdir; subst. destruct fuel; simpl; apply wp_bind; (eapply wp_raw; [done|]); rewrite Z.ltb_irrefl;
      apply wp_bind; (eapply wp_mono; [by eapply fiu_release_ok|]); intros _ s' (l' & Hev & Hid & _); apply wp_ret; eauto.
  - destruct fuel as [|fuel]; [simpl in Hf; lia|]. simpl in Hf. pose proof (directory_le _ _ _ _ Hdir) as [_ Hlt].
    specialize (Hlt ltac:(done)). specialize (Hnum Hlt). inversion Hdir as [|? ? sz ? ? Hoff He Hrest]; subst.
    cbn [find_loop]. apply wp_bind. eapply wp_raw; [done|]. rewrite (proj2 (Z.ltb_lt _ _)) by done.
    pose proof (Z.mod_pos_bound offset bs ltac:(lia)) as Hmod. pose proof He as [Ei Es El En Hen Hfit Hblk].
    rewrite disk_block_length in Hblk. rewrite <-Z.add_assoc.
    apply wp_bind, wp_zoom. eapply wp_load16; [done|lia|rewrite disk_block_length; lia|]. rewrite set_fmem_same, Es.
    apply wp_bind, wp_get. pose proof (proj1 (proj1 Hh)) as Eb. rewrite Eb.
    rewrite u32_small by lia. rewrite Z.gtb_ltb, (proj2 (Z.ltb_ge _ _)) by lia.
    rewrite <-Z.add_assoc. apply wp_bind, wp_zoom. eapply wp_load8; [done|rewrite disk_block_length; lia|].
    rewrite set_fmem_same, El. destruct Hstr as (Hcs & Hnl & Hno) eqn:Ehs.
    apply (name_test s (block + offset mod bs + sizeof_dirent) name en nm
      (fun t => if t then _ else _)); [|done|done|lia|done|].
    { rewrite <-Z.add_assoc. apply (bytes_at_sub _ _ _ _ _ Hby); [rewrite disk_block_length; unfold sizeof_dirent; lia|done]. }
    simpl find_name. case_bool_decide.
    + apply wp_bind, wp_zoom. eapply wp_load32; [done|lia|rewrite disk_block_length; lia|]. rewrite set_fmem_same, Ei.
      apply wp_bind. eapply wp_mono; [by eapply fiu_release_ok|]. intros _ s' (l' & Hev & Hid & _). apply wp_ret. eauto.
    + pose proof (directory_le _ _ _ _ Hrest) as [Hle _]. pose proof (le32_range (ci_raw x) 4). fold (lower_size (ci_raw x)) in *.
      pose proof (next_entry offset sz Hoff ltac:(lia) Hblk) as Hnext. rewrite !u32_small by lia.
      destruct (_ >=? bs).
      * apply wp_bind. eapply wp_mono; [by eapply fiu_release_ok|]. intros _ s1 (l1 & Hev1 & Hid1 & Hm1).
        pose proof (ev_disk _ _ _ _ Hev1) as Hd1. destruct (ev_fs _ _ _ _ Hev1) as [c1 E1].
        eapply (block_at s1 l1 i x); [done|by rewrite E1|by eapply readable_dir_evolves|lia|].
        intros s2 l2 blk Hev2 Hh2 _ Hby2. pose proof (ev_disk _ _ _ _ Hev2) as Hd2. destruct (ev_fs _ _ _ _ Hev2) as [c2 E2].
        pose proof (evolves_trans _ _ _ _ _ _ Hev1 Hev2) as Hev.
        eapply wp_mono; [apply (IH (offset + sz) fuel s2 l2)|]; rewrite ?Hd2, ?Hd1; try done; try lia.
        -- by rewrite <-Hd1.
        -- by rewrite <-Hd1.
        -- by eapply string_at_evolves.
        -- by rewrite E2, E1.
        -- by eapply readable_dir_evolves.
        -- intros r s3 (-> & l3 & Hev3 & Hid3). split; [done|]. exists l3. split; [by eapply evolves_trans|done].
      * destruct Hnext as [Ed Em]. rewrite <-Em. apply IH; try done; [lia|]. by rewrite Ed.
Qed.

Lemma find_in_dir_ok i x name nm entries fuel s l :
  idle s l -> inode_cache s !! i = Some x -> readable_dir s (ci_raw x) -> string_at s l name nm ->
  directory (disk (fdev s)) (ci_raw x) 0 entries -> (length entries <= fuel)%nat ->
  wp (inode_find_in_dir fuel i name) s (fun r s' =>
    r = find_name nm entries /\ exists l', evolves s l s' l' /\ idle s' l').
Proof using Hbs Hbs4.
  intros Hid Hx Hrd Hstr Hdir Hf. unfold inode_find_in_dir. pose proof (directory_le _ _ _ _ Hdir) as [Hle _].
  eapply (block_at s l i x); [done..|lia|]. intros s1 l1 blk Hev Hh _ Hby.
  pose proof (ev_disk _ _ _ _ Hev) as Hd. destruct (ev_fs _ _ _ _ Hev) as [c E].
  pose proof (find_loop_ok i x name nm entries 0 fuel s1 l1 blk (block_ptr (disk (fdev s)) (ci_raw x) (0 / bs))) as HL.
  rewrite Z.mod_0_l in HL by lia. eapply wp_mono; [apply HL|]; rewrite ?Hd; try done.
  - by eapply string_at_evolves.
  - by rewrite E.
  - by eapply readable_dir_evolves.
  - intros r s3 (-> & l3 & Hev3 & Hid3). split; [done|]. exists l3. split; [by eapply evolves_trans|done].
Qed.

(** What the loop of [ext2fs_getdirent] finds for the entry number [k] of [entries]. *)
Definition dirent_found s l (entries : list (Z * list Z)) (k : nat) (res : Z * option (Z * Z)) s' : Prop :=
  exists l' num blk, evolves s l s' l' /\ holding s' l' num blk /\
  match entries !! k with
  | Some (ino, name) => exists o sz, res = (DIR_OK, Some (num, blk + o)) /\ 0 <= o /\
      bytes_at (fmem s') blk (disk_block (disk (fdev s)) num) /\ entry_at (disk_block (disk (fdev s)) num) o ino sz name
  | None => res = (DIR_END, Some (num, 0))
  end.

Lemma dirent_found_evolves s l s1 l1 e entries k res s' :
  evolves s l s1 l1 -> dirent_found s1 l1 entries k res s' -> dirent_found s l (e :: entries) (S k) res s'.
Proof.
  intros Hev (l' & num & blk & Hev' & Hh & Hres). rewrite (ev_disk _ _ _ _ Hev) in Hres.
  exists l', num, blk. split; [by eapply evolves_trans|]. by split.
Qed.

Lemma getdirent_loop_ok i x entries : forall offset fuel s l block num (k : nat) n,
  directory (disk (fdev s)) (ci_raw x) offset entries -> entries <> [] -> (length entries <= fuel)%nat ->
  holding s l num block -> num = block_ptr (disk (fdev s)) (ci_raw x) (offset / bs) ->
  bytes_at (fmem s) block (disk_block (disk (fdev s)) num) -> inode_cache s !! i = Some x ->
  readable_dir s (ci_raw x) ->
  wp (getdirent_loop fuel i (n + Z.of_nat k) n offset (offset mod bs) block num) s
    (dirent_found s l entries k).
Proof using Hbs Hbs4.
  induction entries as [|[ino en] es IH]; intros offset fuel s l block num k n Hdir Hne Hf Hh -> Hby Hx Hrd; [done|].
  destruct fuel as [|fuel]; [simpl in Hf; lia|]. simpl in Hf. inversion Hdir as [|? ? sz ? ? Hoff He Hrest]; subst.
  pose proof (Z.mod_pos_bound offset bs ltac:(lia)) as Hmod.
  cbn [getdirent_loop]. destruct k as [|k].
  - rewrite Z.add_0_r, Z.eqb_refl. apply wp_ret. eexists l, _, _. split; [apply evolves_refl|]. split; [done|].
    exists (offset mod bs), sz. split_and!; [done|lia|done..].
  - rewrite (proj2 (Z.eqb_neq n _)) by lia. pose proof He as [Ei Es El En Hen Hfit Hblk].
    rewrite disk_block_length in Hblk. rewrite <-Z.add_assoc.
    apply wp_bind, wp_zoom. eapply wp_load16; [done|lia|rewrite disk_block_length; lia|]. rewrite set_fmem_same, Es.
    pose proof (directory_le _ _ _ _ Hrest) as [Hle Hlt]. pose proof (le32_range (ci_raw x) 4).
    fold (lower_size (ci_raw x)) in *. rewrite !u32_small by lia. apply wp_bind. eapply wp_raw; [done|].
    rewrite Z.geb_leb. destruct (Z.leb_spec (lower_size (ci_raw x)) (offset + sz)).
    + apply wp_ret. eexists l, _, _. split; [apply evolves_refl|]. split; [done|].
      destruct es as [|e es]; [done|]. specialize (Hlt ltac:(done)). lia.
    + assert (es <> []) as Hes by (inversion Hrest; [lia|done]).
      pose proof (next_entry offset sz Hoff ltac:(lia) Hblk) as Hnext.
      apply wp_bind, wp_get. pose proof (proj1 (proj1 Hh)) as Eb. rewrite Eb.
      replace (n + Z.of_nat (S k)) with (n + 1 + Z.of_nat k) by lia. destruct (_ >=? bs).
      * apply wp_bind. eapply wp_mono; [by eapply fiu_release_ok|]. intros _ s1 (l1 & Hev1 & Hid1 & Hm1).
        pose proof (ev_disk _ _ _ _ Hev1) as Hd1. destruct (ev_fs _ _ _ _ Hev1) as [c1 E1].
        eapply (block_at s1 l1 i x); [done|by rewrite E1|by eapply readable_dir_evolves|lia|].
        intros s2 l2 blk Hev2 Hh2 _ Hby2. pose proof (ev_disk _ _ _ _ Hev2) as Hd2. destruct (ev_fs _ _ _ _ Hev2) as [c2 E2].
        pose proof (evolves_trans _ _ _ _ _ _ Hev1 Hev2) as Hev.
        eapply wp_mono; [apply (IH (offset + sz) fuel s2 l2)|]; rewrite ?Hd2, ?Hd1; try done; try lia.
        -- by rewrite <-Hd1.
        -- by rewrite <-Hd1.
        -- by rewrite E2, E1.
        -- by eapply readable_dir_evolves.
        -- intros r s3. by apply dirent_found_evolves.
      * destruct Hnext as [Ed Em]. rewrite <-Em. eapply wp_mono; [apply IH; try done; [lia|by rewrite Ed]|].
        intros r s3. apply dirent_found_evolves, evolves_refl.
Qed.
End inv.
End Ext2Inv.
