(* ===== verification/Ext2Spec.v ===== *)
(** What the ext2 driver promises, and a small file system.

    [ext2fs_read] is compared with the bytes of the file on the disk.  The sample is
    a disk with blocks of eight bytes that holds one directory and one file; the
    same disk shows what the driver does with requests that do not start on a
    block, or that end inside a later one. *)

From S2P Require Import Prelude KString Malloc BlockCache Ext2 Ext2Inv.

Module Ext2Spec.
Import BlockCache Ext2 Ext2Inv.

Section spec.
Context {D U : Type} `{UDevice D} (bs : Z) (Hbs : 4 <= bs <= 65536).
Implicit Types (s : ext2fs D U) (l : list (Z * slot)).


(** C20: A name is looked up in a directory by going through the entries the
    directory has on the disk: the result is the inode of the first entry with that
    name, and 0 when there is none.  No block stays in use.  The directory is smaller than
    [12 + bs / 4] blocks, and its blocks are on the disk, the one behind its last byte
    included, which the driver asks for at the end. *)
Theorem inode_find_in_dir_finds s l i x name nm entries fuel :
  bs mod 4 = 0 ->
  idle bs Hbs s l -> inode_cache s !! i = Some x -> readable_dir bs s (ci_raw x) ->
  string_at bs s l name nm -> directory bs (disk (fdev s)) (ci_raw x) 0 entries -> (length entries <= fuel)%nat ->
  wp (inode_find_in_dir fuel i name) s (fun r s' =>
    r = find_name nm entries /\ exists l', evolves bs s l s' l' /\ idle bs Hbs s' l').
Proof. intros. by eapply find_in_dir_ok. Qed.

Lemma mapM_bytes (m : bmem) a nm : bytes_at m a nm ->
  mapM (fun k => m !! (a + Z.of_nat k)) (seq 0 (length nm)) = Some nm.
Proof.
  intros Hb. apply mapM_Some_2, Forall2_same_length_lookup_2; [by rewrite length_seq|].
  intros j k c Hj Hc. apply lookup_seq in Hj as [-> Hj]. simpl. by rewrite (bytes_at_lookup m a nm).
Qed.

(** The answer for an entry. *)
Definition dirent_answer (e : option (Z * list Z)) : Z * Z * list Z :=
  match e with Some (ino, name) => (DIR_OK, ino, name) | None => (DIR_END, 0, []) end.

Lemma dirent_result s l entries k r e s1 :
  dirent_found bs Hbs s l entries k (r, e) s1 ->
  wp (match e with
      | Some (data_block, ext2_dir) =>
          let! res :=
            (if r =? DIR_OK then
               let! ino := memory (load32 ext2_dir) in
               let! n := memory (load8 (ext2_dir + 6)) in
               let! m := memory get in
               match mapM (fun k => m !! (ext2_dir + sizeof_dirent + Z.of_nat k)) (seq 0 (Z.to_nat n)) with
               | Some name => ret (r, ino, name)
               | None => undef
               end
             else ret (r, 0, [])) in
          fiu_release data_block ;;;
          ret res
      | None => ret (r, 0, [])
      end) s1 (fun res s' => res = dirent_answer (entries !! k) /\ exists l', evolves bs s l s' l' /\ idle bs Hbs s' l').
Proof.
  intros (l1 & num & blk & Hev & Hh & Hm). destruct (entries !! k) as [[ino name]|] eqn:E; simpl.
  - destruct Hm as (o & sz & [= -> ->] & Ho & Hby & [Ei Es El En Hen Hfit Hblk]). apply wp_bind. simpl.
    apply wp_bind, wp_zoom. eapply wp_load32; [done|lia..|]. rewrite set_fmem_same, Ei.
    apply wp_bind, wp_zoom. rewrite <-Z.add_assoc. eapply wp_load8; [done|lia..|]. rewrite set_fmem_same, El.
    apply wp_bind, wp_zoom, wp_get. rewrite set_fmem_same, Nat2Z.id. unfold sizeof_dirent.
    rewrite mapM_bytes by (rewrite <-Z.add_assoc; apply (bytes_at_sub _ _ _ _ _ Hby); [lia|done]).
    apply wp_ret, wp_bind. eapply wp_mono; [by eapply fiu_release_ok|]. intros _ s2 (l2 & Hev2 & Hid2 & _).
    apply wp_ret. split; [done|]. exists l2. split; [by eapply evolves_trans|done].
  - injection Hm as -> ->. apply wp_bind, wp_ret, wp_bind. eapply wp_mono; [by eapply fiu_release_ok|].
    intros _ s2 (l2 & Hev2 & Hid2 & _). apply wp_ret. split; [done|]. exists l2. split; [by eapply evolves_trans|done].
Qed.

(** C22: [ext2fs_getdirent] lists the directory: for the index [k] it answers with
    the inode and the name of the [k]th entry, and with the end of the directory for
    an index behind the last one.  It leaves no block in use and every inode in use
    as often as before.  It fails only when the table of inodes is full.  The directory is
    as for the search by name, and not empty. *)
Theorem ext2fs_getdirent_lists view s l inode index entries fuel :
  bs mod 4 = 0 ->
  fs_ok bs Hbs view s l -> valid_inode bs s inode -> irefs (inode_cache s) inode < 2 ^ 31 - 1 ->
  readable_dir bs s (view inode) -> directory bs (disk (fdev s)) (view inode) 0 entries -> entries <> [] ->
  (length entries <= fuel)%nat -> 0 <= index ->
  wp (ext2fs_getdirent fuel inode index) s (fun res s' =>
    (res.1.1 = -1 /\ s' = s /\ table_full s inode) \/
    (res = dirent_answer (entries !! Z.to_nat index) /\ served s s' /\ exists l', fs_ok bs Hbs view s' l')).
Proof.
  intros Hbs4 Hok Hv Hr Hrd Hdir Hne Hf Hi. unfold ext2fs_getdirent. rewrite (proj2 (Z.ltb_ge _ 0)) by done.
  apply wp_bind. eapply wp_mono; [by apply (take_inode bs Hbs view s l)|].
  intros [i|] s1 Htk; [|apply wp_ret; left; by destruct Htk].
  pose proof Htk as [Hidle1 _ Hm1 (Hdk1 & Hsb1 & _) (x & Hx & Hxr) _ _].
  pose proof (directory_le _ _ _ _ _ Hdir) as [Hle _].
  assert (readable_dir bs s1 (ci_raw x)) as Hrd1 by (destruct Hrd; split; rewrite ?Hxr, ?Hdk1, ?Hsb1; done).
  eapply (block_at bs Hbs Hbs4 s1 l i x); [done..|rewrite Hxr; lia|].
  intros s2 l2 blk Hev2 Hh2 _ Hby2. pose proof (ev_disk _ _ _ _ _ Hev2) as Hd2. destruct (ev_fs _ _ _ _ _ Hev2) as [c2 E2].
  pose proof (getdirent_loop_ok bs Hbs Hbs4 i x entries 0 fuel s2 l2 blk
    (block_ptr bs (disk (fdev s1)) (ci_raw x) (0 / bs)) (Z.to_nat index) 0) as HL.
  rewrite Z.mod_0_l, Z.add_0_l, Z2Nat.id in HL by lia.
  apply wp_bind. eapply wp_mono; [apply HL|].
  { by rewrite Hd2, Hdk1, Hxr. }
  1-3: done.
  1-2: by rewrite Hd2.
  { by rewrite E2. }
  { by eapply readable_dir_evolves. }
  intros [r e] s3 Hfound. apply wp_bind. eapply wp_mono; [by apply (dirent_result s2 l2 entries)|].
  intros res s4 (-> & l4 & Hev4 & Hid4). pose proof (evolves_trans _ _ _ _ _ _ _ Hev2 Hev4) as Hev.
  pose proof (ev_disk _ _ _ _ _ Hev) as Hd. destruct (ev_fs _ _ _ _ _ Hev) as [c E]. subst s4.
  apply wp_bind. eapply wp_mono; [apply (give_back bs Hbs view s l inode i s1 c l4 Hok Hv Hr Htk); [by rewrite <-Hdk1|done]|].
  intros _ s5 (Hok5 & Hsv & _). apply wp_ret. right. eauto.
Qed.
End spec.

(** ** A disk of sixteen blocks

    The table of inodes starts at block 1 and has inode 2, a directory, and inode 3,
    a file of 40 bytes.  The directory is in block 13, the file in blocks 14 and 15. *)

Definition zeros (n : nat) : list Z := replicate n 0.
Definition sample_inode (mode size ptr0 ptr1 : Z) : list Z :=
  le_bytes 2 mode ++ zeros 2 ++ le_bytes 4 size ++ zeros 32 ++ le_bytes 4 ptr0 ++ le_bytes 4 ptr1 ++ zeros 80.
Definition sample_dirent (ino sz : Z) (name : list Z) (pad : nat) : list Z :=
  le_bytes 4 ino ++ le_bytes 2 sz ++ [Z.of_nat (length name); 0] ++ name ++ zeros pad.
Definition sample_file : list Z := Z.of_nat <$> seq 1 40.

Definition sample_disk : list Z :=
  zeros 32 ++ zeros 128 ++ sample_inode 16877 32 13 0 ++ sample_inode 33188 40 14 15 ++
  sample_dirent 2 12 [46] 3 ++ sample_dirent 3 20 [97; 98] 10 ++ sample_file ++ zeros 24.

Definition sample_lseek (off whence : Z) : M Z Z := fun p =>
  Done (0, if whence =? SEEK_SET then off else p + off).
Definition sample_read (n : Z) : M Z (Z * list Z) := fun p =>
  let b := take (Z.to_nat n) (drop (Z.to_nat p) sample_disk) in
  Done ((Z.of_nat (length b), b), p + Z.of_nat (length b)).

#[export] Instance sample_device : UDevice Z.
Proof.
  refine {| lseek := sample_lseek; dread := sample_read; disk _ := sample_disk; pos p := p |}.
  - intros _. apply (bool_decide_unpack _). by vm_compute.
  - by vm_compute.
  - done.
  - done.
Defined.

Lemma sample_bs : 4 <= 32 <= 65536.
Proof. lia. Qed.

(** A cache of two slots at 1000, a name at 2000 and a buffer at 2100. *)
Definition sample_slot (next prev block : Z) : fiu_block :=
  {| block_num := NO_BLOCK; ref_count := 0; BlockCache.block := block; BlockCache.next := next; BlockCache.prev := prev |}.

Definition sample_memory : bmem :=
  store_bytes 1000 (zeros 104) (store_bytes 2000 [97; 98; 0] (store_bytes 2100 (zeros 64) ∅)).

Definition sample_fs : ext2fs Z unit := {|
  fcache := {| cache_size := 2; BlockCache.block_size := 32; blocks_head := 1000; blocks_tail := 1052;
    cache_lock := false; nodes := {[1000 := sample_slot 1052 0 1020; 1052 := sample_slot 0 1000 1072]};
    mem := sample_memory; dev := 0 |};
  block_size := 32;
  inode_cache := replicate 2 {| ci_inode := 0; ci_refs := 0; ci_raw := zeros 128 |};
  sb := zeros 40 ++ le_bytes 4 8 ++ zeros 44 ++ le_bytes 2 128;
  grp_table := zeros 8 ++ le_bytes 4 1 ++ zeros 20;
  uheap := tt;
|}.

Definition sample_slots : list (Z * slot) := fresh_slots (len := 32) 2 1000.
Definition sample_view (n : Z) : list Z := disk_inode 32 sample_fs n.

Lemma sample_writable a (n : nat) :
  forallb (fun p => bool_decide (is_Some (sample_memory !! p))) (seqZ a (Z.of_nat n)) = true -> writable sample_memory a n.
Proof.
  intros Hf p Hp. rewrite forallb_forall in Hf. specialize (Hf p). rewrite bool_decide_eq_true in Hf. apply Hf.
  apply list_elem_of_In, elem_of_seqZ. lia.
Qed.

Lemma sample_cache_ok : idle 32 sample_bs sample_fs sample_slots.
Proof.
  split; [|by vm_compute]. split_and!; [done| |done]. split_and!; [done| |].
  - split; try (by vm_compute).
    + apply (bool_decide_unpack _). by vm_compute.
    + apply (bool_decide_unpack _). by vm_compute.
  - apply (fresh_slots_ok (len := 32)); [lia|lia|]. apply sample_writable. by vm_compute.
Qed.

Lemma sample_fs_ok : fs_ok 32 sample_bs sample_view sample_fs sample_slots.
Proof.
  split; [apply sample_cache_ok|]. split.
  - intros i x Hx Hn. apply lookup_replicate in Hx as [-> _]. done.
  - intros i x Hx. apply lookup_replicate in Hx as [-> _]. done.
  - intros i j x y Hx _ _ Hn. apply lookup_replicate in Hx as [-> _]. done.
  - intros n _. by right.
Qed.

Lemma sample_outside p : 1104 <= p -> outside (len := 32) sample_slots p.
Proof.
  intros Hp d Hd. apply list_elem_of_fmap in Hd as ([b x] & -> & Hb). apply (fresh_slots_elem (len := 32)) in Hb; [|lia].
  unfold slot_bytes, sizeof_fiu_block in Hb. simpl. lia.
Qed.

Lemma sample_valid n : 1 <= n <= 3 -> valid_inode 32 sample_fs n.
Proof.
  intros Hn. assert (n = 1 \/ n = 2 \/ n = 3) as [->|[->| ->]] by lia; by vm_compute.
Qed.

Lemma sample_table_room n : ~ table_full sample_fs n.
Proof. intros Hf. apply Forall_cons in Hf as [(_ & Hz & _) _]. done. Qed.

Lemma sample_file_on_disk n : n = 2 \/ n = 3 -> file_on_disk 32 sample_disk (sample_view n) 41.
Proof.
  intros Hn. split; [lia|]. intros k Hk Hlt. assert (k = 0 \/ k = 1) as [->| ->] by lia;
    destruct Hn as [->| ->]; by vm_compute.
Qed.


Definition sample_entries : list (Z * list Z) := [(2, [46]); (3, [97; 98])].

Lemma sample_directory : directory 32 sample_disk (sample_view 2) 0 sample_entries.
Proof.
  assert (lower_size (sample_view 2) = 32) as Es by by vm_compute.
  apply (directory_entry 32 _ _ 0 2 12); [lia| |apply (directory_entry 32 _ _ _ 3 20); [lia| |]].
  - split; try (by vm_compute). repeat constructor; lia.
  - split; try (by vm_compute). repeat constructor; lia.
  - change (0 + 12 + 20) with 32. rewrite <-Es. constructor.
Qed.

Lemma sample_readable s : disk (fdev s) = sample_disk -> sb s = sb sample_fs -> readable_dir (U := unit) 32 s (sample_view 2).
Proof.
  intros Hd Hs. split.
  - rewrite Hs. by vm_compute.
  - by vm_compute.
  - rewrite Hd. change (lower_size (sample_view 2)) with 32.
    split; [|intros k Hk Hlt; apply (sample_file_on_disk 2)]; [lia|by left|done|lia].
Qed.

(** The same with inode 2 in the table. *)
Definition sample_open : ext2fs Z unit :=
  set_inode_cache [{| ci_inode := 2; ci_refs := 1; ci_raw := sample_view 2 |}] sample_fs.

Lemma inode_find_in_dir_finds_witness :
  wp (inode_find_in_dir 2 0 2000) sample_open (fun r _ => r = 3).
Proof.
  eapply wp_mono; [eapply (inode_find_in_dir_finds 32 sample_bs sample_open sample_slots 0 _ 2000 [97; 98] sample_entries)|].
  - done.
  - apply (cache_inv_icache 32 sample_bs sample_fs); [|exact sample_cache_ok]. by eexists _, 0.
  - reflexivity.
  - by apply sample_readable.
  - split; [split|split; [done|]].
    + by vm_compute.
    + repeat constructor; by unfold is_char.
    + intros p Hp. apply sample_outside. lia.
  - exact sample_directory.
  - done.
  - intros r s' (-> & _). by vm_compute.
Defined.

Lemma ext2fs_getdirent_lists_witness :
  wp (ext2fs_getdirent 2 2 1) sample_fs (fun res _ => res = (DIR_OK, 3, [97; 98])) /\
  wp (ext2fs_getdirent 2 2 2) sample_fs (fun res _ => res = (DIR_END, 0, [])).
Proof.
  split; (eapply wp_mono; [eapply (ext2fs_getdirent_lists 32 sample_bs sample_view sample_fs sample_slots)|]);
    try exact sample_fs_ok; try exact sample_directory; try (apply sample_valid; lia); try (by apply sample_readable); try done.
  - intros res s' [(_ & _ & Hf)|(-> & _)]; [by apply sample_table_room in Hf|done].
  - intros res s' [(_ & _ & Hf)|(-> & _)]; [by apply sample_table_room in Hf|done].
Defined.

(** A read that starts inside a block copies from the start of the block: four
    bytes at offset 4 of the sample file are those at offset 0.  A read that ends
    inside a later block copies more than was asked for: 36 bytes are asked for and
    40 bytes are stored. *)
Theorem ext2fs_read_partial :
  wp (ext2fs_read 3 4 4 2100) sample_fs (fun res s' => res = (0, 4) /\ bytes_at (fmem s') 2100 (take 4 sample_file)) /\
  file_range 32 sample_disk (sample_view 3) 4 4 = take 4 (drop 4 sample_file) /\
  wp (ext2fs_read 3 36 0 2100) sample_fs (fun res s' => res = (0, 40) /\ bytes_at (fmem s') 2100 sample_file).
Proof. unfold wp. by vm_compute. Qed.
End Ext2Spec.
