(* ===== verification/UMem.v ===== *)
(** The memory of a process as its C code sees it: the program's data and the
    blocks of its heap, in one memory of bytes.

    [umalloc] and [ufree] are [malloc] and [free] seen from the memory: a new block
    is readable and writable for the size that was asked for and holds what the
    allocator left there ([fill]); a freed one is no longer part of the memory, so a
    later access is [Undef].  [strdup] is userland/lib/libc/src/string/strdup.c. *)

From S2P Require Import Prelude KString Malloc Stack.

(** Where the program's own data lies, apart from the blocks of the heap. *)
Class UMemory (H : Type) `{UHeap H} := {
  static : Z -> Prop;
  fill : Z -> Z;
  fill_char : forall x, is_char (fill x);
  heap_apart : forall h p n x, uheap_ok h -> ulive h !! p = Some n -> p <= x < p + n -> ~ static x;
}.

Module UMem.
Import Stack.

(** Bytes that are stored one after the other. *)
Fixpoint store_all (a : Z) (l : list Z) : M bmem unit :=
  match l with
  | [] => ret tt
  | c :: l => store a c ;;; store_all (a + 1) l
  end.

Lemma store_all_ok l : forall m a, writable m a (length l) -> Forall is_char l ->
  wp (store_all a l) m (fun _ m' => m' = store_bytes a l m).
Proof.
  induction l as [|c l IH]; intros m a Hw Hc; simpl; [by apply wp_ret|].
  apply writable_S in Hw as [Ha Hw]. apply Forall_cons in Hc as [Hc Hl]. apply wp_bind, wp_store; [done..|].
  apply IH; [by apply writable_insert|done].
Qed.

Section ops.
Context {H : Type} `{UMemory H}.

Record uproc := {
  uheap : H;
  umem : bmem;
  blocks : gmap Z Z;
}.

Definition set_uheap (h : H) (s : uproc) : uproc :=
  {| uheap := h; umem := umem s; blocks := blocks s |}.
Definition set_umem (m : bmem) (s : uproc) : uproc :=
  {| uheap := uheap s; umem := m; blocks := blocks s |}.

Definition on_umem {A} (m : M bmem A) : M uproc A := zoom umem set_umem m.

(** The bytes of a block, at its address. *)
Definition junk (p n : Z) : list Z := fill <$> seqZ p n.

Definition unmap (p n : Z) (m : bmem) : bmem := filter (fun x => ~ (p <= x.1 < p + n)) m.

Definition umalloc (size : Z) : M uproc Z :=
  let! p := zoom uheap set_uheap (malloc size) in
  if p =? 0 then ret 0
  else
    modify (fun s => {| uheap := uheap s; umem := store_bytes p (junk p size) (umem s);
                        blocks := <[p := size]> (blocks s) |}) ;;;
    ret p.

Definition ufree (p : Z) : M uproc unit :=
  if p =? 0 then ret tt
  else
    let! s := get in
    match blocks s !! p with
    | None => undef
    | Some n =>
        zoom uheap set_uheap (free p) ;;;
        modify (fun s => {| uheap := uheap s; umem := unmap p n (umem s); blocks := delete p (blocks s) |})
    end.

Definition strdup (fuel : nat) (s : Z) : M uproc Z :=
  let! len := on_umem (LibcString.strlen fuel s) in
  let! str := umalloc (u32 (len + 1)) in
  if str =? 0 then ret 0 else on_umem (LibcString.strcpy fuel str s).

(** ** Invariant *)

Record uproc_ok (s : uproc) : Prop := {
  uo_heap : uheap_ok (uheap s);
  uo_blocks : forall p n, blocks s !! p = Some n -> 0 < n /\ exists k, n <= k /\ ulive (uheap s) !! p = Some k;
  uo_mapped : forall p n, blocks s !! p = Some n -> writable (umem s) p (Z.to_nat n);
}.

Lemma uproc_start_ok h m : uheap_ok h -> uproc_ok {| uheap := h; umem := m; blocks := ∅ |}.
Proof. intros Hh. split; simpl; [done| |]; intros p n; by rewrite lookup_empty. Qed.

Definition in_block (p n x : Z) : Prop := p <= x < p + n.

(** The addresses in use: the program's data and the blocks of the heap. *)
Definition owned (s : uproc) (x : Z) : Prop :=
  static x \/ exists p n, blocks s !! p = Some n /\ in_block p n x.

(** The block at [p] is the only thing [umalloc] adds. *)
Record allocated (p n : Z) (s s' : uproc) : Prop := {
  al_new : blocks s !! p = None;
  al_pos : 0 < p /\ p + n <= 2 ^ 32;
  al_blocks : blocks s' = <[p := n]> (blocks s);
  al_mem : only (in_block p n) (umem s) (umem s');
  al_writable : writable (umem s') p (Z.to_nat n);
  al_fresh : forall x, in_block p n x -> ~ owned s x;
}.

Lemma length_junk p n : length (junk p n) = Z.to_nat n.
Proof. unfold junk. by rewrite length_fmap, length_seqZ. Qed.

Lemma blocks_apart s p n q k : uproc_ok s -> blocks s !! p = Some n -> blocks s !! q = Some k -> p <> q ->
  p + n <= q \/ q + k <= p.
Proof.
  intros Hok Hp Hq Hne. apply (uo_blocks _ Hok) in Hp as (_ & n' & Hn & Hp). apply (uo_blocks _ Hok) in Hq as (_ & k' & Hk & Hq).
  pose proof (ulive_apart _ _ _ _ _ (uo_heap _ Hok) Hp Hq Hne). lia.
Qed.

Lemma block_static s p n x : uproc_ok s -> blocks s !! p = Some n -> in_block p n x -> ~ static x.
Proof.
  intros Hok Hp Hx. apply (uo_blocks _ Hok) in Hp as (_ & n' & Hn & Hp).
  apply (heap_apart _ _ _ x (uo_heap _ Hok) Hp). unfold in_block in Hx. lia.
Qed.

Lemma umalloc_ok s size : uproc_ok s -> 0 < size <= MALLOC_MAX ->
  wp (umalloc size) s (fun p s' => uproc_ok s' /\
    ((p = 0 /\ umem s' = umem s /\ blocks s' = blocks s) \/ (p <> 0 /\ allocated p size s s'))).
Proof.
  intros Hok Hsz. apply wp_bind, wp_zoom. eapply wp_mono; [apply malloc_spec; [apply Hok|done]|].
  intros p h [Hh Hp]. destruct Hok as [Ho Hb Hm]. destruct Hp as [(-> & Hl)|(Hp & Hnew & n & Hn & Hl)].
  { apply wp_ret. split; [|by left]. split; simpl; [done| |done]. by rewrite Hl. }
  rewrite (proj2 (Z.eqb_neq p 0)) by done. apply wp_bind, wp_modify, wp_ret. simpl.
  pose proof (ulive_range h p n Hh ltac:(rewrite Hl; apply lookup_insert_eq)) as Hr.
  assert (forall q k, blocks s !! q = Some k -> p <> q /\ (p + size <= q \/ q + k <= p)) as Hap.
  { intros q k Hq. apply Hb in Hq as (_ & k' & Hk & Hq). assert (p <> q) as Hne by (intros ->; congruence). split; [done|].
    pose proof (ulive_apart h p n q k' Hh ltac:(rewrite Hl; apply lookup_insert_eq) ltac:(by rewrite Hl, lookup_insert_ne) Hne). lia. }
  assert (only (in_block p size) (umem s) (store_bytes p (junk p size) (umem s))) as Hon.
  { eapply only_mono; [apply store_bytes_only|]. intros x. rewrite length_junk. unfold in_block. lia. }
  assert (writable (store_bytes p (junk p size) (umem s)) p (Z.to_nat size)) as Hw.
  { intros x Hx. apply lookup_store_bytes_in. rewrite length_junk. lia. }
  split; [split|right; split; [done|split]]; simpl; try done; try lia.
  - intros q k. destruct (decide (q = p)) as [->|Hne].
    + rewrite lookup_insert_eq. intros [= <-]. split; [lia|]. exists n. by rewrite Hl, lookup_insert_eq.
    + rewrite lookup_insert_ne by done. rewrite Hl. intros (? & k' & ? & ?)%Hb. split; [done|]. exists k'.
      by rewrite lookup_insert_ne.
  - intros q k. destruct (decide (q = p)) as [->|Hne].
    + rewrite lookup_insert_eq. by intros [= <-].
    + rewrite lookup_insert_ne by done. intros Hq%Hm. by eapply only_writable.
  - destruct (blocks s !! p) as [k|] eqn:E; [|done]. by destruct (Hap p k E).
  - unfold in_block. intros x Hx [Hst|(q & k & Hq & Hqx)].
    + apply (heap_apart h p n x Hh); [rewrite Hl; apply lookup_insert_eq|lia|done].
    + destruct (Hap q k Hq). unfold in_block in Hqx. lia.
Qed.

Lemma lookup_unmap p n (m : bmem) x : ~ in_block p n x -> unmap p n m !! x = m !! x.
Proof.
  intros Hx. unfold unmap. destruct (m !! x) as [c|] eqn:E.
  - by apply map_lookup_filter_Some.
  - apply map_lookup_filter_None. by left.
Qed.

Lemma ufree_ok s p n : uproc_ok s -> blocks s !! p = Some n ->
  wp (ufree p) s (fun _ s' => uproc_ok s' /\ blocks s' = delete p (blocks s) /\ umem s' = unmap p n (umem s)).
Proof.
  intros Hok Hp. destruct (uo_blocks _ Hok p n Hp) as (Hn & k & Hk & Hl). unfold ufree.
  destruct (ulive_range _ _ _ (uo_heap _ Hok) Hl) as (Hp0 & _). rewrite (proj2 (Z.eqb_neq p 0)) by lia.
  apply wp_bind, wp_get. rewrite Hp. apply wp_bind, wp_zoom.
  eapply wp_mono; [apply free_spec; [apply Hok|by eexists]|]. intros _ h [Hh Hlh]. apply wp_modify. simpl.
  split_and!; [|done..]. split; simpl; [done| |].
  - intros q j. destruct (decide (q = p)) as [->|Hne]; [by rewrite lookup_delete_eq|]. rewrite lookup_delete_ne by done.
    intros (? & i & ? & ?)%(uo_blocks _ Hok). split; [done|]. exists i. by rewrite Hlh, lookup_delete_ne.
  - intros q j. destruct (decide (q = p)) as [->|Hne]; [by rewrite lookup_delete_eq|]. rewrite lookup_delete_ne by done.
    intros Hq x Hx. pose proof (blocks_apart s p n q j Hok Hp Hq ltac:(done)). rewrite lookup_unmap by (unfold in_block; lia).
    by apply (uo_mapped _ Hok q j Hq).
Qed.

Lemma allocated_only p n s s' s'' :
  allocated p n s s' -> uheap s'' = uheap s' -> blocks s'' = blocks s' -> only (in_block p n) (umem s') (umem s'') ->
  uproc_ok s' -> allocated p n s s'' /\ uproc_ok s''.
Proof.
  intros [Hn Hp Hb Hm Hw Hf] Eh Eb Ho [Hu1 Hu2 Hu3]. split; [split; try done|split].
  - congruence.
  - eapply only_trans; eauto.
  - by eapply only_writable.
  - by rewrite Eh.
  - by rewrite Eh, Eb.
  - rewrite Eb. intros q k Hq. eapply only_writable; eauto.
Qed.

Lemma allocated_blocks p n s s' q k : allocated p n s s' -> blocks s !! q = Some k -> blocks s' !! q = Some k.
Proof. intros [Hn _ -> _ _ _] Hq. rewrite lookup_insert_ne; [done|]. congruence. Qed.

Lemma allocated_owned p n s s' x : allocated p n s s' -> owned s' x <-> owned s x \/ in_block p n x.
Proof.
  intros [Hn _ Hb _ _ _]. unfold owned. rewrite Hb. setoid_rewrite lookup_insert_Some. split.
  - intros [?|(q & k & [[<- <-]|[? ?]] & ?)]; [by left; left|by right|]. left. right. eauto.
  - intros [[?|(q & k & ? & ?)]|?]; [by left|right..].
    + exists q, k. split; [|done]. right. split; [congruence|done].
    + exists p, n. split; [|done]. by left.
Qed.

(** A string copied to a block that has just been allocated for it. *)
Lemma strcpy_new_ok s s1 p a t fuel :
  allocated p (Z.of_nat (length t) + 1) s s1 -> uproc_ok s1 -> cstr (umem s) a t ->
  (forall x, in_block a (Z.of_nat (length t) + 1) x -> owned s x) -> (length t < fuel)%nat ->
  wp (LibcString.strcpy fuel p a) (umem s1) (fun r m => r = p /\
    allocated p (Z.of_nat (length t) + 1) s (set_umem m s1) /\ uproc_ok (set_umem m s1) /\ cstr m p t).
Proof.
  intros Ha Hok1 Hc Ho Hf. pose proof Ha as [_ _ _ Hm1 Hw Hfr].
  assert (forall x, in_block a (Z.of_nat (length t) + 1) x -> ~ in_block p (Z.of_nat (length t) + 1) x) as Hd
    by (intros x Hx Hx'; by eapply Hfr, Ho).
  apply wp_bind. eapply wp_mono; [apply (strcpy_loop_spec _ p a t)|].
  - eapply only_cstr; [done| |done]. intros x Hx. apply Hd. unfold in_block. lia.
  - done.
  - by replace (S (length t)) with (Z.to_nat (Z.of_nat (length t) + 1)) by lia.
  - unfold in_block in Hd. specialize (Hd p). lia.
  - intros _ m ->. apply wp_ret.
    destruct (allocated_only p (Z.of_nat (length t) + 1) s s1 (set_umem (store_bytes p (t ++ [0]) (umem s1)) s1))
      as [Ha' Hok']; [done..| |done|].
    { eapply only_mono; [apply store_bytes_only|]. intros x. rewrite length_app. unfold in_block. simpl. lia. }
    split_and!; [done..|]. split; [apply bytes_at_store_bytes|apply Hc].
Qed.

Lemma strdup_ok s a t fuel :
  uproc_ok s -> cstr (umem s) a t -> (forall x, in_block a (Z.of_nat (length t) + 1) x -> owned s x) ->
  (length t < fuel)%nat -> Z.of_nat (length t) < MALLOC_MAX ->
  wp (strdup fuel a) s (fun p s' => uproc_ok s' /\
    ((p = 0 /\ umem s' = umem s /\ blocks s' = blocks s) \/
     (p <> 0 /\ allocated p (Z.of_nat (length t) + 1) s s' /\ cstr (umem s') p t))).
Proof.
  intros Hok Hc Ho Hf Hl. unfold MALLOC_MAX in Hl. apply wp_bind, wp_zoom.
  eapply wp_mono; [apply (libc_strlen_spec _ _ t); [done..|lia]|]. intros r m [-> ->].
  replace (set_umem (umem s) s) with s by by destruct s. rewrite u32_small by lia.
  apply wp_bind. eapply wp_mono; [apply umalloc_ok; [done|unfold MALLOC_MAX; lia]|].
  intros p s1 (Hok1 & [(-> & Hm & Hb)|(Hp & Ha)]); [apply wp_ret; by auto|].
  rewrite (proj2 (Z.eqb_neq p 0)) by done. apply wp_zoom.
  eapply wp_mono; [by eapply strcpy_new_ok|]. intros r m (-> & ? & ? & ?). auto.
Qed.
(** ** Blocks on top of a state

    [s] has the blocks of [s0] and those of [B], and what [s0] owns is as it was, except
    where [W] holds. *)
Record above (W : Z -> Prop) (s0 : uproc) (B : list (Z * Z)) (s : uproc) : Prop := {
  ab_ok : uproc_ok s;
  ab_nodup : NoDup B.*1;
  ab_new : Forall (fun b => blocks s0 !! b.1 = None) B;
  ab_blocks : blocks s = list_to_map B ∪ blocks s0;
  ab_mem : forall x, owned s0 x -> ~ W x -> umem s !! x = umem s0 !! x;
}.

Lemma above_refl W s : uproc_ok s -> above W s [] s.
Proof. intros Hok. split; simpl; [done|constructor|constructor|by rewrite (left_id_L ∅ (∪))|done]. Qed.

Lemma above_lookup W s0 B s p n : above W s0 B s -> (p, n) ∈ B -> blocks s !! p = Some n.
Proof.
  intros Ha Hp. rewrite (ab_blocks _ _ _ _ Ha). apply lookup_union_Some_l, elem_of_list_to_map_1; [apply Ha|done].
Qed.

Lemma above_base W s0 B s p n : above W s0 B s -> blocks s0 !! p = Some n -> blocks s !! p = Some n.
Proof.
  intros Ha Hp. rewrite (ab_blocks _ _ _ _ Ha), lookup_union_r; [done|]. apply not_elem_of_list_to_map_1.
  intros ([q k] & -> & Hq)%list_elem_of_fmap. pose proof (proj1 (Forall_forall _ _) (ab_new _ _ _ _ Ha) _ Hq) as Hn. simpl in *. congruence.
Qed.

Lemma above_owned W s0 B s x : above W s0 B s -> owned s0 x -> owned s x.
Proof. intros Ha [?|(p & n & Hp & Hx)]; [by left|right]. exists p, n. split; [by eapply above_base|done]. Qed.

Lemma above_perm W s0 B B' s : above W s0 B s -> B ≡ₚ B' -> above W s0 B' s.
Proof.
  intros [Hok Hnd Hnew Hb Hm] Hp. split; [done|by rewrite <-Hp|by rewrite <-Hp| |done].
  by rewrite Hb, (list_to_map_proper B B').
Qed.

Lemma above_mem W P s0 B s m : above W s0 B s -> only P (umem s) m -> (forall x, P x -> owned s0 x -> W x) ->
  above W s0 B (set_umem m s).
Proof.
  intros [[Hok1 Hok2 Hok3] Hnd Hnew Hb Hm] Ho HP. split; simpl; [split; simpl; [done..|]|done|done|done|].
  - intros p n Hp. eapply only_writable; eauto.
  - intros x Hx HW. rewrite (proj1 Ho) by (intros Hp; by eapply HW, HP). by apply Hm.
Qed.

Lemma above_new W s0 B s s' p n : above W s0 B s -> uproc_ok s' -> allocated p n s s' -> above W s0 ((p, n) :: B) s'.
Proof.
  intros Ha Hok' [Hn _ Hb Hm _ Hf]. pose proof Ha as [Hok Hnd Hnew Hbl Hme].
  split; [done| | |by rewrite Hb, Hbl, insert_union_l|].
  - simpl. constructor; [|done]. intros ([q k] & Hq & Hin)%list_elem_of_fmap. simpl in Hq. subst q.
    rewrite (above_lookup _ _ _ _ p k Ha Hin) in Hn. done.
  - constructor; [|done]. simpl. destruct (blocks s0 !! p) as [k|] eqn:E; [|done]. by rewrite (above_base _ _ _ _ _ _ Ha E) in Hn.
  - intros x Hx HW. rewrite (proj1 Hm); [by apply Hme|]. intros Hp. eapply Hf; [done|by eapply above_owned].
Qed.

Lemma above_same W s0 B s s' : above W s0 B s -> uproc_ok s' -> umem s' = umem s -> blocks s' = blocks s -> above W s0 B s'.
Proof. intros [_ Hnd Hnew Hb Hm] Hok Em Eb. split; [done..|by rewrite Eb|by rewrite Em]. Qed.

Lemma above_malloc W s0 B s n : above W s0 B s -> 0 < n <= MALLOC_MAX ->
  wp (umalloc n) s (fun p s' => (p = 0 /\ above W s0 B s' /\ umem s' = umem s) \/
    (p <> 0 /\ above W s0 ((p, n) :: B) s' /\ allocated p n s s')).
Proof.
  intros Ha Hn. eapply wp_mono; [apply umalloc_ok; [apply Ha|done]|]. intros p s' (Hok & [(-> & Hm & Hb)|(Hp & Hal)]).
  - left. split_and!; [done| |done]. by eapply above_same.
  - right. split_and!; [done| |done]. by eapply above_new.
Qed.

Lemma above_strdup W s0 B s a t fuel : above W s0 B s -> cstr (umem s) a t ->
  (forall x, in_block a (Z.of_nat (length t) + 1) x -> owned s x) -> (length t < fuel)%nat -> Z.of_nat (length t) < MALLOC_MAX ->
  wp (strdup fuel a) s (fun p s' => (p = 0 /\ above W s0 B s' /\ umem s' = umem s) \/
    (p <> 0 /\ above W s0 ((p, Z.of_nat (length t) + 1) :: B) s' /\ allocated p (Z.of_nat (length t) + 1) s s' /\ cstr (umem s') p t)).
Proof.
  intros Ha Hc Ho Hf Hl. eapply wp_mono; [by eapply strdup_ok; [apply Ha|..]|].
  intros p s' (Hok & [(-> & Hm & Hb)|(Hp & Hal & Hs)]).
  - left. split_and!; [done| |done]. by eapply above_same.
  - right. split_and!; [done| |done..]. by eapply above_new.
Qed.

Lemma above_free W s0 B s p n : above W s0 ((p, n) :: B) s ->
  wp (ufree p) s (fun _ s' => above W s0 B s' /\ umem s' = unmap p n (umem s)).
Proof.
  intros Ha. pose proof (above_lookup _ _ _ _ p n Ha ltac:(left)) as Hp.
  eapply wp_mono; [by apply ufree_ok; [apply Ha|]|]. intros _ s' (Hok & Hb & Hm). split; [|done].
  pose proof Ha as [_ Hnd Hnew Hbl Hme]. apply NoDup_cons in Hnd as [Hni Hnd]. apply Forall_cons in Hnew as [Hn Hnew]. simpl in Hn.
  split; [done..| |].
  - rewrite Hb, Hbl. simpl. rewrite <-insert_union_l, delete_insert_id; [done|].
    rewrite lookup_union_r by (by apply not_elem_of_list_to_map_1). done.
  - intros x Hx HW. rewrite Hm, lookup_unmap; [by apply Hme|]. intros Hin.
    destruct Hx as [Hst|(q & k & Hq & Hqx)]; [by eapply block_static; [apply Ha|..]|].
    pose proof (blocks_apart s p n q k (ab_ok _ _ _ _ Ha) Hp (above_base _ _ _ _ _ _ Ha Hq) ltac:(congruence)). unfold in_block in *. lia.
Qed.

Lemma above_block_owned W s0 B s p n x : above W s0 B s -> (p, n) ∈ B -> in_block p n x -> owned s x.
Proof. intros Ha Hp Hx. right. exists p, n. split; [by eapply above_lookup|done]. Qed.

(** The blocks of [B] are apart from each other and from what [s0] owns. *)
Lemma above_apart W s0 B s p n x : above W s0 B s -> (p, n) ∈ B -> in_block p n x -> ~ owned s0 x.
Proof.
  intros Ha Hp Hx Ho. pose proof (above_lookup _ _ _ _ _ _ Ha Hp) as Hl.
  destruct Ho as [Hst|(q & k & Hq & Hqx)]; [by eapply block_static; [apply Ha|..]|].
  pose proof (proj1 (Forall_forall _ _) (ab_new _ _ _ _ Ha) _ Hp) as Hn. simpl in Hn.
  pose proof (blocks_apart s p n q k (ab_ok _ _ _ _ Ha) Hl (above_base _ _ _ _ _ _ Ha Hq) ltac:(congruence)). unfold in_block in *. lia.
Qed.

Lemma above_disjoint W s0 p n B s q k x : above W s0 ((p, n) :: B) s -> (q, k) ∈ B -> in_block p n x -> ~ in_block q k x.
Proof.
  intros Ha Hq Hp Hx. pose proof (ab_nodup _ _ _ _ Ha) as Hnd. apply NoDup_cons in Hnd as [Hni _].
  assert (p <> q) as Hne by (intros ->; apply Hni, list_elem_of_fmap; by exists (q, k)).
  pose proof (blocks_apart s p n q k (ab_ok _ _ _ _ Ha) (above_lookup _ _ _ _ _ _ Ha ltac:(left))
    (above_lookup _ _ _ _ _ _ Ha ltac:(by right)) Hne). unfold in_block in *. lia.
Qed.

Lemma above_trans W W' s0 B s B' s' : above W s0 B s -> above W' s B' s' -> (forall x, W' x -> owned s0 x -> W x) ->
  above W s0 (B' ++ B) s'.
Proof.
  intros Ha Ha' HW. pose proof Ha as [Hok Hnd Hnew Hb Hm]. pose proof Ha' as [Hok' Hnd' Hnew' Hb' Hm'].
  rewrite Forall_forall in Hnew, Hnew'. split; [done| | | |].
  - rewrite fmap_app. apply NoDup_app. split_and!; [done| |done].
    intros p ([q k] & -> & Hq)%list_elem_of_fmap ([q' k'] & Eq & Hq')%list_elem_of_fmap. simpl in *. subst q'.
    specialize (Hnew' _ Hq). simpl in Hnew'. by rewrite (above_lookup _ _ _ _ _ _ Ha Hq') in Hnew'.
  - apply Forall_app. split; apply Forall_forall; [|by apply Hnew]. intros [q k] Hq. simpl.
    destruct (blocks s0 !! q) as [j|] eqn:E; [|done]. specialize (Hnew' _ Hq). simpl in Hnew'.
    by rewrite (above_base _ _ _ _ _ _ Ha E) in Hnew'.
  - by rewrite Hb', Hb, list_to_map_app, (assoc_L (∪)).
  - intros x Hx HnW. rewrite Hm'; [by apply Hm|by eapply above_owned|]. intros Hw'. by apply HnW, HW.
Qed.
End ops.
Arguments uproc : clear implicits.

(** ** The allocator of the libc, over pages above the program *)

Import Malloc.

#[export] Instance bump_memory : UMemory (Malloc.heap Z).
Proof.
  refine {| static x := x < 65536; fill _ := 0 |}.
  - intros x. split; lia.
  - intros h p n x Hh Hp Hx. pose proof (Malloc.live_mapped h p n x Hh Hp Hx) as Hm. simpl in Hm. lia.
Defined.
End UMem.
