(* ===== verification/Driver.v ===== *)
(** Device drivers in user space: userland/lib/libdriver/src/driver.c with two of its
    clients, userland/driver/null/null.c and userland/driver/ramd/ramd.c.

    A driver is a process.  The kernel sends it the requests of the files opened on
    its device as messages on a channel; [driver_loop] reads one at a time,
    [dispatch] hands it to the callback of its operation and writes the answer
    back.  The state of the process is its memory, the private data of the driver
    and the answers it has written.  A message is the C structure the kernel stored,
    under the header that says which one it is; reading it through another type is
    [Undef], and so is calling a callback the driver does not have.  An answer
    field no callback has assigned is [None]. *)

From S2P Require Import Prelude KString Numbers Malloc Stack UMem.

Module Driver.

(** ** Messages: userland/lib/include/zos/vfs.h *)

Definition VFS_OPEN : Z := 1.
Definition VFS_READ : Z := 2.
Definition VFS_WRITE : Z := 3.
Definition VFS_CLOSE : Z := 4.
Definition VFS_IOCTL : Z := 11.
Definition VFS_OPS_OPEN : Z := Z.shiftl 1 0.
Definition VFS_OPS_READ : Z := Z.shiftl 1 1.
Definition VFS_OPS_WRITE : Z := Z.shiftl 1 2.
Definition VFS_OPS_CLOSE : Z := Z.shiftl 1 3.
Definition VFS_OPS_IOCTL : Z := Z.shiftl 1 10.
Definition DRV_NORESPONSE : Z := -2147483647 - 1.

Record msg_header := { op : Z; slave_id : Z }.

Record req_open := {
  ro_hdr : msg_header; ro_inode : Z; ro_uid : Z; ro_gid : Z; ro_flags : Z; ro_mode : Z; ro_pid : Z;
}.
Record req_rdwr := { rw_hdr : msg_header; rw_inode : Z; rw_size : Z; rw_off : Z; rw_data : Z }.
Record req_close := { rc_hdr : msg_header; rc_inode : Z }.
Record req_ioctl := {
  ri_hdr : msg_header; ri_inode : Z; ri_request : Z; ri_with_argp : Z; ri_argp : Z;
}.

Inductive request :=
| ReqOpen (r : req_open)
| ReqRdwr (r : req_rdwr)
| ReqClose (r : req_close)
| ReqIoctl (r : req_ioctl)
| ReqOther (h : msg_header).

Definition hdr (m : request) : msg_header :=
  match m with
  | ReqOpen r => ro_hdr r | ReqRdwr r => rw_hdr r | ReqClose r => rc_hdr r | ReqIoctl r => ri_hdr r
  | ReqOther h => h
  end.

(** The answers; the header of an answer carries the slave it goes to. *)
Inductive response :=
| RespOpen (slave ret : Z) (inode : option Z)
| RespRdwr (slave ret : Z) (size : option Z)
| RespClose (slave ret : Z)
| RespIoctl (slave ret : Z) (modify_argp argp : option Z).

Definition resp_slave (r : response) : Z :=
  match r with
  | RespOpen i _ _ | RespRdwr i _ _ | RespClose i _ | RespIoctl i _ _ _ => i
  end.

(** ** The process of a driver *)

Section process.
Context {X : Type}.

Record proc := {
  mem : bmem;
  private : X;
  running : Z;
  out : list response;
  uprints : list (string * list Z);
}.

Definition set_mem (m : bmem) (s : proc) : proc :=
  {| mem := m; private := private s; running := running s; out := out s; uprints := uprints s |}.
Definition set_private (x : X) (s : proc) : proc :=
  {| mem := mem s; private := x; running := running s; out := out s; uprints := uprints s |}.
Definition set_running (v : Z) (s : proc) : proc :=
  {| mem := mem s; private := private s; running := v; out := out s; uprints := uprints s |}.
Definition set_out (l : list response) (s : proc) : proc :=
  {| mem := mem s; private := private s; running := running s; out := l; uprints := uprints s |}.
Definition set_uprints (l : list (string * list Z)) (s : proc) : proc :=
  {| mem := mem s; private := private s; running := running s; out := out s; uprints := l |}.

Definition on_mem {A} (m : M bmem A) : M proc A := zoom mem set_mem m.
Definition write_response (r : response) : M proc unit := modify (fun s => set_out (out s ++ [r]) s).
(** A text for the console, with the numbers formatted into it. *)
Definition uprint (t : string) (args : list Z) : M proc unit :=
  modify (fun s => set_uprints (uprints s ++ [(t, args)]) s).

(** struct driver_ops; a callback gives its result and what it left in the out
    parameter. *)
Record driver_ops := {
  d_open : option (req_open -> M proc (Z * option Z));
  d_read : option (req_rdwr -> M proc (Z * option Z));
  d_write : option (req_rdwr -> M proc (Z * option Z));
  d_close : option (req_close -> M proc Z);
  d_ioctl : option (req_ioctl -> M proc (Z * option Z * option Z));
}.

(** A call through a function pointer, with the message cast to its type. *)
Definition callback {R A} (f : option (R -> M proc A)) (r : option R) : M proc A :=
  match f, r with
  | Some f, Some r => f r
  | _, _ => undef
  end.

Definition as_open (m : request) := match m with ReqOpen r => Some r | _ => None end.
Definition as_rdwr (m : request) := match m with ReqRdwr r => Some r | _ => None end.
Definition as_close (m : request) := match m with ReqClose r => Some r | _ => None end.
Definition as_ioctl (m : request) := match m with ReqIoctl r => Some r | _ => None end.

Definition respond (ret : Z) (r : response) : M proc unit :=
  if ret =? DRV_NORESPONSE then Prelude.ret tt else write_response r.

Definition dispatch (ops : driver_ops) (m : request) : M proc unit :=
  let h := hdr m in
  if op h =? VFS_OPEN then
    let! '(r, inode) := callback (d_open ops) (as_open m) in
    respond r (RespOpen (slave_id h) r inode)
  else if op h =? VFS_READ then
    let! '(r, size) := callback (d_read ops) (as_rdwr m) in
    respond r (RespRdwr (slave_id h) r size)
  else if op h =? VFS_WRITE then
    let! '(r, size) := callback (d_write ops) (as_rdwr m) in
    respond r (RespRdwr (slave_id h) r size)
  else if op h =? VFS_CLOSE then
    let! r := callback (d_close ops) (as_close m) in
    respond r (RespClose (slave_id h) r)
  else if op h =? VFS_IOCTL then
    let! '(r, modify_argp, argp) := callback (d_ioctl ops) (as_ioctl m) in
    respond r (RespIoctl (slave_id h) r modify_argp argp)
  else uprint "Not supported (%i, %i)" [op h; slave_id h].

(** What [read] on the channel gives: a message, or an error. *)
Definition incoming : Type := option request.

(** [driver_loop] while [reads] lasts: [None] when it is blocked in the next
    [read], else its result. *)
Fixpoint driver_loop (ops : driver_ops) (reads : list incoming) : M proc (option Z) :=
  let! s := get in
  if running s =? 0 then ret (Some 0)
  else match reads with
  | [] => ret None
  | None :: reads =>
      uprint "Unexpected error in driver_loop()" [] ;;;
      modify (set_running 0) ;;;
      driver_loop ops reads
  | Some m :: reads => dispatch ops m ;;; driver_loop ops reads
  end.

Definition driver_base_open (request : req_open) : M proc (Z * option Z) := ret (0, Some 0).
Definition driver_base_close (request : req_close) : M proc Z := ret 0.
End process.
Arguments proc : clear implicits.
Arguments driver_ops : clear implicits.

(** ** Registering a driver

    The system calls of a driver return; their kernel side is in Channel, Device and
    Process. *)
Class DriverSys (W : Type) := {
  channel_create : Z -> M W Z;
  device_create : Z -> Z -> Z -> Z -> M W Z;
  os_close : Z -> M W Z;
  os_fork : M W Z;
  channel_create_returns : forall nm w, wp (channel_create nm) w (fun _ _ => True);
  device_create_returns : forall fd nm perm ops w, wp (device_create fd nm perm ops) w (fun _ _ => True);
  os_close_returns : forall fd w, wp (os_close fd) w (fun _ _ => True);
  os_fork_returns : forall w, wp os_fork w (fun _ _ => True);
}.

Section create.
Context {X H : Type} `{UMemory H} {W : Type} `{!DriverSys W}.

(** struct driver, without the private data and the callbacks. *)
Record driver := { dev_name : Z; channel_fd : Z; dev_id : Z; is_running : Z; vops : Z }.

(** The process before its loop; [s_said] is what it told the user. *)
Record setup := { s_proc : UMem.uproc H; s_os : W; s_drv : driver; s_said : list string }.
Definition set_proc (p : UMem.uproc H) (s : setup) : setup :=
  {| s_proc := p; s_os := s_os s; s_drv := s_drv s; s_said := s_said s |}.
Definition set_os (w : W) (s : setup) : setup :=
  {| s_proc := s_proc s; s_os := w; s_drv := s_drv s; s_said := s_said s |}.
Definition set_drv (d : driver) (s : setup) : setup :=
  {| s_proc := s_proc s; s_os := s_os s; s_drv := d; s_said := s_said s |}.
Definition say (t : string) : M setup unit :=
  modify (fun s => {| s_proc := s_proc s; s_os := s_os s; s_drv := s_drv s; s_said := s_said s ++ [t] |}).

Definition in_proc {A} (m : M (UMem.uproc H) A) : M setup A := zoom s_proc set_proc m.
Definition os {A} (m : M W A) : M setup A := zoom s_os set_os m.

Definition with_ops (v : Z) (d : driver) : driver :=
  {| dev_name := dev_name d; channel_fd := channel_fd d; dev_id := dev_id d; is_running := is_running d; vops := v |}.
Definition with_name (v : Z) (d : driver) : driver :=
  {| dev_name := v; channel_fd := channel_fd d; dev_id := dev_id d; is_running := is_running d; vops := vops d |}.

Definition given {A} (o : option A) (bit : Z) : Z := match o with Some _ => bit | None => 0 end.

(** The operations the kernel may send to a device with these callbacks. *)
Definition ops_mask (ops : driver_ops X) : Z :=
  Z.lor (Z.lor (Z.lor (Z.lor VFS_OPS_OPEN VFS_OPS_CLOSE) (given (d_read ops) VFS_OPS_READ))
    (given (d_write ops) VFS_OPS_WRITE)) (given (d_ioctl ops) VFS_OPS_IOCTL).

Definition base_ops (ops : driver_ops X) : driver_ops X := {|
  d_open := Some (default driver_base_open (d_open ops));
  d_read := d_read ops;
  d_write := d_write ops;
  d_close := Some (default driver_base_close (d_close ops));
  d_ioctl := d_ioctl ops;
|}.

Definition driver_create (fuel : nat) (nm perm : Z) (dev_ops : driver_ops X) : M setup (Z * driver_ops X) :=
  let dev_ops := base_ops dev_ops in
  let mask := ops_mask dev_ops in
  modify (fun s => set_drv (with_ops mask (s_drv s)) s) ;;;
  let! len := in_proc (UMem.on_umem (LibcString.strlen fuel nm)) in
  let! copy := in_proc (UMem.umalloc (u32 (len + 1))) in
  modify (fun s => set_drv (with_name copy (s_drv s)) s) ;;;
  if copy =? 0 then ret (-1, dev_ops)
  else
    let! fd := os (channel_create nm) in
    if fd <? 0 then ret (fd, dev_ops)
    else
      let! id := os (device_create fd nm perm mask) in
      if id <? 0 then
        os (os_close fd) ;;;
        in_proc (UMem.ufree copy) ;;;
        ret (id, dev_ops)
      else
        let! copy := in_proc (UMem.on_umem (LibcString.strcpy fuel copy nm)) in
        modify (set_drv {| dev_name := copy; channel_fd := fd; dev_id := id; is_running := 1; vops := mask |}) ;;;
        ret (0, dev_ops).

(** What the program owned before is as it was. *)
Definition keeps (p p' : UMem.uproc H) : Prop :=
  forall x, UMem.owned p x -> UMem.umem p' !! x = UMem.umem p !! x.

Lemma os_ok {A} (m : M W A) s (Q : A -> setup -> Prop) :
  wp m (s_os s) (fun _ _ => True) -> (forall a w, Q a (set_os w s)) -> wp (os m) s Q.
Proof. intros Hm HQ. apply wp_zoom. eapply wp_mono; [done|]. auto. Qed.

Lemma driver_create_ok fuel nm perm (dev_ops : driver_ops X) t s :
  UMem.uproc_ok (s_proc s) -> cstr (UMem.umem (s_proc s)) nm t ->
  (forall x, UMem.in_block nm (Z.of_nat (length t) + 1) x -> UMem.owned (s_proc s) x) ->
  (length t < fuel)%nat -> Z.of_nat (length t) < MALLOC_MAX ->
  wp (driver_create fuel nm perm dev_ops) s (fun r s' =>
    UMem.uproc_ok (s_proc s') /\ keeps (s_proc s) (s_proc s') /\ r.2 = base_ops dev_ops /\
    let copied := UMem.allocated (dev_name (s_drv s')) (Z.of_nat (length t) + 1) (s_proc s) (s_proc s') in
    if r.1 <? 0 then UMem.blocks (s_proc s') = UMem.blocks (s_proc s) \/ copied
    else r.1 = 0 /\ copied /\ cstr (UMem.umem (s_proc s')) (dev_name (s_drv s')) t /\
         is_running (s_drv s') = 1 /\ vops (s_drv s') = ops_mask (base_ops dev_ops) /\
         0 <= channel_fd (s_drv s') /\ 0 <= dev_id (s_drv s')).
Proof.
  intros Hok Hc Ho Hf Hl. unfold MALLOC_MAX in Hl. apply wp_bind, wp_modify, wp_bind, wp_zoom, wp_zoom. simpl.
  eapply wp_mono; [apply (libc_strlen_spec _ _ t); [done..|lia]|]. intros r m [-> ->].
  rewrite u32_small by lia. apply wp_bind, wp_zoom. simpl.
  replace (UMem.set_umem (UMem.umem (s_proc s)) (s_proc s)) with (s_proc s) by by destruct (s_proc s).
  eapply wp_mono; [apply UMem.umalloc_ok; [done|unfold MALLOC_MAX; lia]|].
  intros p s1 (Hok1 & [(-> & Hm & Hb)|(Hp & Ha)]).
  { apply wp_bind, wp_modify, wp_ret. simpl. split_and!; [done| |done|by left]. intros x _. by rewrite Hm. }
  apply wp_bind, wp_modify. rewrite (proj2 (Z.eqb_neq p 0)) by done. pose proof Ha as [Hn _ Hb Hm Hw Hfr].
  assert (keeps (s_proc s) s1) as Hk by (intros x Hx; apply Hm; intros Hin; by apply (Hfr x)).
  apply wp_bind, os_ok; [apply channel_create_returns|]. intros fd w1. destruct (Z.ltb_spec fd 0) as [Hfd|Hfd].
  { apply wp_ret. simpl. rewrite (proj2 (Z.ltb_lt _ _)) by done. split_and!; [done..|by right]. }
  apply wp_bind, os_ok; [apply device_create_returns|]. intros id w2. destruct (Z.ltb_spec id 0) as [Hid|Hid].
  - apply wp_bind, os_ok; [apply os_close_returns|]. intros _ w3. apply wp_bind, wp_zoom. simpl.
    eapply wp_mono; [apply (UMem.ufree_ok s1 p (Z.of_nat (length t) + 1)); [done|rewrite Hb; apply lookup_insert_eq]|].
    intros _ s2 (Hok2 & Hb2 & Hm2). apply wp_ret. simpl. rewrite (proj2 (Z.ltb_lt _ _)) by done. split_and!; [done| |done|].
    + intros x Hx. rewrite Hm2, UMem.lookup_unmap by (intros Hin; by apply (Hfr x)). by apply Hk.
    + left. by rewrite Hb2, Hb, delete_insert_id.
  - apply wp_bind, wp_zoom, wp_zoom. simpl. eapply wp_mono; [by eapply UMem.strcpy_new_ok|].
    intros r m (-> & Ha' & Hok' & Hct). apply wp_bind, wp_modify, wp_ret. simpl. split_and!; try done.
    intros x Hx. apply Ha'. intros Hin. by apply (Hfr x).
Qed.
End create.
Arguments setup : clear implicits.

(** ** The loop answers *)

Section loop.
Context {X : Type} (ops : driver_ops X) (I : bmem -> X -> Prop).
Implicit Types (s : proc X) (q : request).

(** A callback that returns a result of its own, keeps [I] and leaves the loop and
    its answers alone. *)
Definition behaves {R A} (f : option (R -> M (proc X) A)) (res : A -> Z) : Prop :=
  forall g r s, f = Some g -> I (mem s) (private s) ->
    wp (g r) s (fun a s' => I (mem s') (private s') /\ running s' = running s /\ out s' = out s /\
                            res a <> DRV_NORESPONSE).

Record well_behaved : Prop := {
  wb_open : behaves (d_open ops) fst;
  wb_read : behaves (d_read ops) fst;
  wb_write : behaves (d_write ops) fst;
  wb_close : behaves (d_close ops) id;
  wb_ioctl : behaves (d_ioctl ops) (fun x => x.1.1);
}.

(** A message the kernel may send: its structure is the one its header announces, and
    the driver has the callback. *)
Definition supported q : Prop :=
  match q with
  | ReqOpen r => op (ro_hdr r) = VFS_OPEN /\ is_Some (d_open ops)
  | ReqRdwr r => op (rw_hdr r) = VFS_READ /\ is_Some (d_read ops) \/ op (rw_hdr r) = VFS_WRITE /\ is_Some (d_write ops)
  | ReqClose r => op (rc_hdr r) = VFS_CLOSE /\ is_Some (d_close ops)
  | ReqIoctl r => op (ri_hdr r) = VFS_IOCTL /\ is_Some (d_ioctl ops)
  | ReqOther _ => False
  end.

(** An answer of the kind of the request, to the slave that sent it. *)
Definition answers q (r : response) : Prop :=
  resp_slave r = slave_id (hdr q) /\
  match q, r with
  | ReqOpen _, RespOpen _ _ _ | ReqRdwr _, RespRdwr _ _ _ | ReqClose _, RespClose _ _
  | ReqIoctl _, RespIoctl _ _ _ _ => True
  | _, _ => False
  end.

Lemma callback_ok {R A} (f : option (R -> M (proc X) A)) (res : A -> Z) (mk : A -> response) r s q
    (k : A -> M (proc X) unit) :
  behaves f res -> is_Some f -> I (mem s) (private s) -> (forall a, answers q (mk a)) ->
  (forall a, k a = respond (res a) (mk a)) ->
  wp (let! a := callback f (Some r) in k a) s (fun _ s' => I (mem s') (private s') /\
    running s' = running s /\ exists x, out s' = out s ++ [x] /\ answers q x).
Proof.
  intros Hb [g ->] Hi Hm Hk. apply wp_bind. eapply wp_mono; [by apply Hb|]. intros a s' (Hi' & Hr & Ho & Hn).
  rewrite Hk. unfold respond. rewrite (proj2 (Z.eqb_neq _ _)) by done. apply wp_modify. simpl.
  split_and!; [done..|]. exists (mk a). by rewrite Ho.
Qed.

Lemma dispatch_ok q s : well_behaved -> supported q -> I (mem s) (private s) ->
  wp (dispatch ops q) s (fun _ s' => I (mem s') (private s') /\
    running s' = running s /\ exists x, out s' = out s ++ [x] /\ answers q x).
Proof.
  intros [Ho Hr Hw Hc Hi] Hq Hs. unfold dispatch. destruct q as [r|r|r|r|h]; simpl in Hq |- *; [|destruct Hq as [Hq|Hq]|..|done].
  all: destruct Hq as [-> Hf]; simpl.
  - eapply (callback_ok _ fst (fun a => RespOpen _ a.1 a.2)); try done. by intros [].
  - eapply (callback_ok _ fst (fun a => RespRdwr _ a.1 a.2)); try done. by intros [].
  - eapply (callback_ok _ fst (fun a => RespRdwr _ a.1 a.2)); try done. by intros [].
  - eapply (callback_ok _ id (fun a => RespClose _ a)); try done.
  - eapply (callback_ok _ (fun x => x.1.1) (fun a => RespIoctl _ a.1.1 a.1.2 a.2)); try done. by intros [[] ?].
Qed.

Lemma driver_loop_ok qs : forall s, well_behaved -> Forall supported qs -> I (mem s) (private s) -> running s <> 0 ->
  wp (driver_loop ops (Some <$> qs)) s (fun r s' => r = None /\ I (mem s') (private s') /\
    running s' = running s /\ exists l, out s' = out s ++ l /\ Forall2 answers qs l).
Proof.
  induction qs as [|q qs IH]; intros s Hb Hq Hi Hr; simpl; apply wp_bind, wp_get; rewrite (proj2 (Z.eqb_neq _ 0)) by done.
  - apply wp_ret. split_and!; [done..|]. exists []. rewrite app_nil_r. split; [done|constructor].
  - apply Forall_cons in Hq as [Hq Hqs]. apply wp_bind. eapply wp_mono; [by apply dispatch_ok|].
    intros _ s1 (Hi1 & Hr1 & x & Ho1 & Hx). eapply wp_mono; [apply IH; [done..|congruence]|].
    intros r s2 (-> & Hi2 & Hr2 & l & Ho2 & Hl). split_and!; [done..|congruence|]. exists (x :: l).
    rewrite Ho2, Ho1, <-app_assoc. split; [done|]. by constructor.
Qed.

(** A driver whose callbacks return answers the messages it supports one by one, in
    order: as many answers as requests, each of the kind of its request and to the slave
    that sent it; then it waits for the next message. *)
Theorem driver_loop_answers qs s :
  well_behaved -> Forall supported qs -> I (mem s) (private s) -> running s <> 0 ->
  wp (driver_loop ops (Some <$> qs)) s (fun r s' => r = None /\ I (mem s') (private s') /\
    exists l, out s' = out s ++ l /\ Forall2 answers qs l).
Proof. intros. eapply wp_mono; [by apply driver_loop_ok|]. intros r s' (? & ? & _ & ?). auto. Qed.
End loop.

End Driver.

(** ** The null device *)

Module NullDriver.
Import Driver.

Definition null_open (request : req_open) : M (proc unit) (Z * option Z) := ret (0, Some 0).
Definition null_read (msg : req_rdwr) : M (proc unit) (Z * option Z) := ret (0, Some 0).
Definition null_write (msg : req_rdwr) : M (proc unit) (Z * option Z) := ret (0, Some (rw_size msg)).
Definition null_close (msg : req_close) : M (proc unit) Z := ret 0.

Definition null_ops : driver_ops unit := {|
  d_open := Some null_open;
  d_read := Some null_read;
  d_write := Some null_write;
  d_close := Some null_close;
  d_ioctl := None;
|}.

Lemma null_behaves : well_behaved null_ops (fun _ _ => True).
Proof. split; intros g r s [= <-] _; by apply wp_ret. Qed.

Definition null_request (op size : Z) : request :=
  ReqRdwr {| rw_hdr := {| op := op; slave_id := 4 |}; rw_inode := 0; rw_size := size; rw_off := 0; rw_data := 4096 |}.
Definition null_proc : proc unit := {| mem := ∅; private := tt; running := 1; out := []; uprints := [] |}.

Lemma driver_loop_answers_witness :
  wp (driver_loop null_ops [Some (null_request VFS_WRITE 7); Some (null_request VFS_READ 7)]) null_proc (fun r s' =>
    r = None /\ True /\ exists l, out s' = [] ++ l /\
    Forall2 answers [null_request VFS_WRITE 7; null_request VFS_READ 7] l).
Proof.
  apply (driver_loop_answers null_ops (fun _ _ => True) [null_request VFS_WRITE 7; null_request VFS_READ 7] null_proc).
  - apply null_behaves.
  - constructor; [right; split; [done|by eexists]|]. constructor; [left; split; [done|by eexists]|constructor].
  - done.
  - done.
Defined.
End NullDriver.

(** ** The memory disk *)

Module Ramd.
Import Driver Stack Numbers.

Record ramd_private := { size : Z; data : Z }.

Definition MIN (x y : Z) : Z := if x <? y then x else y.

(** The character at [endptr] behind a size. *)
Definition extract_size (fuel : nat) (a : Z) : M bmem Z :=
  let! '(res, e) := strtol fuel a 10 in
  if res =? 0 then ret 0
  else
    let! c := load e in
    let '(res, e) := if c =? 75 then (s32 (res * 1024), e + 1)
                     else if c =? 77 then (s32 (res * (1024 * 1024)), e + 1)
                     else (res, e) in
    let! c := load e in
    if negb (c =? 0) then ret 0 else ret res.

Definition extract_number (fuel : nat) (a : Z) : M bmem Z :=
  let! '(res, e) := strtol fuel a 10 in
  let! c := load e in
  if negb (c =? 0) then ret (-1)
  else if res <=? 0 then ret (-1)
  else if res >? 255 then ret (-1)
  else ret res.

Definition ram_open (request : req_open) : M (proc ramd_private) (Z * option Z) := ret (0, Some 0).

(** The sizes are [size_t], the offset of a request has 64 bits. *)
Definition ram_read (msg : req_rdwr) : M (proc ramd_private) (Z * option Z) :=
  let! s := get in
  let ram := private s in
  let to_read := u32 (MIN (rw_size msg) (u64 (size ram - rw_off msg))) in
  if size ram <=? rw_off msg then ret (0, Some 0)
  else
    on_mem (LibcString.memcpy (rw_data msg) (u32 (data ram + rw_off msg)) to_read) ;;;
    ret (0, Some to_read).

Definition ram_write (msg : req_rdwr) : M (proc ramd_private) (Z * option Z) :=
  let! s := get in
  let ram := private s in
  let to_write := u32 (MIN (rw_size msg) (u64 (size ram - rw_off msg))) in
  if size ram <=? rw_off msg then ret (0, Some 0)
  else
    on_mem (LibcString.memcpy (u32 (data ram + rw_off msg)) (rw_data msg) to_write) ;;;
    ret (0, Some to_write).

Definition ram_close (msg : req_close) : M (proc ramd_private) Z := ret 0.

Definition ram_ops : driver_ops ramd_private := {|
  d_open := Some ram_open;
  d_read := Some ram_read;
  d_write := Some ram_write;
  d_close := Some ram_close;
  d_ioctl := None;
|}.

(** ** Starting the driver *)

Section main.
Context {H : Type} `{UMemory H} {W : Type} `{!DriverSys W}.

Definition arg (argv : list Z) (i : nat) : M (setup H W) Z :=
  match argv !! i with Some a => ret a | None => undef end.

Definition usage : M (setup H W) unit := say "ramd [OPTS] SIZE NUMBER".

(** [main]: an exit status, or the private data the loop starts with.  [lit] and
    [fmt] are where the literals --daemon and ramd%i are, [name] is the array of 8
    characters for the name of the device. *)
Definition main (fuel : nat) (argv : list Z) (lit fmt name : Z) : M (setup H W) (Z + ramd_private) :=
  let argc := Z.of_nat (length argv) in
  if negb (argc =? 3) && negb (argc =? 4) then usage ;;; ret (inl 1)
  else
    let! daemon := (if argc =? 4 then
        let! a := arg argv 1 in
        let! c := in_proc (UMem.on_umem (LibcString.strcmp fuel lit a)) in ret (c =? 0)
      else ret false) in
    if negb daemon then usage ;;; ret (inl 1)
    else
      let! size_str := arg argv 2 in
      let! number_str := arg argv 3 in
      let! n := in_proc (UMem.on_umem (extract_size fuel size_str)) in
      let! number := in_proc (UMem.on_umem (extract_number fuel number_str)) in
      if n <=? 0 then say "Invalid size format" ;;; ret (inl 2)
      else if number <? 0 then say "Invalid ram number (1 - 255)" ;;; ret (inl 3)
      else
        let! pid := os os_fork in
        if pid <? 0 then say "Cannot daemonize" ;;; ret (inl 5)
        else if negb (pid =? 0) then ret (inl 0)
        else
          let! d := in_proc (UMem.umalloc n) in
          if d =? 0 then say "Cannot allocate memory" ;;; ret (inl 1)
          else
            in_proc (UMem.on_umem (vsprintf fuel name fmt [VInt number])) ;;;
            let! '(r, _) := driver_create fuel name 384 ram_ops in
            if r <? 0 then say "Cannot create ram device" ;;; ret (inl 1)
            else ret (inr {| size := n; data := d |}).
End main.

(** ** The disk as a list of bytes *)

Definition splice (off : nat) (b d : list Z) : list Z := take off d ++ b ++ drop (off + length b) d.

(** The bytes a request of [n] bytes at [off] covers. *)
Definition covered (d : list Z) (off : Z) (n : nat) : nat := n `min` Z.to_nat (Z.of_nat (length d) - off).
Definition disk_read (d : list Z) (off : Z) (n : nat) : list Z := take (covered d off n) (drop (Z.to_nat off) d).
Definition disk_write (d : list Z) (off : Z) (b : list Z) : list Z :=
  splice (Z.to_nat off) (take (covered d off (length b)) b) d.

Definition in_disk (ram : ramd_private) (x : Z) : Prop := data ram <= x < data ram + size ram.

Record disk_at (m : bmem) (ram : ramd_private) (d : list Z) : Prop := {
  da_bytes : bytes_at m (data ram) d;
  da_char : Forall is_char d;
  da_size : size ram = Z.of_nat (length d);
  da_range : 0 <= data ram /\ data ram + size ram < 2 ^ 32;
}.

(** The buffer the kernel has mapped for a request, with its contents. *)
Record buffer_at (m : bmem) (ram : ramd_private) (r : req_rdwr) (b : list Z) : Prop := {
  ba_bytes : bytes_at m (rw_data r) b;
  ba_char : Forall is_char b;
  ba_size : rw_size r = Z.of_nat (length b);
  ba_range : 0 <= rw_size r < 2 ^ 32;
  ba_off : 0 <= rw_off r < 2 ^ 64;
  ba_apart : rw_data r + rw_size r <= data ram \/ data ram + size ram <= rw_data r;
}.

Definition in_buffer (r : req_rdwr) (x : Z) : Prop := rw_data r <= x < rw_data r + rw_size r.

Lemma bytes_at_splice m a d off b :
  bytes_at m a d -> (off + length b <= length d)%nat ->
  bytes_at (store_bytes (a + Z.of_nat off) b m) a (splice off b d).
Proof.
  intros Hd Hl. unfold splice.
  assert (d = take off d ++ take (length b) (drop off d) ++ drop (off + length b) d) as Ed.
  { by rewrite <-(take_drop off d) at 1; rewrite <-(take_drop (length b) (drop off d)) at 1; rewrite drop_drop. }
  rewrite Ed in Hd. apply bytes_at_app in Hd as [H1 [H2 H3]%bytes_at_app].
  rewrite length_take in H2, H3. rewrite length_take, length_drop in H3.
  apply bytes_at_app. split; [|apply bytes_at_app; split].
  - apply bytes_at_store_bytes_ne; [done|]. rewrite length_take. lia.
  - rewrite length_take, Nat.min_l by lia. apply bytes_at_store_bytes.
  - rewrite length_take, !Nat.min_l in * by lia. apply bytes_at_store_bytes_ne; [done|]. lia.
Qed.

Lemma length_splice off b d : (off + length b <= length d)%nat -> length (splice off b d) = length d.
Proof. intros. unfold splice. rewrite !length_app, length_take, length_drop. lia. Qed.

Lemma length_disk_read d off n : 0 <= off -> length (disk_read d off n) = covered d off n.
Proof. intros Ho. unfold disk_read. rewrite length_take, length_drop. unfold covered. lia. Qed.

Lemma to_transfer m ram r b d : disk_at m ram d -> buffer_at m ram r b -> rw_off r < size ram ->
  u32 (MIN (rw_size r) (u64 (size ram - rw_off r))) = Z.of_nat (covered d (rw_off r) (length b)).
Proof.
  intros [_ _ Hs Hr] [_ _ Hb Hr' Ho _] Hlt. rewrite (u64_small (size ram - _)) by lia. unfold MIN, covered.
  rewrite u32_small by (destruct (Z.ltb_spec (rw_size r) (size ram - rw_off r)); lia).
  destruct (Z.ltb_spec (rw_size r) (size ram - rw_off r)); lia.
Qed.

Lemma ram_read_ok s r b d :
  disk_at (mem s) (private s) d -> buffer_at (mem s) (private s) r b ->
  wp (ram_read r) s (fun x s' => x = (0, Some (Z.of_nat (covered d (rw_off r) (length b)))) /\
    s' = set_mem (store_bytes (rw_data r) (disk_read d (rw_off r) (length b)) (mem s)) s).
Proof.
  intros Hd Hb. apply wp_bind, wp_get. cbv beta zeta. destruct (Z.leb_spec (size (private s)) (rw_off r)) as [Hle|Hlt].
  - apply wp_ret. destruct Hd as [_ _ Hs _]. unfold disk_read, covered. rewrite Hs in Hle.
    replace (Z.to_nat (Z.of_nat (length d) - rw_off r)) with 0%nat by lia. rewrite Nat.min_0_r. simpl. by destruct s.
  - rewrite (to_transfer (mem s) _ r b d) by done. destruct Hd as [Hd Hdc Hs Hr], Hb as [Hb Hbc Hbs Hbr Ho Ha].
    pose proof (length_disk_read d (rw_off r) (length b) ltac:(lia)) as Hn.
    assert (covered d (rw_off r) (length b) <= length b /\ covered d (rw_off r) (length b) + Z.to_nat (rw_off r) <= length d)%nat
      as [Hle Hle'] by (unfold covered; lia).
    apply wp_bind, wp_zoom. rewrite u32_small, <-Hn by lia. eapply wp_mono; [apply libc_memcpy_spec|].
    + unfold disk_read. apply bytes_at_take. rewrite <-(Z2Nat.id (rw_off r)) at 1 by lia. apply bytes_at_drop; [lia|done].
    + by apply Forall_take, Forall_drop.
    + eapply bytes_at_writable; [done|lia].
    + rewrite Hn. lia.
    + lia.
    + intros x m' [_ ->]. by apply wp_ret.
Qed.

Lemma ram_write_ok s r b d :
  disk_at (mem s) (private s) d -> buffer_at (mem s) (private s) r b ->
  wp (ram_write r) s (fun x s' => x = (0, Some (Z.of_nat (covered d (rw_off r) (length b)))) /\
    s' = set_mem (store_bytes (data (private s) + Z.of_nat (Z.to_nat (rw_off r))) (take (covered d (rw_off r) (length b)) b) (mem s)) s).
Proof.
  intros Hd Hb. apply wp_bind, wp_get. cbv beta zeta. destruct (Z.leb_spec (size (private s)) (rw_off r)) as [Hle|Hlt].
  - apply wp_ret. destruct Hd as [_ _ Hs _]. unfold covered. rewrite Hs in Hle.
    replace (Z.to_nat (Z.of_nat (length d) - rw_off r)) with 0%nat by lia. rewrite Nat.min_0_r. simpl. by destruct s.
  - rewrite (to_transfer (mem s) _ r b d) by done. destruct Hd as [Hd Hdc Hs Hr], Hb as [Hb Hbc Hbs Hbr Ho Ha].
    assert (covered d (rw_off r) (length b) <= length b /\ covered d (rw_off r) (length b) + Z.to_nat (rw_off r) <= length d)%nat
      as [Hle Hle'] by (unfold covered; lia).
    assert (length (take (covered d (rw_off r) (length b)) b) = covered d (rw_off r) (length b)) as Hn by (rewrite length_take; lia).
    apply wp_bind, wp_zoom. rewrite u32_small by lia. rewrite <-Hn at 1.
    eapply wp_mono; [apply (libc_memcpy_spec _ _ _ (take (covered d (rw_off r) (length b)) b))|].
    + by apply bytes_at_take.
    + by apply Forall_take.
    + intros x Hx. eapply (bytes_at_writable _ _ d (length d)); [done|done|lia].
    + rewrite Hn. lia.
    + lia.
    + intros x m' [_ ->]. apply wp_ret. by rewrite Z2Nat.id by lia.
Qed.

(** ** The command line *)

(** The suffix of a size and what it stands for. *)
Definition suffix (sfx : list Z) (factor : Z) : Prop :=
  sfx = [] /\ factor = 1 \/ sfx = [75] /\ factor = 1024 \/ sfx = [77] /\ factor = 1024 * 1024.

Lemma extract_size_ok fuel a k sfx factor m :
  suffix sfx factor -> 0 < k -> k * factor < 2 ^ 31 -> cstr m a (int_text 10 k ++ sfx) ->
  (length (int_text 10 k) < fuel)%nat ->
  wp (extract_size fuel a) m (fun r m' => r = k * factor /\ m' = m).
Proof.
  intros Hsfx Hk Hkf [Hb _] Hf. apply wp_bind.
  assert (0 < factor) as Hfac by (destruct Hsfx as [[_ ->]|[[_ ->]|[_ ->]]]; lia).
  assert (exists c, stops 10 c /\ bytes_at m a (int_text 10 k ++ [c])) as (c & Hc & Hbc).
  { destruct Hsfx as [[-> _]|[[-> _]|[-> _]]]; [exists 0|exists 75|exists 77]; (split; [try (by left); right; done|]).
    - by rewrite app_nil_r in Hb.
    - rewrite <-app_assoc in Hb. by apply (bytes_at_app m a (int_text 10 k) [75; 0]) in Hb as [? [? _]]; apply bytes_at_app.
    - rewrite <-app_assoc in Hb. by apply (bytes_at_app m a (int_text 10 k) [77; 0]) in Hb as [? [? _]]; apply bytes_at_app. }
  eapply wp_mono; [apply (strtol_stops 10 k c); [done|lia|nia|done..]|]. intros r m' [-> ->].
  rewrite (proj2 (Z.eqb_neq k 0)) by lia. rewrite <-app_assoc in Hb. apply bytes_at_app in Hb as [_ Hb].
  apply wp_bind. destruct Hsfx as [[-> ->]|[[-> ->]|[-> ->]]]; simpl in Hb; destruct Hb as [H0 Hb]; (eapply wp_load; [exact H0|]); simpl.
  - apply wp_bind. eapply wp_load; [exact H0|]. apply wp_ret. split; [lia|done].
  - destruct Hb as [H1 _]. apply wp_bind. eapply wp_load; [exact H1|]. apply wp_ret. rewrite s32_small by lia. done.
  - destruct Hb as [H1 _]. apply wp_bind. eapply wp_load; [exact H1|]. apply wp_ret. rewrite s32_small by lia. done.
Qed.

Lemma extract_number_ok fuel a k m :
  0 < k <= 255 -> cstr m a (int_text 10 k) -> (length (int_text 10 k) < fuel)%nat ->
  wp (extract_number fuel a) m (fun r m' => r = k /\ m' = m).
Proof.
  intros Hk [Hb _] Hf. apply wp_bind. eapply wp_mono; [by apply (strtol_ok 10 k); [lia|lia|..]|].
  intros r m' [-> ->]. apply bytes_at_app in Hb as [_ [Hc _]]. apply wp_bind. eapply wp_load; [exact Hc|]. simpl.
  rewrite (proj2 (Z.leb_gt _ _)) by lia. rewrite Z.gtb_ltb, (proj2 (Z.ltb_ge _ _)) by lia. by apply wp_ret.
Qed.

(** A string of the program's data. *)
Definition in_data {H} `{UMemory H} (m : bmem) (a : Z) (t : list Z) : Prop :=
  cstr m a t /\ forall x, a <= x <= a + Z.of_nat (length t) -> static x.

Definition daemon_text : list Z := [45; 45; 100; 97; 101; 109; 111; 110].
Definition ramd_text : list Z := [114; 97; 109; 100].
Definition device_name (number : Z) : list Z := ramd_text ++ int_text 10 number.

Lemma device_name_length number : 0 < number <= 255 -> (length (device_name number) <= 7)%nat.
Proof.
  intros Hn. unfold device_name, int_text, unsigned_text. rewrite (proj2 (Z.ltb_ge _ _)), (proj2 (Z.eqb_neq _ 0)) by lia.
  rewrite length_app, length_fmap. pose proof (digits_length 10 32 number 3 ltac:(lia) ltac:(lia) ltac:(lia)).
  change (length ramd_text) with 4%nat. lia.
Qed.

Section start.
Context {H : Type} `{UMemory H} {W : Type} `{!DriverSys W}.
Implicit Types s : setup H W.

(** What [main] needs: the literals, its arguments and the array for the name. *)
Record invoked s (argv : list Z) (lit fmt name k factor number : Z) : Prop := {
  iv_ok : UMem.uproc_ok (s_proc s);
  iv_lit : in_data (UMem.umem (s_proc s)) lit daemon_text;
  iv_fmt : in_data (UMem.umem (s_proc s)) fmt (ramd_text ++ [37; 105]);
  iv_argv : exists p a1 a2 a3 sfx, argv = [p; a1; a2; a3] /\ suffix sfx factor /\
    in_data (UMem.umem (s_proc s)) a1 daemon_text /\
    in_data (UMem.umem (s_proc s)) a2 (int_text 10 k ++ sfx) /\
    in_data (UMem.umem (s_proc s)) a3 (int_text 10 number);
  iv_name : writable (UMem.umem (s_proc s)) name 8 /\ (forall x, name <= x < name + 8 -> static x) /\
    (fmt + 6 < name \/ name + 8 <= fmt);
  iv_size : 0 < k /\ k * factor < 2 ^ 31;
  iv_number : 0 < number <= 255;
}.

Lemma in_data_keeps s s' a t : keeps (s_proc s) (s_proc s') -> in_data (UMem.umem (s_proc s)) a t ->
  in_data (UMem.umem (s_proc s')) a t.
Proof.
  intros Hk [[Hb Hc] Hs]. split; [split; [|done]|done]. eapply bytes_at_kept; [done|].
  intros x Hx. apply Hk. left. apply Hs. rewrite length_app in Hx. simpl in Hx. lia.
Qed.

Lemma print_name_ok fuel name fmt number m :
  cstr m fmt (ramd_text ++ [37; 105]) -> fmt + 6 < name \/ name + 8 <= fmt -> writable m name 8 -> 0 < number <= 255 ->
  (6 < fuel)%nat ->
  wp (vsprintf fuel name fmt [VInt number]) m (fun _ m' => m' = store_bytes name (device_name number ++ [0]) m).
Proof.
  intros Hf Ha Hw Hn Hfuel. pose proof (device_name_length number Hn).
  eapply wp_mono; [apply (vsprintf_ok m name 8 fmt (ramd_text ++ [37; 105]) _ [RInt number] (device_name number))|].
  - done.
  - simpl. lia.
  - apply Forall2_cons. split; [|constructor]. split; [done|]. rewrite s32_small; lia.
  - transitivity (Some (ramd_text ++ int_text 10 (s32 number) ++ [])); [done|]. rewrite s32_small, app_nil_r by lia. done.
  - lia.
  - lia.
  - done.
  - simpl. lia.
  - by intros r m' [_ ->].
Qed.

Lemma reads_ok {A} (c : M bmem A) s (P : A -> Prop) (Q : A -> setup H W -> Prop) :
  wp c (UMem.umem (s_proc s)) (fun r m' => P r /\ m' = UMem.umem (s_proc s)) -> (forall r, P r -> Q r s) ->
  wp (in_proc (UMem.on_umem c)) s Q.
Proof.
  intros Hc HQ. apply wp_zoom, wp_zoom. eapply wp_mono; [exact Hc|]. intros r m' [Hr ->].
  replace (set_proc (UMem.set_umem (UMem.umem (s_proc s)) (s_proc s)) s) with s by (by destruct s as [[]]). auto.
Qed.

(** The name is written and the device registered, on top of the memory of the disk. *)
Lemma register_ok fuel s name fmt number :
  UMem.uproc_ok (s_proc s) -> in_data (UMem.umem (s_proc s)) fmt (ramd_text ++ [37; 105]) ->
  writable (UMem.umem (s_proc s)) name 8 -> (forall x, name <= x < name + 8 -> static x) ->
  (fmt + 6 < name \/ name + 8 <= fmt) -> 0 < number <= 255 -> (8 < fuel)%nat ->
  wp (in_proc (UMem.on_umem (vsprintf fuel name fmt [VInt number])) ;;;
      driver_create fuel name 384 ram_ops) s (fun r s' =>
    UMem.uproc_ok (s_proc s') /\
    (forall x, UMem.owned (s_proc s) x -> ~ name <= x < name + 8 -> UMem.umem (s_proc s') !! x = UMem.umem (s_proc s) !! x) /\
    (forall p n, UMem.blocks (s_proc s) !! p = Some n -> UMem.blocks (s_proc s') !! p = Some n) /\
    (r.1 < 0 \/ r.1 = 0 /\ cstr (UMem.umem (s_proc s')) (dev_name (s_drv s')) (device_name number))).
Proof.
  intros Hok [Hfmt _] Hw Hst Hap Hn Hf. pose proof (device_name_length number Hn) as Hl.
  apply wp_bind, wp_zoom, wp_zoom. eapply wp_mono; [apply print_name_ok; [done..|lia]|]. intros _ m ->.
  set (s1 := set_proc _ s).
  assert (only (fun x => name <= x < name + 8) (UMem.umem (s_proc s)) (UMem.umem (s_proc s1))) as Ho.
  { eapply only_mono; [apply store_bytes_only|]. intros x. cbv beta. rewrite length_app.
    change (length [0]) with 1%nat. lia. }
  assert (UMem.uproc_ok (s_proc s1)) as Hok1.
  { destruct Hok as [H1' H2' H3']. split; [done..|]. intros p n Hp. eapply only_writable; [exact Ho|by apply H3']. }
  eapply wp_mono; [apply (driver_create_ok fuel name 384 ram_ops (device_name number)); [done| | |lia|unfold MALLOC_MAX; lia]|].
  - split; [apply bytes_at_store_bytes|]. unfold device_name, int_text, unsigned_text.
    rewrite (proj2 (Z.ltb_ge number 0)), (proj2 (Z.eqb_neq number 0)) by lia.
    apply Forall_app. split; [repeat constructor; lia|]. apply Forall_fmap.
    eapply Forall_impl; [apply (digits_range 10 32 number); lia|]. simpl. intros d Hd.
    unfold digit_char, is_char. rewrite (proj2 (Z.ltb_lt _ _)) by lia. lia.
  - intros x Hx. left. apply Hst. unfold UMem.in_block in Hx. lia.
  - intros [r o] s2 (Hok2 & Hk & _ & Hr). simpl in *. split_and!; [done| | |].
    + intros x Hx Hnx. rewrite (Hk x) by done. by apply Ho.
    + intros p n Hp. change (UMem.blocks (s_proc s1) !! p = Some n) in Hp.
      destruct (r <? 0); [destruct Hr as [->|Ha]; [done|]|destruct Hr as (_ & Ha & _)]; by eapply UMem.allocated_blocks.
    + destruct (Z.ltb_spec r 0); [by left|right]. destruct Hr as (-> & _ & Hc & _). done.
Qed.

End start.

(** ** Histories of the device

    One request of a client: what its buffer held when the kernel sent it, the
    answer and what the buffer held then. *)
Record exchange := { e_req : req_rdwr; e_sent : list Z; e_resp : response; e_got : list Z }.

(** The kernel maps and unmaps buffers between the requests; the disk is memory of
    the driver's own. *)
Inductive history : proc ramd_private -> list exchange -> proc ramd_private -> Prop :=
| hist_start s : history s [] s
| hist_kernel s t s1 m :
    history s t s1 -> (forall x, in_disk (private s1) x -> m !! x = mem s1 !! x) ->
    history s t (set_mem m s1)
| hist_request s t s1 s2 e :
    history s t s1 -> buffer_at (mem s1) (private s1) (e_req e) (e_sent e) ->
    op (rw_hdr (e_req e)) = VFS_READ \/ op (rw_hdr (e_req e)) = VFS_WRITE ->
    dispatch ram_ops (ReqRdwr (e_req e)) s1 = Done (tt, s2) -> out s2 = out s1 ++ [e_resp e] ->
    bytes_at (mem s2) (rw_data (e_req e)) (e_got e) -> length (e_got e) = length (e_sent e) ->
    history s (t ++ [e]) s2.

(** What a disk with the contents [d] answers, and what it holds after. *)
Definition spec_resp (d : list Z) (e : exchange) : response :=
  RespRdwr (slave_id (rw_hdr (e_req e))) 0 (Some (Z.of_nat (covered d (rw_off (e_req e)) (length (e_sent e))))).
Definition spec_got (d : list Z) (e : exchange) : list Z :=
  if op (rw_hdr (e_req e)) =? VFS_READ
  then disk_read d (rw_off (e_req e)) (length (e_sent e)) ++
       drop (covered d (rw_off (e_req e)) (length (e_sent e))) (e_sent e)
  else e_sent e.
Definition spec_disk (d : list Z) (e : exchange) : list Z :=
  if op (rw_hdr (e_req e)) =? VFS_READ then d else disk_write d (rw_off (e_req e)) (e_sent e).

Fixpoint legal (d : list Z) (t : list exchange) : Prop :=
  match t with
  | [] => True
  | e :: t => e_resp e = spec_resp d e /\ e_got e = spec_got d e /\ legal (spec_disk d e) t
  end.

Lemma legal_snoc t e : forall d, legal d (t ++ [e]) <->
  legal d t /\ e_resp e = spec_resp (foldl spec_disk d t) e /\ e_got e = spec_got (foldl spec_disk d t) e.
Proof. induction t as [|x t IH]; intros d; simpl; [tauto|]. rewrite IH. tauto. Qed.

Definition touched (ram : ramd_private) (r : req_rdwr) (x : Z) : Prop := in_disk ram x \/ in_buffer r x.

Lemma disk_write_at m ram d off b :
  disk_at m ram d -> 0 <= off -> Forall is_char b ->
  disk_at (store_bytes (data ram + Z.of_nat (Z.to_nat off)) (take (covered d off (length b)) b) m) ram (disk_write d off b).
Proof.
  intros [Hb Hc Hs Hr] Ho Hbc. unfold disk_write. set (n := covered d off (length b)).
  assert (n <= length b /\ (length d < n + Z.to_nat off -> n = 0))%nat as [Hn Hn'] by (unfold n, covered; lia).
  assert (length (take n b) = n) as Hl by (rewrite length_take; lia).
  destruct (decide (n = 0%nat)) as [->|Hn0].
  { unfold splice. simpl. rewrite Nat.add_0_r, take_drop. done. }
  split.
  - apply bytes_at_splice; [done|lia].
  - apply Forall_app. split; [by apply Forall_take|]. apply Forall_app. split; [by apply Forall_take|by apply Forall_drop].
  - rewrite length_splice; [done|lia].
  - done.
Qed.

(** One request: the answer, the buffer and the disk are those of the list. *)
Lemma exchange_ok s r b d :
  disk_at (mem s) (private s) d -> buffer_at (mem s) (private s) r b ->
  op (rw_hdr r) = VFS_READ \/ op (rw_hdr r) = VFS_WRITE ->
  wp (dispatch ram_ops (ReqRdwr r)) s (fun _ s' => private s' = private s /\
    only (touched (private s) r) (mem s) (mem s') /\
    forall x g, let e := {| e_req := r; e_sent := b; e_resp := x; e_got := g |} in
      disk_at (mem s') (private s) (spec_disk d e) /\
      bytes_at (mem s') (rw_data r) (spec_got d e) /\ out s' = out s ++ [spec_resp d e]).
Proof.
  intros Hd Hb Hop. unfold dispatch, spec_disk, spec_got, spec_resp. simpl hdr. simpl rw_hdr.
  pose proof Hd as [Hdb Hdc Hds Hdr]. pose proof Hb as [Hbb Hbc Hbs Hbr Ho Ha].
  set (n := covered d (rw_off r) (length b)).
  assert (n <= length b /\ (length d < n + Z.to_nat (rw_off r) -> n = 0))%nat as [Hn Hn'] by (unfold n, covered; lia).
  destruct Hop as [Hop|Hop]; rewrite Hop; simpl; apply wp_bind.
  - eapply wp_mono; [by eapply ram_read_ok|]. intros x s' [-> ->]. apply wp_modify. simpl. fold n.
    pose proof (length_disk_read d (rw_off r) (length b) ltac:(lia)) as Hl. fold n in Hl.
    split_and!; [done| |intros _ _; split_and!].
    + eapply only_mono; [apply store_bytes_only|]. intros x Hx. right. unfold in_buffer. cbv beta in Hx. lia.
    + split; try done. apply bytes_at_store_bytes_ne; [done|]. lia.
    + apply bytes_at_app. split; [apply bytes_at_store_bytes|]. rewrite Hl.
      apply bytes_at_store_bytes_ne; [apply bytes_at_drop; [lia|done]|]. rewrite Hl. lia.
    + done.
  - eapply wp_mono; [by eapply ram_write_ok|]. intros x s' [-> ->]. apply wp_modify. simpl. fold n.
    assert (length (take n b) = n) as Hl by (rewrite length_take; lia).
    split_and!; [done| |intros _ _; split_and!; [|destruct (decide (n = 0%nat)) as [->|]|done]].
    + eapply only_mono; [apply store_bytes_only|]. intros x Hx. cbv beta in Hx. rewrite Hl in Hx. left. unfold in_disk. lia.
    + apply disk_write_at; [done|lia|done].
    + done.
    + apply bytes_at_store_bytes_ne; [done|]. rewrite Hl. lia.
Qed.

Lemma history_ok s t s' d :
  disk_at (mem s) (private s) d -> history s t s' ->
  private s' = private s /\ legal d t /\ disk_at (mem s') (private s') (foldl spec_disk d t).
Proof.
  intros Hd Hh. induction Hh as [s|s t s1 m Hh IH Hm|s t s1 s2 e Hh IH Hb Hop Hrun Hout Hgot Hlen].
  - done.
  - destruct (IH Hd) as (Hp & Hl & Hd'). split_and!; [done..|]. destruct Hd' as [Hb Hc Hs Hr]. split; try done.
    eapply bytes_at_kept; [done|]. intros x Hx. apply Hm. unfold in_disk. rewrite Hs. simpl in Hx. lia.
  - destruct (IH Hd) as (Hp & Hl & Hd'). pose proof (exchange_ok s1 _ _ _ Hd' Hb Hop) as Hw.
    unfold wp in Hw. rewrite Hrun in Hw. destruct Hw as (Hp' & _ & Hw).
    specialize (Hw (e_resp e) (e_got e)). destruct e as [r b x g]. simpl in *. destruct Hw as (Hdisk & Hbuf & Ho).
    rewrite foldl_app, legal_snoc, Hp'. simpl. split_and!; [done..| | |done].
    + rewrite Hout in Ho. by apply app_inj_tail in Ho as [_ ->].
    + eapply bytes_at_inj; [done..|]. rewrite Hlen. unfold spec_got. simpl. destruct (op (rw_hdr r) =? VFS_READ); [|done].
      rewrite length_app, length_disk_read, length_drop by apply Hb. unfold covered. lia.
Qed.

(** ** Theorems *)

(** C33: The memory disk behaves as a list of bytes of fixed size, whatever the kernel
    maps and unmaps between the requests: every answer, what the client finds in its
    buffer and what the disk holds later are those of the list, reads and writes being
    cut at its end; and the next request is answered and touches nothing outside its
    buffer and the disk. *)
Theorem ramd_refines s t s' d :
  disk_at (mem s) (private s) d -> history s t s' ->
  legal d t /\ disk_at (mem s') (private s) (foldl spec_disk d t) /\
  forall r b, buffer_at (mem s') (private s') r b -> op (rw_hdr r) = VFS_READ \/ op (rw_hdr r) = VFS_WRITE ->
    exists s2, dispatch ram_ops (ReqRdwr r) s' = Done (tt, s2) /\
      only (touched (private s) r) (mem s') (mem s2) /\ length (out s2) = S (length (out s')).
Proof.
  intros Hd Hh. destruct (history_ok s t s' d Hd Hh) as (Hp & Hl & Hd'). rewrite Hp in Hd'. split_and!; [done..|].
  intros r b Hb Hop. rewrite <-Hp in Hd'. pose proof (exchange_ok s' r b _ Hd' Hb Hop) as Hw. apply wp_run in Hw as ([] & s2 & Hrun & _ & Ho & Hw).
  exists s2. rewrite <-Hp. split_and!; [done..|]. destruct (Hw (RespClose 0 0) []) as (_ & _ & ->).
  rewrite length_app. simpl. lia.
Qed.

(** Without --daemon the driver prints its usage and exits. *)
Lemma main_without_daemon {H} `{UMemory H} {W} `{!DriverSys W} fuel p a b lit fmt name (s : setup H W) :
  wp (main fuel [p; a; b] lit fmt name) s (fun r s' => r = inl 1 /\ s_said s' = s_said s ++ ["ramd [OPTS] SIZE NUMBER"]).
Proof. unfold main. simpl. apply wp_bind, wp_ret. simpl. by apply wp_bind, wp_modify, wp_ret. Qed.

(** ** Samples *)

Definition sample_req (op off : Z) : req_rdwr :=
  {| rw_hdr := {| op := op; slave_id := 7 |}; rw_inode := 0; rw_size := 3; rw_off := off; rw_data := 2000 |}.
Definition sample_ram : ramd_private := {| size := 4; data := 1000 |}.
Definition ram_start : proc ramd_private := {|
  mem := store_bytes 1000 [1; 2; 3; 4] (store_bytes 2000 [5; 6; 7] ∅);
  private := sample_ram; running := 1; out := []; uprints := [];
|}.
Definition after (r : req_rdwr) (s : proc ramd_private) : proc ramd_private :=
  match dispatch ram_ops (ReqRdwr r) s with Done (_, s') => s' | _ => s end.
Definition written : exchange := {|
  e_req := sample_req VFS_WRITE 2; e_sent := [5; 6; 7]; e_resp := RespRdwr 7 0 (Some 2); e_got := [5; 6; 7] |}.
Definition read_back : exchange := {|
  e_req := sample_req VFS_READ 1; e_sent := [5; 6; 7]; e_resp := RespRdwr 7 0 (Some 3); e_got := [2; 5; 6] |}.

Lemma ramd_refines_witness :
  legal [1; 2; 3; 4] [written; read_back] /\ foldl spec_disk [1; 2; 3; 4] [written; read_back] = [1; 2; 5; 6].
Proof.
  assert (forall l, Forall is_char l <-> Forall (fun c => (-128 <=? c) && (c <? 128) = true) l) as Hch.
  { intros l. apply Forall_iff. intros c. unfold is_char. lia. }
  split; [|by vm_compute].
  apply (ramd_refines ram_start [written; read_back] (after (e_req read_back) (after (e_req written) ram_start))).
  - split; [by vm_compute|apply Hch, (bool_decide_unpack _); by vm_compute|done|simpl; lia].
  - apply (hist_request _ [written] (after (e_req written) ram_start)); try by vm_compute.
    + apply (hist_request _ [] ram_start); try by vm_compute.
      * apply hist_start.
      * split; [by vm_compute|apply Hch, (bool_decide_unpack _); by vm_compute|done|apply (bool_decide_unpack _); by vm_compute..].
      * by right.
    + split; [by vm_compute|apply Hch, (bool_decide_unpack _); by vm_compute|done|apply (bool_decide_unpack _); by vm_compute..].
    + by left.
Defined.

#[local] Existing Instances Malloc.bump_pages Malloc.malloc_uheap UMem.bump_memory.

#[local] Instance toy_sys : DriverSys unit := {
  channel_create _ := ret 3;
  device_create _ _ _ _ := ret 1;
  os_close _ := ret 0;
  os_fork := ret 0;
  channel_create_returns _ _ := I;
  device_create_returns _ _ _ _ _ := I;
  os_close_returns _ _ := I;
  os_fork_returns _ := I;
}.

(** The literals, the arguments --daemon, 2K and 12, and the array for the name. *)
Definition start_memory : bmem :=
  store_bytes 100 (daemon_text ++ [0]) (store_bytes 120 (ramd_text ++ [37; 105; 0])
    (store_bytes 140 (daemon_text ++ [0]) (store_bytes 160 [50; 75; 0] (store_bytes 170 [49; 50; 0]
      (store_bytes 180 (replicate 8 0) ∅))))).
Definition start_setup : setup (Malloc.heap Z) unit := {|
  s_proc := {| UMem.uheap := Malloc.first_heap; UMem.umem := start_memory; UMem.blocks := ∅ |};
  s_os := tt;
  s_drv := {| dev_name := 0; channel_fd := 0; dev_id := 0; is_running := 0; vops := 0 |};
  s_said := [];
|}.


End Ramd.
