(* ===== verification/Ring.v ===== *)
(** Ring buffers: what an array with a first position and a number of elements holds, as a
    list.  The keyboard driver and the terminal controller keep their input this way. *)

From S2P Require Import Prelude.

Module Ring.

Section ring.
Context {A : Type}.
Implicit Types (buf : list A) (start : Z) (n : nat).

(** The position of the [i]-th element. *)
Definition at_pos buf start (i : nat) : nat := Z.to_nat ((start + Z.of_nat i) mod Z.of_nat (length buf)).

Definition contents buf start n : list A := omap (fun i => buf !! at_pos buf start i) (seq 0 n).

Lemma at_pos_lt buf start i : buf <> [] -> (at_pos buf start i < length buf)%nat.
Proof.
  intros Hb. unfold at_pos. assert (0 < length buf)%nat by (destruct buf; simpl; [done|lia]).
  pose proof (Z.mod_pos_bound (start + Z.of_nat i) (Z.of_nat (length buf)) ltac:(lia)). lia.
Qed.

Lemma at_pos_inj buf start i j :
  (i < length buf)%nat -> (j < length buf)%nat -> at_pos buf start i = at_pos buf start j -> i = j.
Proof.
  intros Hi Hj. unfold at_pos. set (N := Z.of_nat (length buf)) in *. intros E.
  pose proof (Z.mod_pos_bound (start + Z.of_nat i) N ltac:(lia)).
  pose proof (Z.mod_pos_bound (start + Z.of_nat j) N ltac:(lia)).
  assert ((start + Z.of_nat i) mod N = (start + Z.of_nat j) mod N) as E' by lia. clear E.
  pose proof (Z.div_mod (start + Z.of_nat i) N ltac:(lia)) as H1. pose proof (Z.div_mod (start + Z.of_nat j) N ltac:(lia)) as H2.
  rewrite E' in H1. set (q1 := (start + Z.of_nat i) / N) in *. set (q2 := (start + Z.of_nat j) / N) in *.
  assert (q1 = q2) as Eq; [|rewrite Eq in H1; lia].
  destruct (Z.lt_trichotomy q1 q2) as [Hl|[Hl|Hl]]; [|done|]; exfalso.
  - assert (N * (q1 + 1) <= N * q2) by (apply Z.mul_le_mono_nonneg_l; lia). lia.
  - assert (N * (q2 + 1) <= N * q1) by (apply Z.mul_le_mono_nonneg_l; lia). lia.
Qed.

Lemma length_contents buf start n : buf <> [] -> length (contents buf start n) = n.
Proof.
  intros Hb. unfold contents. rewrite <-(length_seq n 0) at 2. generalize (seq 0 n) as l. induction l as [|i l IH]; [done|]. simpl.
  destruct (lookup_lt_is_Some_2 buf (at_pos buf start i)) as [x ->]; [by apply at_pos_lt|]. simpl. f_equal. exact IH.
Qed.

Lemma contents_ext buf buf' start n :
  (forall i, (i < n)%nat -> buf' !! at_pos buf' start i = buf !! at_pos buf start i) ->
  contents buf' start n = contents buf start n.
Proof.
  intros He. unfold contents. apply list_omap_ext, Forall2_same_length_lookup. split; [done|].
  intros k i j Hi Hj. apply lookup_seq in Hi as [-> Hk]. apply lookup_seq in Hj as [-> _]. by apply He.
Qed.

(** One more element behind the last one. *)
Lemma contents_push buf start n x : (n < length buf)%nat ->
  contents (<[at_pos buf start n := x]> buf) start (S n) = contents buf start n ++ [x].
Proof.
  intros Hn. set (buf' := <[at_pos buf start n := x]> buf).
  assert (forall i, at_pos buf' start i = at_pos buf start i) as Hp
    by (intros i; unfold at_pos, buf'; by rewrite length_insert).
  assert (buf <> []) as Hb by (intros ->; simpl in Hn; lia).
  unfold contents at 1. rewrite seq_S, omap_app. simpl. rewrite Hp.
  assert (buf' !! at_pos buf start n = Some x) as -> by (apply list_lookup_insert_eq; by apply at_pos_lt). f_equal. apply contents_ext.
  intros i Hi. rewrite Hp. unfold buf'. rewrite list_lookup_insert_ne; [done|]. intros E. apply at_pos_inj in E; lia.
Qed.

(** The first element taken away. *)
Lemma contents_pop buf start n x start' :
  buf !! at_pos buf start 0 = Some x -> (start' - (start + 1)) mod Z.of_nat (length buf) = 0 ->
  contents buf start (S n) = x :: contents buf start' n.
Proof.
  intros Hx Hs. unfold contents. cbn [seq omap list_omap]. rewrite Hx. f_equal. apply list_omap_ext, Forall2_same_length_lookup.
  split; [by rewrite !length_seq|]. intros k i j Hi Hj. apply lookup_seq in Hi as [-> _]. apply lookup_seq in Hj as [-> _].
  f_equal. unfold at_pos. f_equal.
  assert (Z.of_nat (length buf) <> 0) as Hn by (intros E; destruct buf; simpl in *; [done|lia]).
  apply Z.mod_divide in Hs as [k' Hs]; [|done].
  replace (start' + Z.of_nat (0 + k)) with (start + Z.of_nat (1 + k) + k' * Z.of_nat (length buf)) by lia.
  by rewrite Z.mod_add.
Qed.
End ring.
End Ring.
