(* ===== verification/Wire.v ===== *)
(** Messages as bytes: the structures the kernel and the servers exchange over channels.

    A structure is a list of fields of 1, 2, 4 or 8 bytes, which the ABI of i386 lays out
    in order without padding for the structures of include/kernel/fs/vfs/message.h and
    userland/lib/include/zos/vfs.h that are modelled. *)

From S2P Require Import Prelude KString Stack.

Module Wire.
Import Stack.

(** A number of [n] bytes, least significant byte first, as [char]s. *)
Fixpoint put_le (n : nat) (v : Z) : list Z :=
  match n with O => [] | S n => s8 v :: put_le n (v / 256) end.
Fixpoint get_le (l : list Z) : Z :=
  match l with [] => 0 | c :: l => u8 c + 256 * get_le l end.

Definition layout : Type := list nat.
Definition sizeof (ws : layout) : nat := sum_list ws.

Fixpoint encode (ws : layout) (vs : list Z) : list Z :=
  match ws, vs with
  | w :: ws, v :: vs => put_le w v ++ encode ws vs
  | _, _ => []
  end.
(** The fields in front of a message; [None] when it is too short. *)
Fixpoint decode (ws : layout) (l : list Z) : option (list Z) :=
  match ws with
  | [] => Some []
  | w :: ws =>
      if (length l <? w)%nat then None
      else (fun vs => get_le (take w l) :: vs) <$> decode ws (drop w l)
  end.

Lemma s8_range x : is_char (s8 x).
Proof. unfold is_char, s8. pose proof (Z.mod_pos_bound (x + 2 ^ 7) (2 ^ 8) ltac:(lia)). lia. Qed.

Lemma length_put_le n : forall v, length (put_le n v) = n.
Proof. induction n as [|n IH]; intros v; simpl; [done|by rewrite IH]. Qed.

Lemma put_le_chars n : forall v, Forall is_char (put_le n v).
Proof. induction n as [|n IH]; intros v; [done|]. constructor; [apply s8_range|apply IH]. Qed.

Lemma get_put n : forall v, get_le (put_le n v) = v mod 256 ^ Z.of_nat n.
Proof.
  induction n as [|n IH]; intros v; [simpl; by rewrite Z.mod_1_r|].
  cbn [put_le get_le]. rewrite IH, u8_s8, Nat2Z.inj_succ, Z.pow_succ_r by lia.
  pose proof (Z.pow_pos_nonneg 256 (Z.of_nat n) ltac:(lia) ltac:(lia)). by rewrite Z.rem_mul_r by lia.
Qed.

Lemma length_encode ws : forall vs, length ws = length vs -> length (encode ws vs) = sizeof ws.
Proof.
  induction ws as [|w ws IH]; intros [|v vs] Hl; simplify_eq/=; [done|].
  by rewrite length_app, length_put_le, IH.
Qed.

Lemma encode_chars ws : forall vs, Forall is_char (encode ws vs).
Proof. induction ws as [|w ws IH]; intros [|v vs]; try done. apply Forall_app. split; [apply put_le_chars|apply IH]. Qed.

(** What a field keeps of a value. *)
Definition cut (w : nat) (v : Z) : Z := v mod 256 ^ Z.of_nat w.

Lemma decode_encode ws rest : forall vs, length ws = length vs ->
  decode ws (encode ws vs ++ rest) = Some (zip_with cut ws vs).
Proof.
  induction ws as [|w ws IH]; intros [|v vs] Hl; simplify_eq/=; [done|]. rewrite <-app_assoc.
  destruct (Nat.ltb_spec (length (put_le w v ++ encode ws vs ++ rest)) w) as [Hlt|_].
  { rewrite length_app, length_put_le in Hlt. lia. }
  rewrite take_app_length', drop_app_length' by (by rewrite length_put_le). by rewrite IH, get_put.
Qed.

Lemma encode_app ws2 vs2 ws1 : forall vs1, length ws1 = length vs1 ->
  encode (ws1 ++ ws2) (vs1 ++ vs2) = encode ws1 vs1 ++ encode ws2 vs2.
Proof. induction ws1 as [|w ws1 IH]; intros [|v vs1] Hl; simplify_eq/=; [done|]. by rewrite IH, app_assoc. Qed.

Lemma decode_prefix ws1 ws2 vs1 vs2 : length ws1 = length vs1 ->
  decode ws1 (encode (ws1 ++ ws2) (vs1 ++ vs2)) = Some (zip_with cut ws1 vs1).
Proof. intros Hl. by rewrite encode_app, decode_encode. Qed.

(** The fields behind the first ones, as [channel_master_write] passes them on. *)
Lemma drop_encode ws1 ws2 vs1 vs2 : length ws1 = length vs1 ->
  drop (sizeof ws1) (encode (ws1 ++ ws2) (vs1 ++ vs2)) = encode ws2 vs2.
Proof. intros Hl. rewrite encode_app by done. apply drop_app_length'. by rewrite length_encode. Qed.

Lemma decode_all ws vs : length ws = length vs -> decode ws (encode ws vs) = Some (zip_with cut ws vs).
Proof. intros Hl. by rewrite <-(app_nil_r (encode ws vs)), decode_encode. Qed.

End Wire.
