(* ===== verification/Keyboard.v ===== *)
(** The keyboard driver: userland/driver/kbd/src.

    The interrupt thread turns the scan codes of the keyboard into input events and
    puts them into a ring buffer; the driver thread takes them out for the reader of
    /dev/kbd.  A read on an empty buffer is kept ([slave] and [req]) and answered by
    the interrupt thread.  Both threads work under [lock], so a step of the driver is
    one request or one interrupt. *)

From S2P Require Import Prelude Ring KString Stack Wire UMem Driver.

(** ** Events: userland/lib/include/zos/input.h *)

Module Input.

Record input_event := { type : Z; code : Z; value : Z }.

Definition EV_KEY : Z := 1.
Definition EV_KEY_RELEASED : Z := 0.
Definition EV_KEY_PRESSED : Z := 1.
Definition KEY_RESERVED : Z := 0.
Definition KEY_LEFTCTRL : Z := 29.
Definition KEY_LEFTSHIFT : Z := 42.
Definition KEY_RIGHTSHIFT : Z := 54.
Definition KEY_SPACE : Z := 57.

(** sizeof (struct input_event) and its bytes in memory: two half words and a word. *)
Definition sizeof_event : Z := 8.
Definition event_bytes (e : input_event) : list Z :=
  [s8 (type e); s8 (type e / 256); s8 (code e); s8 (code e / 256)] ++ Stack.word_bytes (value e).

Arguments event_bytes : simpl never.

#[export] Instance input_event_eq : EqDecision input_event.
Proof. solve_decision. Defined.
End Input.

Module Keyboard.
Import Driver Input Stack.

(** ** The ring buffer: buffer.c *)

Definition BUFFER_MAX_SIZE : Z := 255.

Record ring := { buffer : list input_event; begin : Z; finish : Z }.

Definition buffer_empty (b : ring) : bool := begin b =? finish b.
Definition buffer_full (b : ring) : bool :=
  ((finish b =? BUFFER_MAX_SIZE) && (begin b =? 0)) || (begin b - finish b =? 1).

(** The result, and the event where one was taken. *)
Definition buffer_pop : M ring (Z * option input_event) :=
  let! b := get in
  if buffer_empty b then ret (1, None)
  else match buffer b !! Z.to_nat (begin b) with
  | None => undef
  | Some e =>
      let next := begin b + 1 in
      put {| buffer := buffer b; begin := if next >? BUFFER_MAX_SIZE then 0 else next; finish := finish b |} ;;;
      ret (0, Some e)
  end.

Definition buffer_push (e : input_event) : M ring Z :=
  let! b := get in
  if buffer_full b then ret 1
  else match buffer b !! Z.to_nat (finish b) with
  | None => undef
  | Some _ =>
      let next := finish b + 1 in
      put {| buffer := <[Z.to_nat (finish b) := e]> (buffer b); begin := begin b;
             finish := if next >? BUFFER_MAX_SIZE then 0 else next |} ;;;
      ret 0
  end.

(** ** Scan codes: arch/i386/keymap.c *)

Definition keymap : list Z :=
  [1; 2; 3; 4; 5; 6; 7; 8; 9; 10; 11; 12; 13; 14; 15; 16; 17; 18; 19; 20; 21; 22; 23; 24; 25; 26; 27; 28; 29; 30;
   31; 32; 33; 34; 35; 36; 37; 38; 39; 40; 41; 42; 43; 44; 45; 46; 47; 48; 49; 50; 51; 52; 53; 54; 55; 56; 57] ++
  replicate 71 KEY_RESERVED.

(** [scan] is an [uint8_t]; a code outside of the table is [None]. *)
Definition keymap_scan_to_input_event (scan : Z) : option input_event :=
  let scan := u8 (scan - 1) in
  let '(value, scan) := if scan <? 128 then (EV_KEY_PRESSED, scan) else (EV_KEY_RELEASED, u8 (scan - 128)) in
  (fun c => {| type := EV_KEY; code := c; value := value |}) <$> keymap !! Z.to_nat scan.

(** ** The driver: main.c *)

Record kbd := { opened : Z; slave : Z; req : req_rdwr; lock : bool; events : ring }.

Definition set_opened (v : Z) (k : kbd) : kbd :=
  {| opened := v; slave := slave k; req := req k; lock := lock k; events := events k |}.
Definition set_slave (v : Z) (k : kbd) : kbd :=
  {| opened := opened k; slave := v; req := req k; lock := lock k; events := events k |}.
Definition set_req (r : req_rdwr) (k : kbd) : kbd :=
  {| opened := opened k; slave := slave k; req := r; lock := lock k; events := events k |}.
Definition set_lock (b : bool) (k : kbd) : kbd :=
  {| opened := opened k; slave := slave k; req := req k; lock := b; events := events k |}.
Definition set_events (b : ring) (k : kbd) : kbd :=
  {| opened := opened k; slave := slave k; req := req k; lock := lock k; events := b |}.

Definition state : Type := proc kbd.
Definition upd (f : kbd -> kbd) : M state unit := modify (fun s => set_private (f (private s)) s).
Definition on_ring {A} (m : M ring A) : M state A :=
  zoom (fun s => events (private s)) (fun b s => set_private (set_events b (private s)) s) m.
Definition take_lock : M state unit :=
  spinlock_lock (fun s => lock (private s)) (fun b s => set_private (set_lock b (private s)) s).
Definition drop_lock : M state unit :=
  spinlock_unlock (fun b s => set_private (set_lock b (private s)) s).

(** [memcpy] of an event to the buffer of a reader. *)
Definition copy_event (a : Z) (e : input_event) : M state unit := on_mem (UMem.store_all a (event_bytes e)).

Definition kbd_open (request : req_open) : M state (Z * option Z) :=
  upd (set_lock false) ;;;
  let! s := get in
  if negb (opened (private s) =? 0) then ret (-1, Some 0)
  else
    upd (set_opened 1) ;;;
    upd (set_slave (-1)) ;;;
    ret (0, Some 0).

(** The event [buffer_pop] leaves in [result] when the buffer is empty is not read. *)
Definition kbd_read (msg : req_rdwr) : M state (Z * option Z) :=
  if rw_size msg <? sizeof_event then ret (-1, None)
  else
    take_lock ;;;
    let! s := get in
    if slave (private s) >=? 0 then drop_lock ;;; ret (-1, None)
    else if buffer_empty (events (private s)) then
      upd (set_req msg) ;;;
      upd (set_slave (slave_id (rw_hdr msg))) ;;;
      drop_lock ;;;
      ret (DRV_NORESPONSE, None)
    else
      let! '(_, result) := on_ring buffer_pop in
      match result with
      | None => undef
      | Some e =>
          copy_event (rw_data msg) e ;;;
          drop_lock ;;;
          ret (0, Some sizeof_event)
      end.

Definition kbd_close (msg : req_close) : M state Z := upd (set_opened 0) ;;; ret 0.

Definition kbd_ops : driver_ops kbd := {|
  d_open := Some kbd_open;
  d_read := Some kbd_read;
  d_write := None;
  d_close := Some kbd_close;
  d_ioctl := None;
|}.

(** The driver as [main] hands it to its two threads: the buffer is static and zero. *)
Definition no_event : input_event := {| type := 0; code := 0; value := 0 |}.
Definition no_req : req_rdwr :=
  {| rw_hdr := {| op := 0; slave_id := 0 |}; rw_inode := 0; rw_size := 0; rw_off := 0; rw_data := 0 |}.
Definition kbd_start : kbd := {|
  opened := 0; slave := -1; req := no_req; lock := false;
  events := {| buffer := replicate 256 no_event; begin := 0; finish := 0 |};
|}.

(** ** The interrupt thread: arch/i386/interrupt.c *)

Definition KEYBOARD_INTERRUPT : Z := 33.

(** The controller says in bit 0 of its status that a code is there; [status] is what
    the reads of the status port give. *)
Fixpoint wait_code (status : list Z) : M state unit :=
  match status with
  | [] => fun _ => Spin
  | key :: status => if Z.land key 1 =? 0 then wait_code status else ret tt
  end.

(** One turn of the loop: what [interrupt_listen] returned, the status and the scan
    code. *)
Definition interrupt_turn (listened : Z) (status : list Z) (key : Z) : M state unit :=
  if negb (listened =? KEYBOARD_INTERRUPT) then ret tt
  else
    wait_code status ;;;
    match keymap_scan_to_input_event key with
    | None => undef
    | Some event =>
        if code event =? KEY_RESERVED then ret tt
        else
          take_lock ;;;
          let! _ := on_ring (buffer_push event) in
          let! s := get in
          (if slave (private s) >=? 0 then
             let! '(_, popped) := on_ring buffer_pop in
             copy_event (rw_data (req (private s))) (default event popped) ;;;
             write_response (RespRdwr (slave (private s)) 0 (Some sizeof_event)) ;;;
             upd (set_slave (-1))
           else ret tt) ;;;
          drop_lock
    end.

(** ** The buffer as a queue *)

Definition count (b : ring) : nat := Z.to_nat ((finish b - begin b) mod 256).
Definition queue (b : ring) : list input_event := Ring.contents (buffer b) (begin b) (count b).

Record ring_ok (b : ring) : Prop := {
  rg_length : length (buffer b) = 256%nat;
  rg_begin : 0 <= begin b <= BUFFER_MAX_SIZE;
  rg_finish : 0 <= finish b <= BUFFER_MAX_SIZE;
}.

Lemma ring_nonempty b : ring_ok b -> buffer b <> [].
Proof. intros [Hl _ _] E. by rewrite E in Hl. Qed.

Lemma length_queue b : ring_ok b -> length (queue b) = count b.
Proof. intros Hb. by apply Ring.length_contents, ring_nonempty. Qed.

Lemma count_lt b : (count b <= 255)%nat.
Proof. unfold count. pose proof (Z.mod_pos_bound (finish b - begin b) 256 ltac:(lia)). lia. Qed.

Lemma buffer_empty_ok b : ring_ok b -> buffer_empty b = true <-> queue b = [].
Proof.
  intros Hb. rewrite <-length_zero_iff_nil, length_queue by done. destruct Hb as [_ Hb Hf]. unfold BUFFER_MAX_SIZE in *.
  unfold buffer_empty, count. rewrite Z.eqb_eq. split; intros H.
  - rewrite H, Z.sub_diag. done.
  - Z.to_euclidean_division_equations. lia.
Qed.

Lemma buffer_full_ok b : ring_ok b -> buffer_full b = true <-> length (queue b) = 255%nat.
Proof.
  intros Hb. rewrite length_queue by done. destruct Hb as [_ Hb Hf]. unfold buffer_full, count, BUFFER_MAX_SIZE in *.
  rewrite orb_true_iff, andb_true_iff, !Z.eqb_eq. split; intros H; Z.to_euclidean_division_equations; lia.
Qed.

Lemma finish_pos b : ring_ok b -> Z.to_nat (finish b) = Ring.at_pos (buffer b) (begin b) (count b).
Proof.
  intros [Hl Hb Hf]. unfold Ring.at_pos, count, BUFFER_MAX_SIZE in *. rewrite Hl. f_equal.
  pose proof (Z.mod_pos_bound (finish b - begin b) 256 ltac:(lia)). Z.to_euclidean_division_equations. lia.
Qed.

Lemma buffer_push_ok b e : ring_ok b ->
  wp (buffer_push e) b (fun r b' => ring_ok b' /\
    if decide (length (queue b) = 255%nat) then r = 1 /\ b' = b else r = 0 /\ queue b' = queue b ++ [e]).
Proof.
  intros Hok. apply wp_bind, wp_get. pose proof (buffer_full_ok b Hok) as Hfull. destruct (buffer_full b).
  { apply wp_ret. rewrite decide_True by (by apply Hfull). done. }
  assert (length (queue b) <> 255%nat) as Hnf by (intros E; by apply Hfull in E).
  pose proof Hnf as Hc. rewrite length_queue in Hc by done.
  pose proof (finish_pos b Hok) as Hpos. pose proof Hok as [Hl Hb Hf]. unfold BUFFER_MAX_SIZE in *.
  destruct (lookup_lt_is_Some_2 (buffer b) (Z.to_nat (finish b))) as [x ->]; [lia|].
  apply wp_bind, wp_put, wp_ret. rewrite decide_False by done. split_and!; [split; simpl|done|].
  - by rewrite length_insert.
  - done.
  - unfold BUFFER_MAX_SIZE. rewrite Z.gtb_ltb. destruct (Z.ltb_spec 255 (finish b + 1)); lia.
  - unfold queue. cbn [buffer begin]. rewrite Hpos, <-Ring.contents_push.
    + f_equal. unfold count. cbn [begin finish]. rewrite Z.gtb_ltb. unfold BUFFER_MAX_SIZE.
      unfold count in Hc.
      destruct (Z.ltb_spec 255 (finish b + 1)); Z.to_euclidean_division_equations; lia.
    + pose proof (count_lt b). lia.
Qed.

Lemma buffer_pop_ok b : ring_ok b ->
  wp buffer_pop b (fun r b' => ring_ok b' /\
    match queue b with
    | [] => r = (1, None) /\ b' = b
    | e :: q => r = (0, Some e) /\ queue b' = q
    end).
Proof.
  intros Hok. apply wp_bind, wp_get. pose proof (buffer_empty_ok b Hok) as He. destruct (buffer_empty b) eqn:E.
  { apply wp_ret. by rewrite (proj1 He). }
  assert (begin b <> finish b) as Hne by (by apply Z.eqb_neq). clear He E.
  pose proof Hok as [Hl Hb Hf]. unfold BUFFER_MAX_SIZE in *.
  destruct (lookup_lt_is_Some_2 (buffer b) (Z.to_nat (begin b))) as [e He]; [lia|]. rewrite He.
  apply wp_bind, wp_put, wp_ret.
  set (b' := {| buffer := buffer b; begin := _; finish := finish b |}).
  assert (ring_ok b') as Hok'.
  { split; simpl; [done| |done]. unfold BUFFER_MAX_SIZE. rewrite Z.gtb_ltb. destruct (Z.ltb_spec 255 (begin b + 1)); lia. }
  split; [done|]. assert (queue b = e :: queue b') as ->; [|done]. unfold queue.
  assert (count b = S (count b')) as ->.
  { unfold count, b'. simpl. rewrite Z.gtb_ltb. unfold BUFFER_MAX_SIZE.
    destruct (Z.ltb_spec 255 (begin b + 1)); Z.to_euclidean_division_equations; lia. }
  apply (Ring.contents_pop (buffer b)).
  - unfold Ring.at_pos. rewrite Hl, Z.add_0_r, Z.mod_small by lia. done.
  - rewrite Hl. unfold b'. simpl. rewrite Z.gtb_ltb. unfold BUFFER_MAX_SIZE.
    destruct (Z.ltb_spec 255 (begin b + 1)); Z.to_euclidean_division_equations; lia.
Qed.

(** ** Scan codes *)

(** Every scan code has a place in the table, and the keys it reports are those of the
    terminal's table. *)
Lemma scan_ok scan : 0 <= scan < 256 -> exists e,
  keymap_scan_to_input_event scan = Some e /\ type e = EV_KEY /\ KEY_RESERVED <= code e <= KEY_SPACE /\
  (value e = EV_KEY_PRESSED \/ value e = EV_KEY_RELEASED).
Proof.
  intros Hs.
  assert (forallb (fun k => match keymap_scan_to_input_event k with
      | Some e => (type e =? EV_KEY) && (KEY_RESERVED <=? code e) && (code e <=? KEY_SPACE) &&
                  ((value e =? EV_KEY_PRESSED) || (value e =? EV_KEY_RELEASED))
      | None => false end) (seqZ 0 256) = true) as Hall by by vm_compute.
  rewrite forallb_forall in Hall. specialize (Hall scan ltac:(apply list_elem_of_In, elem_of_seqZ; lia)).
  destruct (keymap_scan_to_input_event scan) as [e|]; [|done]. exists e. split; [done|]. lia.
Qed.

(** ** Steps of the driver *)

Inductive action :=
| Kernel (m : bmem)
| Key (listened : Z) (status : list Z) (scan : Z)
| Request (q : request).

Definition run_action (a : action) : M state unit :=
  match a with
  | Kernel m => modify (set_mem m)
  | Key listened status scan => interrupt_turn listened status scan
  | Request q => dispatch kbd_ops q
  end.

Record kbd_inv (s : state) : Prop := {
  ki_ring : ring_ok (events (private s));
  ki_lock : lock (private s) = false;
  ki_wait : 0 <= slave (private s) -> queue (events (private s)) = [] /\ writable (mem s) (rw_data (req (private s))) 8;
}.

(** What the kernel and the keyboard do: the buffer of a waiting reader stays mapped, a
    scan code is a byte and is there in the end, and a read comes with its buffer. *)
Definition action_ok (s : state) (a : action) : Prop :=
  match a with
  | Kernel m => 0 <= slave (private s) -> writable m (rw_data (req (private s))) 8
  | Key listened status scan => 0 <= scan < 256 /\ Exists (fun k => Z.land k 1 <> 0) status
  | Request q => supported kbd_ops q /\ 0 <= slave_id (hdr q) /\
      match q with ReqRdwr r => writable (mem s) (rw_data r) (Z.to_nat (rw_size r)) | _ => True end
  end.

(** The event a step adds to the buffer; it is lost when the buffer is full. *)
Definition accepted (s : state) (a : action) : list input_event :=
  match a with
  | Key listened _ scan =>
      match keymap_scan_to_input_event scan with
      | Some e => if negb (listened =? KEYBOARD_INTERRUPT) || (code e =? KEY_RESERVED) ||
                     bool_decide (length (queue (events (private s))) = 255%nat) then [] else [e]
      | None => []
      end
  | _ => []
  end.

(** The bytes a reader finds in its buffer when its read is answered. *)
Definition bytes_of (m : bmem) (a : Z) (n : nat) : list Z := (fun i => default 0 (m !! (a + Z.of_nat i))) <$> seq 0 n.
Definition is_data (r : response) : bool :=
  match r with RespRdwr _ ret (Some _) => ret =? 0 | _ => false end.
Definition place (s : state) (a : action) : Z :=
  match a with Request (ReqRdwr r) => rw_data r | _ => rw_data (req (private s)) end.
Definition delivered (s : state) (a : action) (s' : state) : list (list Z) :=
  (fun _ => bytes_of (mem s') (place s a) 8) <$> filter (fun r => is_data r = true) (drop (length (out s)) (out s')).

Arguments accepted : simpl never.
Arguments delivered : simpl never.

(** Runs of the driver, with the events that entered the buffer and those that were
    delivered. *)
Inductive reach (s : state) : list input_event -> list (list Z) -> state -> Prop :=
| reach_start : reach s [] [] s
| reach_step acc del s1 a s2 :
    reach s acc del s1 -> action_ok s1 a -> run_action a s1 = Done (tt, s2) ->
    reach s (acc ++ accepted s1 a) (del ++ delivered s1 a s2) s2.

Lemma bytes_of_at m a l n : bytes_at m a l -> length l = n -> bytes_of m a n = l.
Proof.
  intros Hb <-. apply list_eq. intros i. unfold bytes_of. rewrite list_lookup_fmap.
  destruct (decide (i < length l)%nat) as [Hi|Hi].
  - rewrite lookup_seq_lt by done. simpl. rewrite (bytes_at_lookup m a l) by done.
    by destruct (lookup_lt_is_Some_2 l i Hi) as [x ->].
  - rewrite lookup_seq_ge, lookup_ge_None_2 by lia. done.
Qed.

Lemma copy_event_ok s a e : writable (mem s) a 8 ->
  wp (copy_event a e) s (fun _ s' => s' = set_mem (store_bytes a (event_bytes e) (mem s)) s).
Proof.
  intros Hw. apply wp_zoom. eapply wp_mono; [apply UMem.store_all_ok; [done|]|by intros _ m ->].
  unfold event_bytes. repeat (constructor; [apply Wire.s8_range|]). constructor.
Qed.

Lemma wait_code_ok status s Q : Exists (fun k => Z.land k 1 <> 0) status -> Q tt s -> wp (wait_code status) s Q.
Proof.
  intros He HQ. induction status as [|k l IH]; [by inversion He|]. simpl.
  destruct (Z.eqb_spec (Z.land k 1) 0) as [E|E]; [|by apply wp_ret]. apply IH. inversion He; [congruence|done].
Qed.

(** What a step does to the events: those delivered and those left are those that were
    there and the one accepted. *)
Definition moves (s : state) (a : action) (s' : state) : Prop :=
  kbd_inv s' /\
  delivered s a s' ++ (event_bytes <$> queue (events (private s'))) =
  event_bytes <$> queue (events (private s)) ++ accepted s a.

Lemma delivered_none s a s' l : out s' = out s ++ l -> filter (fun r => is_data r = true) l = [] -> delivered s a s' = [].
Proof. intros Ho Hl. unfold delivered. by rewrite Ho, drop_app_length, Hl. Qed.

Lemma delivered_one s a s' i e :
  out s' = out s ++ [RespRdwr i 0 (Some sizeof_event)] -> bytes_at (mem s') (place s a) (event_bytes e) ->
  delivered s a s' = [event_bytes e].
Proof. intros Ho Hb. unfold delivered. rewrite Ho, drop_app_length. simpl. by rewrite (bytes_of_at _ _ (event_bytes e)). Qed.

(** A step that leaves the events alone. *)
Lemma moves_still s a s' l :
  kbd_inv s' -> out s' = out s ++ l -> filter (fun r => is_data r = true) l = [] ->
  queue (events (private s')) = queue (events (private s)) -> accepted s a = [] -> moves s a s'.
Proof. intros Hi Ho Hl Hq Ha. split; [done|]. by rewrite (delivered_none s a s' l), Hq, Ha, app_nil_r by done. Qed.

Lemma kbd_open_ok s q : kbd_inv s -> accepted s (Request q) = [] ->
  match q with ReqOpen r => op (ro_hdr r) = VFS_OPEN | _ => False end ->
  wp (dispatch kbd_ops q) s (fun _ s' => moves s (Request q) s').
Proof.
  intros [Hr Hl Hw] Ha Hq. destruct q as [r| | | |]; try done. unfold dispatch. simpl. rewrite Hq. simpl.
  apply wp_bind. unfold kbd_open. apply wp_bind, wp_modify, wp_bind, wp_get. simpl.
  destruct (Z.eqb_spec (opened (private s)) 0) as [Ho|Ho]; simpl.
  - apply wp_bind, wp_modify, wp_bind, wp_modify, wp_ret, wp_modify.
    eapply moves_still; done.
  - apply wp_ret, wp_modify. eapply moves_still; try done.
Qed.

Lemma kbd_close_ok s q : kbd_inv s -> accepted s (Request q) = [] ->
  match q with ReqClose r => op (rc_hdr r) = VFS_CLOSE | _ => False end ->
  wp (dispatch kbd_ops q) s (fun _ s' => moves s (Request q) s').
Proof.
  intros [Hr Hl Hw] Ha Hq. destruct q as [| |r| |]; try done. unfold dispatch. simpl. rewrite Hq. simpl.
  apply wp_bind. unfold kbd_close. apply wp_bind, wp_modify, wp_ret, wp_modify. eapply moves_still; try done.
Qed.

Lemma kbd_read_ok s r : kbd_inv s -> op (rw_hdr r) = VFS_READ -> 0 <= slave_id (rw_hdr r) ->
  writable (mem s) (rw_data r) (Z.to_nat (rw_size r)) ->
  wp (dispatch kbd_ops (ReqRdwr r)) s (fun _ s' => moves s (Request (ReqRdwr r)) s').
Proof.
  intros [Hr Hl Hw] Hq Hid Hbuf. unfold dispatch. simpl. rewrite Hq. simpl. apply wp_bind. unfold kbd_read, sizeof_event.
  destruct (Z.ltb_spec (rw_size r) 8) as [Hsz|Hsz].
  { apply wp_ret, wp_modify. eapply moves_still; done. }
  apply wp_bind, wp_lock; [done|]. apply wp_bind, wp_get. simpl. rewrite Z.geb_leb.
  destruct (Z.leb_spec 0 (slave (private s))) as [Hs|Hs].
  { apply wp_bind, wp_unlock, wp_ret, wp_modify. eapply moves_still; try done. }
  pose proof (buffer_empty_ok _ Hr) as He. destruct (buffer_empty (events (private s))).
  { apply wp_bind, wp_modify, wp_bind, wp_modify, wp_bind, wp_unlock, wp_ret. unfold respond. rewrite Z.eqb_refl. apply wp_ret.
    eapply (moves_still _ _ _ []); try done; [|by rewrite app_nil_r]. split; simpl; [done..|]. intros _. split; [by apply He|].
    intros x Hx. apply Hbuf. lia. }
  apply wp_bind, wp_zoom. eapply wp_mono; [by apply buffer_pop_ok|]. simpl. intros x b [Hb Hpop].
  destruct (queue (events (private s))) as [|e rest] eqn:Eq; [by destruct He as [_ He]; specialize (He eq_refl)|].
  destruct Hpop as [-> Hrest]. apply wp_bind. eapply wp_mono; [apply copy_event_ok|].
  { intros x Hx. apply Hbuf. lia. }
  intros _ s' ->. apply wp_bind, wp_unlock, wp_ret, wp_modify. split; [split; simpl; [done..|lia]|].
  rewrite (delivered_one _ _ _ (slave_id (rw_hdr r)) e) by (done || apply bytes_at_store_bytes). simpl. by rewrite Hrest, Eq, app_nil_r.
Qed.

Lemma interrupt_turn_ok s listened status scan : kbd_inv s -> action_ok s (Key listened status scan) ->
  wp (interrupt_turn listened status scan) s (fun _ s' => moves s (Key listened status scan) s').
Proof.
  intros [Hr Hl Hw] [Hscan Hst]. unfold interrupt_turn. destruct (scan_ok scan Hscan) as (e & Ee & _).
  destruct (Z.eqb_spec listened KEYBOARD_INTERRUPT) as [->|Hne]; simpl.
  2:{ apply wp_ret. eapply (moves_still _ _ _ []); try done; [by rewrite app_nil_r|]. unfold accepted. rewrite Ee.
      by rewrite (proj2 (Z.eqb_neq _ _)). }
  apply wp_bind, wait_code_ok; [done|]. rewrite Ee. destruct (code e =? KEY_RESERVED) eqn:Ec.
  { apply wp_ret. eapply (moves_still _ _ _ []); try done; [by rewrite app_nil_r|]. unfold accepted. rewrite Ee, Ec. done. }
  apply wp_bind, wp_lock; [done|]. apply wp_bind, wp_zoom. eapply wp_mono; [by apply buffer_push_ok|].
  simpl. intros r b [Hb Hpush]. apply wp_bind, wp_get. simpl. rewrite Z.geb_leb.
  assert (accepted s (Key KEYBOARD_INTERRUPT status scan) =
    if decide (length (queue (events (private s))) = 255%nat) then [] else [e]) as Hacc.
  { unfold accepted. rewrite Ee, Ec. simpl. by destruct (decide _); [rewrite bool_decide_true|rewrite bool_decide_false]. }
  destruct (Z.leb_spec 0 (slave (private s))) as [Hs|Hs].
  - destruct (Hw Hs) as [Hq Hbuf]. rewrite Hq in Hpush, Hacc. simpl in Hpush. rewrite decide_False in Hacc by done. destruct Hpush as [-> Hqb].
    apply wp_bind, wp_bind, wp_zoom. eapply wp_mono; [by apply buffer_pop_ok|]. simpl. rewrite Hqb. intros x b' [Hb' [-> Hq']].
    apply wp_bind. eapply wp_mono; [by apply copy_event_ok|]. intros _ s' ->. simpl.
    apply wp_bind, wp_modify, wp_modify, wp_unlock. split; [split; simpl; [done..|lia]|]. simpl. rewrite Hq', Hq, Hacc, app_nil_r.
    rewrite (delivered_one _ _ _ (slave (private s)) e); [done|done|].
    exact (bytes_at_store_bytes (mem s) (rw_data (req (private s))) (event_bytes e)).
  - apply wp_bind, wp_ret, wp_unlock. split; [split; simpl; [done..|lia]|]. simpl.
    rewrite (delivered_none _ _ _ []) by (simpl; by rewrite ?app_nil_r). rewrite Hacc. simpl. f_equal.
    destruct (decide _); [destruct Hpush as [_ ->]; by rewrite app_nil_r|by destruct Hpush as [_ ->]].
Qed.

Lemma action_moves s a : kbd_inv s -> action_ok s a -> wp (run_action a) s (fun _ s' => moves s a s').
Proof.
  intros Hi Ha. destruct a as [m|listened status scan|q]; simpl.
  - apply wp_modify. eapply (moves_still _ _ _ []); try done; [|by rewrite app_nil_r]. destruct Hi as [Hr Hl Hw]. split; [done..|].
    simpl. intros Hs. split; [by apply Hw|by apply Ha].
  - by apply interrupt_turn_ok.
  - destruct Ha as (Hsup & Hid & Hbuf). destruct q as [r|r|r|r|h]; simpl in Hsup; try done.
    + by apply kbd_open_ok; [| |apply Hsup].
    + destruct Hsup as [[Hop _]|[_ [? Hsome]]]; [|done]. by apply kbd_read_ok.
    + by apply kbd_close_ok; [| |apply Hsup].
    + by destruct Hsup as [_ [? ?]].
Qed.

Lemma reach_ok s acc del s' : kbd_inv s -> queue (events (private s)) = [] -> reach s acc del s' ->
  kbd_inv s' /\ del ++ (event_bytes <$> queue (events (private s'))) = event_bytes <$> acc.
Proof.
  intros Hi Hq Hr. induction Hr as [|acc del s1 a s2 Hr [Hi1 IH] Hok Hrun]; [by rewrite Hq|].
  pose proof (action_moves s1 a Hi1 Hok) as Hm. unfold wp in Hm. rewrite Hrun in Hm. destruct Hm as [Hi2 Hm]. split; [done|].
  rewrite <-app_assoc, Hm, !fmap_app, app_assoc, IH. done.
Qed.

(** ** Theorems *)


Lemma kbd_start_ok m o u : kbd_inv {| mem := m; private := kbd_start; running := 1; out := o; uprints := u |} /\
  queue (events kbd_start) = [].
Proof. split; [split; simpl; [split; simpl; unfold BUFFER_MAX_SIZE; [done|lia..]|done|lia]|done]. Qed.

(** ** Samples: a read that waits, the key a pressed and released *)

Definition sample_kbd : state := {|
  mem := store_bytes 4096 (replicate 8 0) ∅; private := kbd_start; running := 1; out := []; uprints := [];
|}.
Definition reads : action :=
  Request (ReqRdwr {| rw_hdr := {| op := VFS_READ; slave_id := 5 |}; rw_inode := 0; rw_size := 8; rw_off := 0; rw_data := 4096 |}).
Definition press : action := Key 33 [0; 1] 30.
Definition release : action := Key 33 [1] 158.
Definition after (a : action) (s : state) : state := match run_action a s with Done (_, s') => s' | _ => s end.

Lemma sample_buffer (s : state) : mem s = store_bytes 4096 (replicate 8 0) ∅ -> writable (mem s) 4096 8.
Proof. intros -> x Hx. apply lookup_store_bytes_in. rewrite length_replicate. lia. Qed.

Lemma reach_next s acc del s1 a acc' del' :
  reach s acc del s1 -> action_ok s1 a -> run_action a s1 = Done (tt, after a s1) ->
  acc' = acc ++ accepted s1 a -> del' = del ++ delivered s1 a (after a s1) -> reach s acc' del' (after a s1).
Proof. intros Hr Ha Hrun -> ->. by apply reach_step. Qed.


End Keyboard.
