(* ===== verification/Terminal.v ===== *)
(** The terminal: userland/driver/tty_ctrl/src, which turns the events of the keyboard
    into characters, and userland/driver/tty/src/main.c, which gives them out by lines.

    The controller keeps the characters in a ring and echoes them to the video device;
    its readers are the slaves, the processes that run the tty driver.  The driver keeps
    what it read from the controller in a buffer of its own and answers a read when the
    buffer has a line.  Both have a thread for their input next to the thread of
    [driver_loop]; a turn of a loop is one step.  [screen] collects what is written to
    the video device, which takes what [video] says. *)

From S2P Require Import Prelude Ring KString Stack UMem Driver Keyboard.

(** The bytes a system call takes from the memory of the process. *)
Fixpoint load_all (a : Z) (n : nat) : M bmem (list Z) :=
  match n with
  | O => ret []
  | S n => let! c := load a in let! l := load_all (a + 1) n in ret (c :: l)
  end.

Module TtyCtrl.
Import Driver Input Stack.

(** ** Characters of the keys: keymap.c

    The plain character, the one with control and the one with shift. *)

Definition keymap : list (Z * Z * Z) :=
  [(0, 0, 0); (0, 0, 0); (49, 49, 33); (50, 50, 64); (51, 51, 35); (52, 52, 36);
   (53, 53, 37); (54, 54, 94); (55, 55, 38); (56, 56, 42); (57, 57, 40); (48, 48, 41);
   (45, 45, 95); (61, 61, 43); (0, 0, 0); (9, 9, 9); (113, 113, 81); (119, 119, 87);
   (101, 101, 69); (114, 114, 82); (116, 116, 84); (121, 121, 89); (117, 117, 85); (105, 105, 73);
   (111, 111, 79); (112, 112, 80); (91, 91, 123); (93, 93, 125); (10, 10, 10); (0, 0, 0);
   (97, 97, 65); (115, 115, 83); (100, 100, 68); (102, 102, 70); (103, 103, 71); (104, 104, 72);
   (106, 106, 74); (107, 107, 75); (108, 108, 76); (59, 59, 58); (39, 39, 34); (96, 96, 126);
   (0, 0, 0); (92, 92, 124); (122, 122, 90); (120, 120, 88); (99, 99, 67); (118, 118, 86);
   (98, 98, 66); (110, 110, 78); (109, 109, 77); (44, 44, 60); (46, 46, 62); (47, 47, 63);
   (0, 0, 0); (0, 0, 0); (0, 0, 0); (32, 32, 32)].

(** ** The controller: tty_ctrl.h *)

Definition TTY_INPUT_BUFFER_SIZE : Z := 256.

Record tty_slave := { ts_pid : Z; ts_slave_id : Z; ts_req : req_rdwr }.

Record tty_input := {
  ibuf : list Z;
  start : Z;
  finish : Z;
  size : Z;
  shift : Z;
  ctrl : Z;
  ilock : bool;
}.

(** [slaves] is the array [init_slaves] has allocated. *)
Record tty_ctrl := {
  video_fd : Z;
  kbd_fd : Z;
  nb_slave : Z;
  slaves : list tty_slave;
  input : tty_input;
  screen : list Z;
}.

Definition set_input (i : tty_input) (c : tty_ctrl) : tty_ctrl :=
  {| video_fd := video_fd c; kbd_fd := kbd_fd c; nb_slave := nb_slave c; slaves := slaves c; input := i; screen := screen c |}.
Definition set_slaves (l : list tty_slave) (c : tty_ctrl) : tty_ctrl :=
  {| video_fd := video_fd c; kbd_fd := kbd_fd c; nb_slave := nb_slave c; slaves := l; input := input c; screen := screen c |}.
Definition set_nb_slave (n : Z) (c : tty_ctrl) : tty_ctrl :=
  {| video_fd := video_fd c; kbd_fd := kbd_fd c; nb_slave := n; slaves := slaves c; input := input c; screen := screen c |}.
Definition set_video_fd (v : Z) (c : tty_ctrl) : tty_ctrl :=
  {| video_fd := v; kbd_fd := kbd_fd c; nb_slave := nb_slave c; slaves := slaves c; input := input c; screen := screen c |}.
Definition set_kbd_fd (v : Z) (c : tty_ctrl) : tty_ctrl :=
  {| video_fd := video_fd c; kbd_fd := v; nb_slave := nb_slave c; slaves := slaves c; input := input c; screen := screen c |}.
Definition set_screen (l : list Z) (c : tty_ctrl) : tty_ctrl :=
  {| video_fd := video_fd c; kbd_fd := kbd_fd c; nb_slave := nb_slave c; slaves := slaves c; input := input c; screen := l |}.

Definition set_ilock (b : bool) (i : tty_input) : tty_input :=
  {| ibuf := ibuf i; start := start i; finish := finish i; size := size i; shift := shift i; ctrl := ctrl i; ilock := b |}.
Definition set_shift (v : Z) (i : tty_input) : tty_input :=
  {| ibuf := ibuf i; start := start i; finish := finish i; size := size i; shift := v; ctrl := ctrl i; ilock := ilock i |}.
Definition set_ctrl (v : Z) (i : tty_input) : tty_input :=
  {| ibuf := ibuf i; start := start i; finish := finish i; size := size i; shift := shift i; ctrl := v; ilock := ilock i |}.

Definition with_slave_id (v : Z) (x : tty_slave) : tty_slave :=
  {| ts_pid := ts_pid x; ts_slave_id := v; ts_req := ts_req x |}.
Definition with_req (r : req_rdwr) (x : tty_slave) : tty_slave :=
  {| ts_pid := ts_pid x; ts_slave_id := ts_slave_id x; ts_req := r |}.

(** ** The ring of characters: tty_ctrl.c *)

Definition tty_ctrl_input_pop : M tty_input Z :=
  let! i := get in
  if size i =? 0 then ret (-1)
  else match ibuf i !! Z.to_nat (start i) with
  | None => undef
  | Some c =>
      let next := start i + 1 in
      put {| ibuf := ibuf i; start := if next =? TTY_INPUT_BUFFER_SIZE then 0 else next; finish := finish i;
             size := size i - 1; shift := shift i; ctrl := ctrl i; ilock := ilock i |} ;;;
      ret c
  end.

(** The ring part of [tty_ctrl_input_push]: is the character kept? *)
Definition ring_push (c : Z) : M tty_input bool :=
  spinlock_lock ilock set_ilock ;;;
  let! i := get in
  if size i =? TTY_INPUT_BUFFER_SIZE then spinlock_unlock set_ilock ;;; ret false
  else match ibuf i !! Z.to_nat (finish i) with
  | None => undef
  | Some _ =>
      let next := finish i + 1 in
      put {| ibuf := <[Z.to_nat (finish i) := c]> (ibuf i); start := start i;
             finish := if next =? TTY_INPUT_BUFFER_SIZE then 0 else next;
             size := size i + 1; shift := shift i; ctrl := ctrl i; ilock := ilock i |} ;;;
      spinlock_unlock set_ilock ;;;
      ret true
  end.

Definition state : Type := proc tty_ctrl.

Section driver.
(** What [write] on the video device returns. *)
Context (video : list Z -> Z).

Definition upd (f : tty_ctrl -> tty_ctrl) : M state unit := modify (fun s => set_private (f (private s)) s).
Definition on_input {A} (m : M tty_input A) : M state A :=
  zoom (fun s => input (private s)) (fun i s => set_private (set_input i (private s)) s) m.
Definition lock_input : M state unit := on_input (spinlock_lock ilock set_ilock).
Definition unlock_input : M state unit := on_input (spinlock_unlock set_ilock).

Definition write_video (b : list Z) : M state Z :=
  let r := video b in
  (if r <? 0 then ret tt else upd (fun c => set_screen (screen c ++ take (Z.to_nat r) b) c)) ;;;
  ret r.

Definition tty_ctrl_input_push (c : Z) : M state unit :=
  let! kept := on_input (ring_push c) in
  if (kept : bool) then let! _ := write_video [c] in ret tt else ret tt.

(** [while (req->size && ctrl->input.size > 0)]: where the characters go, how many are
    still wanted and how many were given. *)
Fixpoint give (fuel : nat) (data wanted given : Z) : M state (Z * Z * Z) :=
  let! s := get in
  if (wanted =? 0) || negb (size (input (private s)) >? 0) then ret (data, wanted, given)
  else match fuel with
  | O => undef
  | S fuel =>
      let! c := on_input tty_ctrl_input_pop in
      on_mem (store data c) ;;;
      give fuel (u32 (data + 1)) (wanted - 1) (given + 1)
  end.

(** [&ctrl->slaves[i]] *)
Definition slave_at (i : Z) : M state tty_slave :=
  let! s := get in
  match slaves (private s) !! Z.to_nat i with Some x => ret x | None => undef end.
Definition update_slave (i : Z) (f : tty_slave -> tty_slave) : M state unit :=
  let! x := slave_at i in
  upd (fun c => set_slaves (<[Z.to_nat i := f x]> (slaves c)) c).

(** ** The device: driver.c *)

Definition tty_ctrl_open (r : req_open) : M state (Z * option Z) :=
  let! s := get in
  let known := take (Z.to_nat (nb_slave (private s))) (slaves (private s)) in
  ret (0, Some (if existsb (fun x => ts_pid x =? ro_pid r) known then ro_pid r else 0)).

Definition tty_ctrl_read (r : req_rdwr) : M state (Z * option Z) :=
  lock_input ;;;
  let! s := get in
  let! res := (if negb (size (input (private s)) =? 0) then
      let! '(_, _, n) := give 256 (rw_data r) (rw_size r) 0 in ret (0, Some n)
    else
      let! x := slave_at (nb_slave (private s)) in
      if ts_slave_id x >=? 0 then ret (-1, None)
      else
        update_slave (nb_slave (private s)) (with_slave_id (slave_id (rw_hdr r))) ;;;
        update_slave (nb_slave (private s)) (with_req r) ;;;
        unlock_input ;;;
        ret (DRV_NORESPONSE, None)) in
  unlock_input ;;;
  ret res.

Definition tty_ctrl_write (r : req_rdwr) : M state (Z * option Z) :=
  if rw_inode r =? 0 then ret (-1, None)
  else
    let! data := on_mem (load_all (rw_data r) (Z.to_nat (rw_size r))) in
    let! n := write_video data in
    if n <? 0 then ret (n, None) else ret (0, Some n).

Definition tty_ctrl_ops : driver_ops tty_ctrl := {|
  d_open := Some tty_ctrl_open;
  d_read := Some tty_ctrl_read;
  d_write := Some tty_ctrl_write;
  d_close := None;
  d_ioctl := None;
|}.

(** ** The input thread *)

Definition char_of (code shift ctrl : Z) : M state Z :=
  match keymap !! Z.to_nat code with
  | None => undef
  | Some (plain, control, shifted) =>
      ret (if negb (shift =? 0) then shifted else if negb (ctrl =? 0) then control else plain)
  end.

(** What an event does to the modifiers and to the ring. *)
Definition handle_event (e : input_event) : M state unit :=
  if value e =? EV_KEY_PRESSED then
    if (code e =? KEY_LEFTSHIFT) || (code e =? KEY_RIGHTSHIFT) then on_input (modify (set_shift 1))
    else if code e =? KEY_LEFTCTRL then on_input (modify (set_ctrl 1))
    else
      let! s := get in
      let! c := char_of (code e) (shift (input (private s))) (ctrl (input (private s))) in
      tty_ctrl_input_push c
  else if value e =? EV_KEY_RELEASED then
    if (code e =? KEY_LEFTSHIFT) || (code e =? KEY_RIGHTSHIFT) then on_input (modify (set_shift 0))
    else if code e =? KEY_LEFTCTRL then on_input (modify (set_ctrl 0))
    else ret tt
  else ret tt.

(** The answer to the slave that waits. *)
Definition answer_waiting : M state unit :=
  lock_input ;;;
  let! s := get in
  let! x := slave_at (nb_slave (private s)) in
  (if ts_slave_id x >=? 0 then
     let! '(data, wanted, n) := give 256 (rw_data (ts_req x)) (rw_size (ts_req x)) 0 in
     update_slave (nb_slave (private s)) (with_req {|
       rw_hdr := rw_hdr (ts_req x); rw_inode := rw_inode (ts_req x); rw_size := wanted;
       rw_off := rw_off (ts_req x); rw_data := data |}) ;;;
     write_response (RespRdwr (ts_slave_id x) 0 (Some n)) ;;;
     update_slave (nb_slave (private s)) (with_slave_id (-1))
   else ret tt) ;;;
  unlock_input.

(** One turn of the loop: the result of [read] on the keyboard, and the event. *)
Definition input_turn (r : Z) (e : input_event) : M state unit :=
  if r <? 0 then ret tt else handle_event e ;;; answer_waiting.
End driver.
Arguments give : simpl never.

(** ** Initialisation

    What the system calls give: the tries to open the two devices, the array for the
    slaves with the contents [malloc] left there, the forks, the controls of the video
    device and the creation of the thread. *)
Record answers := {
  kbd_opens : list Z;
  video_opens : list Z;
  cells : option (list tty_slave);
  forks : list Z;
  ioctls : Z -> Z -> Z;
  thread : Z;
}.

Definition DRIVER_WAIT_TIME : Z := 1000.
Definition DRIVER_RETRY_TIME : Z := 100.
Definition VIDEO_XRES_SET : Z := 4.
Definition VIDEO_YRES_SET : Z := 5.
Definition VIDEO_BPP_SET : Z := 6.
Definition VIDEO_ENABLE : Z := 7.
Definition TTY_XRES : Z := 1024.
Definition TTY_YRES : Z := 768.

(** The new controller, with what [malloc] left in the rest of it. *)
Definition tty_ctrl_create (junk : tty_ctrl) : tty_ctrl := {|
  video_fd := -1; kbd_fd := -1; nb_slave := 0; slaves := []; input := input junk; screen := [];
|}.

(** Ten tries; the device does not come when the answers run out. *)
Fixpoint open_io_driver (timeout : Z) (tries : list Z) : Z :=
  match tries with
  | [] => -1
  | fd :: tries =>
      if timeout <? DRIVER_WAIT_TIME then
        if fd <? 0 then open_io_driver (timeout + DRIVER_RETRY_TIME) tries else fd
      else -1
  end.

Definition init_video (io : Z -> Z -> Z) : Z :=
  if io VIDEO_XRES_SET TTY_XRES <? 0 then io VIDEO_XRES_SET TTY_XRES
  else if io VIDEO_YRES_SET TTY_YRES <? 0 then io VIDEO_YRES_SET TTY_YRES
  else if io VIDEO_BPP_SET 8 <? 0 then io VIDEO_BPP_SET 8
  else if io VIDEO_ENABLE 0 <? 0 then io VIDEO_ENABLE 0
  else 0.

(** The loop of [init_slaves] in the parent; a child (0) runs /bin/tty and does not
    come back, which is [None]. *)
Fixpoint spawn (n : nat) (pids : list Z) (c : tty_ctrl) : option tty_ctrl :=
  match n, pids with
  | S n, pid :: pids =>
      if pid <? 0 then spawn n pids c
      else if pid =? 0 then None
      else
        let fill x := {| ts_pid := pid; ts_slave_id := -1; ts_req := ts_req x |} in
        spawn n pids (set_nb_slave (nb_slave c + 1) (set_slaves (alter fill (Z.to_nat (nb_slave c)) (slaves c)) c))
  | _, _ => Some c
  end.

Definition init_slaves (n : nat) (array : option (list tty_slave)) (pids : list Z) (c : tty_ctrl) : option (Z * tty_ctrl) :=
  let c := set_nb_slave 0 c in
  match array with
  | None => Some (-1, c)
  | Some l =>
      match spawn n pids (set_slaves l c) with
      | None => None
      | Some c => Some (if nb_slave c =? 0 then -1 else 0, c)
      end
  end.

Definition init_input_thread (tid : Z) (c : tty_ctrl) : Z * tty_ctrl :=
  (if tid <? 0 then -1 else 0,
   set_input {| ibuf := ibuf (input c); start := 0; finish := 0; size := 0; shift := 0; ctrl := 0; ilock := false |} c).

Definition tty_ctrl_initialize (e : answers) (c : tty_ctrl) : option (Z * tty_ctrl) :=
  let c := set_kbd_fd (open_io_driver 0 (kbd_opens e)) c in
  if kbd_fd c <? 0 then Some (video_fd c, c)
  else
    let c := set_video_fd (open_io_driver 0 (video_opens e)) c in
    if video_fd c <? 0 then Some (video_fd c, c)
    else match init_slaves 1 (cells e) (forks e) c with
    | None => None
    | Some (r, c) =>
        if r <? 0 then Some (r, c)
        else let v := init_video (ioctls e) in
          if v <? 0 then Some (v, c) else Some (init_input_thread (thread e) c)
    end.

(** ** The ring as a list of characters *)

Definition chars (i : tty_input) : list Z := Ring.contents (ibuf i) (start i) (Z.to_nat (size i)).

Record input_ok (i : tty_input) : Prop := {
  io_length : length (ibuf i) = 256%nat;
  io_start : 0 <= start i < TTY_INPUT_BUFFER_SIZE;
  io_size : 0 <= size i <= TTY_INPUT_BUFFER_SIZE;
  io_finish : finish i = (start i + size i) mod TTY_INPUT_BUFFER_SIZE;
  io_lock : ilock i = false;
  io_chars : Forall is_char (ibuf i);
}.

Lemma length_chars i : length (ibuf i) = 256%nat -> length (chars i) = Z.to_nat (size i).
Proof. intros Hl. apply Ring.length_contents. intros E. by rewrite E in Hl. Qed.

Lemma ring_push_ok i c : input_ok i -> is_char c ->
  wp (ring_push c) i (fun r i' => input_ok i' /\ shift i' = shift i /\ ctrl i' = ctrl i /\
    (if r then (length (chars i) < 256)%nat else length (chars i) = 256%nat) /\
    chars i' = if r then chars i ++ [c] else chars i).
Proof.
  intros [Hl Hst Hsz Hf Hk Hc] Hch. unfold TTY_INPUT_BUFFER_SIZE in *. pose proof (length_chars i Hl) as Hn.
  apply wp_bind, wp_lock; [done|]. apply wp_bind, wp_get. simpl. destruct (Z.eqb_spec (size i) TTY_INPUT_BUFFER_SIZE) as [E|E].
  { apply wp_bind, wp_unlock, wp_ret. unfold TTY_INPUT_BUFFER_SIZE in E. split_and!; [split; done|done..| |done]. lia. }
  unfold TTY_INPUT_BUFFER_SIZE in E. assert (0 <= finish i < 256) as Hfr by (rewrite Hf; apply Z.mod_pos_bound; lia).
  destruct (lookup_lt_is_Some_2 (ibuf i) (Z.to_nat (finish i))) as [x ->]; [lia|].
  apply wp_bind, wp_put, wp_bind, wp_unlock, wp_ret. simpl. split_and!; [split; simpl|done..|lia|].
  - by rewrite length_insert.
  - done.
  - unfold TTY_INPUT_BUFFER_SIZE. lia.
  - unfold TTY_INPUT_BUFFER_SIZE. destruct (Z.eqb_spec (finish i + 1) 256); Z.to_euclidean_division_equations; lia.
  - done.
  - by apply Forall_insert.
  - unfold chars. simpl. replace (Z.to_nat (size i + 1)) with (S (Z.to_nat (size i))) by lia.
    rewrite <-Ring.contents_push by lia. do 2 f_equal. unfold Ring.at_pos. rewrite Hl, Z2Nat.id by lia. by rewrite Hf.
Qed.

(** Characters are taken out with the lock held. *)
Definition ring_ok (i : tty_input) : Prop := input_ok (set_ilock false i).

Lemma input_pop_ok i c rest : ring_ok i -> chars i = c :: rest ->
  wp tty_ctrl_input_pop i (fun r i' => r = c /\ ring_ok i' /\ chars i' = rest /\ size i' = size i - 1 /\
    ilock i' = ilock i).
Proof.
  intros [Hl Hst Hsz Hf Hk Hc] Hch. simpl in *. unfold TTY_INPUT_BUFFER_SIZE in *.
  pose proof (length_chars i Hl) as Hn. rewrite Hch in Hn. simpl in Hn.
  apply wp_bind, wp_get. rewrite (proj2 (Z.eqb_neq _ 0)) by lia.
  destruct (lookup_lt_is_Some_2 (ibuf i) (Z.to_nat (start i))) as [x Hx]; [lia|]. rewrite Hx.
  apply wp_bind, wp_put, wp_ret. unfold TTY_INPUT_BUFFER_SIZE.
  set (st := if start i + 1 =? 256 then 0 else start i + 1).
  assert ((st - (start i + 1)) mod 256 = 0 /\ 0 <= st < 256 /\ (st + (size i - 1)) mod 256 = finish i) as (Hs1 & Hs2 & Hs3).
  { unfold st. rewrite Hf. destruct (Z.eqb_spec (start i + 1) 256); split_and!; Z.to_euclidean_division_equations; lia. }
  assert (chars i = x :: Ring.contents (ibuf i) st (Z.to_nat (size i - 1))) as Hpop.
  { unfold chars. replace (Z.to_nat (size i)) with (S (Z.to_nat (size i - 1))) by lia. apply Ring.contents_pop; rewrite ?Hl; [|done].
    unfold Ring.at_pos. rewrite Hl, Z.add_0_r, Z.mod_small by lia. done. }
  rewrite Hch in Hpop. injection Hpop as <- Hrest. split_and!; [done|split; simpl; unfold TTY_INPUT_BUFFER_SIZE; try done; lia|done..].
Qed.

Lemma chars_char i : input_ok i -> Forall is_char (chars i).
Proof.
  intros Hi. apply Forall_forall. intros c Hc. unfold chars, Ring.contents in Hc.
  apply list_elem_of_omap in Hc as (k & _ & Hk). by eapply Forall_lookup_1; [apply Hi|].
Qed.

(** ** What the keys stand for *)

Definition is_modifier (code : Z) : bool :=
  (code =? KEY_LEFTSHIFT) || (code =? KEY_RIGHTSHIFT) || (code =? KEY_LEFTCTRL).

(** The modifiers after an event. *)
Definition shift_after (e : input_event) (sh : Z) : Z :=
  if (code e =? KEY_LEFTSHIFT) || (code e =? KEY_RIGHTSHIFT) then
    if value e =? EV_KEY_PRESSED then 1 else if value e =? EV_KEY_RELEASED then 0 else sh
  else sh.
Definition ctrl_after (e : input_event) (ct : Z) : Z :=
  if code e =? KEY_LEFTCTRL then
    if value e =? EV_KEY_PRESSED then 1 else if value e =? EV_KEY_RELEASED then 0 else ct
  else ct.

Definition key_char (sh ct : Z) (e : input_event) : list Z :=
  if (value e =? EV_KEY_PRESSED) && negb (is_modifier (code e)) then
    match keymap !! Z.to_nat (code e) with
    | Some (plain, control, shifted) => [if negb (sh =? 0) then shifted else if negb (ct =? 0) then control else plain]
    | None => []
    end
  else [].

Fixpoint typed (sh ct : Z) (es : list input_event) : list Z :=
  match es with
  | [] => []
  | e :: es => key_char sh ct e ++ typed (shift_after e sh) (ctrl_after e ct) es
  end.

(** The turns of the input thread for the events the keyboard delivers. *)
Fixpoint turns (video : list Z -> Z) (es : list input_event) : M state unit :=
  match es with
  | [] => ret tt
  | e :: es => input_turn video sizeof_event e ;;; turns video es
  end.

Definition known_key (e : input_event) : Prop := KEY_RESERVED <= code e <= KEY_SPACE.

Section typing.
Context (video : list Z -> Z) (Hvideo : forall b, video b = Z.of_nat (length b)).
Implicit Types s : state.

(** The rest of the process is as it was. *)
Definition only_input s s' : Prop :=
  mem s' = mem s /\ out s' = out s /\ running s' = running s /\
  slaves (private s') = slaves (private s) /\ nb_slave (private s') = nb_slave (private s).

(** The ring holds this many characters. *)
Definition capacity : nat := 256.

(** [l] was typed: the ring keeps what fits, and the screen shows what it keeps. *)
Definition took s s' (l : list Z) : Prop :=
  input_ok (input (private s')) /\ only_input s s' /\
  chars (input (private s')) = take capacity (chars (input (private s)) ++ l) /\
  screen (private s') = screen (private s) ++ drop (length (chars (input (private s)))) (chars (input (private s'))).

Lemma keymap_char code p c sh : keymap !! Z.to_nat code = Some (p, c, sh) -> is_char p /\ is_char c /\ is_char sh.
Proof.
  intros Hk. assert (Forall (fun x => -128 <= x.1.1 < 128 /\ -128 <= x.1.2 < 128 /\ -128 <= x.2 < 128) keymap) as Hall
    by (apply (bool_decide_unpack _); by vm_compute).
  by apply (Forall_lookup_1 _ _ _ _ Hall) in Hk.
Qed.

Lemma keymap_known code : KEY_RESERVED <= code <= KEY_SPACE -> is_Some (keymap !! Z.to_nat code).
Proof. intros Hc. apply lookup_lt_is_Some. unfold KEY_RESERVED, KEY_SPACE in Hc. simpl. lia. Qed.

Lemma chars_bound i : input_ok i -> (length (chars i) <= capacity)%nat.
Proof. intros Hi. rewrite length_chars by apply Hi. destruct Hi as [_ _ Hs _ _ _]. unfold TTY_INPUT_BUFFER_SIZE in Hs. unfold capacity. lia. Qed.

Lemma took_refl s : input_ok (input (private s)) -> took s s [].
Proof.
  intros Hi. pose proof (chars_bound _ Hi). split_and!; [done..| |].
  - rewrite app_nil_r, take_ge by lia. done.
  - rewrite drop_ge by lia. by rewrite app_nil_r.
Qed.

Lemma input_push_ok s c : input_ok (input (private s)) -> is_char c ->
  wp (tty_ctrl_input_push video c) s (fun _ s' => took s s' [c] /\
    shift (input (private s')) = shift (input (private s)) /\ ctrl (input (private s')) = ctrl (input (private s))).
Proof.
  intros Hi Hc. apply wp_bind, wp_zoom. eapply wp_mono; [by apply ring_push_ok|].
  intros [|] i' (Hi' & Hsh & Hct & Hlen & Hch).
  - apply wp_bind. unfold write_video. rewrite Hvideo. simpl. apply wp_bind, wp_modify, wp_ret, wp_ret. unfold took. split_and!; try done.
    + simpl. rewrite take_ge; [done|]. rewrite length_app. unfold capacity. simpl. lia.
    + simpl. rewrite Hch. by rewrite drop_app_length.
  - apply wp_ret. unfold took. split_and!; try done.
    + simpl. rewrite take_app_le, take_ge by (unfold capacity; lia). done.
    + simpl. rewrite Hch, drop_ge by lia. by rewrite app_nil_r.
Qed.

Lemma handle_event_ok s e : input_ok (input (private s)) -> known_key e ->
  wp (handle_event video e) s (fun _ s' =>
    took s s' (key_char (shift (input (private s))) (ctrl (input (private s))) e) /\
    shift (input (private s')) = shift_after e (shift (input (private s))) /\
    ctrl (input (private s')) = ctrl_after e (ctrl (input (private s)))).
Proof.
  intros Hi Hk. unfold handle_event, key_char, shift_after, ctrl_after, is_modifier.
  assert (forall f : tty_input -> tty_input, (forall i, input_ok i -> input_ok (f i)) ->
    (forall i, chars (f i) = chars i) -> took s (set_private (set_input (f (input (private s))) (private s)) s) []) as Hmod.
  { intros f Hf Hcf. pose proof (took_refl s Hi) as (_ & _ & Ht & Hs). unfold took. simpl. rewrite Hcf. split_and!; auto. done. }
  destruct (value e =? EV_KEY_PRESSED) eqn:Ep; [|destruct (value e =? EV_KEY_RELEASED) eqn:Er].
  - destruct ((code e =? KEY_LEFTSHIFT) || (code e =? KEY_RIGHTSHIFT)) eqn:Esh.
    { apply wp_zoom, wp_modify. simpl. split_and!; [|done|].
      - apply Hmod; [|done]. by intros i [].
      - apply orb_true_iff in Esh. rewrite !Z.eqb_eq in Esh. destruct (Z.eqb_spec (code e) KEY_LEFTCTRL) as [E|]; [|done].
        by destruct Esh as [Esh|Esh]; rewrite Esh in E. }
    destruct (code e =? KEY_LEFTCTRL) eqn:Ect.
    { apply wp_zoom, wp_modify. simpl. split_and!; [|done..]. apply Hmod; [|done]. by intros i []. }
    simpl. apply wp_bind, wp_get. unfold char_of. destruct (keymap_known _ Hk) as [[[p c] sh] Hkm]. rewrite Hkm.
    destruct (keymap_char _ _ _ _ Hkm) as (? & ? & ?).
    apply wp_bind, wp_ret, input_push_ok; [done|]. by destruct (negb _); [|destruct (negb _)].
  - simpl. destruct ((code e =? KEY_LEFTSHIFT) || (code e =? KEY_RIGHTSHIFT)) eqn:Esh.
    { apply wp_zoom, wp_modify. simpl. split_and!; [|done|].
      - apply Hmod; [|done]. by intros i [].
      - apply orb_true_iff in Esh. rewrite !Z.eqb_eq in Esh. destruct (Z.eqb_spec (code e) KEY_LEFTCTRL) as [E|]; [|done].
        by destruct Esh as [Esh|Esh]; rewrite Esh in E. }
    destruct (code e =? KEY_LEFTCTRL) eqn:Ect.
    { apply wp_zoom, wp_modify. simpl. split_and!; [|done..]. apply Hmod; [|done]. by intros i []. }
    apply wp_ret. split_and!; [by apply took_refl|done..].
  - apply wp_ret. simpl. split_and!; [by apply took_refl|..]; by repeat case_match.
Qed.

Lemma take_kept (c l : list Z) n : (length c <= n)%nat -> take n (c ++ l) = c ++ take (n - length c) l.
Proof. intros Hn. by rewrite take_app, take_ge. Qed.

Lemma took_trans s s1 s2 l1 l2 : input_ok (input (private s)) -> took s s1 l1 -> took s1 s2 l2 -> took s s2 (l1 ++ l2).
Proof.
  intros Hi (Hi1 & (Hm1 & Ho1 & Hr1 & Hs1 & Hn1) & Hc1 & Hsc1) (Hi2 & (Hm2 & Ho2 & Hr2 & Hs2 & Hn2) & Hc2 & Hsc2).
  pose proof (chars_bound _ Hi) as Hb. pose proof (chars_bound _ Hi1) as Hb1.
  rewrite take_kept in Hc1, Hc2 by done. set (c0 := chars (input (private s))) in *. set (c1 := chars (input (private s1))) in *.
  split_and!; [done|split_and!; congruence| |].
  - rewrite take_kept by done. rewrite Hc2, Hc1. rewrite take_app, <-app_assoc. do 2 f_equal.
    rewrite <-Hc1, Hc1, length_app, length_take. fold c0.
    destruct (decide (length l1 <= capacity - length c0)%nat) as [Hle|Hgt].
    + f_equal. lia.
    + rewrite (Nat.min_l (capacity - length c0) (length l1)) by lia. replace (capacity - _)%nat with 0%nat by lia.
      by replace (capacity - length c0 - length l1)%nat with 0%nat by lia.
  - rewrite Hsc2, Hsc1, <-app_assoc. f_equal. rewrite Hc2, drop_app_length. fold c0. rewrite drop_app_le; [done|].
    rewrite Hc1, length_app. lia.
Qed.

(** The array has a cell behind the known slaves, and no read waits there. *)
Definition nobody_waits s : Prop :=
  exists x, slaves (private s) !! Z.to_nat (nb_slave (private s)) = Some x /\ ts_slave_id x < 0.

Lemma answer_nobody s : input_ok (input (private s)) -> nobody_waits s -> wp answer_waiting s (fun _ s' => s' = s).
Proof.
  intros Hi (x & Hx & Hw). pose proof (io_lock _ Hi) as Hl. apply wp_bind, wp_zoom, wp_lock; [done|].
  apply wp_bind, wp_get. simpl. apply wp_bind, wp_bind, wp_get. simpl. rewrite Hx. apply wp_ret.
  rewrite Z.geb_leb, (proj2 (Z.leb_gt _ _)) by done. apply wp_bind, wp_ret, wp_zoom, wp_unlock. simpl.
  destruct s as [m c r o u], c as [vf kf nb sl i sc], i as [b st f sz sh ct lk]. simpl in *. by rewrite Hl.
Qed.

Lemma turns_ok es : forall s, input_ok (input (private s)) -> nobody_waits s -> Forall known_key es ->
  wp (turns video es) s (fun _ s' => took s s' (typed (shift (input (private s))) (ctrl (input (private s))) es)).
Proof.
  induction es as [|e es IH]; intros s Hi Hn Hk; simpl.
  { apply wp_ret. by apply took_refl. }
  apply Forall_cons in Hk as [He Hk]. apply wp_bind, wp_bind. eapply wp_mono; [by apply handle_event_ok|].
  intros _ s1 (Ht & Hsh & Hct).
  assert (nobody_waits s1) as Hn1 by (destruct Ht as (_ & (_ & _ & _ & Hs & Hb) & _); unfold nobody_waits; by rewrite Hs, Hb).
  eapply wp_mono; [apply answer_nobody; [apply Ht|done]|]. intros _ s1' ->.
  eapply wp_mono; [apply IH; [apply Ht|done..]|]. intros u s2 Ht2. cbv beta in Ht2. rewrite Hsh, Hct in Ht2.
  by eapply took_trans.
Qed.

(** The loop that hands characters out. *)
Lemma give_ok fuel : forall s data wanted given, ring_ok (input (private s)) -> 0 <= wanted ->
  (length (chars (input (private s))) <= fuel)%nat -> 0 <= data -> data + wanted < 2 ^ 32 ->
  writable (mem s) data (Z.to_nat wanted) ->
  let k := (Z.to_nat wanted `min` length (chars (input (private s))))%nat in
  wp (give fuel data wanted given) s (fun r s' => r.2 = given + Z.of_nat k /\ ring_ok (input (private s')) /\
    chars (input (private s')) = drop k (chars (input (private s))) /\
    mem s' = store_bytes data (take k (chars (input (private s)))) (mem s) /\
    ilock (input (private s')) = ilock (input (private s)) /\ out s' = out s /\ slaves (private s') = slaves (private s) /\ nb_slave (private s') = nb_slave (private s) /\
    screen (private s') = screen (private s)).
Proof.
  induction fuel as [|fuel IH]; intros s data wanted given Hi Hw Hf Hd Hdw Hwr k; apply wp_bind, wp_get;
    pose proof (length_chars (input (private s)) (io_length _ Hi)) as Hlen; pose proof (io_size _ Hi) as Hsz; simpl in Hsz; rewrite Z.gtb_ltb;
    (destruct ((wanted =? 0) || negb (0 <? size (input (private s)))) eqn:E;
      [apply wp_ret; assert (k = 0%nat) as -> by (unfold k; lia); simpl; split_and!; [lia|done..]|]).
  { apply orb_false_iff in E. lia. }
  assert (0 < wanted /\ 0 < size (input (private s))) as [Hw1 Hs1] by lia.
  destruct (chars (input (private s))) as [|c rest] eqn:Ec; [simpl in Hlen; lia|].
  apply wp_bind, wp_zoom. eapply wp_mono; [by apply input_pop_ok|]. intros r i' (-> & Hi' & Hch & Hsz' & Hlk).
  pose proof (chars_char _ Hi) as Hcc. change (Forall is_char (chars (input (private s)))) in Hcc. rewrite Ec in Hcc. apply Forall_cons in Hcc as [Hc _].
  apply wp_bind, wp_zoom. simpl. apply wp_store; [apply Hwr; lia|done|]. rewrite u32_small by lia.
  eapply wp_mono; [apply IH|]; simpl.
  - done.
  - lia.
  - rewrite Hch. simpl in Hf. lia.
  - lia.
  - lia.
  - intros x Hx. destruct (decide (x = data)) as [->|]; [rewrite lookup_insert_eq; by eexists|]. rewrite lookup_insert_ne by done.
    apply Hwr. lia.
  - intros [[d w] g] s' (Hg & Hi2 & Hc2 & Hm2 & Hl2 & Ho2 & Hsl & Hnb & Hscr). simpl in *. rewrite Hch in Hc2, Hm2, Hg.
    assert (k = S (Z.to_nat (wanted - 1) `min` length rest)) as -> by (unfold k; simpl; lia).
    split_and!; [lia|done|done|done|congruence|done..].
Qed.

Lemma take_min_len (l : list Z) n : take (n `min` length l) l = take n l.
Proof. destruct (Nat.le_ge_cases n (length l)); [by rewrite Nat.min_l|]. by rewrite Nat.min_r, !take_ge. Qed.
Lemma drop_min_len (l : list Z) n : drop (n `min` length l) l = drop n l.
Proof. destruct (Nat.le_ge_cases n (length l)); [by rewrite Nat.min_l|]. by rewrite Nat.min_r, !drop_ge. Qed.

Lemma tty_ctrl_read_ok s r : input_ok (input (private s)) -> chars (input (private s)) <> [] ->
  0 <= rw_size r -> 0 <= rw_data r -> rw_data r + rw_size r < 2 ^ 32 -> writable (mem s) (rw_data r) (Z.to_nat (rw_size r)) ->
  let got := take (Z.to_nat (rw_size r)) (chars (input (private s))) in
  wp (tty_ctrl_read r) s (fun x s' => x = (0, Some (Z.of_nat (length got))) /\
    input_ok (input (private s')) /\ bytes_at (mem s') (rw_data r) got /\
    chars (input (private s')) = drop (Z.to_nat (rw_size r)) (chars (input (private s))) /\
    screen (private s') = screen (private s)).
Proof.
  intros Hi Hne Hs0 Hd Hds Hw got. pose proof (io_lock _ Hi) as Hl. pose proof (length_chars _ (io_length _ Hi)) as Hlen.
  pose proof (chars_bound _ Hi) as Hb. apply wp_bind, wp_zoom, wp_lock; [done|]. apply wp_bind, wp_get. simpl.
  destruct (Z.eqb_spec (size (input (private s))) 0) as [E|E].
  { rewrite E in Hlen. by apply length_zero_iff_nil in Hlen. }
  cbn [negb]. apply wp_bind, wp_bind.
  set (s1 := set_private (set_input (set_ilock true (input (private s))) (private s)) s).
  assert (ring_ok (input (private s1))) as Hi1 by by destruct Hi.
  eapply wp_mono; [apply (give_ok 256 s1 (rw_data r) (rw_size r) 0 Hi1 Hs0 Hb Hd Hds Hw)|].
  intros [[d w] n] s2 (Hn & Hi2 & Hc2 & Hm2 & Hl2 & Ho2 & _ & _ & Hscr). simpl in Hn, Hc2, Hm2, Hscr.
  apply wp_ret, wp_bind, wp_zoom, wp_unlock, wp_ret. cbn [private set_private input set_input screen mem].
  change (chars (set_ilock false (input (private s2)))) with (chars (input (private s2))).
  change (chars (set_ilock true (input (private s)))) with (chars (input (private s))) in *.
  split_and!; [|done| | |done].
  - unfold got. rewrite length_take, Hn. done.
  - rewrite Hm2, take_min_len. apply bytes_at_store_bytes.
  - by rewrite Hc2, drop_min_len.
Qed.

(** The events of a sequence of scan codes. *)
Definition events_of (scans : list Z) : list input_event :=
  filter (fun e => code e <> KEY_RESERVED) (omap Keyboard.keymap_scan_to_input_event scans).

Lemma events_known scans : Forall (fun k => 0 <= k < 256) scans -> Forall known_key (events_of scans).
Proof.
  intros Hs. apply Forall_forall. intros e He. apply list_elem_of_filter in He as [_ He].
  apply list_elem_of_omap in He as (k & Hk & He). rewrite Forall_forall in Hs.
  destruct (Keyboard.scan_ok k (Hs k Hk)) as (e' & He' & _ & Hc & _). by simplify_eq.
Qed.

End typing.

(** [init_slaves] asks for one slave: when it succeeds, the array is full. *)
Lemma init_slaves_full array pids c c' :
  init_slaves 1 array pids c = Some (0, c') -> (forall l, array = Some l -> length l = 1%nat) ->
  slaves c' !! Z.to_nat (nb_slave c') = None.
Proof.
  intros Hi Hl. unfold init_slaves in Hi. destruct array as [l|]; [|done]. specialize (Hl l eq_refl).
  destruct pids as [|pid pids]; simpl in Hi; [done|]. destruct (pid <? 0); [destruct pids; simpl in Hi; done|].
  destruct (pid =? 0); [done|]. destruct pids; simpl in Hi; injection Hi as <-; simpl; apply lookup_ge_None_2; rewrite length_alter; lia.
Qed.

Lemma initialize_full e junk c' :
  tty_ctrl_initialize e (tty_ctrl_create junk) = Some (0, c') -> (forall l, cells e = Some l -> length l = 1%nat) ->
  slaves c' !! Z.to_nat (nb_slave c') = None.
Proof.
  unfold tty_ctrl_initialize. intros Hi Hl.
  destruct (kbd_fd _ <? 0) eqn:E1; [done|].
  destruct (video_fd _ <? 0) eqn:E2; [injection Hi as Hz <-; simpl in *; lia|].
  destruct (init_slaves 1 (cells e) (forks e) _) as [[r c1]|] eqn:Es; [|done].
  destruct (r <? 0) eqn:E3; [injection Hi as -> <-; done|]. destruct (init_video (ioctls e) <? 0) eqn:E4; [injection Hi as Hz <-; lia|].
  injection Hi as Hz <-. cbn [slaves nb_slave set_input]. eapply init_slaves_full; [|exact Hl].
  rewrite Es. unfold init_slaves in Es. destruct (cells e); [|by injection Es as <- <-].
  destruct (spawn _ _ _) as [c2|]; [|done]. injection Es as <- <-. by destruct (nb_slave c2 =? 0).
Qed.

(** C40: The controller keeps the request of a waiting slave in [slaves[nb_slave]], one
    cell past the array [tty_ctrl_initialize] allocates: once it has started, a read that
    finds no character and every event of the keyboard leave the array. *)
Theorem tty_ctrl_overruns_slaves e junk c' s :
  tty_ctrl_initialize e (tty_ctrl_create junk) = Some (0, c') -> (forall l, cells e = Some l -> length l = 1%nat) ->
  slaves (private s) = slaves c' -> nb_slave (private s) = nb_slave c' -> ilock (input (private s)) = false ->
  (size (input (private s)) = 0 -> forall r, tty_ctrl_read r s = Undef) /\ answer_waiting s = Undef.
Proof.
  intros Hi Hl Hs Hn Hk. pose proof (initialize_full e junk c' Hi Hl) as Hfull. rewrite <-Hs, <-Hn in Hfull. split.
  - intros Hz r. unfold tty_ctrl_read, lock_input, on_input, zoom, spinlock_lock, bind, get. rewrite Hk. simpl. rewrite Hz. simpl.
    unfold slave_at, bind, get. simpl. by rewrite Hfull.
  - unfold answer_waiting, lock_input, on_input, zoom, spinlock_lock, bind, get. rewrite Hk. simpl.
    unfold slave_at, bind, get. simpl. by rewrite Hfull.
Qed.

(** ** Samples: the keys a and enter *)

Definition sample_slave : tty_slave := {| ts_pid := 2; ts_slave_id := -1; ts_req := Keyboard.no_req |}.
Definition sample_input : tty_input :=
  {| ibuf := replicate 256 0; start := 0; finish := 0; size := 0; shift := 0; ctrl := 0; ilock := false |}.
Definition sample_ctrl (l : list tty_slave) : tty_ctrl :=
  {| video_fd := 4; kbd_fd := 3; nb_slave := 1; slaves := l; input := sample_input; screen := [] |}.
Definition sample_state (l : list tty_slave) : state :=
  {| mem := store_bytes 4096 (replicate 8 0) ∅; private := sample_ctrl l; running := 1; out := []; uprints := [] |}.
Definition sample_req : req_rdwr :=
  {| rw_hdr := {| op := VFS_READ; slave_id := 5 |}; rw_inode := 0; rw_size := 8; rw_off := 0; rw_data := 4096 |}.
Definition sample_video (b : list Z) : Z := Z.of_nat (length b).

Lemma sample_input_ok : input_ok sample_input.
Proof. split; cbn [ibuf start finish size ilock sample_input]; unfold TTY_INPUT_BUFFER_SIZE; [done|lia|lia|done|done|]. by apply Forall_replicate. Qed.

Lemma sample_place l : writable (mem (sample_state l)) 4096 8.
Proof. intros x Hx. apply lookup_store_bytes_in. rewrite length_replicate. lia. Qed.

Lemma sample_text : take capacity (typed 0 0 (events_of [30; 158; 28; 156])) = [97; 10].
Proof. by vm_compute. Qed.


Definition sample_answers : answers := {|
  kbd_opens := [-1; 3]; video_opens := [4]; cells := Some [sample_slave]; forks := [2]; ioctls := fun _ _ => 0; thread := 7;
|}.

Lemma tty_ctrl_overruns_slaves_witness :
  (forall r, tty_ctrl_read r (sample_state [sample_slave]) = Undef) /\ answer_waiting (sample_state [sample_slave]) = Undef.
Proof.
  destruct (tty_ctrl_overruns_slaves sample_answers (sample_ctrl []) (sample_ctrl [sample_slave]) (sample_state [sample_slave])) as [H1 H2].
  - by vm_compute.
  - intros l [= <-]. done.
  - done.
  - done.
  - done.
  - split; [by apply H1|exact H2].
Defined.

End TtyCtrl.

Module Tty.
Import Driver Stack.

Definition TTY_INPUT_BUFFER_SIZE : Z := 256.
Definition NEWLINE : Z := 10.

(** struct tty: the request that waits, and the buffer of [max_size] characters at
    [buffer]. *)
Record tty := {
  req : req_rdwr;
  req_slave : Z;
  buffer : Z;
  size : Z;
  max_size : Z;
  nb_line : Z;
  lock : bool;
}.

Definition set_req (r : req_rdwr) (i : Z) (t : tty) : tty :=
  {| req := r; req_slave := i; buffer := buffer t; size := size t; max_size := max_size t; nb_line := nb_line t; lock := lock t |}.
Definition set_req_slave (i : Z) (t : tty) : tty := set_req (req t) i t.
Definition set_buffer (a n : Z) (t : tty) : tty :=
  {| req := req t; req_slave := req_slave t; buffer := a; size := size t; max_size := n; nb_line := nb_line t; lock := lock t |}.
Definition set_size (n : Z) (t : tty) : tty :=
  {| req := req t; req_slave := req_slave t; buffer := buffer t; size := n; max_size := max_size t; nb_line := nb_line t; lock := lock t |}.
Definition set_nb_line (n : Z) (t : tty) : tty :=
  {| req := req t; req_slave := req_slave t; buffer := buffer t; size := size t; max_size := max_size t; nb_line := n; lock := lock t |}.
Definition set_lock (b : bool) (t : tty) : tty :=
  {| req := req t; req_slave := req_slave t; buffer := buffer t; size := size t; max_size := max_size t; nb_line := nb_line t; lock := b |}.

Definition state : Type := proc tty.
Definition upd (f : tty -> tty) : M state unit := modify (fun s => set_private (f (private s)) s).
Definition take_lock : M state unit :=
  spinlock_lock (fun s => lock (private s)) (fun b s => set_private (set_lock b (private s)) s).
Definition drop_lock : M state unit := spinlock_unlock (fun b s => set_private (set_lock b (private s)) s).

(** The loop of [tty_flush_buffer]: how many characters were taken. *)
Fixpoint flush_loop (dest size : Z) (max_size : nat) : M state Z :=
  match max_size with
  | O => ret size
  | S max_size =>
      let! s := get in
      let! c := on_mem (load (buffer (private s) + size)) in
      on_mem (store dest c) ;;;
      let! c := on_mem (load (buffer (private s) + size)) in
      if c =? NEWLINE then
        upd (fun t => set_nb_line (nb_line t - 1) t) ;;;
        ret (size + 1)
      else flush_loop (dest + 1) (size + 1) max_size
  end.

Definition tty_flush_buffer (dest n : Z) : M state Z :=
  let! taken := flush_loop dest 0 (Z.to_nat n) in
  let! s := get in
  let t := private s in
  on_mem (LibcString.memcpy (buffer t) (buffer t + taken) (max_size t)) ;;;
  upd (fun t => set_size (size t - taken) t) ;;;
  ret taken.

Definition tty_read (r : req_rdwr) : M state (Z * option Z) :=
  take_lock ;;;
  let! s := get in
  let! res := (if req_slave (private s) >=? 0 then ret (-1, None)
    else if nb_line (private s) >? 0 then
      let! n := tty_flush_buffer (rw_data r) (rw_size r) in ret (0, Some n)
    else
      upd (set_req r (slave_id (rw_hdr r))) ;;;
      ret (DRV_NORESPONSE, None)) in
  drop_lock ;;;
  ret res.

Section driver.
(** What [write] on the controller returns, and [realloc]. *)
Context (ctrl_write : list Z -> Z) (realloc : Z -> Z -> M bmem Z).

Definition tty_write (r : req_rdwr) : M state (Z * option Z) :=
  let! data := on_mem (load_all (rw_data r) (Z.to_nat (rw_size r))) in
  let n := ctrl_write data in
  if n <? 0 then ret (n, None) else ret (0, Some n).

Definition tty_ops : driver_ops tty := {|
  d_open := None;
  d_read := Some tty_read;
  d_write := Some tty_write;
  d_close := None;
  d_ioctl := None;
|}.

(** What [read] on the controller gives: an error, or characters, which the kernel has
    stored behind those of the buffer. *)
Fixpoint count_lines (n : nat) : M state unit :=
  match n with
  | O => ret tt
  | S n =>
      let! s := get in
      let! c := on_mem (load (buffer (private s) + size (private s))) in
      (if c =? NEWLINE then upd (fun t => set_nb_line (nb_line t + 1) t) else ret tt) ;;;
      count_lines n
  end.

(** The buffer is doubled when it is full; is there room now? *)
Definition make_room : M state bool :=
  let! s := get in
  let t := private s in
  if size t =? max_size t then
    let! tmp := on_mem (realloc (buffer t) (max_size t * 2)) in
    if tmp =? 0 then ret false
    else upd (set_buffer tmp (max_size t * 2)) ;;; ret true
  else ret true.

(** The characters are added to the buffer and their lines counted. *)
Definition receive (l : list Z) : M state unit :=
  let! s := get in
  on_mem (UMem.store_all (buffer (private s) + size (private s)) l) ;;;
  count_lines (length l) ;;;
  upd (fun t => set_size (size t + Z.of_nat (length l)) t).

Definition answer_line : M state unit :=
  take_lock ;;;
  let! s := get in
  let t := private s in
  (if (req_slave t >=? 0) && (nb_line t >? 0) then
     let! n := tty_flush_buffer (rw_data (req t)) (rw_size (req t)) in
     write_response (RespRdwr (req_slave t) 0 (Some n)) ;;;
     upd (set_req_slave (-1))
   else ret tt) ;;;
  drop_lock.

Definition input_turn (got : Z + list Z) : M state unit :=
  let! room := make_room in
  if negb room then ret tt
  else match got with
  | inl err => ret tt
  | inr l => receive l ;;; answer_line
  end.
End driver.

(** What each [open] of the controller returns; the device does not come when the answers
    run out. *)
Definition TTY_WAIT_CTRL : Z := 1000.
Fixpoint tty_wait_ctrl (timeout : Z) (tries : list Z) : Z :=
  match tries with
  | [] => -1
  | fd :: tries =>
      if timeout <? TTY_WAIT_CTRL then
        if fd >=? 0 then fd else tty_wait_ctrl (timeout + TTY_WAIT_CTRL) tries
      else -1
  end.

(** The delay is as long as the wait: there is a single try. *)
Lemma tty_wait_ctrl_once fd tries : tty_wait_ctrl 0 (fd :: tries) = if fd >=? 0 then fd else -1.
Proof. simpl. destruct (fd >=? 0); [done|]. by destruct tries. Qed.

(** The driver as [main] starts it. *)
Definition tty_start (buf : Z) : tty := {|
  req := Keyboard.no_req; req_slave := -1; buffer := buf; size := 0;
  max_size := TTY_INPUT_BUFFER_SIZE; nb_line := 0; lock := false;
|}.

(** ** Lines *)

Definition lines (l : list Z) : Z := Z.of_nat (length (filter (fun c => c = NEWLINE) l)).

(** How much of [l] a read of [n] characters gets: up to the first end of line. *)
Fixpoint line_len (n : nat) (l : list Z) : nat :=
  match n, l with
  | S n, c :: l => if c =? NEWLINE then 1%nat else S (line_len n l)
  | _, _ => 0%nat
  end.

Lemma line_len_le n l : (line_len n l <= n)%nat /\ (line_len n l <= length l)%nat.
Proof.
  revert l. induction n as [|n IH]; intros [|c l]; simpl; try lia. destruct (c =? NEWLINE); [lia|]. specialize (IH l). lia.
Qed.

Lemma lines_cons c l : lines (c :: l) = (if c =? NEWLINE then 1 else 0) + lines l.
Proof.
  unfold lines. rewrite filter_cons. destruct (Z.eqb_spec c NEWLINE) as [->|Hc].
  - rewrite decide_True by done. simpl. lia.
  - rewrite decide_False by done. lia.
Qed.

Lemma lines_app l1 l2 : lines (l1 ++ l2) = lines l1 + lines l2.
Proof. unfold lines. rewrite filter_app, length_app. lia. Qed.

Lemma lines_take_drop n l : lines (drop n l) = lines l - lines (take n l).
Proof. rewrite <-(take_drop n l) at 2. rewrite lines_app. lia. Qed.

Lemma lines_pos l : 0 < lines l <-> NEWLINE ∈ l.
Proof.
  unfold lines. split.
  - intros Hl. destruct (filter _ l) as [|c r] eqn:E; [simpl in Hl; lia|].
    assert (c ∈ filter (fun c => c = NEWLINE) l) as Hc by (rewrite E; left). by apply list_elem_of_filter in Hc as [-> ?].
  - intros Hin. assert (NEWLINE ∈ filter (fun c => c = NEWLINE) l) as Hf by by apply list_elem_of_filter.
    destruct (filter _ l); [by apply elem_of_nil in Hf|simpl; lia].
Qed.

Definition mem_chars (m : bmem) : Prop := forall x c, m !! x = Some c -> is_char c.

Lemma mem_chars_store m a l : mem_chars m -> Forall is_char l -> mem_chars (store_bytes a l m).
Proof.
  revert m a. induction l as [|c l IH]; intros m a Hm Hl; simpl; [done|]. apply Forall_cons in Hl as [Hc Hl].
  apply IH; [|done]. intros x d. rewrite lookup_insert_Some. intros [[_ <-]|[_ Hx]]; [done|by eapply Hm].
Qed.

Lemma writable_bytes m n : forall a, writable m a n -> mem_chars m -> exists l, length l = n /\ bytes_at m a l /\ Forall is_char l.
Proof.
  induction n as [|n IH]; intros a Hw Hm; [by exists []|]. apply writable_S in Hw as [[c Hc] Hw].
  destruct (IH (a + 1) Hw Hm) as (l & Hl & Hb & Hf). exists (c :: l). simpl. split_and!; [lia|done..|].
  constructor; [by eapply Hm|done].
Qed.

(** The loop takes a line, or what the reader has room for. *)
Lemma flush_loop_ok n : forall s dest sz l,
  bytes_at (mem s) (buffer (private s) + sz) l -> Forall is_char l -> (n <= length l)%nat \/ NEWLINE ∈ l ->
  writable (mem s) dest n ->
  (dest + Z.of_nat n <= buffer (private s) + sz \/ buffer (private s) + sz + Z.of_nat (length l) <= dest) ->
  wp (flush_loop dest sz n) s (fun r s' => r = sz + Z.of_nat (line_len n l) /\
    s' = set_private (set_nb_line (nb_line (private s) - lines (take (line_len n l) l)) (private s))
           (set_mem (store_bytes dest (take (line_len n l) l) (mem s)) s)).
Proof.
  induction n as [|n IH]; intros s dest sz l Hb Hc Hl Hw Hd.
  { apply wp_ret. split; [simpl; lia|]. unfold lines. simpl. rewrite Z.sub_0_r. by destruct s as [? [] ? ? ?]. }
  destruct l as [|c l]; [destruct Hl as [Hl|Hl]; [simpl in Hl; lia|by apply elem_of_nil in Hl]|].
  destruct Hb as [Hb0 Hb]. apply Forall_cons in Hc as [Hc Hcl]. apply writable_S in Hw as [Hw0 Hw].
  cbn [flush_loop]. apply wp_bind, wp_get, wp_bind, wp_zoom. eapply wp_load; [done|]. apply wp_bind, wp_zoom, wp_store; [done..|].
  apply wp_bind, wp_zoom. simpl in Hd. eapply wp_load; [simpl; rewrite lookup_insert_ne by lia; done|]. simpl.
  destruct (Z.eqb_spec c NEWLINE) as [->|Hne].
  - apply wp_bind, wp_modify, wp_ret. split; [simpl; lia|]. simpl. unfold lines. simpl.
    by destruct s as [? [] ? ? ?].
  - eapply wp_mono; [apply (IH _ (dest + 1) (sz + 1) l)|]; simpl.
    + rewrite Z.add_assoc. apply bytes_at_frame; [done|]. lia.
    + done.
    + destruct Hl as [Hl|Hl]; [left; simpl in Hl; lia|right]. by apply elem_of_cons in Hl as [?|?].
    + by apply writable_insert.
    + lia.
    + intros r s' [-> ->]. split; [lia|]. simpl. rewrite lines_cons, (proj2 (Z.eqb_neq c NEWLINE)) by done. by destruct s as [? [] ? ? ?].
Qed.

(** ** The buffer *)

(** [tty_flush_buffer] moves [max_size] characters from behind those it took, past the
    end of the buffer: the invariant asks for memory there. *)
Definition span (t : tty) : Z := 2 * max_size t.

Record buffer_ok (s : state) (text : list Z) : Prop := {
  bo_text : bytes_at (mem s) (buffer (private s)) text;
  bo_text_char : Forall is_char text;
  bo_size : size (private s) = Z.of_nat (length text);
  bo_max : Z.of_nat (length text) <= max_size (private s);
  bo_mapped : writable (mem s) (buffer (private s)) (Z.to_nat (span (private s)));
  bo_range : 0 <= buffer (private s) /\ buffer (private s) + span (private s) < 2 ^ 32;
  bo_chars : mem_chars (mem s);
  bo_lines : nb_line (private s) = lines text;
}.

(** A buffer of a reader, away from the driver's. *)
Record reader_ok (s : state) (r : req_rdwr) : Prop := {
  rd_size : 0 <= rw_size r;
  rd_mapped : writable (mem s) (rw_data r) (Z.to_nat (rw_size r));
  rd_apart : rw_data r + rw_size r <= buffer (private s) \/ buffer (private s) + span (private s) <= rw_data r;
}.

Lemma tty_flush_buffer_ok s text dest n r :
  buffer_ok s text -> reader_ok s r -> dest = rw_data r -> n = rw_size r -> NEWLINE ∈ text ->
  let k := line_len (Z.to_nat n) text in
  wp (tty_flush_buffer dest n) s (fun x s' => x = Z.of_nat k /\ buffer_ok s' (drop k text) /\
    bytes_at (mem s') dest (take k text) /\ out s' = out s /\ only (fun _ => True) (mem s) (mem s') /\
    exists t, private s' = set_size (size (private s) - Z.of_nat k) (set_nb_line t (private s))).
Proof.
  intros [Hb Hc Hs Hm Hmap Hr Hmc Hl] [Hr0 Hrm Hra] -> -> Hnl k. unfold span in *. pose proof (line_len_le (Z.to_nat (rw_size r)) text) as Hk. fold k in Hk.
  apply wp_bind. eapply wp_mono; [apply (flush_loop_ok (Z.to_nat (rw_size r)) s (rw_data r) 0 text); rewrite ?Z.add_0_r; try done; [by right|lia]|].
  fold k. intros x s1 [-> ->]. rewrite Z.add_0_l. apply wp_bind, wp_get, wp_bind, wp_zoom. simpl.
  set (m1 := store_bytes (rw_data r) (take k text) (mem s)).
  assert (length (take k text) = k) as Hlk by (rewrite length_take; lia).
  assert (only (fun x => rw_data r <= x < rw_data r + Z.of_nat k) (mem s) m1) as Ho1.
  { eapply only_mono; [apply store_bytes_only|]. cbv beta. rewrite Hlk. done. }
  assert (bytes_at m1 (buffer (private s)) text) as Hb1 by (eapply only_bytes; [exact Ho1| |done]; cbv beta; lia).
  assert (mem_chars m1) as Hmc1 by (apply mem_chars_store; [done|by apply Forall_take]).
  assert (writable m1 (buffer (private s)) (Z.to_nat (2 * max_size (private s)))) as Hmap1 by by eapply only_writable.
  destruct (writable_bytes m1 (Z.to_nat (max_size (private s))) (buffer (private s) + Z.of_nat k)) as (l & Hll & Hlb & Hlc); [|done|].
  { intros x Hx. apply Hmap1. lia. }
  replace (max_size (private s)) with (Z.of_nat (length l)) at 1 by lia.
  eapply wp_mono; [apply libc_memcpy_spec; [done..| |lia|lia]|].
  { intros x Hx. apply Hmap1. lia. }
  intros _ m2 [_ ->]. apply wp_bind, wp_modify, wp_ret. simpl. split_and!; [done| | |done| |by eexists].
  - assert (take (length text - k) l = drop k text) as Hdt.
    { apply (bytes_at_inj m1 (buffer (private s) + Z.of_nat k)).
      - by apply bytes_at_take.
      - apply bytes_at_drop; [lia|done].
      - rewrite length_take, length_drop. lia. }
    split; simpl; unfold span; simpl; try done.
    + rewrite <-Hdt. apply bytes_at_take, bytes_at_store_bytes.
    + by apply Forall_drop.
    + rewrite length_drop. lia.
    + rewrite length_drop. lia.
    + eapply only_writable; [apply store_bytes_only|done].
    + by apply mem_chars_store.
    + rewrite lines_take_drop. lia.
  - eapply only_bytes; [apply (store_bytes_only (buffer (private s)) l m1)| |apply bytes_at_store_bytes].
    rewrite Hlk. cbv beta. lia.
  - eapply (only_trans _ _ _ _ m1); [exact Ho1|apply store_bytes_only|done|done].
Qed.

(** ** Steps of the driver *)

Inductive action :=
| Kernel (m : bmem)
| Input (got : Z + list Z)
| Read (r : req_rdwr).

Section steps.
Context (ctrl_write : list Z -> Z) (realloc : Z -> Z -> M bmem Z).
Implicit Types (s : state) (text : list Z).

Definition run_action (a : action) : M state unit :=
  match a with
  | Kernel m => modify (set_mem m)
  | Input got => input_turn realloc got
  | Read r => dispatch (tty_ops ctrl_write) (ReqRdwr r)
  end.

Record tty_inv s text : Prop := {
  tv_buffer : buffer_ok s text;
  tv_lock : lock (private s) = false;
  tv_wait : 0 <= req_slave (private s) -> lines text = 0 /\ reader_ok s (req (private s));
}.

(** The kernel leaves the driver's buffer and that of a waiting reader alone; the
    controller gives one character at a time, while there is room. *)
Definition action_ok s (a : action) : Prop :=
  match a with
  | Kernel m =>
      (forall x, buffer (private s) <= x < buffer (private s) + span (private s) -> m !! x = mem s !! x) /\
      mem_chars m /\ (0 <= req_slave (private s) -> reader_ok (set_mem m s) (req (private s)))
  | Input got => size (private s) < max_size (private s) /\
      match got with inl _ => True | inr l => length l = 1%nat /\ Forall is_char l end
  | Read r => op (rw_hdr r) = VFS_READ /\ 0 <= slave_id (rw_hdr r) /\ reader_ok s r
  end.

Definition accepted (a : action) : list Z := match a with Input (inr l) => l | _ => [] end.
Definition place s (a : action) : Z := match a with Read r => rw_data r | _ => rw_data (req (private s)) end.

(** The characters a reader finds in its buffer when its read is answered. *)
Definition answered s (a : action) (s' : state) (r : response) : list Z :=
  match r with
  | RespRdwr _ ret (Some n) => if ret =? 0 then Keyboard.bytes_of (mem s') (place s a) (Z.to_nat n) else []
  | _ => []
  end.
Definition delivered s (a : action) (s' : state) : list Z :=
  mjoin (answered s a s' <$> drop (length (out s)) (out s')).

Inductive reach s : list Z -> list Z -> state -> Prop :=
| reach_start : reach s [] [] s
| reach_step acc del s1 a s2 :
    reach s acc del s1 -> action_ok s1 a -> run_action a s1 = Done (tt, s2) ->
    reach s (acc ++ accepted a) (del ++ delivered s1 a s2) s2.

(** What a reader gets of the text: nothing, or its first line, cut at the size asked. *)
Definition first_line (text del : list Z) : Prop :=
  del = [] \/ exists n, NEWLINE ∈ text /\ del = take (line_len n text) text.

Definition moves s text (a : action) (s' : state) : Prop :=
  exists text', tty_inv s' text' /\ delivered s a s' ++ text' = text ++ accepted a /\ first_line (text ++ accepted a) (delivered s a s').

Lemma quiet_step s a s' : out s' = out s -> delivered s a s' = [].
Proof. intros Ho. unfold delivered. by rewrite Ho, drop_ge. Qed.

Lemma answered_step s a s' i l :
  out s' = out s ++ [RespRdwr i 0 (Some (Z.of_nat (length l)))] -> bytes_at (mem s') (place s a) l -> delivered s a s' = l.
Proof.
  intros Ho Hb. unfold delivered. rewrite Ho, drop_app_length. simpl. rewrite app_nil_r, Nat2Z.id.
  by apply Keyboard.bytes_of_at.
Qed.

Lemma moves_quiet s text a s' : delivered s a s' = [] -> tty_inv s' (text ++ accepted a) -> moves s text a s'.
Proof. intros Hd Hi. exists (text ++ accepted a). split_and!; [done|by rewrite Hd|by left]. Qed.

Lemma moves_line s text a s' i n :
  let all := text ++ accepted a in let k := line_len n all in
  NEWLINE ∈ all -> out s' = out s ++ [RespRdwr i 0 (Some (Z.of_nat k))] -> bytes_at (mem s') (place s a) (take k all) ->
  tty_inv s' (drop k all) -> moves s text a s'.
Proof.
  intros all k Hnl Ho Hb Hi. exists (drop k all).
  assert (delivered s a s' = take k all) as Hd.
  { apply (answered_step _ _ _ i); [|done]. rewrite length_take_le; [done|]. apply line_len_le. }
  rewrite Hd. split_and!; [done|by rewrite take_drop|]. right. by exists n.
Qed.

(** The state of the lock and of the waiting request does not matter to the buffer. *)
Lemma buffer_ok_ext s s' text : buffer_ok s text -> mem s' = mem s -> buffer (private s') = buffer (private s) ->
  size (private s') = size (private s) -> max_size (private s') = max_size (private s) ->
  nb_line (private s') = nb_line (private s) -> buffer_ok s' text.
Proof. intros [H1 H2 H3 H4 H5 H6 H7 H8] E1 E2 E3 E4 E5. unfold span in *. split; unfold span; rewrite ?E1, ?E2, ?E3, ?E4, ?E5; done. Qed.

Lemma reader_ok_ext s s' r : reader_ok s r -> only (fun _ => True) (mem s) (mem s') -> buffer (private s') = buffer (private s) ->
  max_size (private s') = max_size (private s) -> reader_ok s' r.
Proof. intros [H1 H2 H3] Ho E1 E2. unfold span in *. split; unfold span; rewrite ?E1, ?E2; [done| |done]. by eapply only_writable. Qed.

(** A read, of a driver whose lock is free. *)
Lemma read_moves s text r : tty_inv s text -> action_ok s (Read r) -> wp (run_action (Read r)) s (fun _ s' => moves s text (Read r) s').
Proof.
  intros [Hb Hl Hw] (Hop & Hid & Hrd). unfold run_action, dispatch. simpl. rewrite Hop. simpl. apply wp_bind. unfold tty_read.
  apply wp_bind, wp_lock; [done|]. apply wp_bind, wp_get. simpl. rewrite Z.geb_leb, Z.gtb_ltb.
  destruct (Z.leb_spec 0 (req_slave (private s))) as [Hs|Hs].
  { apply wp_bind, wp_ret, wp_bind, wp_unlock, wp_ret, wp_modify. apply moves_quiet.
    - unfold delivered. simpl. by rewrite drop_app_length.
    - simpl. rewrite app_nil_r. split; simpl; [by eapply buffer_ok_ext|done|]. intros _. destruct (Hw Hs) as [? ?]. split; [done|by eapply reader_ok_ext]. }
  pose proof (bo_lines _ _ Hb) as Hln. destruct (Z.ltb_spec 0 (nb_line (private s))) as [Hn|Hn].
  - apply wp_bind, wp_bind. eapply wp_mono.
    { apply (tty_flush_buffer_ok _ text _ _ r); [by eapply buffer_ok_ext|by eapply reader_ok_ext|done|done|]. apply lines_pos. lia. }
    intros x s' (-> & Hb' & Hget & Ho & _ & t & Hp). apply wp_ret, wp_bind, wp_unlock, wp_ret, wp_modify.
    apply (moves_line _ _ _ _ (slave_id (rw_hdr r)) (Z.to_nat (rw_size r))); simpl; rewrite app_nil_r; [apply lines_pos; lia| |done|].
    + by rewrite Ho.
    + split; simpl; [by eapply buffer_ok_ext|done|]. rewrite Hp. simpl. lia.
  - apply wp_bind, wp_bind, wp_modify, wp_ret, wp_bind, wp_unlock, wp_ret. unfold respond. rewrite Z.eqb_refl. apply wp_ret.
    apply moves_quiet; [by apply quiet_step|]. simpl. rewrite app_nil_r.
    split; simpl; [by eapply buffer_ok_ext|done|]. intros _. split; [|by eapply reader_ok_ext]. unfold lines in *. lia.
Qed.

Lemma count_lines_ok n : forall s c, mem s !! (buffer (private s) + size (private s)) = Some c ->
  wp (count_lines n) s (fun _ s' =>
    s' = set_private (set_nb_line (nb_line (private s) + if c =? NEWLINE then Z.of_nat n else 0) (private s)) s).
Proof.
  induction n as [|n IH]; intros s c Hc.
  { apply wp_ret. destruct s as [? [] ? ? ?]. simpl. by destruct (c =? NEWLINE); rewrite Z.add_0_r. }
  cbn [count_lines]. apply wp_bind, wp_get, wp_bind, wp_zoom. eapply wp_load; [done|].
  replace (set_mem (mem s) s) with s by by destruct s. apply wp_bind.
  eapply (wp_mono _ _ (fun _ s' => s' = set_private (set_nb_line (nb_line (private s) + if c =? NEWLINE then 1 else 0) (private s)) s)).
  { destruct (c =? NEWLINE); [by apply wp_modify|]. apply wp_ret. rewrite Z.add_0_r. by destruct s as [? [] ? ? ?]. }
  intros _ s1 ->. eapply wp_mono; [by apply (IH _ c)|]. intros _ s2 ->. destruct s as [? [] ? ? ?]. simpl.
  unfold set_private, set_nb_line. simpl. do 2 f_equal. destruct (c =? NEWLINE); lia.
Qed.

(** What is read is added to the text; the lines are counted by its first character. *)
Lemma receive_ok s text c l :
  buffer_ok s text -> Forall is_char (c :: l) -> Z.of_nat (length (text ++ c :: l)) <= max_size (private s) ->
  let n := nb_line (private s) + if c =? NEWLINE then Z.of_nat (S (length l)) else 0 in
  wp (receive (c :: l)) s (fun _ s' => out s' = out s /\ only (fun _ => True) (mem s) (mem s') /\
    bytes_at (mem s') (buffer (private s)) (text ++ c :: l) /\
    private s' = set_size (Z.of_nat (length (text ++ c :: l))) (set_nb_line n (private s)) /\
    (n = lines (text ++ c :: l) -> buffer_ok s' (text ++ c :: l))).
Proof.
  intros [Hb Hc Hs Hm Hmap Hr Hmc Hl] Hcl Hroom n. unfold span in *. rewrite length_app in Hroom. simpl in Hroom.
  apply wp_bind, wp_get, wp_bind, wp_zoom.
  eapply wp_mono; [apply UMem.store_all_ok; [|done]|].
  { intros x Hx. apply Hmap. simpl in Hx. lia. }
  intros _ m ->. set (a := buffer (private s) + size (private s)). set (m1 := store_bytes a (c :: l) (mem s)).
  assert (only (fun x => a <= x < a + Z.of_nat (S (length l))) (mem s) m1) as Ho1 by apply (store_bytes_only a (c :: l)).
  assert (bytes_at m1 a (c :: l)) as Hb1 by apply bytes_at_store_bytes.
  apply wp_bind. eapply wp_mono; [apply (count_lines_ok _ _ c); apply Hb1|]. intros _ s1 ->. apply wp_modify. simpl.
  assert (bytes_at m1 (buffer (private s)) (text ++ c :: l)) as Ht.
  { apply bytes_at_app. split; [|by rewrite <-Hs]. eapply only_bytes; [exact Ho1| |done]. cbv beta. unfold a. lia. }
  rewrite length_app. simpl. split_and!; [done|by eapply only_mono|done| |].
  - unfold set_size, set_nb_line. simpl. f_equal. lia.
  - intros Hn. split; simpl; unfold span; simpl; try done.
    + apply Forall_app. by split.
    + rewrite length_app. simpl. lia.
    + rewrite length_app. simpl. lia.
    + by eapply only_writable.
    + by apply mem_chars_store.
Qed.

Lemma lines_one text c : lines (text ++ [c]) = lines text + if c =? NEWLINE then 1 else 0.
Proof. rewrite lines_app, lines_cons. change (lines []) with 0. lia. Qed.

Lemma input_moves s text got : tty_inv s text -> action_ok s (Input got) ->
  wp (run_action (Input got)) s (fun _ s' => moves s text (Input got) s').
Proof.
  intros [Hb Hl Hw] (Hroom & Hgot). apply wp_bind, wp_bind, wp_get. cbv zeta. rewrite (proj2 (Z.eqb_neq _ _)) by lia. apply wp_ret. simpl.
  destruct got as [err|l].
  { apply wp_ret. apply moves_quiet; [by apply quiet_step|]. simpl. by rewrite app_nil_r. }
  destruct Hgot as [Hlen Hch]. destruct l as [|c [|]]; try done. clear Hlen.
  pose proof (bo_size _ _ Hb) as Hsz. pose proof (bo_lines _ _ Hb) as Hln.
  apply wp_bind. eapply wp_mono; [apply (receive_ok s text c []); [done..|rewrite length_app; simpl; lia]|].
  intros _ s1 (Ho & Hon & _ & Hp & Hb1). specialize (Hb1 ltac:(rewrite lines_one, Hln; simpl; by destruct (c =? NEWLINE))).
  set (text' := text ++ [c]) in *. unfold answer_line. apply wp_bind, wp_lock; [by rewrite Hp|]. apply wp_bind, wp_get. simpl.
  rewrite Z.geb_leb, Z.gtb_ltb. pose proof (bo_lines _ _ Hb1) as Hln1.
  assert (req_slave (private s1) = req_slave (private s) /\ req (private s1) = req (private s)) as [Er1 Er2] by by rewrite Hp.
  destruct (Z.leb_spec 0 (req_slave (private s1))) as [Hs|Hs]; [destruct (Z.ltb_spec 0 (nb_line (private s1))) as [Hn|Hn]|]; cbn [andb].
  - destruct (Hw ltac:(lia)) as [_ Hrd]. apply wp_bind, wp_bind. eapply wp_mono.
    { apply (tty_flush_buffer_ok _ text' _ _ (req (private s1))); [by eapply buffer_ok_ext| |done|done|apply lines_pos; lia].
      rewrite Er2. eapply reader_ok_ext; [exact Hrd|exact Hon|by rewrite Hp..]. }
    intros x s2 (-> & Hb2 & Hget & Ho2 & _ & t & Hp2). apply wp_bind, wp_modify, wp_modify, wp_unlock.
    apply (moves_line _ _ _ _ (req_slave (private s1)) (Z.to_nat (rw_size (req (private s1))))); change (text ++ accepted (Input (inr [c]))) with text'; [apply lines_pos; lia| |simpl; by rewrite <-Er2|].
    + simpl. by rewrite Ho2, <-Ho.
    + split; simpl; [by eapply buffer_ok_ext|done|lia].
  - apply wp_bind, wp_ret, wp_unlock. apply moves_quiet; [by apply quiet_step|]. change (text ++ accepted _) with text'.
    split; simpl; [by eapply buffer_ok_ext|done|]. intros _. split; [unfold lines in *; lia|]. rewrite Er2.
    destruct (Hw ltac:(lia)) as [_ Hrd]. eapply reader_ok_ext; [exact Hrd|exact Hon|simpl; by rewrite Hp..].
  - apply wp_bind, wp_ret, wp_unlock. apply moves_quiet; [by apply quiet_step|].
    split; simpl; [by eapply buffer_ok_ext|done|lia].
Qed.

Lemma kernel_moves s text m : tty_inv s text -> action_ok s (Kernel m) ->
  wp (run_action (Kernel m)) s (fun _ s' => moves s text (Kernel m) s').
Proof.
  intros [[Hb Hc Hs Hm Hmap Hr Hmc Hl] Hlk Hw] (Hsame & Hch & Hrd). apply wp_modify.
  apply moves_quiet; [by apply quiet_step|]. simpl. rewrite app_nil_r. unfold span in *.
  split; simpl; [|done|].
  - split; simpl; unfold span; try done.
    + eapply bytes_at_kept; [done|]. intros x Hx. apply Hsame. lia.
    + intros x Hx. rewrite Hsame by lia. by apply Hmap.
  - intros Hq. by split; [apply Hw|apply Hrd].
Qed.

Lemma tty_moves s text a : tty_inv s text -> action_ok s a -> wp (run_action a) s (fun _ s' => moves s text a s').
Proof. destruct a; [apply kernel_moves|apply input_moves|apply read_moves]. Qed.

Lemma tty_reach_ok s text acc del s' : tty_inv s text -> reach s acc del s' ->
  exists text', tty_inv s' text' /\ del ++ text' = text ++ acc.
Proof.
  intros Hi Hr. induction Hr as [|acc del s1 a s2 Hr (t1 & Hi1 & IH) Hok Hrun]; [exists text; by rewrite app_nil_r|].
  pose proof (tty_moves s1 t1 a Hi1 Hok) as Hm. unfold wp in Hm. rewrite Hrun in Hm. destruct Hm as (t2 & Hi2 & Hm & _).
  exists t2. split; [done|]. by rewrite <-app_assoc, Hm, !app_assoc, IH.
Qed.

(** ** Theorems *)


(** When one read of the controller brings a line whose end is not its first
    character, the line is not counted: the text is in the buffer, and the reader that
    waits for it is not answered. *)
Theorem tty_misses_line s text c l :
  buffer_ok s text -> lock (private s) = false -> lines text = 0 -> c <> NEWLINE ->
  Forall is_char (c :: l ++ [NEWLINE]) -> Z.of_nat (length (text ++ c :: l ++ [NEWLINE])) <= max_size (private s) ->
  exists s', run_action (Input (inr (c :: l ++ [NEWLINE]))) s = Done (tt, s') /\
    bytes_at (mem s') (buffer (private s')) (text ++ c :: l ++ [NEWLINE]) /\
    nb_line (private s') = 0 /\ req_slave (private s') = req_slave (private s) /\ out s' = out s.
Proof.
  intros Hb Hl H0 Hc Hch Hroom.
  assert (wp (run_action (Input (inr (c :: l ++ [NEWLINE])))) s (fun _ s' =>
    bytes_at (mem s') (buffer (private s')) (text ++ c :: l ++ [NEWLINE]) /\
    nb_line (private s') = 0 /\ req_slave (private s') = req_slave (private s) /\ out s' = out s)) as Hw.
  { pose proof (bo_size _ _ Hb) as Hsz. pose proof (bo_lines _ _ Hb) as Hln.
    apply wp_bind, wp_bind, wp_get. cbv zeta.
    rewrite (proj2 (Z.eqb_neq _ _)) by (rewrite length_app in Hroom; simpl in Hroom; lia).
    apply wp_ret. simpl. apply wp_bind. eapply wp_mono; [by apply (receive_ok s text c (l ++ [NEWLINE]))|].
    rewrite (proj2 (Z.eqb_neq _ _)) by done. intros _ s1 (Ho & _ & Hbt & Hp & _).
    unfold answer_line. apply wp_bind, wp_lock; [by rewrite Hp|]. apply wp_bind, wp_get. simpl. rewrite Hp. simpl.
    rewrite Hln, H0. simpl. rewrite andb_false_r. apply wp_bind, wp_ret, wp_unlock. simpl.
    split_and!; [done|lia|done|done]. }
  apply wp_run in Hw as ([] & s' & Hrun & Hw). eauto.
Qed.
End steps.

Lemma tty_start_ok m buf o u ru :
  writable m buf 512 -> 0 <= buf -> buf + 512 < 2 ^ 32 -> mem_chars m ->
  tty_inv {| mem := m; private := tty_start buf; running := ru; out := o; uprints := u |} [].
Proof.
  intros Hw H0 H1 Hc. split; simpl; [|done|lia].
  split; simpl; unfold span, TTY_INPUT_BUFFER_SIZE; simpl; unfold TTY_INPUT_BUFFER_SIZE; try done.
Qed.

(** ** Samples: a reader that waits for the line a *)

Definition sample_tty : state := {|
  mem := store_bytes 4096 (replicate 8 0) (store_bytes 8192 (replicate 512 0) ∅); private := tty_start 8192;
  running := 1; out := []; uprints := [];
|}.
Definition sample_read : req_rdwr :=
  {| rw_hdr := {| op := VFS_READ; slave_id := 5 |}; rw_inode := 0; rw_size := 8; rw_off := 0; rw_data := 4096 |}.
Definition no_realloc (p n : Z) : M bmem Z := ret 0.
Definition echo (b : list Z) : Z := Z.of_nat (length b).
Definition run_sample (a : action) (s : state) : state :=
  match run_action echo no_realloc a s with Done (_, s') => s' | _ => s end.

Lemma sample_tty_inv : tty_inv sample_tty [].
Proof.
  apply tty_start_ok; [|lia..|].
  - eapply only_writable; [apply (store_bytes_only 4096 (replicate 8 0))|].
    intros x Hx. apply lookup_store_bytes_in. rewrite length_replicate. lia.
  - repeat apply mem_chars_store; try by apply Forall_replicate. by intros x c Hx.
Qed.

Lemma sample_reader : reader_ok sample_tty sample_read.
Proof.
  split; [by vm_compute| |left; by vm_compute].
  intros x Hx. cbn [rw_data rw_size sample_read] in Hx. apply lookup_store_bytes_in. rewrite length_replicate. lia.
Qed.

Lemma reach_by acc del s a acc' del' : let s' := run_sample a s in
  reach echo no_realloc sample_tty acc del s -> action_ok s a -> run_action echo no_realloc a s = Done (tt, s') ->
  acc' = acc ++ accepted a -> del' = del ++ delivered s a s' -> reach echo no_realloc sample_tty acc' del' s'.
Proof. intros s' Hr Ha Hrun -> ->. by apply reach_step. Qed.


Lemma tty_misses_line_witness : exists s',
  run_action echo no_realloc (Input (inr [97; 10])) sample_tty = Done (tt, s') /\ nb_line (private s') = 0.
Proof.
  destruct (tty_misses_line echo no_realloc sample_tty [] 97 []) as (s' & Hrun & _ & Hn & _).
  - apply (tv_buffer _ _ sample_tty_inv).
  - done.
  - done.
  - done.
  - by repeat constructor.
  - simpl. unfold TTY_INPUT_BUFFER_SIZE. lia.
  - exists s'. split; [exact Hrun|exact Hn].
Defined.

End Tty.
