(* ===== verification/Fiu.v ===== *)
(** File systems and devices in user space: kernel/core/fs/fiu.c.

    The callbacks of a file whose driver is a process send a request over the channel of
    that process and wait for the answer.  The channels are those of [Channel]; the bytes
    of the messages are laid out as the structures of include/kernel/fs/vfs/message.h on
    one side and of userland/lib/include/zos/vfs.h on the other.  A process behind a
    channel is a [server]: its memory and what it does with one message.  [driver_server]
    is a process that runs the loop of libdriver, so that theorems follow a request from
    the kernel to a driver and back.

    The address spaces are reached through the class [Areas]: where [as_map] puts an area
    in the address space of a server and what the area holds, and whether the kernel has a
    window left for [as_copy]. *)

From S2P Require Import Prelude KString KHeap Channel Device Fs Wire Stack UMem Driver.

(** What [as_map] and [as_copy] do with the address space of a server. *)
Class Areas := {
  place : bmem -> Z -> Z;
  fresh : Z -> Z;
  window : Z -> bool;
  fresh_char : forall x, is_char (fresh x);
  place_spec : forall m n, 0 < n ->
    place m n = 0 \/
    (0 < place m n /\ place m n + n < 2 ^ 32 /\ forall x, place m n <= x < place m n + n -> m !! x = None);
}.

Module Fiu.
Import Wire.

(** ** The requests, as the kernel writes them and as a driver reads them *)

Definition req_open_layout : layout := [2; 2; 4; 2; 2; 4; 4; 4]%nat.
Definition req_rdwr_layout : layout := [2; 2; 4; 4; 8; 4]%nat.
Definition req_close_layout : layout := [2; 2; 4]%nat.
Definition req_ioctl_layout : layout := [2; 2; 4; 4; 4; 4]%nat.
Definition req_lookup_layout : layout := [2; 2; 4; 2; 2; 2; 2]%nat.
Definition req_stat_layout : layout := [2; 2; 4; 2; 2]%nat.
Definition req_mount_layout : layout := [2; 2; 4; 4]%nat.
Definition req_getdirent_layout : layout := [2; 2; 4; 4]%nat.

Definition encode_request (q : Driver.request) : list Z :=
  let h := Driver.hdr q in
  match q with
  | Driver.ReqOpen r => encode req_open_layout
      [Driver.op h; Driver.slave_id h; Driver.ro_inode r; Driver.ro_uid r; Driver.ro_gid r; Driver.ro_flags r;
       Driver.ro_mode r; Driver.ro_pid r]
  | Driver.ReqRdwr r => encode req_rdwr_layout
      [Driver.op h; Driver.slave_id h; Driver.rw_inode r; Driver.rw_size r; Driver.rw_off r; Driver.rw_data r]
  | Driver.ReqClose r => encode req_close_layout [Driver.op h; Driver.slave_id h; Driver.rc_inode r]
  | Driver.ReqIoctl r => encode req_ioctl_layout
      [Driver.op h; Driver.slave_id h; Driver.ri_inode r; Driver.ri_request r; Driver.ri_with_argp r; Driver.ri_argp r]
  | Driver.ReqOther _ => encode [2; 2]%nat [Driver.op h; Driver.slave_id h]
  end.

(** The casts of [dispatch]; [None] when the structure is longer than the message. *)
Definition decode_request (buf : list Z) : option Driver.request :=
  match decode [2; 2]%nat buf with
  | Some [o; i] =>
      let h := {| Driver.op := o; Driver.slave_id := i |} in
      if o =? Driver.VFS_OPEN then
        match decode req_open_layout buf with
        | Some [_; _; ino; uid; gid; flags; mode; pid] =>
            Some (Driver.ReqOpen {| Driver.ro_hdr := h; Driver.ro_inode := ino; Driver.ro_uid := uid;
              Driver.ro_gid := gid; Driver.ro_flags := s32 flags; Driver.ro_mode := mode; Driver.ro_pid := s32 pid |})
        | _ => None
        end
      else if (o =? Driver.VFS_READ) || (o =? Driver.VFS_WRITE) then
        match decode req_rdwr_layout buf with
        | Some [_; _; ino; size; off; data] =>
            Some (Driver.ReqRdwr {| Driver.rw_hdr := h; Driver.rw_inode := ino; Driver.rw_size := size;
              Driver.rw_off := off; Driver.rw_data := data |})
        | _ => None
        end
      else if o =? Driver.VFS_CLOSE then
        match decode req_close_layout buf with
        | Some [_; _; ino] => Some (Driver.ReqClose {| Driver.rc_hdr := h; Driver.rc_inode := ino |})
        | _ => None
        end
      else if o =? Driver.VFS_IOCTL then
        match decode req_ioctl_layout buf with
        | Some [_; _; ino; req; with_argp; argp] =>
            Some (Driver.ReqIoctl {| Driver.ri_hdr := h; Driver.ri_inode := ino; Driver.ri_request := s32 req;
              Driver.ri_with_argp := s32 with_argp; Driver.ri_argp := s32 argp |})
        | _ => None
        end
      else Some (Driver.ReqOther h)
  | _ => None
  end.

(** ** The answers, as a driver writes them and as the kernel reads them

    The driver does not set the operation of the header nor the fields its callback left
    alone: they hold what the stack held.  [channel_master_write] takes the header off. *)

Definition resp_open_layout : layout := [4; 4]%nat.
Definition resp_rdwr_layout : layout := [4; 4]%nat.
Definition resp_close_layout : layout := [4]%nat.
Definition resp_ioctl_layout : layout := [4; 4; 4]%nat.
Definition resp_mount_layout : layout := [4]%nat.
(** ret, processed and its padding, and the fields of the inode. *)
Definition resp_lookup_layout : layout := [4; 2; 2; 4; 2; 2; 4; 4; 8; 4; 4; 4]%nat.
Definition resp_stat_layout : layout := [4; 4; 4; 4; 4; 2; 2; 4; 8; 4; 8; 4; 4; 4]%nat.
Definition resp_getdirent_layout : layout := [4; 4]%nat.

Definition encode_response (junk : Z) (r : Driver.response) : list Z :=
  match r with
  | Driver.RespOpen i ret inode => encode ([2; 2]%nat ++ resp_open_layout) [junk; i; ret; default junk inode]
  | Driver.RespRdwr i ret size => encode ([2; 2]%nat ++ resp_rdwr_layout) [junk; i; ret; default junk size]
  | Driver.RespClose i ret => encode ([2; 2]%nat ++ resp_close_layout) [junk; i; ret]
  | Driver.RespIoctl i ret m a => encode ([2; 2]%nat ++ resp_ioctl_layout) [junk; i; ret; default junk m; default junk a]
  end.

(** ** Servers *)

(** A process behind a channel: its memory, and what it writes to the channel when it
    gets a message. *)
Record server (S : Type) := {
  smem : S -> bmem;
  set_smem : bmem -> S -> S;
  handle : list Z -> M S (list (list Z));
}.
Arguments smem {S}. Arguments set_smem {S}. Arguments handle {S}.

(** One turn of [driver_loop]. *)
Definition driver_server {X} (ops : Driver.driver_ops X) (junk : Z) : server (Driver.proc X) := {|
  smem := Driver.mem;
  set_smem := Driver.set_mem;
  handle := fun buf =>
    match decode_request buf with
    | None => undef
    | Some q =>
        modify (Driver.set_out []) ;;;
        Driver.dispatch ops q ;;;
        let! s := get in
        ret (encode_response junk <$> Driver.out s)
    end;
|}.

(** ** The kernel *)

Definition VFS_LOOKUP : Z := 7.
Definition VFS_MOUNT : Z := 6.
Definition VFS_STAT : Z := 10.
Definition VFS_GETDIRENT : Z := 12.
Definition VFS_FS_CREATE : Z := 13.
Definition VFS_OPS_MOUNT : Z := Z.shiftl 1 5.
Definition VFS_OPS_GETDIRENT : Z := Z.shiftl 1 11.
Definition sizeof_fiu_file_private : Z := 12.
Definition sizeof_fiu_fs_instance : Z := 4.

Record fiu_fs := { fs_master : Z; fs_ops : Z }.
Record fiu_file_private := { slave : Z; ops : Z }.

(** Nobody wakes the thread. *)
Definition asleep {W A} : M W A := fun _ => Spin.

Definition page_up (n : Z) : Z := (n + (PAGE_SIZE - 1)) / PAGE_SIZE * PAGE_SIZE.

Section ops.
Context {H : Type} `{KHeap H} `{Areas} {S : Type} (srv : server S).

(** A server with the areas the kernel has mapped for it. *)
Record sproc := { sstate : S; sareas : gmap Z Z }.

(** The structures of fiu.h by their address, and the processes by their pid. *)
Record world := {
  chst : Channel.state H;
  devs : Device.devs;
  fss : gmap Z fiu_fs;
  insts : gmap Z Z;
  dev_privs : gmap Z Z;
  files : gmap Z fiu_file_private;
  procs : gmap Z sproc;
}.

Definition set_chst (c : Channel.state H) (w : world) : world :=
  {| chst := c; devs := devs w; fss := fss w; insts := insts w; dev_privs := dev_privs w; files := files w; procs := procs w |}.
Definition set_insts (m : gmap Z Z) (w : world) : world :=
  {| chst := chst w; devs := devs w; fss := fss w; insts := m; dev_privs := dev_privs w; files := files w; procs := procs w |}.
Definition set_devs (d : Device.devs) (w : world) : world :=
  {| chst := chst w; devs := d; fss := fss w; insts := insts w; dev_privs := dev_privs w; files := files w; procs := procs w |}.
Definition set_files (m : gmap Z fiu_file_private) (w : world) : world :=
  {| chst := chst w; devs := devs w; fss := fss w; insts := insts w; dev_privs := dev_privs w; files := m; procs := procs w |}.
Definition set_procs (m : gmap Z sproc) (w : world) : world :=
  {| chst := chst w; devs := devs w; fss := fss w; insts := insts w; dev_privs := dev_privs w; files := files w; procs := m |}.

Definition on_ch {A} (m : M (Channel.state H) A) : M world A := zoom chst set_chst m.
Definition on_heap {A} (m : M H A) : M world A := on_ch (zoom Channel.kheap Channel.set_kheap m).
Definition at_addr {A} (f : world -> gmap Z A) (a : Z) : M world A :=
  let! w := get in
  match f w !! a with Some x => ret x | None => undef end.
Definition on_proc {A} (pid : Z) (m : M sproc A) : M world A := fun w =>
  match procs w !! pid with
  | None => Undef
  | Some p => match m p with
              | Done (a, p') => Done (a, set_procs (<[pid := p']> (procs w)) w)
              | Panic t => Panic t
              | Spin => Spin
              | Undef => Undef
              end
  end.

(** *** Areas of a server *)

Definition as_map (sz : Z) : M sproc Z :=
  let! p := get in
  let n := page_up sz in
  let m := smem srv (sstate p) in
  let a := place m n in
  if a =? 0 then ret 0
  else
    put {| sstate := set_smem srv (store_bytes a (fresh <$> seqZ a n) m) (sstate p); sareas := <[a := n]> (sareas p) |} ;;;
    ret a.

Definition as_unmap (a : Z) : M sproc unit :=
  let! p := get in
  match sareas p !! a with
  | None => ret tt
  | Some n =>
      put {| sstate := set_smem srv (UMem.unmap a n (smem srv (sstate p))) (sstate p); sareas := delete a (sareas p) |}
  end.

(** [as_copy] to and from the start of an area: it does not end past the area. *)
Definition copy_to (a : Z) (l : list Z) : M sproc Z :=
  let! p := get in
  match sareas p !! a with
  | None => undef
  | Some n =>
      if n <? Z.of_nat (length l) then undef
      else if negb (window n) then ret (- ENOMEM)
      else
        modify (fun p => {| sstate := set_smem srv (store_bytes a l (smem srv (sstate p))) (sstate p); sareas := sareas p |}) ;;;
        ret 0
  end.
Definition copy_from (a sz : Z) : M sproc (Z * list Z) :=
  let! p := get in
  match sareas p !! a with
  | None => undef
  | Some n =>
      if n <? sz then undef
      else if negb (window n) then ret (- ENOMEM, [])
      else
        match mapM (fun i => smem srv (sstate p) !! (a + i)) (seqZ 0 sz) with
        | None => undef
        | Some l => ret (0, l)
        end
  end.

(** *** Sending a request and waiting for the answer *)

(** The threads that ask and that serve, and the bytes of uninitialised variables. *)
Context (thread server_thread junk : Z).

Fixpoint send_all (c : Z) (l : list (list Z)) : M world unit :=
  match l with
  | [] => ret tt
  | b :: l => let! _ := on_ch (Channel.channel_master_write c b (Z.of_nat (length b))) in send_all c l
  end.

(** The server reads a message, handles it and writes its answers; without a message it
    sleeps as well, and nobody wakes the thread that waits. *)
Definition serve (c : Z) : M world unit :=
  let! r := on_ch (Channel.channel_master_read c server_thread 255) in
  match r with
  | None => asleep
  | Some (_, buf) =>
      let! ch := on_ch (Channel.deref_channel c) in
      let! answers := on_proc (Channel.proc ch) (fun p =>
        match handle srv buf (sstate p) with
        | Done (l, s) => Done (l, {| sstate := s; sareas := sareas p |})
        | Panic t => Panic t
        | Spin => Spin
        | Undef => Undef
        end) in
      send_all c answers
  end.

(** A read that blocks lets the server run, [turns] times. *)
Fixpoint wait_answer (turns : nat) (sl sz : Z) : M world (Z * list Z) :=
  let! r := on_ch (Channel.channel_slave_read sl thread sz) in
  match r with
  | Some x => ret x
  | None =>
      match turns with
      | O => asleep
      | Datatypes.S turns =>
          let! x := on_ch (Channel.deref_slave sl) in
          serve (Channel.parent x) ;;;
          wait_answer turns sl sz
      end
  end.

(** The error, or the bytes of the answer. *)
Definition fiu_channel_read_rw (turns : nat) (sl : Z) (buf_in : list Z) (size_out : Z) : M world (Z + list Z) :=
  let! r := on_ch (Channel.channel_slave_write sl buf_in (Z.of_nat (length buf_in))) in
  if r <? 0 then ret (inl r)
  else
    let! '(r, b) := wait_answer turns sl size_out in
    if r <? 0 then ret (inl r) else ret (inr b).

(** The slave of a new connection to a channel; the error is negative. *)
Definition no_file : Channel.file :=
  {| Channel.inode := 0; Channel.private := 0; Channel.f_ops := Channel.other_f_ops; Channel.mount := 0 |}.
Definition open_slave (c pid : Z) : M world (Z * Z) :=
  let! '(r, _, sl) := on_ch (Channel.channel_open c no_file pid) in ret (r, sl).
Definition close_slave (sl : Z) : M world unit :=
  let! _ := on_ch (Channel.channel_slave_close sl) in ret tt.

(** Fields of an answer; one that is missing is an uninitialised variable. *)
Definition fields (ws : layout) (b : list Z) : M world (list Z) :=
  match decode ws b with Some l => ret l | None => undef end.
Definition field (l : list Z) (i : nat) : Z := nth i l 0.
(** *** The operations on files *)

(** The process of the calling thread. *)
Context (current : Z) (turns : nat).

(** What the driver behind a file is found from: its mount entry or its inode. *)
Inductive origin := OnMount (fs fi : Z) | OnDevice (dev : Z).

Definition channel_of (o : origin) : M world (Z * Z) :=
  match o with
  | OnMount fs fi =>
      let! f := at_addr fss fs in
      let! c := at_addr insts fi in
      ret (c, fs_ops f)
  | OnDevice dev =>
      let! d := zoom devs set_devs (Device.device_get dev) in
      match d with
      | None => undef
      | Some d =>
          let! c := at_addr dev_privs (Device.private d) in
          ret (c, Device.ops d)
      end
  end.

(** The result, and the private data of the file. *)
Definition fiu_open (o : origin) (inode pid uid gid flags mode : Z) : M world (Z * Z) :=
  let! priv := on_heap (kmalloc sizeof_fiu_file_private) in
  if priv =? 0 then ret (- ENOMEM, 0)
  else
    let! '(c, vops) := channel_of o in
    let! '(r, sl) := open_slave c current in
    if r <? 0 then on_heap (kfree priv) ;;; ret (r, 0)
    else
      let! x := on_ch (Channel.deref_slave sl) in
      let q := Driver.ReqOpen {|
        Driver.ro_hdr := {| Driver.op := Driver.VFS_OPEN; Driver.slave_id := Channel.id x |};
        Driver.ro_inode := inode; Driver.ro_uid := uid; Driver.ro_gid := gid; Driver.ro_flags := flags;
        Driver.ro_mode := mode; Driver.ro_pid := pid |} in
      let! r := fiu_channel_read_rw turns sl (encode_request q) 8 in
      match r with
      | inl e => close_slave sl ;;; on_heap (kfree priv) ;;; ret (e, 0)
      | inr b =>
          let! l := fields resp_open_layout b in
          let r := s32 (field l 0) in
          if r <? 0 then close_slave sl ;;; on_heap (kfree priv) ;;; ret (r, 0)
          else
            modify (fun w => set_files (<[priv := {| slave := sl; ops := vops |}]> (files w)) w) ;;;
            ret (s32 (field l 1), priv)
      end.

(** The part of [fiu_read_write] between mapping and unmapping the buffer at [a]. *)
Definition transfer (sl i pdevice inode sz off : Z) (data : list Z) (op a : Z) : M world (Z * Z * list Z) :=
  let! r := (if op =? Driver.VFS_WRITE then on_proc pdevice (copy_to a (take (Z.to_nat sz) data)) else ret 0) in
  if r <? 0 then ret (r, off, [])
  else
    let q := Driver.ReqRdwr {|
      Driver.rw_hdr := {| Driver.op := op; Driver.slave_id := i |};
      Driver.rw_inode := inode; Driver.rw_size := sz; Driver.rw_off := off; Driver.rw_data := a |} in
    let! r := fiu_channel_read_rw turns sl (encode_request q) 8 in
    match r with
    | inl e => ret (e, off, [])
    | inr b =>
        let! l := fields resp_rdwr_layout b in
        let r := s32 (field l 0) in
        if r <? 0 then ret (r, off, [])
        else
          let! '(r, got) := (if op =? Driver.VFS_READ then on_proc pdevice (copy_from a (field l 1)) else ret (0, [])) in
          if r =? 0 then ret (s32 (field l 1), u64 (off + s32 (field l 1)), got)
          else ret (r, off, [])
    end.

(** The result, the new offset and the bytes read; [data] are those to write. *)
Definition fiu_read_write (priv inode sz off : Z) (data : list Z) (op : Z) : M world (Z * Z * list Z) :=
  let! f := at_addr files priv in
  if Z.land (ops f) op =? 0 then ret (- ENOSYS, off, [])
  else
    let! x := on_ch (Channel.deref_slave (slave f)) in
    let! ch := on_ch (Channel.deref_channel (Channel.parent x)) in
    let pdevice := Channel.proc ch in
    let! a := on_proc pdevice (as_map sz) in
    if a =? 0 then ret (- ENOMEM, off, [])
    else
      let! res := transfer (slave f) (Channel.id x) pdevice inode sz off data op a in
      on_proc pdevice (as_unmap a) ;;;
      ret res.

Definition fiu_read (priv inode sz off : Z) : M world (Z * Z * list Z) :=
  fiu_read_write priv inode sz off [] Driver.VFS_READ.
Definition fiu_write (priv inode sz off : Z) (data : list Z) : M world (Z * Z * list Z) :=
  fiu_read_write priv inode sz off data Driver.VFS_WRITE.

(** The result, and the argument when there is one and the driver changes it. *)
Definition fiu_ioctl (priv inode request with_argp arg : Z) (argp : option Z) : M world (Z * option Z) :=
  let! f := at_addr files priv in
  let! x := on_ch (Channel.deref_slave (slave f)) in
  let q := Driver.ReqIoctl {|
    Driver.ri_hdr := {| Driver.op := Driver.VFS_IOCTL; Driver.slave_id := Channel.id x |};
    Driver.ri_inode := inode; Driver.ri_request := request; Driver.ri_with_argp := with_argp; Driver.ri_argp := arg |} in
  let! r := fiu_channel_read_rw turns (slave f) (encode_request q) 12 in
  match r with
  | inl e => ret (e, argp)
  | inr b =>
      let! l := fields resp_ioctl_layout b in
      let r := s32 (field l 0) in
      if r <? 0 then ret (r, argp)
      else ret (0, match argp with
                   | Some v => Some (if s32 (field l 1) =? 0 then v else s32 (field l 2))
                   | None => None
                   end)
  end.

Definition fiu_dup (old : Z) : M world (Z * Z) :=
  let! priv := on_heap (kmalloc sizeof_fiu_file_private) in
  if priv =? 0 then ret (- ENOMEM, 0)
  else
    let! f := at_addr files old in
    let! x := on_ch (Channel.deref_slave (slave f)) in
    let! '(r, sl) := open_slave (Channel.parent x) current in
    if r <? 0 then on_heap (kfree priv) ;;; ret (r, 0)
    else
      modify (fun w => set_files (<[priv := {| slave := sl; ops := ops f |}]> (files w)) w) ;;;
      ret (0, priv).

Definition fiu_close (priv inode : Z) : M world Z :=
  let! f := at_addr files priv in
  let! x := on_ch (Channel.deref_slave (slave f)) in
  let q := Driver.ReqClose {|
    Driver.rc_hdr := {| Driver.op := Driver.VFS_CLOSE; Driver.slave_id := Channel.id x |}; Driver.rc_inode := inode |} in
  let! r := fiu_channel_read_rw turns (slave f) (encode_request q) 4 in
  close_slave (slave f) ;;;
  on_heap (kfree priv) ;;;
  modify (fun w => set_files (delete priv (files w)) w) ;;;
  match r with
  | inl e => ret e
  | inr b => let! l := fields resp_close_layout b in ret (s32 (field l 0))
  end.

(** *** The operations on file systems *)

Definition fiu_lookup (fi : Z) (path : list Z) (uid gid : Z) (resp : Device.resp_lookup) : M world (Z * Device.resp_lookup) :=
  let! c := at_addr insts fi in
  let! '(r, sl) := open_slave c current in
  if r <? 0 then ret (r, resp)
  else
    let path_empty := bool_decide (path = []) in
    let path := if path_empty then [47] else path in
    let! ch := on_ch (Channel.deref_channel c) in
    let pdevice := Channel.proc ch in
    let path_size := u16 (Z.of_nat (length path)) in
    let! a := on_proc pdevice (as_map path_size) in
    if a =? 0 then close_slave sl ;;; ret (- ENOMEM, resp)
    else
      let! r := on_proc pdevice (copy_to a (take (Z.to_nat (path_size + 1)) (path ++ [0]))) in
      if r <? 0 then on_proc pdevice (as_unmap a) ;;; close_slave sl ;;; ret (r, resp)
      else
        let! x := on_ch (Channel.deref_slave sl) in
        let q := encode req_lookup_layout [VFS_LOOKUP; Channel.id x; a; path_size; uid; gid; junk] in
        let! r := fiu_channel_read_rw turns sl q 48 in
        match r with
        | inl e => on_proc pdevice (as_unmap a) ;;; close_slave sl ;;; ret (e, resp)
        | inr b =>
            close_slave sl ;;;
            let! l := fields resp_lookup_layout b in
            on_proc pdevice (as_unmap a) ;;;
            let resp := {| Device.res_ret := s32 (field l 0);
                           Device.processed := if path_empty then 0 else Fs.s16 (field l 1);
                           Device.res_dev := s32 (field l 7); Device.res_inode := field l 6 |} in
            ret (if s32 (field l 0) <? 0 then s32 (field l 0) else 0, resp)
        end.

Definition fiu_stat (fs fi uid gid inode : Z) : M world (Z * option Device.stat) :=
  let! f := at_addr fss fs in
  if Z.land (fs_ops f) VFS_OPS_GETDIRENT =? 0 then ret (- ENOSYS, None)
  else
    let! c := at_addr insts fi in
    let! '(r, sl) := open_slave c current in
    if r <? 0 then ret (r, None)
    else
      let! x := on_ch (Channel.deref_slave sl) in
      let! r := fiu_channel_read_rw turns sl (encode req_stat_layout [VFS_STAT; Channel.id x; inode; uid; gid]) 60 in
      close_slave sl ;;;
      match r with
      | inl e => ret (e, None)
      | inr b =>
          let! l := fields resp_stat_layout b in
          let r := s32 (field l 0) in
          if r <? 0 then ret (r, None)
          else ret (r, Some {| Device.st_dev := s32 (field l 1); Device.st_ino := field l 2; Device.st_mode := field l 3 |})
      end.

Definition fiu_mount (fs fi inode mount_nb : Z) : M world Z :=
  let! f := at_addr fss fs in
  if Z.land (fs_ops f) VFS_OPS_MOUNT =? 0 then ret (- ENOSYS)
  else
    let! c := at_addr insts fi in
    let! '(r, sl) := open_slave c current in
    if r <? 0 then ret r
    else
      let! x := on_ch (Channel.deref_slave sl) in
      let! r := fiu_channel_read_rw turns sl (encode req_mount_layout [VFS_MOUNT; Channel.id x; inode; mount_nb]) 4 in
      close_slave sl ;;;
      match r with
      | inl e => ret e
      | inr b => let! l := fields resp_mount_layout b in ret (s32 (field l 0))
      end.

(** The name is the 256 bytes behind the number of the inode, up to the zero. *)
Definition fiu_getdirent (fs fi inode index : Z) : M world (Z * option Device.dirent) :=
  let! f := at_addr fss fs in
  if Z.land (fs_ops f) VFS_OPS_GETDIRENT =? 0 then ret (- ENOSYS, None)
  else
    let! c := at_addr insts fi in
    let! '(r, sl) := open_slave c current in
    if r <? 0 then ret (r, None)
    else
      let! x := on_ch (Channel.deref_slave sl) in
      let! r := fiu_channel_read_rw turns sl (encode req_getdirent_layout [VFS_GETDIRENT; Channel.id x; inode; index]) 264 in
      close_slave sl ;;;
      match r with
      | inl e => ret (e, None)
      | inr b =>
          let! l := fields resp_getdirent_layout b in
          let r := s32 (field l 0) in
          if r <? 0 then ret (r, None)
          else if (length b <? 264)%nat then undef
          else ret (r, Some {| Device.d_ino := field l 1; Device.d_name := take 256 (drop 8 b) |})
      end.

(** The characters of an array up to its terminator. *)
Fixpoint chars_of (l : list Z) : option (list Z) :=
  match l with
  | [] => None
  | c :: l => if c =? 0 then Some [] else cons c <$> chars_of l
  end.

(** The result, and the private data of the instance.  [strncpy] keeps 14 characters and
    a zero; the rest of the structure is not set. *)
Definition fiu_create (fs : Z) (device : list Z) : M world (Z * Z) :=
  let! f := at_addr fss fs in
  let! dev_id := zoom devs set_devs (Device.device_get_from_name device) in
  if dev_id <? 0 then ret (dev_id, 0)
  else
    let! priv := on_heap (kmalloc sizeof_fiu_fs_instance) in
    if priv =? 0 then ret (- ENOMEM, 0)
    else
      let! '(r, sl) := open_slave (fs_master f) current in
      if r <? 0 then on_heap (kfree priv) ;;; ret (r, 0)
      else
        let! x := on_ch (Channel.deref_slave sl) in
        let q := encode [2; 2]%nat [VFS_FS_CREATE; Channel.id x] ++ take 16 (take 14 device ++ 0 :: replicate 16 junk) in
        let! r := fiu_channel_read_rw turns sl q 20 in
        match r with
        | inl e => close_slave sl ;;; on_heap (kfree priv) ;;; ret (e, 0)
        | inr b =>
            let! l := fields [4]%nat b in
            let r := s32 (field l 0) in
            if r <? 0 then close_slave sl ;;; on_heap (kfree priv) ;;; ret (r, 0)
            else match chars_of (drop 4 b) with
            | None => undef
            | Some nm =>
                let! c := on_ch (Channel.channel_from_name nm) in
                if c =? 0 then close_slave sl ;;; on_heap (kfree priv) ;;; ret (- EINVAL, 0)
                else
                  close_slave sl ;;;
                  modify (fun w => set_insts (<[priv := c]> (insts w)) w) ;;;
                  ret (0, priv)
            end
        end.
End ops.
End Fiu.
