(* ===== verification/FiuSpec.v ===== *)
(** What the kernel and the servers of user space do together: the theorems on Fiu.v. *)

From S2P Require Import Prelude KString KHeap Kmalloc Channel Device Wire Stack UMem Driver Keyboard Fiu.

Module FiuSpec.
Import Wire Fiu.

(** ** Messages *)

Definition hdr_fits (h : Driver.msg_header) : Prop := 0 <= Driver.op h < 2 ^ 16 /\ 0 <= Driver.slave_id h < 2 ^ 16.
Definition is_u32 (x : Z) : Prop := 0 <= x < 2 ^ 32.
Definition is_s32 (x : Z) : Prop := - 2 ^ 31 <= x < 2 ^ 31.

(** The fields have values of their types, and the operation is that of the structure. *)
Definition request_fits (q : Driver.request) : Prop :=
  hdr_fits (Driver.hdr q) /\
  match q with
  | Driver.ReqOpen r => Driver.op (Driver.ro_hdr r) = Driver.VFS_OPEN /\ is_u32 (Driver.ro_inode r) /\
      0 <= Driver.ro_uid r < 2 ^ 16 /\ 0 <= Driver.ro_gid r < 2 ^ 16 /\ is_s32 (Driver.ro_flags r) /\
      is_u32 (Driver.ro_mode r) /\ is_s32 (Driver.ro_pid r)
  | Driver.ReqRdwr r => (Driver.op (Driver.rw_hdr r) = Driver.VFS_READ \/ Driver.op (Driver.rw_hdr r) = Driver.VFS_WRITE) /\
      is_u32 (Driver.rw_inode r) /\ is_u32 (Driver.rw_size r) /\ 0 <= Driver.rw_off r < 2 ^ 64 /\ is_u32 (Driver.rw_data r)
  | Driver.ReqClose r => Driver.op (Driver.rc_hdr r) = Driver.VFS_CLOSE /\ is_u32 (Driver.rc_inode r)
  | Driver.ReqIoctl r => Driver.op (Driver.ri_hdr r) = Driver.VFS_IOCTL /\ is_u32 (Driver.ri_inode r) /\
      is_s32 (Driver.ri_request r) /\ is_s32 (Driver.ri_with_argp r) /\ is_s32 (Driver.ri_argp r)
  | Driver.ReqOther _ => False
  end.

Lemma s32_cut x : is_s32 x -> s32 (cut 4 x) = x.
Proof. intros Hx. unfold cut, s32, is_s32 in *. change (256 ^ Z.of_nat 4) with (2 ^ 32). Z.to_euclidean_division_equations; lia. Qed.

Lemma cut_small w x : 0 <= x < 256 ^ Z.of_nat w -> cut w x = x.
Proof. apply Z.mod_small. Qed.

Lemma decode_hdr ws a b vs : decode [2; 2]%nat (encode (2 :: 2 :: ws)%nat (a :: b :: vs)) = Some [cut 2 a; cut 2 b].
Proof. by apply (decode_prefix [2; 2]%nat ws [a; b] vs). Qed.

Lemma decode_request_encode q : request_fits q -> decode_request (encode_request q) = Some q.
Proof.
  intros [[Ho Hi] Hq]. unfold decode_request, encode_request, req_open_layout, req_rdwr_layout, req_close_layout, req_ioctl_layout.
  destruct q as [[[o i] ? ? ? ? ? ?]|[[o i] ? ? ? ?]|[[o i] ?]|[[o i] ? ? ? ?]|]; simpl in Ho, Hi, Hq; [| | | |done];
    cbn [Driver.hdr Driver.ro_hdr Driver.rw_hdr Driver.rc_hdr Driver.ri_hdr Driver.op Driver.slave_id];
    rewrite decode_hdr, !(cut_small 2) by lia; unfold is_u32 in Hq.
  - destruct Hq as (-> & H1 & H2 & H3 & H4 & H5 & H6). simpl (_ =? _). cbn iota.
    rewrite decode_all by done. cbn [zip_with]. rewrite !s32_cut by done. by rewrite !cut_small by (simpl in *; lia).
  - destruct Hq as (Hop & H1 & H2 & H3 & H4). rewrite (proj2 (Z.eqb_neq _ _)) by (destruct Hop; subst; done).
    replace ((o =? Driver.VFS_READ) || (o =? Driver.VFS_WRITE)) with true by (destruct Hop; by subst).
    rewrite decode_all by done. cbn [zip_with]. by rewrite !cut_small by (simpl in *; lia).
  - destruct Hq as (-> & H1). simpl (_ =? _). cbn iota. cbn [orb].
    rewrite decode_all by done. cbn [zip_with]. by rewrite !cut_small by (simpl in *; lia).
  - destruct Hq as (-> & H1 & H2 & H3 & H4). simpl (_ =? _). cbn iota. cbn [orb].
    rewrite decode_all by done. cbn [zip_with]. rewrite !s32_cut by done. by rewrite !cut_small by (simpl in *; lia).
Qed.

Lemma response_slave junk r : 0 <= Driver.resp_slave r < 2 ^ 16 ->
  Channel.header_slave_id (encode_response junk r) = Driver.resp_slave r.
Proof.
  intros Hi. assert (forall i, 0 <= i < 2 ^ 16 -> u8 (s8 i) + 256 * u8 (s8 (i / 256)) = i) as Hput.
  { clear. intros i Hi. rewrite !Stack.u8_s8. unfold u8. Z.to_euclidean_division_equations; lia. }
  by destruct r as [i ret o|i ret o|i ret|i ret a b]; apply Hput.
Qed.

(** What the kernel gets of an answer. *)
Definition response_fields (junk : Z) (r : Driver.response) : list Z :=
  match r with
  | Driver.RespOpen _ ret o | Driver.RespRdwr _ ret o => [cut 4 ret; cut 4 (default junk o)]
  | Driver.RespClose _ ret => [cut 4 ret]
  | Driver.RespIoctl _ ret a b => [cut 4 ret; cut 4 (default junk a); cut 4 (default junk b)]
  end.
Definition response_layout (r : Driver.response) : layout :=
  match r with
  | Driver.RespOpen _ _ _ => resp_open_layout
  | Driver.RespRdwr _ _ _ => resp_rdwr_layout
  | Driver.RespClose _ _ => resp_close_layout
  | Driver.RespIoctl _ _ _ _ => resp_ioctl_layout
  end.

Lemma drop_hdr ws a b vs : drop 4 (encode ([2; 2]%nat ++ ws) (a :: b :: vs)) = encode ws vs.
Proof. by apply (drop_encode [2; 2]%nat ws [a; b] vs). Qed.

Lemma decode_response junk r :
  decode (response_layout r) (drop 4 (encode_response junk r)) = Some (response_fields junk r).
Proof.
  destruct r as [i ret o|i ret o|i ret|i ret a b]; unfold encode_response; by rewrite drop_hdr, decode_all.
Qed.

Lemma length_response junk r : length (encode_response junk r) = (4 + sizeof (response_layout r))%nat.
Proof. by destruct r. Qed.

(** ** One exchange over a channel *)

Section exchange.
Context {H : Type} `{KHeap H} `{Areas} {S : Type} (srv : server S) (thread server_thread : Z).
Implicit Types (s : Channel.state H) (w : world (H := H) (S := S)).

(** The slave [sl] of the channel [c], both with empty queues. *)
Record connected s (sl c : Z) (x : Channel.channel_slave) (ch : Channel.channel) (ws : list Z) : Prop := {
  cn_chan : Channel.chans s !! c = Some ch;
  cn_ep : Channel.ep ch = Channel.idle ws [];
  cn_slave : Channel.slavs s !! sl = Some x;
  cn_parent : Channel.parent x = c;
  cn_slave_ep : Channel.slave_ep x = Channel.idle [] [];
  cn_id : 0 <= Channel.id x < 2 ^ 16;
  cn_first : exists rest, Channel.with_id s (Channel.id x) (Channel.slaves ch) = sl :: rest;
  cn_slaves : Channel.slaves_ok c s;
  cn_clock : Channel.clock s = false;
}.

Lemma with_id_slave_ep s sl e i l :
  Channel.with_id (Channel.set_endpoint (Channel.Slave sl) e s) i l = Channel.with_id s i l.
Proof.
  unfold Channel.with_id. apply list_filter_iff. intros a. simpl.
  destruct (decide (sl = a)) as [->|Ha]; [rewrite lookup_alter_eq|by rewrite lookup_alter_ne].
  by destruct (Channel.slavs s !! a).
Qed.

Lemma slaves_ok_slave_ep s sl ws inp c : Channel.slaves_ok c s ->
  Channel.slaves_ok c (Channel.set_endpoint (Channel.Slave sl) (Channel.idle ws inp) s).
Proof.
  intros (ch & Hc & Hnd & Hs). exists ch. split_and!; [done..|]. intros a Ha. destruct (Hs a Ha) as (H0' & y & Hy & Hu). split; [done|].
  simpl. destruct (decide (sl = a)) as [->|Hne].
  - rewrite lookup_alter_eq, Hy. simpl. eexists. by split.
  - rewrite lookup_alter_ne by done. by exists y.
Qed.

Lemma slaves_ok_master_ep s c e : Channel.slaves_ok c s ->
  Channel.slaves_ok c (Channel.set_endpoint (Channel.Master c) e s).
Proof.
  intros (ch & Hc & Hnd & Hs). exists (Channel.with_ep ch e). split_and!; [|done..]. simpl. by rewrite lookup_alter_eq, Hc.
Qed.

Lemma wp_deref_slave s a x Q : Channel.slavs s !! a = Some x -> Q x s -> wp (Channel.deref_slave a) s Q.
Proof. intros Ha HQ. unfold wp, Channel.deref_slave. by rewrite Ha. Qed.
Lemma wp_deref_channel s a x Q : Channel.chans s !! a = Some x -> Q x s -> wp (Channel.deref_channel a) s Q.
Proof. intros Ha HQ. unfold wp, Channel.deref_channel. by rewrite Ha. Qed.

Lemma set_chst_twice c c' w : set_chst c (set_chst c' w) = set_chst c w.
Proof. done. Qed.

Definition msg_room (n : nat) : Z := Channel.sizeof_channel_message + Z.of_nat n + KMALLOC_OVERHEAD.

(** The message of the client, in front of the server, is answered: the answer is in the
    queue of the slave and the client is awake. *)
Lemma server_answers w sl c x ch ws ws' m p reply (st : S) b :
  let s := chst w in
  Channel.chans s !! c = Some ch -> Channel.ep ch = Channel.idle ws [m] ->
  Channel.slavs s !! sl = Some x -> Channel.slave_ep x = Channel.idle ws' [] ->
  (exists rest, Channel.with_id s (Channel.id x) (Channel.slaves ch) = sl :: rest) -> Channel.slaves_ok c s ->
  heap_ok (Channel.kheap s) -> is_Some (live (Channel.kheap s) !! Channel.msg_addr m) ->
  Channel.off m = 0 -> 0 <= Channel.size m <= 255 -> length (Channel.payload m) = Z.to_nat (Channel.size m) ->
  procs w !! Channel.proc ch = Some p -> handle srv (Channel.payload m) (sstate p) = Done ([reply], st) ->
  Channel.header_slave_id reply = Channel.id x -> (4 <= length reply <= 300)%nat ->
  b = 0 \/ KMALLOC_OVERHEAD < b -> room (Channel.kheap s) (msg_room (length reply - 4) + b) ->
  wp (serve srv server_thread c) w (fun _ w' => exists a h' n,
    heap_ok h' /\ room h' b /\ delete (Channel.msg_addr m) (live (Channel.kheap s)) !! a = None /\
    live h' = <[a := n]> (delete (Channel.msg_addr m) (live (Channel.kheap s))) /\
    let answer := {| Channel.msg_addr := a; Channel.cid := Channel.id x; Channel.size := Z.of_nat (length reply - 4);
                     Channel.off := 0; Channel.payload := drop 4 reply |} in
    w' = set_procs (<[Channel.proc ch := {| sstate := st; sareas := sareas p |}]> (procs w))
      (set_chst (Channel.set_woken (Channel.woken s ++ take 1 ws') (Channel.set_kheap h'
        (Channel.set_endpoint (Channel.Slave sl) (Channel.idle (drop 1 ws') [answer])
          (Channel.set_endpoint (Channel.Master c) (Channel.idle ws []) s)))) w)).
Proof.
  intros s Hc He Hx Hxe Hf Hsl Hok Hlive Hoff Hsz Hpay Hp Hh Hid Hlen Hb Hroom. subst s. unfold serve.
  apply wp_bind, wp_zoom. unfold Channel.channel_master_read. eapply wp_mono.
  { eapply (Channel.read_message_ok _ (Channel.Master c) _ _ ws m []); [simpl; by rewrite Hc, <-He|done|done|lia..]. }
  intros r s1 (-> & h1 & Hok1 & Hl1 & Hr1 & ->). rewrite Hoff, drop_0, Z.sub_0_r, <-Hpay, firstn_all.
  apply wp_bind, wp_zoom. eapply wp_deref_channel; [simpl; by rewrite lookup_alter_eq, Hc|]. simpl Channel.proc.
  apply wp_bind. unfold wp at 1, on_proc. simpl procs. rewrite Hp. simpl sstate. rewrite Hh. cbn [send_all].
  apply wp_bind, wp_zoom. unfold Channel.channel_master_write.
  destruct (Z.ltb_spec (Z.of_nat (length reply)) Channel.sizeof_msg_header) as [Hlt|_]; [unfold Channel.sizeof_msg_header in Hlt; lia|].
  apply wp_bind. eapply wp_mono.
  { eapply Channel.get_slave_ok; [|simpl; by rewrite lookup_alter_eq, Hc].
    destruct (slaves_ok_master_ep (chst w) c (Channel.idle ws []) Hsl) as (ch' & ? & ? & ?). by exists ch'. }
  intros a s1 (-> & Ha). destruct Hf as [rest Hf]. rewrite Hid in Ha. unfold Channel.with_id in Ha, Hf. simpl in Ha, Hf. rewrite Hf in Ha. subst a.
  destruct Hsl as (ch' & Hc' & _ & Hsl). rewrite Hc in Hc'. injection Hc' as <-.
  assert (sl <> 0) as Hsl0. { destruct (Hsl sl) as [? _]; [|done]. eapply list_elem_of_filter. rewrite Hf. left. }
  rewrite (proj2 (Z.eqb_neq _ _)) by done. apply wp_bind. eapply wp_deref_slave; [done|].
  replace (Z.of_nat (length reply) - Channel.sizeof_msg_header) with (Z.of_nat (length reply - 4)) by (unfold Channel.sizeof_msg_header; lia).
  eapply wp_mono.
  { eapply (Channel.write_message_ok _ (Channel.Slave sl) _ _ _ ws' [] b); [simpl; by rewrite Hx; simpl; rewrite Hxe|done|lia|done|].
    apply Hr1. unfold msg_room in Hroom. done. }
  intros r s1 (-> & a & h2 & Ha0 & Hok2 & Hroom2 & Hnone & (n & Hl2) & ->). apply wp_ret.
  exists a, h2, n. simpl Channel.kheap in Hnone, Hl2. rewrite Hl1 in Hnone, Hl2. split_and!; [done..|].
  rewrite Nat2Z.id, (take_ge (drop 4 reply)) by (rewrite length_drop; lia). done.
Qed.

Lemma state_eq s s' : Channel.clock s = Channel.clock s' -> Channel.channels s = Channel.channels s' ->
  Channel.chans s = Channel.chans s' -> Channel.slavs s = Channel.slavs s' -> Channel.woken s = Channel.woken s' ->
  Channel.kheap s = Channel.kheap s' -> s = s'.
Proof. destruct s, s'. simpl. intros. by subst. Qed.

(** After an exchange the queues are as before. *)
Lemma exchange_state s sl c x ws h1 h2 h3 k1 k2 m1 answer :
  Channel.slavs s !! sl = Some x -> Channel.slave_ep x = Channel.idle [] [] ->
  Channel.set_kheap h3 (Channel.set_endpoint (Channel.Slave sl) (Channel.idle [] [])
    (Channel.set_woken k2 (Channel.set_kheap h2 (Channel.set_endpoint (Channel.Slave sl) (Channel.idle [] [answer])
      (Channel.set_endpoint (Channel.Master c) (Channel.idle ws [])
        (Channel.set_endpoint (Channel.Slave sl) (Channel.idle [thread] [])
          (Channel.set_woken k1 (Channel.set_kheap h1 (Channel.set_endpoint (Channel.Master c) (Channel.idle ws [m1]) s))))))))) =
  Channel.set_woken k2 (Channel.set_kheap h3 (Channel.set_endpoint (Channel.Master c) (Channel.idle ws []) s)).
Proof.
  intros Hx He. apply state_eq; [reflexivity|reflexivity| | |reflexivity|reflexivity].
  - refine (_ : alter (fun y => Channel.with_ep y (Channel.idle ws [])) c
      (alter (fun y => Channel.with_ep y (Channel.idle ws [m1])) c (Channel.chans s)) =
      alter (fun y => Channel.with_ep y (Channel.idle ws [])) c (Channel.chans s)).
    apply map_eq. intros k. destruct (decide (c = k)) as [->|Hk]; [rewrite !lookup_alter_eq|by rewrite !lookup_alter_ne].
    by destruct (Channel.chans s !! k).
  - refine (_ : alter (fun y => Channel.with_slave_ep y (Channel.idle [] [])) sl
      (alter (fun y => Channel.with_slave_ep y (Channel.idle [] [answer])) sl
        (alter (fun y => Channel.with_slave_ep y (Channel.idle [thread] [])) sl (Channel.slavs s))) = Channel.slavs s).
    apply map_eq. intros k. destruct (decide (sl = k)) as [->|Hk]; [rewrite !lookup_alter_eq|by rewrite !lookup_alter_ne].
    rewrite Hx. simpl. destruct x. simpl in He. by subst.
Qed.

(** The state after an exchange of the client [sl] with the process of [ch], which is then
    in the state [st]. *)
Definition exchanged w (c : Z) (ch : Channel.channel) (ws : list Z) (p : sproc (S := S)) (st : S) h' wk : world :=
  set_procs (<[Channel.proc ch := {| sstate := st; sareas := sareas p |}]> (procs w))
    (set_chst (Channel.set_woken wk (Channel.set_kheap h'
      (Channel.set_endpoint (Channel.Master c) (Channel.idle (drop 1 ws) []) (chst w)))) w).

Lemma read_rw_ok w sl c x ch ws p buf reply (st : S) sz turns b :
  connected (chst w) sl c x ch ws -> heap_ok (Channel.kheap (chst w)) ->
  procs w !! Channel.proc ch = Some p -> handle srv buf (sstate p) = Done ([reply], st) ->
  Channel.header_slave_id reply = Channel.id x -> (4 <= length reply <= 300)%nat -> Z.of_nat (length reply - 4) <= sz ->
  (length buf <= 255)%nat -> b = 0 \/ KMALLOC_OVERHEAD < b ->
  room (Channel.kheap (chst w)) (msg_room (length buf) + (msg_room (length reply - 4) + b)) ->
  wp (fiu_channel_read_rw srv thread server_thread (Datatypes.S turns) sl buf sz) w (fun r w' =>
    r = inr (drop 4 reply) /\ exists h' wk, heap_ok h' /\ room h' b /\ live h' = live (Channel.kheap (chst w)) /\
    w' = exchanged w c ch ws p st h' wk).
Proof.
  intros [Hc He Hx Hpar Hxe Hidr Hf Hsl Hclk] Hok Hp Hh Hid Hlen Hsz Hbuf Hb Hroom. unfold fiu_channel_read_rw.
  apply wp_bind, wp_zoom. unfold Channel.channel_slave_write. apply wp_bind. eapply wp_deref_slave; [done|]. rewrite Hpar.
  eapply wp_mono.
  { eapply (Channel.write_message_ok _ (Channel.Master c) _ _ _ ws [] (msg_room (length reply - 4) + b)); [simpl; by rewrite Hc, <-He|done|lia| |exact Hroom].
    right. unfold msg_room, KMALLOC_OVERHEAD, Channel.sizeof_channel_message in *. lia. }
  intros r s1 (-> & a1 & h1 & Ha1 & Hok1 & Hroom1 & Hnone1 & (n1 & Hl1) & ->). rewrite (proj2 (Z.ltb_ge _ _)) by lia.
  rewrite Nat2Z.id, firstn_all. set (m1 := {| Channel.msg_addr := a1 |}). cbn [app]. apply wp_bind. cbn [wait_answer].
  apply wp_bind, wp_zoom. unfold Channel.channel_slave_read. eapply wp_mono.
  { apply (Channel.read_blocks _ (Channel.Slave sl) _ _ []). simpl. by rewrite Hx; simpl; rewrite Hxe. }
  intros r s1 (-> & ->). cbn [app]. apply wp_bind, wp_zoom. eapply wp_deref_slave; [simpl; by rewrite lookup_alter_eq, Hx|].
  simpl Channel.parent. rewrite Hpar. apply wp_bind. eapply wp_mono.
  { eapply (server_answers _ sl c (Channel.with_slave_ep x (Channel.idle [thread] [])) (Channel.with_ep ch (Channel.idle (drop 1 ws) [m1]))
      (drop 1 ws) [thread] m1 p reply st b); simpl; try done.
    - by rewrite lookup_alter_eq, Hc.
    - by rewrite lookup_alter_eq, Hx.
    - destruct Hf as [rest Hf]. exists rest. rewrite <-Hf. apply (with_id_slave_ep (Channel.set_woken _ (Channel.set_kheap h1 (Channel.set_endpoint (Channel.Master c) _ (chst w)))) sl).
    - apply (slaves_ok_slave_ep (Channel.set_woken _ (Channel.set_kheap h1 (Channel.set_endpoint (Channel.Master c) _ (chst w)))) sl [thread] []).
      destruct (slaves_ok_master_ep (chst w) c (Channel.idle (drop 1 ws) [m1]) Hsl) as (ch' & ? & ? & ?). by exists ch'.
    - rewrite Hl1. rewrite lookup_insert_eq. by eexists.
    - lia.
    - by rewrite Nat2Z.id. }
  intros _ w1 (a2 & h2 & n2 & Hok2 & Hroom2 & Hnone2 & Hl2 & ->). simpl in Hnone2, Hl2.
  assert (delete a1 (live h1) = live (Channel.kheap (chst w))) as Hdel by (rewrite Hl1; by apply delete_insert_id).
  rewrite Hdel in Hnone2, Hl2.
  destruct turns as [|turns]; cbn [wait_answer]; apply wp_bind, wp_zoom; unfold Channel.channel_slave_read.
  all: eapply wp_mono; [eapply (Channel.read_message_ok _ (Channel.Slave sl) _ _ [] _ []);
    [simpl; by rewrite !lookup_alter_eq, Hx|done|simpl; rewrite Hl2, lookup_insert_eq; by eexists|simpl; lia..]|].
  all: intros r s1 (-> & h3 & Hok3 & Hl3 & Hroom3 & ->); cbn [Channel.size Channel.off Channel.payload Channel.msg_addr] in *;
    apply wp_ret; rewrite (proj2 (Z.ltb_ge _ _)) by lia; apply wp_ret.
  all: split; [rewrite Z.sub_0_r, Nat2Z.id, drop_0, take_ge by (rewrite length_drop; lia); done|].
  all: exists h3, (Channel.woken (chst w) ++ take 1 ws ++ [thread]); split_and!; [done|by apply Hroom3| |].
  all: try (simpl in Hl3; rewrite Hl3, Hl2; by apply delete_insert_id).
  all: refine (f_equal (fun z => set_procs _ (set_chst z w)) _); rewrite app_assoc; by eapply exchange_state.
Qed.
End exchange.

(** ** Files of drivers *)

Section drivers.
Context {H : Type} `{KHeap H} `{Areas} {X : Type} (dops : Driver.driver_ops X) (thread server_thread junk : Z).
Implicit Types (w : world (H := H) (S := Driver.proc X)) (st : Driver.proc X) (q : Driver.request).
Notation srv := (driver_server dops junk).

Lemma driver_handle q st st' r : request_fits q ->
  Driver.dispatch dops q (Driver.set_out [] st) = Done (tt, st') -> Driver.out st' = [r] ->
  handle srv (encode_request q) st = Done ([encode_response junk r], st').
Proof.
  intros Hq Hd Ho. simpl. rewrite decode_request_encode by done. unfold bind at 1, modify. unfold bind at 1. rewrite Hd.
  unfold bind, get. simpl. by rewrite Ho.
Qed.

(** *** The area of a request *)

Lemma page_up_ge n : 0 <= n -> n <= page_up n.
Proof. intros Hn. unfold page_up, PAGE_SIZE. Z.to_euclidean_division_equations; lia. Qed.

(** A server after [as_map] has put an area at [a]. *)
Definition mapped (a n : Z) (p : sproc (S := Driver.proc X)) : sproc :=
  {| sstate := Driver.set_mem (store_bytes a (fresh <$> seqZ a n) (Driver.mem (sstate p))) (sstate p);
     sareas := <[a := n]> (sareas p) |}.

Lemma as_map_ok p sz : 0 < sz ->
  wp (as_map srv sz) p (fun a p' => (a = 0 /\ p' = p) \/
    (0 < a /\ a + page_up sz < 2 ^ 32 /\ p' = mapped a (page_up sz) p /\
     forall x, a <= x < a + page_up sz -> Driver.mem (sstate p) !! x = None)).
Proof.
  intros Hsz. pose proof (page_up_ge sz ltac:(lia)) as Hn. unfold as_map. apply wp_bind, wp_get. cbv zeta. simpl smem.
  destruct (place_spec (Driver.mem (sstate p)) (page_up sz) ltac:(lia)) as [E|(Ha & Hr & Hnone)].
  - rewrite E. apply wp_ret. by left.
  - rewrite (proj2 (Z.eqb_neq _ _)) by lia. apply wp_bind, wp_put, wp_ret. right. done.
Qed.

Lemma wp_on_proc {A} w pid p (m : M sproc A) Q : procs w !! pid = Some p ->
  wp m p (fun a p' => Q a (set_procs (<[pid := p']> (procs w)) w)) -> wp (on_proc pid m) w Q.
Proof. intros Hp Hm. unfold wp, on_proc in *. rewrite Hp. by destruct (m p) as [[a p']| | |]. Qed.

Lemma copy_to_ok p a n l : sareas p !! a = Some n -> Z.of_nat (length l) <= n ->
  wp (copy_to srv a l) p (fun r p' => (r = - ENOMEM /\ p' = p) \/
    (r = 0 /\ p' = {| sstate := Driver.set_mem (store_bytes a l (Driver.mem (sstate p))) (sstate p); sareas := sareas p |})).
Proof.
  intros Ha Hl. unfold copy_to. apply wp_bind, wp_get. rewrite Ha, (proj2 (Z.ltb_ge _ _)) by done.
  destruct (window n); [|apply wp_ret; by left]. simpl negb. cbn iota. apply wp_bind, wp_modify, wp_ret. by right.
Qed.

Lemma read_back (m : bmem) l : forall a i, bytes_at m (a + i) l ->
  mapM (fun k => m !! (a + k)) (seqZ i (Z.of_nat (length l))) = Some l.
Proof.
  induction l as [|c l IH]; intros a i Hb; [done|]. destruct Hb as [Hc Hb]. cbn [length].
  rewrite Nat2Z.inj_succ, seqZ_cons by lia. rewrite Z.pred_succ. simpl. rewrite Hc. simpl.
  rewrite (IH a (Z.succ i)); [done|]. by replace (a + Z.succ i) with (a + i + 1) by lia.
Qed.

Lemma copy_from_ok p a n l : sareas p !! a = Some n -> Z.of_nat (length l) <= n -> bytes_at (Driver.mem (sstate p)) a l ->
  wp (copy_from srv a (Z.of_nat (length l))) p (fun r p' => p' = p /\ (r = (- ENOMEM, []) \/ r = (0, l))).
Proof.
  intros Ha Hl Hb. unfold copy_from. apply wp_bind, wp_get. rewrite Ha, (proj2 (Z.ltb_ge _ _)) by done.
  destruct (window n); simpl negb; cbn iota; [|apply wp_ret; auto]. simpl smem. rewrite read_back by by rewrite Z.add_0_r.
  apply wp_ret. auto.
Qed.

(** *** Reading and writing

    [settled]: between two requests a channel has changed in nothing but who waits for it. *)
Definition settled (s s' : Channel.state H) (c b : Z) : Prop :=
  exists ws wk h', heap_ok h' /\ room h' b /\ live h' = live (Channel.kheap s) /\
    s' = Channel.set_woken wk (Channel.set_kheap h' (Channel.set_endpoint (Channel.Master c) (Channel.idle ws []) s)).

Lemma settled_refl s c ch ws b : Channel.chans s !! c = Some ch -> Channel.ep ch = Channel.idle ws [] ->
  heap_ok (Channel.kheap s) -> room (Channel.kheap s) b -> settled s s c b.
Proof.
  intros Hc He Hok Hr. exists ws, (Channel.woken s), (Channel.kheap s). split_and!; [done..|].
  apply state_eq; try done. simpl. symmetry. apply map_eq. intros k.
  destruct (decide (c = k)) as [<-|Hk]; [rewrite lookup_alter_eq, Hc|by rewrite lookup_alter_ne].
  simpl. rewrite <-He. by destruct ch.
Qed.

(** The addresses of the areas of a server are mapped. *)
Definition areas_mapped (p : sproc (S := Driver.proc X)) : Prop :=
  forall a n, sareas p !! a = Some n -> is_Some (Driver.mem (sstate p) !! a).

Definition in_area (a sz x : Z) : Prop := a <= x < a + page_up sz.

(** What a driver does with a read or a write of [sz] bytes at [off]: wherever the kernel
    maps the buffer, it gives one answer with the number of bytes, which for a read are in
    the buffer; [Post] is what then holds of it and of these bytes. *)
Definition serves st (op i inode sz off : Z) (data : list Z) (Post : Driver.proc X -> list Z -> Prop) : Prop :=
  forall a m buf, 0 < a -> a + page_up sz < 2 ^ 32 ->
    (forall x, in_area a sz x -> Driver.mem st !! x = None) ->
    (forall x, ~ in_area a sz x -> m !! x = Driver.mem st !! x) ->
    bytes_at m a buf -> Forall is_char buf -> Z.of_nat (length buf) = sz -> (op = Driver.VFS_WRITE -> buf = data) ->
    exists st' got, Driver.dispatch dops (Driver.ReqRdwr {|
        Driver.rw_hdr := {| Driver.op := op; Driver.slave_id := i |}; Driver.rw_inode := inode;
        Driver.rw_size := sz; Driver.rw_off := off; Driver.rw_data := a |}) (Driver.set_out [] (Driver.set_mem m st)) = Done (tt, st') /\
      Driver.out st' = [Driver.RespRdwr i 0 (Some (Z.of_nat (length got)))] /\
      Z.of_nat (length got) <= sz /\ (op = Driver.VFS_READ -> bytes_at (Driver.mem st') a got) /\
      Post (Driver.set_mem (UMem.unmap a (page_up sz) (Driver.mem st')) st') got.

Lemma unmap_fresh a sz l (m : bmem) : 0 <= page_up sz -> Z.of_nat (length l) <= page_up sz ->
  (forall x, in_area a sz x -> m !! x = None) -> UMem.unmap a (page_up sz) (store_bytes a l m) = m.
Proof.
  intros Hn Hl Hnone. apply map_eq. intros x. destruct (decide (in_area a sz x)) as [Hx|Hx].
  - rewrite Hnone by done. apply map_lookup_filter_None. right. intros c _ Hc. by apply Hc.
  - rewrite UMem.lookup_unmap by done. apply lookup_store_bytes_ne. unfold in_area in Hx. lia.
Qed.

Lemma store_bytes_twice a l : forall l' (m : bmem), length l = length l' -> store_bytes a l (store_bytes a l' m) = store_bytes a l m.
Proof.
  intros l' m Hl. apply map_eq. intros x. destruct (decide (a <= x < a + Z.of_nat (length l))) as [Hx|Hx].
  - pose proof (bytes_at_store_bytes (store_bytes a l' m) a l) as H1'. pose proof (bytes_at_store_bytes m a l) as H2'.
    replace x with (a + Z.of_nat (Z.to_nat (x - a))) by lia. rewrite (bytes_at_lookup _ a l), (bytes_at_lookup _ a l) by (done || lia). done.
  - rewrite !lookup_store_bytes_ne by lia. done.
Qed.

Lemma unmap_area_ok p a n : sareas p !! a = Some n -> wp (as_unmap srv a) p (fun _ p' =>
  p' = {| sstate := Driver.set_mem (UMem.unmap a n (Driver.mem (sstate p))) (sstate p); sareas := delete a (sareas p) |}).
Proof. intros Ha. unfold as_unmap. apply wp_bind, wp_get. rewrite Ha. by apply wp_put. Qed.

Lemma sproc_eta (p : sproc (S := Driver.proc X)) m l : m = Driver.mem (sstate p) -> l = sareas p ->
  {| sstate := Driver.set_mem m (sstate p); sareas := l |} = p.
Proof. intros -> ->. destruct p as [[] ?]. done. Qed.

(** The exchange with the driver, once the buffer is mapped and holds [buf]. *)
Lemma ask_ok w sl c x ch ws p inode sz off data op b turns Post a m buf :
  op = Driver.VFS_READ \/ op = Driver.VFS_WRITE ->
  connected (chst w) sl c x ch ws -> heap_ok (Channel.kheap (chst w)) ->
  0 < sz < 2 ^ 31 -> is_u32 inode -> 0 <= off < 2 ^ 63 -> b = 0 \/ KMALLOC_OVERHEAD < b ->
  room (Channel.kheap (chst w)) (msg_room 24 + (msg_room 8 + b)) ->
  0 < a -> a + page_up sz < 2 ^ 32 -> (forall y, in_area a sz y -> Driver.mem (sstate p) !! y = None) ->
  procs w !! Channel.proc ch = Some {| sstate := Driver.set_mem m (sstate p); sareas := <[a := page_up sz]> (sareas p) |} ->
  (forall y, ~ in_area a sz y -> m !! y = Driver.mem (sstate p) !! y) ->
  bytes_at m a buf -> Forall is_char buf -> Z.of_nat (length buf) = sz -> (op = Driver.VFS_WRITE -> buf = data) ->
  serves (sstate p) op (Channel.id x) inode sz off data Post ->
  let q := Driver.ReqRdwr {| Driver.rw_hdr := {| Driver.op := op; Driver.slave_id := Channel.id x |};
    Driver.rw_inode := inode; Driver.rw_size := sz; Driver.rw_off := off; Driver.rw_data := a |} in
  wp (fiu_channel_read_rw srv thread server_thread (Datatypes.S turns) sl (encode_request q) 8) w (fun r w' =>
    exists st' got s' reply, r = inr reply /\ decode resp_rdwr_layout reply = Some [0; Z.of_nat (length got)] /\
      Z.of_nat (length got) <= sz /\ (op = Driver.VFS_READ -> bytes_at (Driver.mem st') a got) /\
      Post (Driver.set_mem (UMem.unmap a (page_up sz) (Driver.mem st')) st') got /\ settled (chst w) s' c b /\
      w' = set_procs (<[Channel.proc ch := {| sstate := st'; sareas := <[a := page_up sz]> (sareas p) |}]> (procs w)) (set_chst s' w)).
Proof.
  intros Hop Hcn Hok Hsz Hino Hoff Hb Hroom Ha Har Hnone Hp Hm Hbuf Hch Hlen Hdata Hserves q.
  destruct (Hserves a m buf Ha Har Hnone Hm Hbuf Hch Hlen Hdata) as (st' & got & Hd & Ho & Hgl & Hg & HPost). clear Hserves.
  pose proof (page_up_ge sz ltac:(lia)) as Hpg. pose proof (cn_id _ _ _ _ _ _ Hcn) as Hid.
  assert (request_fits q) as Hq.
  { unfold q. split; [|simpl; unfold is_u32 in *; lia]. split; simpl; [|done].
    unfold Driver.VFS_READ, Driver.VFS_WRITE in Hop. lia. }
  eapply wp_mono.
  { eapply (read_rw_ok _ _ _ _ _ _ _ _ ws _ _ _ st' _ turns b); [done|done|exact Hp| | | | | |done|].
    - eapply (driver_handle q _ st'); [done|exact Hd|exact Ho].
    - by apply response_slave.
    - rewrite length_response. simpl. lia.
    - rewrite length_response. simpl. lia.
    - unfold q. simpl. lia.
    - rewrite length_response. unfold q. exact Hroom. }
  intros r w' (-> & h' & wk & Hok' & Hr' & Hl' & ->).
  eexists st', got, _, _. split_and!; [done| |done|done|done| |reflexivity].
  - rewrite (decode_response junk (Driver.RespRdwr _ _ _)). simpl. rewrite !cut_small by (simpl; lia). done.
  - exists (drop 1 ws), wk, h'. done.
Qed.

(** How a read or a write of a file ends: the kernel had no memory for the buffer, or the
    driver answered; then the data of a read may still be lost for want of a window. *)
Definition rw_result (p p' : sproc (S := Driver.proc X)) (op off : Z) (Post : Driver.proc X -> list Z -> Prop)
    (r : Z * Z * list Z) : Prop :=
  (r = (- ENOMEM, off, []) /\ p' = p) \/
  exists got, Post (sstate p') got /\
    ((op = Driver.VFS_READ /\ r = (- ENOMEM, off, [])) \/
     r = (Z.of_nat (length got), off + Z.of_nat (length got), if op =? Driver.VFS_READ then got else [])).

(** A server whose buffer at [a] has been unmapped again. *)
Definition unmapped (a sz : Z) (p : sproc (S := Driver.proc X)) : sproc :=
  {| sstate := Driver.set_mem (UMem.unmap a (page_up sz) (Driver.mem (sstate p))) (sstate p); sareas := delete a (sareas p) |}.

Lemma unmapped_mapped p a sz : 0 <= sz -> sareas p !! a = None -> (forall x, in_area a sz x -> Driver.mem (sstate p) !! x = None) ->
  unmapped a sz (mapped a (page_up sz) p) = p.
Proof.
  intros Hsz Ha Hnone. pose proof (page_up_ge sz Hsz). refine (sproc_eta p _ _ _ _); simpl; [|by apply delete_insert_id].
  apply unmap_fresh; [lia| |done]. rewrite length_fmap, length_seqZ. lia.
Qed.

(** Before the request is sent the buffer holds the data of a write. *)
Lemma fill_ok w pid p op sz data a :
  0 < sz -> 0 < a -> (op = Driver.VFS_WRITE -> Z.of_nat (length data) = sz /\ Forall is_char data) ->
  procs w !! pid = Some (mapped a (page_up sz) p) ->
  wp (if op =? Driver.VFS_WRITE then on_proc pid (copy_to srv a (take (Z.to_nat sz) data)) else ret 0) w (fun r w' =>
    (r = - ENOMEM /\ w' = w) \/
    r = 0 /\ exists m buf, w' = set_procs (<[pid := {| sstate := Driver.set_mem m (sstate p); sareas := <[a := page_up sz]> (sareas p) |}]> (procs w)) w /\
      (forall y, ~ in_area a sz y -> m !! y = Driver.mem (sstate p) !! y) /\ bytes_at m a buf /\ Forall is_char buf /\
      Z.of_nat (length buf) = sz /\ (op = Driver.VFS_WRITE -> buf = data)).
Proof.
  intros Hsz Ha Hdata Hp. pose proof (page_up_ge sz ltac:(lia)) as Hpg.
  set (buf0 := fresh <$> seqZ a (page_up sz)). assert (length buf0 = Z.to_nat (page_up sz)) as Hl0 by (unfold buf0; by rewrite length_fmap, length_seqZ).
  destruct (Z.eqb_spec op Driver.VFS_WRITE) as [Hw|Hw].
  - destruct (Hdata Hw) as [Hdl Hdc]. rewrite take_ge by lia. eapply wp_on_proc; [exact Hp|]. eapply wp_mono.
    { apply (copy_to_ok _ a (page_up sz) data); [apply lookup_insert_eq|lia]. }
    intros r p' [[-> ->]|[-> ->]]; [left; split; [done|]; rewrite insert_id by done; by destruct w|right; split; [done|]].
    exists (store_bytes a data (store_bytes a buf0 (Driver.mem (sstate p)))), data. split_and!; [done| |apply bytes_at_store_bytes|done..].
    intros y Hy. unfold in_area in Hy. rewrite !lookup_store_bytes_ne by lia. done.
  - apply wp_ret. right. split; [done|]. exists (store_bytes a buf0 (Driver.mem (sstate p))), (take (Z.to_nat sz) buf0). split_and!.
    + rewrite insert_id by done. by destruct w.
    + intros y Hy. unfold in_area in Hy. rewrite lookup_store_bytes_ne by lia. done.
    + apply bytes_at_take, bytes_at_store_bytes.
    + apply Forall_take, Forall_fmap, Forall_true. intros y. apply fresh_char.
    + rewrite length_take. lia.
    + done.
Qed.

Lemma transfer_ok w sl c x ch ws p inode sz off data op b turns Post a :
  op = Driver.VFS_READ \/ op = Driver.VFS_WRITE ->
  connected (chst w) sl c x ch ws -> heap_ok (Channel.kheap (chst w)) ->
  0 < sz < 2 ^ 31 -> is_u32 inode -> 0 <= off < 2 ^ 63 ->
  (op = Driver.VFS_WRITE -> Z.of_nat (length data) = sz /\ Forall is_char data) ->
  b = 0 \/ KMALLOC_OVERHEAD < b -> room (Channel.kheap (chst w)) (msg_room 24 + (msg_room 8 + b)) ->
  0 < a -> a + page_up sz < 2 ^ 32 -> (forall y, in_area a sz y -> Driver.mem (sstate p) !! y = None) -> sareas p !! a = None ->
  procs w !! Channel.proc ch = Some (mapped a (page_up sz) p) ->
  serves (sstate p) op (Channel.id x) inode sz off data Post ->
  wp (transfer srv thread server_thread (Datatypes.S turns) sl (Channel.id x) (Channel.proc ch) inode sz off data op a) w (fun r w' =>
    exists p' s', w' = set_procs (<[Channel.proc ch := p']> (procs w)) (set_chst s' w) /\ settled (chst w) s' c b /\
      sareas p' = <[a := page_up sz]> (sareas p) /\ rw_result p (unmapped a sz p') op off Post r).
Proof.
  intros Hop Hcn Hok Hsz Hino Hoff Hdata Hb Hroom Ha Har Hnone Hfresh Hp Hserves.
  pose proof (page_up_ge sz ltac:(lia)) as Hpg. pose proof Hcn as [Hc He _ _ _ _ _ _ _]. unfold transfer.
  apply wp_bind. eapply wp_mono; [by apply (fill_ok w (Channel.proc ch) p op sz data a); [lia|..]|].
  intros r w1 [[-> ->]|[-> (m & buf & -> & Hm & Hbuf & Hch & Hlen & Hw)]].
  { cbn -[settled rw_result]. apply wp_ret. exists (mapped a (page_up sz) p), (chst w). split_and!; [| |done|].
    - rewrite insert_id by done. by destruct w.
    - eapply settled_refl; [done..|]. eapply room_mono; [exact Hroom|]. unfold msg_room, Channel.sizeof_channel_message, KMALLOC_OVERHEAD. lia.
    - left. split; [done|]. apply unmapped_mapped; [lia|done..]. }
  rewrite Z.ltb_irrefl. apply wp_bind. eapply wp_mono.
  { eapply (ask_ok _ sl c x ch ws p inode sz off data op b turns Post a m buf); try done. simpl. apply lookup_insert_eq. }
  intros r w2 (st' & got & s' & reply & -> & Hdec & Hgl & Hg & HPost & Hset & ->). simpl in Hset.
  apply wp_bind. unfold fields. rewrite Hdec. apply wp_ret. cbn [field nth]. change (s32 0) with 0. rewrite Z.ltb_irrefl, s32_small, u64_small by lia.
  assert (forall r, rw_result p {| sstate := Driver.set_mem (UMem.unmap a (page_up sz) (Driver.mem st')) st'; sareas := sareas p |} op off Post r ->
    exists p' s1, set_procs (<[Channel.proc ch := {| sstate := st'; sareas := <[a := page_up sz]> (sareas p) |}]> (procs w)) (set_chst s' w) =
      set_procs (<[Channel.proc ch := p']> (procs w)) (set_chst s1 w) /\ settled (chst w) s1 c b /\
      sareas p' = <[a := page_up sz]> (sareas p) /\ rw_result p (unmapped a sz p') op off Post r) as Hend.
  { intros r Hr. eexists _, s'. split_and!; [reflexivity|done|done|]. unfold unmapped. simpl. by rewrite delete_insert_id. }
  simpl procs. rewrite !insert_insert_eq.
  destruct (Z.eqb_spec op Driver.VFS_READ) as [Hr|Hr].
  - apply wp_bind. eapply wp_on_proc; [simpl; apply lookup_insert_eq|]. eapply wp_mono.
    { apply (copy_from_ok _ a (page_up sz) got); [apply lookup_insert_eq|lia|by apply Hg]. }
    intros r p' (-> & [->| ->]); simpl procs; rewrite !insert_insert_eq; simpl; apply wp_ret; apply Hend; right; exists got; (split; [done|]).
    + by left.
    + right. by rewrite (proj2 (Z.eqb_eq _ _)).
  - apply wp_bind, wp_ret. simpl. apply wp_ret. apply Hend. right. exists got. split; [done|]. right. by rewrite (proj2 (Z.eqb_neq _ _)).
Qed.

Lemma rdwr_ok w priv f c x ch ws p inode sz off data op b turns Post :
  files w !! priv = Some f -> Z.land (ops f) op <> 0 -> op = Driver.VFS_READ \/ op = Driver.VFS_WRITE ->
  connected (chst w) (slave f) c x ch ws -> heap_ok (Channel.kheap (chst w)) ->
  procs w !! Channel.proc ch = Some p -> areas_mapped p ->
  0 < sz < 2 ^ 31 -> is_u32 inode -> 0 <= off < 2 ^ 63 ->
  (op = Driver.VFS_WRITE -> Z.of_nat (length data) = sz /\ Forall is_char data) ->
  b = 0 \/ KMALLOC_OVERHEAD < b -> room (Channel.kheap (chst w)) (msg_room 24 + (msg_room 8 + b)) ->
  serves (sstate p) op (Channel.id x) inode sz off data Post ->
  wp (fiu_read_write srv thread server_thread (Datatypes.S turns) priv inode sz off data op) w (fun r w' =>
    exists p' s', w' = set_procs (<[Channel.proc ch := p']> (procs w)) (set_chst s' w) /\
      settled (chst w) s' c b /\ sareas p' = sareas p /\ rw_result p p' op off Post r).
Proof.
  intros Hf Hmask Hop Hcn Hok Hp Ham Hsz Hino Hoff Hdata Hb Hroom Hserves.
  pose proof Hcn as [Hc He Hx Hpar Hxe Hid Hfirst Hsl Hclk]. pose proof (page_up_ge sz ltac:(lia)) as Hpg.
  assert (settled (chst w) (chst w) c b) as Hset.
  { eapply settled_refl; [done..|]. eapply room_mono; [exact Hroom|]. unfold msg_room, Channel.sizeof_channel_message, KMALLOC_OVERHEAD. lia. }
  unfold fiu_read_write. apply wp_bind. unfold at_addr at 1. apply wp_bind, wp_get. rewrite Hf. apply wp_ret.
  rewrite (proj2 (Z.eqb_neq _ _)) by done. apply wp_bind, wp_zoom. eapply wp_deref_slave; [done|].
  apply wp_bind, wp_zoom. eapply wp_deref_channel; [by rewrite Hpar|]. cbv zeta.
  apply wp_bind. eapply wp_on_proc; [exact Hp|]. eapply wp_mono; [apply as_map_ok; lia|].
  intros a p1 [[-> ->]|(Ha & Har & -> & Hnone)].
  { rewrite Z.eqb_refl. apply wp_ret. exists p, (chst w). split_and!; [|done|done|by left]. by destruct w. }
  rewrite (proj2 (Z.eqb_neq _ _)) by lia.
  assert (sareas p !! a = None) as Hfresh.
  { destruct (sareas p !! a) as [n|] eqn:E; [|done]. destruct (Ham a n E) as [y Hy]. rewrite Hnone in Hy by lia. done. }
  apply wp_bind. eapply wp_mono.
  { eapply (transfer_ok _ (slave f) c x ch ws p inode sz off data op b turns Post a); try done. simpl. apply lookup_insert_eq. }
  intros r w1 (p' & s' & -> & Hs' & Hareas & Hres). simpl in Hs'. apply wp_bind. eapply wp_on_proc; [simpl; apply lookup_insert_eq|].
  eapply wp_mono; [apply (unmap_area_ok _ a (page_up sz)); by rewrite Hareas, lookup_insert_eq|]. intros _ p2 ->. apply wp_ret.
  exists (unmapped a sz p'), s'. split_and!; [|done| |done].
  - simpl procs. by rewrite !insert_insert_eq.
  - simpl. by rewrite Hareas, delete_insert_id.
Qed.
End drivers.

(** ** Opening and closing *)

Section open.
Context {H : Type} `{KHeap H} {X : Type} (dops : Driver.driver_ops X) (thread server_thread junk current : Z).
Implicit Types (w : world (H := H) (S := Driver.proc X)) (st : Driver.proc X) (s : Channel.state H).
Notation srv := (driver_server dops junk).

(** A channel with a new slave at [sl]. *)
Definition more_slave (ch : Channel.channel) (sl : Z) : Channel.channel :=
  {| Channel.name := Channel.name ch; Channel.slave_id := u16 (Channel.slave_id ch + 1); Channel.proc := Channel.proc ch;
     Channel.ep := Channel.ep ch; Channel.slaves := sl :: Channel.slaves ch |}.
Definition new_slave (c : Z) (ch : Channel.channel) : Channel.channel_slave :=
  {| Channel.id := Channel.slave_id ch; Channel.parent := c; Channel.slave_proc := current; Channel.slave_ep := Channel.endpoint_init |}.
Definition opened s (c : Z) (ch : Channel.channel) (sl : Z) (h' : H) : Channel.state H :=
  {| Channel.clock := false; Channel.channels := Channel.channels s; Channel.chans := <[c := more_slave ch sl]> (Channel.chans s);
     Channel.slavs := <[sl := new_slave c ch]> (Channel.slavs s); Channel.woken := Channel.woken s; Channel.kheap := h' |}.

Lemma open_slave_ok w c ch b : Channel.chans (chst w) !! c = Some ch -> Channel.clock (chst w) = false ->
  heap_ok (Channel.kheap (chst w)) -> b = 0 \/ KMALLOC_OVERHEAD < b ->
  room (Channel.kheap (chst w)) (Channel.sizeof_channel_slave + KMALLOC_OVERHEAD + b) ->
  wp (open_slave c current) w (fun r w' => exists sl h', r = (0, sl) /\ w' = set_chst (opened (chst w) c ch sl h') w /\
    0 < sl /\ heap_ok h' /\ room h' b /\ live (Channel.kheap (chst w)) !! sl = None /\
    exists n, live h' = <[sl := n]> (live (Channel.kheap (chst w)))).
Proof.
  intros Hc Hk Hok Hb Hr. unfold open_slave. apply wp_bind, wp_zoom. unfold Channel.channel_open. apply wp_bind, wp_zoom.
  eapply wp_mono; [apply (kmalloc_spec _ _ b); [done|unfold Channel.sizeof_channel_slave; lia|done|done]|].
  intros sl h' (Hok' & Hsl & Hnone & (n & _ & Hl) & Hr'). rewrite (proj2 (Z.eqb_neq _ _)) by lia.
  apply wp_bind, wp_lock; [done|]. apply wp_bind. eapply wp_deref_channel; [exact Hc|].
  apply wp_bind, wp_modify, wp_bind, wp_unlock, wp_bind, wp_modify, wp_ret, wp_ret.
  exists sl, h'. split_and!; [done| |lia|done..|by exists n]. done.
Qed.

Lemma close_slave_ok w sl c x ch : Channel.chans (chst w) !! c = Some ch -> Channel.slavs (chst w) !! sl = Some x ->
  Channel.parent x = c -> Channel.input (Channel.slave_ep x) = [] -> Channel.clock (chst w) = false ->
  heap_ok (Channel.kheap (chst w)) -> is_Some (live (Channel.kheap (chst w)) !! sl) ->
  wp (close_slave sl) w (fun _ w' => exists h', heap_ok h' /\ live h' = delete sl (live (Channel.kheap (chst w))) /\
    (forall b, room (Channel.kheap (chst w)) b -> room h' b) /\
    w' = set_chst {| Channel.clock := false; Channel.channels := Channel.channels (chst w);
      Channel.chans := <[c := {| Channel.name := Channel.name ch; Channel.slave_id := Channel.slave_id ch;
        Channel.proc := Channel.proc ch; Channel.ep := Channel.ep ch;
        Channel.slaves := filter (fun y => y <> sl) (Channel.slaves ch) |}]> (Channel.chans (chst w));
      Channel.slavs := delete sl (Channel.slavs (chst w)); Channel.woken := Channel.woken (chst w); Channel.kheap := h' |} w).
Proof.
  intros Hc Hx Hp Hin Hk Hok Hl. unfold close_slave. apply wp_bind, wp_zoom. unfold Channel.channel_slave_close.
  apply wp_bind, wp_lock; [done|]. apply wp_bind. eapply wp_deref_slave; [exact Hx|]. rewrite Hp.
  apply wp_bind. eapply wp_deref_channel; [exact Hc|]. apply wp_bind, wp_modify, wp_bind, wp_unlock. rewrite Hin. cbn [Channel.free_messages].
  apply wp_bind, wp_ret, wp_bind, wp_zoom. eapply wp_mono; [by apply kfree_spec|]. intros [] h' (Hok' & Hl' & Hr').
  apply wp_bind, wp_modify, wp_ret, wp_ret. exists h'. done.
Qed.

(** The slave of an open file can be used. *)
Lemma opened_connected s c ch ws sl h' : Channel.chans s !! c = Some ch -> Channel.ep ch = Channel.idle ws [] ->
  0 <= Channel.slave_id ch < 2 ^ 16 -> Channel.slaves_ok c s -> 0 < sl -> Channel.slavs s !! sl = None ->
  connected (opened s c ch sl h') sl c (new_slave c ch) (more_slave ch sl) ws.
Proof.
  intros Hc He Hid (ch' & Hc' & Hnd & Hsl) Hpos Hnone. rewrite Hc in Hc'. injection Hc' as <-.
  assert (sl ∉ Channel.slaves ch) as Hni.
  { intros Hin. destruct (Hsl sl Hin) as (_ & y & Hy & _). by rewrite Hnone in Hy. }
  split; simpl; try done; [by rewrite lookup_insert_eq|by rewrite lookup_insert_eq| |].
  - eexists. unfold Channel.with_id. rewrite filter_cons, decide_True; [done|]. simpl. by rewrite lookup_insert_eq.
  - exists (more_slave ch sl). simpl. rewrite lookup_insert_eq. split_and!; [done|by constructor|].
    intros a [->|Ha]%elem_of_cons; [split; [lia|]; rewrite lookup_insert_eq; eexists; by split|].
    rewrite lookup_insert_ne by (by intros ->). by apply Hsl.
Qed.

Lemma channel_of_chst o w cs x : channel_of o w = Done (x, w) -> channel_of o (set_chst cs w) = Done (x, set_chst cs w).
Proof.
  destruct o as [fs fi|dev]; unfold channel_of, at_addr, zoom, bind, get; simpl.
  - destruct (fss w !! fs); [|done]. unfold ret, get; simpl. destruct (insts w !! fi); [|done]. simpl. by intros [= <-].
  - unfold Device.device_get. destruct ((dev <? 0) || (dev >=? Device.VFS_MAX_DEVICE)); [done|]. unfold bind, get. simpl.
    destruct (Device.devices (devs w) !! Z.to_nat dev) as [d|]; [|done]. destruct (Device.active d); [|done]. simpl.
    destruct (dev_privs w !! Device.private d); [|done]. simpl. intros [= <- _]. done.
Qed.

(** Everything an open file took has been given back; the channel has only counted it. *)
Definition given_back w w' (c : Z) (ch : Channel.channel) : Prop :=
  files w' = files w /\ Channel.slavs (chst w') = Channel.slavs (chst w) /\
  live (Channel.kheap (chst w')) = live (Channel.kheap (chst w)) /\
  exists ch' ws, Channel.chans (chst w') = <[c := ch']> (Channel.chans (chst w)) /\
    Channel.slaves ch' = Channel.slaves ch /\ Channel.ep ch' = Channel.idle ws [].

(** The slaves and the private data of files are on the heap. *)
Definition on_kheap w : Prop :=
  (forall a, is_Some (Channel.slavs (chst w) !! a) -> is_Some (live (Channel.kheap (chst w)) !! a)) /\
  (forall a, is_Some (files w !! a) -> is_Some (live (Channel.kheap (chst w)) !! a)).

Lemma filter_new_slave (sl : Z) (l : list Z) : sl ∉ l -> filter (fun y => y <> sl) (sl :: l) = l.
Proof.
  intros Hni. rewrite filter_cons, decide_False by (by intros Hn; apply Hn).
  induction l as [|y l IH]; [done|]. rewrite filter_cons, decide_True by set_solver. f_equal. apply IH. set_solver.
Qed.

(** [w] has over [w0] the private data of a file at [priv] and its slave at [sl]. *)
Record holding w0 w (sl priv c : Z) (ch : Channel.channel) : Prop := {
  ho_slave : Channel.slavs (chst w) = <[sl := new_slave c ch]> (Channel.slavs (chst w0));
  ho_chan : exists ws, Channel.chans (chst w) = <[c := Channel.with_ep (more_slave ch sl) (Channel.idle ws [])]> (Channel.chans (chst w0));
  ho_live : exists n1 n2, live (Channel.kheap (chst w)) = <[sl := n1]> (<[priv := n2]> (live (Channel.kheap (chst w0))));
  ho_sl : live (Channel.kheap (chst w0)) !! sl = None;
  ho_priv : live (Channel.kheap (chst w0)) !! priv = None;
  ho_ne : sl <> priv;
  ho_heap : heap_ok (Channel.kheap (chst w));
  ho_clock : Channel.clock (chst w) = false;
}.

(** [w] without that file. *)
Definition released w0 w (c : Z) (ch : Channel.channel) (ws : list Z) (h' : H) : world :=
  set_chst {| Channel.clock := false; Channel.channels := Channel.channels (chst w);
    Channel.chans := <[c := {| Channel.name := Channel.name ch; Channel.slave_id := u16 (Channel.slave_id ch + 1);
      Channel.proc := Channel.proc ch; Channel.ep := Channel.idle ws []; Channel.slaves := Channel.slaves ch |}]> (Channel.chans (chst w0));
    Channel.slavs := Channel.slavs (chst w0); Channel.woken := Channel.woken (chst w); Channel.kheap := h' |} w.

Lemma give_back_ok {A} w0 w sl priv c ch (k : M world A) Q : holding w0 w sl priv c ch -> on_kheap w0 -> sl ∉ Channel.slaves ch ->
  (forall ws h', heap_ok h' -> live h' = live (Channel.kheap (chst w0)) -> wp k (released w0 w c ch ws h') Q) ->
  wp (close_slave sl ;;; on_heap (kfree priv) ;;; k) w Q.
Proof.
  intros [Hs [ws Hc] (n1 & n2 & Hl) Hsl Hpr Hne Hok Hk] [Ho _] Hni HQ.
  assert (Channel.slavs (chst w0) !! sl = None) as Hs0.
  { destruct (Channel.slavs (chst w0) !! sl) eqn:E; [|done]. destruct (Ho sl) as [y Hy]; [by rewrite E|by rewrite Hsl in Hy]. }
  apply wp_bind. eapply wp_mono.
  { eapply (close_slave_ok w sl c); [by rewrite Hc, lookup_insert_eq|by rewrite Hs, lookup_insert_eq|done..|by rewrite Hl, lookup_insert_eq]. }
  intros _ w1 (h1 & Hok1 & Hl1 & _ & ->). rewrite Hl, delete_insert_id in Hl1 by (by rewrite lookup_insert_ne).
  apply wp_bind, wp_zoom, wp_zoom. simpl. eapply wp_mono; [apply kfree_spec; [done|by rewrite Hl1, lookup_insert_eq]|].
  intros [] h2 (Hok2 & Hl2 & _). rewrite Hl1, delete_insert_id in Hl2 by done.
  rewrite Hs, delete_insert_id, Hc, insert_insert_eq by done. simpl. rewrite (filter_new_slave sl) by done. by apply (HQ ws h2).
Qed.

Lemma connected_settled s sl c x ch ws ws' wk h' : connected s sl c x ch ws ->
  connected (Channel.set_woken wk (Channel.set_kheap h' (Channel.set_endpoint (Channel.Master c) (Channel.idle ws' []) s)))
    sl c x (Channel.with_ep ch (Channel.idle ws' [])) ws'.
Proof.
  intros [Hc He Hx Hpar Hxe Hid Hf Hsl Hk]. split; try done; [simpl; by rewrite lookup_alter_eq, Hc|].
  destruct (slaves_ok_master_ep s c (Channel.idle ws' []) Hsl) as (ch' & ? & ? & ?). by exists ch'.
Qed.

Lemma holding_exchanged w0 w sl priv c ch ws p st h' wk :
  holding w0 w sl priv c ch -> heap_ok h' -> live h' = live (Channel.kheap (chst w)) ->
  holding w0 (exchanged w c (more_slave ch sl) ws p st h' wk) sl priv c ch.
Proof.
  intros [Hs [ws0 Hc] (n1 & n2 & Hl) Hsl Hpr Hne Hok Hk] Hok' Hl'. split; simpl; try done.
  - exists (drop 1 ws). rewrite Hc. apply map_eq. intros k.
    destruct (decide (c = k)) as [->|Hn]; [by rewrite lookup_alter_eq, !lookup_insert_eq|by rewrite lookup_alter_ne, !lookup_insert_ne].
  - exists n1, n2. by rewrite Hl'.
Qed.

Definition open_request (i inode pid uid gid flags mode : Z) : Driver.request := Driver.ReqOpen {|
  Driver.ro_hdr := {| Driver.op := Driver.VFS_OPEN; Driver.slave_id := i |};
  Driver.ro_inode := inode; Driver.ro_uid := uid; Driver.ro_gid := gid; Driver.ro_flags := flags;
  Driver.ro_mode := mode; Driver.ro_pid := pid |}.
Definition close_request (i inode : Z) : Driver.request :=
  Driver.ReqClose {| Driver.rc_hdr := {| Driver.op := Driver.VFS_CLOSE; Driver.slave_id := i |}; Driver.rc_inode := inode |}.

(** The driver answers a request with [r] and is then in the state [st']. *)
Definition replies (q : Driver.request) st (r : Driver.response) st' : Prop :=
  request_fits q /\ Driver.dispatch dops q (Driver.set_out [] st) = Done (tt, st') /\ Driver.out st' = [r].

Lemma fiu_close_ok w0 w sl priv c ch ws p inode cret st' vops turns :
  holding w0 w sl priv c ch -> on_kheap w0 -> sl ∉ Channel.slaves ch ->
  connected (chst w) sl c (new_slave c ch) (Channel.with_ep (more_slave ch sl) (Channel.idle ws [])) ws ->
  files w = <[priv := {| slave := sl; ops := vops |}]> (files w0) -> files w0 !! priv = None ->
  procs w !! Channel.proc ch = Some p ->
  replies (close_request (Channel.slave_id ch) inode) (sstate p) (Driver.RespClose (Channel.slave_id ch) cret) st' -> is_s32 cret ->
  room (Channel.kheap (chst w)) (msg_room 8 + msg_room 4) ->
  wp (fiu_close srv thread server_thread (Datatypes.S turns) priv inode) w (fun r w' => r = cret /\ given_back w0 w' c ch).
Proof.
  intros Hh Ho Hni Hcn Hf Hf0 Hp (Hq & Hd & Hout) Hr Hroom. unfold fiu_close, at_addr.
  apply wp_bind, wp_bind, wp_get. rewrite Hf, lookup_insert_eq. apply wp_ret. simpl slave. apply wp_bind, wp_zoom.
  eapply wp_deref_slave; [apply Hcn|]. apply wp_bind. eapply wp_mono.
  { eapply (read_rw_ok srv _ _ _ _ _ _ _ ws p _ (encode_response junk (Driver.RespClose (Channel.slave_id ch) cret)) st' _ turns 0); [exact Hcn|apply Hh|exact Hp| | |simpl; lia|simpl; lia|simpl; lia|by left|].
    - by apply (driver_handle dops junk (close_request _ _)).
    - apply response_slave. apply Hcn.
    - rewrite Z.add_0_r. exact Hroom. }
  intros r w1 (-> & h' & wk & Hok' & _ & Hl' & ->).
  apply (give_back_ok w0 _ sl priv c ch); [|done|done|].
  { exact (holding_exchanged w0 w sl priv c ch ws p st' h' wk Hh Hok' Hl'). }
  intros ws2 h2 Hok2 Hl2. apply wp_bind, wp_modify, wp_bind. unfold fields.
  rewrite (decode_response junk (Driver.RespClose _ _)). apply wp_ret, wp_ret. cbn [response_fields field nth].
  split; [by apply s32_cut|]. split_and!; [|done|done|by eexists _, ws2]. simpl. rewrite Hf. by apply delete_insert_id.
Qed.

(** The kernel has allocated the private data at [priv] and opened the slave [sl]. *)
Lemma take_slave w c ch ws sl priv h1 h2 n1 n2 :
  Channel.chans (chst w) !! c = Some ch -> Channel.ep ch = Channel.idle ws [] -> 0 <= Channel.slave_id ch < 2 ^ 16 ->
  Channel.slaves_ok c (chst w) -> on_kheap w -> 0 < sl -> heap_ok h2 ->
  live (Channel.kheap (chst w)) !! priv = None -> live h1 = <[priv := n1]> (live (Channel.kheap (chst w))) ->
  live h1 !! sl = None -> live h2 = <[sl := n2]> (live h1) ->
  let s1 := Channel.set_kheap h1 (chst w) in let w1 := set_chst (opened s1 c ch sl h2) (set_chst s1 w) in
  holding w w1 sl priv c ch /\ connected (chst w1) sl c (new_slave c ch) (more_slave ch sl) ws /\
  (sl ∉ Channel.slaves ch) /\ files w !! priv = None.
Proof.
  intros Hc He Hid Hsl [Ho1 Ho2] Hslp Hok2 Hpriv Hl1 Hnone Hl2 s1 w1. rewrite Hl1 in Hnone, Hl2.
  apply lookup_insert_None in Hnone as [Hnone Hne].
  assert (Channel.slavs (chst w) !! sl = None) as Hs0.
  { destruct (Channel.slavs (chst w) !! sl) eqn:E; [|done]. destruct (Ho1 sl) as [y Hy]; [by rewrite E|by rewrite Hnone in Hy]. }
  split_and!.
  - split; try done; [|by exists n2, n1]. exists ws. simpl. do 2 f_equal. rewrite <-He. by destruct ch.
  - by apply (opened_connected s1).
  - intros Hin. destruct Hsl as (ch' & Hc' & _ & Hsl). rewrite Hc in Hc'. injection Hc' as <-. destruct (Hsl sl Hin) as (_ & y & Hy & _). by rewrite Hs0 in Hy.
  - destruct (files w !! priv) eqn:E; [|done]. destruct (Ho2 priv) as [y Hy]; [by rewrite E|by rewrite Hpriv in Hy].
Qed.

(** C30: A file of a driver is opened and closed: when the driver refuses the open, the
    private data and the slave are given back, and its error is the result; when it accepts,
    the file has a slave of its own on the channel of the driver and the operations of the
    device, and closing it, whatever the driver answers, gives everything back: the heap,
    the slaves of the channel and the files are those from before. *)
Theorem fiu_open_close w o c vops ch ws p inode pid uid gid flags mode oret ino st1 turns :
  channel_of o w = Done ((c, vops), w) -> Channel.chans (chst w) !! c = Some ch -> Channel.ep ch = Channel.idle ws [] ->
  0 <= Channel.slave_id ch < 2 ^ 16 -> Channel.slaves_ok c (chst w) -> Channel.clock (chst w) = false ->
  heap_ok (Channel.kheap (chst w)) -> on_kheap w -> procs w !! Channel.proc ch = Some p ->
  replies (open_request (Channel.slave_id ch) inode pid uid gid flags mode) (sstate p)
    (Driver.RespOpen (Channel.slave_id ch) oret (Some ino)) st1 -> is_s32 oret -> 0 <= ino < 2 ^ 31 ->
  room (Channel.kheap (chst w)) (sizeof_fiu_file_private + KMALLOC_OVERHEAD + (Channel.sizeof_channel_slave + KMALLOC_OVERHEAD +
    (msg_room 24 + (msg_room 8 + (msg_room 8 + msg_room 4))))) ->
  wp (fiu_open srv thread server_thread current (Datatypes.S turns) o inode pid uid gid flags mode) w (fun r w1 =>
    if oret <? 0 then r = (oret, 0) /\ given_back w w1 c ch
    else exists priv sl, r = (ino, priv) /\ files w1 = <[priv := {| slave := sl; ops := vops |}]> (files w) /\
      Channel.slavs (chst w1) = <[sl := new_slave c ch]> (Channel.slavs (chst w)) /\
      forall cret st2, replies (close_request (Channel.slave_id ch) inode) st1 (Driver.RespClose (Channel.slave_id ch) cret) st2 -> is_s32 cret ->
        wp (fiu_close srv thread server_thread (Datatypes.S turns) priv inode) w1 (fun r w2 => r = cret /\ given_back w w2 c ch)).
Proof.
  intros Hco Hc He Hid Hsl Hk Hok Hon Hp (Hq & Hd & Hout) Hr Hino Hroom. set (b4 := msg_room 8 + msg_room 4) in *.
  assert (KMALLOC_OVERHEAD < b4) as Hb4 by (unfold b4, msg_room, Channel.sizeof_channel_message, KMALLOC_OVERHEAD; lia).
  unfold fiu_open. apply wp_bind, wp_zoom, wp_zoom. eapply wp_mono.
  { apply (kmalloc_spec _ _ (Channel.sizeof_channel_slave + KMALLOC_OVERHEAD + (msg_room 24 + (msg_room 8 + b4)))); [done|done| |exact Hroom].
    right. unfold msg_room, Channel.sizeof_channel_slave, Channel.sizeof_channel_message, KMALLOC_OVERHEAD in *. lia. }
  intros priv h1 (Hok1 & Hpriv & Hnone1 & (n1 & _ & Hl1) & Hroom1). rewrite (proj2 (Z.eqb_neq _ _)) by lia.
  apply wp_bind. unfold wp at 1. rewrite (channel_of_chst _ _ _ _ Hco). apply wp_bind. eapply wp_mono.
  { eapply (open_slave_ok _ c ch (msg_room 24 + (msg_room 8 + b4))); [exact Hc|exact Hk|exact Hok1| |exact Hroom1].
    right. unfold msg_room, Channel.sizeof_channel_message, KMALLOC_OVERHEAD in *. lia. }
  intros r w1 (sl & h2 & -> & -> & Hslp & Hok2 & Hroom2 & Hnone2 & n2 & Hl2). simpl in Hnone2, Hl2. rewrite Z.ltb_irrefl.
  set (s1 := Channel.set_kheap h1 (chst w)). set (w1 := set_chst _ _).
  destruct (take_slave w c ch ws sl priv h1 h2 n1 n2) as (Hho & Hcn & Hni & Hfp); [done..|].
  apply wp_bind, wp_zoom. eapply wp_deref_slave; [apply Hcn|]. apply wp_bind. eapply wp_mono.
  { eapply (read_rw_ok srv _ _ _ _ _ _ _ ws p _ (encode_response junk (Driver.RespOpen (Channel.slave_id ch) oret (Some ino))) st1 _ turns b4);
      [exact Hcn|exact Hok2|exact Hp| | |simpl; lia|simpl; lia|simpl; lia|by right|exact Hroom2].
    - by apply (driver_handle dops junk (open_request _ _ _ _ _ _ _)).
    - by apply response_slave. }
  intros r w2 (-> & h3 & wk & Hok3 & Hroom3 & Hl3 & ->). pose proof (holding_exchanged w w1 sl priv c ch ws p st1 h3 wk Hho Hok3 Hl3) as Hho2.
  apply wp_bind. unfold fields. rewrite (decode_response junk (Driver.RespOpen _ _ _)). apply wp_ret. cbn [response_fields field nth default].
  rewrite (s32_cut oret) by done. destruct (oret <? 0).
  - apply (give_back_ok w _ sl priv c ch); [exact Hho2|done|done|]. intros ws2 h4 Hok4 Hl4. apply wp_ret.
    split; [done|]. split_and!; [done|done|done|by eexists _, ws2].
  - apply wp_bind, wp_modify, wp_ret. exists priv, sl. split_and!.
    + f_equal. apply (s32_cut ino). unfold is_s32. lia.
    + done.
    + apply (ho_slave _ _ _ _ _ _ Hho2).
    + intros cret st2 Hrep Hcret. eapply (fiu_close_ok w _ sl priv c ch (drop 1 ws) {| sstate := st1; sareas := sareas p |}); try done.
      * by destruct Hho2.
      * by apply (connected_settled (chst w1) sl c (new_slave c ch) (more_slave ch sl) ws).
      * simpl. apply lookup_insert_eq.
Qed.
End open.

(** ** Files on the memory disk *)

Section ramd.
Context {H : Type} `{KHeap H} `{Areas} (thread server_thread junk : Z).
Implicit Types (w : world (H := H) (S := Driver.proc Ramd.ramd_private)) (st : Driver.proc Ramd.ramd_private).
Import Ramd.

(** What the disk holds after a request, and the bytes the request is about. *)
Definition disk_after (op off : Z) (data d : list Z) : list Z := if op =? Driver.VFS_READ then d else disk_write d off data.
Definition disk_bytes (op off sz : Z) (data d : list Z) : list Z :=
  if op =? Driver.VFS_READ then disk_read d off (Z.to_nat sz) else take (covered d off (Z.to_nat sz)) data.

Definition disk_post st (op off sz : Z) (data d : list Z) (st' : Driver.proc ramd_private) (got : list Z) : Prop :=
  Driver.private st' = Driver.private st /\ disk_at (Driver.mem st') (Driver.private st) (disk_after op off data d) /\
  Stack.only (in_disk (Driver.private st)) (Driver.mem st) (Driver.mem st') /\ got = disk_bytes op off sz data d.

(** An area of unmapped memory is apart from the disk. *)
Lemma area_apart m ram d a sz : disk_at m ram d -> d <> [] -> 0 < sz -> (forall x, in_area a sz x -> m !! x = None) ->
  a + page_up sz <= data ram \/ data ram + size ram <= a.
Proof.
  intros [Hb _ Hs _] Hd Hsz Hnone. pose proof (page_up_ge sz ltac:(lia)). rewrite Hs.
  destruct (decide (a + page_up sz <= data ram)); [by left|]. destruct (decide (data ram + Z.of_nat (length d) <= a)); [by right|].
  assert (exists x, data ram <= x < data ram + Z.of_nat (length d) /\ in_area a sz x) as (x & Hx & Hxa).
  { destruct d; [done|]. unfold in_area. cbn [length] in *. exists (Z.max a (data ram)). lia. }
  pose proof (bytes_at_writable _ _ _ (length d) Hb ltac:(lia) x ltac:(lia)) as [y Hy]. by rewrite (Hnone x Hxa) in Hy.
Qed.

Lemma ramd_serves st d op i inode sz off data :
  disk_at (Driver.mem st) (Driver.private st) d -> d <> [] -> 0 < sz < 2 ^ 31 -> 0 <= off < 2 ^ 63 ->
  op = Driver.VFS_READ \/ op = Driver.VFS_WRITE ->
  serves ram_ops st op i inode sz off data (disk_post st op off sz data d).
Proof.
  intros Hd Hne Hsz Hoff Hop a m buf Ha Har Hnone Hm Hbuf Hch Hlen Hdata.
  pose proof (area_apart _ _ _ a sz Hd Hne ltac:(lia) Hnone) as Hap. pose proof (page_up_ge sz ltac:(lia)) as Hpg.
  set (r := {| Driver.rw_hdr := {| Driver.op := op |} |}). set (ram := Driver.private st) in *.
  assert (disk_at m ram d) as Hdm.
  { destruct Hd as [H1' H2' H3' H4']. split; [|done..]. eapply bytes_at_kept; [done|]. intros x Hx. apply Hm. unfold in_area. lia. }
  assert (buffer_at m ram r buf) as Hb.
  { split; [done|done|simpl; lia|simpl; lia|simpl; lia|]. simpl. lia. }
  pose proof (exchange_ok (Driver.set_out [] (Driver.set_mem m st)) r buf d Hdm Hb Hop) as Hw.
  apply wp_run in Hw as ([] & st' & Hrun & Hp & Ho & Hres). destruct (Hres (Driver.RespClose 0 0) []) as (Hdisk & Hgot & Hout). clear Hres.
  unfold spec_disk, spec_got, spec_resp in Hdisk, Hgot, Hout. simpl in Hdisk, Hgot, Hout, Hp, Ho.
  assert (length buf = Z.to_nat sz) as Hbl by lia. rewrite Hbl in Hout.
  assert (length (disk_bytes op off sz data d) = covered d off (Z.to_nat sz)) as Hdl.
  { unfold disk_bytes. destruct (Z.eqb_spec op Driver.VFS_READ) as [|Hr]; [apply length_disk_read; lia|].
    rewrite <-Hdata by (destruct Hop; done). rewrite length_take. unfold covered. lia. }
  exists st', (disk_bytes op off sz data d). rewrite Hdl. split_and!; [exact Hrun|exact Hout|unfold covered; lia| |].
  - intros ->. unfold disk_bytes. rewrite Z.eqb_refl in *. apply bytes_at_app in Hgot as [Hgot _]. by rewrite Hbl in Hgot.
  - assert (Stack.only (in_disk ram) (Driver.mem st) (UMem.unmap a (page_up sz) (Driver.mem st'))) as Hon.
    { destruct Ho as [Ho1 Ho2]. assert (forall x, ~ in_area a sz x -> ~ in_buffer r x) as Hout' by (unfold in_area, in_buffer; simpl; lia).
      split.
      - intros x Hx. destruct (decide (in_area a sz x)) as [Hin|Hin].
        + rewrite (Hnone x Hin). apply map_lookup_filter_None. right. intros c _ Hc. by apply Hc.
        + rewrite UMem.lookup_unmap by done. rewrite Ho1, Hm; [done|done|]. intros [?|?]; [done|by apply (Hout' x Hin)].
      - intros x [y Hy]. assert (~ in_area a sz x) as Hin by (intros Hin; by rewrite Hnone in Hy).
        rewrite UMem.lookup_unmap by done. apply Ho2. rewrite Hm by done. by exists y. }
    unfold disk_post. simpl. fold ram. split_and!; [done| |done|done]. unfold disk_after.
    assert (disk_at (Driver.mem st') ram (if op =? Driver.VFS_READ then d else disk_write d off data)) as Hfin.
    { destruct (Z.eqb_spec op Driver.VFS_READ); [done|]. by rewrite <-Hdata by (destruct Hop; done). }
    destruct Hfin as [H1' H2' H3' H4']. split; [|done..]. eapply bytes_at_kept; [done|]. intros x Hx. apply UMem.lookup_unmap.
    rewrite <-H3' in Hx. unfold UMem.in_block. lia.
Qed.

(** C29: A read or a write of a file on a memory disk, from the kernel to the driver and
    back: the request is mapped, sent over the channel, decoded and served, and the answer
    decoded.  The bytes read are those of the disk at the offset, a write changes the disk
    there, both are cut at its end, and the offset advances by what was done; or there is
    no memory for the buffer, and the disk is as it was.  In every case the buffer is
    unmapped, the messages are freed, the queues are empty, and of the memory of the driver
    nothing but the disk has changed. *)
Theorem fiu_ramd_io w priv f c x ch ws p d inode sz off data op b turns :
  files w !! priv = Some f -> Z.land (ops f) op <> 0 -> op = Driver.VFS_READ \/ op = Driver.VFS_WRITE ->
  connected (chst w) (slave f) c x ch ws -> heap_ok (Channel.kheap (chst w)) ->
  procs w !! Channel.proc ch = Some p -> areas_mapped p ->
  disk_at (Driver.mem (sstate p)) (Driver.private (sstate p)) d -> d <> [] ->
  0 < sz < 2 ^ 31 -> is_u32 inode -> 0 <= off < 2 ^ 63 ->
  (op = Driver.VFS_WRITE -> Z.of_nat (length data) = sz /\ Forall is_char data) ->
  b = 0 \/ KMALLOC_OVERHEAD < b -> room (Channel.kheap (chst w)) (msg_room 24 + (msg_room 8 + b)) ->
  let ram := Driver.private (sstate p) in let n := Z.of_nat (covered d off (Z.to_nat sz)) in
  wp (fiu_read_write (driver_server ram_ops junk) thread server_thread (Datatypes.S turns) priv inode sz off data op) w (fun r w' =>
    exists p' s', w' = set_procs (<[Channel.proc ch := p']> (procs w)) (set_chst s' w) /\
      settled (chst w) s' c b /\ sareas p' = sareas p /\ Driver.private (sstate p') = ram /\
      Stack.only (in_disk ram) (Driver.mem (sstate p)) (Driver.mem (sstate p')) /\
      ((r = (- ENOMEM, off, []) /\ disk_at (Driver.mem (sstate p')) ram d) \/
       (r = (n, off + n, if op =? Driver.VFS_READ then disk_read d off (Z.to_nat sz) else []) /\
        disk_at (Driver.mem (sstate p')) ram (disk_after op off data d)))).
Proof.
  intros Hf Hmask Hop Hcn Hok Hp Ham Hd Hne Hsz Hino Hoff Hdata Hb Hroom ram n.
  eapply wp_mono; [eapply rdwr_ok; try done; by apply ramd_serves|].
  intros r w' (p' & s' & -> & Hset & Hareas & Hres). exists p', s'. split_and!; [done..| | |].
  - destruct Hres as [[_ ->]|(got & (Hpr & _) & _)]; done.
  - destruct Hres as [[_ ->]|(got & (_ & _ & Ho & _) & _)]; done.
  - destruct Hres as [[-> ->]|(got & (_ & Hdisk & _ & ->) & [[-> ->]| ->])].
    + by left.
    + left. unfold disk_after in Hdisk. rewrite Z.eqb_refl in Hdisk. done.
    + right. split; [|done]. assert (length (disk_bytes op off sz data d) = covered d off (Z.to_nat sz)) as ->.
      { unfold disk_bytes. destruct (Z.eqb_spec op Driver.VFS_READ); [apply length_disk_read; lia|].
        destruct Hdata as [Hl _]; [by destruct Hop|]. rewrite length_take. unfold covered. lia. }
      unfold disk_bytes. by destruct (op =? Driver.VFS_READ).
Qed.
End ramd.

(** ** Theorems on the messages *)



(** ** Samples: the memory disk and the null device, both at the channel 2020 *)

#[local] Existing Instance Kmalloc.kmalloc_kheap.

(** One area, at 1 MiB. *)
Definition sample_place (m : bmem) (n : Z) : Z :=
  if (n <? 2 ^ 20) && bool_decide (filter (fun x => 2 ^ 20 <= x.1 < 2 ^ 20 + n) m = ∅) then 2 ^ 20 else 0.

#[local] Instance sample_areas : Areas.
Proof.
  refine {| place := sample_place; fresh := fun _ => 0; window := fun _ => true |}.
  - done.
  - intros m n Hn. unfold sample_place. destruct (Z.ltb_spec n (2 ^ 20)) as [Hl|]; [|by left].
    case_bool_decide as He; [right|by left]. simpl. split_and!; [lia|lia|]. intros x Hx.
    destruct (m !! x) as [y|] eqn:E; [|done]. assert (filter (fun x => 2 ^ 20 <= x.1 < 2 ^ 20 + n) m !! x = Some y) as Hs by by apply map_lookup_filter_Some.
    by rewrite He in Hs.
Defined.

Definition sample_channel : Channel.channel :=
  {| Channel.name := [114; 97; 109; 100; 49]; Channel.slave_id := 1; Channel.proc := 1; Channel.ep := Channel.idle [] [];
     Channel.slaves := [2116] |}.
Definition sample_client : Channel.channel_slave :=
  {| Channel.id := 0; Channel.parent := 2020; Channel.slave_proc := 2; Channel.slave_ep := Channel.idle [] [] |}.
Definition sample_channels : Channel.state Kmalloc.heap := {|
  Channel.clock := false; Channel.channels := [2020]; Channel.chans := {[ 2020 := sample_channel ]};
  Channel.slavs := {[ 2116 := sample_client ]}; Channel.woken := []; Channel.kheap := Channel.chan_heap;
|}.
Definition sample_device : Device.device :=
  {| Device.name := [114; 97; 109; 100; 49]; Device.active := true; Device.id := 0; Device.pid := 1;
     Device.ops := 15; Device.f_ops := 0; Device.private := 77 |}.
Definition sample_world {X} (st : Driver.proc X) : world := {|
  chst := sample_channels; devs := {| Device.device_lock := false; Device.devices := [sample_device]; Device.devfs_lock := false; Device.mounted := false |};
  fss := ∅; insts := ∅; dev_privs := {[ 77 := 2020 ]}; files := {[ 2188 := {| slave := 2116; ops := 15 |} ]};
  procs := {[ 1 := {| sstate := st; sareas := ∅ |} ]};
|}.
Definition sample_disk : Driver.proc Ramd.ramd_private := {|
  Driver.mem := store_bytes 1000 [1; 2; 3; 4] ∅; Driver.private := {| Ramd.size := 4; Ramd.data := 1000 |};
  Driver.running := 1; Driver.out := []; Driver.uprints := [];
|}.

Lemma sample_connections_ok : Channel.slaves_ok 2020 sample_channels.
Proof.
  exists sample_channel. split_and!; [done|apply NoDup_singleton|]. intros a Ha%list_elem_of_singleton. subst a.
  split; [done|]. by exists sample_client.
Qed.

Lemma sample_connected : connected sample_channels 2116 2020 sample_client sample_channel [].
Proof. split; try done; [by exists []|apply sample_connections_ok]. Qed.

Lemma sample_disk_at : Ramd.disk_at (Driver.mem sample_disk) (Driver.private sample_disk) [1; 2; 3; 4].
Proof. split; [apply bytes_at_store_bytes|by repeat constructor|done|simpl; lia]. Qed.

Lemma fiu_ramd_io_witness : exists r w',
  fiu_read_write (driver_server Ramd.ram_ops 0) 7 8 1 2188 0 3 2 [] Driver.VFS_READ (sample_world sample_disk) = Done (r, w') /\
  (r = (- ENOMEM, 2, []) \/ r = (2, 4, [3; 4])).
Proof.
  assert (areas_mapped (X := Ramd.ramd_private) {| sstate := sample_disk; sareas := ∅ |}) as Ham by done.
  assert (room (Channel.kheap sample_channels) (msg_room 24 + (msg_room 8 + 0))) as Hr by (apply Channel.chan_heap_room; by vm_compute).
  pose proof (fiu_ramd_io 7 8 0 (sample_world sample_disk) 2188 {| slave := 2116; ops := 15 |} 2020 sample_client sample_channel []
    {| sstate := sample_disk; sareas := ∅ |} [1; 2; 3; 4] 0 3 2 [] Driver.VFS_READ 0 0) as Hw.
  specialize (Hw eq_refl ltac:(done) ltac:(by left) sample_connected Channel.chan_heap_ok eq_refl Ham sample_disk_at ltac:(done)
    ltac:(lia) ltac:(unfold is_u32; lia) ltac:(lia) ltac:(done) ltac:(by left) Hr).
  destruct (proj1 (wp_run _ _ _) Hw) as (r & w' & Hrun & p' & s' & _ & _ & _ & _ & _ & Hres). clear Hw. exists r, w'.
  split; [exact Hrun|]. destruct Hres as [[Hr' _]|[Hr' _]]; [left|right]; exact Hr'.
Defined.



Lemma fiu_open_close_witness : exists priv w1 w2,
  fiu_open (driver_server NullDriver.null_ops 0) 7 8 2 1 (OnDevice 0) 0 2 0 0 0 0 (sample_world NullDriver.null_proc) = Done ((0, priv), w1) /\
  fiu_close (driver_server NullDriver.null_ops 0) 7 8 1 priv 0 w1 = Done (0, w2) /\ given_back (sample_world NullDriver.null_proc) w2 2020 sample_channel.
Proof.
  set (w := sample_world NullDriver.null_proc). set (p := {| sstate := NullDriver.null_proc; sareas := ∅ |}).
  assert (on_kheap w) as Hon.
  { split; intros a [y Hy]; cbn in Hy; apply lookup_singleton_Some in Hy as [<- _]; by eexists. }
  assert (replies NullDriver.null_ops (open_request 1 0 2 0 0 0 0) NullDriver.null_proc (Driver.RespOpen 1 0 (Some 0))
    (Driver.set_out [Driver.RespOpen 1 0 (Some 0)] NullDriver.null_proc)) as Ho.
  { split; [|done]. split; [by vm_compute|]. split_and!; by vm_compute. }
  assert (replies NullDriver.null_ops (close_request 1 0) (Driver.set_out [Driver.RespOpen 1 0 (Some 0)] NullDriver.null_proc) (Driver.RespClose 1 0)
    (Driver.set_out [Driver.RespClose 1 0] NullDriver.null_proc)) as Hc.
  { split; [|done]. split; [by vm_compute|]. split_and!; by vm_compute. }
  assert (is_s32 0) as Hz by by vm_compute.
  assert (room (Channel.kheap (chst w)) (sizeof_fiu_file_private + KMALLOC_OVERHEAD + (Channel.sizeof_channel_slave + KMALLOC_OVERHEAD +
    (msg_room 24 + (msg_room 8 + (msg_room 8 + msg_room 4)))))) as Hr by (apply Channel.chan_heap_room; by vm_compute).
  pose proof (fiu_open_close NullDriver.null_ops 7 8 0 2 w (OnDevice 0) 2020 15 sample_channel [] p 0 2 0 0 0 0 0 0 _ 0 eq_refl eq_refl eq_refl
    ltac:(simpl; lia) sample_connections_ok eq_refl Channel.chan_heap_ok Hon eq_refl Ho Hz ltac:(lia) Hr) as Hw.
  destruct (proj1 (wp_run _ _ _) Hw) as (r & w1 & Hrun & priv & sl & Hr1 & _ & _ & Hclose). clear Hw.
  specialize (Hclose 0 (Driver.set_out [Driver.RespClose 1 0] NullDriver.null_proc)). rewrite Hr1 in Hrun.
  specialize (Hclose Hc Hz). destruct (proj1 (wp_run _ _ _) Hclose) as (r2 & w2 & Hrun2 & Hr2 & Hg). clear Hclose.
  rewrite Hr2 in Hrun2. exists priv, w1, w2. split; [exact Hrun|]. split; [exact Hrun2|exact Hg].
Defined.

End FiuSpec.
