(* ===== verification/InitConf.v ===== *)
(** The configuration of init: userland/bin/init/src/config.c and config.h.

    The text of the file and the strings of the entries are in the memory of the process
    ([UMem]); the structures are kept by their address, each with its block of the heap.
    [parse_text] is the language of the file, without memory: the theorems of
    [InitConfSpec] compare the parser with it. *)

From S2P Require Import Prelude KString Stack Malloc UMem Numbers.

Module InitConf.

Definition INIT_HIGHEST_PRIO : Z := 0.
Definition INIT_LOWEST_PRIO : Z := 20.
Definition INIT_NB_PRIO : Z := INIT_LOWEST_PRIO + 1 - INIT_HIGHEST_PRIO.

Record init_prio_entry := {
  bin : Z;
  argv : Z;
  tty : Z;
  device : Z;
  launched : Z;
  ready : Z;
  next : Z;
}.

Definition set_bin (a : Z) (e : init_prio_entry) : init_prio_entry :=
  {| bin := a; argv := argv e; tty := tty e; device := device e; launched := launched e; ready := ready e; next := next e |}.
Definition set_argv (a : Z) (e : init_prio_entry) : init_prio_entry :=
  {| bin := bin e; argv := a; tty := tty e; device := device e; launched := launched e; ready := ready e; next := next e |}.
Definition set_tty (a : Z) (e : init_prio_entry) : init_prio_entry :=
  {| bin := bin e; argv := argv e; tty := a; device := device e; launched := launched e; ready := ready e; next := next e |}.
Definition set_device (a : Z) (e : init_prio_entry) : init_prio_entry :=
  {| bin := bin e; argv := argv e; tty := tty e; device := a; launched := launched e; ready := ready e; next := next e |}.
Definition set_launched (v : Z) (e : init_prio_entry) : init_prio_entry :=
  {| bin := bin e; argv := argv e; tty := tty e; device := device e; launched := v; ready := ready e; next := next e |}.
Definition set_ready (v : Z) (e : init_prio_entry) : init_prio_entry :=
  {| bin := bin e; argv := argv e; tty := tty e; device := device e; launched := launched e; ready := v; next := next e |}.
Definition set_next (a : Z) (e : init_prio_entry) : init_prio_entry :=
  {| bin := bin e; argv := argv e; tty := tty e; device := device e; launched := launched e; ready := ready e; next := a |}.

Record init_conf := {
  entries : list Z;
  number_of_entries : Z;
}.

Definition sizeof_entry : Z := 28.
Definition sizeof_conf : Z := 4 * INIT_NB_PRIO + 4.

(** The characters of a literal. *)
Fixpoint text (s : string) : list Z :=
  match s with
  | EmptyString => []
  | String a s => Z.of_nat (Ascii.nat_of_ascii a) :: text s
  end.

(** ** The code *)

Section ops.
Context {H : Type} `{UMemory H}.

(** [garbage] is what a new entry holds. *)
Context (garbage : init_prio_entry).

Record state := {
  proc : UMem.uproc H;
  ents : gmap Z init_prio_entry;
  confs : gmap Z init_conf;
  said : list (list Z);
}.

Definition set_proc (p : UMem.uproc H) (s : state) : state :=
  {| proc := p; ents := ents s; confs := confs s; said := said s |}.
Definition set_ents (m : gmap Z init_prio_entry) (s : state) : state :=
  {| proc := proc s; ents := m; confs := confs s; said := said s |}.
Definition set_confs (m : gmap Z init_conf) (s : state) : state :=
  {| proc := proc s; ents := ents s; confs := m; said := said s |}.
Definition set_said (l : list (list Z)) (s : state) : state :=
  {| proc := proc s; ents := ents s; confs := confs s; said := l |}.

Definition in_proc {A} (m : M (UMem.uproc H) A) : M state A := zoom proc set_proc m.
Definition in_mem {A} (m : M bmem A) : M state A := in_proc (UMem.on_umem m).
Definition uprint (t : list Z) : M state unit := modify (fun s => set_said (said s ++ [t]) s).

Definition entry_at (a : Z) : M state init_prio_entry :=
  let! s := get in
  match ents s !! a with Some e => ret e | None => undef end.
Definition update (a : Z) (f : init_prio_entry -> init_prio_entry) : M state unit :=
  let! e := entry_at a in
  modify (fun s => set_ents (<[a := f e]> (ents s)) s).
Definition conf_at (a : Z) : M state init_conf :=
  let! s := get in
  match confs s !! a with Some c => ret c | None => undef end.

Definition malloc_entry : M state Z :=
  let! a := in_proc (UMem.umalloc sizeof_entry) in
  if a =? 0 then ret 0
  else modify (fun s => set_ents (<[a := garbage]> (ents s)) s) ;;; ret a.
Definition free_entry (a : Z) : M state unit :=
  in_proc (UMem.ufree a) ;;;
  modify (fun s => set_ents (delete a (ents s)) s).

Definition init_conf_create : M state Z :=
  let! a := in_proc (UMem.umalloc sizeof_conf) in
  if a =? 0 then ret 0
  else
    modify (fun s => set_confs (<[a := {| entries := replicate (Z.to_nat INIT_NB_PRIO) 0; number_of_entries := 0 |}]> (confs s)) s) ;;;
    ret a.

(** What [fstat] and [read] give: the size, and the error or the bytes of a read of so
    many bytes at the position. *)
Context (fd_size : option Z) (fd_read : Z -> Z -> Z + list Z).

Fixpoint read_loop (fuel : nat) (config_text tmp st_size : Z) : M state (option Z) :=
  if st_size >? 0 then
    match fuel with
    | O => fun _ => Spin
    | S fuel =>
        match fd_read (tmp - config_text) (u32 st_size) with
        | inl _ => in_proc (UMem.ufree config_text) ;;; ret None
        | inr l =>
            in_mem (UMem.store_all tmp l) ;;;
            read_loop fuel config_text (tmp + Z.of_nat (length l)) (st_size - Z.of_nat (length l))
        end
    end
  else ret (Some tmp).

Definition read_conf_from_fd (fuel : nat) : M state (option Z) :=
  match fd_size with
  | None => ret None
  | Some st_size =>
      let! config_text := in_proc (UMem.umalloc (u32 (st_size + 1))) in
      if config_text =? 0 then ret None
      else
        let! r := read_loop fuel config_text config_text st_size in
        match r with
        | None => ret None
        | Some tmp => in_mem (store tmp 0) ;;; ret (Some config_text)
        end
  end.

(** [comma] is where the literal of the delimiter is. *)
Context (fuel : nat) (comma : Z).

Definition free_strings (e : init_prio_entry) : M state unit :=
  in_proc (UMem.ufree (bin e)) ;;;
  in_proc (UMem.ufree (argv e)) ;;;
  in_proc (UMem.ufree (tty e)) ;;;
  in_proc (UMem.ufree (device e)).

Definition mem_error (a : Z) : M state Z :=
  uprint (text "Init: Not enough memory") ;;;
  (if a =? 0 then ret tt
   else
     let! e := entry_at a in
     free_strings e ;;;
     free_entry a) ;;;
  ret (-1).

(** A string of the entry at [a], copied; [k] goes on when there was memory. *)
Definition copy_field (a s : Z) (set : Z -> init_prio_entry -> init_prio_entry) (k : M state Z) : M state Z :=
  let! p := in_proc (UMem.strdup fuel s) in
  update a (set p) ;;;
  if p =? 0 then mem_error a else k.

Definition link_entry (conf priority a : Z) : M state Z :=
  let! c := conf_at conf in
  match entries c !! Z.to_nat priority with
  | None => undef
  | Some head =>
      update a (set_next head) ;;;
      modify (fun s => set_confs (<[conf := {| entries := <[Z.to_nat priority := a]> (entries c);
                                               number_of_entries := number_of_entries c |}]> (confs s)) s) ;;;
      ret 0
  end.

(** The part of [import_entry] that makes the entry. *)
Definition fill_entry (conf priority binary_str argv_str tty_str device_str : Z) : M state Z :=
  let! a := malloc_entry in
  if a =? 0 then mem_error 0
  else
    update a (fun e => set_ready 0 (set_launched 0 (set_device 0 (set_tty 0 (set_argv 0 (set_bin 0 e)))))) ;;;
    copy_field a binary_str set_bin (
    copy_field a argv_str set_argv (
    copy_field a tty_str set_tty (
      let! n := (if device_str =? 0 then ret 0 else in_mem (LibcString.strlen fuel device_str)) in
      if n >? 0 then copy_field a device_str set_device (link_entry conf priority a)
      else link_entry conf priority a))).

Definition import_entry (entry conf : Z) : M state Z :=
  let! '(priority_str, save_end) := in_mem (LibcString.strtok_r fuel entry comma 0) in
  let! '(binary_str, save_end) := in_mem (LibcString.strtok_r fuel 0 comma save_end) in
  let! '(argv_str, save_end) := in_mem (LibcString.strtok_r fuel 0 comma save_end) in
  let! '(tty_str, save_end) := in_mem (LibcString.strtok_r fuel 0 comma save_end) in
  let device_str := save_end in
  if (priority_str =? 0) || (binary_str =? 0) || (argv_str =? 0) || (tty_str =? 0) then
    uprint (text "Init: Invalid entry format") ;;; ret (-1)
  else
    let! '(priority, save_end) := in_mem (Numbers.strtol fuel priority_str 10) in
    let! c := in_mem (load save_end) in
    if negb (c =? 0) || (priority >? INIT_LOWEST_PRIO) || (priority <? INIT_HIGHEST_PRIO) then
      uprint (text "Init: Invalid priority") ;;; ret (-1)
    else
      fill_entry conf priority binary_str argv_str tty_str device_str.

Fixpoint seek_eol (fuel : nat) (cur : Z) : M bmem Z :=
  match fuel with
  | O => undef
  | S fuel =>
      let! c := load cur in
      if (c =? 0) || (c =? 10) then ret cur else seek_eol fuel (cur + 1)
  end.

Fixpoint skip_blank (fuel : nat) (entry : Z) : M bmem Z :=
  match fuel with
  | O => undef
  | S fuel =>
      let! c := load entry in
      if (c =? 9) || (c =? 32) then skip_blank fuel (entry + 1) else ret entry
  end.

(** The loop of [init_conf_parse]: 0, or -1 when an entry is not imported. *)
Fixpoint parse_loop (lines : nat) (cur conf : Z) : M state Z :=
  match lines with
  | O => undef
  | S lines =>
      let entry := cur in
      let! cur := in_mem (seek_eol fuel cur) in
      let! c := in_mem (load cur) in
      let continue := if c =? 0 then ret 0 else parse_loop lines (cur + 1) conf in
      in_mem (store cur 0) ;;;
      let! entry := in_mem (skip_blank fuel entry) in
      if cur =? entry then continue
      else
        let! first := in_mem (load entry) in
        if first =? 35 then continue
        else
          let! r := import_entry entry conf in
          if r <? 0 then ret (-1) else continue
  end.

Definition init_conf_parse (conf : Z) : M state Z :=
  let! t := read_conf_from_fd fuel in
  match t with
  | None => ret (-1)
  | Some config_text =>
      let! r := parse_loop fuel config_text conf in
      in_proc (UMem.ufree config_text) ;;;
      ret r
  end.

Fixpoint destroy_entries (n : nat) (entry : Z) : M state unit :=
  if entry =? 0 then ret tt
  else match n with
  | O => undef
  | S n =>
      let! e := entry_at entry in
      free_strings e ;;;
      free_entry entry ;;;
      destroy_entries n (next e)
  end.

Fixpoint destroy_levels (n : nat) (l : list Z) : M state unit :=
  match l with
  | [] => ret tt
  | a :: l => destroy_entries n a ;;; destroy_levels n l
  end.

(** [entries] has one head for each priority; [n] bounds the length of a list. *)
Definition init_conf_destroy (n : nat) (conf : Z) : M state unit :=
  if conf =? 0 then ret tt
  else
    let! c := conf_at conf in
    destroy_levels n (entries c) ;;;
    in_proc (UMem.ufree conf) ;;;
    modify (fun s => set_confs (delete conf (confs s)) s).

End ops.
Arguments state : clear implicits.

(** ** The language of the file *)

Record item := {
  i_prio : Z;
  i_bin : list Z;
  i_argv : list Z;
  i_tty : list Z;
  i_device : list Z;
}.

(** What precedes the first comma, and what follows it. *)
Fixpoint token (s : list Z) : list Z * list Z :=
  match s with
  | [] => ([], [])
  | c :: s => if c =? 44 then ([], s) else let '(t, r) := token s in (c :: t, r)
  end.

(** The number at the start of a text in base 10, and what follows it. *)
Fixpoint number_digits (s : list Z) (n : Z) : Z * list Z :=
  match s with
  | [] => (n, [])
  | c :: s' => if Numbers.isdigit c then number_digits s' (s32 (s32 (n * 10) + (c - 48))) else (n, s)
  end.
Fixpoint drop_space (s : list Z) : list Z :=
  match s with
  | [] => []
  | c :: s' => if Numbers.isspace c then drop_space s' else s
  end.
(** The sign of a text, and what follows it. *)
Definition signed (s : list Z) : Z * list Z :=
  match s with
  | [] => (1, [])
  | c :: s' => if c =? 45 then (-1, s') else if c =? 43 then (1, s') else (1, s)
  end.
Definition number (s : list Z) : Z * list Z :=
  let '(sign, s) := signed (drop_space s) in
  let '(n, r) := number_digits s 0 in
  (s32 (sign * n), r).

(** The priority, which is all of the text of the first field. *)
Definition priority_of (s : list Z) : option Z :=
  let '(n, r) := number s in
  if negb (bool_decide (r = [])) || (n >? INIT_LOWEST_PRIO) || (n <? INIT_HIGHEST_PRIO) then None else Some n.

Definition parse_entry (l : list Z) : option item :=
  let '(priority, l) := token l in
  let '(binary, l1) := token l in
  let '(args, l2) := token l1 in
  let '(term, dev) := token l2 in
  if bool_decide (l = []) || bool_decide (l1 = []) || bool_decide (l2 = []) then None
  else
    match priority_of priority with
    | None => None
    | Some n => Some {| i_prio := n; i_bin := binary; i_argv := args; i_tty := term; i_device := dev |}
    end.

Fixpoint trim (l : list Z) : list Z :=
  match l with
  | [] => []
  | c :: l' => if (c =? 9) || (c =? 32) then trim l' else l
  end.

(** Blank lines and comments have no item. *)
Definition parse_line (l : list Z) : option (option item) :=
  match trim l with
  | [] => Some None
  | c :: l => if c =? 35 then Some None else Some <$> parse_entry (c :: l)
  end.

Fixpoint lines (t : list Z) : list (list Z) :=
  match t with
  | [] => [[]]
  | c :: t =>
      if c =? 10 then [] :: lines t
      else match lines t with
           | [] => [[c]]
           | l :: ls => (c :: l) :: ls
           end
  end.

(** The items before the first bad line, and whether there is none. *)
Fixpoint parse_lines (ls : list (list Z)) : list item * bool :=
  match ls with
  | [] => ([], true)
  | l :: ls =>
      match parse_line l with
      | None => ([], false)
      | Some None => parse_lines ls
      | Some (Some it) => let '(its, good) := parse_lines ls in (it :: its, good)
      end
  end.
Definition parse_text (t : list Z) : list item * bool := parse_lines (lines t).

(** The items by priority; the last of the file comes first. *)
Definition add_item (ls : list (list item)) (it : item) : list (list item) := alter (cons it) (Z.to_nat (i_prio it)) ls.
Definition by_priority (its : list item) : list (list item) := foldl add_item (replicate (Z.to_nat INIT_NB_PRIO) []) its.

End InitConf.
