(* ===== verification/InitConfSpec.v ===== *)
(** Theorems on the configuration of init ([InitConf]): the parser reads the language of
    the file, for every text and whatever memory there is, and creating, filling and
    destroying a configuration gives back what it took. *)

From S2P Require Import Prelude KString Stack Malloc UMem Numbers InitConf.

Module InitConfSpec.
Import Stack InitConf UMem.

(** ** Tokens and numbers in memory *)

Lemma token_length s : (length (token s).1 + length (token s).2 <= length s)%nat.
Proof.
  induction s as [|c s IH]; simpl; [lia|]. destruct (c =? 44); simpl; [lia|]. destruct (token s) as [t r]. simpl in *. lia.
Qed.

Lemma token_split s : Forall (fun c => c <> 44) (token s).1 /\
  (s = (token s).1 /\ (token s).2 = [] \/ s = (token s).1 ++ 44 :: (token s).2).
Proof.
  induction s as [|c s [IHf IH]]; simpl; [split; [constructor|by left]|]. destruct (Z.eqb_spec c 44) as [->|Hc]; simpl.
  { split; [constructor|by right]. }
  destruct (token s) as [t r]. simpl in *. split; [by constructor|]. destruct IH as [[-> ->]| ->]; [by left|by right].
Qed.

Definition span (a : Z) (l : list Z) (x : Z) : Prop := a <= x < a + Z.of_nat (length l).

(** A call of [strtok_r] on the rest of a string, which is not empty. *)
Lemma strtok_ok m a t d str saveptr fuel :
  cstr m a t -> t <> [] -> cstr m d [44] -> a + Z.of_nat (length t) < d \/ d + 1 < a ->
  (length t + 1 < fuel)%nat -> str = a /\ a <> 0 \/ str = 0 /\ saveptr = a ->
  wp (LibcString.strtok_r fuel str d saveptr) m (fun r m' => r.1 = a /\ only (span a t) m m' /\ cstr m' a (token t).1 /\
    cstr m' r.2 (token t).2 /\ a + Z.of_nat (length (token t).1) <= r.2 /\
    r.2 + Z.of_nat (length (token t).2) <= a + Z.of_nat (length t) /\ ((token t).2 <> [] -> a + Z.of_nat (length (token t).1) < r.2)).
Proof.
  intros Hc Ht Hd Hap Hf Hstr. destruct (token_split t) as [Hn Hsp]. set (tok := (token t).1) in *. set (rest := (token t).2) in *.
  unfold LibcString.strtok_r, KString.strtok_r. destruct t as [|c t]; [done|].
  pose proof (proj1 (cstr_cons _ _ _ _) Hc) as (Hc0 & _ & Hne & _).
  apply wp_bind, (wp_mono _ _ (fun b m' => b = false /\ m' = m)).
  { destruct Hstr as [[-> Ha]|[-> ->]].
    - rewrite (proj2 (Z.eqb_neq a 0)) by done. by apply wp_ret.
    - cbn [Z.eqb]. apply wp_bind. eapply wp_load; [done|]. apply wp_ret. split; [|done]. by apply Z.eqb_neq. }
  intros ? ? [-> ->]. replace (if str =? 0 then saveptr else str) with a
    by (destruct Hstr as [[-> Ha]|[-> ->]]; [by rewrite (proj2 (Z.eqb_neq a 0))|done]).
  assert (Forall (fun c => c ∉ [44]) tok) as Hn' by (eapply Forall_impl; [done|]; intros x Hx; set_solver).
  apply wp_bind. destruct Hsp as [[Et Er]|Et]; rewrite Et in Hc, Hap, Hf |- *.
  - eapply wp_mono; [by apply (strtok_scan_end m a tok d [44]); [| |done|simpl; lia]|].
    intros r ? [-> ->]. apply wp_ret. rewrite Er. simpl. split_and!; [done|apply only_refl|done| |lia..|done].
    destruct Hc as [Hb _]. apply bytes_at_app in Hb as [_ Hb]. split; [done|constructor].
  - rewrite length_app in Hap, Hf. simpl in Hap, Hf.
    eapply wp_mono; [apply (strtok_scan_token m a tok 44 rest d [44]); [done..|set_solver|simpl; lia|simpl; lia]|].
    intros r ? [-> ->]. apply wp_ret. simpl. destruct Hc as [Hb Hch]. rewrite <-app_assoc in Hb. apply bytes_at_app in Hb as [Hbt Hbr].
    apply Forall_app in Hch as [Hct Hcr]. apply Forall_cons in Hcr as [_ Hcr]. destruct Hbr as [Hbx Hbr].
    rewrite length_app. simpl. split_and!; [done| | | |lia..].
    + split; [intros x Hx; apply lookup_insert_ne; unfold span in Hx; rewrite length_app in Hx; simpl in Hx; lia|].
      intros x Hx. by apply lookup_insert_is_Some'; right.
    + split; [|done]. apply bytes_at_app. split; [apply bytes_at_frame; [done|lia]|]. simpl. split; [|done]. apply lookup_insert_eq.
    + split; [|done]. apply bytes_at_frame; [done|]. lia.
Qed.

(** A call when nothing is left. *)
Lemma strtok_none m a d fuel : m !! a = Some 0 -> wp (LibcString.strtok_r fuel 0 d a) m (fun r m' => r = (0, a) /\ m' = m).
Proof. intros Ha. unfold LibcString.strtok_r, KString.strtok_r. apply wp_bind, wp_bind. eapply wp_load; [done|]. by apply wp_ret, wp_ret. Qed.

Lemma next_token m a t d fuel :
  cstr m a t -> cstr m d [44] -> a + Z.of_nat (length t) < d \/ d + 1 < a -> (length t + 1 < fuel)%nat ->
  wp (LibcString.strtok_r fuel 0 d a) m (fun r m' => r.1 = (if bool_decide (t = []) then 0 else a) /\ only (span a t) m m' /\
    cstr m' a (token t).1 /\ cstr m' r.2 (token t).2 /\ a + Z.of_nat (length (token t).1) <= r.2 /\
    r.2 + Z.of_nat (length (token t).2) <= a + Z.of_nat (length t) /\ ((token t).2 <> [] -> a + Z.of_nat (length (token t).1) < r.2)).
Proof.
  intros Hc Hd Hap Hf. destruct (decide (t = [])) as [->|Ht].
  - eapply wp_mono; [apply strtok_none, Hc|]. intros r m' [-> ->]. simpl. split_and!; try done; lia.
  - rewrite bool_decide_eq_false_2 by done. apply strtok_ok; auto.
Qed.

(** [strtol] in base 10 on any text. *)
Lemma skip_space_ok m t : forall a fuel, cstr m a t -> (length t < fuel)%nat ->
  wp (Numbers.skip_space fuel a) m (fun r m' => m' = m /\ cstr m r (drop_space t)).
Proof.
  induction t as [|c t IH]; intros a [|fuel] Hc Hf; simpl in Hf; try lia; cbn [Numbers.skip_space].
  - apply wp_bind. eapply wp_load; [apply Hc|]. by apply wp_ret.
  - pose proof (proj1 (cstr_cons _ _ _ _) Hc) as (Hx & _ & _ & Ht). apply wp_bind. eapply wp_load; [done|]. simpl.
    destruct (Numbers.isspace c); [apply IH; [done|lia]|by apply wp_ret].
Qed.

Lemma alpha_large c : Numbers.isalpha c = true -> c - (if Numbers.isupper c then 55 else 87) >= 10.
Proof. unfold Numbers.isalpha, Numbers.isupper. intros Hc. destruct ((c >=? 65) && (c <=? 90)) eqn:E; rewrite ?E in Hc; lia. Qed.

Lemma number_loop_ok m t : forall a n fuel, cstr m a t -> (length t < fuel)%nat ->
  wp (Numbers.strtol_loop fuel a 10 n) m (fun r m' => m' = m /\ r.1 = (number_digits t n).1 /\ cstr m r.2 (number_digits t n).2).
Proof.
  induction t as [|c t IH]; intros a n [|fuel] Hc Hf; simpl in Hf; try lia; cbn [Numbers.strtol_loop].
  - apply wp_bind. eapply wp_load; [apply Hc|]. by apply wp_ret.
  - pose proof (proj1 (cstr_cons _ _ _ _) Hc) as (Hx & _ & Hn & Ht). apply wp_bind. eapply wp_load; [done|]. simpl.
    rewrite (proj2 (Z.eqb_neq c 0)) by done. unfold Numbers.digit_of. destruct (Numbers.isdigit c) eqn:Ed.
    + unfold Numbers.isdigit in Ed. rewrite Z.geb_leb, (proj2 (Z.leb_gt 10 _)) by lia. apply IH; [done|lia].
    + destruct (Numbers.isalpha c) eqn:Ea; [|by apply wp_ret]. pose proof (alpha_large c Ea).
      rewrite Z.geb_leb, (proj2 (Z.leb_le 10 _)) by lia. by apply wp_ret.
Qed.

Lemma strtol_text m a t fuel : cstr m a t -> (length t < fuel)%nat ->
  wp (Numbers.strtol fuel a 10) m (fun r m' => m' = m /\ r.1 = (number t).1 /\ cstr m r.2 (number t).2).
Proof.
  intros Hc Hf. unfold number, Numbers.strtol. apply wp_bind.
  eapply wp_mono; [by apply (skip_space_ok m t)|]. intros b m' [-> Hb].
  assert (length (drop_space t) <= length t)%nat as Hl by (clear; induction t as [|c t IH]; simpl; [lia|]; destruct (Numbers.isspace c); simpl; lia).
  assert (exists c, m !! b = Some c /\ let k := if c =? 45 then -1 else 1 in
    let d := if (c =? 45) || (c =? 43) then b + 1 else b in (signed (drop_space t)).1 = k /\ cstr m d (signed (drop_space t)).2 /\
    (length (signed (drop_space t)).2 <= length t)%nat) as (c & Hx & Hk & Hd & Hlu).
  { destruct (drop_space t) as [|c u]; [exists 0; split; [apply Hb|]; simpl; split_and!; [done|done|lia]|].
    pose proof (proj1 (cstr_cons _ _ _ _) Hb) as (Hx & _ & _ & Hu). exists c. split; [done|]. simpl in *.
    destruct (c =? 45); simpl; [split_and!; [done|done|lia]|]. destruct (c =? 43); simpl; split_and!; try done; lia. }
  destruct (signed (drop_space t)) as [k u]. simpl in Hk, Hd, Hlu. apply wp_bind. eapply wp_load; [done|]. cbv zeta.
  set (d := if _ || _ then _ else b) in *. apply wp_bind. unfold Numbers.strtol_base. apply wp_bind.
  assert (exists x, m !! d = Some x) as [x Hdx] by (destruct u; [exists 0; apply Hd|apply cstr_cons in Hd as [? _]; eauto]).
  eapply wp_load; [done|]. apply wp_bind. cbn. apply wp_ret, wp_ret, wp_bind.
  eapply wp_mono; [apply (number_loop_ok m u); [done|lia]|]. intros [n e] m' (-> & En & He). destruct (number_digits u 0). simpl in En, He. apply wp_ret. simpl. by rewrite Hk, En.
Qed.

(** ** The fields of a line *)

Section spec.
Context {H : Type} `{UMemory H}.
Context (garbage : init_prio_entry).
Implicit Types s : state H.

Definition with_mem (m : bmem) s : state H := set_proc (set_umem m (proc s)) s.

Lemma wp_in_mem {A} (x : M bmem A) s Q : wp x (umem (proc s)) (fun a m => Q a (with_mem m s)) -> wp (in_mem x) s Q.
Proof. intros Hx. by apply wp_zoom, wp_zoom. Qed.

Lemma with_mem_same s : with_mem (umem (proc s)) s = s.
Proof. by destruct s as [[]]. Qed.

(** A string between two addresses. *)
Definition string_in (m : bmem) (lo hi p : Z) (l : list Z) : Prop :=
  cstr m p l /\ lo <= p /\ p + Z.of_nat (length l) <= hi.

Record fields_at (m : bmem) (t : list Z) (a b c d e : Z) : Prop := {
  fa_prio : string_in m a (a + Z.of_nat (length t)) a (token t).1;
  fa_bin : let l := (token t).2 in (b =? 0) = bool_decide (l = []) /\
    (l <> [] -> string_in m a (a + Z.of_nat (length t)) b (token l).1);
  fa_argv : let l := (token (token t).2).2 in (c =? 0) = bool_decide (l = []) /\
    (l <> [] -> string_in m a (a + Z.of_nat (length t)) c (token l).1);
  fa_tty : let l := (token (token (token t).2).2).2 in (d =? 0) = bool_decide (l = []) /\
    (l <> [] -> string_in m a (a + Z.of_nat (length t)) d (token l).1);
  fa_device : 0 < e /\ string_in m a (a + Z.of_nat (length t)) e (token (token (token (token t).2).2).2).2;
}.

Lemma eqb_token (l : list Z) a : 0 < a -> ((if bool_decide (l = []) then 0 else a) =? 0) = bool_decide (l = []).
Proof. intros Ha. destruct (bool_decide (l = [])); [done|]. apply Z.eqb_neq. lia. Qed.

(** The strings [ps] have been cut off the text [t] at [a], [l] at [q] is left. *)
Record cutting (m0 : bmem) (a : Z) (t : list Z) (comma : Z) (ps : list (Z * list Z)) (q : Z) (l : list Z) (m : bmem) : Prop := {
  cu_only : only (span a t) m0 m;
  cu_comma : cstr m comma [44];
  cu_left : string_in m a (a + Z.of_nat (length t)) q l;
  cu_cut : Forall (fun p => string_in m a (a + Z.of_nat (length t)) p.1 p.2 /\ p.1 + Z.of_nat (length p.2) <= q /\
    (l <> [] -> p.1 + Z.of_nat (length p.2) < q)) ps;
}.

Lemma cutting_next m0 a t comma ps q l m e m' :
  cutting m0 a t comma ps q l m -> a + Z.of_nat (length t) < comma \/ comma + 1 < a ->
  only (span q l) m m' -> cstr m' q (token l).1 -> cstr m' e (token l).2 -> q + Z.of_nat (length (token l).1) <= e ->
  e + Z.of_nat (length (token l).2) <= q + Z.of_nat (length l) -> ((token l).2 <> [] -> q + Z.of_nat (length (token l).1) < e) ->
  cutting m0 a t comma ((q, (token l).1) :: ps) e (token l).2 m'.
Proof.
  intros [Ho Hd (_ & Hq1 & Hq2) Hps] Hap Ho' Hp Hr Hle Hle' Hlt. pose proof (token_length l). split.
  - eapply only_trans; [exact Ho|exact Ho'|done|unfold span; lia].
  - eapply only_cstr; [exact Ho'| |done]. unfold span. simpl. lia.
  - split_and!; [done|lia|lia].
  - constructor; [simpl; split; [split_and!; [done|lia|lia]|by split]|]. eapply Forall_impl; [exact Hps|].
    intros [p u] ([Hc Hr'] & Hle1 & Hlt1). simpl in *. split; [split; [|done]|split; [lia|]].
    + eapply only_cstr; [exact Ho'| |done]. unfold span. intros x Hx Hsp. destruct l; [simpl in Hsp; lia|]. specialize (Hlt1 ltac:(done)). lia.
    + intros Hne. specialize (Hlt Hne). lia.
Qed.

Lemma cut_token_ok m0 s a t comma ps q l fuel : cutting m0 a t comma ps q l (umem (proc s)) ->
  a + Z.of_nat (length t) < comma \/ comma + 1 < a -> (length t + 1 < fuel)%nat ->
  wp (in_mem (LibcString.strtok_r fuel 0 comma q)) s (fun r s' => exists m, s' = with_mem m s /\
    r.1 = (if bool_decide (l = []) then 0 else q) /\ cutting m0 a t comma ((q, (token l).1) :: ps) r.2 (token l).2 m).
Proof.
  intros Hcu Hap Hf. pose proof Hcu as [_ Hd (Hc & Hq1 & Hq2) _]. apply wp_in_mem.
  eapply wp_mono; [apply (next_token _ q l); [done..|lia|lia]|]. intros r m (Er & Ho & Hp & Hr & Hle & Hle2 & Hlt).
  exists m. split_and!; [done..|]. by eapply cutting_next.
Qed.

Lemma four_tokens {A} s a t comma fuel (k : Z -> Z -> Z -> Z -> Z -> M (state H) A) Q :
  cstr (umem (proc s)) a t -> t <> [] -> 0 < a -> cstr (umem (proc s)) comma [44] ->
  a + Z.of_nat (length t) < comma \/ comma + 1 < a -> (length t + 1 < fuel)%nat ->
  (forall b c d e m, only (span a t) (umem (proc s)) m -> fields_at m t a b c d e -> wp (k a b c d e) (with_mem m s) Q) ->
  wp (let! '(p, save_end) := in_mem (LibcString.strtok_r fuel a comma 0) in
      let! '(b, save_end) := in_mem (LibcString.strtok_r fuel 0 comma save_end) in
      let! '(c, save_end) := in_mem (LibcString.strtok_r fuel 0 comma save_end) in
      let! '(d, save_end) := in_mem (LibcString.strtok_r fuel 0 comma save_end) in
      k p b c d save_end) s Q.
Proof.
  intros Hc Ht Ha Hd Hap Hf Hk.
  assert (cutting (umem (proc s)) a t comma [] a t (umem (proc s))) as Hcu.
  { split; [apply only_refl|done|split_and!; [done|lia|lia]|constructor]. }
  apply wp_bind, wp_in_mem. eapply wp_mono; [apply (strtok_ok _ a t); [done..|left; split; [done|lia]]|].
  intros [p e1] m1 (Ep & Ho1 & Hp1 & Hr1 & Hb1 & Hc1 & Hs1). simpl in Ep, Hr1, Hb1, Hc1, Hs1. subst p.
  apply (cutting_next _ _ _ _ _ _ _ _ e1 m1 Hcu Hap) in Ho1 as Hcu1; [|done..].
  apply wp_bind. eapply wp_mono; [by eapply cut_token_ok|]. intros [b e2] ? (m2 & -> & Eb & Hcu2). simpl in Eb, Hcu2.
  apply wp_bind. eapply wp_mono; [by eapply cut_token_ok|]. intros [c e3] ? (m3 & -> & Ec & Hcu3). simpl in Ec, Hcu3.
  apply wp_bind. eapply wp_mono; [by eapply cut_token_ok|]. intros [d e4] ? (m4 & -> & Ed & Hcu4). simpl in Ed, Hcu4.
  apply (Hk b c d e4 m4); [apply Hcu4|]. destruct Hcu4 as [_ _ Hl Hps].
  apply Forall_cons in Hps as [(Hd4 & _) Hps]. apply Forall_cons in Hps as [(Hc4 & _) Hps].
  apply Forall_cons in Hps as [(Hb4 & _) Hps]. apply Forall_cons in Hps as [(Ha4 & _) _]. simpl in Hd4, Hc4, Hb4, Ha4.
  assert (forall q u, string_in m4 a (a + Z.of_nat (length t)) q u -> 0 < q) as Hpos by (intros q u (_ & ? & _); lia).
  split; [done|subst b|subst c|subst d|split; [by eapply Hpos|done]];
    (split; [by eapply eqb_token, Hpos|intros Hne; by rewrite bool_decide_eq_false_2]).
Qed.

(** ** What a configuration holds *)

Definition nowhere (x : Z) : Prop := False.

Definition opt_block (p n : Z) : list (Z * Z) := if p =? 0 then [] else [(p, n)].
Definition room_of (l : list Z) : Z := Z.of_nat (length l) + 1.

(** The blocks of the strings of an entry, given their sizes. *)
Definition strings (e : init_prio_entry) (n1 n2 n3 n4 : Z) : list (Z * Z) :=
  opt_block (bin e) n1 ++ opt_block (argv e) n2 ++ opt_block (tty e) n3 ++ opt_block (device e) n4.

Definition held (m : bmem) (p : Z) (l : list Z) : Prop := p <> 0 /\ cstr m p l.

Record entry_rep (m : bmem) (e : init_prio_entry) (it : item) : Prop := {
  er_bin : held m (bin e) (i_bin it);
  er_argv : held m (argv e) (i_argv it);
  er_tty : held m (tty e) (i_tty it);
  er_device : if bool_decide (i_device it = []) then device e = 0 else held m (device e) (i_device it);
  er_new : launched e = 0 /\ ready e = 0;
}.

Definition item_strings (e : init_prio_entry) (it : item) : list (Z * Z) :=
  strings e (room_of (i_bin it)) (room_of (i_argv it)) (room_of (i_tty it)) (room_of (i_device it)).

Fixpoint chain s (a : Z) (its : list item) (B : list (Z * Z)) : Prop :=
  match its with
  | [] => a = 0 /\ B = []
  | it :: its => a <> 0 /\ exists e B', ents s !! a = Some e /\ entry_rep (umem (proc s)) e it /\
      chain s (next e) its B' /\ B = item_strings e it ++ (a, sizeof_entry) :: B'
  end.

Fixpoint levels s (heads : list Z) (ls : list (list item)) (B : list (Z * Z)) : Prop :=
  match heads, ls with
  | [], [] => B = []
  | a :: heads, its :: ls => exists B1 B2, chain s a its B1 /\ levels s heads ls B2 /\ B = B1 ++ B2
  | _, _ => False
  end.

(** The configuration at [conf] holds the items [ls]; it and the blocks [T] are what the
    process has beside [p0]. *)
Definition holds (p0 : uproc H) (T : list (Z * Z)) s (conf : Z) (ls : list (list item)) : Prop :=
  exists c B, confs s !! conf = Some c /\ levels s (entries c) ls B /\
    above nowhere p0 (T ++ (conf, sizeof_conf) :: B) (proc s).

(** ** What a step keeps *)

Record kept (B : list (Z * Z)) s s' : Prop := {
  ke_ents : forall p n, (p, n) ∈ B -> ents s' !! p = ents s !! p;
  ke_mem : forall p n x, (p, n) ∈ B -> in_block p n x -> umem (proc s') !! x = umem (proc s) !! x;
}.

Lemma kept_trans B s s1 s2 : kept B s s1 -> kept B s1 s2 -> kept B s s2.
Proof.
  intros [H1a H1b] [H2a H2b]. split.
  - intros p n Hp. rewrite (H2a p n), (H1a p n) by done. done.
  - intros p n x Hp Hx. rewrite (H2b p n), (H1b p n) by done. done.
Qed.

Lemma kept_sub B B' s s' : kept B s s' -> B' ⊆ B -> kept B' s s'.
Proof. intros [Ha Hb] Hs. split; intros p n; [intros ?%Hs; eauto|intros x ?%Hs; eauto]. Qed.

Lemma kept_said B s l : kept B s (set_said l s).
Proof. done. Qed.

Lemma kept_new W p0 B s p n p' : above W p0 B (proc s) -> allocated p n (proc s) p' -> kept B s (set_proc p' s).
Proof.
  intros Ha Hal. split; [done|]. intros q k x Hq Hx. simpl. apply (al_mem _ _ _ _ Hal). intros Hp.
  eapply (al_fresh _ _ _ _ Hal); [done|]. by eapply above_block_owned.
Qed.

Lemma kept_free W p0 B s p n p' : above W p0 ((p, n) :: B) (proc s) -> umem p' = unmap p n (umem (proc s)) -> kept B s (set_proc p' s).
Proof.
  intros Ha Em. split; [done|]. intros q k x Hq Hx. simpl. rewrite Em. apply lookup_unmap.
  intros Hp. by eapply above_disjoint.
Qed.

Lemma kept_write W p0 B s p n m : above W p0 ((p, n) :: B) (proc s) -> only (in_block p n) (umem (proc s)) m -> kept B s (with_mem m s).
Proof.
  intros Ha Ho. split; [done|]. intros q k x Hq Hx. simpl. apply Ho. intros Hp. by eapply above_disjoint.
Qed.

Lemma kept_ents W p0 B s p n f : above W p0 ((p, n) :: B) (proc s) -> (forall q, q <> p -> f !! q = ents s !! q) -> kept B s (set_ents f s).
Proof.
  intros Ha Hf. split; [|done]. intros q k Hq. simpl. apply Hf. intros ->.
  apply (NoDup_cons_1_1 p B.*1 (ab_nodup _ _ _ _ Ha)), list_elem_of_fmap. by exists (p, k).
Qed.

Lemma held_kept B s s' p l : kept B s s' -> opt_block p (room_of l) ⊆ B -> held (umem (proc s)) p l -> held (umem (proc s')) p l.
Proof.
  intros Hk Hs [Hp [Hb Hf]]. split; [done|]. split; [|done]. eapply bytes_at_kept; [done|]. intros x Hx.
  apply (ke_mem _ _ _ Hk p (room_of l)); [|rewrite length_app in Hx; unfold in_block, room_of; simpl in Hx; lia].
  apply Hs. unfold opt_block. rewrite (proj2 (Z.eqb_neq p 0)) by done. by left.
Qed.

Lemma entry_kept B s s' e it : kept B s s' -> item_strings e it ⊆ B -> entry_rep (umem (proc s)) e it -> entry_rep (umem (proc s')) e it.
Proof.
  intros Hk Hs [Hr1 Hr2 Hr3 Hr4 Hr5]. unfold item_strings, strings in Hs. split; [..|done].
  - eapply held_kept; [done| |done]. set_solver.
  - eapply held_kept; [done| |done]. set_solver.
  - eapply held_kept; [done| |done]. set_solver.
  - case_bool_decide; [done|]. eapply held_kept; [done| |done]. set_solver.
Qed.

Lemma chain_kept B0 s s' its : forall a B, kept B0 s s' -> B ⊆ B0 -> chain s a its B -> chain s' a its B.
Proof.
  induction its as [|it its IH]; intros a B Hk Hs; simpl; [done|]. intros (Ha & e & B' & He & Hr & Hc & ->).
  split; [done|]. exists e, B'. split_and!; [|eapply entry_kept; [done| |done]; set_solver|apply IH; [done|set_solver|done]|done].
  rewrite <-He. apply (ke_ents _ _ _ Hk a sizeof_entry), Hs. set_solver.
Qed.

Lemma levels_kept B0 s s' heads : forall ls B, kept B0 s s' -> B ⊆ B0 -> levels s heads ls B -> levels s' heads ls B.
Proof.
  induction heads as [|a heads IH]; intros [|its ls] B Hk Hs; simpl; [done..|]. intros (B1 & B2 & Hc & Hl & ->).
  exists B1, B2. split_and!; [eapply chain_kept; [done| |done]; set_solver|apply IH; [done|set_solver|done]|done].
Qed.

Lemma levels_length s heads : forall ls B, levels s heads ls B -> length heads = length ls.
Proof.
  induction heads as [|a heads IH]; intros [|its ls] B; simpl; [done..|]. intros (B1 & B2 & _ & Hl & _). f_equal. by eapply IH.
Qed.

(** One list taken out, and another put in its place. *)
Lemma levels_at s heads : forall ls B i, levels s heads ls B -> (i < length heads)%nat -> exists a its B1 B2,
  heads !! i = Some a /\ ls !! i = Some its /\ chain s a its B1 /\ B ≡ₚ B1 ++ B2 /\
  forall s' a' its' B1', kept B2 s s' -> chain s' a' its' B1' ->
    exists B', levels s' (<[i := a']> heads) (<[i := its']> ls) B' /\ B' ≡ₚ B1' ++ B2.
Proof.
  induction heads as [|a heads IH]; intros [|its ls] B i; simpl; try done; [lia|]. intros (B1 & B2 & Hc & Hl & ->) Hi.
  destruct i as [|i].
  - exists a, its, B1, B2. split_and!; [done..|]. intros s' a' its' B1' Hk Hc'. exists (B1' ++ B2). split; [|done].
    simpl. exists B1', B2. split_and!; [done|by eapply levels_kept|done].
  - destruct (IH ls B2 i Hl ltac:(lia)) as (a1 & its1 & B1a & B2a & Ha & Hi1 & Hc1 & HB & Hput).
    exists a1, its1, B1a, (B1 ++ B2a). split_and!; [done..| |].
    + rewrite HB, !(assoc_L (++)). by rewrite (Permutation_app_comm B1 B1a).
    + intros s' a' its' B1' Hk Hc'. destruct (Hput s' a' its' B1') as (B' & Hl' & HB'); [eapply kept_sub; [done|set_solver]|done|].
      exists (B1 ++ B'). split; [|by rewrite HB', !(assoc_L (++)), (Permutation_app_comm B1 B1')].
      simpl. exists B1, B'. split_and!; [eapply chain_kept; [done|set_solver|done]|done|done].
Qed.

(** ** Releasing *)

(** The blocks [B] are left, and the messages are those of before and [l]. *)
Definition leaves (p0 : uproc H) (B : list (Z * Z)) (l : list (list Z)) s s' : Prop :=
  above nowhere p0 B (proc s') /\ kept B s s' /\ confs s' = confs s /\ said s' = said s ++ l.

Lemma leaves_trans p0 B B' l l' s s1 s2 : leaves p0 B l s s1 -> leaves p0 B' l' s1 s2 -> B' ⊆ B -> leaves p0 B' (l ++ l') s s2.
Proof.
  intros (_ & Hk & Hc & Hs) (Ha' & Hk' & Hc' & Hs') Hsub. split_and!; [done| |congruence|by rewrite Hs', Hs, (assoc_L (++))].
  eapply kept_trans; [by eapply kept_sub|done].
Qed.

Lemma free_opt_ok p0 B s p n : above nowhere p0 (opt_block p n ++ B) (proc s) ->
  wp (in_proc (ufree p)) s (fun _ s' => leaves p0 B [] s s' /\ ents s' = ents s).
Proof.
  intros Ha. apply wp_zoom. unfold opt_block in Ha. destruct (Z.eqb_spec p 0) as [->|Hp].
  - apply wp_ret. unfold leaves. rewrite app_nil_r. by destruct s.
  - eapply wp_mono; [by apply above_free with (W := nowhere) (n := n)|]. intros _ p' [Ha' Em]. unfold leaves. rewrite app_nil_r.
    split_and!; [done|by eapply kept_free|done..].
Qed.

Lemma free_strings_ok p0 B s e n1 n2 n3 n4 : above nowhere p0 (strings e n1 n2 n3 n4 ++ B) (proc s) ->
  wp (free_strings e) s (fun _ s' => leaves p0 B [] s s' /\ ents s' = ents s).
Proof.
  unfold strings. rewrite <-!(assoc_L (++)). intros Ha. unfold free_strings.
  apply wp_bind. eapply wp_mono; [by eapply free_opt_ok|]. intros _ s1 [Hl1 He1].
  apply wp_bind. eapply wp_mono; [eapply free_opt_ok, Hl1|]. intros _ s2 [Hl2 He2].
  apply wp_bind. eapply wp_mono; [eapply free_opt_ok, Hl2|]. intros _ s3 [Hl3 He3].
  eapply wp_mono; [eapply free_opt_ok, Hl3|]. intros _ s4 [Hl4 He4]. split; [|congruence].
  refine (leaves_trans _ _ _ [] [] _ _ _ Hl1 _ _); [|set_solver]. refine (leaves_trans _ _ _ [] [] _ _ _ Hl2 _ _); [|set_solver].
  refine (leaves_trans _ _ _ [] [] _ _ _ Hl3 Hl4 _). set_solver.
Qed.

Lemma free_entry_ok p0 B s a : above nowhere p0 ((a, sizeof_entry) :: B) (proc s) ->
  wp (free_entry a) s (fun _ s' => leaves p0 B [] s s').
Proof.
  intros Ha. apply wp_bind, wp_zoom. eapply wp_mono; [by apply above_free with (W := nowhere) (n := sizeof_entry)|].
  intros _ p' [Ha' Em]. apply wp_modify. unfold leaves. rewrite app_nil_r. split_and!; [done| |done..].
  apply (kept_trans _ _ (set_ents (delete a (ents s)) s)).
  - eapply kept_ents; [done|]. intros q Hq. by apply lookup_delete_ne.
  - exact (kept_free nowhere p0 B (set_ents (delete a (ents s)) s) a sizeof_entry p' Ha Em).
Qed.

Lemma free_all_ok p0 B s a e n1 n2 n3 n4 : above nowhere p0 (strings e n1 n2 n3 n4 ++ (a, sizeof_entry) :: B) (proc s) ->
  wp (free_strings e ;;; free_entry a) s (fun _ s' => leaves p0 B [] s s').
Proof.
  intros Ha. apply wp_bind. eapply wp_mono; [by eapply free_strings_ok|]. intros _ s1 [Hl1 _].
  eapply wp_mono; [apply free_entry_ok, Hl1|]. intros u s2 Hl2. refine (leaves_trans _ _ _ [] [] _ _ _ Hl1 Hl2 _). set_solver.
Qed.

Definition no_memory : list Z := text "Init: Not enough memory".

Lemma mem_error_ok p0 B s a e n1 n2 n3 n4 : ents s !! a = Some e -> a <> 0 ->
  above nowhere p0 (strings e n1 n2 n3 n4 ++ (a, sizeof_entry) :: B) (proc s) ->
  wp (mem_error a) s (fun r s' => r = -1 /\ leaves p0 B [no_memory] s s').
Proof.
  intros He Ha Hab. apply wp_bind, wp_modify, wp_bind. rewrite (proj2 (Z.eqb_neq a 0)) by done.
  apply wp_bind, wp_bind, wp_get. simpl. rewrite He. apply wp_ret.
  eapply wp_mono; [eapply free_all_ok; exact Hab|]. intros u s2 Hl. apply wp_ret. split; [done|].
  destruct Hl as (Hl & Hk & Hc & Hs). split_and!; [done|eapply kept_trans; [apply kept_said|exact Hk]|done|]. rewrite Hs. simpl. by rewrite app_nil_r.
Qed.

Lemma update_ok a f s e Q : ents s !! a = Some e -> Q tt (set_ents (<[a := f e]> (ents s)) s) -> wp (update a f) s Q.
Proof. intros He HQ. apply wp_bind, wp_bind, wp_get. rewrite He. by apply wp_ret, wp_modify. Qed.

(** ** Filling an entry *)

(** The text of the line, in the block at [tb]. *)
Definition readable s (tb tn p : Z) (l : list Z) : Prop :=
  string_in (umem (proc s)) tb (tb + tn - 1) p l.

Lemma readable_kept B s s' tb tn p l : kept B s s' -> (tb, tn) ∈ B -> readable s tb tn p l -> readable s' tb tn p l.
Proof.
  intros Hk Hin [Hc Hr]. split; [|done]. destruct Hc as [Hb Hf]. split; [|done]. eapply bytes_at_kept; [done|].
  intros x Hx. apply (ke_mem _ _ _ Hk tb tn); [done|]. rewrite length_app in Hx. simpl in Hx. unfold in_block. lia.
Qed.

(** An entry that is being filled: its strings so far are [S]. *)
Definition filling (p0 : uproc H) (B S : list (Z * Z)) (a : Z) (e : init_prio_entry) s : Prop :=
  ents s !! a = Some e /\ a <> 0 /\ above nowhere p0 (S ++ (a, sizeof_entry) :: B) (proc s).

Lemma copy_field_ok p0 B s a e str l set k n1 n2 n3 n4 n1' n2' n3' n4' tb tn fuel Q :
  let S := strings e n1 n2 n3 n4 in
  filling p0 B S a e s -> (tb, tn) ∈ B -> tn <= MALLOC_MAX -> readable s tb tn str l -> (length l < fuel)%nat ->
  strings (set 0 e) n1 n2 n3 n4 = S ->
  (forall p, p <> 0 -> strings (set p e) n1' n2' n3' n4' ≡ₚ (p, room_of l) :: S) ->
  (forall p s', filling p0 B (strings (set p e) n1' n2' n3' n4') a (set p e) s' -> held (umem (proc s')) p l ->
     kept (S ++ B) s s' -> confs s' = confs s -> said s' = said s -> wp k s' Q) ->
  (forall s', leaves p0 B [no_memory] s s' -> Q (-1) s') ->
  wp (copy_field fuel a str set k) s Q.
Proof.
  intros S (He & Ha & Hab) Htb Htn [Hc Hr] Hf Hz Hp Hk Hfail. unfold copy_field. apply wp_bind, wp_zoom.
  assert ((tb, tn) ∈ S ++ (a, sizeof_entry) :: B) as Hin by set_solver.
  eapply wp_mono; [apply (above_strdup nowhere p0 _ (proc s) str l fuel Hab Hc); [|done|lia]|].
  { intros x Hx. eapply above_block_owned; [exact Hab|exact Hin|]. unfold in_block in *. lia. }
  intros p p' [(-> & Ha' & Em)|(Hp0 & Ha' & Hal & Hs)]; apply wp_bind; (eapply update_ok; [exact He|]).
  - simpl. eapply wp_mono; [eapply (mem_error_ok p0 B _ a (set 0 e) n1 n2 n3 n4); simpl; [apply lookup_insert_eq|done|by rewrite Hz]|].
    intros r s2 (-> & Hl & Hk2 & Hcf & Hsd). apply Hfail. split_and!; [done| |done..]. eapply kept_trans; [|exact Hk2].
    apply (kept_trans _ _ (set_proc p' s)); [split; [done|]; intros; simpl; by rewrite Em|].
    eapply kept_sub; [eapply (kept_ents nowhere p0 (S ++ B) (set_proc p' s) a sizeof_entry)|set_solver].
    + eapply above_perm; [exact Ha'|]. by rewrite <-Permutation_middle.
    + intros q Hq. simpl. by apply lookup_insert_ne.
  - rewrite (proj2 (Z.eqb_neq p 0)) by done. apply (Hk p); [|by split| |done..].
    + split_and!; [apply lookup_insert_eq|done|]. simpl. eapply above_perm; [exact Ha'|]. by rewrite (Hp p Hp0).
    + apply (kept_trans _ _ (set_proc p' s)); [eapply kept_sub; [by eapply kept_new|set_solver]|].
      eapply kept_sub; [eapply (kept_ents nowhere p0 ((p, room_of l) :: S ++ B) (set_proc p' s) a sizeof_entry)|set_solver].
      * eapply above_perm; [exact Ha'|]. by rewrite <-Permutation_middle, Permutation_swap.
      * intros q Hq. simpl. by apply lookup_insert_ne.
Qed.

(** The filled entry becomes the first of its list. *)
Lemma link_ok p0 T B s conf c ls a e it : confs s !! conf = Some c -> levels s (entries c) ls B ->
  filling p0 (T ++ (conf, sizeof_conf) :: B) (item_strings e it) a e s -> entry_rep (umem (proc s)) e it ->
  0 <= i_prio it -> (Z.to_nat (i_prio it) < length ls)%nat ->
  wp (link_entry conf (i_prio it) a) s (fun r s' => r = 0 /\ holds p0 T s' conf (add_item ls it) /\ said s' = said s /\ proc s' = proc s).
Proof.
  intros Hc Hl (He & Ha & Hab) Hr Hp0 Hi. pose proof (levels_length _ _ _ _ Hl) as Hlen.
  destruct (levels_at _ _ _ _ (Z.to_nat (i_prio it)) Hl ltac:(lia)) as (h & its & B1 & B2 & Hh & Hits & Hch & HB & Hput).
  unfold link_entry. apply wp_bind, wp_bind, wp_get. rewrite Hc. apply wp_ret. rewrite Hh. apply wp_bind.
  eapply update_ok; [exact He|]. apply wp_bind, wp_modify, wp_ret. split; [done|]. split; [|done].
  set (s' := set_confs _ _). assert (kept B s s') as Hk.
  { enough (kept B s (set_ents (<[a := set_next h e]> (ents s)) s)) as [] by done.
    eapply kept_sub; [eapply (kept_ents nowhere p0 (item_strings e it ++ T ++ (conf, sizeof_conf) :: B) s a sizeof_entry)|set_solver].
    - eapply above_perm; [exact Hab|]. by rewrite <-Permutation_middle.
    - intros q Hq. by apply lookup_insert_ne. }
  destruct (Hput s' a (it :: its) (item_strings e it ++ (a, sizeof_entry) :: B1)) as (B' & Hl' & HB').
  { eapply kept_sub; [exact Hk|]. rewrite HB. set_solver. }
  { simpl. split; [done|]. exists (set_next h e), B1. split_and!; [apply lookup_insert_eq|by destruct Hr| |done].
    eapply chain_kept; [exact Hk|rewrite HB; set_solver|done]. }
  eexists _, B'. split_and!; [apply lookup_insert_eq| |].
  - simpl. replace (add_item ls it) with (<[Z.to_nat (i_prio it) := it :: its]> ls); [done|]. unfold add_item.
    clear -Hits. revert ls Hits. induction (Z.to_nat (i_prio it)) as [|i IH]; intros [|l ls]; simpl; try done; [by intros [= ->]|].
    intros Hi. f_equal. by apply IH.
  - eapply above_perm; [exact Hab|]. rewrite HB', HB. solve_Permutation.
Qed.

(** What importing a line leaves: the items [ls], the messages [l] and the text. *)
Definition after (p0 : uproc H) (T : list (Z * Z)) s (conf : Z) (ls : list (list item)) (l : list (list Z)) s' : Prop :=
  holds p0 T s' conf ls /\ said s' = said s ++ l /\
  forall p n x, (p, n) ∈ T -> in_block p n x -> umem (proc s') !! x = umem (proc s) !! x.

(** Nothing but the messages has changed from [s] to [s']. *)
Definition quiet (B : list (Z * Z)) s s' : Prop := kept B s s' /\ confs s' = confs s /\ said s' = said s.

Lemma quiet_trans B s s1 s2 : quiet B s s1 -> quiet B s1 s2 -> quiet B s s2.
Proof. intros (Hk & Hc & Hs) (Hk' & Hc' & Hs'). split_and!; [by eapply kept_trans|congruence..]. Qed.

Lemma quiet_leaves p0 B l s s1 s2 : quiet B s s1 -> leaves p0 B l s1 s2 -> leaves p0 B l s s2.
Proof. intros (Hk & Hc & Hs) (Ha & Hk' & Hc' & Hs'). split_and!; [done|by eapply kept_trans|congruence|by rewrite Hs', Hs]. Qed.

Lemma leaves_after p0 T B s conf c ls l s' : confs s !! conf = Some c -> levels s (entries c) ls B ->
  leaves p0 (T ++ (conf, sizeof_conf) :: B) l s s' -> after p0 T s conf ls l s'.
Proof.
  intros Hc Hl (Ha & Hk & Ec & Es). split_and!; [|done|].
  - exists c, B. split_and!; [by rewrite Ec|eapply levels_kept; [done| |done]; set_solver|done].
  - intros p n x Hp Hx. apply (ke_mem _ _ _ Hk p n); [set_solver|done].
Qed.

Lemma malloc_entry_ok p0 B s : above nowhere p0 B (proc s) ->
  wp (malloc_entry garbage) s (fun a s' => quiet B s s' /\
    ((a = 0 /\ above nowhere p0 B (proc s')) \/ (a <> 0 /\ above nowhere p0 ((a, sizeof_entry) :: B) (proc s') /\ ents s' !! a = Some garbage))).
Proof.
  intros Ha. apply wp_bind, wp_zoom. eapply wp_mono; [apply (above_malloc nowhere p0 B); [done|unfold sizeof_entry, MALLOC_MAX; lia]|].
  intros a p' [(-> & Ha' & Em)|(Hne & Ha' & Hal)].
  - apply wp_ret. split; [|by left]. split_and!; [split; [done|]; intros; simpl; by rewrite Em|done..].
  - rewrite (proj2 (Z.eqb_neq a 0)) by done. apply wp_bind, wp_modify, wp_ret. split.
    + split_and!; [|done..]. apply (kept_trans _ _ (set_proc p' s)); [by eapply kept_new|].
      eapply (kept_ents nowhere p0 B (set_proc p' s)); [done|]. intros q Hq. simpl. by apply lookup_insert_ne.
    + right. split_and!; [done..|apply lookup_insert_eq].
Qed.

(** Where a field was null, its string is new. *)
Lemma strings_bin p e n n1 n2 n3 n4 : bin e = 0 -> p <> 0 -> strings (set_bin p e) n n2 n3 n4 ≡ₚ (p, n) :: strings e n1 n2 n3 n4.
Proof. intros E Hp. unfold strings. simpl. rewrite E. unfold opt_block at 1 5. by rewrite (proj2 (Z.eqb_neq p 0)). Qed.
Lemma strings_argv p e n n1 n2 n3 n4 : argv e = 0 -> p <> 0 -> strings (set_argv p e) n1 n n3 n4 ≡ₚ (p, n) :: strings e n1 n2 n3 n4.
Proof. intros E Hp. unfold strings. simpl. rewrite E. unfold opt_block at 2 6. rewrite (proj2 (Z.eqb_neq p 0)) by done. simpl. solve_Permutation. Qed.
Lemma strings_tty p e n n1 n2 n3 n4 : tty e = 0 -> p <> 0 -> strings (set_tty p e) n1 n2 n n4 ≡ₚ (p, n) :: strings e n1 n2 n3 n4.
Proof. intros E Hp. unfold strings. simpl. rewrite E. unfold opt_block at 3 7. rewrite (proj2 (Z.eqb_neq p 0)) by done. simpl. solve_Permutation. Qed.
Lemma strings_device p e n n1 n2 n3 n4 : device e = 0 -> p <> 0 -> strings (set_device p e) n1 n2 n3 n ≡ₚ (p, n) :: strings e n1 n2 n3 n4.
Proof. intros E Hp. unfold strings. simpl. rewrite E. unfold opt_block at 4 8. rewrite (proj2 (Z.eqb_neq p 0)) by done. simpl. solve_Permutation. Qed.

Definition filled (p0 : uproc H) (T : list (Z * Z)) s (conf : Z) (ls : list (list item)) (it : item) (r : Z) s' : Prop :=
  (r = 0 /\ after p0 T s conf (add_item ls it) [] s') \/ (r = -1 /\ after p0 T s conf ls [no_memory] s').

Section fill.
Context (p0 : uproc H) (tb tn conf : Z) (c : init_conf) (B : list (Z * Z)) (ls : list (list item)) (it : item) (fuel : nat) (s0 : state H).
Let R := (tb, tn) :: (conf, sizeof_conf) :: B.
Context (Hc : confs s0 !! conf = Some c) (Hl : levels s0 (entries c) ls B) (Htn : tn <= MALLOC_MAX) (Hfuel : tn < Z.of_nat fuel).
Context (Hprio : 0 <= i_prio it) (Hlen : (Z.to_nat (i_prio it) < length ls)%nat).

Lemma filled_fail s s' : quiet R s0 s -> leaves p0 R [no_memory] s s' -> filled p0 [(tb, tn)] s0 conf ls it (-1) s'.
Proof. intros Hq Hv. right. split; [done|]. eapply leaves_after; [done..|]. by eapply quiet_leaves. Qed.

Lemma filled_link s a e : quiet R s0 s -> filling p0 R (item_strings e it) a e s -> entry_rep (umem (proc s)) e it ->
  wp (link_entry conf (i_prio it) a) s (filled p0 [(tb, tn)] s0 conf ls it).
Proof.
  intros (Hk & Ec & Es) Hf Hr. eapply wp_mono; [eapply (link_ok p0 [(tb, tn)] B s conf c ls a e it)|]; try done.
  - by rewrite Ec.
  - eapply levels_kept; [exact Hk|unfold R; set_solver|done].
  - intros r s' (-> & Hh & Hs & Hp). left. split; [done|]. split_and!; [done|by rewrite Hs, Es, app_nil_r|].
    intros p n x Hin Hx. rewrite Hp. apply (ke_mem _ _ _ Hk p n); [unfold R; set_solver|done].
Qed.

(** A field copied into an entry that has none yet. *)
Lemma filled_copy s a e str l set k n1 n2 n3 n4 n1' n2' n3' n4' :
  quiet R s0 s -> filling p0 R (strings e n1 n2 n3 n4) a e s -> readable s tb tn str l ->
  strings (set 0 e) n1 n2 n3 n4 = strings e n1 n2 n3 n4 ->
  (forall p, p <> 0 -> strings (set p e) n1' n2' n3' n4' ≡ₚ (p, room_of l) :: strings e n1 n2 n3 n4) ->
  (forall p s', quiet R s0 s' -> filling p0 R (strings (set p e) n1' n2' n3' n4') a (set p e) s' -> held (umem (proc s')) p l ->
     kept (strings e n1 n2 n3 n4 ++ R) s s' -> wp k s' (filled p0 [(tb, tn)] s0 conf ls it)) ->
  wp (copy_field fuel a str set k) s (filled p0 [(tb, tn)] s0 conf ls it).
Proof.
  intros Hq Hf Hrd Hz Hp Hk. pose proof Hrd as (Hcs & Hlo & Hhi). eapply (copy_field_ok p0 R s a e str l); try done.
  - unfold R. set_solver.
  - lia.
  - intros q s' Hf' Hh Hke Ec Es. apply (Hk q); try done. eapply quiet_trans; [done|]. split_and!; [|done..].
    eapply kept_sub; [done|set_solver].
  - intros s' Hv. by eapply filled_fail.
Qed.

Lemma filled_device s a e p : quiet R s0 s -> readable s tb tn p (i_device it) -> 0 < p -> device e = 0 -> launched e = 0 -> ready e = 0 ->
  filling p0 R (strings e (room_of (i_bin it)) (room_of (i_argv it)) (room_of (i_tty it)) 0) a e s ->
  held (umem (proc s)) (bin e) (i_bin it) -> held (umem (proc s)) (argv e) (i_argv it) -> held (umem (proc s)) (tty e) (i_tty it) ->
  wp (let! n := (if p =? 0 then ret 0 else in_mem (LibcString.strlen fuel p)) in
      if n >? 0 then copy_field fuel a p set_device (link_entry conf (i_prio it) a) else link_entry conf (i_prio it) a)
    s (filled p0 [(tb, tn)] s0 conf ls it).
Proof.
  intros Hq Hrd Hp Hd Hla Hre Hf Hb Ha Ht. rewrite (proj2 (Z.eqb_neq p 0)) by lia. pose proof Hrd as (Hcs & Hlo & Hhi).
  apply wp_bind, wp_in_mem. eapply wp_mono; [apply (libc_strlen_spec _ _ (i_device it)); [done|lia|unfold MALLOC_MAX in *; lia]|].
  intros r m [-> ->]. rewrite with_mem_same. destruct (decide (i_device it = [])) as [Ed|Ed].
  - rewrite Ed. simpl. eapply filled_link; [done| |].
    + unfold item_strings. unfold strings in *. by rewrite Hd in *.
    + split; try done. by rewrite bool_decide_eq_true_2.
  - rewrite (proj2 (Z.gtb_lt _ 0)) by (destruct (i_device it); [done|simpl; lia]).
    eapply (filled_copy s a e p (i_device it) set_device); [done|exact Hf|done|unfold strings; simpl; by rewrite Hd|intros q Hq0; by apply strings_device|].
    intros q s' Hq' Hf' Hh Hk. eapply filled_link; [done|exact Hf'|]. unfold strings in Hk.
    split; simpl; [| | |by rewrite bool_decide_eq_false_2|done].
    + eapply held_kept; [exact Hk|set_solver|done].
    + eapply held_kept; [exact Hk|set_solver|done].
    + eapply held_kept; [exact Hk|set_solver|done].
Qed.

Lemma fill_entry_ok b d t e : above nowhere p0 R (proc s0) ->
  readable s0 tb tn b (i_bin it) -> readable s0 tb tn d (i_argv it) -> readable s0 tb tn t (i_tty it) ->
  readable s0 tb tn e (i_device it) -> 0 < e ->
  wp (fill_entry garbage fuel conf (i_prio it) b d t e) s0 (filled p0 [(tb, tn)] s0 conf ls it).
Proof.
  intros Hab Hb Hd Ht He He0. assert (forall s p l, quiet R s0 s -> readable s0 tb tn p l -> readable s tb tn p l) as Hrd.
  { intros s p l (Hk & _) Hr. eapply readable_kept; [exact Hk|unfold R; set_solver|done]. }
  unfold fill_entry. apply wp_bind. eapply wp_mono; [by apply malloc_entry_ok|].
  intros a s1 (Hq1 & [(-> & Ha1)|(Hne & Ha1 & Hg)]).
  { apply wp_bind, wp_modify, wp_bind, wp_ret, wp_ret. eapply filled_fail; [exact Hq1|]. by split_and!. }
  rewrite (proj2 (Z.eqb_neq a 0)) by done. apply wp_bind. eapply update_ok; [exact Hg|]. set (e0 := set_ready _ _). set (s2 := set_ents _ s1).
  assert (quiet R s0 s2) as Hq2.
  { eapply quiet_trans; [exact Hq1|]. split_and!; [|done..]. eapply kept_ents; [exact Ha1|]. intros q Hq. by apply lookup_insert_ne. }
  assert (filling p0 R (strings e0 0 0 0 0) a e0 s2) as Hf2 by (split_and!; [apply lookup_insert_eq|done|done]).
  eapply (filled_copy s2 a e0 b (i_bin it) set_bin); [done|done|by apply Hrd|done|intros p Hp; by apply strings_bin|].
  intros p1 s3 Hq3 Hf3 Hh1 _.
  eapply (filled_copy s3 a _ d (i_argv it) set_argv); [done|exact Hf3|by apply Hrd|done|intros p Hp; by apply strings_argv|].
  intros p2 s4 Hq4 Hf4 Hh2 Hk4.
  eapply (filled_copy s4 a _ t (i_tty it) set_tty); [done|exact Hf4|by apply Hrd|done|intros p Hp; by apply strings_tty|].
  intros p3 s5 Hq5 Hf5 Hh3 Hk5. unfold strings in Hk4, Hk5. simpl in Hk4, Hk5.
  eapply (filled_device s5 a (set_tty p3 (set_argv p2 (set_bin p1 e0))) e); [done|by apply Hrd|done|done|done|done|exact Hf5| | |done]; simpl.
  - eapply held_kept; [exact Hk5|set_solver|]. eapply held_kept; [exact Hk4|set_solver|done].
  - eapply held_kept; [exact Hk5|set_solver|done].
Qed.

End fill.

(** ** A line *)

Definition bad_format : list Z := text "Init: Invalid entry format".
Definition bad_priority : list Z := text "Init: Invalid priority".

(** What a line with the item [o], or with none that can be read, does. *)
Definition import_post (p0 : uproc H) (T : list (Z * Z)) s (conf : Z) (ls : list (list item)) (o : option item) (r : Z) s' : Prop :=
  match o with
  | None => r = -1 /\ holds p0 T s' conf ls /\ exists t, t ∈ [bad_format; bad_priority] /\ said s' = said s ++ [t]
  | Some it => (r = 0 /\ holds p0 T s' conf (add_item ls it) /\ said s' = said s) \/
      (r = -1 /\ holds p0 T s' conf ls /\ said s' = said s ++ [no_memory])
  end.

Lemma block_pos W p0 B (q : uproc H) p n : above W p0 B q -> (p, n) ∈ B -> 0 < p /\ 0 < n.
Proof.
  intros Ha Hp. pose proof (ab_ok _ _ _ _ Ha) as Hok. apply (above_lookup _ _ _ _ _ _ Ha) in Hp.
  destruct (uo_blocks _ Hok _ _ Hp) as (Hn & k & Hk & Hl). pose proof (ulive_range _ _ _ (uo_heap _ Hok) Hl). lia.
Qed.

(** Writes to the text. *)
Lemma holds_write p0 tb tn s conf ls m : holds p0 [(tb, tn)] s conf ls -> only (in_block tb tn) (umem (proc s)) m ->
  holds p0 [(tb, tn)] (with_mem m s) conf ls.
Proof.
  intros (c & B & Hc & Hl & Ha) Ho. exists c, B. split_and!; [done| |].
  - eapply levels_kept; [eapply kept_write; [exact Ha|done]|set_solver|done].
  - eapply above_mem; [exact Ha|exact Ho|]. intros x Hx Hox. by eapply above_apart in Hox; [|exact Ha|left|done].
Qed.

Lemma holds_said p0 T s conf ls l : holds p0 T s conf ls -> holds p0 T (set_said l s) conf ls.
Proof. intros (c & B & Hc & Hl & Ha). exists c, B. split_and!; [done| |done]. by eapply levels_kept; [apply (kept_said B)| |]. Qed.

(** The literal of the delimiter, which the process has in its data. *)
Definition literal (p0 : uproc H) (comma : Z) : Prop :=
  cstr (umem p0) comma [44] /\ forall x, comma <= x <= comma + 1 -> owned p0 x.

Lemma literal_ok p0 T s conf ls comma tb tn : literal p0 comma -> holds p0 T s conf ls -> (tb, tn) ∈ T ->
  cstr (umem (proc s)) comma [44] /\ (tb + tn <= comma \/ comma + 1 < tb).
Proof.
  intros [Hc Ho] (c & B & _ & _ & Ha) Hin. destruct (block_pos _ _ _ _ tb tn Ha ltac:(set_solver)) as [_ Hn]. split.
  - destruct Hc as [Hb Hf]. split; [|done]. eapply bytes_at_kept; [exact Hb|]. intros x Hx. simpl in Hx.
    apply (ab_mem _ _ _ _ Ha); [apply Ho; lia|by intros []].
  - assert (forall x, comma <= x <= comma + 1 -> ~ in_block tb tn x) as Hx.
    { intros x Hx Hin'. eapply above_apart; [exact Ha| |exact Hin'|by apply Ho]. set_solver. }
    pose proof (Hx comma ltac:(lia)). pose proof (Hx (comma + 1) ltac:(lia)). unfold in_block in *. lia.
Qed.

Lemma readable_span s tb tn a t x : readable s tb tn a t -> span a t x -> in_block tb tn x.
Proof. intros (_ & Hlo & Hhi). unfold span, in_block. lia. Qed.

Lemma string_readable m s tb tn a t p l : readable s tb tn a t -> string_in m a (a + Z.of_nat (length t)) p l ->
  readable (with_mem m s) tb tn p l.
Proof. intros (_ & Hlo & Hhi) (Hc & H2 & H3). split; [done|lia]. Qed.

Lemma priority_range t n : priority_of t = Some n -> INIT_HIGHEST_PRIO <= n <= INIT_LOWEST_PRIO.
Proof. unfold priority_of. destruct (number t) as [k r]. destruct (negb _ || _ || _) eqn:E; [done|]. intros [= <-]. lia. Qed.

Lemma read_priority_ok {A} s a t fuel (bad : M (state H) A) (k : Z -> M (state H) A) Q : cstr (umem (proc s)) a t -> (length t < fuel)%nat ->
  wp (match priority_of t with Some n => k n | None => bad end) s Q ->
  wp (let! '(priority, save_end) := in_mem (Numbers.strtol fuel a 10) in
      let! c := in_mem (load save_end) in
      if negb (c =? 0) || (priority >? INIT_LOWEST_PRIO) || (priority <? INIT_HIGHEST_PRIO) then bad else k priority) s Q.
Proof.
  intros Hc Hf HQ. apply wp_bind, wp_in_mem. eapply wp_mono; [by apply (strtol_text _ a t)|].
  intros [n e] m (-> & En & He). rewrite with_mem_same. unfold priority_of in HQ. destruct (number t) as [n' r]. simpl in En, He. subst n'.
  apply wp_bind, wp_in_mem. assert (exists c, umem (proc s) !! e = Some c /\ (c =? 0) = bool_decide (r = [])) as (c & Hl & Ec).
  { destruct r as [|c r]; [exists 0; split; [apply He|done]|]. apply cstr_cons in He as (Hx & _ & Hne & _). exists c. split; [done|].
    by apply Z.eqb_neq. }
  eapply wp_load; [exact Hl|]. rewrite with_mem_same, Ec. by destruct (negb _ || _ || _).
Qed.

Lemma import_entry_ok p0 s conf ls tb tn a t comma fuel :
  holds p0 [(tb, tn)] s conf ls -> length ls = Z.to_nat INIT_NB_PRIO -> literal p0 comma -> readable s tb tn a t -> t <> [] ->
  tn <= MALLOC_MAX -> tn < Z.of_nat fuel ->
  wp (import_entry garbage fuel comma a conf) s (fun r s' => import_post p0 [(tb, tn)] s conf ls (parse_entry t) r s' /\
    forall x, in_block tb tn x -> ~ span a t x -> umem (proc s') !! x = umem (proc s) !! x).
Proof.
  intros Hh Hlen Hlit Hrd Ht Htn Hf. destruct (literal_ok _ _ _ _ _ _ tb tn Hlit Hh ltac:(left)) as [Hcm Hap].
  pose proof Hrd as (Hca & Hlo & Hhi).
  assert (0 < tb) as Htb by (destruct Hh as (c & B & _ & _ & Hab); destruct (block_pos _ _ _ _ tb tn Hab ltac:(left)); lia).
  unfold import_entry. apply (four_tokens s a t); [done|done|lia|done|lia|lia|]. intros b c d e m Ho [Hp [Eb Hb] [Ec Hc] [Ed Hd] [He0 He]].
  assert (holds p0 [(tb, tn)] (with_mem m s) conf ls) as Hh'.
  { apply holds_write; [done|]. eapply only_mono; [exact Ho|]. intros x. by eapply readable_span. }
  assert (forall x, in_block tb tn x -> ~ span a t x -> m !! x = umem (proc s) !! x) as Hm by (intros x _ Hx; by apply Ho).
  rewrite (proj2 (Z.eqb_neq a 0)), Eb, Ec, Ed by lia. unfold parse_entry. pose proof (token_length t) as Htl.
  destruct (token t) as [prio t1] eqn:E1. simpl in *. destruct (token t1) as [binary t2] eqn:E2. simpl in *.
  destruct (token t2) as [args t3] eqn:E3. simpl in *. destruct (token t3) as [term dev] eqn:E4. simpl in *.
  destruct (bool_decide (t1 = []) || bool_decide (t2 = []) || bool_decide (t3 = [])) eqn:Eor.
  { apply wp_bind, wp_modify, wp_ret. split; [|done]. split_and!; [done|by apply holds_said|]. exists bad_format. split; [set_solver|done]. }
  apply orb_false_elim in Eor as [[H12%bool_decide_eq_false H22%bool_decide_eq_false]%orb_false_elim H32%bool_decide_eq_false].
  apply (read_priority_ok _ a prio); [apply Hp|lia|].
  destruct (priority_of prio) as [n|] eqn:Eg.
  2: { apply wp_bind, wp_modify, wp_ret. split; [|done]. split_and!; [done|by apply holds_said|]. exists bad_priority. split; [set_solver|done]. }
  apply priority_range in Eg. unfold INIT_LOWEST_PRIO, INIT_HIGHEST_PRIO in Eg.
  destruct Hh' as (cf & B & Hcf & Hl & Hab).
  set (it := {| i_prio := n; i_bin := binary; i_argv := args; i_tty := term; i_device := dev |}).
  eapply wp_mono; [apply (fill_entry_ok p0 tb tn conf cf B ls it fuel (with_mem m s)); simpl;
    try done; try (by eapply string_readable; [exact Hrd|auto]); unfold INIT_NB_PRIO, INIT_LOWEST_PRIO, INIT_HIGHEST_PRIO in *; lia|].
  intros r' s' Hfi. split.
  - destruct Hfi as [(-> & Hh2 & Hs & _)|(-> & Hh2 & Hs & _)]; [left|right]; split_and!; try done. by rewrite Hs, app_nil_r.
  - intros x Hx Hn. rewrite <-Hm by done.
    destruct Hfi as [(_ & _ & _ & Hk)|(_ & _ & _ & Hk)]; apply (Hk tb tn); (done || left).
Qed.

(** ** The text *)

Lemma lines_split t : exists l o, lines t = l :: match o with None => [] | Some u => lines u end /\
  t = l ++ match o with None => [] | Some u => 10 :: u end /\ Forall (fun c => c <> 10) l.
Proof.
  induction t as [|c t (l & o & El & Et & Hl)]; [by exists [], None|]. simpl. destruct (Z.eqb_spec c 10) as [->|Hc].
  - by exists [], (Some t).
  - exists (c :: l), o. rewrite El, Et. split_and!; [done|done|by constructor].
Qed.

Lemma seek_eol_ok m l c : forall a fuel, bytes_at m a (l ++ [c]) -> Forall (fun c => c <> 0 /\ c <> 10) l -> c = 0 \/ c = 10 ->
  (length l < fuel)%nat -> wp (seek_eol fuel a) m (fun r m' => r = a + Z.of_nat (length l) /\ m' = m).
Proof.
  induction l as [|x l IH]; intros a [|fuel] Hb Hf Hc Hfu; simpl in *; try lia; destruct Hb as [Hx Hb]; apply wp_bind; (eapply wp_load; [done|]).
  - replace ((c =? 0) || (c =? 10)) with true by (destruct Hc as [-> | ->]; done). apply wp_ret. split; [lia|done].
  - apply Forall_cons in Hf as [[H1x H2x] Hf]. rewrite (proj2 (Z.eqb_neq x 0)), (proj2 (Z.eqb_neq x 10)) by done. simpl.
    eapply wp_mono; [apply IH; [done..|lia]|]. intros r m' [-> ->]. split; [lia|done].
Qed.

Lemma trim_length l : (length (trim l) <= length l)%nat.
Proof. induction l as [|c l IH]; simpl; [lia|]. destruct (_ || _); simpl; lia. Qed.

Lemma skip_blank_ok m l : forall a fuel, cstr m a l -> (length l < fuel)%nat ->
  wp (skip_blank fuel a) m (fun r m' => m' = m /\ cstr m r (trim l) /\ r + Z.of_nat (length (trim l)) = a + Z.of_nat (length l)).
Proof.
  induction l as [|c l IH]; intros a [|fuel] Hc Hf; simpl in Hf; try lia; cbn [skip_blank].
  - apply wp_bind. eapply wp_load; [apply Hc|]. by apply wp_ret.
  - pose proof (proj1 (cstr_cons _ _ _ _) Hc) as (Hx & _ & _ & Ht). apply wp_bind. eapply wp_load; [done|]. simpl.
    destruct ((c =? 9) || (c =? 32)); [|by apply wp_ret]. eapply wp_mono; [apply IH; [done|lia]|].
    intros r m' (-> & Hr & Er). split_and!; [done|done|lia].
Qed.

(** What reading a text leaves: all its items; or those before a bad line; or those before
    the one for which there was no memory. *)
Definition parsed (p0 : uproc H) (T : list (Z * Z)) s (conf : Z) (ls : list (list item)) (p : list item * bool) (r : Z) s' : Prop :=
  (r = 0 /\ p.2 = true /\ holds p0 T s' conf (foldl add_item ls p.1) /\ said s' = said s) \/
  (r = -1 /\ p.2 = false /\ holds p0 T s' conf (foldl add_item ls p.1) /\
    exists t, t ∈ [bad_format; bad_priority] /\ said s' = said s ++ [t]) \/
  (r = -1 /\ exists n, (n < length p.1)%nat /\ holds p0 T s' conf (foldl add_item ls (take n p.1)) /\ said s' = said s ++ [no_memory]).

Lemma parsed_cons p0 T s s1 conf ls it p r s' : said s1 = said s ->
  parsed p0 T s1 conf (add_item ls it) p r s' -> parsed p0 T s conf ls (it :: p.1, p.2) r s'.
Proof.
  unfold parsed. intros ->. intros [?|[?|(-> & n & Hn & Hh & Hs)]]; [by left|by right; left|]. right. right. split; [done|].
  exists (S n). split_and!; [simpl; lia|done|done].
Qed.

Lemma parsed_same p0 T s s1 conf ls p r s' : said s1 = said s -> parsed p0 T s1 conf ls p r s' -> parsed p0 T s conf ls p r s'.
Proof. unfold parsed. by intros ->. Qed.

Section parse.
Context (p0 : uproc H) (tb tn conf comma : Z) (fuel : nat).
Context (Hlit : literal p0 comma) (Htn : tn <= MALLOC_MAX) (Hfuel : tn < Z.of_nat fuel).
Let T := [(tb, tn)].

(** One line, once its end is marked: [next] reads the lines that follow. *)
Lemma parse_line_ok s ls cur l rest (next : M (state H) Z) :
  holds p0 T s conf ls -> length ls = Z.to_nat INIT_NB_PRIO -> readable s tb tn cur l ->
  (forall s1 ls1, holds p0 T s1 conf ls1 -> length ls1 = Z.to_nat INIT_NB_PRIO ->
     (forall x, in_block tb tn x -> cur + Z.of_nat (length l) < x -> umem (proc s1) !! x = umem (proc s) !! x) ->
     wp next s1 (parsed p0 T s1 conf ls1 (parse_lines rest))) ->
  wp (let! entry := in_mem (skip_blank fuel cur) in
      if cur + Z.of_nat (length l) =? entry then next
      else
        let! first := in_mem (load entry) in
        if first =? 35 then next
        else
          let! r := import_entry garbage fuel comma entry conf in
          if r <? 0 then ret (-1) else next) s (parsed p0 T s conf ls (parse_lines (l :: rest))).
Proof.
  intros Hh Hlen (Hc & Hlo & Hhi) Hn. apply wp_bind, wp_in_mem. eapply wp_mono; [apply (skip_blank_ok _ l cur); [done|lia]|].
  intros entry m (-> & Htr & Een). rewrite with_mem_same. pose proof (trim_length l). cbn [parse_lines]. unfold parse_line.
  destruct (trim l) as [|c u] eqn:Et; simpl in Een.
  { rewrite (proj2 (Z.eqb_eq _ entry)) by lia. by apply Hn. }
  rewrite (proj2 (Z.eqb_neq _ entry)) by lia. pose proof (proj1 (cstr_cons _ _ _ _) Htr) as (Hx & _). apply wp_bind, wp_in_mem.
  eapply wp_load; [exact Hx|]. rewrite with_mem_same. destruct (c =? 35); [by apply Hn|].
  apply wp_bind. simpl in H2. eapply wp_mono; [apply (import_entry_ok p0 s conf ls tb tn entry (c :: u)); try done; split_and!; simpl; [done|lia|lia]|].
  intros r s1 [Hp Hk]. destruct (parse_entry (c :: u)) as [it|]; simpl.
  - destruct Hp as [(-> & Hh1 & Hs1)|(-> & Hh1 & Hs1)]; simpl.
    + eapply wp_mono; [apply Hn; [exact Hh1|unfold add_item; by rewrite length_alter|]|].
      * intros x Hx' Hgt. apply Hk; [done|]. unfold span. simpl. lia.
      * intros r s2 Hp2. destruct (parse_lines rest) as [its good]. by apply (parsed_cons p0 T s s1 conf ls it (its, good)).
    + apply wp_ret. destruct (parse_lines rest) as [its good]. right. right. split; [done|]. exists 0%nat. simpl. split_and!; [lia|done|done].
  - destruct Hp as (-> & Hh1 & Hs1). simpl. apply wp_ret. right. left. by split_and!.
Qed.

Lemma parse_loop_ok n : forall t s ls cur,
  holds p0 T s conf ls -> length ls = Z.to_nat INIT_NB_PRIO -> readable s tb tn cur t -> (length t < n)%nat ->
  wp (parse_loop garbage fuel comma n cur conf) s (parsed p0 T s conf ls (parse_text t)).
Proof.
  induction n as [|n IH]; intros t s ls cur Hh Hlen Hrd Hn; [lia|]. cbn [parse_loop]. unfold parse_text.
  destruct (lines_split t) as (l & o & -> & Et & Hl). pose proof Hrd as ([Hb Hch] & Hlo & Hhi).
  set (c := match o with None => 0 | Some _ => 10 end).
  assert (bytes_at (umem (proc s)) cur (l ++ [c]) /\ Forall (fun c => is_char c /\ c <> 0) l) as [Hb1 Hch1].
  { rewrite Et in Hb, Hch. rewrite <-app_assoc in Hb. apply bytes_at_app in Hb as [Hb1 Hb2]. apply Forall_app in Hch as [Hch _]. split; [|done].
    apply bytes_at_app. split; [done|]. unfold c. by destruct o; destruct Hb2 as [? _]. }
  assert (Z.of_nat (length l) <= Z.of_nat (length t)) as Hle by (rewrite Et, length_app; lia).
  apply wp_bind, wp_in_mem. eapply wp_mono; [apply (seek_eol_ok _ l c cur fuel Hb1); [|unfold c; destruct o; auto|lia]|].
  { apply Forall_and. split; [|done]. eapply Forall_impl; [exact Hch1|]. by intros x [_ ?]. }
  intros e m [-> ->]. rewrite with_mem_same. set (e := cur + Z.of_nat (length l)).
  apply bytes_at_app in Hb1 as [Hbl [He _]]. apply wp_bind, wp_in_mem. eapply wp_load; [exact He|]. rewrite with_mem_same.
  apply wp_bind, wp_in_mem, wp_store; [by eexists|done|]. set (s1 := with_mem _ s).
  assert (only (in_block tb tn) (umem (proc s)) (<[e := 0]> (umem (proc s)))) as Ho.
  { split; [intros x Hx; apply lookup_insert_ne; intros <-; apply Hx; unfold in_block, e; lia|].
    intros x Hx. apply lookup_insert_is_Some'. by right. }
  refine (parse_line_ok s1 ls cur l (match o with Some u => lines u | None => [] end) _ _ Hlen _ _).
  - by apply holds_write.
  - split_and!; [|done|lia]. split; [|done]. apply bytes_at_app. split; [apply bytes_at_frame; [done|unfold e; lia]|].
    split; [apply lookup_insert_eq|done].
  - intros s2 ls2 Hh2 Hlen2 Hk. unfold c. destruct o as [u|]; simpl.
    + apply IH; [done|done| |rewrite Et, length_app in Hn; simpl in Hn; lia].
      rewrite Et, length_app in Hhi. simpl in Hhi. split_and!; [|unfold e; lia|unfold e; lia].
      rewrite Et in Hb, Hch. rewrite <-app_assoc in Hb. apply bytes_at_app in Hb as [_ [_ Hb]]. apply Forall_app in Hch as [_ Hch].
      apply Forall_cons in Hch as [_ Hch]. split; [|done]. eapply bytes_at_kept; [exact Hb|]. intros x Hx.
      rewrite length_app in Hx. simpl in Hx. rewrite Hk by (unfold in_block, e in *; lia). simpl. apply lookup_insert_ne. unfold e. lia.
    + apply wp_ret. left. by split_and!.
Qed.

End parse.

(** ** The file *)

(** What [fstat] and [read] give of a file with the contents [t]: its size, and an error or
    bytes from the position, at least one and at most those that are asked for. *)
Record file_of (fd_size : option Z) (fd_read : Z -> Z -> Z + list Z) (t : list Z) : Prop := {
  fo_size : fd_size = Some (Z.of_nat (length t));
  fo_read : forall off n, 0 <= off < Z.of_nat (length t) -> 0 < n ->
    match fd_read off n with
    | inl _ => True
    | inr l => l <> [] /\ l `prefix_of` drop (Z.to_nat off) t /\ Z.of_nat (length l) <= n
    end;
}.

(** The text of a C string: a NUL in the file ends it. *)
Fixpoint c_text (t : list Z) : list Z :=
  match t with
  | [] => []
  | c :: t => if c =? 0 then [] else c :: c_text t
  end.

Lemma c_text_length t : (length (c_text t) <= length t)%nat.
Proof. induction t as [|c t IH]; simpl; [lia|]. destruct (c =? 0); simpl; lia. Qed.

Lemma c_text_cstr m t : forall a, Forall is_char t -> bytes_at m a (t ++ [0]) -> cstr m a (c_text t).
Proof.
  induction t as [|c t IH]; intros a Hf Hb; simpl in *; [by split|]. apply Forall_cons in Hf as [Hc Hf]. destruct Hb as [Hx Hb].
  destruct (Z.eqb_spec c 0) as [->|Hne]; [split; [by split|constructor]|]. destruct (IH (a + 1) Hf Hb) as [Hb' Hf'].
  split; [by split|by constructor].
Qed.

Section file.
Context (p0 : uproc H) (fd_size : option Z) (fd_read : Z -> Z -> Z + list Z) (t : list Z).
Context (Hfile : file_of fd_size fd_read t) (Hchars : Forall is_char t) (Hsize : Z.of_nat (length t) < MALLOC_MAX).
Let tn := Z.of_nat (length t) + 1.

(** The text is read to the block at [tb], or an error ends the reading. *)
Lemma read_text_ok R tb fuel : forall (k : nat) s, (k <= length t)%nat -> (length t - k <= fuel)%nat ->
  above nowhere p0 ((tb, tn) :: R) (proc s) -> bytes_at (umem (proc s)) tb (take k t) ->
  wp (read_loop fd_read fuel tb (tb + Z.of_nat k) (Z.of_nat (length t) - Z.of_nat k)) s (fun r s' => quiet R s s' /\
    match r with
    | None => above nowhere p0 R (proc s') /\ exists off n e, fd_read off n = inl e
    | Some tmp => tmp = tb + Z.of_nat (length t) /\ above nowhere p0 ((tb, tn) :: R) (proc s') /\ bytes_at (umem (proc s')) tb t
    end).
Proof.
  assert (MALLOC_MAX < 2 ^ 32) as HM by (unfold MALLOC_MAX; lia).
  induction fuel as [|fuel IH]; intros k s Hk Hf Ha Hb; cbn [read_loop]; rewrite Z.gtb_ltb.
  { rewrite (proj2 (Z.ltb_ge 0 _)) by lia. apply wp_ret. split; [done|]. rewrite take_ge in Hb by lia. split_and!; [lia|done|done]. }
  destruct (Z.ltb_spec 0 (Z.of_nat (length t) - Z.of_nat k)) as [Hlt|Hge].
  2: { apply wp_ret. split; [done|]. rewrite take_ge in Hb by lia. split_and!; [lia|done|done]. }
  replace (tb + Z.of_nat k - tb) with (Z.of_nat k) by lia. rewrite u32_small by lia.
  pose proof (fo_read _ _ _ Hfile (Z.of_nat k) (Z.of_nat (length t) - Z.of_nat k) ltac:(lia) Hlt) as Hr.
  destruct (fd_read _ _) as [e|l] eqn:Er.
  - apply wp_bind. eapply wp_mono; [apply (free_opt_ok p0 R s tb tn)|].
    { unfold opt_block. destruct (block_pos _ _ _ _ tb tn Ha ltac:(left)). by rewrite (proj2 (Z.eqb_neq tb 0)) by lia. }
    intros _ s' [(Ha' & Hk' & Hc & Hs) _]. apply wp_ret. split; [split_and!; [done|done|by rewrite Hs, app_nil_r]|]. eauto.
  - rewrite Nat2Z.id in Hr. destruct Hr as (Hne & [u Hu] & Hl). apply wp_bind, wp_in_mem.
    assert (length l <= length t - k)%nat as Hll by (pose proof (f_equal length Hu) as E; rewrite length_drop, length_app in E; lia).
    assert (Forall is_char l) as Hcl.
    { assert (Forall is_char (drop k t)) as Hd by by apply Forall_drop. rewrite Hu in Hd. by apply Forall_app in Hd as [? _]. }
    eapply wp_mono; [apply store_all_ok; [|done]|].
    { pose proof (uo_mapped _ (ab_ok _ _ _ _ Ha) _ _ (above_lookup _ _ _ _ _ _ Ha ltac:(left))) as Hw. intros x Hx. apply Hw. unfold tn. lia. }
    intros _ m ->. set (s1 := with_mem _ s). assert (only (in_block tb tn) (umem (proc s)) (umem (proc s1))) as Ho.
    { eapply only_mono; [apply store_bytes_only|]. intros x. unfold in_block, tn. lia. }
    replace (tb + Z.of_nat k + Z.of_nat (length l)) with (tb + Z.of_nat (k + length l)) by lia.
    replace (Z.of_nat (length t) - Z.of_nat k - Z.of_nat (length l)) with (Z.of_nat (length t) - Z.of_nat (k + length l)) by lia.
    assert (0 < length l)%nat by (destruct l; [done|simpl; lia]).
    eapply wp_mono; [apply IH; [lia|lia| |]|].
    + eapply above_mem; [exact Ha|exact Ho|]. intros x Hx Hox. by eapply above_apart in Hox; [|exact Ha|left|done].
    + rewrite <-take_take_drop, Hu, take_app_length. apply bytes_at_app. rewrite length_take, Nat.min_l by lia.
      split; [|apply bytes_at_store_bytes]. apply bytes_at_store_bytes_ne; [done|]. left. rewrite length_take. lia.
    + intros r s2 [Hq2 H2r]. split; [|done]. eapply quiet_trans; [|exact Hq2]. split_and!; [by eapply kept_write|done..].
Qed.

(** Why the text could not be read. *)
Definition unreadable s : Prop :=
  (exists off n e, fd_read off n = inl e) \/ (exists p', umalloc tn (proc s) = Done (0, p')).

Lemma read_conf_ok B s fuel : above nowhere p0 B (proc s) -> (length t <= fuel)%nat ->
  wp (read_conf_from_fd fd_size fd_read fuel) s (fun r s' => quiet B s s' /\
    match r with
    | None => above nowhere p0 B (proc s') /\ unreadable s
    | Some tb => above nowhere p0 ((tb, tn) :: B) (proc s') /\ bytes_at (umem (proc s')) tb (t ++ [0])
    end).
Proof.
  intros Ha Hf. assert (MALLOC_MAX < 2 ^ 32) as HM by (unfold MALLOC_MAX; lia).
  unfold read_conf_from_fd. rewrite (fo_size _ _ _ Hfile), u32_small by lia. fold tn. apply wp_bind, wp_zoom.
  pose proof (above_malloc nowhere p0 B (proc s) tn Ha ltac:(unfold tn; lia)) as Hm.
  destruct (proj1 (wp_run _ _ _) Hm) as (tb & p' & Erun & Hp). apply wp_run. exists tb, p'. split; [done|]. clear Hm.
  destruct Hp as [(-> & Ha' & Em)|(Hne & Ha' & Hal)].
  { apply wp_ret. split; [split_and!; [split; [done|]; intros; simpl; by rewrite Em|done..]|]. split; [done|]. right. by exists p'. }
  rewrite (proj2 (Z.eqb_neq tb 0)) by done. assert (quiet B s (set_proc p' s)) as Hq by (split_and!; [by eapply kept_new|done..]).
  pose proof (read_text_ok B tb fuel 0 (set_proc p' s) ltac:(lia) ltac:(lia) Ha' I) as Hr. simpl in Hr. rewrite Z.add_0_r, Z.sub_0_r in Hr.
  apply wp_bind. eapply wp_mono; [exact Hr|]. clear Hr. intros [tmp|] s' [Hq' Hs'].
  2: { apply wp_ret. split; [by eapply quiet_trans|]. destruct Hs' as [Ha2 He]. split; [done|by left]. }
  destruct Hs' as (-> & Ha2 & Hb). pose proof (uo_mapped _ (ab_ok _ _ _ _ Ha2) _ _ (above_lookup _ _ _ _ _ _ Ha2 ltac:(left))) as Hw.
  apply wp_bind, wp_in_mem, wp_store; [apply Hw; unfold tn; lia|done|]. apply wp_ret. set (m := <[_ := 0]> _).
  assert (only (in_block tb tn) (umem (proc s')) m) as Ho.
  { split; [intros x Hx; apply lookup_insert_ne; intros <-; apply Hx; unfold in_block, tn; lia|].
    intros x Hx. apply lookup_insert_is_Some'. by right. }
  split; [|split].
  - eapply quiet_trans; [exact Hq|]. eapply quiet_trans; [exact Hq'|]. split_and!; [by eapply kept_write|done..].
  - eapply above_mem; [exact Ha2|exact Ho|]. intros x Hx Hox. by eapply above_apart in Hox; [|exact Ha2|left|done].
  - apply bytes_at_app. split; [apply bytes_at_frame; [done|lia]|]. split; [apply lookup_insert_eq|done].
Qed.

Lemma holds_text s s' conf ls c B tb : confs s !! conf = Some c -> levels s (entries c) ls B ->
  quiet ((conf, sizeof_conf) :: B) s s' -> above nowhere p0 ((tb, tn) :: (conf, sizeof_conf) :: B) (proc s') ->
  holds p0 [(tb, tn)] s' conf ls.
Proof.
  intros Hc Hl (Hk & Ec & _) Ha. exists c, B. split_and!; [by rewrite Ec|eapply levels_kept; [exact Hk|set_solver|done]|done].
Qed.

Lemma holds_free s conf ls tb : holds p0 [(tb, tn)] s conf ls ->
  wp (in_proc (ufree tb)) s (fun _ s' => holds p0 [] s' conf ls /\ said s' = said s).
Proof.
  intros (c & B & Hc & Hl & Ha). eapply wp_mono; [apply (free_opt_ok p0 ((conf, sizeof_conf) :: B) s tb tn)|].
  { unfold opt_block. destruct (block_pos _ _ _ _ tb tn Ha ltac:(left)). by rewrite (proj2 (Z.eqb_neq tb 0)) by lia. }
  intros _ s' [(Ha' & Hk & Ec & Es) _]. split; [|by rewrite Es, app_nil_r].
  exists c, B. split_and!; [by rewrite Ec|eapply levels_kept; [exact Hk|set_solver|done]|done].
Qed.

Lemma conf_parse_ok s conf ls comma fuel : holds p0 [] s conf ls -> length ls = Z.to_nat INIT_NB_PRIO -> literal p0 comma ->
  tn < Z.of_nat fuel ->
  wp (init_conf_parse garbage fd_size fd_read fuel comma conf) s (fun r s' =>
    (r = -1 /\ holds p0 [] s' conf ls /\ said s' = said s /\ unreadable s) \/ parsed p0 [] s conf ls (parse_text (c_text t)) r s').
Proof.
  intros Hh Hlen Hlit Hf. destruct Hh as (c & B & Hc & Hl & Ha). unfold init_conf_parse. apply wp_bind.
  eapply wp_mono; [apply (read_conf_ok _ s fuel Ha); unfold tn in Hf; lia|]. intros [tb|] s1 [Hq Hs1].
  2: { apply wp_ret. left. destruct Hs1 as [Ha1 Hu]. destruct Hq as (Hk & Ec & Es). split_and!; [done| |done|done].
       exists c, B. split_and!; [by rewrite Ec|eapply levels_kept; [exact Hk|set_solver|done]|done]. }
  destruct Hs1 as [Ha1 Hb1]. pose proof (c_text_length t).
  apply wp_bind. eapply wp_mono; [apply (parse_loop_ok p0 tb tn conf comma fuel) with (t := c_text t) (ls := ls); try done|].
  - unfold tn. lia.
  - by eapply holds_text.
  - split_and!; [by apply c_text_cstr|lia|unfold tn; lia].
  - unfold tn in Hf. lia.
  - intros r s2 Hp. apply (parsed_same p0 _ s s1) in Hp; [|apply Hq].
    destruct Hp as [(-> & Hg & Hh & Hs)|[(-> & Hg & Hh & Hs)|(-> & n & Hn & Hh & Hs)]]; apply wp_bind; (eapply wp_mono; [exact (holds_free _ _ _ _ Hh)|]);
      intros _ s3 [Hh3 Hs3]; apply wp_ret; right; unfold parsed; rewrite Hs3; [left|right; left|right; right]; split_and!; eauto.
Qed.

End file.

(** ** Creating and destroying *)

Lemma levels_nil s n : levels s (replicate n 0) (replicate n []) [].
Proof. induction n as [|n IH]; simpl; [done|]. by exists [], []. Qed.

Lemma conf_create_ok s : uproc_ok (proc s) ->
  wp init_conf_create s (fun conf s' => said s' = said s /\
    ((conf = 0 /\ above nowhere (proc s) [] (proc s')) \/
     (conf <> 0 /\ holds (proc s) [] s' conf (replicate (Z.to_nat INIT_NB_PRIO) [])))).
Proof.
  intros Hok. apply wp_bind, wp_zoom.
  eapply wp_mono; [apply (above_malloc nowhere (proc s) []); [by apply above_refl|unfold sizeof_conf, INIT_NB_PRIO, INIT_LOWEST_PRIO, INIT_HIGHEST_PRIO, MALLOC_MAX; lia]|].
  intros conf p' [(-> & Ha & _)|(Hne & Ha & _)]; [apply wp_ret; by auto|]. rewrite (proj2 (Z.eqb_neq conf 0)) by done.
  apply wp_bind, wp_modify, wp_ret. split; [done|]. right. split; [done|]. eexists _, []. split_and!; [apply lookup_insert_eq| |done].
  apply levels_nil.
Qed.

Lemma destroy_entries_ok p0 R its : forall n s a B, chain s a its B -> above nowhere p0 (B ++ R) (proc s) -> (length its <= n)%nat ->
  wp (destroy_entries n a) s (fun _ s' => leaves p0 R [] s s').
Proof.
  induction its as [|it its IH]; intros n s a B Hc Ha Hn.
  { destruct Hc as [-> ->]. destruct n; apply wp_ret; unfold leaves; rewrite app_nil_r; by split_and!. }
  destruct Hc as (Hne & e & B' & He & _ & Hc & ->). destruct n as [|n]; simpl in Hn; [lia|]. cbn [destroy_entries].
  rewrite (proj2 (Z.eqb_neq a 0)) by done. apply wp_bind, wp_bind, wp_get. rewrite He. apply wp_ret.
  rewrite <-(assoc_L (++)) in Ha. unfold item_strings in Ha. simpl in Ha. apply wp_bind. eapply wp_mono; [eapply free_strings_ok, Ha|].
  intros _ s1 [Hl1 _]. apply wp_bind. eapply wp_mono; [apply free_entry_ok, Hl1|]. intros u s2 Hl2.
  assert (leaves p0 (B' ++ R) [] s s2) as Hl12 by (refine (leaves_trans _ _ _ [] [] _ _ _ Hl1 Hl2 _); set_solver).
  eapply wp_mono; [apply (IH n s2 (next e) B'); [|apply Hl2|lia]|].
  - eapply chain_kept; [apply Hl12|set_solver|done].
  - intros v s3 Hl3. refine (leaves_trans _ _ _ [] [] _ _ _ Hl12 Hl3 _). set_solver.
Qed.

Lemma destroy_levels_ok p0 R n heads : forall ls s B, levels s heads ls B -> above nowhere p0 (B ++ R) (proc s) ->
  Forall (fun its => length its <= n)%nat ls -> wp (destroy_levels n heads) s (fun _ s' => leaves p0 R [] s s').
Proof.
  induction heads as [|a heads IH]; intros [|its ls] s B Hl Ha Hn; try done.
  { simpl in Hl. subst B. apply wp_ret. unfold leaves. rewrite app_nil_r. by split_and!. }
  destruct Hl as (B1 & B2 & Hc & Hl & ->). apply Forall_cons in Hn as [Hn1 Hn2]. rewrite <-(assoc_L (++)) in Ha. cbn [destroy_levels].
  apply wp_bind. eapply wp_mono; [by eapply destroy_entries_ok|]. intros u s1 Hl1.
  eapply wp_mono; [apply (IH ls s1 B2); [|apply Hl1|done]|].
  - eapply levels_kept; [apply Hl1|set_solver|done].
  - intros v s2 Hl2. refine (leaves_trans _ _ _ [] [] _ _ _ Hl1 Hl2 _). set_solver.
Qed.

Lemma conf_destroy_ok p0 n s conf ls : holds p0 [] s conf ls -> Forall (fun its => length its <= n)%nat ls ->
  wp (init_conf_destroy n conf) s (fun _ s' => above nowhere p0 [] (proc s') /\ said s' = said s).
Proof.
  intros (c & B & Hc & Hl & Ha) Hn. simpl in Ha. destruct (block_pos _ _ _ _ conf sizeof_conf Ha ltac:(left)) as [Hp _].
  unfold init_conf_destroy. rewrite (proj2 (Z.eqb_neq conf 0)) by lia. apply wp_bind, wp_bind, wp_get. rewrite Hc. apply wp_ret, wp_bind.
  eapply wp_mono; [apply (destroy_levels_ok p0 [(conf, sizeof_conf)] n (entries c) ls s B); [done| |done]|].
  { eapply above_perm; [exact Ha|]. solve_Permutation. }
  intros u s1 (Ha1 & _ & _ & Es1). apply wp_bind. eapply wp_mono; [apply (free_opt_ok p0 [] s1 conf sizeof_conf)|].
  { unfold opt_block. by rewrite (proj2 (Z.eqb_neq conf 0)) by lia. }
  intros _ s2 [(Ha2 & _ & _ & Es2) _]. apply wp_modify. split; [done|]. simpl. by rewrite Es2, Es1, !app_nil_r.
Qed.

(** No list is longer than the items there are. *)
Lemma add_item_length n ls it : Forall (fun its => length its <= n)%nat ls -> Forall (fun its => length its <= S n)%nat (add_item ls it).
Proof.
  unfold add_item. generalize (Z.to_nat (i_prio it)). intros i Hl. revert i.
  induction Hl as [|its ls Hi Hl IH]; intros [|i]; simpl; constructor; simpl; try lia; try done.
  - eapply Forall_impl; [exact Hl|]. simpl. lia.
  - apply IH.
Qed.

Lemma by_priority_length its : forall n ls, Forall (fun l => length l <= n)%nat ls ->
  Forall (fun l => length l <= n + length its)%nat (foldl add_item ls its).
Proof.
  induction its as [|it its IH]; intros n ls Hl; simpl; [by rewrite Nat.add_0_r|].
  replace (n + S (length its))%nat with (S n + length its)%nat by lia. apply IH. by apply add_item_length.
Qed.

Lemma lines_length t : (length (lines t) <= S (length t))%nat.
Proof. induction t as [|c t IH]; simpl; [lia|]. destruct (c =? 10); simpl; [lia|]. destruct (lines t); simpl in *; lia. Qed.

Lemma parse_lines_length ls : (length (parse_lines ls).1 <= length ls)%nat.
Proof.
  induction ls as [|l ls IH]; simpl; [lia|]. destruct (parse_line l) as [[it|]|]; simpl; [|lia|lia].
  destruct (parse_lines ls). simpl in *. lia.
Qed.

(** ** Theorems *)

Section theorems.
Context (fd_size : option Z) (fd_read : Z -> Z -> Z + list Z) (comma : Z) (fuel : nat).

(** The configuration of [main]: its address, and what the parser returns. *)
Definition load_conf : M (state H) (Z * Z) :=
  let! conf := init_conf_create in
  if conf =? 0 then ret (0, 0)
  else
    let! r := init_conf_parse garbage fd_size fd_read fuel comma conf in
    ret (conf, r).

Lemma load_conf_ok s t : uproc_ok (proc s) -> literal (proc s) comma -> file_of fd_size fd_read t -> Forall is_char t ->
  Z.of_nat (length t) < MALLOC_MAX -> (length t + 1 < fuel)%nat ->
  wp load_conf s (fun r s' =>
    (r = (0, 0) /\ above nowhere (proc s) [] (proc s')) \/
    (r.1 <> 0 /\ ((r.2 = -1 /\ holds (proc s) [] s' r.1 (by_priority []) /\ said s' = said s /\ exists s1, unreadable fd_read t s1) \/
      parsed (proc s) [] s r.1 (by_priority []) (parse_text (c_text t)) r.2 s'))).
Proof.
  intros Hok Hlit Hfile Hch Hsz Hf. apply wp_bind. eapply wp_mono; [by apply conf_create_ok|].
  intros conf s1 (Es & [(-> & Ha)|(Hne & Hh)]); [apply wp_ret; by left|]. rewrite (proj2 (Z.eqb_neq conf 0)) by done.
  apply wp_bind. eapply wp_mono; [eapply (conf_parse_ok (proc s) fd_size fd_read t); try done; lia|].
  intros r s2 Hp. apply wp_ret. right. split; [done|]. simpl.
  destruct Hp as [(-> & Hh2 & Es2 & Hu)|Hp]; [left|right].
  - split_and!; [done|done|congruence|by exists s1].
  - by eapply parsed_same.
Qed.

(** C31: The configuration file is read as the language it is in, for every contents: each
    line with an entry gives an item, in the list of its priority and before those that
    precede it in the file; blank lines and comments give none.  When the parser fails,
    the configuration holds the items before a bad line or before the entry for which
    there was no memory, with the message that says which, or none when the file could not
    be read. *)
Theorem init_conf_reads s t : uproc_ok (proc s) -> literal (proc s) comma -> file_of fd_size fd_read t -> Forall is_char t ->
  Z.of_nat (length t) < MALLOC_MAX -> (length t + 1 < fuel)%nat ->
  let '(its, good) := parse_text (c_text t) in
  wp load_conf s (fun r s' => let '(conf, r) := r in
    conf = 0 \/
    (r = 0 /\ good = true /\ holds (proc s) [] s' conf (by_priority its) /\ said s' = said s) \/
    (r = -1 /\ good = false /\ holds (proc s) [] s' conf (by_priority its) /\
       exists t, t ∈ [bad_format; bad_priority] /\ said s' = said s ++ [t]) \/
    (r = -1 /\ exists n, (n < length its)%nat /\ holds (proc s) [] s' conf (by_priority (take n its)) /\ said s' = said s ++ [no_memory]) \/
    (r = -1 /\ holds (proc s) [] s' conf (by_priority []) /\ said s' = said s /\ exists s1, unreadable fd_read t s1)).
Proof.
  intros Hok Hlit Hfile Hch Hsz Hf. destruct (parse_text (c_text t)) as [its good] eqn:E.
  eapply wp_mono; [by apply load_conf_ok|]. rewrite E. intros [conf r] s' [([= -> _] & _)|(_ & Hp)]; [by left|]. right. simpl in Hp.
  destruct Hp as [Hu|[Hp|[Hp|Hp]]]; [by right; right; right|by left|by right; left|by right; right; left].
Qed.

(** C32: Whatever the file holds and wherever memory runs out, a configuration that is
    created, read and destroyed gives back every block: the heap of the process is the one
    from before, and none of its other data has changed. *)
Theorem init_conf_gives_back s t : uproc_ok (proc s) -> literal (proc s) comma -> file_of fd_size fd_read t -> Forall is_char t ->
  Z.of_nat (length t) < MALLOC_MAX -> (length t + 1 < fuel)%nat ->
  wp (let! '(conf, _) := load_conf in init_conf_destroy fuel conf) s (fun _ s' =>
    blocks (proc s') = blocks (proc s) /\ uproc_ok (proc s') /\
    forall x, owned (proc s) x -> umem (proc s') !! x = umem (proc s) !! x).
Proof.
  intros Hok Hlit Hfile Hch Hsz Hf. apply wp_bind. eapply wp_mono; [by apply load_conf_ok|].
  intros [conf r] s1 Hp. simpl in Hp. assert (forall s', above nowhere (proc s) [] (proc s') -> blocks (proc s') = blocks (proc s) /\
    uproc_ok (proc s') /\ forall x, owned (proc s) x -> umem (proc s') !! x = umem (proc s) !! x) as Hend.
  { intros s' [Hok' _ _ Hb Hm]. split_and!; [rewrite Hb; simpl; by rewrite (left_id_L ∅ (∪))|done|]. intros x Hx. apply Hm; [done|by intros []]. }
  destruct Hp as [([= -> _] & Ha)|(Hne & Hp)]; [apply wp_ret; by apply Hend|].
  assert (exists its, holds (proc s) [] s1 conf (by_priority its) /\ (length its <= fuel)%nat) as (its & Hh & Hl).
  { pose proof (c_text_length t). pose proof (lines_length (c_text t)). pose proof (parse_lines_length (lines (c_text t))).
    destruct Hp as [(_ & Hh & _)|[(_ & _ & Hh & _)|[(_ & _ & Hh & _)|(_ & n & Hn & Hh & _)]]].
    - exists []. split; [done|simpl; lia].
    - eexists. split; [exact Hh|]. unfold parse_text. lia.
    - eexists. split; [exact Hh|]. unfold parse_text. lia.
    - eexists. split; [exact Hh|]. unfold parse_text in Hn |- *. rewrite length_take. lia. }
  eapply wp_mono; [apply (conf_destroy_ok (proc s) fuel s1 conf (by_priority its) Hh)|].
  - eapply Forall_impl; [apply (by_priority_length its 0)|simpl; lia]. apply Forall_replicate. simpl. lia.
  - intros _ s2 [Ha _]. by apply Hend.
Qed.

End theorems.
End spec.

(** ** A sample: a file with a comment, an entry with a device and one without *)

#[local] Existing Instances Malloc.bump_pages Malloc.malloc_uheap UMem.bump_memory.

Definition newline : string := String (Ascii.ascii_of_nat 10) EmptyString.
Definition sample_text : list Z := text ("# drivers" +:+ newline +:+ " 0,/bin/null,,,null" +:+ newline +:+ newline +:+ "3,/bin/shell,-l,tty0,").
Definition sample_size : option Z := Some (Z.of_nat (length sample_text)).
Definition sample_read (off n : Z) : Z + list Z := inr (take (Z.to_nat (Z.min n 16)) (drop (Z.to_nat off) sample_text)).
Definition no_entry : init_prio_entry := {| bin := 7; argv := 7; tty := 7; device := 7; launched := 7; ready := 7; next := 7 |}.
Definition sample_init : state (Malloc.heap Z) := {|
  proc := {| uheap := Malloc.first_heap; umem := store_bytes 100 [44; 0] ∅; blocks := ∅ |};
  ents := ∅; confs := ∅; said := [];
|}.

Lemma sample_file : file_of sample_size sample_read sample_text.
Proof.
  split; [done|]. intros off n Ho Hn. unfold sample_read. set (l := drop _ _). assert (length l = Z.to_nat (Z.of_nat (length sample_text) - off)) as Hl.
  { unfold l. rewrite length_drop. lia. }
  split_and!.
  - intros E. apply (f_equal length) in E. rewrite length_take in E. simpl length in E at 2. lia.
  - exists (drop (Z.to_nat (Z.min n 16)) l). by rewrite take_drop.
  - rewrite length_take. lia.
Qed.

Lemma sample_literal : literal (proc sample_init) 100.
Proof. split; [split; [by vm_compute|by repeat constructor]|]. intros x Hx. left. simpl. lia. Qed.

Lemma sample_chars : Forall is_char sample_text.
Proof.
  assert (Forall (fun c => (-128 <=? c) && (c <? 128) = true) sample_text) as Hf by (apply (bool_decide_unpack _); by vm_compute).
  eapply Forall_impl; [exact Hf|]. unfold is_char. simpl. lia.
Qed.

Lemma sample_init_ok : uproc_ok (proc sample_init).
Proof. exact (uproc_start_ok _ _ (proj1 Malloc.first_heap_inv)). Qed.

Lemma init_conf_reads_witness :
  wp (load_conf no_entry sample_size sample_read 100 100) sample_init (fun r s' => r.2 = 0 /\ r.1 <> 0 /\
    holds (proc sample_init) [] s' r.1 (by_priority [
      {| i_prio := 0; i_bin := text "/bin/null"; i_argv := []; i_tty := []; i_device := text "null" |};
      {| i_prio := 3; i_bin := text "/bin/shell"; i_argv := text "-l"; i_tty := text "tty0"; i_device := [] |}])).
Proof.
  assert (wp (load_conf no_entry sample_size sample_read 100 100) sample_init (fun r _ => r.2 = 0 /\ r.1 <> 0)) as Hr.
  { unfold wp. by vm_compute. }
  assert (exists p, parse_text (c_text sample_text) = p /\ p = ([
      {| i_prio := 0; i_bin := text "/bin/null"; i_argv := []; i_tty := []; i_device := text "null" |};
      {| i_prio := 3; i_bin := text "/bin/shell"; i_argv := text "-l"; i_tty := text "tty0"; i_device := [] |}], true)) as (p & Ep & E).
  { eexists. split; [reflexivity|]. by vm_compute. }
  assert (Z.of_nat (length sample_text) < MALLOC_MAX) as Hm by by vm_compute.
  assert (length sample_text + 1 < 100)%nat as Hf by (apply Nat.ltb_lt; by vm_compute).
  pose proof (init_conf_reads no_entry sample_size sample_read 100 100 sample_init sample_text sample_init_ok sample_literal
    sample_file sample_chars Hm Hf) as Ht. rewrite Ep, E in Ht. eapply wp_mono; [exact (wp_and _ _ _ _ Hr Ht)|]. clear.
  intros [conf r] s' [[Hr0 Hc0] Hp]. cbn [fst snd] in *. subst r. split; [reflexivity|]. split; [exact Hc0|].
  destruct Hp as [E|[(_ & _ & Hh & _)|[(E & _)|[(E & _)|(E & _)]]]]; [by destruct (Hc0 E)|exact Hh|discriminate E..].
Defined.

Lemma init_conf_gives_back_witness :
  wp (let! '(conf, _) := load_conf no_entry sample_size sample_read 100 100 in init_conf_destroy 100 conf) sample_init (fun _ s' =>
    blocks (proc s') = ∅).
Proof.
  assert (Z.of_nat (length sample_text) < MALLOC_MAX) as Hm by by vm_compute.
  assert (length sample_text + 1 < 100)%nat as Hf by (apply Nat.ltb_lt; by vm_compute).
  pose proof (init_conf_gives_back no_entry sample_size sample_read 100 100 sample_init sample_text sample_init_ok sample_literal
    sample_file sample_chars Hm Hf) as Ht. eapply wp_mono; [exact Ht|]. clear. intros _ s' [Hb _]. exact Hb.
Defined.

End InitConfSpec.
